(* ===== verification/_CoqProject ===== *)
-Q . S2P
Prelude.v
Bits.v
Poptrie.v
PoptrieEmit.v
PoptrieBuild.v
PoptrieSpec.v
PoptrieValidate.v
PoptrieMain.v
Ring.v
RingProofs.v
RingMain.v
Core.v
CoreMain.v
Buffer.v
BufferSpec.v
Endpoint.v
EndpointProofs.v
EndpointMain.v
Umem.v
Window.v
PacketBuf.v
PacketBufProofs.v
PacketBufMain.v
Wire.v
WireProofs.v
WireMain.v
XdpUdp.v
XdpUdpMain.v
Route.v
RouteProofs.v
RouteMain.v
Reclaim.v
ReclaimProofs.v
ReclaimMain.v
HeapPool.v
Live.v
LiveRing.v
LiveProofs.v
LiveTx.v
LiveSend.v
LiveRx.v
LiveSteps.v
LiveIp.v
Direct.v
DirectProofs.v
LiveMain.v
DirectMain.v
Filter.v
FilterProofs.v
Program.v
ProgramProofs.v
FilterMain.v
Netlink.v
NetlinkProofs.v
NetlinkSpec.v
Snapshot.v
NetlinkMain.v
OsBuffer.v
OsBufferProofs.v
OsPools.v
OsSocket.v
OsSend.v
OsRecv.v
OsMain.v
Aggregate.v
Actor.v
ActorProofs.v
ActorMain.v
Interface.v
InterfaceMain.v
Factory.v
FactoryProofs.v
FactoryMain.v
RawOpen.v
RawOpenMain.v
OsOpen.v
OpenLive.v
OpenLiveProofs.v
OpenLiveMain.v
OpenSocket.v
