(* ===== verification/Prelude.v ===== *)
(** * Verification of fast-socket-rs

    fast-socket-rs sends and receives UDP datagrams and IP packets through
    interchangeable backends. This library models its Rust code and proves
    what makes it correct. Names follow the source; a field [x] of a struct
    is a projection with a short prefix.

    ** The program

    - [crates/fast-socket-rs] is the vocabulary every backend shares: errors,
      transmit slots and receive batches, packet buffers and their layouts,
      the UDP and IP socket traits with prepared endpoints and the
      send-to-completion loops, link addresses, device counters, pinning.
    - [crates/poptrie] is a longest-prefix-match table: a builder over a
      binary trie, an emitter of packed arrays, an unchecked lookup and a
      checker of the arrays' invariants.
    - [crates/fast-socket-xdp-rs] is the AF_XDP backend: shared packet memory
      (UMEM) cut into frames, four lock-free rings shared with the kernel,
      packet buffers that are handles into UMEM, routes resolved through the
      table above into prebuilt Ethernet headers, the wire formats, and the
      sockets that tie them together.
    - [crates/fast-socket-xdp-ebpf] is the filter that runs in the kernel and
      redirects datagrams to bound ports into the AF_XDP sockets.
    - [crates/fast-socket-os-rs] is the kernel-socket backend: pools of heap
      buffers and a UDP socket over batched system calls.
    - [crates/fast-socket-async-rs] is an actor that owns a socket in a task
      of an asynchronous runtime and lends its buffers to other tasks.

    A send goes: the application fills buffers of a pool, the router turns
    each destination into an Ethernet header, IPv4 and UDP headers are written
    in place before the payload, the frame's address becomes a descriptor, and
    descriptors are staged in the TX ring and committed. A receive goes the
    other way: descriptors are drained from the RX ring, checked against UMEM,
    parsed, filtered by port, and wrapped as buffers.

    ** The files

    - [Prelude] (this file): outcomes, results, machine integers, indexed list
      access, tactics. [Bits]: population count and bit lemmas. [Window]:
      contiguous parts of lists.
    - [Poptrie] models [poptrie/src/lib.rs] and [build.rs]; [PoptrieEmit],
      [PoptrieBuild], [PoptrieSpec] and [PoptrieValidate] prove the emitter,
      the builder, lookup against longest-prefix match, and the checker;
      [PoptrieMain] states the properties.
    - [Ring] models [ring.rs] and the ring operations of [raw_socket.rs];
      [RingProofs] holds the invariants of a producer and a consumer ring;
      [RingMain] interleaves userspace and kernel steps.
    - [Core] models [error.rs], [sys.rs], [batch.rs], [device.rs],
      [ip_packet.rs], [udp.rs] (data), [route.rs] (link addresses),
      [policy.rs] and [affinity.rs]; [CoreMain] their properties.
    - [Buffer] models [buffer.rs]: the layout builder and the buffer traits as
      classes with laws; [BufferSpec] the layout properties and the
      abstract buffer, a byte string with room on both sides, and the
      refinement of any lawful buffer to it.
    - [Endpoint] models the endpoint code and loops of [udp.rs]; the socket is
      a class. [EndpointProofs] states contracts of a send, a drain and their
      progress, and proves the generic code against them; [EndpointMain]
      gives the properties and a loopback socket that meets the contracts.
    - [Umem]: [umem.rs] and its properties. [PacketBuf], [PacketBufProofs] and
      [PacketBufMain]: the buffers of the AF_XDP [buffer.rs], which are an
      instance of the traits and of their laws.
    - [Wire], [WireProofs] and [WireMain]: [egress.rs] and the parsing and
      header code of [socket.rs].
    - [XdpUdp] and [XdpUdpMain]: routers, endpoint caches, in-place header
      construction and the per-packet steps of the send loops of [socket.rs].
    - [Route], [RouteProofs] and [RouteMain]: [route.rs] and the queue-local
      router of [socket.rs], which is an instance of the router class.
    - [Reclaim], [ReclaimProofs] and [ReclaimMain]: the free-frame lists of
      the AF_XDP [buffer.rs] with their cross-thread return queue, and the
      routing of completed frames in [socket.rs]. The lock-free array queue is
      a third-party package: a class with its documented laws.
    - [Live] models the live socket of [socket.rs]: its parts, completion
      draining, transmit allocation, the UDP send and receive functions, fill
      replenishing, wake-ups and buffer drops. [LiveRing] describes the rings'
      contents, [LiveProofs] the invariant that accounts for every frame and
      the draining and allocation lemmas, [LiveTx] and [LiveSend] sending,
      [LiveRx] receiving, [LiveIp] the send and receive functions of IP packets
      with their proofs, [LiveSteps] opening, drops and the kernel's steps;
      [LiveMain] states the properties, over every interleaving and for IP
      packets. [HeapPool] models the pools without a live half, whose frames
      are on the heap, and states their property. [Direct] models the direct endpoint batch of
      [buffer.rs] and [socket.rs], through raw pointers, [DirectProofs] proves
      it, and [DirectMain] follows it from the callback to the wire.
    - [RawOpen] models the system calls of [raw_socket.rs] and the mappings of
      [ring.rs], over a trace of calls and the kernel's answers to them, with
      the drop of what an error path leaves behind; [RawOpenMain] states what
      is taken and given back. [OpenLive] models [open], [open_shared_members]
      and [drop] of the live state of [socket.rs] over those calls, the
      registry of [Program] and the configuration of [Factory];
      [OpenLiveProofs] reasons about owned values in scope and the XSKMAP, and
      [OpenLiveMain] states the properties, that of the builder's default
      sizes included. [OpenSocket] models what is built on top: the socket
      constructors of [socket.rs] with their drivers and what these wait for,
      the UDP sockets over IP sockets, the constructors of [aggregate.rs] and the openings of a
      worker's plan of [factory.rs]; it states that a plan opens whole.
    - [Filter] models the kernel filter ([main.rs] and [lib.rs] of its crate),
      [Program] the code that loads it and keeps its ports and sockets
      ([program.rs]); the BPF loader and the redirect helper are classes with
      laws. [FilterProofs] and [ProgramProofs] hold the parsing lemmas, the
      port and the registry invariants; [FilterMain] the properties.
    - [Netlink] models [netlink.rs], [Snapshot] the snapshot built from its
      dumps ([route.rs]) and [route_monitor.rs]. [NetlinkProofs] proves the
      readers total, [NetlinkSpec] says what a kernel that answers sends, and
      [NetlinkMain] states the properties.
    - [OsBuffer] models the kernel-socket [buffer.rs], with pools in a heap;
      [OsBufferProofs] shows that its buffers meet the laws of the traits,
      [OsPools] the invariant of pools and buffers over time. [OsSocket]
      models its [lib.rs], the system calls being a class; [OsSend] states the
      laws of that class and proves sending, and that the socket
      meets the contracts of [EndpointProofs], [OsRecv] receiving,
      construction and drop; [OsMain] states the properties, with a small
      kernel that meets the laws. [OsSocket] also has the variants for systems
      without batched calls, and [OsSend] and [OsRecv] what they promise.
      [OsOpen] models the builder and the system calls of its bind on the
      trace of [RawOpen], and states what a bind takes and gives back.
    - [Interface] models the string functions the parsers call and
      [interface.rs] over what the kernel publishes in files, and
      [InterfaceMain] states its properties. [Factory] models [factory.rs] with
      the configuration and the builders of [config.rs], over the registry of
      [Program];
      [FactoryProofs] and [FactoryMain] hold its lemmas and properties.
    - [Aggregate] models [aggregate.rs] over members that are a class.
    - [Actor] models [unix.rs] of the async crate: commands, leases, flushes
      and the rounds of the actor's loop, over a class with the socket methods
      it calls. [ActorProofs] states what the actor assumes of its socket and
      proves one round; [ActorMain] interleaves rounds with the application's
      edits and drops and with the atomic steps of the final wait. A round is
      one step: what the application does meanwhile commutes with it, since
      they share only the count, the channels and the pools.

    ** How code is modelled

    Code that can fail in ways the type does not show returns an [outcome]:
    [Ret], [Panic] for assertions, [expect], checked indexing and overflow,
    [UB] for an unchecked access out of range, [Diverge] for exhausted fuel.
    [Result] is [result]. Debug assertions are kept, and arithmetic on [usize]
    panics on overflow: the model is the build that checks the most. Integers
    are [Z] with the wrap-around written out. Mutation is state passing: an
    operation returns the new value of what it borrowed mutably. UMEM is one
    list of bytes that every buffer handle addresses, so that aliasing is
    visible. System calls, the hash order of maps and the kernel's side of the
    rings are arguments or step relations. A buffer's raw pointers are
    assumed to outlive it, as its documentation requires.

    Fuel appears where the source loops without a structural measure: table
    lookup (the key width), copies into rings (the length copied), the IPv6
    extension walk (the packet length), checksum folding, sending to
    completion, the draining of the return queue (its capacity), and the
    drain-and-retry loop of transmit allocation ([2 * max + 2] rounds: every
    other round either allocates or ends it), netlink datagrams and attributes
    (their length: each step consumes a header) and receive calls (the limit
    the source sets), a system call repeated while it is interrupted (the
    number of refusals the kernel has left), the rounds of a batched send (the
    batch's length: each accepts a slot or ends it), the flush of an actor's
    queue (the queue's length, for the same reason), the search through nested
    bonds (their depth). Each theorem that says an operation returns says it for
    fuel the definition or a stated measure provides.

    ** What the theorems show

    - Poptrie: built tables answer exactly as an exhaustive scan; accepted
      tables are safe for the unchecked lookup; values are live and unique;
      bad prefixes and widths are rejected.
    - Rings: under every interleaving and any number of index wrap-arounds,
      each ring is a lossless first-in first-out queue.
    - Wire: written frames parse back; parsers are total and in bounds; the
      incremental checksum of prepared endpoints is exact except in one case,
      which [WireMain] exhibits.
    - Buffers and UMEM: every operation sequence refines the abstract buffer;
      buffers of distinct frames do not interfere; descriptors are accepted
      exactly when inside one frame; allocation covers every frame.
    - Transmit path: a sendable packet becomes a descriptor whose bytes parse
      back to it; every refusal leaves the packet as it was; prepared
      endpoints send what the ordinary path sends and never use a stale
      header.
    - Routes: after any updates, resolution through both indexes equals
      resolution from the plain tables; the router's fast path equals the
      trait's definition; updates invalidate prepared headers.
    - Live socket: from the opening on, under every interleaving of socket
      operations, drops on any thread and kernel steps, each frame is in
      exactly one place; every operation returns; transmit frames come back
      once the kernel completes them. IP packets sent arrive as sent; a
      direct endpoint batch sends what its callback wrote, or nothing. The
      cross-thread return queue is lossless; reclaiming completions of a
      shared UMEM is in bounds only with room a member's free list need not
      have, and members that forward each other's buffers run out of it.
    - Opening: whatever the kernel answers, opening a socket, or several over
      one UMEM, returns; a failure gives back every descriptor, mapping,
      registration and program handle, a success is the live socket the
      other theorems start from, and its drop restores what was there. So
      does a worker's plan of several queues with its drivers, sockets and
      aggregate. The default sizes of the builders never cause a failure.
    - Heap pools: a buffer is handed out exactly while fewer than the pool's
      size are out, whichever thread drops them.
    - Filter: it reads the port the userspace parser reads on every frame the
      parser accepts; after any bindings it redirects exactly the ports in
      use; programs are shared per interface and gone with the last handle.
      Double-tagged frames are redirected and then lost.
    - Netlink: every dump ends, whatever the bytes; a kernel that answers
      yields a snapshot that resolves as its tables do; every queue adopts the
      snapshot published last, which is that of the monitor thread's last
      successful dump.
    - Kernel sockets: pools account for their buffers under every use and
      drop on any thread, and a buffer that outlived its pool panics; a send
      hands exactly its accepted prefix to the kernel and returns the buffers;
      a receive delivers exactly what the kernel answered with; sending to
      completion ends when the kernel's refusals do; construction and drop
      leave other pools as they were; socket addresses read back; a bind sets
      every option before it binds, closes what it took when it fails, and
      fails for a stated cause.
    - Discovery and factory: lists of CPUs read back; queues are found in
      order and numbered by position; plans partition the claimed queues by
      node and interface, and the registry of programs stays exact whether a
      build fails or not. Interrupts of interfaces whose name ends in a queue's
      number are mistaken for that queue's, and plans for queues served away
      from their device's node cannot be opened.
    - Aggregates: receives serve the members in turn; a member that keeps
      failing stops all of them.
    - Actor: under every interleaving, what the socket has sent is a prefix
      of what was queued, in order, and all of it after an end without error;
      leases count the buffers outside and the socket outlives them; the
      final wait can miss the last release.
    - Core: generic endpoint sends and send-to-completion over any socket
      that meets its contract; batches, counters, layouts, link addresses and
      pinning.

    ** Bounds

    Ring sizes are powers of two up to 2^31. Poptrie theorems assume the
    number of prefix bits and values fits the 31-bit indices; the route
    theorems assume at most a million routes, which implies it. Frame sizes
    are at most 2^32 - 1.

    ** What is not modelled

    The texts of errors; the in-memory queues that replace a live AF_XDP
    socket in the crate's own tests; the system calls that make a netlink
    socket; the asynchronous runtime below the actor; a poisoned program
    mutex; the release of a UMEM's memory, which is its allocator's. These
    are I/O, third-party code or test doubles.
    Structures shared with the kernel are read as on a little-endian
    machine. *)
From stdpp Require Export base list gmap sets.
From Stdlib Require Export ZArith Lia.

(** ** Outcomes of Rust code

    [Ret] is a normal return, [Panic] an [assert!], [expect], slice-index or
    arithmetic panic, [UB] an unchecked access outside its array, [Diverge]
    the exhaustion of the fuel of a loop or recursion that the source leaves
    unbounded. *)
Inductive outcome (A : Type) : Type :=
  | Ret (a : A)
  | Panic
  | UB
  | Diverge.
Arguments Ret {A} a.
Arguments Panic {A}.
Arguments UB {A}.
Arguments Diverge {A}.

#[export] Instance outcome_ret : MRet outcome := @Ret.
#[export] Instance outcome_bind : MBind outcome := λ A B f m,
  match m with
  | Ret a => f a
  | Panic => Panic
  | UB => UB
  | Diverge => Diverge
  end.

(** [Result<T, E>] of the source. *)
Inductive result (A E : Type) : Type :=
  | Ok (a : A)
  | Err (e : E).
Arguments Ok {A E} a.
Arguments Err {A E} e.

Definition result_bind {A B E} (m : result A E) (f : A → result B E) : result B E :=
  match m with
  | Ok a => f a
  | Err e => Err e
  end.

Definition is_ok {A E} (r : result A E) : bool :=
  match r with
  | Ok _ => true
  | Err _ => false
  end.

Definition ok_or {A E} (o : option A) (e : E) : result A E :=
  match o with
  | Some a => Ok a
  | None => Err e
  end.

Declare Scope rust_scope.
Delimit Scope rust_scope with rust.
Notation "x <-? c ; k" := (result_bind c (λ x, k))
  (at level 100, c at next level, right associativity) : rust_scope.
Notation "'assert!' b ; k" := (if b then k else Panic)
  (at level 10, b at level 99, k at level 200) : rust_scope.
Open Scope rust_scope.

Lemma bind_ret {A B} (a : A) (f : A → outcome B) : (x ← Ret a; f x) = f a.
Proof. reflexivity. Qed.

Lemma bind_ret_inv {A B} (m : outcome A) (f : A → outcome B) (b : B) :
  (x ← m; f x) = Ret b → ∃ a, m = Ret a ∧ f a = Ret b.
Proof. destruct m; simpl; try discriminate. eauto. Qed.

Lemma bind_assoc {A B C} (m : outcome A) (f : A → outcome B) (g : B → outcome C) :
  (y ← (x ← m; f x); g y) = (x ← m; y ← f x; g y).
Proof. by destruct m. Qed.

(** ** Machine integers

    A w-bit unsigned integer is a [Z]; the wrap-around is written out. *)
Definition wrap (w z : Z) : Z := z mod 2 ^ w.
Abbreviation u8 := (wrap 8).
Abbreviation u16 := (wrap 16).
Abbreviation u32 := (wrap 32).
Abbreviation u64 := (wrap 64).
Definition fits (w z : Z) : Prop := (0 ≤ z < 2 ^ w)%Z.
Definition fitsb (w z : Z) : bool := (0 <=? z)%Z && (z <? 2 ^ w)%Z.
Definition U16_MAX : Z := 65535.
Definition U32_MAX : Z := 4294967295.
Definition U64_MAX : Z := 18446744073709551615.
(** [usize] is 64 bits wide on every target the crates support. *)
Definition USIZE_MAX : Z := U64_MAX.

Definition wrapping_add (w a b : Z) : Z := wrap w (a + b).
Definition wrapping_sub (w a b : Z) : Z := wrap w (a - b).
Definition saturating_sub (a b : Z) : Z := Z.max 0 (a - b).
Definition saturating_add (w a b : Z) : Z := Z.min (2 ^ w - 1) (a + b).
Definition checked_add (w a b : Z) : option Z :=
  if (a + b <? 2 ^ w)%Z then Some (a + b)%Z else None.
Definition checked_sub (a b : Z) : option Z :=
  if (b <=? a)%Z then Some (a - b)%Z else None.
Definition checked_mul (w a b : Z) : option Z :=
  if (a * b <? 2 ^ w)%Z then Some (a * b)%Z else None.
(** [a + b] and [a * b] on [usize]: an overflow is an arithmetic panic, as in
    every build with overflow checks. *)
Definition add_usize (a b : Z) : outcome Z :=
  if (a + b <=? USIZE_MAX)%Z then Ret (a + b)%Z else Panic.
Definition mul_usize (a b : Z) : outcome Z :=
  if (a * b <=? USIZE_MAX)%Z then Ret (a * b)%Z else Panic.
(** Bitwise complement [!x] of a w-bit integer. *)
Definition bnot (w x : Z) : Z := (2 ^ w - 1 - x)%Z.

Lemma wrap_small w z : fits w z → wrap w z = z.
Proof. intros ?. by apply Z.mod_small. Qed.

Lemma wrap_fits w z : (0 ≤ w)%Z → fits w (wrap w z).
Proof. intros ?. apply Z.mod_pos_bound. lia. Qed.

Lemma add_usize_inv a b c : add_usize a b = Ret c → c = (a + b)%Z ∧ (a + b ≤ USIZE_MAX)%Z.
Proof. unfold add_usize. destruct (Z.leb_spec (a + b) USIZE_MAX); [by intros [= <-]|done]. Qed.

Lemma add_usize_ok a b : (a + b ≤ USIZE_MAX)%Z → add_usize a b = Ret (a + b)%Z.
Proof. unfold add_usize. by destruct (Z.leb_spec (a + b) USIZE_MAX); [|lia]. Qed.

Lemma fitsb_spec w z : fitsb w z = true ↔ fits w z.
Proof. unfold fitsb, fits. rewrite andb_true_iff, Z.leb_le, Z.ltb_lt. lia. Qed.

(** ** Vectors and slices *)
Definition len {A} (l : list A) : Z := Z.of_nat (length l).

Definition nthZ {A} (l : list A) (i : Z) : option A :=
  if (i <? 0)%Z then None else l !! Z.to_nat i.

(** Checked indexing [l[i]]: a panic out of range. *)
Definition index {A} (l : list A) (i : Z) : outcome A :=
  match nthZ l i with
  | Some x => Ret x
  | None => Panic
  end.

(** Unchecked indexing [l.get_unchecked(i)]: undefined out of range. *)
Definition get_unchecked {A} (l : list A) (i : Z) : outcome A :=
  match nthZ l i with
  | Some x => Ret x
  | None => UB
  end.

(** Checked assignment [l[i] = x]. *)
Definition set_index {A} (l : list A) (i : Z) (x : A) : outcome (list A) :=
  if (0 <=? i)%Z && (i <? len l)%Z then Ret (<[Z.to_nat i := x]> l) else Panic.

(** [l[start..start + n].fill(x)]. *)
Definition fill_range {A} (l : list A) (start n : Z) (x : A) : outcome (list A) :=
  if (0 <=? start)%Z && (start + n <=? len l)%Z then
    Ret (take (Z.to_nat start) l ++ replicate (Z.to_nat n) x
           ++ drop (Z.to_nat (start + n)) l)
  else Panic.

(** The slice [l[start..stop]] when it is in range. *)
Definition slice {A} (l : list A) (start stop : Z) : option (list A) :=
  if (0 <=? start)%Z && (start <=? stop)%Z && (stop <=? len l)%Z then
    Some (take (Z.to_nat (stop - start)) (drop (Z.to_nat start) l))
  else None.

(** [l[start..start + src.len()].copy_from_slice(src)]. *)
Definition write_at {A} (l : list A) (start : Z) (src : list A) : list A :=
  take (Z.to_nat start) l ++ src ++ drop (Z.to_nat start + length src) l.

Lemma len_nonneg {A} (l : list A) : (0 ≤ len l)%Z.
Proof. unfold len. lia. Qed.

Lemma len_app {A} (l k : list A) : len (l ++ k) = (len l + len k)%Z.
Proof. unfold len. rewrite length_app. lia. Qed.

Lemma len_cons {A} (x : A) (l : list A) : len (x :: l) = (len l + 1)%Z.
Proof. unfold len. simpl length. lia. Qed.

Lemma len_snoc {A} (l : list A) (x : A) : len (l ++ [x]) = (len l + 1)%Z.
Proof. rewrite len_app. reflexivity. Qed.

Lemma nthZ_Some_range {A} (l : list A) i x : nthZ l i = Some x → (0 ≤ i < len l)%Z.
Proof.
  unfold nthZ, len. destruct (Z.ltb_spec i 0); [done|].
  intros Hl%lookup_lt_Some. lia.
Qed.

Lemma nthZ_is_Some {A} (l : list A) i : (0 ≤ i < len l)%Z → is_Some (nthZ l i).
Proof.
  unfold nthZ, len. intros ?. destruct (Z.ltb_spec i 0); [lia|].
  apply lookup_lt_is_Some. lia.
Qed.

Lemma nthZ_None {A} (l : list A) i : (len l ≤ i)%Z → nthZ l i = None.
Proof.
  unfold nthZ, len. intros ?. destruct (Z.ltb_spec i 0); [done|].
  apply lookup_ge_None. lia.
Qed.

Lemma nthZ_of_nat {A} (l : list A) (n : nat) : nthZ l (Z.of_nat n) = l !! n.
Proof. unfold nthZ. destruct (Z.ltb_spec (Z.of_nat n) 0); [lia|]. by rewrite Nat2Z.id. Qed.

Lemma nthZ_app_l {A} (l k : list A) i :
  (i < len l)%Z → nthZ (l ++ k) i = nthZ l i.
Proof.
  unfold nthZ, len. intros ?. destruct (Z.ltb_spec i 0); [done|].
  apply lookup_app_l. lia.
Qed.

Lemma nthZ_app_r {A} (l k : list A) i :
  (len l ≤ i)%Z → nthZ (l ++ k) i = nthZ k (i - len l).
Proof.
  unfold nthZ, len. intros ?. destruct (Z.ltb_spec i 0); [lia|].
  destruct (Z.ltb_spec (i - Z.of_nat (length l)) 0); [lia|].
  rewrite lookup_app_r by lia. f_equal. lia.
Qed.

Lemma nthZ_snoc {A} (l : list A) x : nthZ (l ++ [x]) (len l) = Some x.
Proof. rewrite nthZ_app_r by lia. by rewrite Z.sub_diag. Qed.

Lemma nthZ_app_Some {A} (l k : list A) i x : nthZ l i = Some x → nthZ (l ++ k) i = Some x.
Proof. intros H. rewrite nthZ_app_l; [done|]. apply nthZ_Some_range in H. lia. Qed.

Lemma len_insert {A} (l : list A) i x : len (<[i := x]> l) = len l.
Proof. unfold len. by rewrite length_insert. Qed.

Lemma nthZ_insert {A} (l : list A) i x j :
  (0 ≤ i < len l)%Z →
  nthZ (<[Z.to_nat i := x]> l) j = if decide (i = j) then Some x else nthZ l j.
Proof.
  unfold nthZ, len. intros ?. case_decide as E; subst.
  - destruct (Z.ltb_spec j 0); [lia|]. apply list_lookup_insert_eq. lia.
  - destruct (Z.ltb_spec j 0); [done|]. apply list_lookup_insert_ne. lia.
Qed.

Lemma index_Some {A} (l : list A) i x : nthZ l i = Some x → index l i = Ret x.
Proof. unfold index. by intros ->. Qed.

Lemma get_unchecked_Some {A} (l : list A) i x : nthZ l i = Some x → get_unchecked l i = Ret x.
Proof. unfold get_unchecked. by intros ->. Qed.

Lemma set_index_ok {A} (l : list A) i x :
  (0 ≤ i < len l)%Z → set_index l i x = Ret (<[Z.to_nat i := x]> l).
Proof.
  intros ?. unfold set_index.
  destruct (Z.leb_spec 0 i); [|lia]. destruct (Z.ltb_spec i (len l)); [done|lia].
Qed.

Lemma fill_range_ok {A} (l : list A) start n x :
  (0 ≤ start)%Z → (0 ≤ n)%Z → (start + n ≤ len l)%Z →
  ∃ l', fill_range l start n x = Ret l' ∧ len l' = len l ∧
    ∀ j, nthZ l' j = if decide (start ≤ j < start + n)%Z then Some x else nthZ l j.
Proof.
  intros Hs Hn Hl. unfold fill_range.
  destruct (Z.leb_spec 0 start); [|lia]. destruct (Z.leb_spec (start + n) (len l)); [|lia].
  unfold len in *. eexists; split; [reflexivity|].
  assert (Hlen : length (take (Z.to_nat start) l) = Z.to_nat start) by (rewrite length_take; lia).
  split.
  { rewrite !length_app, length_replicate, length_drop, Hlen. lia. }
  intros j. unfold nthZ. destruct (Z.ltb_spec j 0) as [?|Hj0].
  { rewrite decide_False by lia. done. }
  destruct (decide _) as [Hj|Hj].
  - rewrite lookup_app_r by lia. rewrite lookup_app_l by (rewrite length_replicate; lia).
    apply lookup_replicate. split; [done|lia].
  - destruct (decide (j < start)%Z).
    + rewrite lookup_app_l by lia. rewrite lookup_take_lt by lia. done.
    + rewrite lookup_app_r by lia.
      rewrite lookup_app_r by (rewrite length_replicate; lia).
      rewrite length_replicate, Hlen, lookup_drop. f_equal. lia.
Qed.

Lemma len_take {A} (n : Z) (l : list A) : (0 ≤ n)%Z → len (take (Z.to_nat n) l) = Z.min n (len l).
Proof. intros. unfold len. rewrite length_take. lia. Qed.

Lemma len_replicate {A} (n : Z) (x : A) : (0 ≤ n)%Z → len (replicate (Z.to_nat n) x) = n.
Proof. intros. unfold len. rewrite length_replicate. lia. Qed.

Lemma len_drop {A} (n : Z) (l : list A) :
  (0 ≤ n)%Z → len (drop (Z.to_nat n) l) = Z.max 0 (len l - n).
Proof. intros. unfold len. rewrite length_drop. lia. Qed.

Lemma nthZ_take {A} (l : list A) n i : (i < n)%Z → nthZ (take (Z.to_nat n) l) i = nthZ l i.
Proof.
  intros. unfold nthZ. destruct (Z.ltb_spec i 0); [done|]. apply lookup_take_lt. lia.
Qed.

Lemma nthZ_drop {A} (l : list A) n i :
  (0 ≤ n)%Z → (0 ≤ i)%Z → nthZ (drop (Z.to_nat n) l) i = nthZ l (n + i).
Proof.
  intros. unfold nthZ. destruct (Z.ltb_spec i 0); [lia|]. destruct (Z.ltb_spec (n + i) 0); [lia|].
  rewrite lookup_drop. f_equal. lia.
Qed.

Lemma nthZ_neg {A} (l : list A) i : (i < 0)%Z → nthZ l i = None.
Proof. intros. unfold nthZ. destruct (Z.ltb_spec i 0); [done|lia]. Qed.

Lemma len_write_at {A} (l src : list A) at_ :
  (0 ≤ at_)%Z → (at_ + len src ≤ len l)%Z → len (write_at l at_ src) = len l.
Proof. intros. unfold write_at, len in *. rewrite !length_app, length_take, length_drop. lia. Qed.

Lemma nthZ_write_at {A} (l src : list A) at_ i :
  (0 ≤ at_)%Z → (at_ + len src ≤ len l)%Z →
  nthZ (write_at l at_ src) i
  = if decide (at_ ≤ i < at_ + len src)%Z then nthZ src (i - at_) else nthZ l i.
Proof.
  intros H0 Hl. assert (Ht := len_take at_ l H0). pose proof (len_nonneg src). unfold write_at.
  destruct (decide (i < at_)%Z).
  - rewrite decide_False by lia. rewrite nthZ_app_l by lia. by apply nthZ_take.
  - rewrite nthZ_app_r, Ht, Z.min_l by lia. case_decide.
    + by rewrite nthZ_app_l by lia.
    + rewrite nthZ_app_r by lia. unfold nthZ, len in *.
      destruct (Z.ltb_spec (i - at_ - Z.of_nat (length src)) 0); [lia|].
      destruct (Z.ltb_spec i 0); [lia|]. rewrite lookup_drop. f_equal. lia.
Qed.

Lemma nthZ_ext {A} (l k : list A) : (∀ i, nthZ l i = nthZ k i) → l = k.
Proof.
  intros H. apply list_eq. intros i. specialize (H (Z.of_nat i)). by rewrite !nthZ_of_nat in H.
Qed.

Lemma nthZ_replicate {A} n (x : A) i : (0 ≤ i < Z.of_nat n)%Z → nthZ (replicate n x) i = Some x.
Proof.
  intros ?. unfold nthZ. destruct (Z.ltb_spec i 0); [lia|].
  apply lookup_replicate. split; [done|lia].
Qed.

Create HintDb rust.
Create Rewrite HintDb rust.
#[export] Hint Resolve len_nonneg nthZ_snoc nthZ_app_Some index_Some get_unchecked_Some : rust.
#[export] Hint Rewrite @len_app @len_snoc @len_insert : rust.

(** Run the head [bind] of a goal whose first action has returned. *)
Ltac run := cbn [mbind outcome_bind mret outcome_ret fst snd].

(** Case analysis on every boolean comparison of a goal. *)
Ltac case_bool :=
  repeat match goal with
  | |- context [(?a <? ?b)%Z] => destruct (Z.ltb_spec a b)
  | |- context [(?a <=? ?b)%Z] => destruct (Z.leb_spec a b)
  | |- context [(?a =? ?b)%Z] => destruct (Z.eqb_spec a b)
  end.
Ltac case_bool_in H :=
  repeat match type of H with
  | context [(?a <? ?b)%Z] => destruct (Z.ltb_spec a b)
  | context [(?a <=? ?b)%Z] => destruct (Z.leb_spec a b)
  | context [(?a =? ?b)%Z] => destruct (Z.eqb_spec a b)
  end.
