(* ===== verification/Bits.v ===== *)
(** * Bit-level arithmetic shared by the components

    Population counts, big-endian bit lists and the mask identities behind
    the bitmaps of [crates/poptrie] and the power-of-two masks of the AF_XDP
    rings and frames. *)
From S2P Require Import Prelude.
Open Scope Z_scope.

(** [x.count_ones()] of a [w]-bit integer. *)
Fixpoint count_ones (w : nat) (x : Z) : Z :=
  match w with
  | O => 0
  | S w => count_ones w x + Z.b2z (Z.testbit x (Z.of_nat w))
  end.

(** The [n] low bits of [x], most significant first. *)
Fixpoint bits_of (n : nat) (x : Z) : list bool :=
  match n with
  | O => []
  | S n => Z.testbit x (Z.of_nat n) :: bits_of n x
  end.

(** [x.is_power_of_two()]: exactly one bit set. *)
Definition is_power_of_two (x : Z) : bool := (0 <? x) && (x =? 2 ^ Z.log2 x).

Lemma length_bits_of n x : length (bits_of n x) = n.
Proof. induction n; simpl; auto. Qed.

Lemma bits_of_ext n x y :
  (∀ i, 0 ≤ i < Z.of_nat n → Z.testbit x i = Z.testbit y i) → bits_of n x = bits_of n y.
Proof.
  induction n as [|n IH]; intros H; simpl; [done|].
  f_equal; [apply H; lia|]. apply IH. intros. apply H. lia.
Qed.

Lemma bits_of_inj n x y :
  bits_of n x = bits_of n y → ∀ i, 0 ≤ i < Z.of_nat n → Z.testbit x i = Z.testbit y i.
Proof.
  induction n as [|n IH]; simpl; intros H i Hi; [lia|].
  injection H as Hh Ht. destruct (decide (i = Z.of_nat n)) as [->|]; [done|].
  apply IH; [done|lia].
Qed.

Lemma bits_of_app a b x :
  bits_of (a + b) x = bits_of a (Z.shiftr x (Z.of_nat b)) ++ bits_of b x.
Proof.
  induction a as [|a IH]; simpl; [done|].
  rewrite IH, Z.shiftr_spec by lia. do 2 f_equal. lia.
Qed.

Lemma take_bits_of n k x :
  (k ≤ n)%nat → take k (bits_of n x) = bits_of k (Z.shiftr x (Z.of_nat (n - k))).
Proof.
  intros Hk. replace n with (k + (n - k))%nat at 1 by lia.
  rewrite bits_of_app, take_app_length'; [done|]. by rewrite length_bits_of.
Qed.

Lemma bits_of_land_ones n k x :
  (n ≤ k)%nat → bits_of n (Z.land x (Z.ones (Z.of_nat k))) = bits_of n x.
Proof.
  intros. apply bits_of_ext. intros i Hi.
  rewrite Z.land_spec, Z.ones_spec_low by lia. by rewrite andb_true_r.
Qed.

(** A number whose quotient by [2 ^ n] is [q] has bit [n] equal to the parity
    of [q]. *)
Lemma testbit_range (n : nat) p b j :
  (2 * p + Z.b2z b) * 2 ^ Z.of_nat n ≤ j < (2 * p + Z.b2z b + 1) * 2 ^ Z.of_nat n →
  Z.testbit j (Z.of_nat n) = b.
Proof.
  intros Hj. rewrite Z.testbit_odd, Z.shiftr_div_pow2 by lia.
  assert (H2 : 0 < 2 ^ Z.of_nat n) by lia.
  replace (j / 2 ^ Z.of_nat n) with (2 * p + Z.b2z b).
  { rewrite Z.add_comm, Z.odd_add_mul_2. by destruct b. }
  apply Z.div_unique with (r := j - 2 ^ Z.of_nat n * (2 * p + Z.b2z b)); lia.
Qed.

Lemma count_ones_nonneg w x : 0 ≤ count_ones w x.
Proof. induction w; simpl; [lia|]. destruct (Z.testbit _ _); simpl; lia. Qed.

Lemma count_ones_le w x : count_ones w x ≤ Z.of_nat w.
Proof. induction w; simpl count_ones; [lia|]. destruct (Z.testbit _ _); simpl Z.b2z; lia. Qed.

Lemma count_ones_ext w x y :
  (∀ i, 0 ≤ i < Z.of_nat w → Z.testbit x i = Z.testbit y i) → count_ones w x = count_ones w y.
Proof.
  induction w as [|w IH]; intros H; simpl; [done|].
  rewrite IH by (intros; apply H; lia). by rewrite H by lia.
Qed.

(** Bits at or above [k] do not count when they are masked away. *)
Lemma count_ones_high k w x :
  (k ≤ w)%nat → (∀ i, Z.of_nat k ≤ i < Z.of_nat w → Z.testbit x i = false) →
  count_ones w x = count_ones k x.
Proof.
  intros Hk. induction Hk as [|w Hk IH]; intros H; [done|]. simpl.
  rewrite H by lia. rewrite IH by (intros; apply H; lia). simpl. lia.
Qed.

Lemma count_ones_mono k w x : (k ≤ w)%nat → count_ones k x ≤ count_ones w x.
Proof.
  induction 1 as [|w Hk IH]; [lia|]. simpl. destruct (Z.testbit _ _); simpl; lia.
Qed.

Lemma count_ones_strict k w x :
  (k < w)%nat → Z.testbit x (Z.of_nat k) = true → count_ones k x < count_ones w x.
Proof.
  intros Hk Hb. pose proof (count_ones_mono (S k) w x ltac:(lia)) as Hm. simpl in Hm.
  rewrite Hb in Hm. simpl in Hm. lia.
Qed.

(** Select: the [k]-th set bit exists for every rank below the count. *)
Lemma count_ones_select w x k :
  0 ≤ k < count_ones w x →
  ∃ j, (j < w)%nat ∧ Z.testbit x (Z.of_nat j) = true ∧ count_ones j x = k.
Proof.
  induction w as [|w IH]; simpl; intros Hk; [lia|].
  destruct (decide (k < count_ones w x)) as [Hlt|Hge].
  - destruct IH as (j & ? & ? & ?); [lia|]. exists j. split_and!; [lia|done|done].
  - destruct (Z.testbit x (Z.of_nat w)) eqn:E; simpl in Hk; [|lia].
    exists w. split_and!; [lia|done|lia].
Qed.

(** [(x & ((1 << v) - 1)).count_ones()] counts the bits of [x] below [v]. *)
Lemma count_ones_below w v x :
  (v ≤ w)%nat →
  count_ones w (Z.land x (Z.shiftl 1 (Z.of_nat v) - 1)) = count_ones v x.
Proof.
  intros Hv. rewrite Z.shiftl_1_l.
  replace (2 ^ Z.of_nat v - 1) with (Z.ones (Z.of_nat v)) by (rewrite Z.ones_equiv; lia).
  rewrite (count_ones_high v w).
  - apply count_ones_ext. intros i Hi. rewrite Z.land_spec, Z.ones_spec_low by lia.
    by rewrite andb_true_r.
  - done.
  - intros i Hi. rewrite Z.land_spec, Z.ones_spec_high by lia. by rewrite andb_false_r.
Qed.

(** The inclusive low mask [bit | (bit - 1)]. *)
Lemma low_mask_incl (v : nat) :
  Z.lor (Z.shiftl 1 (Z.of_nat v)) (Z.shiftl 1 (Z.of_nat v) - 1) = Z.ones (Z.of_nat (S v)).
Proof.
  rewrite Z.shiftl_1_l.
  replace (2 ^ Z.of_nat v - 1) with (Z.ones (Z.of_nat v)) by (rewrite Z.ones_equiv; lia).
  apply Z.bits_inj'. intros i Hi. rewrite Z.lor_spec.
  destruct (Z.lt_trichotomy i (Z.of_nat v)) as [?|[->|?]].
  - rewrite !Z.ones_spec_low by lia. by rewrite orb_true_r.
  - rewrite Z.pow2_bits_true by lia. by rewrite (Z.ones_spec_low (Z.of_nat (S v))) by lia.
  - rewrite Z.pow2_bits_false, !Z.ones_spec_high by lia. done.
Qed.

Lemma count_ones_upto w v x :
  (S v ≤ w)%nat →
  count_ones w (Z.land x (Z.lor (Z.shiftl 1 (Z.of_nat v)) (Z.shiftl 1 (Z.of_nat v) - 1)))
  = count_ones (S v) x.
Proof.
  intros Hv. rewrite low_mask_incl, <-(count_ones_below w (S v) x) by done.
  rewrite Z.shiftl_1_l, Z.ones_equiv. by rewrite <-Z.sub_1_r.
Qed.

(** [x & (1 << v) != 0] tests bit [v]. *)
Lemma land_bit_test x v :
  0 ≤ v → negb (Z.land x (Z.shiftl 1 v) =? 0) = Z.testbit x v.
Proof.
  intros Hv. rewrite Z.shiftl_1_l. destruct (Z.testbit x v) eqn:E.
  - destruct (Z.eqb_spec (Z.land x (2 ^ v)) 0) as [H|]; [|done].
    apply (f_equal (λ y, Z.testbit y v)) in H.
    rewrite Z.land_spec, Z.pow2_bits_true, Z.bits_0, E in H by lia. done.
  - destruct (Z.eqb_spec (Z.land x (2 ^ v)) 0) as [|H]; [done|]. exfalso. apply H.
    apply Z.bits_inj'. intros i Hi. rewrite Z.land_spec, Z.bits_0.
    destruct (decide (i = v)) as [->|]; [by rewrite E|].
    rewrite Z.pow2_bits_false by lia. by rewrite andb_false_r.
Qed.

(** Setting bit [i] of a bitmap. *)
Lemma testbit_set x i j :
  0 ≤ i → 0 ≤ j →
  Z.testbit (Z.lor x (Z.shiftl 1 i)) j = if decide (i = j) then true else Z.testbit x j.
Proof.
  intros. rewrite Z.lor_spec, Z.shiftl_1_l. case_decide; subst.
  - rewrite Z.pow2_bits_true by lia. apply orb_true_r.
  - rewrite Z.pow2_bits_false by lia. apply orb_false_r.
Qed.

Lemma fits_testbit w x i : fits w x → 0 ≤ w → w ≤ i → Z.testbit x i = false.
Proof.
  intros [H0 H1] ? ?. rewrite <-(Z.mod_small x (2 ^ w)) by done.
  apply Z.mod_pow2_bits_high. lia.
Qed.

Lemma fits_of_testbit w x : 0 ≤ w → (∀ i, w ≤ i → Z.testbit x i = false) → fits w x.
Proof.
  intros Hw H. assert (E : x mod 2 ^ w = x).
  { apply Z.bits_inj'. intros i Hi. destruct (decide (w ≤ i)).
    - rewrite Z.mod_pow2_bits_high by lia. by rewrite H.
    - by rewrite Z.mod_pow2_bits_low by lia. }
  rewrite <-E. by apply wrap_fits.
Qed.

Lemma is_power_of_two_spec x :
  is_power_of_two x = true ↔ ∃ k, 0 ≤ k ∧ x = 2 ^ k.
Proof.
  unfold is_power_of_two. rewrite andb_true_iff, Z.ltb_lt, Z.eqb_eq. split.
  - intros [? H]. exists (Z.log2 x). split; [apply Z.log2_nonneg|exact H].
  - intros (k & Hk & ->). rewrite Z.log2_pow2 by done. lia.
Qed.

(** Masking with [size - 1] is the remainder for a power of two. *)
Lemma land_pow2_mask x k : 0 ≤ k → Z.land x (2 ^ k - 1) = x mod 2 ^ k.
Proof.
  intros. replace (2 ^ k - 1) with (Z.ones k) by (rewrite Z.ones_equiv; lia).
  by apply Z.land_ones.
Qed.
