(* ===== verification/Poptrie.v ===== *)
(** * Poptrie: the longest-prefix-match table of [crates/poptrie]

    [lib.rs] is the immutable table with its unchecked lookup and its
    invariant checker; [build.rs] is the builder (binary trie, value
    interning, compaction) and the emitter of the direct, node and leaf
    arrays. *)
From S2P Require Import Prelude Bits.
Open Scope Z_scope.

Definition STRIDE : Z := 6.
Definition LEAF_FLAG : Z := Z.shiftl 1 31.
Definition VALUE_MASK : Z := bnot 32 LEAF_FLAG.

(** ** Keys: the [IpKey] trait and its two implementations *)
Class IpKey := {
  BITS : Z;
  bit : Z → Z → bool;
  stride : Z → Z → outcome Z;
  direct_index : Z → Z → Z;
}.

Definition u32_bit (self i : Z) : bool :=
  Z.land (Z.shiftr self (32 - 1 - i)) 1 =? 1.
Definition u32_stride (self offset : Z) : outcome Z :=
  assert! offset + STRIDE <=? 32;
  Ret (Z.land (Z.shiftr self (32 - offset - STRIDE)) 63).
Definition u32_direct (self bits : Z) : Z := Z.shiftr self (32 - bits).
#[export] Instance u32_key : IpKey :=
  {| BITS := 32; bit := u32_bit; stride := u32_stride; direct_index := u32_direct |}.

Definition u128_bit (self i : Z) : bool :=
  Z.land (Z.shiftr self (128 - 1 - i)) 1 =? 1.
Definition u128_stride (self offset : Z) : outcome Z :=
  assert! offset + STRIDE <=? 128;
  Ret (Z.land (u32 (Z.shiftr self (128 - offset - STRIDE))) 63).
Definition u128_direct (self bits : Z) : Z := u64 (Z.shiftr self (128 - bits)).
Definition u128_key : IpKey :=
  {| BITS := 128; bit := u128_bit; stride := u128_stride; direct_index := u128_direct |}.

(** What the trie relies on: every view of a key is a view of its bits, most
    significant first. *)
Class IpKeyLaws (K : IpKey) := {
  BITS_pos : 0 < BITS;
  bit_spec k i : fits BITS k → 0 ≤ i < BITS → bit k i = Z.testbit k (BITS - 1 - i);
  stride_spec k o : fits BITS k → 0 ≤ o → o + STRIDE ≤ BITS →
    stride k o = Ret (Z.land (Z.shiftr k (BITS - o - STRIDE)) 63);
  direct_spec k b : fits BITS k → 1 ≤ b → b < 64 → b ≤ BITS →
    direct_index k b = Z.shiftr k (BITS - b);
}.

Lemma land_1_testbit x n : 0 ≤ n → (Z.land (Z.shiftr x n) 1 =? 1) = Z.testbit x n.
Proof.
  intros. change 1 with (Z.ones 1). rewrite Z.land_ones, <-Z.bit0_mod, Z.shiftr_spec by lia.
  rewrite Z.add_0_l. by destruct (Z.testbit x n).
Qed.

#[export] Instance u32_key_laws : IpKeyLaws u32_key.
Proof.
  split; cbn [BITS bit stride direct_index u32_key].
  - done.
  - intros k i _ ?. apply land_1_testbit. lia.
  - intros k o _ ? ?. unfold u32_stride. destruct (Z.leb_spec (o + STRIDE) 32); [done|lia].
  - done.
Qed.

(** The [as u32] and [as usize] truncations of the 128-bit views drop no bit
    that the mask or the width keeps. *)
#[export] Instance u128_key_laws : IpKeyLaws u128_key.
Proof.
  split; cbn [BITS bit stride direct_index u128_key].
  - done.
  - intros k i _ ?. apply land_1_testbit. lia.
  - intros k o _ ? ?. unfold u128_stride. destruct (Z.leb_spec (o + STRIDE) 128); [|lia].
    f_equal. change 63 with (Z.ones 6). apply Z.bits_inj'. intros i Hi. rewrite !Z.land_spec.
    destruct (decide (i < 6)).
    + unfold wrap. by rewrite Z.mod_pow2_bits_low by lia.
    + rewrite Z.ones_spec_high by lia. by rewrite !andb_false_r.
  - intros k b Hk ? ? ?. unfold u128_direct. apply wrap_small.
    rewrite Z.shiftr_div_pow2 by lia. unfold fits in *. split; [apply Z.div_pos; lia|].
    apply Z.lt_le_trans with (2 ^ b); [|apply Z.pow_le_mono_r; lia].
    apply Z.div_lt_upper_bound; [lia|]. rewrite <-Z.pow_add_r by lia.
    replace (128 - b + b) with 128 by lia. lia.
Qed.

(** ** The table *)
Record Node := mkNode {
  vector : Z;
  leafvec : Z;
  base0 : Z;
  base1 : Z;
}.
Definition Node_default : Node := mkNode 0 0 0 0.

Record Poptrie (V : Type) := mkPoptrie {
  direct : list Z;
  nodes : list Node;
  leaves : list Z;
  values : list V;
}.
Arguments mkPoptrie {V} _ _ _ _.
Arguments direct {V} _.
Arguments nodes {V} _.
Arguments leaves {V} _.
Arguments values {V} _.

(** [Poptrie::value]: resolve a value encoding, 0 meaning no route. *)
Definition value {V} (vals : list V) (encoding : Z) : outcome (option V) :=
  if encoding =? 0 then Ret None
  else v ← get_unchecked vals (encoding - 1); Ret (Some v).

Definition value_count {V} (t : Poptrie V) : Z := len (values t).
Definition node_count {V} (t : Poptrie V) : Z := len (nodes t).
Definition heap_bytes {V} (size_of_V : Z) (t : Poptrie V) : Z :=
  len (direct t) * 4 + len (nodes t) * 24 + len (leaves t) * 4 + len (values t) * size_of_V.

Section Lookup.
Context `{K : IpKey} {V : Type}.

(** The [loop] of [lookup]: one stride per iteration. *)
Fixpoint lookup_loop (fuel : nat) (ns : list Node) (ls : list Z)
    (key node_index offset : Z) : outcome Z :=
  match fuel with
  | O => Diverge
  | S fuel =>
    node ← get_unchecked ns node_index;
    v ← stride key offset;
    let offset := offset + STRIDE in
    let bit := Z.shiftl 1 v in
    if negb (Z.land (vector node) bit =? 0) then
      lookup_loop fuel ns ls key
        (base1 node + count_ones 64 (Z.land (vector node) (bit - 1))) offset
    else
      let mask := Z.lor bit (bit - 1) in
      let runs := count_ones 64 (Z.land (leafvec node) mask) in
      assert! 1 <=? runs;
      get_unchecked ls (base0 node + runs - 1)
  end.

Definition lookup (DIRECT_BITS : Z) (t : Poptrie V) (key : Z) : outcome (option V) :=
  entry ← get_unchecked (direct t) (direct_index key DIRECT_BITS);
  if negb (Z.land entry LEAF_FLAG =? 0) then value (values t) (Z.land entry VALUE_MASK)
  else
    encoding ← lookup_loop (Z.to_nat BITS) (nodes t) (leaves t) key entry DIRECT_BITS;
    value (values t) encoding.
End Lookup.

(** ** The invariant checker [validate_invariants] *)
Inductive InvariantError :=
  | DirectBitsExceedUsize
  | DirectLength (n : Z)
  | DirectEncoding (i e : Z)
  | DirectNode (i e : Z)
  | InternalAndLeaf (i : Z)
  | ChildRange (i : Z)
  | LeafRange (i : Z)
  | UncoveredLeafSlot (i slot : Z)
  | LeafEncoding (i e : Z)
  | ReachableBeyond (node_index depth : Z)
  | ReachableAtDepths (node_index seen depth : Z)
  | ChildrenAtFinalDepth (node_index depth : Z).

Definition validate_value_encoding (encoding value_count : Z) : bool :=
  (encoding =? 0) || (encoding <=? value_count).

Section Validate.
Context `{K : IpKey} {V : Type}.

(** [for (i, x) in l.iter().enumerate() { f(i, x)?; }] *)
Fixpoint for_each {A} (f : Z → A → result unit InvariantError) (i : Z) (l : list A) :
    result unit InvariantError :=
  match l with
  | [] => Ok tt
  | x :: l => _ <-? f i x; for_each f (i + 1) l
  end.

Definition validate_direct_entry (t : Poptrie V) (i entry : Z) : result unit InvariantError :=
  if negb (Z.land entry LEAF_FLAG =? 0) then
    if validate_value_encoding (Z.land entry VALUE_MASK) (len (values t)) then Ok tt
    else Err (DirectEncoding i (Z.land entry VALUE_MASK))
  else if len (nodes t) <=? entry then Err (DirectNode i entry)
  else Ok tt.

(** The slot scan: every leaf slot must be covered by a run. *)
Fixpoint validate_slots (n : nat) (i : Z) (node : Node) (slot : Z) (covering_run : bool) :
    result unit InvariantError :=
  match n with
  | O => Ok tt
  | S n =>
    let bit := Z.shiftl 1 slot in
    if negb (Z.land (vector node) bit =? 0) then validate_slots n i node (slot + 1) false
    else
      let covering_run :=
        if negb (Z.land (leafvec node) bit =? 0) then true else covering_run in
      if negb covering_run then Err (UncoveredLeafSlot i slot)
      else validate_slots n i node (slot + 1) covering_run
  end.

Definition validate_node (t : Poptrie V) (i : Z) (node : Node) : result unit InvariantError :=
  if negb (Z.land (vector node) (leafvec node) =? 0) then Err (InternalAndLeaf i)
  else
    let child_end := base1 node + count_ones 64 (vector node) in
    if len (nodes t) <? child_end then Err (ChildRange i)
    else
      let leaf_end := base0 node + count_ones 64 (leafvec node) in
      if len (leaves t) <? leaf_end then Err (LeafRange i)
      else
        _ <-? validate_slots 64 i node 0 false;
        for_each (λ leaf_index encoding,
            if validate_value_encoding encoding (len (values t)) then Ok tt
            else Err (LeafEncoding leaf_index encoding))
          (base0 node)
          (default [] (slice (leaves t) (base0 node) leaf_end)).

(** [for child_rank in 0..n { f(base + child_rank)?; }] threading the
    [seen_depths] array. *)
Fixpoint for_children {S} (f : Z → S → outcome (result S InvariantError))
    (n : nat) (child : Z) (s : S) : outcome (result S InvariantError) :=
  match n with
  | O => Ret (Ok s)
  | Datatypes.S n =>
    r ← f child s;
    match r with
    | Ok s => for_children f n (child + 1) s
    | Err e => Ret (Err e)
    end
  end.

Fixpoint validate_reachable_node (fuel : nat) (t : Poptrie V)
    (node_index depth max_strides : Z) (seen_depths : list (option Z)) :
    outcome (result (list (option Z)) InvariantError) :=
  if max_strides <=? depth then Ret (Err (ReachableBeyond node_index depth))
  else
    seen ← index seen_depths node_index;
    match seen with
    | Some seen_depth =>
      Ret (if seen_depth =? depth then Ok seen_depths
           else Err (ReachableAtDepths node_index seen_depth depth))
    | None =>
      seen_depths ← set_index seen_depths node_index (Some depth);
      node ← index (nodes t) node_index;
      if (depth + 1 =? max_strides) && negb (vector node =? 0) then
        Ret (Err (ChildrenAtFinalDepth node_index depth))
      else
        match fuel with
        | O => Diverge
        | S fuel =>
          for_children
            (λ child seen, validate_reachable_node fuel t child (depth + 1) max_strides seen)
            (Z.to_nat (count_ones 64 (vector node))) (base1 node) seen_depths
        end
    end.

Fixpoint validate_reachable (t : Poptrie V) (max_strides : Z) (entries : list Z)
    (seen_depths : list (option Z)) : outcome (result unit InvariantError) :=
  match entries with
  | [] => Ret (Ok tt)
  | entry :: entries =>
    if negb (Z.land entry LEAF_FLAG =? 0) then validate_reachable t max_strides entries seen_depths
    else
      r ← validate_reachable_node (Z.to_nat max_strides) t entry 0 max_strides seen_depths;
      match r with
      | Ok seen_depths => validate_reachable t max_strides entries seen_depths
      | Err e => Ret (Err e)
      end
  end.

Definition validate_invariants (DIRECT_BITS : Z) (t : Poptrie V) :
    outcome (result unit InvariantError) :=
  if negb (DIRECT_BITS <? 64) then Ret (Err DirectBitsExceedUsize)
  else if negb (len (direct t) =? Z.shiftl 1 DIRECT_BITS) then
    Ret (Err (DirectLength (len (direct t))))
  else
    match (_ <-? for_each (validate_direct_entry t) 0 (direct t);
           for_each (validate_node t) 0 (nodes t)) with
    | Err e => Ret (Err e)
    | Ok _ =>
      let max_strides := (BITS - DIRECT_BITS) / STRIDE in
      validate_reachable t max_strides (direct t) (replicate (length (nodes t)) None)
    end.
End Validate.

(** ** The builder *)
Record BinNode := mkBinNode {
  child0 : option Z;
  child1 : option Z;
  bvalue : Z;
}.
Definition BinNode_empty : BinNode := mkBinNode None None 0.

(** [node.children[branch]] and its assignment. *)
Definition get_child (n : BinNode) (branch : bool) : option Z :=
  if branch then child1 n else child0 n.
Definition set_child (n : BinNode) (branch : bool) (c : option Z) : BinNode :=
  if branch then mkBinNode (child0 n) c (bvalue n) else mkBinNode c (child1 n) (bvalue n).
Definition set_value (n : BinNode) (v : Z) : BinNode := mkBinNode (child0 n) (child1 n) v.

Record PoptrieBuilder (V : Type) `{Countable V} := mkBuilder {
  bin : list BinNode;
  bvalues : list V;
  value_index : gmap V Z;
}.
Arguments mkBuilder {V _ _} _ _ _.
Arguments bin {V _ _} _.
Arguments bvalues {V _ _} _.
Arguments value_index {V _ _} _.

Section Builder.
Context `{K : IpKey} {V : Type} `{Countable V}.

Definition builder_new : PoptrieBuilder V := mkBuilder [BinNode_empty] [] ∅.

(** [intern]: the 1-based index of a value, inserted if new. *)
Definition intern (b : PoptrieBuilder V) (v : V) : outcome (Z * PoptrieBuilder V) :=
  match value_index b !! v with
  | Some index => Ret (index, b)
  | None =>
    let index := u32 (len (bvalues b)) + 1 in
    assert! fitsb 32 index;
    Ret (index, mkBuilder (bin b) (bvalues b ++ [v]) (<[v := index]> (value_index b)))
  end.

(** The descent of [insert]: [n] bits left, bit [i] next. *)
Fixpoint insert_loop (n : nat) (prefix i node : Z) (bin : list BinNode) :
    outcome (Z * list BinNode) :=
  match n with
  | O => Ret (node, bin)
  | S n =>
    let branch := bit prefix i in
    nd ← index bin node;
    match get_child nd branch with
    | Some child => insert_loop n prefix (i + 1) child bin
    | None =>
      let child := u32 (len bin) in
      let bin := bin ++ [BinNode_empty] in
      nd ← index bin node;
      bin ← set_index bin node (set_child nd branch (Some child));
      insert_loop n prefix (i + 1) child bin
    end
  end.

Definition insert (b : PoptrieBuilder V) (prefix prefix_len : Z) (v : V) :
    outcome (PoptrieBuilder V) :=
  assert! prefix_len <=? BITS;
  '(vi, b) ← intern b v;
  '(node, bn) ← insert_loop (Z.to_nat prefix_len) prefix 0 0 (bin b);
  nd ← index bn node;
  bn ← set_index bn node (set_value nd vi);
  Ret (mkBuilder bn (bvalues b) (value_index b)).

(** [compact_live_values]: the loop over the binary nodes, with the [remap]
    table and the dense [live] table as its state. *)
Fixpoint compact_loop (todo : list BinNode) (vals : list V) (remap : list Z) (live : list V) :
    outcome (list BinNode * list V) :=
  match todo with
  | [] => Ret ([], live)
  | node :: todo =>
    let old := bvalue node in
    if old =? 0 then
      '(rest, live) ← compact_loop todo vals remap live;
      Ret (node :: rest, live)
    else
      r ← index remap old;
      '(remap, live) ←
        (if r =? 0 then
           v ← index vals (old - 1);
           remap ← set_index remap old (u32 (len live) + 1);
           Ret (remap, live ++ [v])
         else Ret (remap, live));
      r ← index remap old;
      '(rest, live) ← compact_loop todo vals remap live;
      Ret (set_value node r :: rest, live)
  end.

Definition compact_live_values (bin : list BinNode) (vals : list V) :
    outcome (list BinNode * list V) :=
  compact_loop bin vals (replicate (length vals + 1) 0) [].
End Builder.

(** ** The emitter *)
Inductive Slot :=
  | Internal (id inherited : Z)
  | Leaf (v : Z).

Section Emitter.
Context (bn : list BinNode).

Definition effective (node : option Z) (inherited : Z) : outcome Z :=
  match node with
  | Some id =>
    nd ← index bn id;
    Ret (if negb (bvalue nd =? 0) then bvalue nd else inherited)
  | None => Ret inherited
  end.

Definition has_children (id : Z) : outcome bool :=
  nd ← index bn id;
  Ret (bool_decide (is_Some (child0 nd)) || bool_decide (is_Some (child1 nd))).

Definition children (node : option Z) : outcome (option Z * option Z) :=
  match node with
  | Some id => nd ← index bn id; Ret (child0 nd, child1 nd)
  | None => Ret (None, None)
  end.

(** [node.is_some_and(|id| self.has_children(id))] *)
Definition branches (node : option Z) : outcome bool :=
  match node with
  | Some id => has_children id
  | None => Ret false
  end.

(** [resolve_stride], with [n = STRIDE - depth] levels left. *)
Fixpoint resolve_stride (n : nat) (node : option Z) (inherited pattern : Z)
    (out : list Slot) : outcome (list Slot) :=
  eff ← effective node inherited;
  br ← branches node;
  if negb br then
    fill_range out (Z.shiftl pattern (Z.of_nat n)) (Z.shiftl 1 (Z.of_nat n)) (Leaf eff)
  else
    match n, node with
    | O, Some id => set_index out pattern (Internal id eff)
    | O, None => Panic
    | S n, _ =>
      '(zero, one) ← children node;
      out ← resolve_stride n zero eff (Z.shiftl pattern 1) out;
      resolve_stride n one eff (Z.lor (Z.shiftl pattern 1) 1) out
    end.

Record ScanState := mkScan {
  sc_vector : Z;
  sc_leafvec : Z;
  sc_children : list (Z * Z);
  sc_leaves : list Z;
  sc_run : option Z;
}.

(** One iteration of the slot loop of [fill]. *)
Definition scan_slot (i : Z) (s : Slot) (st : ScanState) : ScanState :=
  match s with
  | Internal child inh =>
    mkScan (Z.lor (sc_vector st) (Z.shiftl 1 i)) (sc_leafvec st)
      (sc_children st ++ [(child, inh)]) (sc_leaves st) None
  | Leaf v =>
    if decide (sc_run st = Some v) then st
    else
      mkScan (sc_vector st) (Z.lor (sc_leafvec st) (Z.shiftl 1 i)) (sc_children st)
        (sc_leaves st ++ [v]) (Some v)
  end.

Fixpoint scan_slots (i : Z) (slots : list Slot) (st : ScanState) : ScanState :=
  match slots with
  | [] => st
  | s :: slots => scan_slots (i + 1) slots (scan_slot i s st)
  end.

(** [for (k, (child, inh)) in children { self.fill(base1 + k, child, inh) }] *)
Fixpoint fill_children (f : Z → Z → Z → list Node * list Z → outcome (list Node * list Z))
    (b1 k : Z) (cs : list (Z * Z)) (st : list Node * list Z) : outcome (list Node * list Z) :=
  match cs with
  | [] => Ret st
  | (child, inh) :: cs =>
    st ← f (wrapping_add 32 b1 (u32 k)) child inh st;
    fill_children f b1 (k + 1) cs st
  end.

(** [fill]: the state is the emitter's [nodes] and [leaves]. *)
Fixpoint fill (fuel : nat) (slot bin_id inherited : Z) (st : list Node * list Z) :
    outcome (list Node * list Z) :=
  match fuel with
  | O => Diverge
  | S fuel =>
    let '(ns, ls) := st in
    slots ← resolve_stride (Z.to_nat STRIDE) (Some bin_id) inherited 0
              (replicate (Z.to_nat (Z.shiftl 1 STRIDE)) (Leaf 0));
    let b0 := u32 (len ls) in
    let sc := scan_slots 0 slots (mkScan 0 0 [] ls None) in
    let b1 := u32 (len ns) in
    let ns := ns ++ replicate (length (sc_children sc)) Node_default in
    ns ← set_index ns slot (mkNode (sc_vector sc) (sc_leafvec sc) b0 b1);
    fill_children (fill fuel) b1 0 (sc_children sc) (ns, sc_leaves sc)
  end.

Definition build_subtree (fuel : nat) (bin_id inherited : Z) (st : list Node * list Z) :
    outcome (Z * (list Node * list Z)) :=
  let '(ns, ls) := st in
  let slot := u32 (len ns) in
  st ← fill fuel slot bin_id inherited (ns ++ [Node_default], ls);
  Ret (slot, st).

(** [fill_direct], with [n = direct_bits - depth] levels left. *)
Fixpoint fill_direct (fuel n : nat) (node : option Z) (inherited pattern : Z)
    (st : list Node * list Z) (dir : list Z) : outcome ((list Node * list Z) * list Z) :=
  eff ← effective node inherited;
  br ← branches node;
  if negb br then
    dir ← fill_range dir (Z.shiftl pattern (Z.of_nat n)) (Z.shiftl 1 (Z.of_nat n))
            (Z.lor LEAF_FLAG eff);
    Ret (st, dir)
  else
    match n, node with
    | O, Some id =>
      '(root, st) ← build_subtree fuel id eff st;
      dir ← set_index dir pattern root;
      Ret (st, dir)
    | O, None => Panic
    | S n, _ =>
      '(zero, one) ← children node;
      '(st, dir) ← fill_direct fuel n zero eff (Z.shiftl pattern 1) st dir;
      fill_direct fuel n one eff (Z.lor (Z.shiftl pattern 1) 1) st dir
    end.
End Emitter.

Section Build.
Context `{K : IpKey} {V : Type} `{Countable V}.

(** [build] of a release build: every [assert!], without the debug-only
    invariant check. *)
Definition build_release (DIRECT_BITS : Z) (b : PoptrieBuilder V) : outcome (Poptrie V) :=
  assert! (1 <=? DIRECT_BITS) && (DIRECT_BITS <? BITS);
  assert! (BITS - DIRECT_BITS) mod STRIDE =? 0;
  '(bn, vals) ← compact_live_values (bin b) (bvalues b);
  assert! len vals <? VALUE_MASK;
  assert! DIRECT_BITS <? 64;
  '(st, dir) ← fill_direct bn (Z.to_nat BITS) (Z.to_nat DIRECT_BITS) (Some 0) 0 0 ([], [])
                 (replicate (Z.to_nat (Z.shiftl 1 DIRECT_BITS)) 0);
  let '(ns, ls) := st in
  assert! len ns <? LEAF_FLAG;
  Ret (mkPoptrie dir ns ls vals).

(** [build] with [debug_assertions]: the emitted table is validated. *)
Definition build (DIRECT_BITS : Z) (b : PoptrieBuilder V) : outcome (Poptrie V) :=
  t ← build_release DIRECT_BITS b;
  r ← validate_invariants DIRECT_BITS t;
  match r with
  | Ok _ => Ret t
  | Err _ => Panic
  end.

(** A chain of [builder.insert(..)] calls. *)
Fixpoint insert_all (b : PoptrieBuilder V) (routes : list (Z * Z * V)) :
    outcome (PoptrieBuilder V) :=
  match routes with
  | [] => Ret b
  | (p, l, v) :: routes => b ← insert b p l v; insert_all b routes
  end.

(** [reference_lpm]: the exhaustive scan the test-suite checks against. *)
Definition prefix_mask (l : Z) : Z :=
  if l =? 0 then 0 else wrap BITS (Z.shiftl (2 ^ BITS - 1) (BITS - l)).

Fixpoint reference_scan (prefixes : list (Z * Z * V)) (key : Z) (best : option (Z * V)) :
    option (Z * V) :=
  match prefixes with
  | [] => best
  | (p, l, v) :: prefixes =>
    let mask := prefix_mask l in
    let better := match best with None => true | Some (bl, _) => bl <=? l end in
    reference_scan prefixes key
      (if (Z.land key mask =? Z.land p mask) && better then Some (l, v) else best)
  end.

Definition reference_lpm (prefixes : list (Z * Z * V)) (key : Z) : option V :=
  snd <$> reference_scan prefixes key None.
End Build.
