(* ===== verification/PoptrieEmit.v ===== *)
(** * The emitted arrays represent the binary trie

    [walk] is the meaning of a binary trie: the value of the longest prefix
    met on the way down a list of bits. The lemmas show that the slots of a
    stride, the bitmaps and leaf runs of a node, the node subtrees and the
    direct array all preserve it. *)
From S2P Require Import Prelude Bits Poptrie.
Open Scope Z_scope.

Section Trie.
Context (bn : list BinNode).

Definition eff (node : option Z) (inh : Z) : Z :=
  match node with
  | Some id =>
    match nthZ bn id with
    | Some nd => if bvalue nd =? 0 then inh else bvalue nd
    | None => inh
    end
  | None => inh
  end.

Definition kid (node : option Z) (b : bool) : option Z :=
  match node with
  | Some id => match nthZ bn id with Some nd => get_child nd b | None => None end
  | None => None
  end.

(** The leaf-pushed value reached from [node] along [bits]. *)
Fixpoint walk (node : option Z) (inh : Z) (bits : list bool) : Z :=
  match bits with
  | [] => eff node inh
  | b :: bits => walk (kid node b) (eff node inh) bits
  end.

(** [node] is a well-formed subtrie of height at most [n]. *)
Fixpoint hb (n : nat) (node : option Z) : Prop :=
  match node with
  | None => True
  | Some id => ∃ nd, nthZ bn id = Some nd ∧
      match n with
      | O => child0 nd = None ∧ child1 nd = None
      | S n => hb n (child0 nd) ∧ hb n (child1 nd)
      end
  end.

(** The number of binary nodes of a subtrie, down to depth [n]. *)
Fixpoint tsize (n : nat) (node : option Z) : Z :=
  match node with
  | None => 0
  | Some _ =>
    match n with
    | O => 1
    | S n => 1 + tsize n (kid node false) + tsize n (kid node true)
    end
  end.

Lemma walk_None inh bs : walk None inh bs = inh.
Proof. revert inh. induction bs; simpl; auto. Qed.

Lemma eff_idem node inh : eff node (eff node inh) = eff node inh.
Proof. unfold eff. destruct node as [id|]; [|done]. destruct (nthZ bn id); case_bool; done. Qed.

Lemma walk_eff node inh bs : walk node (eff node inh) bs = walk node inh bs.
Proof. destruct bs; simpl; by rewrite eff_idem. Qed.

Lemma walk_leaf node inh bs :
  kid node false = None → kid node true = None → walk node inh bs = eff node inh.
Proof. intros H0 H1. destruct bs as [|[] bs]; simpl; rewrite ?H0, ?H1, ?walk_None; done. Qed.

Lemma walk_P (P : Z → Prop) node inh bs :
  (∀ i nd, nthZ bn i = Some nd → bvalue nd ≠ 0 → P (bvalue nd)) → P inh → P (walk node inh bs).
Proof.
  intros HP. revert node inh.
  assert (He : ∀ node inh, P inh → P (eff node inh)).
  { intros [id|] inh Hi; simpl; [|done]. destruct (nthZ bn id) eqn:E; [|done].
    case_bool; eauto. }
  induction bs as [|b bs IH]; intros node inh Hi; simpl; auto.
Qed.

Lemma hb_kid n node b : hb (S n) node → hb n (kid node b).
Proof.
  destruct node as [id|]; simpl; [|by destruct n]. intros (nd & -> & H0 & H1).
  destruct b; [exact H1|exact H0].
Qed.

Lemma effective_ok n node inh : hb n node → effective bn node inh = Ret (eff node inh).
Proof.
  destruct node as [id|]; simpl; [|done].
  destruct n; intros (nd & Hnd & _); rewrite (index_Some _ _ _ Hnd), Hnd; simpl;
    by destruct (bvalue nd =? 0).
Qed.

Lemma children_ok n node :
  hb n node → children bn node = Ret (kid node false, kid node true).
Proof.
  destruct node as [id|]; simpl; [|done].
  destruct n; intros (nd & Hnd & _); by rewrite (index_Some _ _ _ Hnd), Hnd.
Qed.

Lemma branches_ok n node :
  hb n node →
  branches bn node
  = Ret (bool_decide (is_Some (kid node false)) || bool_decide (is_Some (kid node true))).
Proof.
  destruct node as [id|]; simpl; [|done]. unfold has_children.
  destruct n; intros (nd & Hnd & _); by rewrite (index_Some _ _ _ Hnd), Hnd.
Qed.

Lemma no_branch_walk n node inh bs :
  hb n node → branches bn node = Ret false → walk node inh bs = eff node inh.
Proof.
  intros Hh. rewrite (branches_ok n) by done. intros [= [H0 H1]%orb_false_iff].
  apply bool_decide_eq_false in H0, H1. rewrite <-eq_None_not_Some in H0, H1.
  by apply walk_leaf.
Qed.

Lemma branch_height n node :
  hb n node → branches bn node = Ret true → ∃ id, node = Some id ∧ (0 < n)%nat.
Proof.
  intros Hh. rewrite (branches_ok n) by done. destruct node as [id|]; simpl; [|done].
  intros [= Hb]. exists id; split; [done|]. destruct n; [|lia]. simpl in *.
  destruct Hh as (nd & Hnd & H0 & H1). rewrite Hnd in Hb. simpl in Hb.
  by rewrite H0, H1 in Hb.
Qed.

#[local] Arguments eff : simpl never.
#[local] Arguments kid : simpl never.

Lemma tsize_nonneg n node : 0 ≤ tsize n node.
Proof.
  revert node. induction n as [|n IH]; intros [id|]; simpl; try lia.
  pose proof (IH (kid (Some id) false)). pose proof (IH (kid (Some id) true)). lia.
Qed.

Lemma tsize_Some n id : 1 ≤ tsize n (Some id).
Proof.
  destruct n; simpl; [lia|]. pose proof (tsize_nonneg n (kid (Some id) false)).
  pose proof (tsize_nonneg n (kid (Some id) true)). lia.
Qed.

Lemma tsize_kids n node :
  tsize n (kid node false) + tsize n (kid node true) ≤ tsize (S n) node.
Proof. destruct node; cbn [tsize]; [lia|]. by destruct n. Qed.

(** ** One stride *)
Definition slot_ok (m : nat) (s : Slot) (node : option Z) (inh : Z) (bs : list bool) : Prop :=
  match s with
  | Leaf v => ∀ ks, walk node inh (bs ++ ks) = v
  | Internal id e =>
    hb m (Some id) ∧ (0 < m)%nat ∧ eff (Some id) e = e ∧
    ∀ ks, walk node inh (bs ++ ks) = walk (Some id) e ks
  end.

Definition in_block (pattern n j : Z) : Prop := pattern * 2 ^ n ≤ j < (pattern + 1) * 2 ^ n.

Lemma in_block_split pattern (n : nat) j :
  in_block pattern (Z.of_nat (S n)) j ↔
  in_block (2 * pattern) (Z.of_nat n) j ∨ in_block (2 * pattern + 1) (Z.of_nat n) j.
Proof.
  unfold in_block. rewrite Nat2Z.inj_succ, Z.pow_succ_r by lia. lia.
Qed.

Lemma in_block_bit pattern (n : nat) b j :
  in_block (2 * pattern + Z.b2z b) (Z.of_nat n) j → Z.testbit j (Z.of_nat n) = b.
Proof. intros H. eapply testbit_range. exact H. Qed.

Lemma lor_double_1 p : Z.lor (Z.shiftl p 1) 1 = 2 * p + 1.
Proof.
  rewrite Z.shiftl_mul_pow2, (Z.mul_comm 2 p) by lia. change (2 ^ 1) with 2.
  assert (Hc : Z.land (p * 2) 1 = 0).
  { change 1 with (Z.ones 1). rewrite Z.land_ones by lia. apply Z.mod_mul. lia. }
  by rewrite Z.add_nocarry_lxor, Z.lxor_lor.
Qed.

Lemma shiftl_double p : Z.shiftl p 1 = 2 * p.
Proof. rewrite Z.shiftl_mul_pow2 by lia. lia. Qed.

Lemma resolve_stride_ok m n : ∀ node inh pattern out,
  hb (n + m) node → 0 ≤ pattern → (pattern + 1) * 2 ^ Z.of_nat n ≤ len out →
  ∃ out', resolve_stride bn n node inh pattern out = Ret out' ∧ len out' = len out ∧
    (∀ j, ¬ in_block pattern (Z.of_nat n) j → nthZ out' j = nthZ out j) ∧
    (∀ j, in_block pattern (Z.of_nat n) j →
       ∃ s, nthZ out' j = Some s ∧ slot_ok m s node inh (bits_of n j)).
Proof.
  induction n as [|n IH]; intros node inh pattern out Hh Hp Hl.
  all: cbn [resolve_stride]; rewrite (effective_ok _ _ _ Hh); run.
  all: destruct (branches bn node) as [br| | |] eqn:Hb;
    try (rewrite (branches_ok _ _ Hh) in Hb; discriminate).
  all: run; destruct br; cbn [negb].
  - destruct (branch_height _ _ Hh Hb) as (id & -> & Hm). simpl in *.
    rewrite set_index_ok by lia. eexists; split; [done|].
    rewrite len_insert. split; [done|]. unfold in_block. split.
    + intros j Hj. rewrite nthZ_insert by lia. rewrite decide_False by lia. done.
    + intros j Hj. rewrite nthZ_insert by lia. rewrite decide_True by lia.
      eexists; split; [done|]. split; [done|]. split; [lia|].
      split; [apply eff_idem|]. intros ks. by rewrite walk_eff.
  - rewrite !Z.shiftl_0_r.
    destruct (fill_range_ok out pattern 1 (Leaf (eff node inh))) as (o & -> & Hlo & Ho); try lia.
    eexists; split; [done|]. split; [done|]. unfold in_block. simpl. split.
    + intros j Hj. rewrite Ho, decide_False by lia. done.
    + intros j Hj. rewrite Ho, decide_True by lia. eexists; split; [done|].
      intros ks. by apply (no_branch_walk (0 + m)).
  - rewrite (children_ok _ _ Hh). run. rewrite lor_double_1, shiftl_double.
    assert (Hl' := Hl). rewrite Nat2Z.inj_succ, Z.pow_succ_r in Hl' by lia.
    destruct (IH (kid node false) (eff node inh) (2 * pattern) out)
      as (o1 & -> & Hl1 & Hf1 & Hi1); [by apply hb_kid|lia|nia|].
    run.
    destruct (IH (kid node true) (eff node inh) (2 * pattern + 1) o1)
      as (o2 & -> & Hl2 & Hf2 & Hi2); [by apply hb_kid|lia|nia|].
    eexists; split; [done|]. split; [lia|]. split.
    + intros j Hj. rewrite in_block_split in Hj. rewrite Hf2, Hf1; tauto.
    + intros j Hj. rewrite in_block_split in Hj.
      destruct (decide (in_block (2 * pattern + 1) (Z.of_nat n) j)) as [Hj1|Hj1].
      * destruct (Hi2 j Hj1) as (s & Hs & Hok). exists s; split; [done|].
        simpl bits_of. rewrite (in_block_bit pattern n true j Hj1). done.
      * destruct Hj as [Hj0|?]; [|done].
        destruct (Hi1 j Hj0) as (s & Hs & Hok). exists s; split; [by rewrite Hf2|].
        simpl bits_of. rewrite (in_block_bit pattern n false j); [done|].
        by rewrite Z.add_0_r.
  - rewrite Z.shiftl_mul_pow2, Z.shiftl_1_l by lia.
    destruct (fill_range_ok out (pattern * 2 ^ Z.of_nat (S n)) (2 ^ Z.of_nat (S n))
      (Leaf (eff node inh))) as (o & -> & Hlo & Ho); try nia.
    eexists; split; [done|]. split; [done|]. unfold in_block. split.
    + intros j Hj. rewrite Ho, decide_False by lia. done.
    + intros j Hj. rewrite Ho, decide_True by lia. eexists; split; [done|].
      intros ks. by apply (no_branch_walk (S n + m)).
Qed.

(** The subtries hanging off the slots of a stride. *)
Definition slot_size (m : nat) (s : Slot) : Z :=
  match s with
  | Internal id _ => tsize m (Some id)
  | Leaf _ => 0
  end.

Fixpoint slots_size (m : nat) (l : list Slot) : Z :=
  match l with
  | [] => 0
  | s :: l => slot_size m s + slots_size m l
  end.

Lemma slot_size_nonneg m s : 0 ≤ slot_size m s.
Proof. destruct s; simpl; [apply tsize_nonneg|lia]. Qed.

Lemma slots_size_app m l k : slots_size m (l ++ k) = slots_size m l + slots_size m k.
Proof. induction l; simpl; lia. Qed.

Lemma slots_size_nonneg m l : 0 ≤ slots_size m l.
Proof. induction l as [|s l IH]; simpl; [lia|]. pose proof (slot_size_nonneg m s). lia. Qed.

Lemma slots_size_replicate m k v : slots_size m (replicate k (Leaf v)) = 0.
Proof. induction k; simpl; lia. Qed.

Lemma slots_size_fill m out start n v out' :
  0 ≤ start → 0 ≤ n → fill_range out start n (Leaf v) = Ret out' → slots_size m out' ≤ slots_size m out.
Proof.
  intros Hs Hn. unfold fill_range. destruct (_ && _); [|done]. intros [= <-].
  rewrite !slots_size_app, slots_size_replicate.
  replace (Z.to_nat (start + n)) with (Z.to_nat start + Z.to_nat n)%nat by lia.
  rewrite <-drop_drop.
  rewrite <-(take_drop (Z.to_nat start) out) at 3.
  rewrite <-(take_drop (Z.to_nat n) (drop (Z.to_nat start) out)) at 2.
  rewrite !slots_size_app. pose proof (slots_size_nonneg m (take (Z.to_nat n) (drop (Z.to_nat start) out))).
  lia.
Qed.

Lemma slots_size_insert m l i s :
  slots_size m (<[i := s]> l) ≤ slots_size m l + slot_size m s.
Proof.
  revert i. induction l as [|x l IH]; intros [|i]; simpl.
  - pose proof (slot_size_nonneg m s). lia.
  - pose proof (slot_size_nonneg m s). lia.
  - pose proof (slot_size_nonneg m x). lia.
  - specialize (IH i). lia.
Qed.

Lemma resolve_stride_size m n : ∀ node inh pattern out out',
  0 ≤ pattern → resolve_stride bn n node inh pattern out = Ret out' →
  slots_size m out' ≤ slots_size m out + tsize (n + m) node -
    (if decide (n = O) then 0 else if node is Some _ then 1 else 0).
Proof.
  assert (Hz : ∀ k node, 0 ≤ tsize k node - (if node is Some _ then 1 else 0)).
  { intros k [id|]; [pose proof (tsize_Some k id)|pose proof (tsize_nonneg k None)]; lia. }
  induction n as [|n IH]; intros node inh pattern out out' Hp; cbn [resolve_stride];
    intros (e & _ & (br & _ & H)%bind_ret_inv)%bind_ret_inv;
    pose proof (tsize_nonneg m node); destruct br; cbn [negb] in H.
  - destruct node as [id|]; [|done]. unfold set_index in H. destruct (_ && _); [|done].
    injection H as <-. pose proof (slots_size_insert m out (Z.to_nat pattern) (Internal id e)).
    simpl in *. lia.
  - apply slots_size_fill with (m := m) in H; [|rewrite Z.shiftl_mul_pow2; lia|by vm_compute].
    simpl. lia.
  - apply bind_ret_inv in H as ([zero one] & Hc & (out1 & H1 & H2)%bind_ret_inv).
    assert (zero = kid node false ∧ one = kid node true) as [-> ->].
    { destruct node as [id|]; simpl in Hc; unfold kid; [|by simplify_eq].
      unfold index in Hc. destruct (nthZ bn id); simpl in *; by simplify_eq. }
    apply IH in H1; [|rewrite Z.shiftl_mul_pow2; lia].
    apply IH in H2; [|rewrite lor_double_1; lia].
    rewrite decide_False by lia.
    assert (Hk : ∀ k, tsize (n + m) (kid node k) - (if decide (n = O) then 0
      else if kid node k is Some _ then 1 else 0) ≤ tsize (n + m) (kid node k)).
    { intros k. case_decide; destruct (kid node k); lia. }
    pose proof (Hk true). pose proof (Hk false).
    destruct node as [id|]; cbn [Nat.add tsize]; [lia|].
    change (kid None false) with (@None Z) in *. change (kid None true) with (@None Z) in *.
    assert (tsize (n + m) None = 0) by (by destruct (n + m)%nat). lia.
  - apply slots_size_fill with (m := m) in H;
      [|rewrite Z.shiftl_mul_pow2 by lia; nia|rewrite Z.shiftl_mul_pow2; lia].
    rewrite decide_False by lia. pose proof (Hz (S n + m)%nat node). lia.
Qed.
End Trie.

#[global] Arguments eff : simpl never.
#[global] Arguments kid : simpl never.

(** ** Bitmaps and leaf runs of one node *)
Section Scan.
Context (P : Z → Prop) (ls : list Z).

Definition is_internal (s : option Slot) : bool :=
  match s with
  | Some (Internal _ _) => true
  | _ => false
  end.

Definition slot_P (s : Slot) : Prop :=
  match s with
  | Internal _ e => P e
  | Leaf v => P v
  end.

Record scan_inv (done : list Slot) (st : ScanState) (L : list Z) : Prop := {
  si_vector j : 0 ≤ j → Z.testbit (sc_vector st) j = is_internal (nthZ done j);
  si_children_len : len (sc_children st) = count_ones (length done) (sc_vector st);
  si_children j c e : nthZ done j = Some (Internal c e) →
    nthZ (sc_children st) (count_ones (Z.to_nat j) (sc_vector st)) = Some (c, e);
  si_children_P : Forall (λ '(c, e), ∃ j, nthZ done j = Some (Internal c e)) (sc_children st);
  si_leaves : sc_leaves st = ls ++ L;
  si_leaves_len : len L = count_ones (length done) (sc_leafvec st);
  si_leaf_high j : len done ≤ j → Z.testbit (sc_leafvec st) j = false;
  si_leaf_only j : 0 ≤ j → Z.testbit (sc_leafvec st) j = true → is_internal (nthZ done j) = false;
  si_leaf j x : nthZ done j = Some (Leaf x) →
    1 ≤ count_ones (S (Z.to_nat j)) (sc_leafvec st) ∧
    nthZ L (count_ones (S (Z.to_nat j)) (sc_leafvec st) - 1) = Some x;
  si_run x : sc_run st = Some x → 0 < len L ∧ nthZ L (len L - 1) = Some x;
  si_P : Forall slot_P done → Forall P L;
}.

Lemma scan_slots_snoc i l s st :
  scan_slots i (l ++ [s]) st = scan_slot (i + len l) s (scan_slots i l st).
Proof.
  revert i st. induction l as [|x l IH]; intros i st; simpl.
  - by rewrite Z.add_0_r.
  - rewrite IH. f_equal. unfold len. simpl length. lia.
Qed.

Lemma nthZ_snoc_inv {A} (l : list A) x j y :
  nthZ (l ++ [x]) j = Some y → (j < len l ∧ nthZ l j = Some y) ∨ (j = len l ∧ y = x).
Proof.
  intros H. assert (Hr := nthZ_Some_range _ _ _ H). rewrite len_snoc in Hr.
  destruct (decide (j = len l)) as [->|].
  - rewrite nthZ_snoc in H. right. split; congruence.
  - rewrite nthZ_app_l in H by lia. left. split; [lia|done].
Qed.

Lemma is_internal_snoc (l : list Slot) s j :
  is_internal (nthZ (l ++ [s]) j)
  = if decide (len l = j) then is_internal (Some s) else is_internal (nthZ l j).
Proof.
  case_decide as E; [subst; by rewrite nthZ_snoc|].
  destruct (decide (j < len l)).
  - by rewrite nthZ_app_l by done.
  - rewrite !nthZ_None; [done|lia|rewrite len_snoc; lia].
Qed.

(** A bit set at or above [k] leaves the count below [k] unchanged. *)
Lemma count_ones_set k x i :
  Z.of_nat k ≤ i → count_ones k (Z.lor x (Z.shiftl 1 i)) = count_ones k x.
Proof.
  intros. apply count_ones_ext. intros j Hj. rewrite testbit_set by lia.
  rewrite decide_False by lia. done.
Qed.

Lemma count_ones_set_top k x :
  Z.testbit x (Z.of_nat k) = false →
  count_ones (S k) (Z.lor x (Z.shiftl 1 (Z.of_nat k))) = count_ones k x + 1.
Proof.
  intros H. simpl. rewrite count_ones_set by lia.
  rewrite testbit_set by lia. rewrite decide_True by done. done.
Qed.

Lemma count_ones_clear_top k x :
  Z.testbit x (Z.of_nat k) = false → count_ones (S k) x = count_ones k x.
Proof. intros H. simpl. rewrite H. simpl. lia. Qed.

Lemma scan_inv_nil : scan_inv [] (mkScan 0 0 [] ls None) [].
Proof.
  split; simpl; intros; try done; rewrite ?Z.bits_0, ?app_nil_r; try done.
  all: try by rewrite nthZ_None.
  all: match goal with H : _ = Some _ |- _ => apply nthZ_Some_range in H; unfold len in H; simpl in H; lia end.
Qed.

Lemma scan_inv_internal done st L c e :
  scan_inv done st L →
  scan_inv (done ++ [Internal c e]) (scan_slot (len done) (Internal c e) st) L.
Proof.
  intros [Hv Hcl Hc HcP Hl Hll Hlh Hlo Hlf Hr HP]. unfold len in *.
  assert (Htop : Z.testbit (sc_vector st) (Z.of_nat (length done)) = false).
  { rewrite Hv by lia. by rewrite nthZ_None by (unfold len; lia). }
  assert (Htop' : Z.testbit (sc_leafvec st) (Z.of_nat (length done)) = false) by (apply Hlh; lia).
  split; simpl sc_vector; simpl sc_children; simpl sc_leafvec; simpl sc_leaves; simpl sc_run;
    rewrite ?length_app, ?Nat.add_1_r; simpl length; unfold len; rewrite ?length_app.
  - intros j Hj. rewrite testbit_set, is_internal_snoc by lia. unfold len.
    case_decide; [done|]. by apply Hv.
  - rewrite count_ones_set_top by done. simpl. lia.
  - intros j c' e' [[Hj Hn]|[-> [= -> ->]]]%nthZ_snoc_inv; unfold len in *.
    + assert (Hj0 := nthZ_Some_range _ _ _ Hn).
      rewrite count_ones_set by lia. apply nthZ_app_Some. by apply Hc.
    + rewrite Nat2Z.id, count_ones_set by lia. rewrite <-Hcl. apply nthZ_snoc.
  - apply Forall_app; split.
    + eapply Forall_impl; [exact HcP|]. intros [c' e'] [j Hj]. exists j. by apply nthZ_app_Some.
    + constructor; [|constructor]. exists (len done). apply nthZ_snoc.
  - done.
  - rewrite count_ones_clear_top by done. done.
  - intros j Hj. apply Hlh. lia.
  - intros j Hj Ht. rewrite is_internal_snoc. unfold len.
    case_decide; [subst; congruence|]. by apply Hlo.
  - intros j x [[Hj Hn]|[-> [=]]]%nthZ_snoc_inv. by apply Hlf.
  - done.
  - rewrite Forall_app. intros [? _]. auto.
Qed.

Lemma scan_inv_leaf done st L v :
  scan_inv done st L →
  ∃ L', scan_inv (done ++ [Leaf v]) (scan_slot (len done) (Leaf v) st) L'.
Proof.
  intros [Hv Hcl Hc HcP Hl Hll Hlh Hlo Hlf Hr HP].
  assert (Htop : Z.testbit (sc_vector st) (Z.of_nat (length done)) = false).
  { rewrite Hv by lia. by rewrite nthZ_None by (unfold len; lia). }
  assert (Htop' : Z.testbit (sc_leafvec st) (Z.of_nat (length done)) = false)
    by (apply Hlh; unfold len; lia).
  assert (Hchild : ∀ j c e, nthZ (done ++ [Leaf v]) j = Some (Internal c e) →
    nthZ (sc_children st) (count_ones (Z.to_nat j) (sc_vector st)) = Some (c, e)).
  { intros j c' e' [[Hj Hn]|[-> [=]]]%nthZ_snoc_inv. by apply Hc. }
  assert (HchildP : Forall (λ '(c, e), ∃ j, nthZ (done ++ [Leaf v]) j = Some (Internal c e))
    (sc_children st)).
  { eapply Forall_impl; [exact HcP|]. intros [c' e'] [j Hj]. exists j. by apply nthZ_app_Some. }
  assert (Hvec : ∀ j, 0 ≤ j →
    Z.testbit (sc_vector st) j = is_internal (nthZ (done ++ [Leaf v]) j)).
  { intros j Hj. rewrite is_internal_snoc. case_decide; [|by apply Hv]. subst. done. }
  simpl scan_slot. case_decide as Hrun.
  - exists L. destruct (Hr v Hrun) as [HL Hlast].
    split; rewrite ?length_app, ?Nat.add_1_r; simpl length; try done.
    + by rewrite count_ones_clear_top.
    + by rewrite count_ones_clear_top.
    + intros j. rewrite len_snoc. intros. apply Hlh. lia.
    + intros j Hj Ht. rewrite is_internal_snoc. case_decide; [done|]. by apply Hlo.
    + intros j x [[Hj Hn]|[-> [= ->]]]%nthZ_snoc_inv; [by apply Hlf|].
      replace (Z.to_nat (len done)) with (length done) by (unfold len; lia).
      rewrite count_ones_clear_top, <-Hll by done.
      split; [lia|done].
    + rewrite Forall_app. intros [? _]. auto.
  - exists (L ++ [v]).
    split; simpl sc_vector; simpl sc_children; simpl sc_leafvec; simpl sc_leaves; simpl sc_run;
      rewrite ?length_app, ?Nat.add_1_r; simpl length; try done.
    + by rewrite count_ones_clear_top.
    + by rewrite Hl, app_assoc.
    + rewrite len_snoc. unfold len at 2. rewrite count_ones_set_top by done. by rewrite Hll.
    + intros j. rewrite len_snoc. intros. assert (H0 := len_nonneg done).
      rewrite testbit_set, decide_False by lia. apply Hlh. lia.
    + intros j Hj Ht. rewrite is_internal_snoc. case_decide; [done|].
      rewrite testbit_set, decide_False in Ht by (try lia; done || apply len_nonneg).
      by apply Hlo.
    + intros j x [[Hj Hn]|[-> [= ->]]]%nthZ_snoc_inv.
      * assert (Hj0 := nthZ_Some_range _ _ _ Hn). unfold len in Hj, Hj0.
        unfold len. rewrite count_ones_set by lia.
        destruct (Hlf j x Hn) as [H1 H2]. split; [done|]. by apply nthZ_app_Some.
      * unfold len. rewrite Nat2Z.id, count_ones_set_top, <-Hll by done.
        split; [assert (H0 := len_nonneg L); lia|].
        replace (len L + 1 - 1) with (len L) by lia. apply nthZ_snoc.
    + intros x [= ->]. rewrite len_snoc.
      replace (len L + 1 - 1) with (len L) by lia.
      split; [assert (H0 := len_nonneg L); lia|apply nthZ_snoc].
    + rewrite !Forall_app. intros [? Hx]. split; [auto|].
      inversion_clear Hx. by constructor.
Qed.

Lemma scan_slots_ok slots :
  ∃ L, scan_inv slots (scan_slots 0 slots (mkScan 0 0 [] ls None)) L.
Proof.
  induction slots as [|s slots [L IH]] using rev_ind; [exists []; apply scan_inv_nil|].
  rewrite scan_slots_snoc, Z.add_0_l. destruct s.
  - exists L. by apply scan_inv_internal.
  - by apply (scan_inv_leaf _ _ L).
Qed.

(** The checker's slot loop accepts the emitted bitmaps. *)
Lemma scan_cover slots i node m :
  (∀ j, 0 ≤ j < len slots →
     let st := scan_slots 0 slots (mkScan 0 0 [] ls None) in
     Z.testbit (vector node) j = Z.testbit (sc_vector st) j ∧
     Z.testbit (leafvec node) j = Z.testbit (sc_leafvec st) j) →
  validate_slots (length slots + m) i node 0 false
  = validate_slots m i node (len slots)
      (bool_decide (is_Some (sc_run (scan_slots 0 slots (mkScan 0 0 [] ls None))))).
Proof.
  revert m. induction slots as [|s slots IH] using rev_ind; intros m Hag; [done|].
  rewrite length_app, <-Nat.add_assoc, len_snoc. simpl (length [s] + m)%nat.
  rewrite scan_slots_snoc, Z.add_0_l in *.
  destruct (scan_slots_ok slots) as [L HI]. assert (H0 := len_nonneg slots).
  set (st := scan_slots 0 slots _) in *.
  assert (Htop : Z.testbit (sc_vector st) (len slots) = false)
    by (rewrite (si_vector _ _ _ HI) by done; by rewrite nthZ_None).
  rewrite IH; clear IH.
  - cbn [validate_slots]. rewrite !land_bit_test by done.
    destruct (Hag (len slots)) as [-> ->]; [rewrite len_snoc; lia|].
    destruct s as [c e|v]; simpl scan_slot; cbn zeta.
    + cbn [sc_vector sc_run]. rewrite testbit_set, decide_True by done. done.
    + case_decide as Hrun.
      * rewrite Htop, Hrun. simpl. by destruct (Z.testbit (sc_leafvec st) (len slots)).
      * cbn [sc_vector sc_leafvec sc_run].
        rewrite Htop, testbit_set, decide_True by done. done.
  - intros j Hj. destruct (Hag j) as [-> ->]; [rewrite len_snoc; lia|].
    destruct s as [c e|v]; simpl scan_slot; [|case_decide; [done|]];
      cbn [sc_vector sc_leafvec]; rewrite testbit_set, decide_False by lia; done.
Qed.
End Scan.

(** ** Node subtrees *)
Section Rep.
Context (bn : list BinNode) (P : Z → Prop).
Context (bn_P : ∀ i nd, nthZ bn i = Some nd → bvalue nd ≠ 0 → P (bvalue nd)).

(** Node [idx] and the nodes below it, all within the footprint [D],
    represent the subtrie [id] with [h] strides left; [ds] is a ghost array
    giving the strides left at every node. *)
Fixpoint nrep (h : nat) (ns : list Node) (ls : list Z) (ds : list nat) (D : Z → Prop)
    (idx id inh : Z) : Prop :=
  match h with
  | O => False
  | S h' =>
    D idx ∧ nthZ ds idx = Some h ∧ ∃ node, nthZ ns idx = Some node ∧ ∀ j, 0 ≤ j < 64 → ∃ s,
      slot_ok bn (6 * h') s (Some id) inh (bits_of 6 j) ∧
      match s with
      | Internal c e =>
        Z.testbit (vector node) j = true ∧
        nrep h' ns ls ds D (base1 node + count_ones (Z.to_nat j) (vector node)) c e
      | Leaf v =>
        Z.testbit (vector node) j = false ∧
        1 ≤ count_ones (S (Z.to_nat j)) (leafvec node) ∧
        nthZ ls (base0 node + count_ones (S (Z.to_nat j)) (leafvec node) - 1) = Some v
      end
  end.

Lemma nrep_frame h : ∀ ns ls ds D ns' L E (D' : Z → Prop) idx id inh,
  nrep h ns ls ds D idx id inh →
  (∀ i, D i → D' i ∧ nthZ ns' i = nthZ ns i) →
  nrep h ns' (ls ++ L) (ds ++ E) D' idx id inh.
Proof.
  induction h as [|h IH]; intros ns ls ds D ns' L E D' idx id inh; [done|].
  intros (HD & Hds & node & Hn & Hs) Hf. destruct (Hf _ HD) as [HD' Heq].
  split; [done|]. split; [by apply nthZ_app_Some|]. exists node. split; [congruence|].
  intros j Hj. destruct (Hs j Hj) as (s & Hok & Hm). exists s. split; [done|].
  destruct s as [c e|v].
  - destruct Hm as [Hv Hr]. split; [done|]. by apply (IH _ _ _ _ _ _ _ _ _ _ _ Hr).
  - destruct Hm as (Hv & Hr & Hl). split; [done|]. split; [done|]. by apply nthZ_app_Some.
Qed.

(** Local well-formedness of an emitted node. *)
Record node_wf (nn nl : Z) (node : Node) : Prop := {
  nw_vector : fits 64 (vector node);
  nw_leafvec : fits 64 (leafvec node);
  nw_disjoint : Z.land (vector node) (leafvec node) = 0;
  nw_base0 : 0 ≤ base0 node;
  nw_base1 : 0 ≤ base1 node;
  nw_children : base1 node + count_ones 64 (vector node) ≤ nn;
  nw_leaves : base0 node + count_ones 64 (leafvec node) ≤ nl;
  nw_cover i : validate_slots 64 i node 0 false = Ok tt;
}.

Lemma node_wf_mono nn nl nn' nl' node :
  node_wf nn nl node → nn ≤ nn' → nl ≤ nl' → node_wf nn' nl' node.
Proof. intros [] ??. split; try done; lia. Qed.

Lemma scan_node_wf ls slots L b1 nn :
  let st := scan_slots 0 slots (mkScan 0 0 [] ls None) in
  length slots = 64%nat → scan_inv P ls slots st L → 0 ≤ b1 →
  b1 + len (sc_children st) ≤ nn →
  node_wf nn (len (sc_leaves st)) (mkNode (sc_vector st) (sc_leafvec st) (len ls) b1).
Proof.
  intros st Hlen HI Hb1 Hnn. split; cbn [vector leafvec base0 base1]; auto using len_nonneg.
  - apply fits_of_testbit; [done|]. intros j Hj. rewrite (si_vector _ _ _ _ _ HI) by lia.
    rewrite nthZ_None; [done|]. unfold len. lia.
  - apply fits_of_testbit; [done|]. intros j Hj. apply (si_leaf_high _ _ _ _ _ HI).
    unfold len. lia.
  - apply Z.bits_inj'. intros j Hj. rewrite Z.land_spec, Z.bits_0.
    destruct (Z.testbit (sc_leafvec st) j) eqn:E; [|apply andb_false_r].
    rewrite (si_vector _ _ _ _ _ HI) by done.
    by rewrite (si_leaf_only _ _ _ _ _ HI j Hj E).
  - rewrite (si_children_len _ _ _ _ _ HI), Hlen in Hnn. done.
  - rewrite (si_leaves _ _ _ _ _ HI), len_app, (si_leaves_len _ _ _ _ _ HI), Hlen. done.
  - intros i. pose proof (scan_cover P ls slots i
      (mkNode (sc_vector st) (sc_leafvec st) (len ls) b1) 0) as Hc.
    rewrite Hlen, Nat.add_0_r in Hc. rewrite Hc; [done|]. done.
Qed.

Definition wf_on (ns : list Node) (ls : list Z) (D : Z → Prop) : Prop :=
  ∀ i node, D i → nthZ ns i = Some node → node_wf (len ns) (len ls) node.

Lemma wf_on_frame ns ls D ns' L :
  wf_on ns ls D → len ns ≤ len ns' → (∀ i, D i → nthZ ns' i = nthZ ns i) →
  wf_on ns' (ls ++ L) D.
Proof.
  intros Hw Hl Hf i node HD Hn. rewrite Hf in Hn by done.
  eapply node_wf_mono; [by apply (Hw i)|done|]. rewrite len_app. assert (H := len_nonneg L). lia.
Qed.

(** The result of emitting a list of subtries [cs] at the reserved indices
    from [slot] on, with [h] strides left: earlier nodes are kept, leaves
    and nodes are only appended, and every owned index is finished. *)
Fixpoint cs_size (m : nat) (cs : list (Z * Z)) : Z :=
  match cs with
  | [] => 0
  | (c, _) :: cs => tsize bn m (Some c) + cs_size m cs
  end.

Lemma cs_size_cons m c e cs : cs_size m ((c, e) :: cs) = tsize bn m (Some c) + cs_size m cs.
Proof. reflexivity. Qed.

Lemma cs_size_snoc m cs c e : cs_size m (cs ++ [(c, e)]) = cs_size m cs + tsize bn m (Some c).
Proof. induction cs as [|[? ?] cs IH]; cbn [cs_size app]; lia. Qed.

Lemma scan_children_size m slots ls :
  cs_size m (sc_children (scan_slots 0 slots (mkScan 0 0 [] ls None))) = slots_size bn m slots.
Proof.
  induction slots as [|s slots IH] using rev_ind; [done|].
  rewrite scan_slots_snoc, slots_size_app. destruct s as [c e|v]; simpl scan_slot.
  - cbn [sc_children]. rewrite cs_size_snoc, IH. simpl. lia.
  - case_decide; cbn [sc_children]; rewrite IH; simpl; lia.
Qed.

Record emitted (h : nat) (slot : Z) (cs : list (Z * Z)) (ns : list Node) (ls : list Z)
    (ns' : list Node) (ls' : list Z) : Prop := {
  em_nodes : len ns ≤ len ns';
  em_size : len ns' ≤ len ns + cs_size (6 * h) cs - len cs;
  em_lsize : len ls' ≤ len ls + 64 * cs_size (6 * h) cs;
  em_leaves : ∃ L, ls' = ls ++ L ∧ Forall P L;
  em_frame i : len ns' < 2 ^ 32 → i < len ns → ¬ (slot ≤ i < slot + len cs) →
    nthZ ns' i = nthZ ns i;
  em_rep ds : len ns' < 2 ^ 32 → len ls' < 2 ^ 32 → len ds = len ns →
    (∀ i, slot ≤ i < slot + len cs → nthZ ds i = Some h) →
    let D := λ i, slot ≤ i < slot + len cs ∨ len ns ≤ i < len ns' in
    ∃ E, len (ds ++ E) = len ns' ∧ wf_on ns' ls' D ∧
      ∀ j c e, nthZ cs j = Some (c, e) → nrep h ns' ls' (ds ++ E) D (slot + j) c e;
}.

Definition emit_spec (h : nat) (f : Z → Z → Z → list Node * list Z → outcome (list Node * list Z)) :=
  ∀ slot c e ns ls, 0 ≤ slot < len ns → (0 < h)%nat → hb bn (6 * h) (Some c) → P e →
  ∃ ns' ls', f slot c e (ns, ls) = Ret (ns', ls') ∧ emitted h slot [(c, e)] ns ls ns' ls'.

Lemma emitted_nil h slot ns ls : emitted h slot [] ns ls ns ls.
Proof.
  split; simpl cs_size; change (len (@nil (Z * Z))) with 0; try lia.
  - exists []. by rewrite app_nil_r.
  - done.
  - intros ds _ _ Hd _ D. exists []. rewrite app_nil_r. split; [done|].
    change (len (@nil (Z * Z))) with 0 in D. split.
    + intros i node Hi. unfold D in Hi. lia.
    + intros j c e [? H]%nthZ_Some_range. change (len (@nil (Z * Z))) with 0 in H. lia.
Qed.

Lemma nrep_mono h ns ls ds (D D' : Z → Prop) idx id inh :
  nrep h ns ls ds D idx id inh → (∀ i, D i → D' i) → nrep h ns ls ds D' idx id inh.
Proof.
  intros Hr HD. rewrite <-(app_nil_r ls), <-(app_nil_r ds).
  apply (nrep_frame _ _ _ _ _ _ _ _ _ _ _ _ Hr). auto.
Qed.

Lemma nthZ_cons_inv {A} (x : A) l j y :
  nthZ (x :: l) j = Some y → (j = 0 ∧ y = x) ∨ (0 < j ∧ nthZ l (j - 1) = Some y).
Proof.
  unfold nthZ. destruct (Z.ltb_spec j 0); [done|].
  destruct (Z.to_nat j) as [|n] eqn:E; simpl.
  - intros [= ->]. left. split; [lia|done].
  - intros Hn. right. split; [lia|]. destruct (Z.ltb_spec (j - 1) 0); [lia|].
    by replace (Z.to_nat (j - 1)) with n by lia.
Qed.

Lemma emitted_cons h slot c e cs ns ls ns1 ls1 ns2 ls2 :
  0 ≤ slot → slot + 1 + len cs ≤ len ns →
  emitted h slot [(c, e)] ns ls ns1 ls1 → emitted h (slot + 1) cs ns1 ls1 ns2 ls2 →
  emitted h slot ((c, e) :: cs) ns ls ns2 ls2.
Proof.
  intros Hs Hl [Hn1 Hz1 Hy1 (L1 & -> & HP1) Hf1 Hr1] [Hn2 Hz2 Hy2 (L2 & -> & HP2) Hf2 Hr2].
  simpl cs_size in *.
  change (len [(c, e)]) with 1 in *. assert (Hc0 := len_nonneg cs).
  split; simpl cs_size; rewrite ?len_cons; try lia.
  - exists (L1 ++ L2). rewrite app_assoc. split; [done|]. by apply Forall_app.
  - intros i Hb Hi Hni. rewrite Hf2 by lia. apply Hf1; lia.
  - intros ds Hb Hbl Hds Hh D. rewrite !len_app in Hbl. assert (HL2 := len_nonneg L2).
    destruct (Hr1 ds) as (E1 & HE1 & Hw1 & Hrep1); rewrite ?len_app; [lia|lia|done|..].
    { intros i Hi. apply Hh. lia. }
    destruct (Hr2 (ds ++ E1)) as (E2 & HE2 & Hw2 & Hrep2); rewrite ?len_app in *; [lia|lia|done|..].
    { intros i Hi. apply nthZ_app_Some, Hh. lia. }
    assert (Hkeep : ∀ i, slot ≤ i < slot + 1 ∨ len ns ≤ i < len ns1 → nthZ ns2 i = nthZ ns1 i).
    { intros i Hi. apply Hf2; lia. }
    exists (E1 ++ E2). rewrite app_assoc, !len_app in *. split; [lia|]. split.
    + intros i node Hi Hn. unfold D in Hi.
      destruct (decide (slot ≤ i < slot + 1 ∨ len ns ≤ i < len ns1)) as [Hd|Hd].
      * apply (wf_on_frame _ _ _ ns2 L2 Hw1 Hn2 Hkeep i); done.
      * apply (Hw2 i); [lia|done].
    + intros j c' e' [[-> [= -> ->]]|[Hj Hn]]%nthZ_cons_inv.
      * eapply nrep_frame; [by apply (Hrep1 0)|]. intros i Hi; cbv beta in Hi. split; [unfold D; lia|].
        by apply Hkeep.
      * replace (slot + j) with (slot + 1 + (j - 1)) by lia.
        eapply nrep_mono; [by apply Hrep2|]. intros i Hi; cbv beta in Hi. unfold D. lia.
Qed.

(** Beyond 2^32 nodes only the growth of the arrays is claimed: the builder
    rejects such a table. *)
Lemma emitted_big h slot cs ns ls ns' ls' slot' :
  emitted h slot' cs ns ls ns' ls' → 2 ^ 32 ≤ len ns → emitted h slot cs ns ls ns' ls'.
Proof.
  intros [Hn Hsz Hlsz HL _ _] ?. split; [done..| |].
  - intros. lia.
  - intros. lia.
Qed.

Lemma u32_le z : 0 ≤ z → 0 ≤ u32 z ≤ z.
Proof.
  intros. unfold wrap. split; [apply Z.mod_pos_bound; lia|apply Z.mod_le; lia].
Qed.

Lemma u32_small z : 0 ≤ z < 2 ^ 32 → u32 z = z.
Proof. apply wrap_small. Qed.

Lemma fill_children_ok h f cs : emit_spec h f → ∀ b1 k ns ls,
  0 ≤ b1 → 0 ≤ k → b1 + k + len cs ≤ len ns →
  Forall (λ '(c, e), (0 < h)%nat ∧ hb bn (6 * h) (Some c) ∧ P e) cs →
  ∃ ns' ls', fill_children f b1 k cs (ns, ls) = Ret (ns', ls') ∧
    emitted h (b1 + k) cs ns ls ns' ls'.
Proof.
  intros Hf. induction cs as [|[c e] cs IH]; intros b1 k ns ls Hb Hk Hl Hcs; simpl.
  { exists ns, ls. split; [done|]. apply emitted_nil. }
  apply Forall_cons in Hcs as [(Hh0 & Hh & He) Hcs']. rewrite len_cons in Hl.
  assert (Hc0 := len_nonneg cs). unfold wrapping_add.
  assert (Hk' := u32_le k Hk). assert (Hw := u32_le (b1 + u32 k) ltac:(lia)).
  destruct (Hf (u32 (b1 + u32 k)) c e ns ls) as (ns1 & ls1 & -> & Hem1); [lia|done..|]. run.
  assert (Hn1 := em_nodes _ _ _ _ _ _ _ Hem1).
  destruct (IH b1 (k + 1) ns1 ls1) as (ns2 & ls2 & -> & Hem2); [lia|lia|lia|done|].
  exists ns2, ls2. split; [done|].
  replace (b1 + (k + 1)) with (b1 + k + 1) in Hem2 by lia.
  eapply emitted_cons; [lia|lia| |exact Hem2].
  destruct (decide (len ns < 2 ^ 32)).
  - rewrite !u32_small in Hem1 by (rewrite ?u32_small; lia). done.
  - eapply emitted_big; [exact Hem1|lia].
Qed.

Lemma slots_of c e h :
  hb bn (6 * S h) (Some c) → P e →
  ∃ slots, resolve_stride bn (Z.to_nat STRIDE) (Some c) e 0
      (replicate (Z.to_nat (Z.shiftl 1 STRIDE)) (Leaf 0)) = Ret slots ∧
    length slots = 64%nat ∧ Forall (slot_P P) slots ∧
    slots_size bn (6 * h) slots ≤ tsize bn (6 * S h) (Some c) - 1 ∧
    ∀ j, 0 ≤ j < 64 → ∃ s, nthZ slots j = Some s ∧
      slot_ok bn (6 * h) s (Some c) e (bits_of 6 j).
Proof.
  intros Hh He. destruct (resolve_stride_ok bn (6 * h) 6 (Some c) e 0 (replicate 64 (Leaf 0)))
    as (out & Hout & Hlen & _ & Hin); [|lia|done|].
  { by replace (6 + 6 * h)%nat with (6 * S h)%nat by lia. }
  exists out. split; [exact Hout|]. change (len (replicate 64 (Leaf 0))) with 64 in Hlen.
  assert (Hj64 : ∀ j, 0 ≤ j < 64 → in_block 0 (Z.of_nat 6) j) by (unfold in_block; simpl; lia).
  split; [unfold len in Hlen; lia|]. split; [|split; [|auto]].
  2: { apply (resolve_stride_size bn (6 * h)) in Hout; [|lia]. rewrite slots_size_replicate in Hout.
    replace (6 * S h)%nat with (6 + 6 * h)%nat by lia. rewrite decide_False in Hout by lia. lia. }
  apply Forall_lookup. intros i s Hi.
  assert (Hr := lookup_lt_Some _ _ _ Hi). unfold len in Hlen.
  destruct (Hin (Z.of_nat i)) as (s' & Hs' & Hok); [apply Hj64; lia|].
  rewrite nthZ_of_nat in Hs'. simplify_eq.
  destruct s as [id e'|v]; cbn [slot_ok slot_P] in Hok |- *.
  - destruct Hok as (_ & _ & Heff & Hw). rewrite <-Heff.
    change (eff bn (Some id) e') with (walk bn (Some id) e' []). rewrite <-Hw.
    by apply walk_P.
  - rewrite <-(Hok []). by apply walk_P.
Qed.

(** A node and its finished children make a finished subtree. *)
Lemma emitted_node h slot c e ns ls slots L ns' ls' :
  let st := scan_slots 0 slots (mkScan 0 0 [] ls None) in
  let node := mkNode (sc_vector st) (sc_leafvec st) (u32 (len ls)) (u32 (len ns)) in
  let ns2 := <[Z.to_nat slot := node]> (ns ++ replicate (length (sc_children st)) Node_default) in
  0 ≤ slot < len ns → length slots = 64%nat → Forall (slot_P P) slots →
  slots_size bn (6 * h) slots ≤ tsize bn (6 * S h) (Some c) - 1 →
  (∀ j, 0 ≤ j < 64 → ∃ s, nthZ slots j = Some s ∧
     slot_ok bn (6 * h) s (Some c) e (bits_of 6 j)) →
  scan_inv P ls slots st L →
  emitted h (u32 (len ns) + 0) (sc_children st) ns2 (sc_leaves st) ns' ls' →
  emitted (S h) slot [(c, e)] ns ls ns' ls'.
Proof.
  intros st node ns2 Hslot H64 HPs Hsz Hslots HI Hem.
  assert (Hlen2 : len ns2 = len ns + len (sc_children st)).
  { unfold ns2. rewrite len_insert, len_app. unfold len. by rewrite length_replicate. }
  assert (Hc0 := len_nonneg (sc_children st)). assert (Hl0 := len_nonneg ls).
  assert (Hns2 : ∀ i, i < len ns → i ≠ slot → nthZ ns2 i = nthZ ns i).
  { intros i Hi Hne. unfold ns2. rewrite nthZ_insert, decide_False, nthZ_app_l; [done..|].
    rewrite len_app. assert (H := len_nonneg (replicate (length (sc_children st)) Node_default)). lia. }
  assert (Hnode : nthZ ns2 slot = Some node).
  { unfold ns2. rewrite nthZ_insert, decide_True; [done..|].
    rewrite len_app. assert (H := len_nonneg (replicate (length (sc_children st)) Node_default)). lia. }
  assert (HPL := si_P _ _ _ _ _ HI HPs).
  assert (Hlv := si_leaves _ _ _ _ _ HI).
  assert (HL64 : len L ≤ 64).
  { rewrite (si_leaves_len _ _ _ _ _ HI), H64. apply count_ones_le. }
  rewrite <-(scan_children_size _ _ ls) in Hsz. fold st in Hsz.
  destruct Hem as [Hn2 Hz2 Hy2 (L2 & -> & HP2) Hf2 Hr2]. rewrite Z.add_0_r in *.
  rewrite Hlv in *. assert (HL0 := len_nonneg L). assert (HL2 := len_nonneg L2).
  rewrite (len_app ls L) in Hy2.
  split; rewrite ?cs_size_cons; change (cs_size (6 * S h) []) with 0;
    change (len [(c, e)]) with 1; try lia.
  - exists (L ++ L2). rewrite app_assoc. split; [done|]. by apply Forall_app.
  - intros i Hb Hi Hne. rewrite u32_small in Hf2 by lia. rewrite Hf2 by lia. apply Hns2; lia.
  - intros ds Hb Hbl Hds Hh D. rewrite !len_app in Hbl.
    unfold node in Hnode. rewrite !u32_small in * by lia.
    destruct (Hr2 (ds ++ replicate (length (sc_children st)) h))
      as (E & HE & Hw & Hrep); [done|rewrite !len_app; lia| |..].
    { rewrite len_app, Hlen2, Hds. unfold len. by rewrite length_replicate. }
    { intros i Hi. rewrite nthZ_app_r by lia. apply nthZ_replicate. unfold len in *. lia. }
    exists (replicate (length (sc_children st)) h ++ E). rewrite app_assoc in *.
    split; [done|].
    assert (Hnode' : nthZ ns' slot = nthZ ns2 slot) by (apply Hf2; lia).
    split.
    + intros i nd Hi Hn. destruct (decide (i = slot)) as [->|Hne].
      * rewrite Hnode', Hnode in Hn. injection Hn as <-.
        eapply node_wf_mono; [apply (scan_node_wf ls slots L (len ns) (len ns')); [done|done|lia|]|..].
        -- fold st; lia.
        -- done.
        -- fold st; rewrite Hlv, !len_app. lia.
      * apply (Hw i); [|done]. unfold D in Hi. lia.
    + intros j c' e' [[-> [= -> ->]]|[? Hj]]%nthZ_cons_inv;
        [|apply nthZ_Some_range in Hj; unfold len in Hj; simpl in Hj; lia].
      rewrite Z.add_0_r. split; [unfold D; lia|].
      split; [apply nthZ_app_Some, nthZ_app_Some, Hh; lia|].
      eexists. split; [by rewrite Hnode'|]. cbn [vector leafvec base0 base1].
      intros j Hj. destruct (Hslots j Hj) as (s & Hs & Hok). exists s. split; [done|].
      assert (Hbit := si_vector _ _ _ _ _ HI j ltac:(lia)). rewrite Hs in Hbit.
      destruct s as [ci ei|v]; (split; [exact Hbit|]).
      * eapply nrep_mono; [apply Hrep; by apply (si_children _ _ _ _ _ HI)|].
        intros i Hi. cbv beta in Hi. unfold D. lia.
      * destruct (si_leaf _ _ _ _ _ HI j v Hs) as [Hr Hv]. split; [done|].
        apply nthZ_app_Some. rewrite nthZ_app_r by lia.
        by replace (len ls + count_ones (S (Z.to_nat j)) (sc_leafvec st) - 1 - len ls)
          with (count_ones (S (Z.to_nat j)) (sc_leafvec st) - 1) by lia.
Qed.

Lemma fill_ok h : ∀ fuel, (h ≤ fuel)%nat → emit_spec h (fill bn fuel).
Proof.
  induction h as [|h IH]; intros fuel Hfuel slot c e ns ls Hslot Hh Hhb He; [lia|].
  destruct fuel as [|fuel]; [lia|]. cbn [fill].
  destruct (slots_of c e h Hhb He) as (slots & -> & H64 & HPs & Hsz & Hslots). run.
  destruct (scan_slots_ok P ls slots) as [L HI].
  set (st := scan_slots 0 slots _) in *.
  assert (Hlr : len (replicate (length (sc_children st)) Node_default) = len (sc_children st))
    by (unfold len; by rewrite length_replicate).
  assert (Hc0 := len_nonneg (sc_children st)).
  rewrite set_index_ok by (rewrite len_app; lia). run.
  assert (Hb1 := u32_le (len ns) (len_nonneg ns)).
  edestruct (fill_children_ok h (fill bn fuel) (sc_children st)) with (b1 := u32 (len ns)) (k := 0)
    as (ns' & ls' & -> & Hem); [apply IH; lia|lia|lia| | |].
  { rewrite len_insert, len_app, Hlr. lia. }
  { eapply Forall_impl; [exact (si_children_P _ _ _ _ _ HI)|]. intros [ci ei] [j Hj].
    assert (Hr := nthZ_Some_range _ _ _ Hj). unfold len in Hr. rewrite H64 in Hr.
    destruct (Hslots j) as (s & Hs & Hok); [lia|]. rewrite Hj in Hs. simplify_eq.
    destruct Hok as (Hci & Hm & _). split; [lia|]. split; [done|].
    rewrite Forall_lookup in HPs. unfold nthZ in Hj. destruct (j <? 0); [done|].
    apply (HPs _ _ Hj). }
  exists ns', ls'. split; [done|]. by eapply emitted_node.
Qed.
End Rep.

(** ** Lookups read the trie back *)
Section LookupRep.
Context {K : IpKey} {HK : IpKeyLaws K} (bn : list BinNode).

Lemma stride_bits key (h : nat) :
  fits BITS key → 6 * Z.of_nat (S h) ≤ BITS →
  ∃ v, stride key (BITS - 6 * Z.of_nat (S h)) = Ret v ∧ 0 ≤ v < 64 ∧
    bits_of (6 * S h) key = bits_of 6 v ++ bits_of (6 * h) key.
Proof.
  intros Hk Hb. rewrite stride_spec by (unfold STRIDE; lia || done). eexists. split; [done|].
  unfold STRIDE. change 63 with (Z.ones 6). split.
  - rewrite Z.land_ones by lia. apply Z.mod_pos_bound. lia.
  - replace (6 * S h)%nat with (6 + 6 * h)%nat by lia. rewrite bits_of_app.
    f_equal. rewrite (bits_of_land_ones 6 6) by lia. do 2 f_equal. lia.
Qed.

Lemma nrep_lookup h : ∀ fuel ns ls ds D idx id inh key,
  nrep bn h ns ls ds D idx id inh → (h ≤ fuel)%nat → fits BITS key →
  6 * Z.of_nat h ≤ BITS →
  lookup_loop fuel ns ls key idx (BITS - 6 * Z.of_nat h)
  = Ret (walk bn (Some id) inh (bits_of (6 * h) key)).
Proof.
  induction h as [|h IH]; intros fuel ns ls ds D idx id inh key; [done|].
  intros (_ & _ & node & Hn & Hs) Hf Hk Hb. destruct fuel as [|fuel]; [lia|].
  cbn [lookup_loop]. rewrite (get_unchecked_Some _ _ _ Hn). run.
  destruct (stride_bits key h Hk Hb) as (v & -> & Hv & ->). run.
  rewrite land_bit_test by lia.
  destruct (Hs v Hv) as (s & Hok & Hm).
  assert (HvN : v = Z.of_nat (Z.to_nat v)) by lia.
  destruct s as [c e|x].
  - destruct Hm as [-> Hr]. destruct Hok as (_ & _ & _ & ->).
    rewrite HvN at 1. rewrite count_ones_below by lia.
    replace (BITS - 6 * Z.of_nat (S h) + STRIDE) with (BITS - 6 * Z.of_nat h)
      by (unfold STRIDE; lia).
    eapply IH; [exact Hr|lia|done|lia].
  - destruct Hm as (-> & Hr & Hl). rewrite Hok.
    assert (Hc := count_ones_upto 64 (Z.to_nat v) (leafvec node) ltac:(lia)).
    rewrite <-HvN in Hc. rewrite Hc.
    destruct (Z.leb_spec 1 (count_ones (S (Z.to_nat v)) (leafvec node))); [|lia].
    by apply get_unchecked_Some.
Qed.
End LookupRep.

(** ** The direct array *)
Section Direct.
Context (bn : list BinNode) (P : Z → Prop).
Context (bn_P : ∀ i nd, nthZ bn i = Some nd → bvalue nd ≠ 0 → P (bvalue nd)).

(** A direct entry is a resolved route or the root of a node subtree. *)
Definition dentry (h : nat) (ns : list Node) (ls : list Z) (ds : list nat) (D : Z → Prop)
    (entry : Z) (node : option Z) (inh : Z) (bs : list bool) : Prop :=
  (∃ v, entry = Z.lor LEAF_FLAG v ∧ P v ∧ ∀ ks, walk bn node inh (bs ++ ks) = v) ∨
  (∃ id e, nrep bn h ns ls ds D entry id e ∧
     ∀ ks, walk bn node inh (bs ++ ks) = walk bn (Some id) e ks).

Lemma dentry_frame h ns ls ds D ns' L E (D' : Z → Prop) entry node inh bs :
  dentry h ns ls ds D entry node inh bs →
  (∀ i, D i → D' i ∧ nthZ ns' i = nthZ ns i) →
  dentry h ns' (ls ++ L) (ds ++ E) D' entry node inh bs.
Proof.
  intros [?|(id & e & Hr & Hw)] Hf; [by left|]. right. exists id, e. split; [|done].
  by apply (nrep_frame _ _ _ _ _ _ _ _ _ _ _ _ _ Hr).
Qed.

Record demitted (h n : nat) (pattern : Z) (node : option Z) (inh : Z)
    (ns : list Node) (ls dir : list Z) (ns' : list Node) (ls' dir' : list Z) : Prop := {
  de_dir : len dir' = len dir;
  de_nodes : len ns ≤ len ns';
  de_size : len ns' ≤ len ns + tsize bn (n + 6 * h) node;
  de_lsize : len ls' ≤ len ls + 64 * tsize bn (n + 6 * h) node;
  de_leaves : ∃ L, ls' = ls ++ L ∧ Forall P L;
  de_out j : ¬ in_block pattern (Z.of_nat n) j → nthZ dir' j = nthZ dir j;
  de_frame i : len ns' < 2 ^ 32 → i < len ns → nthZ ns' i = nthZ ns i;
  de_rep ds : len ns' < 2 ^ 32 → len ls' < 2 ^ 32 → len ds = len ns →
    let D := λ i, len ns ≤ i < len ns' in
    ∃ E, len (ds ++ E) = len ns' ∧ wf_on ns' ls' D ∧
      ∀ j, in_block pattern (Z.of_nat n) j → ∃ entry, nthZ dir' j = Some entry ∧
        dentry h ns' ls' (ds ++ E) D entry node inh (bits_of n j);
}.

Lemma demitted_leaf h n pattern node inh ns ls dir dir' v :
  len dir' = len dir → P v → (∀ ks, walk bn node inh ks = v) →
  (∀ j, nthZ dir' j = if decide (pattern * 2 ^ Z.of_nat n ≤ j < pattern * 2 ^ Z.of_nat n + 2 ^ Z.of_nat n)
                      then Some (Z.lor LEAF_FLAG v) else nthZ dir j) →
  demitted h n pattern node inh ns ls dir ns ls dir'.
Proof.
  intros Hd HP Hw Hj. pose proof (tsize_nonneg bn (n + 6 * h) node). split; try lia.
  - exists []. by rewrite app_nil_r.
  - intros j Hn. unfold in_block in Hn. rewrite Hj, decide_False by lia. done.
  - done.
  - intros ds _ _ Hds D. exists []. rewrite app_nil_r. split; [done|]. split.
    + intros i nd Hi. unfold D in Hi. lia.
    + intros j Hin. unfold in_block in Hin. rewrite Hj, decide_True by lia.
      eexists. split; [done|]. left. eauto.
Qed.

Lemma demitted_node h id inh e pattern ns ls dir ns' ls' :
  0 ≤ pattern < len dir → (∀ ks, walk bn (Some id) inh ks = walk bn (Some id) e ks) →
  emitted bn P h (u32 (len ns)) [(id, e)] (ns ++ [Node_default]) ls ns' ls' →
  demitted h 0 pattern (Some id) inh ns ls dir ns' ls' (<[Z.to_nat pattern := u32 (len ns)]> dir).
Proof.
  intros Hp Hw [Hn Hz Hy HL Hf Hr]. rewrite len_snoc in *. change (len [(id, e)]) with 1 in *.
  assert (H0 := len_nonneg ns). rewrite cs_size_cons in *. simpl (cs_size _ _ []) in *.
  split; rewrite ?len_insert; change (0 + 6 * h)%nat with (6 * h)%nat; try lia; try done.
  - intros j Hj. unfold in_block in Hj. simpl in Hj. rewrite nthZ_insert by done.
    rewrite decide_False by lia. done.
  - intros i Hb Hi. rewrite u32_small in Hf by lia. rewrite Hf by lia. by apply nthZ_app_l.
  - intros ds Hb Hbl Hds D. rewrite u32_small in * by lia.
    destruct (Hr (ds ++ [h])) as (E & HE & Hwf & Hrep); [done|done|rewrite len_snoc; lia|..].
    { intros i Hi. replace i with (len ds) by lia. apply nthZ_snoc. }
    exists ([h] ++ E). rewrite app_assoc. split; [done|]. split.
    + intros i nd Hi. apply (Hwf i). unfold D in Hi. lia.
    + intros j Hj. unfold in_block in Hj. simpl in Hj. rewrite nthZ_insert by done.
      rewrite decide_True by lia. eexists. split; [done|]. right. exists id, e.
      split; [|done]. rewrite <-(Z.add_0_r (len ns)).
      eapply nrep_mono; [by apply Hrep|]. intros i Hi. cbv beta in Hi. unfold D. lia.
Qed.

Lemma demitted_join h n pattern node inh ns ls dir ns1 ls1 dir1 ns2 ls2 dir2 :
  demitted h n (2 * pattern) (kid bn node false) (eff bn node inh) ns ls dir ns1 ls1 dir1 →
  demitted h n (2 * pattern + 1) (kid bn node true) (eff bn node inh) ns1 ls1 dir1 ns2 ls2 dir2 →
  demitted h (S n) pattern node inh ns ls dir ns2 ls2 dir2.
Proof.
  intros [Hd1 Hn1 Hz1 Hy1 (L1 & -> & HP1) Ho1 Hf1 Hr1] [Hd2 Hn2 Hz2 Hy2 (L2 & -> & HP2) Ho2 Hf2 Hr2].
  pose proof (tsize_kids bn (n + 6 * h) node).
  split; change (S n + 6 * h)%nat with (S (n + 6 * h)); try lia.
  - exists (L1 ++ L2). rewrite app_assoc. split; [done|]. by apply Forall_app.
  - intros j Hj. rewrite in_block_split in Hj. rewrite Ho2, Ho1; tauto.
  - intros i Hb Hi. rewrite Hf2, Hf1; lia || done.
  - intros ds Hb Hbl Hds D. rewrite !len_app in Hbl. assert (HL2 := len_nonneg L2).
    destruct (Hr1 ds) as (E1 & HE1 & Hw1 & Hj1); [lia|rewrite len_app; lia|done|].
    destruct (Hr2 (ds ++ E1)) as (E2 & HE2 & Hw2 & Hj2); [lia|rewrite !len_app; lia|done|].
    exists (E1 ++ E2). rewrite app_assoc. split; [done|]. split.
    + intros i nd Hi Hnd. unfold D in Hi. destruct (decide (i < len ns1)).
      * assert (Hkeep : ∀ i, len ns ≤ i < len ns1 → nthZ ns2 i = nthZ ns1 i)
          by (intros; apply Hf2; lia).
        apply (wf_on_frame _ _ _ ns2 L2 Hw1 Hn2 Hkeep i); [lia|done].
      * apply (Hw2 i); [lia|done].
    + intros j Hj. rewrite in_block_split in Hj.
      destruct (decide (in_block (2 * pattern + 1) (Z.of_nat n) j)) as [Hb1|Hb1].
      * destruct (Hj2 j Hb1) as (entry & He & Hde). exists entry. split; [done|].
        simpl bits_of. rewrite (in_block_bit pattern n true j Hb1).
        rewrite <-(app_nil_r ((ls ++ L1) ++ L2)), <-(app_nil_r ((ds ++ E1) ++ E2)).
        apply (dentry_frame _ _ _ _ _ _ _ _ _ _ _ _ _ Hde). intros i Hi. cbv beta in Hi.
        unfold D. split; [lia|done].
      * destruct Hj as [Hb0|?]; [|done]. destruct (Hj1 j Hb0) as (entry & He & Hde).
        exists entry. split; [by rewrite Ho2|].
        simpl bits_of. rewrite (in_block_bit pattern n false j) by (by rewrite Z.add_0_r).
        apply (dentry_frame _ _ _ _ _ _ _ _ _ _ _ _ _ Hde). intros i Hi. cbv beta in Hi.
        unfold D. split; [lia|]. apply Hf2; lia.
Qed.

Lemma fill_direct_ok h fuel : (h ≤ fuel)%nat → ∀ n node inh pattern ns ls dir,
  hb bn (n + 6 * h) node → P inh → 0 ≤ pattern →
  (pattern + 1) * 2 ^ Z.of_nat n ≤ len dir →
  ∃ ns' ls' dir', fill_direct bn fuel n node inh pattern (ns, ls) dir = Ret ((ns', ls'), dir') ∧
    demitted h n pattern node inh ns ls dir ns' ls' dir'.
Proof.
  intros Hfuel n. induction n as [|n IH]; intros node inh pattern ns ls dir Hh HP Hp Hl.
  all: cbn [fill_direct]; rewrite (effective_ok _ _ _ _ Hh); run.
  all: destruct (branches bn node) as [br| | |] eqn:Hb;
    try (rewrite (branches_ok _ _ _ Hh) in Hb; discriminate).
  all: assert (HPe : P (eff bn node inh)) by (by apply (walk_P bn P node inh [])).
  all: run; destruct br; cbn [negb].
  2, 4: rewrite Z.shiftl_mul_pow2, Z.shiftl_1_l by lia;
    match goal with |- context [fill_range ?l ?a ?b ?c] =>
      destruct (fill_range_ok l a b c) as (d & -> & Hld & Hd); [nia|lia|nia|] end;
    eexists _, _, d; split; [done|]; eapply demitted_leaf; eauto;
    intros ks; by eapply no_branch_walk.
  - destruct (branch_height _ _ _ Hh Hb) as (id & -> & Hm).
    unfold build_subtree. assert (Hu := u32_le (len ns) (len_nonneg ns)).
    destruct (fill_ok bn P bn_P h fuel Hfuel (u32 (len ns)) id (eff bn (Some id) inh)
      (ns ++ [Node_default]) ls) as (ns' & ls' & -> & Hem); [rewrite len_snoc; lia|lia|done|done|].
    run. change (2 ^ Z.of_nat 0) with 1 in Hl. rewrite set_index_ok by lia. run.
    exists ns', ls', (<[Z.to_nat pattern := u32 (len ns)]> dir). split; [done|].
    eapply demitted_node; [lia| |exact Hem]. intros ks. by rewrite walk_eff.
  - rewrite (children_ok _ _ _ Hh). run. rewrite lor_double_1, shiftl_double.
    assert (Hl' := Hl). rewrite Nat2Z.inj_succ, Z.pow_succ_r in Hl' by lia.
    destruct (IH (kid bn node false) (eff bn node inh) (2 * pattern) ns ls dir)
      as (ns1 & ls1 & d1 & -> & H1); [by apply hb_kid|done|lia|nia|]. run.
    assert (Hd1 := de_dir _ _ _ _ _ _ _ _ _ _ _ H1).
    destruct (IH (kid bn node true) (eff bn node inh) (2 * pattern + 1) ns1 ls1 d1)
      as (ns2 & ls2 & d2 & -> & H2); [by apply hb_kid|done|lia|nia|].
    exists ns2, ls2, d2. split; [done|]. by eapply demitted_join.
Qed.
End Direct.
