(* ===== verification/PoptrieBuild.v ===== *)
(** * The builder maintains the route table

    The binary trie of [build.rs] is read as a finite function from bit paths
    to interned values. [insert] updates exactly one path, interning and
    compaction keep the decoded values, and the number of binary nodes bounds
    everything the emitter produces. *)
From S2P Require Import Prelude Bits Poptrie PoptrieEmit.
Open Scope Z_scope.

(** ** Paths of a binary trie *)
Section Paths.
Context (bn : list BinNode).

(** The node at the end of a path. *)
Fixpoint pnode (node : option Z) (p : list bool) : option Z :=
  match p with
  | [] => node
  | b :: p => pnode (kid bn node b) p
  end.

Definition value_at (node : option Z) : Z :=
  match node with
  | Some id => from_option bvalue 0 (nthZ bn id)
  | None => 0
  end.

Definition pval (node : option Z) (p : list bool) : Z := value_at (pnode node p).

Lemma pnode_None p : pnode None p = None.
Proof. induction p; simpl; auto. Qed.

Lemma pnode_app node p q : pnode node (p ++ q) = pnode (pnode node p) q.
Proof. revert node. induction p; simpl; auto. Qed.

Lemma pnode_snoc node p b : pnode node (p ++ [b]) = kid bn (pnode node p) b.
Proof. by rewrite pnode_app. Qed.

(** The trie is a tree: children are allocated after their parents, and a
    node has one parent and one branch. *)
Record bin_inv (depth : Z) : Prop := {
  bi_root : 0 < len bn;
  bi_child i b c : kid bn (Some i) b = Some c → i < c < len bn;
  bi_uniq i b j b' c :
    kid bn (Some i) b = Some c → kid bn (Some j) b' = Some c → i = j ∧ b = b';
  bi_depth p i : pnode (Some 0) p = Some i → len p ≤ depth;
  bi_reach i : 0 ≤ i < len bn → ∃ p, pnode (Some 0) p = Some i;
}.

Lemma kid_Some_range i b c : kid bn (Some i) b = Some c → 0 ≤ i < len bn.
Proof. unfold kid. destruct (nthZ bn i) eqn:E; [|done]. intros _. by eapply nthZ_Some_range. Qed.

Lemma pnode_range d p i : bin_inv d → pnode (Some 0) p = Some i → 0 ≤ i < len bn.
Proof.
  intros Hinv. destruct p as [|b p _] using rev_ind; simpl.
  - intros [= <-]. pose proof (bi_root _ Hinv). lia.
  - rewrite pnode_snoc. destruct (pnode (Some 0) p) as [j|]; [|done]. intros Hk.
    pose proof (kid_Some_range _ _ _ Hk). pose proof (bi_child _ Hinv _ _ _ Hk). lia.
Qed.

Lemma pnode_inj d p q i :
  bin_inv d → pnode (Some 0) p = Some i → pnode (Some 0) q = Some i → p = q.
Proof.
  intros Hinv. revert q i. induction p as [|b p IH] using rev_ind; intros q i Hp Hq.
  - destruct q as [|c q _] using rev_ind; [done|]. rewrite pnode_snoc in Hq.
    injection Hp as <-. destruct (pnode _ q) as [j|]; [|done].
    pose proof (kid_Some_range _ _ _ Hq). pose proof (bi_child _ Hinv _ _ _ Hq). lia.
  - rewrite pnode_snoc in Hp. destruct (pnode _ p) as [j|] eqn:Ep; [|done].
    destruct q as [|c q _] using rev_ind.
    + injection Hq as <-. pose proof (kid_Some_range _ _ _ Hp).
      pose proof (bi_child _ Hinv _ _ _ Hp). lia.
    + rewrite pnode_snoc in Hq. destruct (pnode _ q) as [k|] eqn:Eq; [|done].
      destruct (bi_uniq _ Hinv _ _ _ _ _ Hp Hq) as [-> ->]. by rewrite (IH q k).
Qed.

(** A bounded depth gives the height bound the emitter relies on. *)
Lemma hb_of_depth d n : bin_inv d → ∀ p,
  (∀ q i, pnode (pnode (Some 0) p) q = Some i → (length q ≤ n)%nat) → hb bn n (pnode (Some 0) p).
Proof.
  intros Hinv. induction n as [|n IH]; intros p Hd.
  all: destruct (pnode (Some 0) p) as [id|] eqn:Ep; [|done].
  all: pose proof (pnode_range _ _ _ Hinv Ep) as Hr.
  all: destruct (nthZ_is_Some bn id Hr) as [nd Hnd]; exists nd; split; [done|].
  - assert (Hk : ∀ b, kid bn (Some id) b = None).
    { intros b. destruct (kid bn (Some id) b) as [c|] eqn:Ek; [|done].
      pose proof (Hd [b] c Ek) as Hlen. simpl in Hlen. lia. }
    pose proof (Hk false) as H0. pose proof (Hk true) as H1.
    unfold kid in H0, H1. rewrite Hnd in H0, H1. done.
  - assert (Hk : ∀ b, hb bn n (kid bn (Some id) b)).
    { intros b. rewrite <-Ep, <-pnode_snoc. apply IH. intros q i. rewrite pnode_snoc, Ep.
      intros Hq. pose proof (Hd (b :: q) i Hq) as Hlen. simpl in Hlen. lia. }
    pose proof (Hk false) as H0. pose proof (Hk true) as H1.
    unfold kid in H0, H1. rewrite Hnd in H0, H1. done.
Qed.

Lemma bin_inv_hb n : bin_inv (Z.of_nat n) → hb bn n (Some 0).
Proof.
  intros Hinv. apply (hb_of_depth (Z.of_nat n) n Hinv []). intros q i Hq.
  pose proof (bi_depth _ Hinv _ _ Hq) as Hl. unfold len in Hl. lia.
Qed.

(** The ids of a subtrie are distinct, so it has at most [len bn] nodes. *)
Fixpoint ids (n : nat) (node : option Z) : list Z :=
  match node with
  | None => []
  | Some id =>
    id :: match n with
          | O => []
          | S n => ids n (kid bn node false) ++ ids n (kid bn node true)
          end
  end.

Lemma ids_length n node : len (ids n node) = tsize bn n node.
Proof.
  revert node. induction n as [|n IH]; intros [id|]; try done. cbn [ids tsize].
  rewrite len_cons, len_app, !IH. lia.
Qed.

Lemma elem_of_ids n node i : i ∈ ids n node → ∃ q, pnode node q = Some i.
Proof.
  revert node. induction n as [|n IH]; intros [id|]; cbn [ids]; try (by intros ?%elem_of_nil).
  - intros ->%list_elem_of_singleton. by exists [].
  - intros [->|[[q Hq]%IH|[q Hq]%IH]%elem_of_app]%elem_of_cons.
    + by exists [].
    + by exists (false :: q).
    + by exists (true :: q).
Qed.

Lemma ids_NoDup d n p : bin_inv d → NoDup (ids n (pnode (Some 0) p)).
Proof.
  intros Hinv. revert p. induction n as [|n IH]; intros p.
  all: destruct (pnode (Some 0) p) as [id|] eqn:Ep; cbn [ids]; try constructor.
  all: try (apply not_elem_of_nil || constructor).
  - assert (Hno : ∀ b q, pnode (kid bn (Some id) b) q ≠ Some id).
    { intros b q Hq. rewrite <-Ep, <-pnode_snoc, <-pnode_app in Hq.
      rewrite <-app_assoc, Ep in Hq. pose proof (pnode_inj _ _ _ _ Hinv Hq Ep) as E.
      apply (f_equal length) in E. rewrite !length_app in E. simpl in E. lia. }
    rewrite elem_of_app. intros [[q Hq]%elem_of_ids|[q Hq]%elem_of_ids]; by apply Hno in Hq.
  - rewrite <-Ep. rewrite <-!pnode_snoc. apply NoDup_app. split; [apply IH|]. split; [|apply IH].
    intros i [q Hq]%elem_of_ids [q' Hq']%elem_of_ids. rewrite <-pnode_app in Hq, Hq'.
    pose proof (pnode_inj _ _ _ _ Hinv Hq Hq') as E. rewrite <-!app_assoc in E.
    by apply app_inv_head in E.
Qed.

Lemma NoDup_range_len (l : list Z) m :
  0 ≤ m → NoDup l → (∀ i, i ∈ l → 0 ≤ i < m) → len l ≤ m.
Proof.
  intros Hm Hnd Hr. unfold len.
  assert (l ⊆+ (Z.of_nat <$> seq 0 (Z.to_nat m))) as Hs%submseteq_length.
  { apply NoDup_submseteq; [done|]. intros i Hi%Hr. apply list_elem_of_fmap.
    exists (Z.to_nat i). split; [lia|]. apply elem_of_seq. lia. }
  rewrite length_fmap, length_seq in Hs. lia.
Qed.

Lemma tsize_bound d n : bin_inv d → tsize bn n (Some 0) ≤ len bn.
Proof.
  intros Hinv. rewrite <-ids_length. apply NoDup_range_len; [apply len_nonneg|..].
  - exact (ids_NoDup d n [] Hinv).
  - intros i [q Hq]%elem_of_ids. by eapply pnode_range.
Qed.
End Paths.

(** ** Inserting a path *)
Section Insert.
(** The array after [bin.push(empty); bin[node].children[b] = Some(child)]. *)
Definition grow (bn : list BinNode) (node : Z) (nd : BinNode) (b : bool) : list BinNode :=
  <[Z.to_nat node := set_child nd b (Some (len bn))]> (bn ++ [BinNode_empty]).

Lemma grow_len bn node nd b : len (grow bn node nd b) = len bn + 1.
Proof. unfold grow. by rewrite len_insert, len_snoc. Qed.

Lemma grow_nth bn node nd b i :
  nthZ bn node = Some nd →
  nthZ (grow bn node nd b) i
  = if decide (node = i) then Some (set_child nd b (Some (len bn)))
    else if decide (i = len bn) then Some BinNode_empty else nthZ bn i.
Proof.
  intros Hn%nthZ_Some_range. unfold grow. rewrite nthZ_insert by (rewrite len_snoc; lia).
  case_decide; [done|]. case_decide as E; [subst; apply nthZ_snoc|].
  destruct (decide (i < len bn)); [by apply nthZ_app_l|].
  rewrite !nthZ_None; [done|lia|rewrite len_snoc; lia].
Qed.

Lemma get_set_child nd b c b' :
  get_child (set_child nd b c) b' = if decide (b = b') then c else get_child nd b'.
Proof. by destruct b, b'. Qed.

Lemma grow_kid bn node nd b i b' :
  nthZ bn node = Some nd →
  kid (grow bn node nd b) (Some i) b'
  = if decide (node = i ∧ b = b') then Some (len bn) else kid bn (Some i) b'.
Proof.
  intros Hn. unfold kid. rewrite grow_nth by done. destruct (decide (node = i)) as [->|Hne].
  - rewrite get_set_child, Hn. destruct (decide (b = b')).
    + by rewrite decide_True.
    + by rewrite decide_False by tauto.
  - rewrite (decide_False (P := node = i ∧ _)) by tauto.
    case_decide as E; [|done]. subst. rewrite nthZ_None by lia. by destruct b'.
Qed.

Lemma grow_pnode d bn node nd b done p :
  bin_inv bn d → nthZ bn node = Some nd → get_child nd b = None →
  pnode bn (Some 0) done = Some node →
  pnode (grow bn node nd b) (Some 0) p
  = if decide (p = done ++ [b]) then Some (len bn) else pnode bn (Some 0) p.
Proof.
  intros Hinv Hn Hc Hd.
  assert (Hkid : kid bn (Some node) b = None) by (unfold kid; by rewrite Hn).
  induction p as [|c p IH] using rev_ind.
  { rewrite decide_False; [done|]. by destruct done. }
  rewrite !pnode_snoc, IH. clear IH. case_decide as E; subst.
  - rewrite grow_kid by done. rewrite decide_False.
    2: { intros [-> _]. apply nthZ_Some_range in Hn. lia. }
    rewrite decide_False by (intros [E _]%app_inj_2; [|done];
      apply (f_equal length) in E; rewrite length_app in E; simpl in E; lia).
    rewrite pnode_snoc, Hd, Hkid. unfold kid. by rewrite nthZ_None by lia.
  - destruct (pnode bn (Some 0) p) as [i|] eqn:Ep.
    + rewrite grow_kid by done. destruct (decide (node = i ∧ b = c)) as [[-> ->]|Hne].
      * rewrite decide_True; [done|]. by rewrite (pnode_inj bn d p done i).
      * rewrite decide_False; [done|]. intros [-> [= ->]]%app_inj_2; [|done].
        rewrite Hd in Ep. injection Ep as ->. tauto.
    + rewrite decide_False; [done|]. intros [-> _]%app_inj_2; [|done]. congruence.
Qed.

Lemma grow_inv d bn node nd b done :
  bin_inv bn d → nthZ bn node = Some nd → get_child nd b = None →
  pnode bn (Some 0) done = Some node → len done + 1 ≤ d → bin_inv (grow bn node nd b) d.
Proof.
  intros Hinv Hn Hc Hd Hlen. assert (Hr := nthZ_Some_range _ _ _ Hn).
  split; rewrite ?grow_len.
  - lia.
  - intros i b' c. rewrite grow_kid by done. case_decide as E.
    + intros [= <-]. lia.
    + intros Hk%(bi_child _ _ Hinv). lia.
  - intros i b1 j b2 c. rewrite !grow_kid by done.
    destruct (decide _) as [[-> ->]|], (decide _) as [[-> ->]|]; [done|..].
    + intros [= <-] Hk%(bi_child _ _ Hinv). lia.
    + intros Hk%(bi_child _ _ Hinv) [= <-]. lia.
    + apply (bi_uniq _ _ Hinv).
  - intros p i. rewrite (grow_pnode d) with (done := done) by done. case_decide.
    + subst. intros _. rewrite len_snoc. lia.
    + apply (bi_depth _ _ Hinv).
  - intros i Hi. destruct (decide (i = len bn)) as [->|].
    + exists (done ++ [b]). rewrite (grow_pnode d) with (done := done) by done. by rewrite decide_True.
    + destruct (bi_reach _ _ Hinv i) as [p Hp]; [lia|]. exists p.
      rewrite (grow_pnode d) with (done := done) by done. rewrite decide_False; [done|].
      intros ->. rewrite pnode_snoc, Hd in Hp. unfold kid in Hp. by rewrite Hn, Hc in Hp.
Qed.

Lemma grow_pval d bn node nd b done p :
  bin_inv bn d → nthZ bn node = Some nd → get_child nd b = None →
  pnode bn (Some 0) done = Some node →
  pval (grow bn node nd b) (Some 0) p = pval bn (Some 0) p.
Proof.
  intros Hinv Hn Hc Hd. unfold pval. rewrite (grow_pnode d) with (done := done) by done.
  assert (Hr := nthZ_Some_range _ _ _ Hn).
  case_decide as E.
  - subst. rewrite pnode_snoc, Hd. simpl. rewrite grow_nth by done.
    rewrite decide_False, decide_True by lia. unfold kid. by rewrite Hn, Hc.
  - destruct (pnode bn (Some 0) p) as [i|] eqn:Ep; [|done]. simpl. rewrite grow_nth by done.
    pose proof (pnode_range _ _ _ _ Hinv Ep). case_decide; subst.
    + rewrite Hn. by destruct b.
    + by rewrite decide_False by lia.
Qed.

(** Arrays with the same links have the same paths. *)
Lemma same_pnode bn bn' node p :
  (∀ i b, kid bn' i b = kid bn i b) → pnode bn' node p = pnode bn node p.
Proof. intros Hk. revert node. induction p as [|b p IH]; intros; simpl; [done|]. by rewrite Hk, IH. Qed.

Lemma same_inv d bn bn' :
  (∀ i b, kid bn' i b = kid bn i b) → len bn' = len bn → bin_inv bn d → bin_inv bn' d.
Proof.
  intros Hk Hl [H1 H2 H3 H4 H5]. split.
  - lia.
  - intros i b c. rewrite Hk, Hl. apply H2.
  - intros i b j b' c. rewrite !Hk. apply H3.
  - intros p i. rewrite (same_pnode bn) by done. apply H4.
  - intros i Hi. destruct (H5 i ltac:(lia)) as [p Hp]. exists p. by rewrite (same_pnode bn).
Qed.

Lemma set_value_kid bn node nd v i b :
  nthZ bn node = Some nd →
  kid (<[Z.to_nat node := set_value nd v]> bn) i b = kid bn i b.
Proof.
  intros Hn. destruct i as [i|]; [|done]. unfold kid.
  rewrite nthZ_insert by (by eapply nthZ_Some_range). case_decide; [|done]. subst.
  rewrite Hn. by destruct b.
Qed.

Lemma set_value_pval d bn node nd v path p :
  bin_inv bn d → nthZ bn node = Some nd → pnode bn (Some 0) path = Some node →
  pval (<[Z.to_nat node := set_value nd v]> bn) (Some 0) p
  = if decide (p = path) then v else pval bn (Some 0) p.
Proof.
  intros Hinv Hn Hp. unfold pval. rewrite (same_pnode bn) by (intros; by apply set_value_kid).
  case_decide as E.
  - subst. rewrite Hp. simpl. rewrite nthZ_insert by (by eapply nthZ_Some_range).
    by rewrite decide_True.
  - destruct (pnode bn (Some 0) p) as [i|] eqn:Ei; [|done]. simpl.
    rewrite nthZ_insert by (by eapply nthZ_Some_range). rewrite decide_False; [done|].
    intros ->. by rewrite (pnode_inj _ _ _ _ _ Hinv Ei Hp) in E.
Qed.

(** Every stored encoding satisfies [Q]. *)
Definition all_val (Q : Z → Prop) (bn : list BinNode) : Prop :=
  ∀ i nd, nthZ bn i = Some nd → Q (bvalue nd).

Lemma grow_all_val Q bn node nd b :
  nthZ bn node = Some nd → Q 0 → all_val Q bn → all_val Q (grow bn node nd b).
Proof.
  intros Hn H0 Ha i nd'. rewrite grow_nth by done. case_decide; [|case_decide].
  - intros [= <-]. destruct b; exact (Ha node nd Hn).
  - by intros [= <-].
  - apply Ha.
Qed.

Section Loop.
Context `{K : IpKey}.

(** The bits of [prefix] from [i] on, as the builder reads them. *)
Fixpoint path (n : nat) (prefix i : Z) : list bool :=
  match n with
  | O => []
  | S n => bit prefix i :: path n prefix (i + 1)
  end.

Lemma insert_loop_ok d prefix n : ∀ i node bn done,
  bin_inv bn d → pnode bn (Some 0) done = Some node →
  len done + Z.of_nat n ≤ d → len bn + Z.of_nat n ≤ 2 ^ 32 →
  ∃ node' bn', insert_loop n prefix i node bn = Ret (node', bn') ∧ bin_inv bn' d ∧
    pnode bn' (Some 0) (done ++ path n prefix i) = Some node' ∧
    (∀ p, pval bn' (Some 0) p = pval bn (Some 0) p) ∧ len bn' ≤ len bn + Z.of_nat n ∧
    (∀ Q : Z → Prop, Q 0 → all_val Q bn → all_val Q bn').
Proof.
  induction n as [|n IH]; intros i node bn done Hinv Hd Hl Hb; cbn [insert_loop path].
  { exists node, bn. rewrite app_nil_r. split_and!; done || lia. }
  pose proof (pnode_range _ _ _ _ Hinv Hd) as Hr.
  destruct (nthZ_is_Some _ _ Hr) as [nd Hn]. rewrite (index_Some _ _ _ Hn). run.
  assert (Happ : ∀ r, done ++ bit prefix i :: r = (done ++ [bit prefix i]) ++ r)
    by (intros; by rewrite <-app_assoc).
  destruct (get_child nd (bit prefix i)) as [child|] eqn:Hc.
  - assert (Hd' : pnode bn (Some 0) (done ++ [bit prefix i]) = Some child).
    { rewrite pnode_snoc, Hd. unfold kid. by rewrite Hn. }
    destruct (IH (i + 1) child bn (done ++ [bit prefix i]))
      as (node' & bn' & -> & H1 & H2 & H3 & H4 & H5); [done|done|rewrite len_snoc; lia|lia|].
    exists node', bn'. rewrite Happ. split_and!; done || lia.
  - rewrite u32_small by (split; [apply len_nonneg|lia]).
    rewrite (index_Some _ _ nd) by (by apply nthZ_app_Some). run.
    rewrite set_index_ok by (rewrite len_snoc; lia). run.
    change (<[Z.to_nat node := set_child nd (bit prefix i) (Some (len bn))]> (bn ++ [BinNode_empty]))
      with (grow bn node nd (bit prefix i)).
    destruct (IH (i + 1) (len bn) (grow bn node nd (bit prefix i)) (done ++ [bit prefix i]))
      as (node' & bn' & -> & H1 & H2 & H3 & H4 & H5).
    + apply (grow_inv d) with (done := done); done || lia.
    + rewrite (grow_pnode d) with (done := done) by done. by rewrite decide_True.
    + rewrite len_snoc. lia.
    + rewrite grow_len. lia.
    + rewrite grow_len in H4. exists node', bn'. rewrite Happ.
      split_and!; try done; try lia.
      * intros p. rewrite H3. by apply (grow_pval d) with (done := done).
      * intros Q HQ0 HQ. by apply H5, grow_all_val.
Qed.
End Loop.
End Insert.

(** ** Values: interning and compaction *)
Section Values.
Context {V : Type} `{Countable V}.

(** The value an encoding stands for. *)
Definition dec (vals : list V) (e : Z) : option V :=
  if e =? 0 then None else nthZ vals (e - 1).

Definition enc_ok (vals : list V) (e : Z) : Prop := 0 ≤ e ≤ len vals.

Lemma dec_app vals k e : enc_ok vals e → dec (vals ++ k) e = dec vals e.
Proof. unfold dec, enc_ok. intros ?. case_bool; [done|]. apply nthZ_app_l. lia. Qed.

Lemma dec_None vals e : enc_ok vals e → dec vals e = None ↔ e = 0.
Proof.
  unfold dec, enc_ok. intros ?. case_bool; [done|]. split; [|done].
  destruct (nthZ_is_Some vals (e - 1)) as [? ->]; [lia|done].
Qed.

Definition index_ok (vals : list V) (idx : gmap V Z) : Prop :=
  ∀ v i, idx !! v = Some i ↔ 1 ≤ i ∧ nthZ vals (i - 1) = Some v.

Lemma index_ok_NoDup vals idx : index_ok vals idx → NoDup vals.
Proof.
  intros Hok. apply NoDup_alt. intros i j v Hi Hj.
  assert (Hu : ∀ k, vals !! k = Some v → idx !! v = Some (Z.of_nat k + 1)).
  { intros k Hk. apply Hok. split; [lia|].
    replace (Z.of_nat k + 1 - 1) with (Z.of_nat k) by lia. by rewrite nthZ_of_nat. }
  apply Hu in Hi, Hj. rewrite Hi in Hj. injection Hj. lia.
Qed.

Lemma intern_ok (b : PoptrieBuilder V) v :
  index_ok (bvalues b) (value_index b) → len (bvalues b) < 2 ^ 32 - 1 →
  ∃ i b', intern b v = Ret (i, b') ∧ bin b' = bin b ∧
    index_ok (bvalues b') (value_index b') ∧ (∃ k, bvalues b' = bvalues b ++ k) ∧
    len (bvalues b') ≤ len (bvalues b) + 1 ∧
    1 ≤ i ≤ len (bvalues b') ∧ nthZ (bvalues b') (i - 1) = Some v.
Proof.
  intros Hok Hl. assert (H0 := len_nonneg (bvalues b)). unfold intern.
  destruct (value_index b !! v) as [i|] eqn:E.
  - apply Hok in E as [Hi Hn]. assert (Hr := nthZ_Some_range _ _ _ Hn).
    exists i, b. split_and!; try done; try lia. exists []. by rewrite app_nil_r.
  - rewrite u32_small by lia. unfold fitsb. case_bool; try lia. simpl.
    eexists _, _. split; [done|]. cbn [bin bvalues value_index]. rewrite len_snoc.
    split_and!; try done; try lia.
    + intros w i. destruct (decide (w = v)) as [->|Hne].
      * rewrite lookup_insert_eq. split.
        -- intros [= <-]. split; [lia|].
           replace (len (bvalues b) + 1 - 1) with (len (bvalues b)) by lia. apply nthZ_snoc.
        -- intros [? [[? Hn]|[? _]]%nthZ_snoc_inv]; [|f_equal; lia].
           assert (value_index b !! v = Some i) by (by apply Hok). congruence.
      * rewrite lookup_insert_ne by done. etransitivity; [apply Hok|]. split.
        -- intros [? Hn]. split; [done|]. by apply nthZ_app_Some.
        -- intros [? [[? Hn]|[? ?]]%nthZ_snoc_inv]; [done|congruence].
    + eauto.
    + replace (len (bvalues b) + 1 - 1) with (len (bvalues b)) by lia. apply nthZ_snoc.
Qed.

(** The state of the compaction loop. *)
Record cinv (vals : list V) (remap : list Z) (live : list V) : Prop := {
  ci_len : len remap = len vals + 1;
  ci_map old r : 1 ≤ old → nthZ remap old = Some r → r ≠ 0 →
    1 ≤ r ≤ len live ∧ nthZ live (r - 1) = nthZ vals (old - 1);
  ci_live v : v ∈ live → ∃ old r, 1 ≤ old ∧ nthZ remap old = Some r ∧ r ≠ 0 ∧
    nthZ vals (old - 1) = Some v;
  ci_NoDup : NoDup live;
}.

Lemma nthZ_elem_of {A} (l : list A) x : x ∈ l ↔ ∃ i, nthZ l i = Some x.
Proof.
  rewrite list_elem_of_lookup. split.
  - intros [i Hi]. exists (Z.of_nat i). by rewrite nthZ_of_nat.
  - intros [i Hi]. unfold nthZ in Hi. destruct (i <? 0); [done|]. eauto.
Qed.

Lemma nthZ_inj (l : list V) i j v :
  NoDup l → nthZ l i = Some v → nthZ l j = Some v → i = j.
Proof.
  unfold nthZ. destruct (Z.ltb_spec i 0), (Z.ltb_spec j 0); try done.
  intros Hnd Hi Hj. pose proof (NoDup_lookup _ _ _ _ Hnd Hi Hj). lia.
Qed.

Lemma cinv_live_len vals remap live : cinv vals remap live → len live ≤ len vals.
Proof.
  intros [_ _ Hl Hnd]. unfold len.
  assert (live ⊆+ vals) as Hs%submseteq_length; [|lia].
  apply NoDup_submseteq; [done|]. intros v (old & r & _ & _ & _ & Hv)%Hl.
  apply nthZ_elem_of. eauto.
Qed.

Lemma cinv_add vals remap live old v :
  cinv vals remap live → NoDup vals → 1 ≤ old ≤ len vals → nthZ remap old = Some 0 →
  nthZ vals (old - 1) = Some v →
  cinv vals (<[Z.to_nat old := len live + 1]> remap) (live ++ [v]).
Proof.
  intros [Hl Hm Hv Hnd] Hnv Hold Hr0 Hov. assert (H0 := len_nonneg live).
  assert (Hr : 0 ≤ old < len remap) by lia.
  split.
  - by rewrite len_insert.
  - intros o r Ho. rewrite nthZ_insert by done. rewrite len_snoc. case_decide as E.
    + subst. intros [= <-] _. split; [lia|].
      replace (len live + 1 - 1) with (len live) by lia. by rewrite nthZ_snoc.
    + intros Hn Hne. destruct (Hm o r Ho Hn Hne) as [Hb He]. split; [lia|].
      rewrite nthZ_app_l by lia. done.
  - intros w [Hw|Hw%list_elem_of_singleton]%elem_of_app.
    + destruct (Hv w Hw) as (o & r & Ho & Hn & Hne & Hov'). exists o, r.
      rewrite nthZ_insert by done. rewrite decide_False; [done|]. congruence.
    + subst. exists old, (len live + 1). rewrite nthZ_insert by done.
      rewrite decide_True by done. split_and!; try done; lia.
  - apply NoDup_app. split; [done|]. split; [|apply NoDup_singleton].
    intros w Hw ->%list_elem_of_singleton. destruct (Hv v Hw) as (o & r & Ho & Hn & Hne & Hov').
    assert (o = old) by (assert (o - 1 = old - 1) by (by eapply nthZ_inj); lia). congruence.
Qed.

(** How compaction relates a node and its rewritten copy. *)
Definition compacted (vals live : list V) (nd nd' : BinNode) : Prop :=
  child0 nd' = child0 nd ∧ child1 nd' = child1 nd ∧
  enc_ok live (bvalue nd') ∧ dec live (bvalue nd') = dec vals (bvalue nd).

Lemma compacted_app vals live k nd nd' :
  compacted vals live nd nd' → compacted vals (live ++ k) nd nd'.
Proof.
  intros (? & ? & He & Hd). split_and!; [done|done|..].
  - unfold enc_ok in *. rewrite len_app. pose proof (len_nonneg k). lia.
  - by rewrite dec_app.
Qed.

(** The values added to the table are the encodings of some node. *)
Definition used (live : list V) (from : Z) (bn : list BinNode) : Prop :=
  ∀ e, from < e ≤ len live → ∃ nd, nd ∈ bn ∧ bvalue nd = e.

(** One node of the loop: either its value is already live or it is added. *)
Lemma compact_node vals remap live old :
  NoDup vals → cinv vals remap live → len vals < 2 ^ 32 → 1 ≤ old ≤ len vals →
  ∃ r0 remap' k r, index remap old = Ret r0 ∧
    (if r0 =? 0 then
       v ← index vals (old - 1); remap ← set_index remap old (u32 (len live) + 1);
       Ret (remap, live ++ [v])
     else Ret (remap, live)) = Ret (remap', live ++ k) ∧
    cinv vals remap' (live ++ k) ∧ index remap' old = Ret r ∧ 1 ≤ r ≤ len (live ++ k) ∧
    dec (live ++ k) r = dec vals old ∧ (len k = 0 ∨ (len k = 1 ∧ r = len live + 1)).
Proof.
  intros Hnv Hinv Hl Hold. assert (Hlen := ci_len _ _ _ Hinv).
  pose proof (cinv_live_len _ _ _ Hinv) as Hlive. pose proof (len_nonneg live).
  destruct (nthZ_is_Some remap old) as [r0 Hr0]; [lia|]. exists r0.
  unfold dec. destruct (Z.eqb_spec old 0); [lia|]. destruct (Z.eqb_spec r0 0) as [->|Hne].
  - destruct (nthZ_is_Some vals (old - 1)) as [v Hv]; [lia|].
    pose proof (cinv_add _ _ _ _ _ Hinv Hnv Hold Hr0 Hv) as Hinv'.
    rewrite u32_small by lia. rewrite (index_Some vals _ _ Hv), set_index_ok by lia. run.
    exists (<[Z.to_nat old := len live + 1]> remap), [v], (len live + 1).
    assert (Hr' : nthZ (<[Z.to_nat old := len live + 1]> remap) old = Some (len live + 1))
      by (rewrite nthZ_insert by lia; by rewrite decide_True).
    rewrite len_snoc. split_and!; try done; try lia; eauto using index_Some.
    destruct (Z.eqb_spec (len live + 1) 0); [lia|].
    replace (len live + 1 - 1) with (len live) by lia. by rewrite nthZ_snoc.
  - destruct (ci_map _ _ _ Hinv old r0) as [Hb He]; [lia|done|done|].
    exists remap, [], r0. rewrite app_nil_r. split_and!; try done; eauto using index_Some; try lia.
    destruct (Z.eqb_spec r0 0); [done|]. by rewrite He.
Qed.

Lemma compact_loop_ok vals : NoDup vals → len vals < 2 ^ 32 → ∀ todo remap live,
  cinv vals remap live → Forall (λ nd, enc_ok vals (bvalue nd)) todo →
  ∃ todo' k, compact_loop todo vals remap live = Ret (todo', live ++ k) ∧
    NoDup (live ++ k) ∧ Forall2 (compacted vals (live ++ k)) todo todo' ∧
    used (live ++ k) (len live) todo' ∧ len (live ++ k) ≤ len vals.
Proof.
  intros Hnv Hl. induction todo as [|node todo IH]; intros remap live Hinv Hf; cbn [compact_loop].
  { exists [], []. rewrite app_nil_r. pose proof (cinv_live_len _ _ _ Hinv).
    split_and!; try done; [exact (ci_NoDup _ _ _ Hinv)|]. intros e He. lia. }
  apply Forall_cons in Hf as [He Hf].
  destruct (Z.eqb_spec (bvalue node) 0) as [E|E].
  - destruct (IH remap live) as (todo' & k & -> & Hnd & H2 & Hu & Hk); [done|done|]. run.
    exists (node :: todo'), k. split_and!; try done.
    + constructor; [|done]. split_and!; try done.
      * unfold enc_ok in *. rewrite E. pose proof (len_nonneg (live ++ k)). lia.
      * by rewrite E.
    + intros e Hr. destruct (Hu e Hr) as (nd & ? & ?). exists nd. split; [by right|done].
  - destruct (compact_node vals remap live (bvalue node))
      as (r0 & remap' & k1 & r & -> & Hstep & Hinv' & Hr & Hb & Hd & Hk1);
      [done|done|done|unfold enc_ok in He; lia|].
    run. rewrite Hstep. run. rewrite Hr. run.
    destruct (IH remap' (live ++ k1)) as (todo' & k2 & -> & Hnd & H2 & Hu & Hk); [done|done|]. run.
    exists (set_value node r :: todo'), (k1 ++ k2). rewrite app_assoc.
    split_and!; try done.
    + constructor; [|done]. apply compacted_app. split_and!; try done.
      unfold enc_ok. simpl. lia.
    + intros e Her. rewrite len_app in Hu. destruct (decide (e = r ∧ len k1 = 1)) as [[-> ?]|].
      * exists (set_value node r). split; [by left|done].
      * destruct (Hu e) as (nd & ? & ?); [lia|]. exists nd. split; [by right|done].
Qed.

Lemma compact_ok bn vals :
  NoDup vals → len vals < 2 ^ 32 → Forall (λ nd, enc_ok vals (bvalue nd)) bn →
  ∃ bn' live, compact_live_values bn vals = Ret (bn', live) ∧ NoDup live ∧
    Forall2 (compacted vals live) bn bn' ∧ used live 0 bn' ∧ len live ≤ len vals.
Proof.
  intros Hnv Hl Hf. destruct (compact_loop_ok vals Hnv Hl bn (replicate (length vals + 1) 0) [])
    as (bn' & k & Hc & H1 & H2 & H3 & H4); [|done|].
  - split.
    + unfold len. rewrite length_replicate. lia.
    + intros old r Ho Hr Hne. exfalso. apply Hne.
      assert (Hrange := nthZ_Some_range _ _ _ Hr). unfold len in Hrange.
      rewrite length_replicate in Hrange. rewrite nthZ_replicate in Hr by lia. congruence.
    + intros v Hv. by apply elem_of_nil in Hv.
    + constructor.
  - exists bn', k. done.
Qed.
End Values.

(** ** The builder refines a finite route table *)
Section Refine.
Context {K : IpKey} {HK : IpKeyLaws K} {V : Type} `{Countable V}.

Definition table := list bool → option V.
Definition empty_table : table := λ _, None.
Definition upd (T : table) (p : list bool) (v : V) : table :=
  λ q, if decide (q = p) then Some v else T q.

Record brep (b : PoptrieBuilder V) (T : table) : Prop := {
  br_bin : bin_inv (bin b) BITS;
  br_enc : all_val (enc_ok (bvalues b)) (bin b);
  br_index : index_ok (bvalues b) (value_index b);
  br_val p : dec (bvalues b) (pval (bin b) (Some 0) p) = T p;
}.

Lemma pval_enc (vals : list V) bn node p : all_val (enc_ok vals) bn → enc_ok vals (pval bn node p).
Proof.
  intros Ha. unfold pval, value_at. pose proof (len_nonneg vals).
  destruct (pnode bn node p) as [id|]; [|unfold enc_ok; lia].
  destruct (nthZ bn id) eqn:E; simpl; [by eapply Ha|unfold enc_ok; lia].
Qed.

Lemma builder_new_ok : brep builder_new empty_table.
Proof.
  pose proof BITS_pos.
  assert (Hk : ∀ i b, kid [BinNode_empty] (Some i) b = None).
  { intros i b. unfold kid. destruct (nthZ _ i) eqn:E; [|done].
    assert (Hr := nthZ_Some_range _ _ _ E). unfold len in Hr. simpl in Hr.
    replace i with 0 in E by lia. injection E as <-. by destruct b. }
  assert (Hp : ∀ p i, pnode [BinNode_empty] (Some 0) p = Some i → p = []).
  { intros [|b p] i; simpl; [done|]. by rewrite Hk, pnode_None. }
  split; simpl.
  - split; [done|..].
    + intros i b c. by rewrite Hk.
    + intros i b j b' c. by rewrite Hk.
    + intros p i ->%Hp. unfold len. simpl. lia.
    + intros i Hi. unfold len in Hi. simpl in Hi. exists []. simpl. f_equal. lia.
  - intros i nd Hn. assert (Hr := nthZ_Some_range _ _ _ Hn). unfold len in Hr. simpl in Hr.
    replace i with 0 in Hn by lia. injection Hn as <-. done.
  - intros v i. rewrite lookup_empty. split; [done|]. intros [? Hn].
    apply nthZ_Some_range in Hn. unfold len in Hn. simpl in Hn. lia.
  - intros p. unfold pval. destruct (pnode _ _ p) eqn:E; [|done].
    rewrite (Hp _ _ E) in E. by injection E as <-.
Qed.

Lemma insert_ok b T prefix l v :
  brep b T → 0 ≤ l ≤ BITS → len (bin b) + l ≤ 2 ^ 32 → len (bvalues b) < 2 ^ 32 - 1 →
  ∃ b', insert b prefix l v = Ret b' ∧ brep b' (upd T (path (Z.to_nat l) prefix 0) v) ∧
    len (bin b') ≤ len (bin b) + l ∧ len (bvalues b') ≤ len (bvalues b) + 1.
Proof.
  intros [Hinv Henc Hidx Hval] Hl Hbin Hvals. unfold insert.
  destruct (Z.leb_spec l BITS); [|lia].
  destruct (intern_ok b v) as (vi & b1 & -> & Hb1 & Hidx1 & (k & Hk) & Hl1 & Hvi & Hnv); [done|done|].
  run. rewrite Hb1.
  destruct (insert_loop_ok BITS prefix (Z.to_nat l) 0 0 (bin b) [])
    as (node & bn & -> & Hinv1 & Hp & Hpv & Hlb & HQ); [done|done|unfold len; simpl; lia|lia|].
  simpl in Hp. run. pose proof (pnode_range _ _ _ _ Hinv1 Hp) as Hr.
  destruct (nthZ_is_Some _ _ Hr) as [nd Hnd]. rewrite (index_Some _ _ _ Hnd). run.
  rewrite set_index_ok by lia. run. eexists. split; [done|]. cbn [bin bvalues].
  assert (Hmono : ∀ e, enc_ok (bvalues b) e → enc_ok (bvalues b1) e).
  { unfold enc_ok. intros e He. rewrite Hk, len_app. pose proof (len_nonneg k). lia. }
  split; [|rewrite len_insert; lia]. split; cbn [bin bvalues value_index].
  - eapply same_inv; [|apply len_insert|exact Hinv1]. intros. by apply set_value_kid.
  - intros i nd'. rewrite nthZ_insert by done. case_decide.
    + intros [= <-]. unfold enc_ok. simpl. lia.
    + apply HQ; [|intros j nd1 Hj; by eapply Hmono, Henc].
      unfold enc_ok. pose proof (len_nonneg (bvalues b1)). lia.
  - done.
  - intros p. rewrite (set_value_pval BITS) with (path := path (Z.to_nat l) prefix 0) by done.
    unfold upd. case_decide.
    + unfold dec. destruct (Z.eqb_spec vi 0); [lia|done].
    + rewrite Hpv, Hk, dec_app; [apply Hval|]. by apply pval_enc.
Qed.
End Refine.
