(* ===== verification/PoptrieSpec.v ===== *)
(** * Correctness of the longest-prefix-match table

    The abstract specification is a route table from bit paths to values and
    its longest match [lpm]. [build] is total within the size bounds, its
    table answers [lpm], which is the exhaustive scan [reference_lpm]; the
    checker [validate_invariants] accepts every built table and guarantees
    that the unchecked accesses of [lookup] are in range. *)
From S2P Require Import Prelude Bits Poptrie PoptrieEmit PoptrieBuild.
Open Scope Z_scope.

(** ** Longest match *)
Section Lpm.
Context {V : Type}.

(** The value of the longest prefix of [bits] in the table. *)
Fixpoint lpm (T : list bool → option V) (acc : option V) (bits : list bool) : option V :=
  let best := match T [] with Some v => Some v | None => acc end in
  match bits with
  | [] => best
  | b :: bits => lpm (λ p, T (b :: p)) best bits
  end.

Lemma lpm_ext T T' acc bits : (∀ p, T p = T' p) → lpm T acc bits = lpm T' acc bits.
Proof.
  revert T T' acc. induction bits as [|b bits IH]; intros T T' acc HT; simpl; rewrite HT; [done|].
  apply IH. auto.
Qed.

Lemma lpm_spec T acc bits v :
  lpm T acc bits = Some v ↔
  (∃ k, (k ≤ length bits)%nat ∧ T (take k bits) = Some v ∧
     ∀ j, (k < j ≤ length bits)%nat → T (take j bits) = None) ∨
  (acc = Some v ∧ ∀ j, (j ≤ length bits)%nat → T (take j bits) = None).
Proof.
  revert T acc. induction bits as [|b bits IH]; intros T acc; cbn [lpm].
  - destruct (T []) eqn:E; split.
    + intros [= ->]. left. exists O. split_and!; try done. intros; simpl in *; lia.
    + intros [(k & Hk & HT & _)|[_ HT]].
      * replace k with O in HT by (simpl in Hk; lia). simpl in HT. congruence.
      * specialize (HT O ltac:(simpl; lia)). simpl in HT. congruence.
    + intros ->. right. split; [done|]. intros j _. by destruct j.
    + intros [(k & Hk & HT & _)|[-> HT]]; [|done].
      replace k with O in HT by (simpl in Hk; lia). simpl in HT. congruence.
  - rewrite IH. split.
    + intros [(k & Hk & HT & Hj)|[Hacc Hj]].
      * left. exists (S k). simpl. split_and!; [lia|done|].
        intros [|j] ?; [lia|]. apply Hj. lia.
      * destruct (T []) as [w|] eqn:E.
        -- left. exists O. simpl. split_and!; [lia|congruence|].
           intros [|j] ?; [lia|]. apply Hj. lia.
        -- right. split; [done|]. intros [|j] ?; [done|]. apply Hj. simpl in *. lia.
    + intros [(k & Hk & HT & Hj)|[-> Hj]].
      * destruct k as [|k].
        -- right. simpl in HT. rewrite HT. split; [done|]. intros j ?.
           apply (Hj (S j)). simpl. lia.
        -- left. exists k. simpl in *. split_and!; [lia|done|].
           intros j ?. apply (Hj (S j)). lia.
      * right. pose proof (Hj O ltac:(lia)) as H0. simpl in H0. rewrite H0.
        split; [done|]. intros j ?. apply (Hj (S j)). simpl. lia.
Qed.
End Lpm.

Section Walk.
Context {V : Type}.

(** Leaf pushing computes the longest match. *)
Lemma walk_lpm (vals : list V) bn bits : all_val (enc_ok vals) bn → ∀ node inh,
  enc_ok vals inh →
  dec vals (walk bn node inh bits)
  = lpm (λ p, dec vals (pval bn node p)) (dec vals inh) bits ∧
  enc_ok vals (walk bn node inh bits).
Proof.
  intros Ha.
  assert (He : ∀ node inh, enc_ok vals inh → enc_ok vals (eff bn node inh) ∧
    dec vals (eff bn node inh)
    = match dec vals (pval bn node []) with Some v => Some v | None => dec vals inh end).
  { intros [id|] inh Hi; [|done]. unfold eff, pval. simpl.
    destruct (nthZ bn id) as [nd|] eqn:E; [|done]. simpl.
    destruct (Z.eqb_spec (bvalue nd) 0) as [->|Hne]; [done|].
    pose proof (Ha _ _ E) as Hnd. split; [done|].
    destruct (dec vals (bvalue nd)) eqn:Ed; [done|]. by apply dec_None in Ed. }
  induction bits as [|b bits IH]; intros node inh Hi; destruct (He node inh Hi) as [He1 He2].
  - simpl. by rewrite He2.
  - cbn [walk lpm]. destruct (IH (kid bn node b) (eff bn node inh) He1) as [-> Hok].
    split; [|done]. rewrite He2. done.
Qed.
End Walk.

(** ** The built table *)
Section Built.
Context {K : IpKey} {HK : IpKeyLaws K} {V : Type} `{Countable V}.

Lemma LEAF_FLAG_eq : LEAF_FLAG = 2 ^ 31.
Proof. reflexivity. Qed.

Lemma leaf_flag_test e : negb (Z.land e LEAF_FLAG =? 0) = Z.testbit e 31.
Proof. by apply land_bit_test. Qed.

Lemma leaf_entry_test v : Z.testbit (Z.lor LEAF_FLAG v) 31 = true.
Proof. by rewrite Z.lor_spec. Qed.

Lemma leaf_entry_value v : fits 31 v → Z.land (Z.lor LEAF_FLAG v) VALUE_MASK = v.
Proof.
  intros Hv. change VALUE_MASK with (Z.ones 31). change LEAF_FLAG with (2 ^ 31).
  apply Z.bits_inj'. intros i Hi. rewrite Z.land_spec, Z.lor_spec.
  destruct (decide (i < 31)).
  - rewrite Z.ones_spec_low, Z.pow2_bits_false by lia. by rewrite andb_true_r.
  - rewrite Z.ones_spec_high by lia. rewrite (fits_testbit 31 v i) by (done || lia).
    apply andb_false_r.
Qed.

Lemma node_entry_test e : fits 31 e → Z.testbit e 31 = false.
Proof. intros. by apply (fits_testbit 31). Qed.

(** What [build] guarantees about its table. *)
Record built (DIRECT_BITS : Z) (h : nat) (bn : list BinNode) (ds : list nat) (t : Poptrie V) : Prop := {
  bt_bits : BITS = DIRECT_BITS + 6 * Z.of_nat h;
  bt_direct_bits : 1 ≤ DIRECT_BITS < 64;
  bt_direct : len (direct t) = 2 ^ DIRECT_BITS;
  bt_values : len (values t) < VALUE_MASK;
  bt_nodes : len (nodes t) < LEAF_FLAG;
  bt_wf : wf_on (nodes t) (leaves t) (λ i, 0 ≤ i < len (nodes t));
  bt_leaves : Forall (enc_ok (values t)) (leaves t);
  bt_enc : all_val (enc_ok (values t)) bn;
  bt_entry j : 0 ≤ j < 2 ^ DIRECT_BITS → ∃ entry, nthZ (direct t) j = Some entry ∧
    dentry bn (enc_ok (values t)) h (nodes t) (leaves t) ds (λ i, 0 ≤ i < len (nodes t))
      entry (Some 0) 0 (bits_of (Z.to_nat DIRECT_BITS) j);
}.

Lemma value_ok (vals : list V) e : enc_ok vals e → value vals e = Ret (dec vals e).
Proof.
  unfold value, dec, enc_ok. intros ?. destruct (Z.eqb_spec e 0); [done|].
  destruct (nthZ_is_Some vals (e - 1)) as [v Hv]; [lia|]. by rewrite (get_unchecked_Some _ _ _ Hv), Hv.
Qed.

Lemma direct_bits key b :
  fits BITS key → 1 ≤ b < 64 → b ≤ BITS →
  0 ≤ direct_index key b < 2 ^ b ∧
  bits_of (Z.to_nat BITS) key
  = bits_of (Z.to_nat b) (direct_index key b) ++ bits_of (Z.to_nat (BITS - b)) key.
Proof.
  intros Hk Hb Hbb. rewrite direct_spec by (done || lia). split.
  - rewrite Z.shiftr_div_pow2 by lia. unfold fits in Hk. split; [apply Z.div_pos; lia|].
    apply Z.div_lt_upper_bound; [lia|]. rewrite <-Z.pow_add_r by lia.
    replace (BITS - b + b) with BITS by lia; lia.
  - replace (Z.to_nat BITS) with (Z.to_nat b + Z.to_nat (BITS - b))%nat by lia.
    rewrite bits_of_app. by rewrite Z2Nat.id by lia.
Qed.

Lemma built_lookup DIRECT_BITS h bn ds t key :
  built DIRECT_BITS h bn ds t → fits BITS key →
  lookup DIRECT_BITS t key = Ret (dec (values t) (walk bn (Some 0) 0 (bits_of (Z.to_nat BITS) key))).
Proof.
  intros Hb Hk. pose proof (bt_bits _ _ _ _ _ Hb) as HB. pose proof (bt_direct_bits _ _ _ _ _ Hb) as HD.
  destruct (direct_bits key DIRECT_BITS Hk HD ltac:(lia)) as [Hdi Hbits]. unfold lookup.
  destruct (bt_entry _ _ _ _ _ Hb _ Hdi) as (entry & He & Hde).
  rewrite (get_unchecked_Some _ _ _ He). run. rewrite leaf_flag_test, Hbits.
  replace (Z.to_nat (BITS - DIRECT_BITS)) with (6 * h)%nat by lia.
  assert (He0 : enc_ok (values t) 0) by (pose proof (len_nonneg (values t)); unfold enc_ok; lia).
  destruct Hde as [(v & -> & Hv & Hw)|(id & e & Hr & Hw)].
  - rewrite leaf_entry_test, leaf_entry_value, Hw; [by apply value_ok|].
    pose proof (bt_values _ _ _ _ _ Hb) as Hvals. unfold enc_ok in Hv.
    change VALUE_MASK with (2 ^ 31 - 1) in Hvals. unfold fits. lia.
  - assert (Hen : fits 31 entry).
    { destruct h; [done|]. destruct Hr as [? _]. pose proof (bt_nodes _ _ _ _ _ Hb) as Hn.
      rewrite LEAF_FLAG_eq in Hn. unfold fits. lia. }
    rewrite node_entry_test, Hw by done.
    replace DIRECT_BITS with (BITS - 6 * Z.of_nat h) by lia.
    erewrite nrep_lookup; [|exact Hr|lia|done|lia]. run.
    apply value_ok. rewrite <-Hw. apply walk_lpm; [exact (bt_enc _ _ _ _ _ Hb)|done].
Qed.

(** The rewritten trie of [compact_live_values] has the same meaning. *)
Lemma compacted_same (vals live : list V) bn bn' d :
  Forall2 (compacted vals live) bn bn' → bin_inv bn d →
  bin_inv bn' d ∧ len bn' = len bn ∧ all_val (enc_ok live) bn' ∧
  ∀ p, dec live (pval bn' (Some 0) p) = dec vals (pval bn (Some 0) p).
Proof.
  intros Hc Hinv.
  assert (Hl : len bn' = len bn) by (unfold len; by rewrite (Forall2_length _ _ _ Hc)).
  assert (Hn : ∀ i, match nthZ bn i, nthZ bn' i with
    | Some nd, Some nd' => compacted vals live nd nd' | None, None => True | _, _ => False end).
  { intros i. unfold nthZ. destruct (i <? 0); [done|].
    pose proof (proj1 (Forall2_lookup _ _ _) Hc (Z.to_nat i)) as Ho. by inversion Ho. }
  assert (Hk : ∀ i b, kid bn' i b = kid bn i b).
  { intros [i|] b; [|done]. unfold kid. specialize (Hn i).
    destruct (nthZ bn i), (nthZ bn' i); try done. destruct Hn as (E0 & E1 & _).
    destruct b; simpl; congruence. }
  split_and!; [by eapply same_inv|done|..].
  - intros i nd' Hi. specialize (Hn i). rewrite Hi in Hn. destruct (nthZ bn i); [|done].
    by destruct Hn as (_ & _ & ? & _).
  - intros p. unfold pval. rewrite (same_pnode bn bn') by done.
    destruct (pnode bn (Some 0) p) as [i|]; [|done]. simpl. specialize (Hn i).
    destruct (nthZ bn i), (nthZ bn' i); try done. by destruct Hn as (_ & _ & _ & ?).
Qed.

(** After compaction the value table is exactly the values of the trie. *)
Lemma live_values (live : list V) bn d T :
  bin_inv bn d → used live 0 bn → (∀ p, dec live (pval bn (Some 0) p) = T p) →
  ∀ v, v ∈ live ↔ ∃ p, T p = Some v.
Proof.
  intros Hinv Hu HT v. split.
  - intros [i Hi]%nthZ_elem_of. assert (Hr := nthZ_Some_range _ _ _ Hi).
    destruct (Hu (i + 1)) as (nd & [j Hj]%nthZ_elem_of & Hnd); [lia|].
    destruct (bi_reach _ _ Hinv j) as [p Hp]; [by eapply nthZ_Some_range|].
    exists p. rewrite <-HT. unfold pval. rewrite Hp. simpl. rewrite Hj. simpl. rewrite Hnd.
    unfold dec. destruct (Z.eqb_spec (i + 1) 0); [lia|]. by rewrite Z.add_simpl_r.
  - intros [p Hp]. rewrite <-HT in Hp. unfold dec in Hp. destruct (_ =? 0); [done|].
    apply nthZ_elem_of. eauto.
Qed.

Definition valid_direct_bits (DIRECT_BITS : Z) : Prop :=
  1 ≤ DIRECT_BITS < 64 ∧ DIRECT_BITS < BITS ∧ (BITS - DIRECT_BITS) mod 6 = 0.

Lemma build_release_built DIRECT_BITS (b : PoptrieBuilder V) T :
  brep b T → valid_direct_bits DIRECT_BITS →
  64 * len (bin b) < 2 ^ 31 → len (bvalues b) < VALUE_MASK →
  ∃ h bn ds t, build_release DIRECT_BITS b = Ret t ∧ built DIRECT_BITS h bn ds t ∧
    NoDup (values t) ∧ (∀ v, v ∈ values t ↔ ∃ p, T p = Some v) ∧
    ∀ p, dec (values t) (pval bn (Some 0) p) = T p.
Proof.
  intros [Hinv Henc Hidx Hval] (HD1 & HD2 & HD3) Hbin Hvals.
  change VALUE_MASK with (2 ^ 31 - 1) in *.
  unfold build_release. change STRIDE with 6. case_bool; try lia. cbn [andb].
  destruct (compact_ok (bin b) (bvalues b)) as (bn & live & -> & Hnd & Hc & Hu & Hll).
  { by eapply index_ok_NoDup. }
  { lia. }
  { apply Forall_lookup. intros i nd Hi. apply (Henc (Z.of_nat i)). by rewrite nthZ_of_nat. }
  run. change VALUE_MASK with (2 ^ 31 - 1). case_bool; try lia.
  destruct (compacted_same _ _ _ _ _ Hc Hinv) as (Hinv' & Hlb & Henc' & Hval').
  set (h := Z.to_nat ((BITS - DIRECT_BITS) / 6)).
  assert (Hh : BITS - DIRECT_BITS = 6 * Z.of_nat h).
  { unfold h. rewrite Z2Nat.id by (apply Z.div_pos; lia). by apply Z_div_exact_2. }
  assert (HBn : Z.to_nat BITS = (Z.to_nat DIRECT_BITS + 6 * h)%nat) by lia.
  assert (Hhb : hb bn (Z.to_nat DIRECT_BITS + 6 * h) (Some 0)).
  { rewrite <-HBn. apply bin_inv_hb. by rewrite Z2Nat.id by lia. }
  assert (Hd0 : len (replicate (Z.to_nat (Z.shiftl 1 DIRECT_BITS)) 0) = 2 ^ DIRECT_BITS).
  { unfold len. rewrite length_replicate, Z.shiftl_1_l. lia. }
  assert (He0 : enc_ok live 0) by (pose proof (len_nonneg live); unfold enc_ok; lia).
  destruct (fill_direct_ok bn (enc_ok live) (λ i nd Hi _, Henc' i nd Hi) h (Z.to_nat BITS) ltac:(lia)
    (Z.to_nat DIRECT_BITS) (Some 0) 0 0 [] [] (replicate (Z.to_nat (Z.shiftl 1 DIRECT_BITS)) 0))
    as (ns & ls & dir & -> & Hde); [done|done|lia|rewrite Hd0, Z2Nat.id; lia|].
  run. pose proof (tsize_bound bn BITS (Z.to_nat DIRECT_BITS + 6 * h) Hinv') as Hts.
  destruct Hde as [Hdir _ Hns Hls (L & -> & HL) _ _ Hrep].
  change (len (@nil Node)) with 0 in *. change (len (@nil Z)) with 0 in *. cbn [app] in *.
  change (@nil Z ++ L) with L in *.
  rewrite LEAF_FLAG_eq. case_bool; try lia.
  destruct (Hrep []) as (ds & Hds & Hwf & Hent); [lia|lia|done|]. cbn [app] in *.
  exists h, bn, ds. eexists. split; [done|]. cbn [values].
  assert (HT : ∀ p, dec live (pval bn (Some 0) p) = T p) by (intros p; by rewrite Hval').
  split; [|split; [done|split; [|done]]].
  - split; cbn [direct nodes leaves values]; try done; try lia.
    intros j Hj. apply Hent. unfold in_block. rewrite Z2Nat.id by lia. lia.
  - by eapply live_values.
Qed.
End Built.

(** ** Routes *)
Section Routes.
Context {K : IpKey} {HK : IpKeyLaws K} {V : Type} `{Countable V}.

Definition route_ok (r : Z * Z * V) : Prop :=
  let '(p, l, _) := r in fits BITS p ∧ 0 ≤ l ≤ BITS.

Fixpoint total_bits (routes : list (Z * Z * V)) : Z :=
  match routes with
  | [] => 0
  | (_, l, _) :: routes => l + total_bits routes
  end.

(** The table a sequence of insertions describes: the last one wins. *)
Fixpoint table_of (T : list bool → option V) (routes : list (Z * Z * V)) : list bool → option V :=
  match routes with
  | [] => T
  | (p, l, v) :: routes => table_of (upd T (path (Z.to_nat l) p 0) v) routes
  end.

Lemma total_bits_nonneg routes : Forall route_ok routes → 0 ≤ total_bits routes.
Proof.
  induction 1 as [|[[p l] v] routes [_ Hl] _ IH]; simpl; [lia|]. lia.
Qed.

Lemma insert_all_ok routes : Forall route_ok routes → ∀ b T,
  brep b T → len (bin b) + total_bits routes ≤ 2 ^ 32 →
  len (bvalues b) + len routes < 2 ^ 32 →
  ∃ b', insert_all b routes = Ret b' ∧ brep b' (table_of T routes) ∧
    len (bin b') ≤ len (bin b) + total_bits routes ∧
    len (bvalues b') ≤ len (bvalues b) + len routes.
Proof.
  induction 1 as [|[[p l] v] routes [Hp Hl] Hr IH]; intros b T Hb Hbin Hvals; simpl.
  { exists b. unfold len. simpl. split_and!; try done; lia. }
  rewrite len_cons in Hvals. simpl in Hbin. pose proof (total_bits_nonneg _ Hr).
  pose proof (len_nonneg routes).
  destruct (insert_ok b T p l v) as (b1 & -> & Hb1 & Hn1 & Hv1); [done|done|lia|lia|]. run.
  destruct (IH b1 _ Hb1) as (b2 & -> & Hb2 & Hn2 & Hv2); [lia|lia|].
  exists b2. rewrite len_cons. split_and!; try done; lia.
Qed.

Lemma path_bits p n i :
  fits BITS p → 0 ≤ i → i + Z.of_nat n ≤ BITS →
  path n p i = bits_of n (Z.shiftr p (BITS - i - Z.of_nat n)).
Proof.
  intros Hp. revert i. induction n as [|n IH]; intros i Hi Hb; [done|]. cbn [path bits_of].
  rewrite IH, bit_spec, Z.shiftr_spec by (done || lia).
  f_equal; [f_equal; lia|]. do 2 f_equal. lia.
Qed.

Lemma path_take p l :
  fits BITS p → 0 ≤ l ≤ BITS →
  path (Z.to_nat l) p 0 = take (Z.to_nat l) (bits_of (Z.to_nat BITS) p).
Proof.
  intros Hp Hl. rewrite path_bits, take_bits_of by (done || lia). do 2 f_equal. lia.
Qed.

Lemma prefix_mask_bit l i :
  0 ≤ l ≤ BITS → 0 ≤ i < BITS → Z.testbit (prefix_mask l) i = (BITS - l <=? i).
Proof.
  intros Hl Hi. unfold prefix_mask. destruct (Z.eqb_spec l 0) as [->|].
  { rewrite Z.bits_0. case_bool; [lia|done]. }
  unfold wrap. rewrite Z.mod_pow2_bits_low, Z.shiftl_spec by lia.
  replace (2 ^ BITS - 1) with (Z.ones BITS) by (rewrite Z.ones_equiv; lia).
  case_bool; [apply Z.ones_spec_low; lia|by apply Z.testbit_neg_r; lia].
Qed.

(** The masked comparison of the scan compares prefixes. *)
Lemma prefix_match key p l :
  fits BITS key → fits BITS p → 0 ≤ l ≤ BITS →
  (Z.land key (prefix_mask l) =? Z.land p (prefix_mask l)) = true ↔
  take (Z.to_nat l) (bits_of (Z.to_nat BITS) key) = take (Z.to_nat l) (bits_of (Z.to_nat BITS) p).
Proof.
  intros Hk Hp Hl. rewrite Z.eqb_eq, !take_bits_of by lia. split.
  - intros E. apply bits_of_ext. intros i Hi. rewrite !Z.shiftr_spec by lia.
    set (m := i + _). apply (f_equal (λ x, Z.testbit x m)) in E.
    rewrite !Z.land_spec, prefix_mask_bit in E by lia.
    destruct (Z.leb_spec (BITS - l) m); [|lia]. by rewrite !andb_true_r in E.
  - intros E. apply Z.bits_inj'. intros i Hi. rewrite !Z.land_spec.
    destruct (decide (i < BITS)).
    + rewrite prefix_mask_bit by lia. destruct (Z.leb_spec (BITS - l) i); [|by rewrite !andb_false_r].
      pose proof (bits_of_inj _ _ _ E (i - (BITS - l)) ltac:(lia)) as Hb.
      rewrite !Z.shiftr_spec in Hb by lia.
      replace (i - (BITS - l) + Z.of_nat (Z.to_nat BITS - Z.to_nat l)) with i in Hb by lia.
      by rewrite Hb.
    + pose proof BITS_pos. by rewrite (fits_testbit BITS key), (fits_testbit BITS p) by (done || lia).
Qed.

Definition scan_ok (T : list bool → option V) (kb : list bool) (best : option (Z * V)) : Prop :=
  match best with
  | Some (l, v) => 0 ≤ l ≤ len kb ∧ T (take (Z.to_nat l) kb) = Some v ∧
      ∀ j, (Z.to_nat l < j ≤ length kb)%nat → T (take j kb) = None
  | None => ∀ j, (j ≤ length kb)%nat → T (take j kb) = None
  end.

Lemma take_inj (a b : list bool) i j :
  (i ≤ length a)%nat → (j ≤ length b)%nat → take i a = take j b → i = j.
Proof. intros ? ? E. apply (f_equal length) in E. rewrite !length_take in E. lia. Qed.

Lemma reference_scan_ok routes key : fits BITS key → Forall route_ok routes → ∀ T best,
  let kb := bits_of (Z.to_nat BITS) key in
  scan_ok T kb best → scan_ok (table_of T routes) kb (reference_scan routes key best).
Proof.
  intros Hk. induction 1 as [|[[p l] v] routes [Hp Hl] Hr IH]; intros T best kb Hs; [done|].
  cbn [table_of reference_scan]. apply IH. clear IH. rewrite path_take by done.
  set (pb := bits_of (Z.to_nat BITS) p).
  assert (Hkl : length kb = Z.to_nat BITS) by apply length_bits_of.
  assert (Hpl : length pb = Z.to_nat BITS) by apply length_bits_of.
  assert (Hne : ∀ j, (j ≤ length kb)%nat → j ≠ Z.to_nat l →
    upd T (take (Z.to_nat l) pb) v (take j kb) = T (take j kb)).
  { intros j Hj Hjl. unfold upd. rewrite decide_False; [done|].
    intros E. apply Hjl. apply (take_inj kb pb); [done|lia|done]. }
  pose proof (prefix_match key p l Hk Hp Hl) as Hm. fold kb pb in Hm. fold kb. clearbody kb pb.
  destruct (Z.land key (prefix_mask l) =? Z.land p (prefix_mask l)) eqn:Em; cbn [andb].
  - destruct Hm as [Hm _]. specialize (Hm eq_refl).
    assert (Hv : upd T (take (Z.to_nat l) pb) v (take (Z.to_nat l) kb) = Some v)
      by (unfold upd; by rewrite decide_True).
    destruct best as [[bl bv]|]; [destruct (Z.leb_spec bl l)|]; cbn [scan_ok] in *.
    + destruct Hs as (Hbl & _ & Hj). split_and!; [lia|unfold len; lia|done|].
      intros j ?. rewrite Hne by lia. apply Hj. lia.
    + destruct Hs as (Hbl & Hbv & Hj). unfold len in *. split_and!; [lia|lia|rewrite Hne by lia; done|].
      intros j ?. rewrite Hne by lia. apply Hj. lia.
    + split_and!; [unfold len; lia|unfold len; lia|done|]. intros j ?. rewrite Hne by lia. apply Hs. lia.
  - assert (Hall : ∀ j, (j ≤ length kb)%nat →
      upd T (take (Z.to_nat l) pb) v (take j kb) = T (take j kb)).
    { intros j Hj. destruct (decide (j = Z.to_nat l)) as [->|]; [|by apply Hne].
      unfold upd. rewrite decide_False; [done|]. intros E. apply Hm in E. done. }
    destruct best as [[bl bv]|]; cbn [scan_ok] in *.
    + destruct Hs as (Hbl & Hbv & Hj). unfold len in *.
      split_and!; [lia|lia|rewrite Hall by lia; done|]. intros j ?. rewrite Hall by lia. by apply Hj.
    + intros j ?. rewrite Hall by lia. by apply Hs.
Qed.

Lemma reference_lpm_ok routes key :
  fits BITS key → Forall route_ok routes →
  reference_lpm routes key = lpm (table_of empty_table routes) None (bits_of (Z.to_nat BITS) key).
Proof.
  intros Hk Hr. pose proof (reference_scan_ok routes key Hk Hr empty_table None) as Hs.
  cbv zeta in Hs. specialize (Hs ltac:(done)). unfold reference_lpm.
  destruct (reference_scan routes key None) as [[l v]|]; cbn [scan_ok] in Hs; simpl.
  - symmetry. apply lpm_spec. left. destruct Hs as (Hl & Hv & Hj). exists (Z.to_nat l).
    unfold len in Hl. split_and!; [lia|done|done].
  - destruct (lpm _ None _) as [v|] eqn:E; [|done]. apply lpm_spec in E as [(k & Hk' & Hv & _)|[? _]]; [|done].
    by rewrite Hs in Hv.
Qed.
End Routes.
