(* ===== verification/PoptrieValidate.v ===== *)
(** * The invariant checker of the longest-prefix-match table

    Soundness: a table that [validate_invariants] accepts never makes
    [lookup] read outside its arrays, whatever the key. Completeness: every
    table the builder emits is accepted, so the check in debug builds never
    fires. *)
From S2P Require Import Prelude Bits Poptrie PoptrieEmit PoptrieBuild PoptrieSpec.
Open Scope Z_scope.

Section ForEach.
Lemma for_each_ok {A} (f : Z → A → result unit InvariantError) i l :
  for_each f i l = Ok tt ↔ ∀ j x, nthZ l j = Some x → f (i + j) x = Ok tt.
Proof.
  revert i. induction l as [|y l IH]; intros i; simpl.
  { split; [|done]. intros _ j x Hj%nthZ_Some_range. unfold len in Hj. simpl in Hj. lia. }
  split.
  - destruct (f i y) as [[]|] eqn:E; simpl; [|done]. intros Hl j x Hj.
    apply nthZ_cons_inv in Hj as [[-> ->]|[Hj Hn]]; [by rewrite Z.add_0_r|].
    replace (i + j) with (i + 1 + (j - 1)) by lia. by apply (proj1 (IH _) Hl).
  - intros Hf. pose proof (Hf 0 y eq_refl) as H0. rewrite Z.add_0_r in H0. rewrite H0. simpl.
    apply IH. intros j x Hj. replace (i + 1 + j) with (i + (j + 1)) by lia. apply Hf.
    unfold nthZ in *. destruct (Z.ltb_spec j 0), (Z.ltb_spec (j + 1) 0); try (done || lia).
    by replace (Z.to_nat (j + 1)) with (S (Z.to_nat j)) by lia.
Qed.

Lemma slice_nth {A} (l : list A) a b k x :
  nthZ (default [] (slice l a b)) k = Some x → nthZ l (a + k) = Some x ∧ 0 ≤ k < b - a.
Proof.
  intros Hk. assert (Hr := nthZ_Some_range _ _ _ Hk). revert Hk Hr. unfold slice.
  destruct (_ && _) eqn:E; simpl; [|intros ? Hr; unfold len in Hr; simpl in Hr; lia].
  rewrite !andb_true_iff, !Z.leb_le in E. intros Hk Hr. unfold len in *.
  rewrite length_take, length_drop in Hr. split; [|lia].
  unfold nthZ in *. destruct (Z.ltb_spec k 0); [done|]. destruct (Z.ltb_spec (a + k) 0); [lia|].
  rewrite lookup_take_lt in Hk by lia. rewrite lookup_drop in Hk.
  by replace (Z.to_nat (a + k)) with (Z.to_nat a + Z.to_nat k)%nat by lia.
Qed.

Lemma slice_nth_back {A} (l : list A) a b k :
  0 ≤ a → a ≤ b → b ≤ len l → 0 ≤ k < b - a →
  nthZ (default [] (slice l a b)) k = nthZ l (a + k).
Proof.
  intros. unfold slice. case_bool; try lia. simpl. unfold nthZ.
  destruct (Z.ltb_spec k 0); [lia|]. destruct (Z.ltb_spec (a + k) 0); [lia|].
  rewrite lookup_take_lt by lia. rewrite lookup_drop. f_equal. lia.
Qed.
End ForEach.

(** ** The slot loop *)
Section Slots.
Lemma validate_slots_sound n : ∀ i node slot cov,
  0 ≤ slot → validate_slots n i node slot cov = Ok tt →
  (cov = true → 1 ≤ count_ones (Z.to_nat slot) (leafvec node)) →
  ∀ v, slot ≤ v < slot + Z.of_nat n → Z.testbit (vector node) v = false →
  1 ≤ count_ones (S (Z.to_nat v)) (leafvec node).
Proof.
  induction n as [|n IH]; intros i node slot cov Hs Hv Hc v Hr Hb; [lia|].
  cbn [validate_slots] in Hv. rewrite !land_bit_test in Hv by done.
  assert (Hnext : Z.to_nat (slot + 1) = S (Z.to_nat slot)) by lia.
  destruct (Z.testbit (vector node) slot) eqn:Ev.
  - destruct (decide (v = slot)) as [->|]; [congruence|].
    eapply (IH i node (slot + 1) false); [lia|done|done|lia|done].
  - set (cov' := if Z.testbit (leafvec node) slot then true else cov) in *.
    destruct cov' eqn:Ec; cbn [negb] in Hv; [|done].
    assert (Hcov : 1 ≤ count_ones (S (Z.to_nat slot)) (leafvec node)).
    { unfold cov' in Ec. simpl. rewrite Z2Nat.id by lia.
      pose proof (count_ones_nonneg (Z.to_nat slot) (leafvec node)).
      destruct (Z.testbit (leafvec node) slot); simpl Z.b2z; [lia|]. specialize (Hc Ec). lia. }
    destruct (decide (v = slot)) as [->|]; [done|].
    eapply (IH i node (slot + 1) true); [lia|done| |lia|done].
    intros _. by rewrite Hnext.
Qed.
End Slots.

(** ** Soundness *)
Section Sound.
Context {K : IpKey} {HK : IpKeyLaws K} {V : Type}.

(** The machine types of the table's arrays. *)
Definition node_typed (n : Node) : Prop :=
  fits 64 (vector n) ∧ fits 64 (leafvec n) ∧ fits 32 (base0 n) ∧ fits 32 (base1 n).
Definition table_typed (t : Poptrie V) : Prop :=
  Forall (fits 32) (direct t) ∧ Forall node_typed (nodes t) ∧ Forall (fits 32) (leaves t).

(** Node [i], reached after [d] strides, has been fully explored. *)
Definition closed (t : Poptrie V) (max : Z) (seen : list (option Z)) (i d : Z) : Prop :=
  0 ≤ d < max ∧ ∃ node, nthZ (nodes t) i = Some node ∧ (d + 1 = max → vector node = 0) ∧
    ∀ k, 0 ≤ k < count_ones 64 (vector node) → nthZ seen (base1 node + k) = Some (Some (d + 1)).

Definition mono (s s' : list (option Z)) : Prop :=
  ∀ i d, nthZ s i = Some (Some d) → nthZ s' i = Some (Some d).
Definition explored (t : Poptrie V) (max : Z) (s s' : list (option Z)) : Prop :=
  ∀ i d, nthZ s' i = Some (Some d) → nthZ s i = Some (Some d) ∨ closed t max s' i d.

Lemma closed_mono t max s s' i d : mono s s' → closed t max s i d → closed t max s' i d.
Proof. intros Hm (? & node & ? & ? & Hc). split; [done|]. exists node. split_and!; auto. Qed.

Lemma explored_trans t max s1 s2 s3 :
  mono s2 s3 → explored t max s1 s2 → explored t max s2 s3 → explored t max s1 s3.
Proof.
  intros Hm H1 H2 i d Hi. destruct (H2 i d Hi) as [Hi2|]; [|by right].
  destruct (H1 i d Hi2) as [|Hc]; [by left|]. right. by eapply closed_mono.
Qed.

Definition visit_spec (t : Poptrie V) (max d : Z)
    (f : Z → list (option Z) → outcome (result (list (option Z)) InvariantError)) : Prop :=
  ∀ c s s', f c s = Ret (Ok s') → mono s s' ∧ explored t max s s' ∧ nthZ s' c = Some (Some d).

Lemma for_children_sound t max d f n : visit_spec t max d f → ∀ c s s',
  for_children f n c s = Ret (Ok s') →
  mono s s' ∧ explored t max s s' ∧
  ∀ k, 0 ≤ k < Z.of_nat n → nthZ s' (c + k) = Some (Some d).
Proof.
  intros Hf. induction n as [|n IH]; intros c s s'; simpl.
  { intros [= ->]. split_and!; [by intros ?|by left|lia]. }
  destruct (f c s) as [[s1|]| | |] eqn:E; simpl; try done. intros Hs'.
  destruct (Hf _ _ _ E) as (Hm1 & He1 & Hc1). destruct (IH _ _ _ Hs') as (Hm2 & He2 & Hk2).
  split_and!.
  - intros i e Hi. auto.
  - by eapply explored_trans.
  - intros k Hk. destruct (decide (k = 0)) as [->|].
    + rewrite Z.add_0_r. auto.
    + replace (c + k) with (c + 1 + (k - 1)) by lia. apply Hk2. lia.
Qed.

Lemma visit_sound fuel : ∀ (t : Poptrie V) max d, 0 ≤ d →
  visit_spec t max d (λ c s, validate_reachable_node fuel t c d max s).
Proof.
  induction fuel as [|fuel IH]; intros t max d Hd c s s'; cbn [validate_reachable_node].
  all: destruct (Z.leb_spec max d); [done|].
  all: unfold index; destruct (nthZ s c) as [[seen|]|] eqn:Es; run; try done.
  1, 3: destruct (Z.eqb_spec seen d) as [->|]; [|done]; intros [= <-];
    split_and!; [by intros ?|by left|done].
  all: assert (Hr := nthZ_Some_range _ _ _ Es); rewrite set_index_ok by done; run.
  all: destruct (nthZ (nodes t) c) as [node|] eqn:En; run; try done.
  all: destruct (Z.eqb_spec (d + 1) max) as [Ed|Ed], (Z.eqb_spec (vector node) 0) as [Ev|Ev];
    cbn [andb negb]; try done.
  all: intros Hloop; apply (for_children_sound t max (d + 1)) in Hloop as (Hm & He & Hk);
    [|by apply IH; lia].
  all: assert (Hc : nthZ s' c = Some (Some d))
    by (apply Hm; rewrite nthZ_insert by done; by rewrite decide_True).
  all: split_and!; [|intros i e Hi; destruct (He i e Hi) as [Hi1|]; [|by right]|done].
  1, 3, 5: intros i e Hi; apply Hm; rewrite nthZ_insert by done; case_decide; [congruence|done].
  all: rewrite nthZ_insert in Hi1 by done; case_decide as Eic; [|by left].
  all: injection Hi1 as <-; subst i; right; split; [lia|]; exists node;
    split_and!; [done|done|]; intros k Hkr; apply Hk; lia.
Qed.

Lemma validate_reachable_sound (t : Poptrie V) max entries : ∀ s,
  validate_reachable t max entries s = Ret (Ok tt) → ∃ s', mono s s' ∧ explored t max s s' ∧
    ∀ e, e ∈ entries → Z.testbit e 31 = false → nthZ s' e = Some (Some 0).
Proof.
  induction entries as [|e entries IH]; intros s; cbn [validate_reachable].
  { intros _. exists s. split_and!; [by intros ?|by left|by intros ? ?%elem_of_nil]. }
  rewrite leaf_flag_test. destruct (Z.testbit e 31) eqn:Et.
  - intros (s' & ? & ? & Ha)%IH. exists s'. split_and!; [done..|].
    intros e' [->|He']%elem_of_cons; [congruence|auto].
  - destruct (validate_reachable_node _ t e 0 max s) as [[s1|]| | |] eqn:Ev; run; try done.
    intros (s' & Hm & He & Ha)%IH.
    apply (visit_sound _ t max 0 ltac:(lia) e s s1) in Ev as (Hm1 & He1 & Hc1).
    exists s'. split_and!; [intros ? ? ?; auto|by eapply explored_trans|].
    intros e' [->|He']%elem_of_cons; auto.
Qed.

(** What an accepted node guarantees to a lookup. *)
Definition node_checked (t : Poptrie V) (node : Node) : Prop :=
  base0 node + count_ones 64 (leafvec node) ≤ len (leaves t) ∧
  (∀ v, 0 ≤ v < 64 → Z.testbit (vector node) v = false →
     1 ≤ count_ones (S (Z.to_nat v)) (leafvec node)) ∧
  (∀ j e, 0 ≤ j < count_ones 64 (leafvec node) → nthZ (leaves t) (base0 node + j) = Some e →
     e = 0 ∨ e ≤ len (values t)).

Lemma validate_value_encoding_spec e n : validate_value_encoding e n = true ↔ e = 0 ∨ e ≤ n.
Proof. unfold validate_value_encoding. rewrite orb_true_iff, Z.eqb_eq, Z.leb_le. done. Qed.

Lemma validate_node_sound (t : Poptrie V) i node :
  0 ≤ base0 node → validate_node t i node = Ok tt → node_checked t node.
Proof.
  intros Hb0. unfold validate_node.
  destruct (negb (Z.land _ _ =? 0)); [done|]. destruct (len (nodes t) <? _); [done|].
  destruct (Z.ltb_spec (len (leaves t)) (base0 node + count_ones 64 (leafvec node))) as [|Hl]; [done|].
  destruct (validate_slots 64 i node 0 false) as [[]|] eqn:Es; cbn [result_bind]; [|done]. intros Hf.
  assert (Hc0 := count_ones_nonneg 64 (leafvec node)).
  split_and!; [done|..].
  - intros v Hv Hb. apply (validate_slots_sound 64 i node 0 false); [lia|done|done|lia|done].
  - intros j e Hj He. apply validate_value_encoding_spec.
    pose proof (proj1 (for_each_ok _ _ _) Hf j e) as Hfe. cbv beta in Hfe.
    rewrite slice_nth_back in Hfe by lia. specialize (Hfe He).
    destruct (validate_value_encoding e (len (values t))); done.
Qed.

Lemma nthZ_Forall {A} (Q : A → Prop) l i x : Forall Q l → nthZ l i = Some x → Q x.
Proof.
  intros HQ. unfold nthZ. destruct (i <? 0); [done|]. by apply Forall_lookup_1.
Qed.

(** From an explored node the loop of [lookup] returns a valid encoding. *)
Lemma lookup_loop_safe (t : Poptrie V) max seen DIRECT_BITS key :
  table_typed t → (∀ i node, nthZ (nodes t) i = Some node → node_checked t node) →
  (∀ i d, nthZ seen i = Some (Some d) → closed t max seen i d) →
  fits BITS key → 0 ≤ DIRECT_BITS → DIRECT_BITS + 6 * max ≤ BITS →
  ∀ n i d, Z.of_nat n = max - d → nthZ seen i = Some (Some d) →
  ∃ e, lookup_loop n (nodes t) (leaves t) key i (DIRECT_BITS + 6 * d) = Ret e ∧
    0 ≤ e ∧ (e = 0 ∨ e ≤ len (values t)).
Proof.
  intros (_ & Hnt & Hlt) Hchk Hcl Hk HD Hmax n. induction n as [|n IH]; intros i d Hn Hi.
  { destruct (Hcl _ _ Hi) as [? _]. lia. }
  destruct (Hcl _ _ Hi) as (Hd & node & Hnode & Hfin & Hch).
  destruct (nthZ_Forall _ _ _ _ Hnt Hnode) as (Hv64 & _ & Hb0 & Hb1).
  destruct (Hchk _ _ Hnode) as (Hl & Hcov & Henc). cbn [lookup_loop].
  rewrite (get_unchecked_Some _ _ _ Hnode). run. rewrite stride_spec by (done || unfold STRIDE; lia).
  run. set (v := Z.land _ 63).
  assert (Hv : 0 ≤ v < 64).
  { unfold v. change 63 with (Z.ones 6). rewrite Z.land_ones by lia. apply Z.mod_pos_bound. lia. }
  clearbody v. rewrite land_bit_test by lia. assert (HvN : v = Z.of_nat (Z.to_nat v)) by lia.
  destruct (Z.testbit (vector node) v) eqn:Eb.
  - assert (Hc := count_ones_below 64 (Z.to_nat v) (vector node) ltac:(lia)). rewrite <-HvN in Hc.
    rewrite Hc. replace (DIRECT_BITS + 6 * d + STRIDE) with (DIRECT_BITS + 6 * (d + 1))
      by (unfold STRIDE; lia).
    apply IH; [lia|]. apply Hch. split; [apply count_ones_nonneg|].
    apply count_ones_strict; [lia|by rewrite <-HvN].
  - assert (Hc := count_ones_upto 64 (Z.to_nat v) (leafvec node) ltac:(lia)). rewrite <-HvN in Hc.
    rewrite Hc. specialize (Hcov v Hv Eb). destruct (Z.leb_spec 1 (count_ones (S (Z.to_nat v)) (leafvec node))); [|lia].
    pose proof (count_ones_mono (S (Z.to_nat v)) 64 (leafvec node) ltac:(lia)) as Hm.
    unfold fits in Hb0.
    destruct (nthZ_is_Some (leaves t) (base0 node + count_ones (S (Z.to_nat v)) (leafvec node) - 1))
      as [e He]; [lia|].
    exists e. rewrite (get_unchecked_Some _ _ _ He). split; [done|].
    split; [by apply (nthZ_Forall _ _ _ _ Hlt He)|].
    apply (Henc (count_ones (S (Z.to_nat v)) (leafvec node) - 1)); [lia|]. by rewrite Z.add_sub_assoc.
Qed.

Lemma value_safe (vals : list V) e :
  0 ≤ e → e = 0 ∨ e ≤ len vals → ∃ r, value vals e = Ret r.
Proof. intros ? ?. eexists. apply value_ok. unfold enc_ok. pose proof (len_nonneg vals). lia. Qed.

Lemma lookup_loop_fuel n m ns ls key i o e :
  lookup_loop n ns ls key i o = Ret e → (n ≤ m)%nat → lookup_loop m ns ls key i o = Ret e.
Proof.
  revert m i o. induction n as [|n IH]; intros m i o; [done|]. destruct m as [|m]; [lia|].
  cbn [lookup_loop]. intros (node & -> & (v & -> & Hb)%bind_ret_inv)%bind_ret_inv ?. run.
  destruct (negb _); [|done]. apply IH; [done|lia].
Qed.

(** The phases of a successful check. *)
Lemma validate_invariants_inv DIRECT_BITS (t : Poptrie V) :
  validate_invariants DIRECT_BITS t = Ret (Ok tt) →
  DIRECT_BITS < 64 ∧ len (direct t) = Z.shiftl 1 DIRECT_BITS ∧
  (∀ i e, nthZ (direct t) i = Some e → validate_direct_entry t i e = Ok tt) ∧
  (∀ i node, nthZ (nodes t) i = Some node → validate_node t i node = Ok tt) ∧
  validate_reachable t ((BITS - DIRECT_BITS) / STRIDE) (direct t)
    (replicate (length (nodes t)) None) = Ret (Ok tt).
Proof.
  unfold validate_invariants. destruct (Z.ltb_spec DIRECT_BITS 64); cbn [negb]; [|done].
  destruct (Z.eqb_spec (len (direct t)) (Z.shiftl 1 DIRECT_BITS)); cbn [negb]; [|done].
  destruct (for_each (validate_direct_entry t) 0 (direct t)) as [[]|] eqn:Ed; cbn [result_bind]; [|done].
  destruct (for_each (validate_node t) 0 (nodes t)) as [[]|] eqn:En; [|done].
  intros Hr. split_and!; [done|done| | |done].
  - intros i x Hi. by apply (proj1 (for_each_ok _ 0 _) Ed).
  - intros i nd Hi. by apply (proj1 (for_each_ok _ 0 _) En).
Qed.

Lemma validate_lookup_safe DIRECT_BITS (t : Poptrie V) key :
  table_typed t → 1 ≤ DIRECT_BITS ≤ BITS → validate_invariants DIRECT_BITS t = Ret (Ok tt) →
  fits BITS key → ∃ r, lookup DIRECT_BITS t key = Ret r.
Proof.
  intros Ht HD Hval Hk.
  apply validate_invariants_inv in Hval as (HD64 & Hdl & Hde & Hnd & Hreach).
  destruct (direct_bits key DIRECT_BITS Hk ltac:(lia) ltac:(lia)) as [Hdi _].
  rewrite Z.shiftl_1_l in Hdl. unfold lookup.
  destruct (nthZ_is_Some (direct t) (direct_index key DIRECT_BITS)) as [entry He]; [lia|].
  rewrite (get_unchecked_Some _ _ _ He). run.
  specialize (Hde _ _ He). unfold validate_direct_entry in Hde.
  destruct (negb (Z.land entry LEAF_FLAG =? 0)) eqn:Ef.
  - destruct (validate_value_encoding _ _) eqn:Ee in Hde; [|done].
    apply validate_value_encoding_spec in Ee. apply value_safe; [|done].
    apply Z.land_nonneg. right. done.
  - rewrite leaf_flag_test in Ef.
    destruct (validate_reachable_sound _ _ _ _ Hreach) as (seen & _ & Hex & Hin).
    assert (Hcl : ∀ i d, nthZ seen i = Some (Some d) →
      closed t ((BITS - DIRECT_BITS) / STRIDE) seen i d).
    { intros i d Hi. destruct (Hex i d Hi) as [Hn|]; [|done].
      assert (Hr := nthZ_Some_range _ _ _ Hn). unfold len in Hr. rewrite length_replicate in Hr.
      rewrite nthZ_replicate in Hn by lia. done. }
    assert (Hseen : nthZ seen entry = Some (Some 0)).
    { apply Hin; [|done]. apply nthZ_elem_of. eauto. }
    assert (Hb0 : ∀ i node, nthZ (nodes t) i = Some node → node_checked t node).
    { intros i node Hi. apply (validate_node_sound t i); [|auto].
      destruct Ht as (_ & Hnt & _). destruct (nthZ_Forall _ _ _ _ Hnt Hi) as (_ & _ & [? _] & _). done. }
    unfold STRIDE in Hcl. pose proof (Z.mul_div_le (BITS - DIRECT_BITS) 6 ltac:(lia)) as Hq.
    assert (0 ≤ (BITS - DIRECT_BITS) / 6) by (apply Z.div_pos; lia).
    destruct (lookup_loop_safe t _ seen DIRECT_BITS key Ht Hb0 Hcl Hk ltac:(lia) ltac:(lia)
      (Z.to_nat ((BITS - DIRECT_BITS) / 6)) entry 0 ltac:(lia) Hseen) as (e & Hl & He0 & Hev).
    rewrite Z.add_0_r in Hl. rewrite (lookup_loop_fuel _ (Z.to_nat BITS) _ _ _ _ _ _ Hl) by lia. run.
    by apply value_safe.
Qed.
End Sound.

(** ** Completeness *)
Section Complete.
Context {K : IpKey} {HK : IpKeyLaws K} {V : Type}.

(** The depths recorded so far agree with the ghost array of the emitter. *)
Definition seen_ok (h : nat) (ns : list Node) (ds : list nat) (seen : list (option Z)) : Prop :=
  len seen = len ns ∧
  ∀ i d, nthZ seen i = Some (Some d) → ∃ k, nthZ ds i = Some k ∧ Z.of_nat k = Z.of_nat h - d.

Lemma nrep_vector_last bn ns ls ds D idx id inh node :
  nrep bn 1 ns ls ds D idx id inh → nthZ ns idx = Some node → fits 64 (vector node) →
  vector node = 0.
Proof.
  intros (_ & _ & node' & Hn & Hs) Hn' Hf. rewrite Hn in Hn'. injection Hn' as ->.
  apply Z.bits_inj'. intros i Hi. rewrite Z.bits_0. destruct (decide (i < 64)) as [Hlt|].
  - destruct (Hs i ltac:(lia)) as ([c e|v] & _ & Hm); [|by destruct Hm]. by destruct Hm.
  - apply (fits_testbit 64); done || lia.
Qed.

Lemma nrep_child bn h ns ls ds D idx id inh node k :
  nrep bn (S h) ns ls ds D idx id inh → nthZ ns idx = Some node →
  0 ≤ k < count_ones 64 (vector node) → ∃ c e, nrep bn h ns ls ds D (base1 node + k) c e.
Proof.
  intros (_ & _ & node' & Hn & Hs) Hn' Hk. rewrite Hn in Hn'. injection Hn' as ->.
  destruct (count_ones_select _ _ _ Hk) as (j & Hj & Hb & Hc).
  destruct (Hs (Z.of_nat j) ltac:(lia)) as ([c e|v] & _ & Hm); [|destruct Hm; congruence].
  rewrite Nat2Z.id, Hc in Hm. exists c, e. by destruct Hm.
Qed.

Lemma for_children_complete {S} (I : S → Prop) f n : ∀ c s,
  I s → (∀ k s, 0 ≤ k < Z.of_nat n → I s → ∃ s', f (c + k) s = Ret (Ok s') ∧ I s') →
  ∃ s', for_children f n c s = Ret (Ok s') ∧ I s'.
Proof.
  induction n as [|n IH]; intros c s Hs Hf; simpl; [by exists s|].
  destruct (Hf 0 s ltac:(lia) Hs) as (s1 & E & Hs1). rewrite Z.add_0_r in E. rewrite E. run.
  apply IH; [done|]. intros k s2 Hk Hs2. destruct (Hf (k + 1) s2) as (s' & E' & ?); [lia|done|].
  exists s'. by replace (c + 1 + k) with (c + (k + 1)) by lia.
Qed.

Lemma visit_complete H bn (t : Poptrie V) ds h : ∀ fuel idx id inh seen,
  wf_on (nodes t) (leaves t) (λ i, 0 ≤ i < len (nodes t)) →
  nrep bn h (nodes t) (leaves t) ds (λ i, 0 ≤ i < len (nodes t)) idx id inh →
  (h ≤ fuel)%nat → (h ≤ H)%nat → seen_ok H (nodes t) ds seen →
  ∃ seen', validate_reachable_node fuel t idx (Z.of_nat H - Z.of_nat h) (Z.of_nat H) seen
           = Ret (Ok seen') ∧ seen_ok H (nodes t) ds seen'.
Proof.
  induction h as [|h IH]; intros fuel idx id inh seen Hwf Hr Hfu HhH [Hlen Hseen]; [done|].
  pose proof Hr as (Hidx & Hds & node & Hn & Hs). destruct fuel as [|fuel]; [lia|].
  cbn [validate_reachable_node]. destruct (Z.leb_spec (Z.of_nat H) (Z.of_nat H - Z.of_nat (S h))); [lia|].
  destruct (nthZ_is_Some seen idx) as [[d|] Hd]; [lia|..].
  all: rewrite (index_Some _ _ _ Hd); run.
  { destruct (Hseen _ _ Hd) as (k & Hk & Hkd). rewrite Hds in Hk. injection Hk as <-.
    destruct (Z.eqb_spec d (Z.of_nat H - Z.of_nat (S h))); [|lia]. by exists seen. }
  rewrite set_index_ok by lia. run. rewrite (index_Some _ _ _ Hn). run.
  assert (Hnw := Hwf idx node Hidx Hn).
  assert (Hlast : (Z.of_nat H - Z.of_nat (S h) + 1 =? Z.of_nat H) && negb (vector node =? 0) = false).
  { destruct (Z.eqb_spec (Z.of_nat H - Z.of_nat (S h) + 1) (Z.of_nat H)); [|done].
    assert (h = O) by lia. subst h.
    rewrite (nrep_vector_last _ _ _ _ _ _ _ _ _ Hr Hn (nw_vector _ _ _ Hnw)). done. }
  rewrite Hlast. replace (Z.of_nat H - Z.of_nat (S h) + 1) with (Z.of_nat H - Z.of_nat h) by lia.
  apply for_children_complete.
  - split; [by rewrite len_insert|]. intros i d. rewrite nthZ_insert by lia. case_decide; [|apply Hseen].
    intros [= <-]. subst. exists (S h). split; [done|lia].
  - intros k s Hk Hs'. destruct (nrep_child _ _ _ _ _ _ _ _ _ _ k Hr Hn) as (c & e & Hc).
    { pose proof (count_ones_nonneg 64 (vector node)). lia. }
    apply (IH fuel _ c e s); done || lia.
Qed.

Lemma validate_reachable_complete H bn (t : Poptrie V) ds entries : ∀ seen,
  wf_on (nodes t) (leaves t) (λ i, 0 ≤ i < len (nodes t)) →
  (∀ e, e ∈ entries → Z.testbit e 31 = true ∨
     ∃ id inh, nrep bn H (nodes t) (leaves t) ds (λ i, 0 ≤ i < len (nodes t)) e id inh) →
  seen_ok H (nodes t) ds seen →
  validate_reachable t (Z.of_nat H) entries seen = Ret (Ok tt).
Proof.
  induction entries as [|e entries IH]; intros seen Hwf He Hs; cbn [validate_reachable]; [done|].
  rewrite leaf_flag_test. destruct (Z.testbit e 31) eqn:Et.
  - apply IH; [done| |done]. intros e' ?. apply He. by right.
  - destruct (He e ltac:(by left)) as [?|(id & inh & Hr)]; [congruence|].
    rewrite Nat2Z.id.
    destruct (visit_complete H bn t ds H H e id inh seen) as (s' & Hv & Hs'); [done|done|lia|lia|done|].
    rewrite Z.sub_diag in Hv. rewrite Hv. run. apply IH; [done| |done]. intros e' ?. apply He. by right.
Qed.

Lemma validate_node_complete (t : Poptrie V) i node :
  node_wf (len (nodes t)) (len (leaves t)) node → Forall (enc_ok (values t)) (leaves t) →
  validate_node t i node = Ok tt.
Proof.
  intros [_ _ Hd Hb0 Hb1 Hc Hl Hcov] Hlv. unfold validate_node. rewrite Hd.
  change (negb (0 =? 0)) with false. cbn match zeta.
  destruct (Z.ltb_spec (len (nodes t)) (base1 node + count_ones 64 (vector node))); [lia|].
  destruct (Z.ltb_spec (len (leaves t)) (base0 node + count_ones 64 (leafvec node))); [lia|].
  rewrite Hcov. cbn [result_bind]. apply for_each_ok. intros j e [Hj _]%slice_nth.
  destruct (nthZ_Forall _ _ _ _ Hlv Hj) as [? ?].
  rewrite (proj2 (validate_value_encoding_spec e (len (values t)))); [done|by right].
Qed.

Lemma built_valid DIRECT_BITS h bn ds (t : Poptrie V) :
  built DIRECT_BITS h bn ds t → validate_invariants DIRECT_BITS t = Ret (Ok tt).
Proof.
  intros [HB HD Hdl Hv Hn Hwf Hlv Henc Hent].
  change VALUE_MASK with (2 ^ 31 - 1) in Hv. change LEAF_FLAG with (2 ^ 31) in Hn.
  unfold validate_invariants. destruct (Z.ltb_spec DIRECT_BITS 64); [|lia].
  rewrite Hdl, Z.shiftl_1_l, Z.eqb_refl. cbn [negb].
  assert (Hd : for_each (validate_direct_entry t) 0 (direct t) = Ok tt).
  { apply for_each_ok. intros j e Hj. assert (Hr := nthZ_Some_range _ _ _ Hj). rewrite Hdl in Hr.
    destruct (Hent j Hr) as (e' & He' & Hde). rewrite Hj in He'. injection He' as <-.
    unfold validate_direct_entry. rewrite leaf_flag_test.
    destruct Hde as [(v & -> & [? ?] & _)|(id & e' & Hrep & _)].
    - rewrite leaf_entry_test, leaf_entry_value by (unfold fits; lia).
      rewrite (proj2 (validate_value_encoding_spec v (len (values t)))); [done|by right].
    - destruct h; [done|]. destruct Hrep as [Hi _].
      rewrite node_entry_test by (unfold fits; lia). by destruct (Z.leb_spec (len (nodes t)) e); [lia|]. }
  assert (Hnodes : for_each (validate_node t) 0 (nodes t) = Ok tt).
  { apply for_each_ok. intros j node Hj. apply validate_node_complete; [|done].
    apply (Hwf j); [by eapply nthZ_Some_range|done]. }
  rewrite Hd. cbn [result_bind]. rewrite Hnodes.
  replace ((BITS - DIRECT_BITS) / STRIDE) with (Z.of_nat h)
    by (unfold STRIDE; rewrite HB; replace (DIRECT_BITS + 6 * Z.of_nat h - DIRECT_BITS)
          with (Z.of_nat h * 6) by lia; by rewrite Z.div_mul).
  apply (validate_reachable_complete h bn t ds); [done|..].
  - intros e [j Hj]%nthZ_elem_of. assert (Hr := nthZ_Some_range _ _ _ Hj). rewrite Hdl in Hr.
    destruct (Hent j Hr) as (e' & He' & Hde). rewrite Hj in He'. injection He' as <-.
    destruct Hde as [(v & -> & _)|(id & e' & Hrep & _)]; [left; apply leaf_entry_test|right; eauto].
  - split; [unfold len; by rewrite length_replicate|]. intros i d Hi.
    assert (Hr := nthZ_Some_range _ _ _ Hi). unfold len in Hr. rewrite length_replicate in Hr.
    by rewrite nthZ_replicate in Hi by lia.
Qed.
End Complete.
