(* ===== verification/PoptrieMain.v ===== *)
(** * Properties of the longest-prefix-match table

    The end-to-end statements about [crates/poptrie], for every key type that
    satisfies [IpKeyLaws] (both implementations of the source do), with
    witnesses on concrete IPv4 and IPv6 tables. *)
From S2P Require Import Prelude Bits Poptrie PoptrieEmit PoptrieBuild PoptrieSpec PoptrieValidate.
Open Scope Z_scope.

Section Main.
Context {K : IpKey} {HK : IpKeyLaws K} {V : Type} `{Countable V}.

(** Size bounds under which the 31-bit indices of the table suffice. The
    binary trie has at most one node per prefix bit plus the root, and each
    of its nodes accounts for at most one table node and 64 leaves. *)
Definition routes_fit (routes : list (Z * Z * V)) : Prop :=
  Forall route_ok routes ∧ 64 * (1 + total_bits routes) < 2 ^ 31 ∧ len routes < VALUE_MASK.

Lemma insert_all_new routes :
  routes_fit routes → ∃ b, insert_all builder_new routes = Ret b ∧
    brep b (table_of empty_table routes) ∧
    64 * len (bin b) < 2 ^ 31 ∧ len (bvalues b) < VALUE_MASK.
Proof.
  intros (Hr & Hb & Hv). change VALUE_MASK with (2 ^ 31 - 1) in *.
  destruct (insert_all_ok routes Hr builder_new empty_table) as (b & E & Hb' & Hn & Hl).
  - apply builder_new_ok.
  - simpl. unfold len. simpl. lia.
  - simpl. unfold len in *. simpl. lia.
  - exists b. simpl in Hn, Hl. unfold len in *. simpl in Hn, Hl. split_and!; try done; lia.
Qed.

Lemma build_ok routes DIRECT_BITS :
  routes_fit routes → valid_direct_bits DIRECT_BITS →
  ∃ b h bn ds t, insert_all builder_new routes = Ret b ∧ build DIRECT_BITS b = Ret t ∧
    built DIRECT_BITS h bn ds t ∧ NoDup (values t) ∧
    (∀ v, v ∈ values t ↔ ∃ p, table_of empty_table routes p = Some v) ∧
    ∀ p, dec (values t) (pval bn (Some 0) p) = table_of empty_table routes p.
Proof.
  intros Hr HD. destruct (insert_all_new routes Hr) as (b & E & Hb & Hn & Hv).
  destruct (build_release_built DIRECT_BITS b _ Hb HD Hn Hv) as (h & bn & ds & t & Et & Hbt & Hnd & Hlv & Hval).
  exists b, h, bn, ds, t. split_and!; try done. unfold build. rewrite Et. run.
  by rewrite (built_valid _ _ _ _ _ Hbt).
Qed.
End Main.

(** C1. Longest-prefix match, end to end: for every list of routes whose
    prefix lengths are within the key width and whose size fits the 31-bit
    indices, and every direct width the builder accepts, inserting the routes
    and building the table returns (no assertion fires, the debug-only
    invariant check included), and the table's lookup of every key returns
    exactly what the exhaustive scan of the routes returns: the value of the
    most specific matching prefix, the last one inserted for equal prefixes. *)
Theorem poptrie_lookup_correct {K : IpKey} {HK : IpKeyLaws K} {V : Type} `{Countable V}
    (DIRECT_BITS : Z) (routes : list (Z * Z * V)) :
  routes_fit routes → valid_direct_bits DIRECT_BITS →
  ∃ b t, insert_all builder_new routes = Ret b ∧ build DIRECT_BITS b = Ret t ∧
    ∀ key, fits BITS key → lookup DIRECT_BITS t key = Ret (reference_lpm routes key).
Proof.
  intros Hr HD. destruct (build_ok routes DIRECT_BITS Hr HD)
    as (b & h & bn & ds & t & Eb & Et & Hbt & _ & _ & Hval).
  exists b, t. split_and!; [done|done|]. intros key Hk.
  rewrite (built_lookup _ _ _ _ _ _ Hbt Hk), reference_lpm_ok by (done || apply Hr).
  destruct (walk_lpm (values t) bn (bits_of (Z.to_nat BITS) key) (bt_enc _ _ _ _ _ Hbt) (Some 0) 0) as [-> _].
  { pose proof (len_nonneg (values t)). unfold enc_ok. lia. }
  f_equal. by apply lpm_ext.
Qed.

(** 10.0.0.0/8, 10.1.0.0/16, 10.1.2.3/32, a default route and a replacement. *)
Definition demo_routes : list (Z * Z * Z) :=
  [(167772160, 8, 1); (167837696, 16, 2); (167838211, 32, 3); (0, 0, 4); (167772160, 8, 5)].

Lemma demo_routes_fit : @routes_fit u32_key Z demo_routes.
Proof.
  split; [|split; reflexivity].
  repeat constructor; vm_compute; done.
Defined.

Lemma valid_14_v4 : @valid_direct_bits u32_key 14.
Proof. split; [lia|]. split; reflexivity. Defined.

Lemma poptrie_lookup_correct_witness :
  ∃ b t, insert_all (K := u32_key) builder_new demo_routes = Ret b ∧
    build (K := u32_key) 14 b = Ret t ∧
    ∀ key, fits 32 key → lookup 14 t key = Ret (reference_lpm demo_routes key).
Proof. exact (poptrie_lookup_correct 14 demo_routes demo_routes_fit valid_14_v4). Defined.

(** C19. The checker is sound: for any table whose arrays hold values of their
    machine types, if [validate_invariants] accepts it then the lookup of
    every key returns: no unchecked access of the direct array, nodes, leaves
    or values is out of range, the stride never reads past the key, and the
    descent ends. *)
Theorem validate_invariants_sound {K : IpKey} {HK : IpKeyLaws K} {V : Type}
    (DIRECT_BITS : Z) (t : Poptrie V) (key : Z) :
  table_typed t → 1 ≤ DIRECT_BITS ≤ BITS → validate_invariants DIRECT_BITS t = Ret (Ok tt) →
  fits BITS key → ∃ r, lookup DIRECT_BITS t key = Ret r.
Proof. apply validate_lookup_safe. Qed.

(** A two-stride table over a 12-bit-tiled suffix, written by hand. *)
Definition tiny_table : Poptrie Z :=
  mkPoptrie (replicate 1 0 ++ replicate (Z.to_nat 16383) (Z.lor LEAF_FLAG 1))
    [mkNode 1 2 0 1; mkNode 0 1 1 2] [1; 2] [10; 20].

Lemma validate_invariants_sound_witness :
  ∃ r, lookup (K := u32_key) 14 tiny_table 5 = Ret r.
Proof.
  apply validate_invariants_sound.
  - split; [|split].
    + apply Forall_app. split; apply Forall_replicate; vm_compute; done.
    + repeat constructor; vm_compute; done.
    + repeat constructor; vm_compute; done.
  - vm_compute. split; discriminate.
  - vm_compute. reflexivity.
  - vm_compute. split; [discriminate|reflexivity].
Defined.

(** The builder's value table is minimal: after compaction it holds no
    duplicates, and exactly the values some prefix still maps to, so a value
    that later insertions replaced everywhere is gone. *)
Theorem build_values_live {K : IpKey} {HK : IpKeyLaws K} {V : Type} `{Countable V}
    (DIRECT_BITS : Z) (routes : list (Z * Z * V)) :
  routes_fit routes → valid_direct_bits DIRECT_BITS →
  ∃ b t, insert_all builder_new routes = Ret b ∧ build DIRECT_BITS b = Ret t ∧
    NoDup (values t) ∧ ∀ v, v ∈ values t ↔ ∃ p, table_of empty_table routes p = Some v.
Proof.
  intros Hr HD. destruct (build_ok routes DIRECT_BITS Hr HD)
    as (b & h & bn & ds & t & Eb & Et & _ & Hnd & Hlv & _).
  exists b, t. done.
Qed.

Lemma build_values_live_witness :
  ∃ b t, insert_all (K := u32_key) builder_new demo_routes = Ret b ∧
    build (K := u32_key) 14 b = Ret t ∧
    NoDup (values t) ∧ ∀ v, v ∈ values t ↔ ∃ p, table_of (K := u32_key) empty_table demo_routes p = Some v.
Proof. exact (build_values_live 14 demo_routes demo_routes_fit valid_14_v4). Defined.

(** Rejections: [insert] panics exactly on prefixes longer than the key,
    and [build] panics, whatever was inserted, on a direct width that is zero,
    not below the key width, or leaves a remainder of the 6-bit stride. *)
Theorem builder_rejections {K : IpKey} {HK : IpKeyLaws K} {V : Type} `{Countable V}
    (b : PoptrieBuilder V) (T : list bool → option V) (prefix prefix_len DIRECT_BITS : Z) (v : V) :
  brep b T → 0 ≤ prefix_len → len (bin b) + prefix_len ≤ 2 ^ 32 → len (bvalues b) < 2 ^ 32 - 1 →
  (insert b prefix prefix_len v = Panic ↔ BITS < prefix_len) ∧
  (DIRECT_BITS < 1 ∨ BITS ≤ DIRECT_BITS ∨ (BITS - DIRECT_BITS) mod STRIDE ≠ 0 →
   build DIRECT_BITS b = Panic).
Proof.
  intros Hb Hl Hn Hv. split.
  - split.
    + intros Hp. destruct (decide (prefix_len ≤ BITS)); [|lia].
      destruct (insert_ok b T prefix prefix_len v Hb) as (b' & E & _); [lia|done|done|congruence].
    + intros ?. unfold insert. case_bool; [lia|done].
  - intros HD. unfold build, build_release. case_bool; cbn [andb]; try done; lia.
Qed.

Lemma builder_rejections_witness :
  (insert (K := u32_key) (builder_new (V := Z)) 0 33 7 = Panic ↔ 32 < 33) ∧
  (15 < 1 ∨ 32 ≤ 15 ∨ (32 - 15) mod STRIDE ≠ 0 →
   build (K := u32_key) 15 (builder_new (V := Z)) = Panic).
Proof.
  apply (builder_rejections (K := u32_key) builder_new empty_table 0 33 15 7).
  - apply builder_new_ok.
  - lia.
  - vm_compute. discriminate.
  - vm_compute. reflexivity.
Defined.
