(* ===== verification/Ring.v ===== *)
(** * AF_XDP rings: [ring.rs] and the ring operations of [raw_socket.rs]

    A ring is a descriptor array shared with the kernel and two 32-bit
    indices that only ever grow, modulo 2^32. The userspace cursors cache both
    indices. The files models each cursor operation and each ring operation
    of [RawXdpSocket]; the two step relations interleave them with the
    kernel's side of the ring. *)
From S2P Require Import Prelude Bits.
Open Scope Z_scope.

Record XdpDesc := mkXdpDesc {
  xd_addr : Z;
  xd_len : Z;
  xd_options : Z;
}.

Record RingRange := mkRange {
  rg_start : Z;
  rg_count : Z;
}.
Definition RingRange_default : RingRange := mkRange 0 0.
Definition range_is_empty (r : RingRange) : bool := rg_count r =? 0.

(** The shared mapping: both indices, the flags word, the descriptors. *)
Record RingMem (A : Type) := mkRing {
  producer : Z;
  consumer : Z;
  flags : Z;
  desc : list A;
}.
Arguments mkRing {A} _ _ _ _.
Arguments producer {A} _.
Arguments consumer {A} _.
Arguments flags {A} _.
Arguments desc {A} _.

Definition XDP_RING_NEED_WAKEUP : Z := 1.
Definition needs_wakeup {A} (m : RingMem A) : bool :=
  negb (Z.land (flags m) XDP_RING_NEED_WAKEUP =? 0).

(** The length [mmap_ring] maps: the furthest end of its four components. *)
Definition mmap_ring_len (off_producer off_consumer off_flags off_desc desc_len : Z) : Z :=
  Z.max (off_producer + 4) (Z.max (off_consumer + 4) (Z.max (off_flags + 4) (off_desc + desc_len))).

(** ** The producer cursor *)
Record RingProducer := mkProducer {
  p_cached_producer : Z;
  p_cached_consumer : Z;
  p_size : Z;
}.
Definition producer_new (size : Z) : RingProducer := mkProducer 0 0 size.

Definition producer_sync {A} (p : RingProducer) (m : RingMem A) (load_producer : bool) : RingProducer :=
  mkProducer (if load_producer then producer m else p_cached_producer p) (consumer m) (p_size p).

Definition in_flight (p : RingProducer) : Z :=
  wrapping_sub 32 (p_cached_producer p) (p_cached_consumer p).

Definition produce {A} (p : RingProducer) (m : RingMem A) : option Z * RingProducer :=
  let take p :=
    (Some (p_cached_producer p),
     mkProducer (wrapping_add 32 (p_cached_producer p) 1) (p_cached_consumer p) (p_size p)) in
  if p_size p <=? in_flight p then
    let p := producer_sync p m false in
    if p_size p <=? in_flight p then (None, p) else take p
  else take p.

(** [available], with its [debug_assert]. *)
Definition producer_available (p : RingProducer) : outcome Z :=
  assert! in_flight p <=? p_size p;
  Ret (p_size p - in_flight p).

Definition produce_many {A} (p : RingProducer) (m : RingMem A) (wanted : Z) :
    outcome (RingRange * RingProducer) :=
  if wanted =? 0 then Ret (RingRange_default, p)
  else
    available ← producer_available p;
    '(p, available) ←
      (if available <? wanted then
         let p := producer_sync p m false in
         available ← producer_available p; Ret (p, available)
       else Ret (p, available));
    let count := Z.min wanted available in
    Ret (mkRange (p_cached_producer p) count,
         mkProducer (wrapping_add 32 (p_cached_producer p) count) (p_cached_consumer p) (p_size p)).

Definition commit {A} (p : RingProducer) (m : RingMem A) : RingMem A :=
  mkRing (p_cached_producer p) (consumer m) (flags m) (desc m).

(** ** The consumer cursor *)
Record RingConsumer := mkConsumer {
  c_cached_producer : Z;
  c_cached_consumer : Z;
}.
Definition consumer_new : RingConsumer := mkConsumer 0 0.

Definition consumer_sync {A} (c : RingConsumer) (m : RingMem A) : RingConsumer :=
  mkConsumer (producer m) (c_cached_consumer c).

Definition consumer_available (c : RingConsumer) : Z :=
  wrapping_sub 32 (c_cached_producer c) (c_cached_consumer c).

Definition consume {A} (c : RingConsumer) (m : RingMem A) : option Z * RingConsumer :=
  let take c :=
    (Some (c_cached_consumer c),
     mkConsumer (c_cached_producer c) (wrapping_add 32 (c_cached_consumer c) 1)) in
  if c_cached_consumer c =? c_cached_producer c then
    let c := consumer_sync c m in
    if c_cached_consumer c =? c_cached_producer c then (None, c) else take c
  else take c.

Definition consume_many {A} (c : RingConsumer) (m : RingMem A) (wanted : Z) :
    RingRange * RingConsumer :=
  if wanted =? 0 then (RingRange_default, c)
  else
    let available := consumer_available c in
    let '(c, available) :=
      if available <? wanted then
        let c := consumer_sync c m in (c, consumer_available c)
      else (c, available) in
    let count := Z.min wanted available in
    (mkRange (c_cached_consumer c) count,
     mkConsumer (c_cached_producer c) (wrapping_add 32 (c_cached_consumer c) count)).

Definition release {A} (c : RingConsumer) (m : RingMem A) : RingMem A :=
  mkRing (producer m) (c_cached_consumer c) (flags m) (desc m).

(** ** Ring copies *)

(** [ptr::copy_nonoverlapping] into the ring: undefined past its end. *)
Definition copy_into {A} (ring : list A) (at_ : Z) (src : list A) : outcome (list A) :=
  if (0 <=? at_) && (at_ + len src <=? len ring) then Ret (write_at ring at_ src) else UB.

(** [ptr::copy_nonoverlapping] out of the ring. *)
Definition copy_out {A} (ring : list A) (at_ n : Z) : outcome (list A) :=
  match slice ring at_ (at_ + n) with
  | Some l => Ret l
  | None => UB
  end.

Fixpoint copy_slice_loop {A} (fuel : nat) (ring : list A) (size start copied : Z) (src : list A) :
    outcome (list A) :=
  if copied <? len src then
    match fuel with
    | O => Diverge
    | S fuel =>
      let ring_index := Z.land (wrapping_add 32 start (u32 copied)) (size - 1) in
      let chunk := Z.min (len src - copied) (size - ring_index) in
      ring ← copy_into ring ring_index
               (take (Z.to_nat chunk) (drop (Z.to_nat copied) src));
      copy_slice_loop fuel ring size start (copied + chunk) src
    end
  else Ret ring.

Definition copy_slice_to_ring {A} (ring : list A) (size start : Z) (src : list A) : outcome (list A) :=
  assert! is_power_of_two size;
  copy_slice_loop (length src) ring size start 0 src.

Fixpoint copy_ring_loop {A} (fuel : nat) (ring : list A) (size start count copied : Z) (out : list A) :
    outcome (list A) :=
  if copied <? count then
    match fuel with
    | O => Diverge
    | S fuel =>
      let ring_index := Z.land (wrapping_add 32 start (u32 copied)) (size - 1) in
      let chunk := Z.min (count - copied) (size - ring_index) in
      l ← copy_out ring ring_index chunk;
      copy_ring_loop fuel ring size start count (copied + chunk) (out ++ l)
    end
  else Ret out.

(** [cap] is the capacity of the destination vector. *)
Definition copy_ring_to_vec {A} (ring : list A) (size : Z) (range : RingRange) (cap : Z) (out : list A) :
    outcome (list A) :=
  assert! is_power_of_two size;
  assert! rg_count range <=? saturating_sub cap (len out);
  copy_ring_loop (Z.to_nat (rg_count range)) ring size (rg_start range) (rg_count range) 0 out.

(** ** Ring operations of [RawXdpSocket] *)
Record RingSizes := mkSizes {
  sz_fill : Z;
  sz_completion : Z;
  sz_rx : Z;
  sz_tx : Z;
}.
Definition RingSizes_default : RingSizes := mkSizes 2048 2048 2048 2048.

Inductive ring_name := RFill | RCompletion | RRx | RTx.
Inductive ring_error := NotPowerOfTwo (r : ring_name) (size : Z) | PrefillExceeds (size : Z).

Definition validate_ring_size (r : ring_name) (size : Z) : result unit ring_error :=
  if is_power_of_two size then Ok tt else Err (NotPowerOfTwo r size).

Definition ring_sizes_validate (s : RingSizes) : result unit ring_error :=
  _ <-? validate_ring_size RFill (sz_fill s);
  _ <-? validate_ring_size RCompletion (sz_completion s);
  _ <-? validate_ring_size RRx (sz_rx s);
  validate_ring_size RTx (sz_tx s).

(** One reserved slot is written: [desc.add(index & mask).write(x)]. *)
Definition write_desc {A} (m : RingMem A) (size index : Z) (x : A) : outcome (RingMem A) :=
  d ← copy_into (desc m) (Z.land index (size - 1)) [x];
  Ret (mkRing (producer m) (consumer m) (flags m) d).

Definition enqueue_tx {A} (p : RingProducer) (m : RingMem A) (size : Z) (x : A) :
    outcome (bool * RingProducer * RingMem A) :=
  match produce p m with
  | (None, p) => Ret (false, p, m)
  | (Some index, p) => m ← write_desc m size index x; Ret (true, p, m)
  end.

Definition enqueue_tx_batch {A} (p : RingProducer) (m : RingMem A) (size : Z) (descs : list A) :
    outcome (Z * RingProducer * RingMem A) :=
  let wanted := u32 (Z.min (len descs) U32_MAX) in
  '(range, p) ← produce_many p m wanted;
  if range_is_empty range then Ret (0, p, m)
  else
    let staged := rg_count range in
    d ← copy_slice_to_ring (desc m) size (rg_start range) (take (Z.to_nat staged) descs);
    Ret (staged, p, mkRing (producer m) (consumer m) (flags m) d).

Definition tx_available {A} (p : RingProducer) (m : RingMem A) : outcome (Z * RingProducer) :=
  let p := producer_sync p m false in
  n ← producer_available p; Ret (n, p).

Fixpoint replenish_loop {A} (p : RingProducer) (m : RingMem A) (size : Z) (addrs : list A) (written : Z) :
    outcome (Z * RingProducer * RingMem A) :=
  match addrs with
  | [] => Ret (written, p, m)
  | addr :: addrs =>
    match produce p m with
    | (None, p) => Ret (written, p, m)
    | (Some index, p) =>
      m ← write_desc m size index addr;
      replenish_loop p m size addrs (written + 1)
    end
  end.

Definition replenish_fill {A} (p : RingProducer) (m : RingMem A) (size : Z) (addrs : list A) :
    outcome (Z * RingProducer * RingMem A) :=
  let p := producer_sync p m false in
  '(written, p, m) ← replenish_loop p m size addrs 0;
  Ret (written, p, if 0 <? written then commit p m else m).

Definition replenish_fill_batch {A} (p : RingProducer) (m : RingMem A) (size : Z) (addrs : list A) :
    outcome (Z * RingProducer * RingMem A) :=
  let p := producer_sync p m false in
  let wanted := u32 (Z.min (len addrs) U32_MAX) in
  '(range, p) ← produce_many p m wanted;
  if range_is_empty range then Ret (0, p, m)
  else
    let written := rg_count range in
    d ← copy_slice_to_ring (desc m) size (rg_start range) (take (Z.to_nat written) addrs);
    Ret (written, p, commit p (mkRing (producer m) (consumer m) (flags m) d)).

(** The prefill of the FILL ring in [new_inner]. *)
Fixpoint prefill {A} (p : RingProducer) (m : RingMem A) (size : Z) (frames : list A) :
    outcome (result unit ring_error * RingProducer * RingMem A) :=
  match frames with
  | [] => Ret (Ok tt, p, commit p m)
  | addr :: frames =>
    match produce p m with
    | (None, p) => Ret (Err (PrefillExceeds size), p, commit p m)
    | (Some index, p) =>
      m ← write_desc m size index addr;
      prefill p m size frames
    end
  end.

(** [drain_rx] and [drain_completion]: [max] is the requested bound, the
    remaining capacity for completions. *)
Definition drain_rx {A} (c : RingConsumer) (m : RingMem A) (size cap max : Z) (out : list A) :
    outcome (Z * RingConsumer * RingMem A * list A) :=
  let c := consumer_sync c m in
  let wanted := u32 (Z.min (Z.min max (saturating_sub cap (len out))) U32_MAX) in
  let '(range, c) := consume_many c m wanted in
  if 0 <? rg_count range then
    out ← copy_ring_to_vec (desc m) size range cap out;
    Ret (rg_count range, c, release c m, out)
  else Ret (rg_count range, c, m, out).

Definition drain_completion {A} (c : RingConsumer) (m : RingMem A) (size cap : Z) (out : list A) :
    outcome (Z * RingConsumer * RingMem A * list A) :=
  let c := consumer_sync c m in
  let wanted := u32 (Z.min (saturating_sub cap (len out)) U32_MAX) in
  let '(range, c) := consume_many c m wanted in
  if 0 <? rg_count range then
    out ← copy_ring_to_vec (desc m) size range cap out;
    Ret (rg_count range, c, release c m, out)
  else Ret (rg_count range, c, m, out).

(** [drain_completion_slices]: the closure, which mutates its captured state,
    gets the two contiguous parts; the entries are released whatever it
    returns. *)
Definition drain_completion_slices {A S E} (c : RingConsumer) (m : RingMem A) (size max : Z)
    (f : list A → list A → S → outcome (S * result unit E)) (s : S) :
    outcome (S * result Z E * RingConsumer * RingMem A) :=
  let c := consumer_sync c m in
  let wanted := u32 (Z.min max U32_MAX) in
  let '(range, c) := consume_many c m wanted in
  let completed := rg_count range in
  if completed =? 0 then Ret (s, Ok 0, c, m)
  else
    let start := Z.land (rg_start range) (size - 1) in
    let first_len := Z.min (size - start) completed in
    first ← copy_out (desc m) start first_len;
    let second_len := completed - first_len in
    second ← (if 0 <? second_len then copy_out (desc m) 0 second_len else Ret []);
    r ← f first second s;
    Ret (r.1, match r.2 with Ok _ => Ok completed | Err e => Err e end, c, release c m).
