(* ===== verification/RingProofs.v ===== *)
(** * The rings are lossless queues

    Index arithmetic modulo 2^32, the chunked copies, and the invariants of
    the two ring directions under every interleaving with the kernel. *)
From S2P Require Import Prelude Bits Ring.
Open Scope Z_scope.

(** ** Index arithmetic *)
Definition ring_size (size : Z) : Prop := ∃ k, 0 ≤ k ≤ 31 ∧ size = 2 ^ k.

Lemma ring_size_pos size : ring_size size → 0 < size < 2 ^ 32.
Proof.
  intros (k & Hk & ->). split; [lia|]. apply Z.le_lt_trans with (2 ^ 31); [|lia].
  apply Z.pow_le_mono_r; lia.
Qed.

Lemma ring_size_pow2 size : ring_size size → is_power_of_two size = true.
Proof. intros (k & Hk & ->). apply is_power_of_two_spec. exists k. split; [lia|done]. Qed.

Lemma mod_mod_pow2 x k : 0 ≤ k ≤ 32 → (x mod 2 ^ 32) mod 2 ^ k = x mod 2 ^ k.
Proof.
  intros. apply Z.bits_inj'. intros i Hi. destruct (decide (i < k)).
  - by rewrite !Z.mod_pow2_bits_low by lia.
  - by rewrite !Z.mod_pow2_bits_high by lia.
Qed.

(** The masked 32-bit index is the absolute index modulo the ring size. *)
Lemma ring_index_mod size S j :
  ring_size size → Z.land (wrapping_add 32 (u32 S) (u32 j)) (size - 1) = (S + j) mod size.
Proof.
  intros (k & Hk & ->). rewrite land_pow2_mask by lia. unfold wrapping_add, wrap.
  rewrite mod_mod_pow2 by lia. rewrite <-Zplus_mod_idemp_l, <-Zplus_mod_idemp_r.
  rewrite !mod_mod_pow2 by lia. by rewrite Zplus_mod_idemp_l, Zplus_mod_idemp_r.
Qed.

Lemma ring_index_mod0 size S : ring_size size → Z.land (u32 S) (size - 1) = S mod size.
Proof.
  intros (k & Hk & ->). rewrite land_pow2_mask by lia. apply mod_mod_pow2. lia.
Qed.

(** Within a window of [size] absolute indices the slot determines the index. *)
Lemma mod_window_inj size S a b :
  0 < size → S ≤ a < S + size → S ≤ b < S + size → a mod size = b mod size → a = b.
Proof.
  intros Hs Ha Hb E. assert (Hd : (a - b) mod size = 0).
  { rewrite Zminus_mod, E, Z.sub_diag. apply Z.mod_0_l. lia. }
  apply Z.mod_divide in Hd; [|lia]. destruct Hd as [q Hq].
  assert (q = 0) by nia. lia.
Qed.

Lemma mod_add_small size x t :
  0 < size → 0 ≤ t → x mod size + t < size → (x + t) mod size = x mod size + t.
Proof.
  intros Hs Ht Hlt. rewrite <-Zplus_mod_idemp_l. apply Z.mod_small.
  pose proof (Z.mod_pos_bound x size Hs). lia.
Qed.

(** Distances survive the 32-bit wrap. *)
Lemma wrapping_dist a b : 0 ≤ b - a < 2 ^ 32 → wrapping_sub 32 (u32 b) (u32 a) = b - a.
Proof.
  intros H. unfold wrapping_sub, wrap. rewrite <-Zminus_mod. by apply Z.mod_small.
Qed.

Lemma wrapping_step a n : wrapping_add 32 (u32 a) n = u32 (a + n).
Proof. unfold wrapping_add, wrap. apply Zplus_mod_idemp_l. Qed.

(** ** Copies *)
Lemma copy_into_ok {A} (ring : list A) at_ src :
  0 ≤ at_ → at_ + len src ≤ len ring → copy_into ring at_ src = Ret (write_at ring at_ src).
Proof. intros. unfold copy_into. case_bool; [done|lia..]. Qed.

Lemma copy_out_ok {A} (ring : list A) at_ n :
  0 ≤ at_ → 0 ≤ n → at_ + n ≤ len ring →
  ∃ l, copy_out ring at_ n = Ret l ∧ len l = n ∧ ∀ j, 0 ≤ j < n → nthZ l j = nthZ ring (at_ + j).
Proof.
  intros. unfold copy_out, slice. case_bool; try lia. cbn [andb]. eexists. split; [done|].
  replace (at_ + n - at_) with n by lia. rewrite len_take, len_drop by lia. split; [lia|].
  intros j Hj. rewrite nthZ_take, nthZ_drop by lia. done.
Qed.

Lemma copy_slice_loop_ok {A} size S (src : list A) : ring_size size → 0 ≤ S → len src ≤ size →
  ∀ fuel ring copied, len ring = size → 0 ≤ copied ≤ len src → len src - copied ≤ Z.of_nat fuel →
  ∃ ring', copy_slice_loop fuel ring size (u32 S) copied src = Ret ring' ∧ len ring' = size ∧
    ∀ a, S ≤ a < S + size → nthZ ring' (a mod size)
      = if decide (S + copied ≤ a < S + len src) then nthZ src (a - S) else nthZ ring (a mod size).
Proof.
  intros Hsize HS Hsrc. pose proof (ring_size_pos _ Hsize) as Hpos.
  induction fuel as [|fuel IH]; intros ring copied Hlen Hc Hf; cbn [copy_slice_loop].
  all: destruct (Z.ltb_spec copied (len src)); try lia.
  1, 3: exists ring; split_and!; [done..|]; intros a Ha; by rewrite decide_False by lia.
  rewrite ring_index_mod by done.
  pose proof (Z.mod_pos_bound (S + copied) size ltac:(lia)) as Hr.
  set (r := (S + copied) mod size) in *. set (chunk := Z.min (len src - copied) (size - r)).
  set (seg := take (Z.to_nat chunk) (drop (Z.to_nat copied) src)).
  assert (Hseg : len seg = chunk) by (unfold seg; rewrite len_take, len_drop by lia; lia).
  rewrite copy_into_ok by lia. run.
  destruct (IH (write_at ring r seg) (copied + chunk)) as (ring' & -> & Hl' & Hn);
    [rewrite len_write_at; lia|lia|lia|].
  exists ring'. split_and!; [done..|]. intros a Ha. rewrite Hn by done.
  pose proof (Z.mod_pos_bound a size ltac:(lia)) as Hma.
  destruct (decide (S + (copied + chunk) ≤ a < S + len src)); [by rewrite decide_True by lia|].
  rewrite nthZ_write_at by lia. rewrite Hseg.
  destruct (decide (r ≤ a mod size < r + chunk)) as [Hin|Hout].
  - assert (E : a = S + copied + (a mod size - r)).
    { apply (mod_window_inj size S); [lia|lia|lia|]. unfold r. rewrite mod_add_small; unfold r in *; lia. }
    rewrite decide_True by lia. unfold seg. rewrite nthZ_take, nthZ_drop by lia. f_equal. lia.
  - rewrite decide_False; [done|]. intros Hx. apply Hout.
    assert (a mod size = r + (a - (S + copied))); [|lia].
    replace a with (S + copied + (a - (S + copied))) at 1 by lia. apply mod_add_small; lia.
Qed.

Lemma copy_slice_to_ring_ok {A} size S (src ring : list A) :
  ring_size size → 0 ≤ S → len src ≤ size → len ring = size →
  ∃ ring', copy_slice_to_ring ring size (u32 S) src = Ret ring' ∧ len ring' = size ∧
    ∀ a, S ≤ a < S + size → nthZ ring' (a mod size)
      = if decide (a < S + len src) then nthZ src (a - S) else nthZ ring (a mod size).
Proof.
  intros Hs HS Hl Hr. unfold copy_slice_to_ring. rewrite ring_size_pow2 by done.
  pose proof (len_nonneg src).
  destruct (copy_slice_loop_ok size S src Hs HS Hl (length src) ring 0) as (ring' & E & Hl' & Hn);
    [done|lia|unfold len; lia|].
  exists ring'. split_and!; [done..|]. intros a Ha. rewrite Hn by done.
  destruct (decide (a < S + len src)); [by rewrite decide_True by lia|by rewrite decide_False by lia].
Qed.

Lemma copy_ring_loop_ok {A} size S (ring : list A) count : ring_size size → 0 ≤ S → len ring = size →
  ∀ fuel copied out, 0 ≤ copied ≤ count → count - copied ≤ Z.of_nat fuel →
  ∃ l, copy_ring_loop fuel ring size (u32 S) count copied out = Ret (out ++ l) ∧
    len l = count - copied ∧
    ∀ j, 0 ≤ j < len l → nthZ l j = nthZ ring ((S + copied + j) mod size).
Proof.
  intros Hsize HS Hlen. pose proof (ring_size_pos _ Hsize) as Hpos.
  induction fuel as [|fuel IH]; intros copied out Hc Hf; cbn [copy_ring_loop].
  all: destruct (Z.ltb_spec copied count); try lia.
  1, 3: exists []; rewrite app_nil_r; change (len (@nil A)) with 0; split_and!; [done|lia|lia].
  rewrite ring_index_mod by done.
  pose proof (Z.mod_pos_bound (S + copied) size ltac:(lia)) as Hr.
  set (r := (S + copied) mod size) in *. set (chunk := Z.min (count - copied) (size - r)).
  destruct (copy_out_ok ring r chunk) as (l1 & -> & Hl1 & Hn1); [lia|lia|lia|]. run.
  destruct (IH (copied + chunk) (out ++ l1)) as (l2 & -> & Hl2 & Hn2); [lia|lia|].
  exists (l1 ++ l2). rewrite app_assoc, len_app. split_and!; [done|lia|].
  intros j Hj. destruct (decide (j < chunk)).
  - rewrite nthZ_app_l, Hn1 by lia. f_equal. unfold r. symmetry. apply mod_add_small; unfold r in *; lia.
  - rewrite nthZ_app_r, Hn2 by lia. f_equal. f_equal. lia.
Qed.

(** ** The producer direction (FILL and TX) *)

(** [S] entries were staged, [D] of them taken by the kernel; [C] and [Pub]
    are the cached consumer index and the published producer index. All four
    are unbounded counts; the machine words are their residues. *)
Record pinv {A} (size C D Pub : Z) (staged : list A) (p : RingProducer) (m : RingMem A) : Prop := {
  pi_size : ring_size size;
  pi_psize : p_size p = size;
  pi_desc : len (desc m) = size;
  pi_order : 0 ≤ C ≤ D ∧ D ≤ Pub ≤ len staged ∧ len staged ≤ C + size;
  pi_cprod : p_cached_producer p = u32 (len staged);
  pi_ccons : p_cached_consumer p = u32 C;
  pi_prod : producer m = u32 Pub;
  pi_cons : consumer m = u32 D;
  pi_slots i : D ≤ i < len staged → nthZ (desc m) (i mod size) = nthZ staged i;
}.

Lemma pinv_in_flight {A} size C D Pub (staged : list A) p m :
  pinv size C D Pub staged p m → in_flight p = len staged - C.
Proof.
  intros [Hs _ _ Ho Hp Hc _ _ _]. unfold in_flight. rewrite Hp, Hc.
  pose proof (ring_size_pos _ Hs). apply wrapping_dist. lia.
Qed.

Lemma pinv_sync {A} size C D Pub (staged : list A) p m :
  pinv size C D Pub staged p m → pinv size D D Pub staged (producer_sync p m false) m.
Proof. intros []. split; cbn; try done; lia. Qed.

Lemma pinv_available {A} size C D Pub (staged : list A) p m :
  pinv size C D Pub staged p m → producer_available p = Ret (C + size - len staged).
Proof.
  intros Hi. unfold producer_available. rewrite (pinv_in_flight _ _ _ _ _ _ _ Hi).
  rewrite (pi_psize _ _ _ _ _ _ _ Hi). pose proof (pi_order _ _ _ _ _ _ _ Hi).
  case_bool; [|lia]. f_equal. lia.
Qed.

Lemma pinv_commit {A} size C D Pub (staged : list A) p m :
  pinv size C D Pub staged p m → pinv size C D (len staged) staged p (commit p m).
Proof. intros []. split; cbn; try done; lia. Qed.

(** Staging [xs] at the reserved indices. *)
Lemma pinv_stage {A} size C D Pub (staged xs : list A) p m d :
  pinv size C D Pub staged p m → len staged + len xs ≤ C + size → len d = size →
  (∀ a, len staged ≤ a < len staged + size → nthZ d (a mod size)
     = if decide (a < len staged + len xs) then nthZ xs (a - len staged) else nthZ (desc m) (a mod size)) →
  pinv size C D Pub (staged ++ xs)
    (mkProducer (wrapping_add 32 (p_cached_producer p) (len xs)) (p_cached_consumer p) (p_size p))
    (mkRing (producer m) (consumer m) (flags m) d).
Proof.
  intros [Hs Hps Hd Ho Hp Hc Hpr Hco Hsl] Hfit Hld Hslots. pose proof (ring_size_pos _ Hs).
  pose proof (len_nonneg xs).
  split; cbn [p_size p_cached_producer p_cached_consumer desc producer consumer]; rewrite ?len_app; try done.
  - lia.
  - by rewrite Hp, wrapping_step.
  - intros i Hi. destruct (decide (i < len staged)).
    + assert (E : (i + size) mod size = i mod size)
        by (rewrite <-(Z.mul_1_l size) at 1; apply Z_mod_plus_full).
      rewrite <-E, Hslots, decide_False by lia. rewrite E, Hsl, nthZ_app_l by lia. done.
    + rewrite Hslots, decide_True, nthZ_app_r by lia. done.
Qed.

Lemma write_desc_ok {A} size S (m : RingMem A) x :
  ring_size size → 0 ≤ S → len (desc m) = size →
  ∃ d, write_desc m size (u32 S) x = Ret (mkRing (producer m) (consumer m) (flags m) d) ∧
    len d = size ∧
    ∀ a, S ≤ a < S + size → nthZ d (a mod size)
      = if decide (a < S + len [x]) then nthZ [x] (a - S) else nthZ (desc m) (a mod size).
Proof.
  intros Hs HS Hd. pose proof (ring_size_pos _ Hs). unfold write_desc.
  rewrite ring_index_mod0 by done. pose proof (Z.mod_pos_bound S size ltac:(lia)).
  assert (Hl : len [x] = 1) by reflexivity.
  rewrite copy_into_ok by lia. run. eexists. split; [done|].
  split; [rewrite len_write_at; lia|]. intros a Ha. rewrite nthZ_write_at by lia. rewrite Hl.
  destruct (decide (a < S + 1)).
  - replace a with S by lia. rewrite decide_True by lia. f_equal. lia.
  - rewrite decide_False; [done|]. intros Hx.
    assert (a = S) by (apply (mod_window_inj size S); lia). lia.
Qed.

(** [produce] reserves the next absolute index, unless the ring is full even
    after refreshing the consumer index. *)
Lemma produce_ok {A} size C D Pub (staged : list A) p m :
  pinv size C D Pub staged p m →
  (∃ p', produce p m = (None, p') ∧ pinv size D D Pub staged p' m ∧ len staged = D + size) ∨
  (∃ p' C', produce p m = (Some (u32 (len staged)),
      mkProducer (wrapping_add 32 (p_cached_producer p') 1) (p_cached_consumer p') (p_size p')) ∧
    pinv size C' D Pub staged p' m ∧ len staged + 1 ≤ C' + size).
Proof.
  intros Hi. pose proof (pi_psize _ _ _ _ _ _ _ Hi) as Hps.
  pose proof (pi_order _ _ _ _ _ _ _ Hi). unfold produce.
  rewrite (pinv_in_flight _ _ _ _ _ _ _ Hi). destruct (Z.leb_spec (p_size p) (len staged - C)).
  - pose proof (pinv_sync _ _ _ _ _ _ _ Hi) as Hi'.
    rewrite (pinv_in_flight _ _ _ _ _ _ _ Hi'). cbn [producer_sync p_size].
    destruct (Z.leb_spec (p_size p) (len staged - D)).
    + left. eexists. split; [done|]. split; [done|lia].
    + right. exists (producer_sync p m false), D. split_and!; [|done|lia]. cbn.
      by rewrite (pi_cprod _ _ _ _ _ _ _ Hi).
  - right. exists p, C. split_and!; [|done|lia]. by rewrite (pi_cprod _ _ _ _ _ _ _ Hi).
Qed.

Lemma enqueue_tx_ok {A} size C D Pub (staged : list A) p m x :
  pinv size C D Pub staged p m →
  ∃ b p' m' C', enqueue_tx p m size x = Ret (b, p', m') ∧
    pinv size C' D Pub (staged ++ if b : bool then [x] else []) p' m' ∧
    (b = false → len staged = D + size).
Proof.
  intros Hi. unfold enqueue_tx.
  destruct (produce_ok _ _ _ _ _ _ _ Hi) as [(p' & -> & Hi' & Hfull)|(p' & C' & -> & Hi' & Hroom)].
  - exists false, p', m, D. rewrite app_nil_r. done.
  - destruct (write_desc_ok size (len staged) m x) as (d & -> & Hd & Hn);
      [apply Hi|apply len_nonneg|apply Hi|]. run.
    eexists true, _, _, C'. split; [done|]. split; [|done].
    apply (pinv_stage size C' D Pub staged [x] p' m d); done.
Qed.

Lemma produce_many_ok {A} size C D Pub (staged : list A) p m wanted :
  pinv size C D Pub staged p m → 0 ≤ wanted →
  ∃ n p' C', produce_many p m wanted = Ret (mkRange (if wanted =? 0 then 0 else u32 (len staged)) n,
      mkProducer (wrapping_add 32 (p_cached_producer p') n) (p_cached_consumer p') (p_size p')) ∧
    pinv size C' D Pub staged p' m ∧ 0 ≤ n ≤ wanted ∧ len staged + n ≤ C' + size ∧
    (n < wanted → len staged + n = D + size).
Proof.
  intros Hi Hw. unfold produce_many. pose proof (pi_order _ _ _ _ _ _ _ Hi).
  destruct (Z.eqb_spec wanted 0) as [->|].
  { exists 0, p, C. split_and!; try done; try lia. f_equal. f_equal. destruct p as [cp cc sz]; cbn.
    f_equal. pose proof (pi_cprod _ _ _ _ _ _ _ Hi) as E. cbn in E. by rewrite E, wrapping_step, Z.add_0_r. }
  rewrite (pinv_available _ _ _ _ _ _ _ Hi). run.
  destruct (Z.ltb_spec (C + size - len staged) wanted).
  - pose proof (pinv_sync _ _ _ _ _ _ _ Hi) as Hi'.
    rewrite (pinv_available _ _ _ _ _ _ _ Hi'). run.
    eexists _, (producer_sync p m false), D. rewrite (pi_cprod _ _ _ _ _ _ _ Hi').
    split_and!; try done; lia.
  - run. eexists _, p, C. rewrite (pi_cprod _ _ _ _ _ _ _ Hi). split_and!; try done; lia.
Qed.

Lemma batch_wanted n : 0 ≤ n → 0 ≤ u32 (Z.min n U32_MAX) ≤ n.
Proof.
  intros. unfold wrap, U32_MAX. rewrite Z.mod_small by lia. lia.
Qed.

Lemma enqueue_tx_batch_ok {A} size C D Pub (staged : list A) p m xs :
  pinv size C D Pub staged p m →
  ∃ n p' m' C', enqueue_tx_batch p m size xs = Ret (n, p', m') ∧ 0 ≤ n ≤ len xs ∧
    pinv size C' D Pub (staged ++ take (Z.to_nat n) xs) p' m' ∧
    (n < len xs → len xs ≤ U32_MAX → len staged + n = D + size).
Proof.
  intros Hi. unfold enqueue_tx_batch. pose proof (len_nonneg xs) as Hx.
  pose proof (batch_wanted _ Hx) as Hw. set (w := u32 (Z.min (len xs) U32_MAX)) in *.
  destruct (produce_many_ok _ _ _ _ _ _ _ w Hi ltac:(lia)) as (n & p' & C' & -> & Hi' & Hn & Hroom & Hfull).
  run. unfold range_is_empty. cbn [rg_count rg_start].
  assert (Hweq : len xs ≤ U32_MAX → w = len xs).
  { intros. unfold w, wrap. rewrite Z.mod_small; unfold U32_MAX in *; lia. }
  pose proof (pi_psize _ _ _ _ _ _ _ Hi'). pose proof (pi_order _ _ _ _ _ _ _ Hi').
  destruct (Z.eqb_spec n 0) as [->|].
  - eexists _, _, m, C'. split; [done|]. split; [lia|]. split.
    + rewrite app_nil_r. destruct Hi' as [? ? ? ? Hcp ? ? ? ?]. split; cbn; try done.
      by rewrite Hcp, wrapping_step, Z.add_0_r.
    + intros ? ?%Hweq. apply Hfull. lia.
  - destruct (Z.eqb_spec w 0); [lia|].
    assert (Hlt : len (take (Z.to_nat n) xs) = n) by (rewrite len_take; lia).
    destruct (copy_slice_to_ring_ok size (len staged) (take (Z.to_nat n) xs) (desc m))
      as (d & -> & Hd & Hslots); [apply Hi|apply len_nonneg|lia|apply Hi|].
    run. eexists _, _, _, C'. split; [done|]. split; [lia|]. split.
    + rewrite <-Hlt at 2. apply pinv_stage; try done; lia.
    + intros ? ?%Hweq. apply Hfull. lia.
Qed.

Lemma replenish_loop_ok {A} size D Pub (xs : list A) : ∀ C (staged : list A) p m written,
  pinv size C D Pub staged p m →
  ∃ n p' m' C', replenish_loop p m size xs written = Ret (written + n, p', m') ∧ 0 ≤ n ≤ len xs ∧
    pinv size C' D Pub (staged ++ take (Z.to_nat n) xs) p' m' ∧
    (n < len xs → len staged + n = D + size).
Proof.
  induction xs as [|x xs IH]; intros C staged p m written Hi; cbn [replenish_loop].
  { exists 0, p, m, C. change (len (@nil A)) with 0. rewrite Z.add_0_r, app_nil_r.
    split_and!; done || lia. }
  assert (Hlc : len (x :: xs) = len xs + 1) by (unfold len; cbn [length]; lia).
  pose proof (len_nonneg xs).
  destruct (produce_ok _ _ _ _ _ _ _ Hi) as [(p' & -> & Hi' & Hfull)|(p' & C' & -> & Hi' & Hroom)].
  { exists 0, p', m, D. rewrite Z.add_0_r, app_nil_r. split_and!; try done; lia. }
  destruct (write_desc_ok size (len staged) m x) as (d & -> & Hd & Hn);
    [apply Hi|apply len_nonneg|apply Hi|]. run.
  pose proof (pinv_stage size C' D Pub staged [x] p' m d Hi' Hroom Hd Hn) as Hi1.
  destruct (IH _ _ _ _ (written + 1) Hi1) as (n & p2 & m2 & C2 & E & Hnr & Hi2 & Hf).
  exists (n + 1), p2, m2, C2. change (len [x]) with 1 in E. rewrite E.
  rewrite len_snoc in Hf. split_and!; try lia.
  - f_equal. f_equal. f_equal. lia.
  - replace (Z.to_nat (n + 1)) with (S (Z.to_nat n)) by lia. cbn [take].
    by rewrite <-app_assoc in Hi2.
Qed.

Lemma replenish_fill_ok {A} size C D (staged xs : list A) p m :
  pinv size C D (len staged) staged p m →
  ∃ n p' m' C', replenish_fill p m size xs = Ret (n, p', m') ∧ 0 ≤ n ≤ len xs ∧
    pinv size C' D (len staged + n) (staged ++ take (Z.to_nat n) xs) p' m' ∧
    (n < len xs → len staged + n = D + size).
Proof.
  intros Hi. unfold replenish_fill.
  destruct (replenish_loop_ok size D (len staged) xs D staged _ m 0 (pinv_sync _ _ _ _ _ _ _ Hi))
    as (n & p' & m' & C' & -> & Hn & Hi' & Hf).
  run. rewrite Z.add_0_l. exists n, p', (if 0 <? n then commit p' m' else m'), C'.
  split_and!; try done; try lia. destruct (Z.ltb_spec 0 n).
  - pose proof (pinv_commit _ _ _ _ _ _ _ Hi') as Hc. rewrite len_app, len_take in Hc by lia.
    by replace (len staged + Z.min n (len xs)) with (len staged + n) in Hc by lia.
  - replace n with 0 in * by lia. by rewrite Z.add_0_r.
Qed.

Lemma replenish_fill_batch_ok {A} size C D (staged xs : list A) p m :
  pinv size C D (len staged) staged p m →
  ∃ n p' m' C', replenish_fill_batch p m size xs = Ret (n, p', m') ∧ 0 ≤ n ≤ len xs ∧
    pinv size C' D (len staged + n) (staged ++ take (Z.to_nat n) xs) p' m' ∧
    (n < len xs → len xs ≤ U32_MAX → len staged + n = D + size).
Proof.
  intros Hi. pose proof (pinv_sync _ _ _ _ _ _ _ Hi) as Hi0.
  destruct (enqueue_tx_batch_ok _ _ _ _ _ _ _ xs Hi0) as (n & p' & m' & C' & E & Hn & Hi' & Hf).
  unfold replenish_fill_batch. unfold enqueue_tx_batch in E.
  destruct (produce_many (producer_sync p m false) m _) as [[range p1]| | |]; cbn in E; try done.
  run. destruct (range_is_empty range) eqn:Er.
  - injection E as <- <- <-. eexists _, _, _, C'. split; [done|]. split_and!; try done; try lia.
    by rewrite Z.add_0_r.
  - destruct (copy_slice_to_ring _ _ _ _) as [d| | |]; cbn in E; try done. run.
    injection E as <- <- <-. eexists _, _, _, C'. split; [done|]. split_and!; try done; try lia.
    pose proof (pinv_commit _ _ _ _ _ _ _ Hi') as Hc. rewrite len_app, len_take in Hc by lia.
    by rewrite Z.min_l in Hc by lia.
Qed.

(** ** The consumer direction (RX and COMPLETION) *)

(** The kernel has published [pushed]; userspace has cached [Pc] of them,
    taken [T] and given back [R]. *)
Record cinv {A} (size Pc T R : Z) (pushed : list A) (c : RingConsumer) (m : RingMem A) : Prop := {
  cv_size : ring_size size;
  cv_desc : len (desc m) = size;
  cv_order : 0 ≤ R ≤ T ∧ T ≤ Pc ≤ len pushed ∧ len pushed ≤ R + size;
  cv_cprod : c_cached_producer c = u32 Pc;
  cv_ccons : c_cached_consumer c = u32 T;
  cv_prod : producer m = u32 (len pushed);
  cv_cons : consumer m = u32 R;
  cv_slots i : R ≤ i < len pushed → nthZ (desc m) (i mod size) = nthZ pushed i;
}.

Lemma cinv_sync {A} size Pc T R (pushed : list A) c m :
  cinv size Pc T R pushed c m → cinv size (len pushed) T R pushed (consumer_sync c m) m.
Proof. intros []. split; cbn; try done; lia. Qed.

Lemma cinv_available {A} size Pc T R (pushed : list A) c m :
  cinv size Pc T R pushed c m → consumer_available c = Pc - T.
Proof.
  intros [Hs _ Ho Hp Hc _ _ _]. unfold consumer_available. rewrite Hp, Hc.
  pose proof (ring_size_pos _ Hs). apply wrapping_dist. lia.
Qed.

Lemma cinv_release {A} size Pc T R (pushed : list A) c m :
  cinv size Pc T R pushed c m → cinv size Pc T T pushed c (release c m).
Proof. intros [? ? ? ? ? ? ? Hsl]. split; cbn; try done; try lia. intros. apply Hsl. lia. Qed.

Lemma consume_many_ok {A} size T R (pushed : list A) c m wanted :
  cinv size (len pushed) T R pushed c m → 0 ≤ wanted →
  let n := Z.min wanted (len pushed - T) in
  ∃ st c', consume_many c m wanted = (mkRange st n, c') ∧ (0 < n → st = u32 T) ∧
    cinv size (len pushed) (T + n) R pushed c' m.
Proof.
  intros Hi Hw n. pose proof (cv_order _ _ _ _ _ _ _ Hi) as Ho. unfold consume_many.
  destruct (Z.eqb_spec wanted 0) as [->|].
  { exists 0, c. replace n with 0 by lia. rewrite Z.add_0_r. split_and!; done || lia. }
  pose proof (cinv_sync _ _ _ _ _ _ _ Hi) as Hi'.
  rewrite (cinv_available _ _ _ _ _ _ _ Hi), (cinv_available _ _ _ _ _ _ _ Hi').
  assert (Hadv : ∀ c0, cinv size (len pushed) T R pushed c0 m →
    cinv size (len pushed) (T + n) R pushed
      (mkConsumer (c_cached_producer c0) (wrapping_add 32 (c_cached_consumer c0) n)) m).
  { intros c0 []. split; cbn; try done; try lia.
    by match goal with H : c_cached_consumer c0 = _ |- _ => rewrite H, wrapping_step end. }
  destruct (Z.ltb_spec (len pushed - T) wanted).
  - eexists _, _. split; [done|]. split; [intros _; apply Hi'|]. by apply Hadv.
  - eexists _, _. split; [done|]. split; [intros _; apply Hi|]. by apply Hadv.
Qed.

(** The [n] entries of [pushed] from [T] on. *)
Definition window {A} (pushed : list A) (T n : Z) : list A :=
  take (Z.to_nat n) (drop (Z.to_nat T) pushed).

Lemma window_eq {A} (pushed l : list A) T n :
  0 ≤ T → 0 ≤ n → T + n ≤ len pushed → len l = n →
  (∀ j, 0 ≤ j < n → nthZ l j = nthZ pushed (T + j)) → l = window pushed T n.
Proof.
  intros HT Hn Hl Hlen Hj. apply nthZ_ext. intros i. unfold window.
  destruct (decide (0 ≤ i < n)).
  - rewrite Hj, nthZ_take, nthZ_drop by lia. done.
  - destruct (decide (i < 0)); [by rewrite !nthZ_neg by lia|].
    rewrite !nthZ_None; [done|rewrite len_take, len_drop by lia; lia|lia].
Qed.

Lemma cinv_copy {A} size T R (pushed : list A) c m out n cap :
  cinv size (len pushed) (T + n) R pushed c m → 0 < n → R ≤ T → n ≤ saturating_sub cap (len out) →
  copy_ring_to_vec (desc m) size (mkRange (u32 T) n) cap out = Ret (out ++ window pushed T n).
Proof.
  intros Hi Hn HR Hcap. pose proof (cv_order _ _ _ _ _ _ _ Hi) as Ho. unfold copy_ring_to_vec.
  rewrite ring_size_pow2 by apply Hi. cbn [rg_count rg_start]. case_bool; [|lia].
  destruct (copy_ring_loop_ok size T (desc m) n (cv_size _ _ _ _ _ _ _ Hi) ltac:(lia)
    (cv_desc _ _ _ _ _ _ _ Hi) (Z.to_nat n) 0 out) as (l & -> & Hl & Hj); [lia|lia|].
  do 2 f_equal. apply window_eq; try lia. intros j Hjr. rewrite Hj by lia.
  rewrite Z.add_0_r. apply (cv_slots _ _ _ _ _ _ _ Hi). lia.
Qed.

Lemma drain_rx_ok {A} size Pc T (pushed : list A) c m cap max out :
  cinv size Pc T T pushed c m → 0 ≤ max →
  let n := Z.min (u32 (Z.min (Z.min max (saturating_sub cap (len out))) U32_MAX)) (len pushed - T) in
  ∃ c' m', drain_rx c m size cap max out = Ret (n, c', m', out ++ window pushed T n) ∧
    0 ≤ n ∧ cinv size (len pushed) (T + n) (T + n) pushed c' m'.
Proof.
  intros Hi Hmax n. unfold drain_rx. pose proof (cinv_sync _ _ _ _ _ _ _ Hi) as Hi0.
  pose proof (cv_order _ _ _ _ _ _ _ Hi0).
  set (w := u32 _) in *. assert (Hw : 0 ≤ w ≤ saturating_sub cap (len out)).
  { unfold w, wrap, saturating_sub, U32_MAX. rewrite Z.mod_small by lia. lia. }
  destruct (consume_many_ok _ _ _ _ _ _ w Hi0 ltac:(lia)) as (st & c' & -> & Hst & Hi1).
  fold n in Hst, Hi1 |- *. cbn [rg_count]. destruct (Z.ltb_spec 0 n).
  - rewrite Hst by lia. rewrite (cinv_copy size T T) with (c := c') (pushed := pushed); [|done|lia|lia|lia].
    run. eexists _, _. split; [done|]. split; [lia|]. by apply cinv_release in Hi1.
  - exists c', m. replace n with 0 in * by lia. unfold window. rewrite app_nil_r.
    rewrite Z.add_0_r in *. split_and!; done.
Qed.

Lemma drain_completion_eq {A} c (m : RingMem A) size cap out :
  drain_completion c m size cap out = drain_rx c m size cap (saturating_sub cap (len out)) out.
Proof. unfold drain_completion, drain_rx. by rewrite Z.min_id. Qed.

Lemma drain_completion_slices_ok {A S E} size Pc T (pushed : list A) c m max
    (f : list A → list A → S → outcome (S * result unit E)) s :
  cinv size Pc T T pushed c m → 0 ≤ max →
  let n := Z.min (u32 (Z.min max U32_MAX)) (len pushed - T) in
  ∃ c' m', cinv size (len pushed) (T + n) (T + n) pushed c' m' ∧
    if n =? 0 then drain_completion_slices c m size max f s = Ret (s, Ok 0, c', m')
    else ∃ first second, first ++ second = window pushed T n ∧
      drain_completion_slices c m size max f s
      = (r ← f first second s;
         Ret (r.1, match r.2 with Ok _ => Ok n | Err e => Err e end, c', m')).
Proof.
  intros Hi Hmax n. unfold drain_completion_slices. pose proof (cinv_sync _ _ _ _ _ _ _ Hi) as Hi0.
  pose proof (cv_order _ _ _ _ _ _ _ Hi0). pose proof (ring_size_pos _ (cv_size _ _ _ _ _ _ _ Hi)) as Hsz.
  set (w := u32 _) in *. assert (Hw : 0 ≤ w) by (unfold w, wrap; apply Z.mod_pos_bound; lia).
  destruct (consume_many_ok _ _ _ _ _ _ w Hi0 Hw) as (st & c' & -> & Hst & Hi1).
  fold n in Hst, Hi1 |- *. cbn [rg_count rg_start]. destruct (Z.eqb_spec n 0) as [E0|].
  { eexists _, _. rewrite E0, Z.add_0_r in *. done. }
  rewrite Hst, ring_index_mod0 by (lia || apply Hi).
  pose proof (Z.mod_pos_bound T size ltac:(lia)) as Hr.
  assert (Hd := cv_desc _ _ _ _ _ _ _ Hi).
  destruct (copy_out_ok (desc m) (T mod size) (Z.min (size - T mod size) n)) as (l1 & -> & Hl1 & Hj1);
    [lia|lia|lia|]. run.
  set (n1 := Z.min (size - T mod size) n) in *.
  assert (Hslot : ∀ j, 0 ≤ j < n → nthZ (desc m) ((T + j) mod size) = nthZ pushed (T + j)).
  { intros j Hj. apply (cv_slots _ _ _ _ _ _ _ Hi). lia. }
  assert (H1 : ∀ j, 0 ≤ j < n1 → nthZ l1 j = nthZ pushed (T + j)).
  { intros j Hj. rewrite Hj1 by lia. rewrite <-Hslot by lia. f_equal. symmetry. apply mod_add_small; lia. }
  apply cinv_release in Hi1. destruct (Z.ltb_spec 0 (n - n1)).
  - destruct (copy_out_ok (desc m) 0 (n - n1)) as (l2 & -> & Hl2 & Hj2); [lia|lia|lia|]. run.
    eexists _, _. split; [done|]. exists l1, l2. split; [|done].
    apply window_eq; try lia; [rewrite len_app; lia|]. intros j Hj. destruct (decide (j < n1)).
    + rewrite nthZ_app_l by lia. apply H1. lia.
    + rewrite nthZ_app_r, Hl1, Hj2 by lia. rewrite <-Hslot by lia. f_equal.
      replace (T + j) with (T + n1 + (j - n1)) by lia.
      assert (Hz : (T + n1) mod size = 0).
      { replace n1 with (size - T mod size) by lia.
        replace (T + (size - T mod size)) with ((T / size + 1) * size)
          by (pose proof (Z.div_mod T size ltac:(lia)); nia).
        apply Z.mod_mul. lia. }
      rewrite mod_add_small; lia.
  - run. eexists _, _. split; [done|]. exists l1, []. rewrite app_nil_r.
    split; [|done]. apply window_eq; try lia. intros j Hj. apply H1. lia.
Qed.
