(* ===== verification/RingMain.v ===== *)
(** * Properties of the AF_XDP rings

    Every interleaving of the userspace ring operations with the kernel's
    side of the protocol, as two step relations, and the theorems that each
    ring is a lossless first-in first-out queue. *)
From S2P Require Import Prelude Bits Ring RingProofs.
Open Scope Z_scope.

(** A FILL or TX ring with its history: what was staged and what the kernel
    took, in order. *)
Record pstate (A : Type) := mkP {
  ps_cur : RingProducer;
  ps_mem : RingMem A;
  ps_staged : list A;
  ps_delivered : list A;
}.
Arguments mkP {A} _ _ _ _.
Arguments ps_cur {A} _.
Arguments ps_mem {A} _.
Arguments ps_staged {A} _.
Arguments ps_delivered {A} _.

(** The kernel's side of the single-producer single-consumer protocol: it
    takes [l] published entries, in ring order, and advances its index. *)
Definition kernel_takes {A} (size : Z) (m : RingMem A) (l : list A) : Prop :=
  len l ≤ wrapping_sub 32 (producer m) (consumer m) ∧
  ∀ j, 0 ≤ j < len l →
    nthZ l j = nthZ (desc m) (Z.land (wrapping_add 32 (consumer m) (u32 j)) (size - 1)).

Inductive preach {A} (size : Z) : pstate A → Prop :=
  | preach_init d fl :
      len d = size → preach size (mkP (producer_new size) (mkRing 0 0 fl d) [] [])
  | preach_enqueue s x b p m :
      preach size s → enqueue_tx (ps_cur s) (ps_mem s) size x = Ret (b, p, m) →
      preach size (mkP p m (ps_staged s ++ if b : bool then [x] else []) (ps_delivered s))
  | preach_batch s xs n p m :
      preach size s → enqueue_tx_batch (ps_cur s) (ps_mem s) size xs = Ret (n, p, m) →
      preach size (mkP p m (ps_staged s ++ take (Z.to_nat n) xs) (ps_delivered s))
  | preach_available s n p :
      preach size s → tx_available (ps_cur s) (ps_mem s) = Ret (n, p) →
      preach size (mkP p (ps_mem s) (ps_staged s) (ps_delivered s))
  | preach_commit s :
      preach size s →
      preach size (mkP (ps_cur s) (commit (ps_cur s) (ps_mem s)) (ps_staged s) (ps_delivered s))
  | preach_kernel s l :
      preach size s → kernel_takes size (ps_mem s) l →
      preach size (mkP (ps_cur s)
        (mkRing (producer (ps_mem s)) (wrapping_add 32 (consumer (ps_mem s)) (len l))
           (flags (ps_mem s)) (desc (ps_mem s)))
        (ps_staged s) (ps_delivered s ++ l)).

Definition pstate_ok {A} (size : Z) (s : pstate A) : Prop :=
  ∃ C Pub, pinv size C (len (ps_delivered s)) Pub (ps_staged s) (ps_cur s) (ps_mem s) ∧
    ps_delivered s = take (Z.to_nat (len (ps_delivered s))) (ps_staged s).

Lemma take_prefix_app {A} (d st xs : list A) :
  len d ≤ len st → d = take (Z.to_nat (len d)) st → d = take (Z.to_nat (len d)) (st ++ xs).
Proof. intros Hl Hd. rewrite take_app_le; [done|]. unfold len in *. lia. Qed.

Lemma kernel_takes_ok {A} size C D Pub (staged l : list A) p m :
  pinv size C D Pub staged p m → kernel_takes size m l →
  D + len l ≤ Pub ∧ l = window staged D (len l).
Proof.
  intros Hi [Hl Hj]. pose proof (ring_size_pos _ (pi_size _ _ _ _ _ _ _ Hi)).
  pose proof (pi_order _ _ _ _ _ _ _ Hi) as Ho. pose proof (len_nonneg l).
  rewrite (pi_prod _ _ _ _ _ _ _ Hi), (pi_cons _ _ _ _ _ _ _ Hi), wrapping_dist in Hl by lia.
  split; [lia|]. apply window_eq; try lia. intros j Hjr. rewrite Hj by done.
  rewrite (pi_cons _ _ _ _ _ _ _ Hi), ring_index_mod by apply Hi.
  apply (pi_slots _ _ _ _ _ _ _ Hi). lia.
Qed.

Lemma preach_ok {A} size (s : pstate A) : ring_size size → preach size s → pstate_ok size s.
Proof.
  intros Hs. pose proof (ring_size_pos _ Hs). induction 1 as
    [d fl Hd|s x b p m _ (C & Pub & Hi & Hd) E|s xs n p m _ (C & Pub & Hi & Hd) E
    |s n p _ (C & Pub & Hi & Hd) E|s _ (C & Pub & Hi & Hd)|s l _ (C & Pub & Hi & Hd) Hk].
  - exists 0, 0. split; [|done]. split; cbn; try done; change (len (@nil A)) with 0; lia.
  - destruct (enqueue_tx_ok _ _ _ _ _ _ _ x Hi) as (b' & p' & m' & C' & E' & Hi' & _).
    rewrite E in E'. injection E' as -> -> ->. exists C', Pub. split; [done|]. cbn.
    apply take_prefix_app; [|done]. pose proof (pi_order _ _ _ _ _ _ _ Hi). lia.
  - destruct (enqueue_tx_batch_ok _ _ _ _ _ _ _ xs Hi) as (n' & p' & m' & C' & E' & _ & Hi' & _).
    rewrite E in E'. injection E' as -> -> ->. exists C', Pub. split; [done|]. cbn.
    apply take_prefix_app; [|done]. pose proof (pi_order _ _ _ _ _ _ _ Hi). lia.
  - unfold tx_available in E. apply bind_ret_inv in E as (a & _ & [= -> <-]).
    exists (len (ps_delivered s)), Pub. split; [|done]. by apply pinv_sync with C.
  - exists C, (len (ps_staged s)). split; [|done]. by apply pinv_commit with Pub.
  - destruct (kernel_takes_ok _ _ _ _ _ _ _ _ Hi Hk) as [Hle Hw]. exists C, Pub. cbn.
    pose proof (pi_order _ _ _ _ _ _ _ Hi) as Ho. pose proof (len_nonneg l). split.
    + destruct Hi as [? ? ? ? ? ? ? Hc Hsl]. rewrite len_app. split; cbn; try done; try lia.
      * by rewrite Hc, wrapping_step.
      * intros i Hi. apply Hsl. lia.
    + rewrite len_app. rewrite Hd at 1. rewrite Hw at 1. unfold window.
      rewrite Z2Nat.inj_add by (apply len_nonneg). apply take_take_drop.
Qed.

(** C4. The producer rings lose nothing, duplicate nothing and keep order:
    from a fresh ring of any power-of-two size, after any interleaving of
    single and batch enqueues, availability queries, commits and kernel
    consumption, and however often the 32-bit indices have wrapped, the
    entries the kernel took followed by the entries still in the ring are
    exactly the accepted entries in order, and at most [size] are in the
    ring. Every further operation returns: the [debug_assert] holds and no
    write leaves the ring. *)
Theorem tx_ring_lossless {A} (size : Z) (s : pstate A) :
  ring_size size → preach size s →
  (∃ pending, ps_staged s = ps_delivered s ++ pending ∧ len pending ≤ size) ∧
  (∀ x, ∃ r, enqueue_tx (ps_cur s) (ps_mem s) size x = Ret r) ∧
  (∀ xs, ∃ r, enqueue_tx_batch (ps_cur s) (ps_mem s) size xs = Ret r) ∧
  (∃ r, tx_available (ps_cur s) (ps_mem s) = Ret r).
Proof.
  intros Hs Hr. destruct (preach_ok size s Hs Hr) as (C & Pub & Hi & Hd). split_and!.
  - exists (drop (Z.to_nat (len (ps_delivered s))) (ps_staged s)).
    rewrite Hd at 1. rewrite take_drop. split; [done|].
    pose proof (pi_order _ _ _ _ _ _ _ Hi). rewrite len_drop by apply len_nonneg. lia.
  - intros x. destruct (enqueue_tx_ok _ _ _ _ _ _ _ x Hi) as (b & p & m & C' & E & _). eauto.
  - intros xs. destruct (enqueue_tx_batch_ok _ _ _ _ _ _ _ xs Hi) as (n & p & m & C' & E & _). eauto.
  - unfold tx_available. rewrite (pinv_available _ _ _ _ _ _ _ (pinv_sync _ _ _ _ _ _ _ Hi)). run. eauto.
Qed.

(** A ring of four slots after staging three entries and committing, with the
    kernel having taken two. *)
Definition demo_ring : pstate Z :=
  mkP (mkProducer 3 0 4) (mkRing 3 2 0 [7; 8; 9; 0]) [7; 8; 9] [7; 8].

Lemma tx_ring_lossless_witness :
  (∃ pending, ps_staged demo_ring = ps_delivered demo_ring ++ pending ∧ len pending ≤ 4) ∧
  (∀ x, ∃ r, enqueue_tx (ps_cur demo_ring) (ps_mem demo_ring) 4 x = Ret r) ∧
  (∀ xs, ∃ r, enqueue_tx_batch (ps_cur demo_ring) (ps_mem demo_ring) 4 xs = Ret r) ∧
  (∃ r, tx_available (ps_cur demo_ring) (ps_mem demo_ring) = Ret r).
Proof.
  apply (tx_ring_lossless 4 demo_ring).
  - exists 2. split; [lia|reflexivity].
  - refine (preach_kernel 4 (mkP (mkProducer 3 0 4) (mkRing 3 0 0 [7; 8; 9; 0]) [7; 8; 9] []) [7; 8] _ _).
    + refine (preach_commit 4 (mkP (mkProducer 3 0 4) (mkRing 0 0 0 [7; 8; 9; 0]) [7; 8; 9] []) _).
      refine (preach_batch 4 (mkP (mkProducer 0 0 4) (mkRing 0 0 0 [0; 0; 0; 0]) [] []) [7; 8; 9] 3 _ _ _ _).
      * by apply preach_init.
      * vm_compute. reflexivity.
    + split; [vm_compute; discriminate|]. intros j [H0 H1].
      change (len [7; 8]) with 2 in H1. assert (j = 0 ∨ j = 1) as [-> | ->] by lia; reflexivity.
Defined.

(** A RX or COMPLETION ring: what the kernel pushed and what userspace
    drained, in order. *)
Record cstate (A : Type) := mkC {
  cs_cur : RingConsumer;
  cs_mem : RingMem A;
  cs_pushed : list A;
  cs_drained : list A;
}.
Arguments mkC {A} _ _ _ _.
Arguments cs_cur {A} _.
Arguments cs_mem {A} _.
Arguments cs_pushed {A} _.
Arguments cs_drained {A} _.

(** The kernel pushes one entry into a free slot and publishes it. *)
Definition kernel_pushes {A} (size : Z) (m m' : RingMem A) (x : A) : Prop :=
  wrapping_sub 32 (producer m) (consumer m) < size ∧
  m' = mkRing (wrapping_add 32 (producer m) 1) (consumer m) (flags m)
         (<[Z.to_nat (Z.land (producer m) (size - 1)) := x]> (desc m)).

Inductive creach {A} (size : Z) : cstate A → Prop :=
  | creach_init d fl :
      len d = size → creach size (mkC consumer_new (mkRing 0 0 fl d) [] [])
  | creach_kernel s x m :
      creach size s → kernel_pushes size (cs_mem s) m x →
      creach size (mkC (cs_cur s) m (cs_pushed s ++ [x]) (cs_drained s))
  | creach_rx s cap max out n c m l :
      creach size s → 0 ≤ max →
      drain_rx (cs_cur s) (cs_mem s) size cap max out = Ret (n, c, m, out ++ l) →
      creach size (mkC c m (cs_pushed s) (cs_drained s ++ l))
  | creach_completion s cap out n c m l :
      creach size s →
      drain_completion (cs_cur s) (cs_mem s) size cap out = Ret (n, c, m, out ++ l) →
      creach size (mkC c m (cs_pushed s) (cs_drained s ++ l))
  | creach_slices s max (f := λ a b (_ : list A), Ret (a ++ b, @Ok unit unit tt)) n c m l :
      creach size s → 0 ≤ max →
      drain_completion_slices (cs_cur s) (cs_mem s) size max f [] = Ret (l, Ok n, c, m) →
      creach size (mkC c m (cs_pushed s) (cs_drained s ++ l)).

Definition cstate_ok {A} (size : Z) (s : cstate A) : Prop :=
  ∃ Pc, cinv size Pc (len (cs_drained s)) (len (cs_drained s)) (cs_pushed s) (cs_cur s) (cs_mem s) ∧
    cs_drained s = take (Z.to_nat (len (cs_drained s))) (cs_pushed s).

Lemma cinv_push {A} size Pc T (pushed : list A) c m m' x :
  cinv size Pc T T pushed c m → kernel_pushes size m m' x → cinv size Pc T T (pushed ++ [x]) c m'.
Proof.
  intros [Hs Hd Ho Hcp Hcc Hp Hc Hsl] [Hroom ->]. pose proof (ring_size_pos _ Hs).
  rewrite Hp, Hc, wrapping_dist in Hroom by lia. rewrite Hp, ring_index_mod0 by done.
  pose proof (Z.mod_pos_bound (len pushed) size ltac:(lia)).
  split; cbn; rewrite ?len_snoc, ?len_insert; try done; try lia.
  - by rewrite wrapping_step.
  - intros i Hi. rewrite nthZ_insert by lia. case_decide as E.
    + assert (i = len pushed) as -> by (apply (mod_window_inj size T); lia). by rewrite nthZ_snoc.
    + rewrite Hsl, nthZ_app_l by (destruct (decide (i = len pushed)); [subst; done|lia]).
      done.
Qed.

Lemma drained_window {A} (pushed drained : list A) n :
  0 ≤ n → drained = take (Z.to_nat (len drained)) pushed → len drained + n ≤ len pushed →
  len (drained ++ window pushed (len drained) n) = len drained + n ∧
  drained ++ window pushed (len drained) n = take (Z.to_nat (len drained + n)) pushed.
Proof.
  intros Hn Hd Hl. pose proof (len_nonneg drained). split.
  - unfold window. rewrite len_app, len_take, len_drop by lia. lia.
  - rewrite Hd at 1. unfold window. rewrite Z2Nat.inj_add by lia. apply take_take_drop.
Qed.

Lemma creach_ok {A} size (s : cstate A) : ring_size size → creach size s → cstate_ok size s.
Proof.
  intros Hs. pose proof (ring_size_pos _ Hs).
  assert (Hfin : ∀ (pushed drained l : list A) Pc n c m,
    0 ≤ n → l = window pushed (len drained) n → drained = take (Z.to_nat (len drained)) pushed →
    cinv size Pc (len drained + n) (len drained + n) pushed c m →
    cstate_ok size (mkC c m pushed (drained ++ l))).
  { intros pushed drained l Pc n c m Hn -> Hd Hi. exists Pc. cbn.
    pose proof (cv_order _ _ _ _ _ _ _ Hi).
    destruct (drained_window pushed drained n Hn Hd ltac:(lia)) as [Hl He].
    rewrite Hl. split; [done|exact He]. }
  induction 1 as [d fl Hd|s x m _ (Pc & Hi & Hd) Hk|s cap max out n c m l _ (Pc & Hi & Hd) Hmax E
    |s cap out n c m l _ (Pc & Hi & Hd) E|s max f n c m l _ (Pc & Hi & Hd) Hmax E].
  - exists 0. split; [|done]. split; cbn; try done; change (len (@nil A)) with 0; lia.
  - exists Pc. cbn. split; [by eapply cinv_push|].
    pose proof (cv_order _ _ _ _ _ _ _ Hi). apply take_prefix_app; [lia|done].
  - destruct (drain_rx_ok _ _ _ _ _ _ cap max out Hi Hmax) as (c' & m' & E' & Hn & Hi').
    rewrite E in E'. injection E' as -> -> -> El. apply app_inv_head in El. by eapply Hfin.
  - rewrite drain_completion_eq in E.
    destruct (drain_rx_ok _ _ _ _ _ _ cap (saturating_sub cap (len out)) out Hi ltac:(unfold saturating_sub; lia))
      as (c' & m' & E' & Hn & Hi').
    rewrite E in E'. injection E' as -> -> -> El. apply app_inv_head in El. by eapply Hfin.
  - destruct (drain_completion_slices_ok _ _ _ _ _ _ max f [] Hi Hmax) as (c' & m' & Hi' & Hr).
    set (k := Z.min _ _) in *.
    assert (0 ≤ k).
    { pose proof (cv_order _ _ _ _ _ _ _ Hi). pose proof (wrap_fits 32 (Z.min max U32_MAX) ltac:(lia)) as [? _].
      unfold k. lia. }
    destruct (Z.eqb_spec k 0) as [E0|].
    + rewrite E in Hr. injection Hr as -> -> -> ->. rewrite E0 in Hi'.
      eapply (Hfin _ _ _ _ 0); [lia|done|done|exact Hi'].
    + destruct Hr as (first & second & Hw & Hr). rewrite E in Hr. cbn in Hr. injection Hr as -> -> -> ->.
      by eapply Hfin.
Qed.


Definition demo_rx : cstate Z :=
  mkC consumer_new (mkRing 2 0 0 [5; 6; 0; 0]) [5; 6] [].


(** The FILL-ring operations agree: pushing addresses one at a time or as
    one batch publishes the same prefix of the addresses (as many as fit),
    and a configuration that [RingSizes::validate] accepts has rings whose
    masks index within them, with every part of the mapping inside the mapped
    length. *)
Theorem fill_ring_ops {A} (size C D : Z) (staged xs : list A) (p : RingProducer) (m : RingMem A) (s : RingSizes) :
  pinv size C D (len staged) staged p m → len xs ≤ U32_MAX →
  ring_sizes_validate s = Ok tt → fits 32 (sz_fill s) →
  (∃ n p1 m1 p2 m2, replenish_fill p m size xs = Ret (n, p1, m1) ∧
     replenish_fill_batch p m size xs = Ret (n, p2, m2) ∧
     n = Z.min (len xs) (D + size - len staged) ∧ producer m1 = producer m2) ∧
  (∀ index, 0 ≤ Z.land index (sz_fill s - 1) < sz_fill s) ∧
  (∀ op oc ofl od dl, let l := mmap_ring_len op oc ofl od dl in
     op + 4 ≤ l ∧ oc + 4 ≤ l ∧ ofl + 4 ≤ l ∧ od + dl ≤ l).
Proof.
  intros Hi Hx Hv Hf. pose proof (pi_order _ _ _ _ _ _ _ Hi). split_and!.
  - destruct (replenish_fill_ok _ _ _ _ xs _ _ Hi) as (n1 & p1 & m1 & C1 & E1 & Hn1 & Hi1 & Hf1).
    destruct (replenish_fill_batch_ok _ _ _ _ xs _ _ Hi) as (n2 & p2 & m2 & C2 & E2 & Hn2 & Hi2 & Hf2).
    pose proof (pi_order _ _ _ _ _ _ _ Hi1) as Ho1. pose proof (pi_order _ _ _ _ _ _ _ Hi2) as Ho2.
    rewrite len_app, len_take in Ho1, Ho2 by lia.
    assert (n1 = n2) as -> by lia. exists n2, p1, m1, p2, m2. split_and!; try done; [lia|].
    by rewrite (pi_prod _ _ _ _ _ _ _ Hi1), (pi_prod _ _ _ _ _ _ _ Hi2).
  - unfold ring_sizes_validate, validate_ring_size in Hv.
    destruct (is_power_of_two (sz_fill s)) eqn:E; [|done].
    apply is_power_of_two_spec in E as (k & Hk & ->). intros i. rewrite land_pow2_mask by done.
    apply Z.mod_pos_bound. lia.
  - intros op oc ofl od dl l. unfold l, mmap_ring_len. lia.
Qed.

Lemma fill_ring_ops_witness :
  (∃ n p1 m1 p2 m2, replenish_fill (producer_new 4) (mkRing 0 0 0 [0; 0; 0; 0]) 4 [1; 2; 3; 4; 5] = Ret (n, p1, m1) ∧
     replenish_fill_batch (producer_new 4) (mkRing 0 0 0 [0; 0; 0; 0]) 4 [1; 2; 3; 4; 5] = Ret (n, p2, m2) ∧
     n = Z.min 5 4 ∧ producer m1 = producer m2) ∧
  (∀ index, 0 ≤ Z.land index (2048 - 1) < 2048) ∧
  (∀ op oc ofl od dl, let l := mmap_ring_len op oc ofl od dl in
     op + 4 ≤ l ∧ oc + 4 ≤ l ∧ ofl + 4 ≤ l ∧ od + dl ≤ l).
Proof.
  apply (fill_ring_ops 4 0 0 [] [1; 2; 3; 4; 5] (producer_new 4) (mkRing 0 0 0 [0; 0; 0; 0]) RingSizes_default).
  - split; cbn; try reflexivity; [exists 2; split; [lia|reflexivity]|unfold len; cbn; lia|unfold len; cbn; lia].
  - vm_compute. discriminate.
  - reflexivity.
  - split; [vm_compute; discriminate|reflexivity].
Defined.
