(* ===== verification/Core.v ===== *)
(** * The core vocabulary: [crates/fast-socket-rs/src]

    Errors ([error.rs]), system identifiers ([sys.rs]), batches ([batch.rs]),
    device capabilities and counters ([device.rs]), IP packet metadata
    ([ip_packet.rs]), link-layer addresses with their text form ([route.rs]),
    the polling policy ([policy.rs]) and thread pinning ([affinity.rs]). *)
From Stdlib Require Export Ascii.
From stdpp Require Export strings.
From S2P Require Import Prelude.
Open Scope Z_scope.

(** ** [error.rs] *)
Inductive DeviceErrorKind := Backend | DeviceRemoved | FdClosed | RingCorrupt.

(** The implementation-specific source is only ever displayed: it is its text. *)
Record DeviceError := mkDeviceError {
  de_kind : DeviceErrorKind;
  de_source : option string;
}.
Definition DeviceError_new (kind : DeviceErrorKind) : DeviceError := mkDeviceError kind None.
Definition with_source (kind : DeviceErrorKind) (source : string) : DeviceError :=
  mkDeviceError kind (Some source).

Inductive Error :=
  | WouldBlock
  | InvalidPacket
  | InvalidBatch
  | Device (error : DeviceError)
  | BatchFull
  | Truncated
  | OversizeForMtu
  | NoEgressRoute.

#[export] Instance DeviceErrorKind_eq_dec : EqDecision DeviceErrorKind.
Proof. solve_decision. Defined.
#[export] Instance DeviceError_eq_dec : EqDecision DeviceError.
Proof. solve_decision. Defined.
#[export] Instance Error_eq_dec : EqDecision Error.
Proof. solve_decision. Defined.

(** ** [sys.rs] *)
Definition IfIndex_new (value : Z) : outcome Z := assert! negb (value =? 0); Ret value.
Definition IfIndex_try_new (value : Z) : option Z := if value =? 0 then None else Some value.

Inductive QueueAffinity := Any | Core (cpu : Z) | Mask (mask : Z).
Inductive HugePageSize := HugeDefault | Size4K | Size2M | Size1G.

(** ** [batch.rs]: transmit slots *)
Inductive TxSlot (T : Type) := Ready (item : T) | Taken.
Arguments Ready {T} item.
Arguments Taken {T}.

Definition is_ready {T} (slot : TxSlot T) : bool :=
  match slot with Ready _ => true | Taken => false end.
Definition is_taken {T} (slot : TxSlot T) : bool :=
  match slot with Ready _ => false | Taken => true end.
Definition slot_as_ref {T} (slot : TxSlot T) : option T :=
  match slot with Ready item => Some item | Taken => None end.
(** [take] returns the item and leaves the slot taken. *)
Definition slot_take {T} (slot : TxSlot T) : TxSlot T * option T :=
  match slot with Ready item => (Taken, Some item) | Taken => (Taken, None) end.

Record SendError := mkSendError {
  se_accepted : Z;
  se_kind : Error;
}.

(** ** [batch.rs]: receive batches *)
Record RecvBatch (T : Type) := mkRecvBatch {
  rb_items : list T;
  rb_capacity : Z;
}.
Arguments mkRecvBatch {T} _ _.
Arguments rb_items {T} _.
Arguments rb_capacity {T} _.

Definition with_capacity {T} (capacity : Z) : outcome (RecvBatch T) :=
  assert! 0 <? capacity;
  Ret (mkRecvBatch [] capacity).
Definition rb_len {T} (b : RecvBatch T) : Z := len (rb_items b).
Definition rb_is_empty {T} (b : RecvBatch T) : bool := rb_len b =? 0.
Definition remaining {T} (b : RecvBatch T) : Z := saturating_sub (rb_capacity b) (rb_len b).
Definition rb_clear {T} (b : RecvBatch T) : RecvBatch T := mkRecvBatch [] (rb_capacity b).
Definition rb_push {T} (b : RecvBatch T) (item : T) : RecvBatch T * result unit T :=
  if rb_capacity b <=? rb_len b then (b, Err item)
  else (mkRecvBatch (rb_items b ++ [item]) (rb_capacity b), Ok tt).
(** [drain] empties the batch and yields its items in order. *)
Definition rb_drain {T} (b : RecvBatch T) : RecvBatch T * list T :=
  (mkRecvBatch [] (rb_capacity b), rb_items b).

(** ** [ip_packet.rs] *)
Inductive IpVersion := V4 | V6.
#[export] Instance IpVersion_eq_dec : EqDecision IpVersion.
Proof. solve_decision. Defined.
Inductive ChecksumStatus := Verified | Bad | Unverified | NotChecked.

Record IpPacketRecvMeta := mkIpPacketRecvMeta {
  im_version : IpVersion;
  im_len : Z;
  im_checksum : ChecksumStatus;
}.

(** Flag sets: [TxOffload] is a [u32], [Capabilities] ([device.rs]) a [u64]. *)
Definition flags_contains (self flags : Z) : bool := Z.land self flags =? flags.
Definition flags_union (self flags : Z) : Z := Z.lor self flags.

Definition TxOffload_NONE : Z := 0.
Definition CKSUM_IP : Z := Z.shiftl 1 0.
Definition CKSUM_L4 : Z := Z.shiftl 1 1.

Definition Capabilities_NONE : Z := 0.
Definition CHECKSUM_IPV4 : Z := Z.shiftl 1 0.
Definition CHECKSUM_L4 : Z := Z.shiftl 1 1.
Definition RSS : Z := Z.shiftl 1 2.
Definition TSO : Z := Z.shiftl 1 3.
Definition GRO : Z := Z.shiftl 1 4.
Definition RX_TIMESTAMP : Z := Z.shiftl 1 6.
Definition TX_TIMESTAMP : Z := Z.shiftl 1 7.
Definition INLINE_SECURITY : Z := Z.shiftl 1 8.

Inductive CoreEgress := EgressDefault | EgressRoute (id : Z) | EgressNeighbor (id : Z).

Record IpPacketTransmit (B E A : Type) := mkIpPacketTransmit {
  it_packet : B;
  it_egress : E;
  it_source : option A;
  it_destination : option A;
  it_hop_limit : option Z;
  it_offload : Z;
  it_tso_segment_size : option Z;
}.
Arguments mkIpPacketTransmit {B E A} _ _ _ _ _ _ _.
Arguments it_packet {B E A} _.
Arguments it_egress {B E A} _.
Arguments it_offload {B E A} _.
Arguments it_tso_segment_size {B E A} _.
Definition IpPacketTransmit_new {B E A} (packet : B) (egress : E) : IpPacketTransmit B E A :=
  mkIpPacketTransmit packet egress None None None TxOffload_NONE None.

(** ** [udp.rs]: metadata

    Addresses of the standard library: an IPv4 address is a [u32], an IPv6
    address a [u128]. *)
Inductive IpAddr := IpAddrV4 (a : Z) | IpAddrV6 (a : Z).
Inductive SocketAddr :=
  | SocketAddrV4 (ip port : Z)
  | SocketAddrV6 (ip port flowinfo scope_id : Z).
Definition sa_ip (a : SocketAddr) : IpAddr :=
  match a with
  | SocketAddrV4 ip _ => IpAddrV4 ip
  | SocketAddrV6 ip _ _ _ => IpAddrV6 ip
  end.

Inductive EcnCodepoint := NotEct | Ect0 | Ect1 | Ce.

Record UdpRecvMeta := mkUdpRecvMeta {
  rm_source : SocketAddr;
  rm_destination : option IpAddr;
  rm_destination_port : option Z;
  rm_ecn : option EcnCodepoint;
  rm_len : Z;
  rm_gro_stride : option Z;
}.

Record UdpTransmit (B : Type) := mkUdpTransmit {
  ut_packet : B;
  ut_destination : SocketAddr;
  ut_source_ip : option IpAddr;
  ut_source_port : option Z;
  ut_ecn : option EcnCodepoint;
  ut_gso_segment_size : option Z;
}.
Arguments mkUdpTransmit {B} _ _ _ _ _ _.
Arguments ut_packet {B} _.
Arguments ut_destination {B} _.
Arguments ut_source_ip {B} _.
Arguments ut_source_port {B} _.
Arguments ut_ecn {B} _.
Arguments ut_gso_segment_size {B} _.
Definition UdpTransmit_new {B} (packet : B) (destination : SocketAddr) : UdpTransmit B :=
  mkUdpTransmit packet destination None None None None.

Record UdpEndpointSpec := mkSpec {
  sp_destination : SocketAddr;
  sp_source_ip : option IpAddr;
  sp_source_port : option Z;
  sp_ecn : option EcnCodepoint;
  sp_gso_segment_size : option Z;
  sp_payload_len : option Z;
}.
Definition UdpEndpointSpec_new (destination : SocketAddr) : UdpEndpointSpec :=
  mkSpec destination None None None None None.

Record UdpEndpointTransmit (B : Type) := mkEndpointTransmit { et_packet : B }.
Arguments mkEndpointTransmit {B} _.
Arguments et_packet {B} _.

Record UdpEndpointInfo := mkInfo {
  ei_mtu : Z;
  ei_payload_len : option Z;
  ei_gso_segment_size : option Z;
}.

Record UdpCapabilities := mkUdpCapabilities {
  uc_gso : bool;
  uc_gro : bool;
  uc_max_gso_segments : option Z;
}.
Definition UdpCapabilities_default : UdpCapabilities := mkUdpCapabilities false false None.

(** ** [device.rs]: counters *)
Record RawDeviceStats := mkStats {
  rx_packets : Z;
  rx_bytes : Z;
  tx_packets : Z;
  tx_bytes : Z;
  dropped_fragments : Z;
  dropped_tx_oversize : Z;
  dropped_rx_oversize : Z;
  ring_full : Z;
}.
Definition stats_default : RawDeviceStats := mkStats 0 0 0 0 0 0 0 0.

(** One iteration of [total_stats]. *)
Definition stats_add (total stats : RawDeviceStats) : RawDeviceStats :=
  mkStats
    (saturating_add 64 (rx_packets total) (rx_packets stats))
    (saturating_add 64 (rx_bytes total) (rx_bytes stats))
    (saturating_add 64 (tx_packets total) (tx_packets stats))
    (saturating_add 64 (tx_bytes total) (tx_bytes stats))
    (saturating_add 64 (dropped_fragments total) (dropped_fragments stats))
    (saturating_add 64 (dropped_tx_oversize total) (dropped_tx_oversize stats))
    (saturating_add 64 (dropped_rx_oversize total) (dropped_rx_oversize stats))
    (saturating_add 64 (ring_full total) (ring_full stats)).

(** [RawDevice]: the queues of a device and the counters of each. *)
Class RawDevice (D : Type) := {
  nic_queues : D → list Z;
  device_stats : D → Z → RawDeviceStats;
}.
Definition total_stats `{RawDevice D} (self : D) : RawDeviceStats :=
  foldl (λ total queue, stats_add total (device_stats self queue)) stats_default (nic_queues self).

(** ** [route.rs]: link-layer addresses *)
Inductive LinkAddrParseError := WrongOctetCount | InvalidOctet.

(** [{:x}] of one hexadecimal digit. *)
Definition hex_digit (d : Z) : ascii :=
  if d <? 10 then ascii_of_nat (48 + Z.to_nat d) else ascii_of_nat (87 + Z.to_nat d).
(** [{:02x}] of a [u8]. *)
Definition hex2 (b : Z) : list ascii := [hex_digit (b / 16); hex_digit (b mod 16)].

(** [Display for LinkAddr] (which is [Debug]). *)
Definition LinkAddr_fmt (octets : list Z) : outcome (list ascii) :=
  o0 ← index octets 0; o1 ← index octets 1; o2 ← index octets 2;
  o3 ← index octets 3; o4 ← index octets 4; o5 ← index octets 5;
  Ret (hex2 o0 ++ ":"%char :: hex2 o1 ++ ":"%char :: hex2 o2 ++ ":"%char ::
       hex2 o3 ++ ":"%char :: hex2 o4 ++ ":"%char :: hex2 o5).

(** [str::split(c)]: the parts between the separators, at least one. *)
Fixpoint split_on (c : ascii) (s : list ascii) : list (list ascii) :=
  match s with
  | [] => [[]]
  | x :: s =>
      if decide (x = c) then [] :: split_on c s
      else match split_on c s with
           | part :: parts => (x :: part) :: parts
           | [] => [[x]]
           end
  end.

(** [char::to_digit(16)]. *)
Definition to_digit16 (c : ascii) : option Z :=
  let n := Z.of_nat (nat_of_ascii c) in
  if (48 <=? n) && (n <=? 57) then Some (n - 48)
  else if (97 <=? n) && (n <=? 102) then Some (n - 87)
  else if (65 <=? n) && (n <=? 70) then Some (n - 55)
  else None.

(** The digit loop of [u8::from_str_radix]: overflow is an error. *)
Fixpoint radix16_digits (acc : Z) (s : list ascii) : option Z :=
  match s with
  | [] => Some acc
  | c :: s =>
      d ← to_digit16 c;
      acc ← checked_mul 8 acc 16;
      acc ← checked_add 8 acc d;
      radix16_digits acc s
  end.

(** [u8::from_str_radix(s, 16)]: the empty string and a lone sign are errors,
    one leading plus sign is skipped, and for an unsigned type a minus sign is
    not a digit. *)
Definition u8_from_str_radix16 (s : list ascii) : option Z :=
  match s with
  | [] => None
  | ["+"%char] | ["-"%char] => None
  | "+"%char :: s => radix16_digits 0 s
  | _ => radix16_digits 0 s
  end.

(** The [for octet in octets.iter_mut()] loop of [from_str]. *)
Fixpoint parse_octets (n : nat) (parts : list (list ascii)) :
    result (list Z * list (list ascii)) LinkAddrParseError :=
  match n with
  | O => Ok ([], parts)
  | S n =>
      match parts with
      | [] => Err WrongOctetCount
      | part :: parts =>
          if negb (len part =? 2) then Err InvalidOctet
          else
            o <-? ok_or (u8_from_str_radix16 part) InvalidOctet;
            r <-? parse_octets n parts;
            Ok (o :: r.1, r.2)
      end
  end.

Definition LinkAddr_from_str (value : list ascii) : result (list Z) LinkAddrParseError :=
  r <-? parse_octets 6 (split_on ":"%char value);
  match r.2 with
  | [] => Ok r.1
  | _ :: _ => Err WrongOctetCount
  end.

(** ** [policy.rs] *)
Inductive PollMode := WaitDriven | BusyPoll.
Inductive WaitOutcome := WaitReady | WaitTimeout | WaitSpurious.

Class PollDriver (D : Type) := {
  driver_mode : PollMode;
  driver_wait : D → option Z → D * result WaitOutcome Error;
  driver_wake_handle : D → option Z;
}.
Inductive BusyPollDriver := BusyPollDriver_new.
#[export] Instance busy_poll_driver : PollDriver BusyPollDriver := {
  driver_mode := BusyPoll;
  driver_wait self _timeout := (self, Ok WaitSpurious);
  driver_wake_handle _ := None;
}.

(** ** [affinity.rs]: the CPU set a pinning request hands to the kernel

    [sched_setaffinity] is an argument: it gets the set of CPUs and answers
    whether the system call succeeded, with the OS error otherwise. *)
Inductive IoError := InvalidInput | OsError (code : Z).
Inductive PinOutcome := Pinned (affinity : QueueAffinity) | NoHint.
Definition CPU_SETSIZE : Z := 1024.

Section Affinity.
Context (sched_setaffinity : gset Z → result unit Z).

Definition set_affinity (cpus : gset Z) : result unit IoError :=
  match sched_setaffinity cpus with
  | Ok _ => Ok tt
  | Err code => Err (OsError code)
  end.

Definition pin_current_thread_to_cpu (cpu : Z) : result unit IoError :=
  if CPU_SETSIZE <=? cpu then Err InvalidInput
  else set_affinity {[ cpu ]}.

(** [for bit in 0..u64::BITS { if mask & (1 << bit) != 0 { CPU_SET(bit) } }] *)
Definition mask_cpus (mask : Z) : gset Z :=
  foldl (λ cpus bit,
           if negb (Z.land mask (Z.shiftl 1 bit) =? 0) then {[ bit ]} ∪ cpus else cpus)
    ∅ (seqZ 0 64).

Definition pin_current_thread_to_mask (mask : Z) : result unit IoError :=
  if mask =? 0 then Err InvalidInput
  else set_affinity (mask_cpus mask).

Definition pin_current_thread_to_affinity (affinity : QueueAffinity) : result PinOutcome IoError :=
  match affinity with
  | Any => Ok NoHint
  | Core cpu =>
      _ <-? pin_current_thread_to_cpu cpu;
      Ok (Pinned (Core cpu))
  | Mask mask =>
      _ <-? pin_current_thread_to_mask mask;
      Ok (Pinned (Mask mask))
  end.

End Affinity.
