(* ===== verification/CoreMain.v ===== *)
(** * Properties of the core vocabulary

    Link-layer address text, device counters, receive batches and thread
    pinning ([Core]). *)
From S2P Require Import Prelude Core.
Open Scope Z_scope.

(** ** Link-layer addresses *)
Definition plain (s : list ascii) : Prop := ":"%char ∉ s.

Lemma split_on_nil c s : split_on c s ≠ [].
Proof. destruct s as [|x s]; cbn; [done|]. case_decide; [done|]. by destruct (split_on c s). Qed.

Lemma split_on_app c part s :
  c ∉ part → split_on c (part ++ c :: s) = part :: split_on c s.
Proof.
  induction part as [|x part IH]; intros Hc; cbn.
  - by rewrite decide_True.
  - rewrite decide_False by set_solver. rewrite IH by set_solver. done.
Qed.

Lemma split_on_plain c part : c ∉ part → split_on c part = [part].
Proof.
  induction part as [|x part IH]; intros Hc; cbn; [done|].
  rewrite decide_False by set_solver. rewrite IH by set_solver. done.
Qed.

Lemma hex_digit_props d :
  0 ≤ d < 16 → to_digit16 (hex_digit d) = Some d ∧ hex_digit d ≠ ":"%char ∧ hex_digit d ≠ "+"%char.
Proof.
  intros Hd.
  assert (Hc : d = 0 ∨ d = 1 ∨ d = 2 ∨ d = 3 ∨ d = 4 ∨ d = 5 ∨ d = 6 ∨ d = 7 ∨ d = 8 ∨ d = 9
    ∨ d = 10 ∨ d = 11 ∨ d = 12 ∨ d = 13 ∨ d = 14 ∨ d = 15) by lia.
  destruct_or! Hc; subst d; split_and!; done.
Qed.

Lemma to_digit16_range c d : to_digit16 c = Some d → 0 ≤ d < 16.
Proof.
  unfold to_digit16. set (n := Z.of_nat (nat_of_ascii c)).
  destruct (Z.leb_spec 48 n), (Z.leb_spec n 57), (Z.leb_spec 97 n), (Z.leb_spec n 102),
    (Z.leb_spec 65 n), (Z.leb_spec n 70); cbn; intros [= <-]; lia.
Qed.

(** The texts of one octet that the parser reads. *)
Inductive octet_text : list ascii → Z → Prop :=
  | octet_hex a b x y :
      to_digit16 a = Some x → to_digit16 b = Some y → octet_text [a; b] (16 * x + y)
  | octet_plus b y : to_digit16 b = Some y → octet_text ["+"%char; b] y.

Lemma checked_add_ok w a b : a + b < 2 ^ w → checked_add w a b = Some (a + b).
Proof. intros. unfold checked_add. by destruct (Z.ltb_spec (a + b) (2 ^ w)); [|lia]. Qed.

Lemma checked_mul_ok w a b : a * b < 2 ^ w → checked_mul w a b = Some (a * b).
Proof. intros. unfold checked_mul. by destruct (Z.ltb_spec (a * b) (2 ^ w)); [|lia]. Qed.

Lemma radix16_step acc c s d :
  to_digit16 c = Some d → 0 ≤ acc < 16 →
  radix16_digits acc (c :: s) = radix16_digits (16 * acc + d) s.
Proof.
  intros Hd Hacc. pose proof (to_digit16_range _ _ Hd). cbn [radix16_digits]. rewrite Hd.
  cbn [mbind option_bind]. rewrite checked_mul_ok by lia. cbn [mbind option_bind].
  rewrite checked_add_ok by lia. cbn [mbind option_bind]. f_equal. lia.
Qed.

Lemma radix16_pair a b : radix16_digits 0 [a; b]
  = (x ← to_digit16 a; y ← to_digit16 b; Some (16 * x + y)).
Proof.
  destruct (to_digit16 a) as [x|] eqn:Ha.
  - rewrite (radix16_step _ _ _ x) by (done || lia). pose proof (to_digit16_range _ _ Ha).
    cbn [mbind option_bind]. destruct (to_digit16 b) as [y|] eqn:Hb.
    + rewrite (radix16_step _ _ _ y) by (done || lia). done.
    + cbn [radix16_digits]. by rewrite Hb.
  - cbn [radix16_digits]. by rewrite Ha.
Qed.

Lemma radix16_one b : radix16_digits 0 [b] = to_digit16 b.
Proof.
  destruct (to_digit16 b) as [y|] eqn:Hb.
  - by rewrite (radix16_step _ _ _ y) by (done || lia).
  - cbn [radix16_digits]. by rewrite Hb.
Qed.

Lemma from_str_radix_pair a b :
  u8_from_str_radix16 [a; b]
  = if decide (a = "+"%char) then to_digit16 b else radix16_digits 0 [a; b].
Proof.
  case_decide as Ha; [subst; apply radix16_one|].
  destruct a as [[] [] [] [] [] [] [] []]; try reflexivity. by destruct Ha.
Qed.

Lemma octet_text_iff part o :
  octet_text part o ↔ len part = 2 ∧ u8_from_str_radix16 part = Some o.
Proof.
  split.
  - destruct 1 as [a b x y Hx Hy|b y Hy]; (split; [done|]); rewrite from_str_radix_pair.
    + rewrite decide_False by (intros ->; done). by rewrite radix16_pair, Hx, Hy.
    + by rewrite decide_True.
  - intros [Hl Ho]. destruct part as [|a [|b [|]]]; try (exfalso; unfold len in Hl; cbn in Hl; lia).
    rewrite from_str_radix_pair in Ho. case_decide as Ha; [subst; by constructor|].
    rewrite radix16_pair in Ho. destruct (to_digit16 a) as [x|] eqn:Hx; [|done].
    destruct (to_digit16 b) as [y|] eqn:Hy; [|done]. cbn in Ho. simplify_eq. by constructor.
Qed.

Lemma octet_text_fits part o : octet_text part o → fits 8 o.
Proof.
  unfold fits. destruct 1 as [a b x y Hx%to_digit16_range Hy%to_digit16_range|b y Hy%to_digit16_range]; lia.
Qed.

Lemma parse_octets_iff n parts os rest :
  parse_octets n parts = Ok (os, rest)
  ↔ length os = n ∧ ∃ used, parts = used ++ rest ∧ Forall2 octet_text used os.
Proof.
  revert parts os rest. induction n as [|n IH]; intros parts os rest; cbn.
  - split; [intros [= <- <-]; split; [done|]; by exists []|].
    intros [Hl (used & -> & HF)]. destruct os; [|done]. by inversion HF; subst.
  - destruct parts as [|part parts].
    + split; [done|]. intros [Hl (used & Hu & HF)]. symmetry in Hu. apply app_nil in Hu as [-> _].
      apply Forall2_length in HF. cbn in HF. lia.
    + split.
      * destruct (Z.eqb_spec (len part) 2) as [H2|]; [|done]. cbn [negb].
        destruct (u8_from_str_radix16 part) as [o|] eqn:Ho; [|done]. cbn.
        destruct (parse_octets n parts) as [[os' rest']|] eqn:Hp; [|done]. cbn. intros [= <- <-].
        apply IH in Hp as [Hl (used & -> & HF)]. split; [cbn; lia|].
        exists (part :: used). split; [done|]. constructor; [|done]. by apply octet_text_iff.
      * intros [Hl (used & Hu & HF)]. destruct os as [|o os]; [done|].
        inversion HF as [|part' o' used' os' Ho HF']; subst. simplify_eq/=.
        apply octet_text_iff in Ho as [H2 Ho].
        destruct (Z.eqb_spec (len part') 2); [|done]. cbn [negb]. rewrite Ho. cbn.
        assert (Hp : parse_octets (length os) (used' ++ rest) = Ok (os, rest)).
        { apply IH. split; [done|]. by exists used'. }
        by rewrite Hp.
Qed.

Lemma from_str_iff s os :
  LinkAddr_from_str s = Ok os ↔ length os = 6%nat ∧ Forall2 octet_text (split_on ":"%char s) os.
Proof.
  unfold LinkAddr_from_str. split.
  - destruct (parse_octets 6 _) as [[os' rest]|] eqn:Hp; [|done]. cbn.
    destruct rest; [|done]. intros [= <-]. apply parse_octets_iff in Hp as [Hl (used & Hu & HF)].
    by rewrite app_nil_r in Hu; subst used.
  - intros [Hl HF]. assert (Hp : parse_octets 6 (split_on ":"%char s) = Ok (os, [])).
    { apply parse_octets_iff. split; [done|]. eexists. by rewrite app_nil_r. }
    by rewrite Hp.
Qed.

Lemma hex2_text o : fits 8 o → octet_text (hex2 o) o ∧ plain (hex2 o).
Proof.
  intros Ho. unfold fits in Ho. assert (0 ≤ o / 16 < 16) by (split; [apply Z.div_pos; lia|apply Z.div_lt_upper_bound; lia]).
  assert (0 ≤ o mod 16 < 16) by (apply Z.mod_pos_bound; lia).
  destruct (hex_digit_props (o / 16)) as (H1 & H2 & _); [done|].
  destruct (hex_digit_props (o mod 16)) as (H3 & H4 & _); [done|]. split.
  - pose proof (octet_hex _ _ _ _ H1 H3) as Hx. by rewrite <- (Z.div_mod o 16) in Hx.
  - unfold plain, hex2. rewrite !not_elem_of_cons. split_and!; auto using not_elem_of_nil.
Qed.

(** Every link-layer address prints to a string that parses back to it,
    and the parser accepts exactly the strings of six colon-separated octets
    whose text is two hexadecimal digits or a plus sign and one digit, so an
    accepted address always has six byte-sized octets. *)
Theorem link_addr_roundtrip :
  (∀ octets, length octets = 6%nat → Forall (fits 8) octets →
     ∃ s, LinkAddr_fmt octets = Ret s ∧ LinkAddr_from_str s = Ok octets) ∧
  (∀ s octets, LinkAddr_from_str s = Ok octets ↔
     length octets = 6%nat ∧ Forall2 octet_text (split_on ":"%char s) octets) ∧
  (∀ s octets, LinkAddr_from_str s = Ok octets → length octets = 6%nat ∧ Forall (fits 8) octets).
Proof.
  split_and!.
  - intros octets Hl HF.
    destruct octets as [|o0 [|o1 [|o2 [|o3 [|o4 [|o5 [|]]]]]]]; try done.
    eexists. split; [reflexivity|]. apply from_str_iff. split; [done|].
    rewrite !Forall_cons in HF. destruct HF as (H0 & H1 & H2 & H3 & H4 & H5 & _).
    destruct (hex2_text o0), (hex2_text o1), (hex2_text o2), (hex2_text o3), (hex2_text o4),
      (hex2_text o5); try done.
    rewrite !split_on_app, split_on_plain by done. by repeat constructor.
  - apply from_str_iff.
  - intros s octets Hs%from_str_iff. destruct Hs as [Hl HF]. split; [done|].
    clear Hl. induction HF; constructor; eauto using octet_text_fits.
Qed.

Lemma link_addr_roundtrip_witness :
  LinkAddr_fmt [222; 173; 190; 239; 0; 1] = Ret (String.list_ascii_of_string "de:ad:be:ef:00:01") ∧
  LinkAddr_from_str (String.list_ascii_of_string "de:ad:be:ef:00:01")
  = Ok [222; 173; 190; 239; 0; 1].
Proof.
  split; [reflexivity|].
  destruct (proj1 link_addr_roundtrip [222; 173; 190; 239; 0; 1]) as (s & Hs & Hp).
  - reflexivity.
  - repeat constructor; discriminate.
  - injection Hs as <-. exact Hp.
Defined.

(** The parser accepts an octet written as a plus sign and one hexadecimal
    digit, which is not two hexadecimal digits: the string with that octet and
    the string with a leading zero parse to the same address, which prints as
    the second one. *)
Theorem link_addr_plus_sign :
  LinkAddr_from_str (String.list_ascii_of_string "02:00:00:00:00:+f") = Ok [2; 0; 0; 0; 0; 15] ∧
  LinkAddr_from_str (String.list_ascii_of_string "02:00:00:00:00:0f") = Ok [2; 0; 0; 0; 0; 15] ∧
  LinkAddr_fmt [2; 0; 0; 0; 0; 15] = Ret (String.list_ascii_of_string "02:00:00:00:00:0f") ∧
  to_digit16 "+"%char = None.
Proof. split_and!; reflexivity. Qed.

(** ** Counters *)
Definition counters (s : RawDeviceStats) : list Z :=
  [rx_packets s; rx_bytes s; tx_packets s; tx_bytes s; dropped_fragments s;
   dropped_tx_oversize s; dropped_rx_oversize s; ring_full s].
Definition stats_ok (s : RawDeviceStats) : Prop := Forall (fits 64) (counters s).
Definition field_sum (f : RawDeviceStats → Z) (l : list RawDeviceStats) : Z :=
  foldr (λ s acc, f s + acc) 0 l.

Lemma foldl_saturating (f : RawDeviceStats → Z) (l : list RawDeviceStats) (t : RawDeviceStats) :
  (∀ a b, f (stats_add a b) = saturating_add 64 (f a) (f b)) →
  Forall (λ s, 0 ≤ f s) l → 0 ≤ f t ≤ U64_MAX →
  f (foldl stats_add t l) = Z.min U64_MAX (f t + field_sum f l).
Proof.
  intros Hf HF. revert t. induction HF as [|s l Hs HF IH]; intros t Ht; cbn [foldl field_sum foldr].
  { rewrite Z.add_0_r. lia. }
  assert (Hsum : 0 ≤ field_sum f l).
  { clear -HF. induction HF; cbn; [done|]. fold (field_sum f l). lia. }
  assert (HM : 2 ^ 64 - 1 = U64_MAX) by reflexivity.
  rewrite IH; rewrite Hf; unfold saturating_add; fold (field_sum f l); lia.
Qed.

(** Case analysis on the counter a membership hypothesis names. *)
Ltac each_counter H tac :=
  rewrite !elem_of_cons in H; destruct_or! H; [subst; tac ..| by apply elem_of_nil in H].

(** The totals of a device are, counter by counter, the sum over its
    queues, clamped to the largest [u64]: no total wraps around. *)
Theorem total_stats_exact `{RawDevice D} (d : D) :
  (∀ q, q ∈ nic_queues d → stats_ok (device_stats d q)) →
  ∀ f, f ∈ [rx_packets; rx_bytes; tx_packets; tx_bytes; dropped_fragments;
            dropped_tx_oversize; dropped_rx_oversize; ring_full] →
  f (total_stats d) = Z.min U64_MAX (field_sum f (device_stats d <$> nic_queues d)).
Proof.
  intros Hok f Hf. unfold total_stats.
  assert (Hfold : ∀ l t, foldl (λ total queue, stats_add total (device_stats d queue)) t l
                         = foldl stats_add t (device_stats d <$> l)).
  { intros l. induction l as [|q l IH]; intros t; cbn; [done|]. by rewrite IH. }
  rewrite Hfold.
  assert (HF : Forall (λ s, 0 ≤ f s) (device_stats d <$> nic_queues d)).
  { apply Forall_fmap, Forall_forall. intros q Hq. specialize (Hok q Hq).
    unfold stats_ok, counters in Hok. rewrite !Forall_cons in Hok. unfold fits in Hok. cbn.
    each_counter Hf lia. }
  assert (Hadd : ∀ a b, f (stats_add a b) = saturating_add 64 (f a) (f b)).
  { intros a b. each_counter Hf done. }
  assert (H0 : f stats_default = 0).
  { each_counter Hf done. }
  rewrite foldl_saturating; rewrite ?H0; [done| done | done | unfold U64_MAX; lia].
Qed.

Lemma total_stats_exact_witness :
  let d := [mkStats 10 640 3 192 0 0 0 1; mkStats U64_MAX 1 4 256 2 0 0 0] in
  let dev : RawDevice (list RawDeviceStats) :=
    {| nic_queues l := seqZ 0 (len l);
       device_stats l q := default stats_default (nthZ l q) |} in
  rx_packets (total_stats d) = U64_MAX ∧ tx_packets (total_stats d) = 7.
Proof.
  intros d dev.
  assert (Hok : ∀ q, q ∈ nic_queues d → stats_ok (device_stats d q)).
  { intros q Hq. change (q ∈ [0; 1]) in Hq.
    each_counter Hq ltac:(apply (bool_decide_unpack _); vm_compute; exact I). }
  split.
  - rewrite (total_stats_exact d Hok rx_packets) by set_solver. reflexivity.
  - rewrite (total_stats_exact d Hok tx_packets) by set_solver. reflexivity.
Defined.

(** ** Receive batches *)
Inductive rb_op (T : Type) := OpPush (item : T) | OpClear | OpDrain.
Arguments OpPush {T} item.
Arguments OpClear {T}.
Arguments OpDrain {T}.

(** One operation: the new batch, the items handed back to the caller and the
    items dropped. *)
Inductive rb_step {T} : RecvBatch T → rb_op T → RecvBatch T → list T → list T → Prop :=
  | step_push_ok b item b' : rb_push b item = (b', Ok tt) → rb_step b (OpPush item) b' [] []
  | step_push_full b item b' x : rb_push b item = (b', Err x) → rb_step b (OpPush item) b' [x] []
  | step_clear b : rb_step b OpClear (rb_clear b) [] (rb_items b)
  | step_drain b b' items : rb_drain b = (b', items) → rb_step b OpDrain b' items [].

Inductive rb_run {T} : RecvBatch T → list (rb_op T) → RecvBatch T → list T → list T → Prop :=
  | run_nil b : rb_run b [] b [] []
  | run_cons b op b1 out drop ops b2 outs drops :
      rb_step b op b1 out drop → rb_run b1 ops b2 outs drops →
      rb_run b (op :: ops) b2 (out ++ outs) (drop ++ drops).

Definition pushed {T} (ops : list (rb_op T)) : list T :=
  omap (λ op, match op with OpPush x => Some x | _ => None end) ops.

Definition rb_ok {T} (c : Z) (b : RecvBatch T) : Prop :=
  rb_capacity b = c ∧ 1 ≤ c ∧ rb_len b ≤ c.

Lemma rb_step_spec {T} c (b b' : RecvBatch T) op out drop :
  rb_ok c b → rb_step b op b' out drop →
  rb_ok c b' ∧ pushed [op] ++ rb_items b ≡ₚ out ++ drop ++ rb_items b'.
Proof.
  unfold rb_ok, rb_len. intros (Hc & H1 & Hl) Hs.
  inversion Hs as [? item ? Hp|? item ? x Hp| |? ? items Hd]; subst; cbn -[len].
  - unfold rb_push in Hp. case_bool_in Hp; [done|]. unfold rb_len in *. simplify_eq. cbn -[len].
    rewrite len_snoc. split; [lia|]. solve_Permutation.
  - unfold rb_push in Hp. case_bool_in Hp; [|done]. simplify_eq. split; [done|]. done.
  - split; [by change (len []) with 0; lia|]. by rewrite app_nil_r.
  - unfold rb_drain in Hd. simplify_eq. cbn -[len]. split; [by change (len []) with 0; lia|].
    by rewrite app_nil_r.
Qed.

Lemma rb_run_spec {T} c (b b' : RecvBatch T) ops outs drops :
  rb_run b ops b' outs drops → rb_ok c b →
  rb_ok c b' ∧ pushed ops ++ rb_items b ≡ₚ outs ++ drops ++ rb_items b'.
Proof.
  induction 1 as [b|b op b1 out drop ops b2 outs drops Hs Hr IH]; intros Hb; [done|].
  destruct (rb_step_spec _ _ _ _ _ _ Hb Hs) as [H1 HP1]. destruct (IH H1) as [H2 HP2].
  split; [done|].
  replace (pushed (op :: ops)) with (pushed [op] ++ pushed ops).
  2:{ unfold pushed. cbn. by destruct op. }
  transitivity (pushed ops ++ (pushed [op] ++ rb_items b)); [solve_Permutation|].
  rewrite HP1. transitivity ((out ++ drop) ++ (pushed ops ++ rb_items b1)); [solve_Permutation|].
  rewrite HP2. solve_Permutation.
Qed.

(** A receive batch of capacity [c] is created exactly for [c >= 1]; under
    every sequence of pushes, clears and drains it keeps its capacity, never
    holds more than [c] items, reports [c - len] free places, and no item is
    lost or duplicated: the items pushed are those handed back, those cleared
    and those still stored. A push is refused exactly when the batch is full,
    and then changes nothing and returns the same item. *)
Theorem recv_batch_bounded {T} (c : Z) (b0 b : RecvBatch T) ops outs drops :
  with_capacity c = Ret b0 → rb_run b0 ops b outs drops →
  1 ≤ c ∧ rb_capacity b = c ∧ 0 ≤ rb_len b ≤ c ∧ remaining b = c - rb_len b ∧
  pushed ops ≡ₚ outs ++ drops ++ rb_items b ∧
  (∀ x, rb_push b x = if rb_len b =? c then (b, Err x)
                      else (mkRecvBatch (rb_items b ++ [x]) c, Ok tt)).
Proof.
  unfold with_capacity. intros Hw Hr. case_bool_in Hw; [|done]. simplify_eq.
  assert (H0 : rb_ok c (mkRecvBatch (@nil T) c)) by (unfold rb_ok; change (rb_len _) with 0; cbn; lia).
  destruct (rb_run_spec _ _ _ _ _ _ Hr H0) as [(Hc & H1 & Hl) HP]. cbn in HP. rewrite app_nil_r in HP.
  pose proof (len_nonneg (rb_items b)). unfold rb_len in *. split_and!; try done; try lia.
  - unfold remaining, saturating_sub, rb_len. lia.
  - intros x. unfold rb_push, rb_len. rewrite Hc. case_bool; try lia; done.
Qed.

Lemma recv_batch_bounded_witness :
  ∃ b, with_capacity (T := Z) 1 = Ret (mkRecvBatch [] 1) ∧
    rb_run (mkRecvBatch [] 1) [OpPush 7; OpPush 8; OpDrain; OpPush 9] b [8; 7] [] ∧
    [7; 8; 9] ≡ₚ [8; 7] ++ [] ++ rb_items b ∧ rb_len b = 1.
Proof.
  assert (Hr : rb_run (mkRecvBatch [] 1) [OpPush 7; OpPush 8; OpDrain; OpPush 9]
                 (mkRecvBatch [9] 1) ([] ++ [8] ++ [7] ++ [] ++ []) ([] ++ [] ++ [] ++ [] ++ [])).
  { eapply run_cons; [by apply step_push_ok|]. eapply run_cons; [by apply step_push_full|].
    eapply run_cons; [by apply step_drain|]. eapply run_cons; [by apply step_push_ok|].
    apply run_nil. }
  exists (mkRecvBatch [9] 1). split; [reflexivity|]. split; [exact Hr|].
  destruct (recv_batch_bounded 1 _ _ _ _ _ eq_refl Hr) as (_ & _ & _ & _ & HP & _).
  split; [exact HP|reflexivity].
Defined.

(** ** Thread pinning *)
Lemma elem_of_mask_fold mask l (cpus : gset Z) i :
  i ∈ foldl (λ cpus bit,
         if negb (Z.land mask (Z.shiftl 1 bit) =? 0) then {[ bit ]} ∪ cpus else cpus) cpus l
  ↔ i ∈ cpus ∨ (i ∈ l ∧ Z.land mask (Z.shiftl 1 i) ≠ 0).
Proof.
  revert cpus. induction l as [|b l IH]; intros cpus; cbn [foldl]; [set_solver|].
  rewrite IH. destruct (Z.eqb_spec (Z.land mask (Z.shiftl 1 b)) 0); cbn [negb]; set_solver.
Qed.

Lemma land_bit_nonzero mask i : 0 ≤ i → (Z.land mask (Z.shiftl 1 i) ≠ 0 ↔ Z.testbit mask i = true).
Proof.
  intros Hi. rewrite Z.shiftl_1_l. split.
  - intros Hn. destruct (Z.testbit mask i) eqn:E; [done|]. destruct Hn. apply Z.bits_inj'. intros j Hj.
    rewrite Z.land_spec, Z.bits_0. destruct (decide (i = j)) as [<-|]; [by rewrite E|].
    by rewrite Z.pow2_bits_false, andb_false_r by done.
  - intros E H0. apply (f_equal (λ z, Z.testbit z i)) in H0.
    rewrite Z.land_spec, E, Z.pow2_bits_true, Z.bits_0 in H0 by done. done.
Qed.

(** Pinning to an affinity hands the kernel exactly the CPUs it names: the
    one core, or the set bits of the mask; no hint makes no system call; a core
    at or above the set size and an empty mask are refused before the call; and
    an accepted request reports the affinity it was given. *)
Theorem pin_exact (sched : gset Z → result unit Z) (cpu mask : Z) :
  0 ≤ cpu → 0 ≤ mask < 2 ^ 64 →
  (∀ i, i ∈ mask_cpus mask ↔ 0 ≤ i < 64 ∧ Z.testbit mask i = true) ∧
  pin_current_thread_to_affinity sched Any = Ok NoHint ∧
  pin_current_thread_to_affinity sched (Core cpu) =
    (if CPU_SETSIZE <=? cpu then Err InvalidInput
     else match sched {[ cpu ]} with
          | Ok _ => Ok (Pinned (Core cpu))
          | Err code => Err (OsError code)
          end) ∧
  pin_current_thread_to_affinity sched (Mask mask) =
    (if mask =? 0 then Err InvalidInput
     else match sched (mask_cpus mask) with
          | Ok _ => Ok (Pinned (Mask mask))
          | Err code => Err (OsError code)
          end) ∧
  (mask_cpus mask = ∅ ↔ mask = 0).
Proof.
  intros Hcpu Hmask.
  assert (Hbits : ∀ i, i ∈ mask_cpus mask ↔ 0 ≤ i < 64 ∧ Z.testbit mask i = true).
  { intros i. unfold mask_cpus. rewrite elem_of_mask_fold, elem_of_seqZ. split.
    - intros [|[? ?]]; [set_solver|]. split; [lia|]. by apply land_bit_nonzero; [lia|].
    - intros [? Hb]. right. split; [lia|]. by apply land_bit_nonzero; [lia|]. }
  split_and!; try done.
  - cbn. unfold pin_current_thread_to_cpu, set_affinity. case_bool; [done|]. by destruct (sched _).
  - cbn. unfold pin_current_thread_to_mask, set_affinity. case_bool; [done|].
    by destruct (sched _).
  - split; [|by intros ->]. intros He. apply Z.bits_inj'. intros j Hj. rewrite Z.bits_0.
    destruct (Z.testbit mask j) eqn:E; [|done]. exfalso.
    assert (j < 64).
    { apply Z.nle_gt. intros Hge. rewrite Z.bits_above_log2 in E; [done|lia|].
      destruct (decide (mask = 0)) as [->|]; [cbn in *; lia|].
      apply Z.log2_lt_pow2; [lia|]. assert (2 ^ 64 ≤ 2 ^ j) by (apply Z.pow_le_mono_r; lia). lia. }
    assert (j ∈ mask_cpus mask) by (apply Hbits; split; [lia|done]). set_solver.
Qed.

Lemma pin_exact_witness :
  let sched (cpus : gset Z) : result unit Z := if decide (5 ∈ cpus) then Ok tt else Err 22 in
  pin_current_thread_to_affinity sched (Mask 33) = Ok (Pinned (Mask 33)) ∧ mask_cpus 33 ≠ ∅.
Proof.
  intros sched. assert (H33 : 0 ≤ 33 < 2 ^ 64) by lia.
  destruct (pin_exact sched 0 33 ltac:(lia) H33) as (_ & _ & _ & HM & He). split.
  - rewrite HM. reflexivity.
  - rewrite He. lia.
Defined.
