(* ===== verification/Buffer.v ===== *)
(** * Packet buffers: [crates/fast-socket-rs/src/buffer.rs]

    The layout builder, the access errors and the buffer traits as type
    classes. [PacketBufferLaws] states what the trait documentation promises;
    the backends prove it and the clients use it. *)
From S2P Require Import Prelude Bits Core.
Open Scope Z_scope.

(** ** Layouts *)
Record BufferLayout := mkLayout {
  payload_capacity : Z;
  headroom : Z;
  tailroom : Z;
  chunk_size : Z;
  data_offset : Z;
  align : Z;
  stride : Z;
  max_segments : Z;
  l2_headroom : Z;
  chunk_fixed : bool;
}.

Definition with_headroom_and_tailroom (payload_capacity headroom tailroom : Z) :
    outcome BufferLayout :=
  let data_offset := headroom in
  chunk_size ← add_usize headroom payload_capacity;
  chunk_size ← add_usize chunk_size tailroom;
  Ret (mkLayout payload_capacity headroom tailroom chunk_size data_offset 1 chunk_size 1 0 false).

Definition layout_new (payload_capacity : Z) : outcome BufferLayout :=
  with_headroom_and_tailroom payload_capacity 0 0.

Definition PACKET_CAPACITY_FLOOR : Z := 2048.
Definition for_payload (payload_capacity : Z) : outcome BufferLayout :=
  layout_new (Z.max payload_capacity PACKET_CAPACITY_FLOOR).

Definition minimum_chunk_size (self : BufferLayout) : outcome Z :=
  m ← add_usize (data_offset self) (payload_capacity self);
  add_usize m (tailroom self).

Definition with_l2_headroom (self : BufferLayout) (l2_headroom : Z) : outcome BufferLayout :=
  data_offset ← add_usize l2_headroom (headroom self);
  assert! data_offset mod align self =? 0;
  if negb (chunk_fixed self) then
    chunk_size ← add_usize data_offset (payload_capacity self);
    chunk_size ← add_usize chunk_size (tailroom self);
    Ret (mkLayout (payload_capacity self) (headroom self) (tailroom self) chunk_size data_offset
           (align self) chunk_size (max_segments self) l2_headroom (chunk_fixed self))
  else
    let self :=
      mkLayout (payload_capacity self) (headroom self) (tailroom self) (chunk_size self) data_offset
        (align self) (stride self) (max_segments self) l2_headroom (chunk_fixed self) in
    minimum ← minimum_chunk_size self;
    assert! minimum <=? chunk_size self;
    Ret self.

Definition with_alignment (self : BufferLayout) (align : Z) : outcome BufferLayout :=
  assert! is_power_of_two align;
  Ret (mkLayout (payload_capacity self) (headroom self) (tailroom self) (chunk_size self)
         (data_offset self) align (stride self) (max_segments self) (l2_headroom self)
         (chunk_fixed self)).

Definition with_max_segments (self : BufferLayout) (max_segments : Z) : outcome BufferLayout :=
  assert! 1 <=? max_segments;
  Ret (mkLayout (payload_capacity self) (headroom self) (tailroom self) (chunk_size self)
         (data_offset self) (align self) (stride self) max_segments (l2_headroom self)
         (chunk_fixed self)).

Definition with_fixed_chunk (self : BufferLayout) (chunk_size stride : Z) : outcome BufferLayout :=
  minimum ← minimum_chunk_size self;
  assert! minimum <=? chunk_size;
  assert! chunk_size <=? stride;
  Ret (mkLayout (payload_capacity self) (headroom self) (tailroom self) chunk_size
         (data_offset self) (align self) stride (max_segments self) (l2_headroom self) true).

Definition allocation_len (self : BufferLayout) : Z := chunk_size self.

(** The layouts safe code can build: a constructor followed by builder calls. *)
Inductive layout_built : BufferLayout → Prop :=
  | built_new p h t l :
      0 ≤ p → 0 ≤ h → 0 ≤ t → with_headroom_and_tailroom p h t = Ret l → layout_built l
  | built_l2 l n l' :
      layout_built l → 0 ≤ n → with_l2_headroom l n = Ret l' → layout_built l'
  | built_align l a l' : layout_built l → with_alignment l a = Ret l' → layout_built l'
  | built_segments l n l' : layout_built l → with_max_segments l n = Ret l' → layout_built l'
  | built_fixed l c s l' : layout_built l → with_fixed_chunk l c s = Ret l' → layout_built l'.

(** The invariants the type's documentation states. *)
Record layout_ok (l : BufferLayout) : Prop := mkLayoutOk {
  lo_payload : 0 ≤ payload_capacity l;
  lo_headroom : 0 ≤ headroom l;
  lo_tailroom : 0 ≤ tailroom l;
  lo_l2 : 0 ≤ l2_headroom l;
  lo_offset : data_offset l = l2_headroom l + headroom l;
  lo_chunk : data_offset l + payload_capacity l + tailroom l ≤ chunk_size l;
  lo_stride : chunk_size l ≤ stride l;
  lo_align : is_power_of_two (align l) = true;
  lo_segments : 1 ≤ max_segments l;
}.

(** ** Errors *)
Inductive BufferAccessError :=
  | OutOfBounds (offset len packet_len : Z)
  | AppendInsufficientTailroom (available requested : Z).

Inductive ReserveError :=
  | InsufficientHeadroom (available requested : Z)
  | InsufficientTailroom (available requested : Z)
  | SegmentBoundary
  | LayoutUnsupported.

(** ** The traits *)
Class PacketBuffer (B : Type) := {
  pb_len : B → Z;
  pb_headroom : B → outcome Z;
  pb_tailroom : B → Z;
  pb_layout : B → BufferLayout;
  pb_segments : B → list (list Z);
  (** [read_at_exact(offset, dst)]: the bytes that end up in [dst]. *)
  pb_read_at_exact : B → Z → Z → result (list Z) BufferAccessError;
}.

Class PacketBufferMut (M F : Type) `{!PacketBuffer M, !PacketBuffer F} := {
  pb_prepend : M → list Z → outcome (M * result unit ReserveError);
  pb_extend_from_slice : M → list Z → outcome (M * result unit BufferAccessError);
  pb_trim_prefix : M → Z → M * result unit BufferAccessError;
  pb_trim_suffix : M → Z → M * result unit BufferAccessError;
  pb_freeze : M → F;
}.

(** [OwnedPacketBuffer]. *)
Class OwnedPacketBuffer (F M : Type) := { pb_into_mut : F → M }.

(** *** Provided methods *)
Definition pb_is_empty `{PacketBuffer B} (b : B) : bool := pb_len b =? 0.
Definition first_segment `{PacketBuffer B} (b : B) : option (list Z) := head (pb_segments b).
Definition contiguous `{PacketBuffer B} (b : B) : option (list Z) :=
  if pb_is_empty b then Some []
  else
    first ← first_segment b;
    if len first =? pb_len b then Some first else None.
Definition prepend_relocating `{PacketBufferMut M F} (b : M) (bytes : list Z) :
    outcome (M * result unit ReserveError) := pb_prepend b bytes.
Definition extend_from_slice_relocating `{PacketBufferMut M F} (b : M) (bytes : list Z) :
    outcome (M * result unit BufferAccessError) := pb_extend_from_slice b bytes.

(** *** The documented behaviour

    [bytes_of] is the packet: its segments in order. A failing operation
    leaves the buffer as it was. *)
Definition bytes_of `{PacketBuffer B} (b : B) : list Z := concat (pb_segments b).

Class PacketBufferLaws (M F : Type) `{PacketBufferMut M F} (Inv : M → Prop) := {
  law_len b : Inv b → pb_len b = len (bytes_of b);
  law_headroom b : Inv b → ∃ h, pb_headroom b = Ret h ∧ 0 ≤ h;
  law_read b off n : Inv b → 0 ≤ off → 0 ≤ n →
    pb_read_at_exact b off n
    = match slice (bytes_of b) off (off + n) with
      | Some s => Ok s
      | None => Err (OutOfBounds off n (pb_len b))
      end;
  law_prepend b xs h : Inv b → pb_headroom b = Ret h →
    ∃ b' r, pb_prepend b xs = Ret (b', r) ∧ Inv b' ∧
      if len xs <=? h then
        r = Ok tt ∧ bytes_of b' = xs ++ bytes_of b ∧ pb_headroom b' = Ret (h - len xs) ∧
        pb_tailroom b' = pb_tailroom b ∧ pb_layout b' = pb_layout b
      else r = Err (InsufficientHeadroom h (len xs)) ∧ b' = b;
  law_extend b xs : Inv b →
    ∃ b' r, pb_extend_from_slice b xs = Ret (b', r) ∧ Inv b' ∧
      if len xs <=? pb_tailroom b then
        r = Ok tt ∧ bytes_of b' = bytes_of b ++ xs ∧ pb_headroom b' = pb_headroom b ∧
        pb_tailroom b' = pb_tailroom b - len xs ∧ pb_layout b' = pb_layout b
      else r = Err (AppendInsufficientTailroom (pb_tailroom b) (len xs)) ∧ b' = b;
  law_trim_prefix b n h : Inv b → 0 ≤ n → pb_headroom b = Ret h →
    let '(b', r) := pb_trim_prefix b n in
    Inv b' ∧
    if n <=? pb_len b then
      r = Ok tt ∧ bytes_of b' = drop (Z.to_nat n) (bytes_of b) ∧ pb_headroom b' = Ret (h + n) ∧
      pb_tailroom b' = pb_tailroom b ∧ pb_layout b' = pb_layout b
    else r = Err (OutOfBounds 0 n (pb_len b)) ∧ b' = b;
  law_trim_suffix b n : Inv b → 0 ≤ n →
    let '(b', r) := pb_trim_suffix b n in
    Inv b' ∧
    if n <=? pb_len b then
      r = Ok tt ∧ bytes_of b' = take (Z.to_nat (pb_len b - n)) (bytes_of b) ∧
      pb_headroom b' = pb_headroom b ∧ pb_tailroom b' = pb_tailroom b + n ∧
      pb_layout b' = pb_layout b
    else r = Err (OutOfBounds (saturating_sub (pb_len b) n) n (pb_len b)) ∧ b' = b;
  law_freeze b : Inv b →
    bytes_of (pb_freeze b) = bytes_of b ∧ pb_len (pb_freeze b) = pb_len b ∧
    pb_layout (pb_freeze b) = pb_layout b;
}.
