(* ===== verification/BufferSpec.v ===== *)
(** * The abstract packet buffer

    The reference model of the buffer traits: the packet bytes and the free
    space on both sides. It satisfies [PacketBufferLaws], so the laws are
    consistent. *)
From S2P Require Import Prelude Bits Core Buffer.
Open Scope Z_scope.

Record SpecBuffer := mkSpecBuffer {
  sb_layout : BufferLayout;
  sb_head : Z;
  sb_bytes : list Z;
  sb_tail : Z;
}.

Definition sb_ok (b : SpecBuffer) : Prop := 0 ≤ sb_head b ∧ 0 ≤ sb_tail b.

Definition read_bytes (buffer : list Z) (offset n : Z) : result (list Z) BufferAccessError :=
  match slice buffer offset (offset + n) with
  | Some s => Ok s
  | None => Err (OutOfBounds offset n (len buffer))
  end.

#[export] Instance spec_buffer : PacketBuffer SpecBuffer := {
  pb_len b := len (sb_bytes b);
  pb_headroom b := Ret (sb_head b);
  pb_tailroom b := sb_tail b;
  pb_layout b := sb_layout b;
  pb_segments b := [sb_bytes b];
  pb_read_at_exact b off n := read_bytes (sb_bytes b) off n;
}.

#[export] Instance spec_buffer_mut : PacketBufferMut SpecBuffer SpecBuffer := {
  pb_prepend b xs :=
    Ret (if len xs <=? sb_head b then
           (mkSpecBuffer (sb_layout b) (sb_head b - len xs) (xs ++ sb_bytes b) (sb_tail b), Ok tt)
         else (b, Err (InsufficientHeadroom (sb_head b) (len xs))));
  pb_extend_from_slice b xs :=
    Ret (if len xs <=? sb_tail b then
           (mkSpecBuffer (sb_layout b) (sb_head b) (sb_bytes b ++ xs) (sb_tail b - len xs), Ok tt)
         else (b, Err (AppendInsufficientTailroom (sb_tail b) (len xs))));
  pb_trim_prefix b n :=
    if n <=? len (sb_bytes b) then
      (mkSpecBuffer (sb_layout b) (sb_head b + n) (drop (Z.to_nat n) (sb_bytes b)) (sb_tail b), Ok tt)
    else (b, Err (OutOfBounds 0 n (len (sb_bytes b))));
  pb_trim_suffix b n :=
    if n <=? len (sb_bytes b) then
      (mkSpecBuffer (sb_layout b) (sb_head b)
         (take (Z.to_nat (len (sb_bytes b) - n)) (sb_bytes b)) (sb_tail b + n), Ok tt)
    else (b, Err (OutOfBounds (saturating_sub (len (sb_bytes b)) n) n (len (sb_bytes b))));
  pb_freeze b := b;
}.

Lemma spec_bytes_of (b : SpecBuffer) : bytes_of b = sb_bytes b.
Proof. unfold bytes_of. cbn. by rewrite app_nil_r. Qed.

#[export] Instance spec_buffer_laws : PacketBufferLaws SpecBuffer SpecBuffer sb_ok.
Proof.
  unfold sb_ok. split; intros b; intros; rewrite ?spec_bytes_of; cbn -[len] in *; simplify_eq.
  - done.
  - exists (sb_head b). split; [done|lia].
  - done.
  - destruct (Z.leb_spec (len xs) (sb_head b)); eexists _, _; (split; [reflexivity|]); rewrite ?spec_bytes_of; cbn -[len];
      rewrite ?app_nil_r; split_and!; try done; lia.
  - destruct (Z.leb_spec (len xs) (sb_tail b)); eexists _, _; (split; [reflexivity|]); rewrite ?spec_bytes_of; cbn -[len];
      rewrite ?app_nil_r; split_and!; try done; lia.
  - destruct (Z.leb_spec n (len (sb_bytes b))); rewrite ?spec_bytes_of; cbn -[len];
      rewrite ?app_nil_r; split_and!; try done; lia.
  - destruct (Z.leb_spec n (len (sb_bytes b))); rewrite ?spec_bytes_of; cbn -[len];
      rewrite ?app_nil_r; split_and!; try done; lia.
  - done.
Qed.

(** ** Simulation

    Sequences of mutations on any implementation of the traits, and the
    abstraction to the reference model. *)
Inductive buf_op :=
  | OpPrepend (bytes : list Z)
  | OpExtend (bytes : list Z)
  | OpTrimPrefix (n : Z)
  | OpTrimSuffix (n : Z).
Definition op_wf (op : buf_op) : Prop :=
  match op with
  | OpTrimPrefix n | OpTrimSuffix n => 0 ≤ n
  | _ => True
  end.

Section Simulation.
Context {M F : Type} `{PacketBufferMut M F}.

Definition run_op (b : M) (op : buf_op) : outcome (M * result unit (ReserveError + BufferAccessError)) :=
  match op with
  | OpPrepend xs =>
      r ← pb_prepend b xs;
      Ret (r.1, match r.2 with Ok _ => Ok tt | Err e => Err (inl e) end)
  | OpExtend xs =>
      r ← pb_extend_from_slice b xs;
      Ret (r.1, match r.2 with Ok _ => Ok tt | Err e => Err (inr e) end)
  | OpTrimPrefix n =>
      let r := pb_trim_prefix b n in
      Ret (r.1, match r.2 with Ok _ => Ok tt | Err e => Err (inr e) end)
  | OpTrimSuffix n =>
      let r := pb_trim_suffix b n in
      Ret (r.1, match r.2 with Ok _ => Ok tt | Err e => Err (inr e) end)
  end.

Fixpoint run_ops (b : M) (ops : list buf_op) :
    outcome (M * list (result unit (ReserveError + BufferAccessError))) :=
  match ops with
  | [] => Ret (b, [])
  | op :: ops =>
      r ← run_op b op;
      rs ← run_ops r.1 ops;
      Ret (rs.1, r.2 :: rs.2)
  end.

Definition abs (b : M) : SpecBuffer :=
  mkSpecBuffer (pb_layout b) (match pb_headroom b with Ret h => h | _ => 0 end) (bytes_of b)
    (pb_tailroom b).

End Simulation.

Section LawsRefine.
Context {M F : Type} (Inv : M → Prop) `{PacketBufferLaws M F Inv}.

Lemma run_op_refines b op : Inv b → op_wf op →
  ∃ b' r, run_op b op = Ret (b', r) ∧ Inv b' ∧ run_op (abs b) op = Ret (abs b', r).
Proof.
  intros Hb Hwf. destruct (law_headroom b Hb) as (h & Hh & Hh0). pose proof (law_len b Hb) as Hl.
  destruct op as [xs|xs|n|n]; cbn [run_op op_wf] in *.
  - destruct (law_prepend b xs h Hb Hh) as (b' & r & Hp & Hb' & Hr). rewrite Hp. run.
    eexists _, _. split; [reflexivity|]. split; [done|]. cbn -[len]. rewrite Hh.
    destruct (len xs <=? h).
    + destruct Hr as (-> & Hbs & Hh' & Ht & Hlay). unfold abs. by rewrite Hbs, Hh', Ht, Hlay.
    + destruct Hr as [-> ->]. done.
  - destruct (law_extend b xs Hb) as (b' & r & Hp & Hb' & Hr). rewrite Hp. run.
    eexists _, _. split; [reflexivity|]. split; [done|]. cbn -[len]. rewrite Hh.
    destruct (len xs <=? pb_tailroom b).
    + destruct Hr as (-> & Hbs & Hh' & Ht & Hlay). unfold abs. by rewrite Hbs, Hh', Hh, Ht, Hlay.
    + destruct Hr as [-> ->]. unfold abs. by rewrite Hh.
  - pose proof (law_trim_prefix b n h Hb Hwf Hh) as Hr. destruct (pb_trim_prefix b n) as [b' r].
    destruct Hr as [Hb' Hr]. eexists _, _. split; [reflexivity|]. split; [done|]. cbn -[len].
    rewrite Hh, <- Hl. destruct (n <=? pb_len b).
    + destruct Hr as (-> & Hbs & Hh' & Ht & Hlay). unfold abs. by rewrite Hbs, Hh', Ht, Hlay.
    + destruct Hr as [-> ->]. unfold abs. by rewrite Hh.
  - pose proof (law_trim_suffix b n Hb Hwf) as Hr. destruct (pb_trim_suffix b n) as [b' r].
    destruct Hr as [Hb' Hr]. eexists _, _. split; [reflexivity|]. split; [done|]. cbn -[len].
    rewrite Hh, <- Hl. destruct (n <=? pb_len b).
    + destruct Hr as (-> & Hbs & Hh' & Ht & Hlay). unfold abs. by rewrite Hbs, Hh', Hh, Ht, Hlay.
    + destruct Hr as [-> ->]. unfold abs. by rewrite Hh.
Qed.

Lemma run_ops_refines b ops : Inv b → Forall op_wf ops →
  ∃ b' rs, run_ops b ops = Ret (b', rs) ∧ Inv b' ∧ run_ops (abs b) ops = Ret (abs b', rs).
Proof.
  intros Hb HF. revert b Hb. induction HF as [|op ops Hop HF IH]; intros b Hb; cbn [run_ops].
  { by exists b, []. }
  destruct (run_op_refines b op Hb Hop) as (b1 & r & H1 & Hb1 & Ha1).
  destruct (IH b1 Hb1) as (b2 & rs & H2 & Hb2 & Ha2).
  rewrite H1, Ha1. run. rewrite H2, Ha2. run. by exists b2, (r :: rs).
Qed.

End LawsRefine.

(** * Properties of buffer layouts and of clients of the buffer traits *)
(** The layout steps: invert a returning builder call. *)
Ltac inv_builder H :=
  repeat match type of H with
  | (x ← _; _) = Ret _ => apply bind_ret_inv in H as (? & ?Hadd & H)
  | (if ?b then _ else Panic) = Ret _ => let E := fresh "E" in destruct b eqn:E; [|discriminate H]
  | Ret _ = Ret _ => injection H as <-
  end;
  repeat match goal with
  | H : add_usize _ _ = Ret _ |- _ => apply add_usize_inv in H as [-> ?]
  end.

Ltac layout_fields := constructor; cbn; first [done | lia].

Lemma minimum_chunk_size_inv l m :
  minimum_chunk_size l = Ret m → m = data_offset l + payload_capacity l + tailroom l.
Proof. unfold minimum_chunk_size. intros H. inv_builder H. done. Qed.

Lemma minimum_chunk_size_ok l :
  data_offset l + payload_capacity l + tailroom l ≤ USIZE_MAX → 0 ≤ tailroom l →
  minimum_chunk_size l = Ret (data_offset l + payload_capacity l + tailroom l).
Proof. intros. unfold minimum_chunk_size. rewrite add_usize_ok by lia. run. apply add_usize_ok. lia. Qed.

Lemma layout_built_ok l : layout_built l → layout_ok l.
Proof.
  induction 1 as [p h t l Hp Hh Ht H|l n l' _ IH Hn H|l a l' _ IH H|l n l' _ IH H|l c s l' _ IH H].
  - unfold with_headroom_and_tailroom in H. inv_builder H. layout_fields.
  - unfold with_l2_headroom in H. destruct IH. apply bind_ret_inv in H as (off & Ho & H).
    apply add_usize_inv in Ho as [-> _].
    destruct (_ mod _ =? 0) eqn:?; [|done]. destruct (chunk_fixed l) eqn:?; cbn [negb] in H.
    + inv_builder H. apply minimum_chunk_size_inv in Hadd as ->. cbn in *.
      layout_fields.
    + inv_builder H. layout_fields.
  - unfold with_alignment in H. inv_builder H. destruct IH. layout_fields.
  - unfold with_max_segments in H. inv_builder H. destruct IH. layout_fields.
  - unfold with_fixed_chunk in H. inv_builder H. apply minimum_chunk_size_inv in Hadd as ->.
    destruct IH. layout_fields.
Qed.

(** C40. Every layout that the builder returns satisfies the documented
    invariants: the data offset is the two headrooms, the chunk holds offset,
    payload and tailroom, the stride covers the chunk, the alignment is a power
    of two and there is at least one segment. A fixed chunk stays fixed and is
    not resized by later link-layer headroom. *)
Theorem layout_builder_invariant (l : BufferLayout) :
  layout_built l →
  layout_ok l ∧
  (chunk_fixed l = true → ∀ n l', with_l2_headroom l n = Ret l' →
     chunk_size l' = chunk_size l ∧ stride l' = stride l ∧ chunk_fixed l' = true ∧
     data_offset l' mod align l' = 0).
Proof.
  intros Hb. split; [by apply layout_built_ok|]. intros Hf n l' H.
  unfold with_l2_headroom in H. rewrite Hf in H. cbn [negb] in H. inv_builder H.
  split_and!; try done. cbn. by apply Z.eqb_eq.
Qed.

Definition sample_layout : BufferLayout := mkLayout 128 32 16 256 46 2 512 1 14 true.

Lemma sample_built : layout_built sample_layout.
Proof.
  apply (built_fixed (mkLayout 128 32 16 190 46 2 190 1 14 false) 256 512); [|reflexivity].
  apply (built_l2 (mkLayout 128 32 16 176 32 2 176 1 0 false) 14); [|lia|reflexivity].
  apply (built_align (mkLayout 128 32 16 176 32 1 176 1 0 false) 2); [|reflexivity].
  by apply (built_new 128 32 16).
Qed.

Lemma layout_builder_invariant_witness :
  layout_built sample_layout ∧ layout_ok sample_layout ∧ data_offset sample_layout = 14 + 32.
Proof.
  pose proof sample_built as H.
  split; [exact H|]. split; [exact (proj1 (layout_builder_invariant _ H))|reflexivity].
Defined.

(** The builder panics exactly on the requests its documentation names:
    for a layout it built whose sizes do not overflow, link-layer headroom
    panics exactly when it misaligns the data or does not fit the fixed chunk,
    a fixed chunk exactly when it is below the minimum or above the stride, an
    alignment exactly when it is not a power of two, and a segment limit
    exactly when it is zero. *)
Theorem layout_builder_panics (l : BufferLayout) (n a c s : Z) :
  layout_built l → 0 ≤ n → 0 ≤ c → 0 ≤ s →
  n + headroom l + payload_capacity l + tailroom l ≤ USIZE_MAX →
  data_offset l + payload_capacity l + tailroom l ≤ USIZE_MAX →
  let min := n + headroom l + payload_capacity l + tailroom l in
  (with_l2_headroom l n = Panic ↔
     (n + headroom l) mod align l ≠ 0 ∨ (chunk_fixed l = true ∧ chunk_size l < min)) ∧
  (with_fixed_chunk l c s = Panic ↔
     c < data_offset l + payload_capacity l + tailroom l ∨ s < c) ∧
  (with_alignment l a = Panic ↔ is_power_of_two a = false) ∧
  (with_max_segments l n = Panic ↔ n = 0).
Proof.
  intros Hb Hn Hc Hs Hmin Hold min. apply layout_built_ok in Hb. destruct Hb. unfold min. split_and!.
  - unfold with_l2_headroom. rewrite add_usize_ok by lia. run.
    destruct (Z.eqb_spec ((n + headroom l) mod align l) 0) as [E|E]; [|by split; [by left|]].
    destruct (chunk_fixed l); cbn [negb].
    + rewrite minimum_chunk_size_ok by (cbn; lia). run. cbn.
      destruct (Z.leb_spec (n + headroom l + payload_capacity l + tailroom l) (chunk_size l)).
      * split; [done|]. intros [|[_ ?]]; [done|lia].
      * split; [|done]. intros _. right. split; [done|lia].
    + rewrite add_usize_ok by lia. run. rewrite add_usize_ok by lia. run.
      split; [done|]. by intros [|[? _]].
  - unfold with_fixed_chunk. rewrite minimum_chunk_size_ok by lia. run. case_bool; split; try done; lia.
  - unfold with_alignment. by destruct (is_power_of_two a).
  - unfold with_max_segments. case_bool; split; try done; lia.
Qed.

Lemma layout_builder_panics_witness :
  with_l2_headroom sample_layout 100 = Panic ∧ with_fixed_chunk sample_layout 100 512 = Panic.
Proof.
  pose proof sample_built as H.
  destruct (layout_builder_panics sample_layout 100 4 100 512 H) as (H1 & H2 & _);
    try (vm_compute; discriminate).
  split; [apply H1; right; split; [reflexivity|reflexivity]|apply H2; left; reflexivity].
Defined.
