(* ===== verification/Endpoint.v ===== *)
(** * UDP sockets and generic endpoints: [crates/fast-socket-rs/src/udp.rs]

    The [UdpSocket] trait as a class, the endpoint validators, the generic
    endpoint send and batch builder, and the send-to-completion loops of
    [UdpSocket] and [IpPacketSocket]. *)
From S2P Require Import Prelude Core Buffer.
Open Scope Z_scope.

(** The result of sending a batch: the socket, the batch with its accepted
    slots taken, and the count or error. *)
Definition send_result (S T : Type) : Type := S * list (TxSlot T) * result Z SendError.

(** ** The trait

    The methods the generic code calls. A send mutates the socket and the
    batch in place, so both are returned. *)
Class UdpSocket (S M F Endpoint : Type) := {
  udp_mtu : S → Z;
  udp_capabilities : S → UdpCapabilities;
  allocate_tx_batch : S → list M → Z → outcome (S * list M * result Z Error);
  udp_send : S → list (TxSlot (UdpTransmit F)) → outcome (send_result S (UdpTransmit F));
  udp_endpoint_info : S → Endpoint → UdpEndpointInfo;
  send_to_udp_endpoint : S * Endpoint → list (TxSlot (UdpEndpointTransmit F)) →
    outcome (send_result (S * Endpoint) (UdpEndpointTransmit F));
  drain_tx_completions : S → outcome (S * result Z Error);
}.

(** ** Validation *)
Definition same_ip_family (left right : IpAddr) : bool :=
  match left, right with
  | IpAddrV4 _, IpAddrV4 _ | IpAddrV6 _, IpAddrV6 _ => true
  | _, _ => false
  end.

(** [a.div_ceil(b)] for a non-zero [b]. *)
Definition div_ceil (a b : Z) : Z := (a + b - 1) / b.

Definition validate_udp_endpoint_spec (mtu : Z) (capabilities : UdpCapabilities)
    (spec : UdpEndpointSpec) : result UdpEndpointInfo Error :=
  let info := mkInfo mtu (sp_payload_len spec) (sp_gso_segment_size spec) in
  if match sp_source_ip spec with
     | Some source => negb (same_ip_family source (sa_ip (sp_destination spec)))
     | None => false
     end
  then Err InvalidPacket
  else
    match sp_gso_segment_size spec with
    | Some segment_size =>
        if negb (uc_gso capabilities) then Err InvalidPacket
        else if mtu <? segment_size then Err OversizeForMtu
        else if match sp_payload_len spec, uc_max_gso_segments capabilities with
                | Some payload_len, Some max_segments => max_segments <? div_ceil payload_len segment_size
                | _, _ => false
                end
        then Err OversizeForMtu
        else Ok info
    | None =>
        if match sp_payload_len spec with Some payload_len => mtu <? payload_len | None => false end
        then Err OversizeForMtu
        else Ok info
    end.

Definition validate_udp_endpoint_packet (info : UdpEndpointInfo) (payload_len : Z) :
    result unit Error :=
  if match ei_payload_len info with
     | Some expected => negb (payload_len =? expected)
     | None => false
     end
  then Err InvalidPacket
  else if match ei_gso_segment_size info with
          | None => ei_mtu info <? payload_len
          | Some _ => false
          end
  then Err OversizeForMtu
  else Ok tt.

Record GenericUdpEndpoint := mkGenericUdpEndpoint {
  ge_spec : UdpEndpointSpec;
  ge_info : UdpEndpointInfo;
}.

Section Sockets.
Context {S M F E : Type} `{PacketBuffer F} `{UdpSocket S M F E}.

Definition prepare_generic_udp_endpoint (socket : S) (spec : UdpEndpointSpec) :
    result GenericUdpEndpoint Error :=
  info <-? validate_udp_endpoint_spec (udp_mtu socket) (udp_capabilities socket) spec;
  Ok (mkGenericUdpEndpoint spec info).

(** ** The generic endpoint send *)

(** The [while prefix_len < batch.len()] loop: the length of the prefix of
    ready and valid packets, and the error that ended it. *)
Fixpoint valid_prefix (info : UdpEndpointInfo) (batch : list (TxSlot (UdpEndpointTransmit F))) :
    Z * option Error :=
  match batch with
  | [] => (0, None)
  | slot :: batch =>
      match slot_as_ref slot with
      | None => (0, Some InvalidBatch)
      | Some tx =>
          match validate_udp_endpoint_packet info (pb_len (et_packet tx)) with
          | Err error => (0, Some error)
          | Ok _ => let '(n, e) := valid_prefix info batch in (1 + n, e)
          end
      end
  end.

Definition convert (spec : UdpEndpointSpec) (tx : UdpEndpointTransmit F) : UdpTransmit F :=
  mkUdpTransmit (et_packet tx) (sp_destination spec) (sp_source_ip spec) (sp_source_port spec)
    (sp_ecn spec) (sp_gso_segment_size spec).

(** The [for slot in batch.iter_mut().take(prefix_len)] loop. *)
Fixpoint take_prefix (spec : UdpEndpointSpec) (n : nat)
    (batch : list (TxSlot (UdpEndpointTransmit F))) :
    outcome (list (TxSlot (UdpEndpointTransmit F)) * list (TxSlot (UdpTransmit F))) :=
  match n, batch with
  | O, _ | _, [] => Ret (batch, [])
  | Datatypes.S n, slot :: batch =>
      match slot_take slot with
      | (slot, Some tx) =>
          r ← take_prefix spec n batch;
          Ret (slot :: r.1, Ready (convert spec tx) :: r.2)
      | (_, None) => Panic
      end
  end.

(** [batch.iter_mut().zip(converted.iter_mut()).skip(accepted)]. *)
Fixpoint restore_unaccepted_endpoint_slots (batch : list (TxSlot (UdpEndpointTransmit F)))
    (converted : list (TxSlot (UdpTransmit F))) (accepted : nat) :
    list (TxSlot (UdpEndpointTransmit F)) :=
  match batch, converted with
  | slot :: batch, c :: converted =>
      match accepted with
      | Datatypes.S accepted =>
          slot :: restore_unaccepted_endpoint_slots batch converted accepted
      | O =>
          match slot_take c with
          | (_, Some tx) => Ready (mkEndpointTransmit (ut_packet tx))
          | (_, None) => slot
          end :: restore_unaccepted_endpoint_slots batch converted 0
      end
  | _, _ => batch
  end.

Definition send_generic_udp_endpoint (endpoint : GenericUdpEndpoint) (socket : S)
    (batch : list (TxSlot (UdpEndpointTransmit F))) :
    outcome (send_result S (UdpEndpointTransmit F)) :=
  let '(prefix_len, deferred_error) := valid_prefix (ge_info endpoint) batch in
  if prefix_len =? 0 then
    Ret (socket, batch,
         match deferred_error with
         | Some kind => Err (mkSendError 0 kind)
         | None => Ok 0
         end)
  else
    p ← take_prefix (ge_spec endpoint) (Z.to_nat prefix_len) batch;
    let '(batch, converted) := p in
    sent ← udp_send socket converted;
    let '(socket, converted, r) := sent in
    match r with
    | Ok accepted =>
        let batch := restore_unaccepted_endpoint_slots batch converted (Z.to_nat accepted) in
        if accepted <? prefix_len then Ret (socket, batch, Ok accepted)
        else
          Ret (socket, batch,
               match deferred_error with
               | Some kind => Err (mkSendError prefix_len kind)
               | None => Ok prefix_len
               end)
    | Err error =>
        let batch :=
          restore_unaccepted_endpoint_slots batch converted (Z.to_nat (se_accepted error)) in
        Ret (socket, batch, Err error)
    end.

(** ** The generic endpoint batch *)
Context `{!PacketBuffer M} `{!PacketBufferMut M F}.

(** The callback mutates its own state and the payload slice, whose length it
    cannot change, and returns how many bytes to send. *)
Context {Cb : Type} (fill_payload : Cb → Z → list Z → outcome (Cb * list Z * Z)).

(** The [for mut buffer in buffers] loop: the slots built and the error that
    ended the loop early. *)
Fixpoint build_batch (info : UdpEndpointInfo) (payload_capacity : Z) (buffers : list M)
    (index : Z) (cb : Cb) (payload : list Z) :
    outcome (Cb * list (TxSlot (UdpEndpointTransmit F)) * option Error) :=
  match buffers with
  | [] => Ret (cb, [], None)
  | buffer :: buffers =>
      filled ← fill_payload cb index payload;
      let '(cb, payload, payload_len) := filled in
      let packet_error :=
        match validate_udp_endpoint_packet info payload_len with
        | Ok _ => None
        | Err e => Some e
        end in
      if payload_capacity <? payload_len then
        Ret (cb, [], Some (default OversizeForMtu packet_error))
      else
        match packet_error with
        | Some error => Ret (cb, [], Some error)
        | None =>
            match slice payload 0 payload_len with
            | None => Panic
            | Some bytes =>
                e ← pb_extend_from_slice buffer bytes;
                match e.2 with
                | Err _ => Ret (cb, [], Some (Device (DeviceError_new Backend)))
                | Ok _ =>
                    r ← build_batch info payload_capacity buffers (index + 1) cb payload;
                    let '(cb, batch, error) := r in
                    Ret (cb, Ready (mkEndpointTransmit (pb_freeze e.1)) :: batch, error)
                end
            end
        end
  end.

Definition send_generic_udp_endpoint_batch (socket : S) (endpoint : E) (max : Z) (cb : Cb) :
    outcome (S * E * Cb * result Z SendError) :=
  if max =? 0 then Ret (socket, endpoint, cb, Ok 0)
  else
    let info := udp_endpoint_info socket endpoint in
    let payload_capacity := default (ei_mtu info) (ei_payload_len info) in
    a ← allocate_tx_batch socket [] max;
    let '(socket, buffers, allocated) := a in
    match allocated with
    | Err kind => Ret (socket, endpoint, cb, Err (mkSendError 0 kind))
    | Ok _ =>
        if len buffers =? 0 then Ret (socket, endpoint, cb, Ok 0)
        else
          b ← build_batch info payload_capacity buffers 0 cb
                (replicate (Z.to_nat payload_capacity) 0);
          let '(cb, batch, deferred_error) := b in
          if len batch =? 0 then
            Ret (socket, endpoint, cb,
                 match deferred_error with
                 | Some kind => Err (mkSendError 0 kind)
                 | None => Ok 0
                 end)
          else
            sent ← send_to_udp_endpoint (socket, endpoint) batch;
            let '((socket, endpoint), batch, r) := sent in
            match r with
            | Ok accepted =>
                if accepted <? len batch then Ret (socket, endpoint, cb, Ok accepted)
                else
                  Ret (socket, endpoint, cb,
                       match deferred_error with
                       | Some kind => Err (mkSendError accepted kind)
                       | None => Ok accepted
                       end)
            | Err error => Ret (socket, endpoint, cb, Err error)
            end
    end.

End Sockets.

(** ** Sending to completion

    The loop of [UdpSocket::send_all], [UdpSocket::send_all_to_udp_endpoint]
    and [IpPacketSocket::send_all]: they differ in the send they call. The
    fuel bounds the number of sends, which the source leaves unbounded. *)
Section SendAll.
Context {S T : Type}.
Context (send : S → list (TxSlot T) → outcome (send_result S T)).
Context (drain : S → outcome (S * result Z Error)).

Fixpoint send_all_loop (fuel : nat) (total : Z) (socket : S) (batch : list (TxSlot T)) :
    outcome (send_result S T) :=
  if total <? len batch then
    match fuel with
    | O => Diverge
    | Datatypes.S fuel =>
        sent ← send socket (drop (Z.to_nat total) batch);
        let '(socket, tail, r) := sent in
        let batch := take (Z.to_nat total) batch ++ tail in
        match r with
        | Ok n =>
            if n =? 0 then
              d ← drain socket;
              let '(socket, drained) := d in
              match drained with
              | Err error => Ret (socket, batch, Err (mkSendError total error))
              | Ok _ => send_all_loop fuel total socket batch
              end
            else send_all_loop fuel (total + n) socket batch
        | Err error =>
            Ret (socket, batch, Err (mkSendError (total + se_accepted error) (se_kind error)))
        end
    end
  else Ret (socket, batch, Ok total).

Definition send_all (fuel : nat) (socket : S) (batch : list (TxSlot T)) : outcome (send_result S T) :=
  send_all_loop fuel 0 socket batch.

End SendAll.

Definition udp_send_all `{UdpSocket Sk M F E} (fuel : nat) (socket : Sk)
    (batch : list (TxSlot (UdpTransmit F))) : outcome (send_result Sk (UdpTransmit F)) :=
  send_all udp_send drain_tx_completions fuel socket batch.

Definition send_all_to_udp_endpoint `{UdpSocket Sk M F E} (fuel : nat) (socket : Sk) (endpoint : E)
    (batch : list (TxSlot (UdpEndpointTransmit F))) :
    outcome (send_result (Sk * E) (UdpEndpointTransmit F)) :=
  send_all send_to_udp_endpoint
    (λ se, d ← drain_tx_completions se.1; Ret ((d.1, se.2), d.2)) fuel (socket, endpoint) batch.

(** The methods of [IpPacketSocket] that its [send_all] calls. *)
Class IpPacketSocket (Sk B Egress Addr : Type) := {
  ip_send : Sk → list (TxSlot (IpPacketTransmit B Egress Addr)) →
    outcome (send_result Sk (IpPacketTransmit B Egress Addr));
  ip_drain_tx_completions : Sk → outcome (Sk * result Z Error);
}.

Definition ip_send_all `{IpPacketSocket Sk B Egress Addr} (fuel : nat) (socket : Sk)
    (batch : list (TxSlot (IpPacketTransmit B Egress Addr))) :
    outcome (send_result Sk (IpPacketTransmit B Egress Addr)) :=
  send_all ip_send ip_drain_tx_completions fuel socket batch.
