(* ===== verification/EndpointProofs.v ===== *)
(** * The send contract and the lemmas of the endpoint proofs

    [SendContract] is what the documentation of [SendError] and of the socket
    traits promises of a send: the accepted slots are a prefix, taken in order,
    and the rest is untouched. The generic endpoint is proved against it and
    implements it in turn. *)
From S2P Require Import Prelude Core Buffer Endpoint.
Open Scope Z_scope.

Definition accepted_of (r : result Z SendError) : Z :=
  match r with
  | Ok n => n
  | Err e => se_accepted e
  end.

Definition items {T} (batch : list (TxSlot T)) : list T := omap slot_as_ref batch.

(** The batch after a send that accepted [n] slots. *)
Definition slots_after {T} (n : Z) (b b' : list (TxSlot T)) : Prop :=
  0 ≤ n ≤ len b ∧ Forall (λ slot, is_ready slot = true) (take (Z.to_nat n) b) ∧
  b' = replicate (Z.to_nat n) Taken ++ drop (Z.to_nat n) b.

(** [log] is the sequence of packets a socket has accepted so far; [emb] is
    the packet a slot's item stands for; [good] is what the socket assumes of
    an item, such as that its buffer's owner lives. *)
Class SendContract {S T L} (Inv : S → Prop) (good : T → Prop) (log : S → list L) (emb : T → L)
    (send : S → list (TxSlot T) → outcome (send_result S T)) :=
  send_contract s b : Inv s → Forall good (items b) →
    ∃ s' b' r, send s b = Ret (s', b', r) ∧ Inv s' ∧ slots_after (accepted_of r) b b' ∧
      log s' = log s ++ (emb <$> items (take (Z.to_nat (accepted_of r)) b)).

Class DrainContract {S L} (Inv : S → Prop) (log : S → list L)
    (drain : S → outcome (S * result Z Error)) :=
  drain_contract s : Inv s → ∃ s' r, drain s = Ret (s', r) ∧ Inv s' ∧ log s' = log s.

(** Back-pressure ends: a send that accepts nothing, followed by a successful
    completion drain, brings the socket strictly closer to accepting. *)
Class SendProgress {S T} (Inv : S → Prop) (good : T → Prop)
    (send : S → list (TxSlot T) → outcome (send_result S T))
    (drain : S → outcome (S * result Z Error)) (rank : S → nat) :=
  send_progress s b s1 b1 s2 k : Inv s → Forall good (items b) → b ≠ [] → send s b = Ret (s1, b1, Ok 0) →
    drain s1 = Ret (s2, Ok k) → (rank s2 < rank s)%nat.

(** ** Slots *)
Lemma slots_after_zero {T} (b : list (TxSlot T)) : slots_after 0 b b.
Proof. unfold slots_after. pose proof (len_nonneg b). cbn. split_and!; [lia|lia|constructor|done]. Qed.

Lemma slots_after_app {T} n m (b t : list (TxSlot T)) :
  slots_after n b (replicate (Z.to_nat n) Taken ++ drop (Z.to_nat n) b) →
  slots_after m (drop (Z.to_nat n) b) t →
  slots_after (n + m) b (replicate (Z.to_nat n) Taken ++ t).
Proof.
  unfold slots_after. intros ([H0 Hn] & HF & _) ([H0' Hm] & HF' & ->).
  rewrite len_drop in Hm by lia. rewrite Z2Nat.inj_add by lia. split_and!; [lia|lia| |].
  - rewrite <- take_take_drop, Forall_app. by split.
  - by rewrite replicate_add, <- app_assoc, drop_drop.
Qed.

Lemma items_app {T} (l k : list (TxSlot T)) : items (l ++ k) = items l ++ items k.
Proof. apply omap_app. Qed.

Lemma items_ready {T} (l : list T) : items (Ready <$> l) = l.
Proof. unfold items. induction l as [|x l IH]; cbn; [done|]. by rewrite IH. Qed.

Lemma items_take_split {T} n m (b : list (TxSlot T)) : 0 ≤ n → 0 ≤ m →
  items (take (Z.to_nat (n + m)) b)
  = items (take (Z.to_nat n) b) ++ items (take (Z.to_nat m) (drop (Z.to_nat n) b)).
Proof. intros. rewrite Z2Nat.inj_add, <- take_take_drop, items_app by lia. done. Qed.

Lemma items_drop_good {T} (good : T → Prop) n (b : list (TxSlot T)) : Forall good (items b) → Forall good (items (drop n b)).
Proof. rewrite <- (take_drop n b) at 1. rewrite items_app, Forall_app. by intros [_ ?]. Qed.

(** ** Sending to completion *)
Section SendAllProofs.
Context {S T L : Type} (Inv : S → Prop) (good : T → Prop) (log : S → list L) (emb : T → L).
Context (send : S → list (TxSlot T) → outcome (send_result S T)).
Context (drain : S → outcome (S * result Z Error)) (rank : S → nat).
Context `{!SendContract Inv good log emb send} `{!DrainContract Inv log drain}.
Context `{!SendProgress Inv good send drain rank}.

Lemma send_all_loop_spec total tail s :
  0 ≤ total → Inv s → Forall good (items tail) →
  ∃ fuel0 s' tail' r,
    (∀ fuel, (fuel0 ≤ fuel)%nat →
       send_all_loop send drain fuel total s (replicate (Z.to_nat total) Taken ++ tail)
       = Ret (s', replicate (Z.to_nat total) Taken ++ tail', r)) ∧
    Inv s' ∧ slots_after (accepted_of r - total) tail tail' ∧
    log s' = log s ++ (emb <$> items (take (Z.to_nat (accepted_of r - total)) tail)) ∧
    (∀ n, r = Ok n → n = total + len tail).
Proof.
  remember (length tail) as n eqn:Hn. revert total tail s Hn.
  induction n as [n IHn] using lt_wf_ind. intros total tail s Hn.
  remember (rank s) as k eqn:Hk. revert s Hk.
  induction k as [k IHk] using lt_wf_ind. intros s Hk H0 Hs Hg.
  destruct tail as [|slot tail].
  { exists 0%nat, s, [], (Ok total). split_and!; try done.
    - intros fuel _. rewrite app_nil_r. destruct fuel; cbn [send_all_loop];
        unfold len; rewrite length_replicate, Z2Nat.id by lia; by rewrite Z.ltb_irrefl.
    - cbn. rewrite Z.sub_diag. apply slots_after_zero.
    - cbn. by rewrite Z.sub_diag, app_nil_r.
    - intros m [= ->]. unfold len. cbn [length]. lia. }
  set (full := slot :: tail) in *.
  destruct (send_contract s full Hs Hg) as (s1 & t1 & r1 & Hsend & Hs1 & Hslots & Hlog).
  assert (Hstep : ∀ fuel, send_all_loop send drain (Datatypes.S fuel) total s
      (replicate (Z.to_nat total) Taken ++ full)
    = match r1 with
      | Ok n1 => if n1 =? 0 then
                  d ← drain s1;
                  let '(socket, drained) := d in
                  match drained with
                  | Err error => Ret (socket, replicate (Z.to_nat total) Taken ++ t1, Err (mkSendError total error))
                  | Ok _ => send_all_loop send drain fuel total socket (replicate (Z.to_nat total) Taken ++ t1)
                  end
                else send_all_loop send drain fuel (total + n1) s1 (replicate (Z.to_nat total) Taken ++ t1)
      | Err error => Ret (s1, replicate (Z.to_nat total) Taken ++ t1,
                        Err (mkSendError (total + se_accepted error) (se_kind error)))
      end).
  { intros fuel. cbn [send_all_loop].
    assert (Hlt : total < len (replicate (Z.to_nat total) Taken ++ full)).
    { rewrite len_app. unfold len at 1. rewrite length_replicate. unfold full, len. cbn. lia. }
    destruct (Z.ltb_spec total (len (replicate (Z.to_nat total) Taken ++ full))); [|lia].
    rewrite drop_app_length', take_app_length' by (by rewrite length_replicate). by rewrite Hsend. }
  destruct r1 as [n1|e1]; cbn [accepted_of] in *.
  - destruct (Z.eqb_spec n1 0) as [->|Hn1].
    + assert (t1 = full) as -> by (by destruct Hslots as (_ & _ & ->)).
      cbn in Hlog. rewrite app_nil_r in Hlog.
      destruct (drain_contract s1 Hs1) as (s2 & d & Hd & Hs2 & Hlog2).
      rewrite Hlog in Hlog2. destruct d as [m|e].
      * assert (rank s2 < k)%nat by (subst k; by eapply (send_progress s full)).
        destruct (IHk (rank s2) ltac:(done) s2 eq_refl H0 Hs2 Hg) as (f0 & s' & tail' & r & Hrun & Hrest).
        exists (Datatypes.S f0), s', tail', r. split; [|by rewrite <- Hlog2].
        intros [|fuel] Hf; [lia|]. rewrite Hstep, Hd. run. apply Hrun. lia.
      * exists 1%nat, s2, full, (Err (mkSendError total e)). split_and!; try done.
        -- intros [|fuel] Hf; [lia|]. by rewrite Hstep, Hd.
        -- cbn. rewrite Z.sub_diag. apply slots_after_zero.
        -- cbn. by rewrite Z.sub_diag, app_nil_r.
    + destruct (Hslots) as (Hr & _ & Ht1). rewrite Ht1 in Hslots.
      assert (Hlt : (length (drop (Z.to_nat n1) full) < n)%nat).
      { subst n. rewrite length_drop. unfold full. cbn. lia. }
      destruct (IHn _ Hlt (total + n1) (drop (Z.to_nat n1) full) s1 eq_refl ltac:(lia) Hs1 (items_drop_good _ _ _ Hg))
        as (f0 & s' & tail' & r & Hrun & Hs' & Hsl & Hlog' & Htot).
      exists (Datatypes.S f0), s', (replicate (Z.to_nat n1) Taken ++ tail'), r.
      assert (Hsum : n1 + (accepted_of r - (total + n1)) = accepted_of r - total) by lia.
      split_and!; try done.
      * intros [|fuel] Hf; [lia|]. rewrite Hstep.
        rewrite Ht1, !app_assoc, <- replicate_add, <- Z2Nat.inj_add by lia.
        destruct (Z.eqb_spec n1 0); [lia|]. apply Hrun. lia.
      * rewrite <- Hsum. by apply slots_after_app.
      * rewrite <- Hsum, items_take_split, fmap_app, app_assoc, <- Hlog; [done|lia|].
        destruct Hsl as ([? _] & _). done.
      * intros m Hm. rewrite (Htot m Hm), len_drop by lia. lia.
  - exists 1%nat, s1, t1, (Err (mkSendError (total + se_accepted e1) (se_kind e1))).
    assert (Hsub : total + se_accepted e1 - total = se_accepted e1) by lia.
    split_and!; try done; cbn [accepted_of se_accepted]; rewrite ?Hsub; try done.
    intros [|fuel] Hf; [lia|]. by rewrite Hstep.
Qed.

End SendAllProofs.

(** ** The generic endpoint *)
Section GenericEndpoint.
Context {S M F E L : Type} `{!PacketBuffer F} `{!UdpSocket S M F E}.
Context (Inv : S → Prop) (good : UdpTransmit F → Prop) (log : S → list L) (emb : UdpTransmit F → L).

(** Why a slot ends the valid prefix. *)
Definition rejected (info : UdpEndpointInfo) (slot : TxSlot (UdpEndpointTransmit F)) (e : Error) : Prop :=
  match slot with
  | Taken => e = InvalidBatch
  | Ready tx => validate_udp_endpoint_packet info (pb_len (et_packet tx)) = Err e
  end.

Lemma valid_prefix_spec info batch n e :
  valid_prefix info batch = (n, e) →
  ∃ xs rest, batch = (Ready <$> xs) ++ rest ∧ n = len xs ∧
    Forall (λ tx, validate_udp_endpoint_packet info (pb_len (et_packet tx)) = Ok tt) xs ∧
    match e with
    | None => rest = []
    | Some err => ∃ slot rest', rest = slot :: rest' ∧ rejected info slot err
    end.
Proof.
  revert n e. induction batch as [|slot batch IH]; intros n e; cbn.
  { intros [= <- <-]. exists [], []. split_and!; [done|done|constructor|done]. }
  destruct slot as [tx|]; cbn.
  2:{ intros [= <- <-]. exists [], (Taken :: batch). split_and!; [done|done|constructor|]. cbn. by eexists _, _. }
  destruct (validate_udp_endpoint_packet info (pb_len (et_packet tx))) as [[]|err] eqn:Hv.
  2:{ intros [= <- <-]. exists [], (Ready tx :: batch). split_and!; [done|done|constructor|]. cbn. by eexists _, _. }
  destruct (valid_prefix info batch) as [m e'] eqn:Hp. intros [= <- <-].
  destruct (IH m e' eq_refl) as (xs & rest & -> & -> & HF & He).
  exists (tx :: xs), rest. split_and!; try done; [|by constructor]. unfold len. cbn [length]. lia.
Qed.

Lemma take_prefix_spec spec (xs : list (UdpEndpointTransmit F)) rest :
  take_prefix spec (length xs) ((Ready <$> xs) ++ rest)
  = Ret (replicate (length xs) Taken ++ rest, Ready <$> (convert spec <$> xs)).
Proof.
  induction xs as [|x xs IH]; cbn; [by destruct rest|]. rewrite IH. done.
Qed.

Lemma restore_spec (spec : UdpEndpointSpec) (xs : list (UdpEndpointTransmit F)) rest k :
  (k ≤ length xs)%nat →
  restore_unaccepted_endpoint_slots (replicate (length xs) Taken ++ rest)
    (replicate k Taken ++ drop k (Ready <$> (convert spec <$> xs))) k
  = replicate k Taken ++ drop k (Ready <$> xs) ++ rest.
Proof.
  revert k. induction xs as [|x xs IH]; intros k Hk; cbn.
  - destruct k; [|cbn in Hk; lia]. cbn. by destruct rest.
  - destruct k as [|k]; cbn.
    + specialize (IH 0%nat ltac:(lia)). cbn in IH. rewrite !drop_0 in IH. rewrite IH.
      by destruct x.
    + rewrite IH by (cbn in Hk; lia). done.
Qed.

(** What the endpoint reports for the answer [r] of the socket. *)
Definition endpoint_result (n : Z) (e : option Error) (r : result Z SendError) : result Z SendError :=
  match r with
  | Ok k =>
      if k <? n then Ok k
      else match e with
           | Some kind => Err (mkSendError n kind)
           | None => Ok n
           end
  | Err error => Err error
  end.

Lemma send_generic_spec `{!SendContract Inv good log emb udp_send} endpoint s batch n e :
  Inv s → Forall (good ∘ convert (ge_spec endpoint)) (items batch) → valid_prefix (ge_info endpoint) batch = (n, e) →
  ∃ xs rest s' b' r,
    batch = (Ready <$> xs) ++ rest ∧ n = len xs ∧
    send_generic_udp_endpoint endpoint s batch = Ret (s', b', endpoint_result n e r) ∧
    (n = 0 → s' = s ∧ r = Ok 0) ∧
    (n ≠ 0 → ∃ c', udp_send s (Ready <$> (convert (ge_spec endpoint) <$> xs)) = Ret (s', c', r)) ∧
    Inv s' ∧ slots_after (accepted_of (endpoint_result n e r)) batch b' ∧
    log s' = log s ++ (emb ∘ convert (ge_spec endpoint) <$>
                        items (take (Z.to_nat (accepted_of (endpoint_result n e r))) batch)).
Proof.
  intros Hs Hg Hp. destruct (valid_prefix_spec _ _ _ _ Hp) as (xs & rest & -> & -> & HF & He).
  unfold send_generic_udp_endpoint. rewrite Hp.
  destruct (Z.eqb_spec (len xs) 0) as [H0|H0].
  { exists xs, rest, s, ((Ready <$> xs) ++ rest), (Ok 0). rewrite H0. split_and!; try done.
    - destruct e; apply slots_after_zero.
    - destruct e; cbn; by rewrite app_nil_r. }
  assert (HlZ : Z.to_nat (len xs) = length xs) by (unfold len; lia).
  rewrite HlZ, take_prefix_spec. run.
  rewrite items_app, items_ready, Forall_app in Hg.
  destruct (send_contract s (Ready <$> (convert (ge_spec endpoint) <$> xs)) Hs
    ltac:(rewrite items_ready; apply Forall_fmap, Hg))
    as (s' & c' & r & Hsend & Hs' & ([Hk0 Hk] & _ & ->) & Hlog).
  rewrite Hsend. run. set (k := accepted_of r) in *.
  assert (HkL : k ≤ len xs) by (unfold len in Hk |- *; rewrite !length_fmap in Hk; done).
  assert (HkN : (Z.to_nat k ≤ length xs)%nat) by (unfold len in HkL; lia).
  set (b' := replicate (Z.to_nat k) Taken ++ drop (Z.to_nat k) (Ready <$> xs) ++ rest).
  assert (Hacc : accepted_of (endpoint_result (len xs) e r) = k).
  { unfold k. destruct r as [m|err]; cbn; [|done].
    destruct (Z.ltb_spec m (len xs)); [done|]. unfold k in HkL. cbn in HkL. destruct e; cbn; lia. }
  exists xs, rest, s', b', r. split_and!; try done.
  - pose proof (restore_spec (ge_spec endpoint) xs rest (Z.to_nat k) HkN) as Hres.
    fold b' in Hres. destruct r as [m|err]; unfold k in Hres; cbn [accepted_of] in Hres.
    + change (accepted_of (Ok m)) with m in k. unfold k. rewrite Hres. cbn.
      by destruct (m <? len xs).
    + change (accepted_of (Err err)) with (se_accepted err) in k. unfold k. by rewrite Hres.
  - intros _. by eexists.
  - rewrite Hacc. unfold slots_after. split_and!.
    + done.
    + rewrite len_app. unfold len at 1. rewrite length_fmap. pose proof (len_nonneg rest).
      unfold len in HkL. lia.
    + rewrite take_app_le by (by rewrite length_fmap). rewrite <- fmap_take.
      by apply Forall_fmap, Forall_true.
    + unfold b'. rewrite drop_app_le by (by rewrite length_fmap). done.
  - rewrite Hacc, Hlog. f_equal. rewrite take_app_le by (by rewrite length_fmap).
    rewrite <- !fmap_take, !items_ready. by rewrite list_fmap_compose.
Qed.

#[export] Instance generic_endpoint_contract endpoint `{!SendContract Inv good log emb udp_send} :
  SendContract Inv (good ∘ convert (ge_spec endpoint)) log (emb ∘ convert (ge_spec endpoint)) (send_generic_udp_endpoint endpoint).
Proof.
  intros s b Hs Hg. destruct (valid_prefix (ge_info endpoint) b) as [n e] eqn:Hp.
  destruct (send_generic_spec endpoint s b n e Hs Hg Hp)
    as (xs & rest & s' & b' & r & _ & _ & Hsend & _ & _ & Hs' & Hsl & Hlog).
  by exists s', b', (endpoint_result n e r).
Qed.

(** Back-pressure at the endpoint is back-pressure at the socket. *)
#[export] Instance generic_endpoint_progress drain rank endpoint
    `{!SendContract Inv good log emb udp_send} `{!SendProgress Inv good udp_send drain rank} :
  SendProgress Inv (good ∘ convert (ge_spec endpoint)) (send_generic_udp_endpoint endpoint) drain rank.
Proof.
  intros s b s1 b1 s2 k Hs Hg Hb Hsend Hd.
  destruct (valid_prefix (ge_info endpoint) b) as [n e] eqn:Hp.
  destruct (valid_prefix_spec _ _ _ _ Hp) as (xs' & rest' & -> & Hn' & _ & He).
  destruct (send_generic_spec endpoint s _ n e Hs Hg Hp)
    as (xs & rest & s' & b' & r & Hb' & Hn & Hrun & H0 & Hcall & _).
  rewrite Hrun in Hsend. injection Hsend as <- <- Hr.
  assert (Hnz : n ≠ 0).
  { intros Hz. destruct (H0 Hz) as [_ ->]. rewrite Hz in Hr, Hn'. destruct e; [done|]. subst rest'.
    destruct xs'; [done|]. unfold len in Hn'. cbn in Hn'. lia. }
  destruct (Hcall Hnz) as [c' Hc].
  assert (r = Ok 0) as ->.
  { destruct r as [m|]; cbn in Hr; [|done]. destruct (Z.ltb_spec m n); [done|]. destruct e; congruence. }
  rewrite Hb', items_app, items_ready, Forall_app in Hg.
  eapply (send_progress s); [done| | |exact Hc|done]; [rewrite items_ready; apply Forall_fmap, Hg|].
  intros Hnil. apply fmap_nil_inv, fmap_nil_inv in Hnil. subst xs. by rewrite Hn in Hnz.
Qed.

End GenericEndpoint.

(** ** The endpoint batch builder *)
Section Batch.
Context {S M F E L Cb : Type} `{!PacketBuffer F} `{!UdpSocket S M F E}.
Context `{!PacketBuffer M} `{!PacketBufferMut M F} (BInv : M → Prop) `{!PacketBufferLaws M F BInv}.
Context (fill_payload : Cb → Z → list Z → outcome (Cb * list Z * Z)).

(** The callback contract: it returns, keeps the slice's length and reports a
    count. *)
Definition fill_ok : Prop :=
  ∀ cb i p, ∃ cb' p' n, fill_payload cb i p = Ret (cb', p', n) ∧ len p' = len p ∧ 0 ≤ n.

(** [fills info cap cb i p ps]: called with the indices from [i] on, the
    callback writes the payloads [ps], each accepted by the endpoint. *)
Inductive fills (info : UdpEndpointInfo) (cap : Z) : Cb → Z → list Z → list (list Z) → Prop :=
  | fills_nil cb i p : fills info cap cb i p []
  | fills_cons cb i p cb1 p1 n ps :
      fill_payload cb i p = Ret (cb1, p1, n) → n ≤ cap →
      validate_udp_endpoint_packet info n = Ok tt →
      fills info cap cb1 (i + 1) p1 ps →
      fills info cap cb i p (take (Z.to_nat n) p1 :: ps).

Definition payload_of (tx : UdpEndpointTransmit F) : list Z := bytes_of (et_packet tx).

Lemma build_batch_spec info cap buffers i cb payload :
  fill_ok → len payload = cap →
  Forall (λ b, BInv b ∧ bytes_of b = []) buffers →
  ∃ cb' xs e, build_batch fill_payload info cap buffers i cb payload = Ret (cb', Ready <$> xs, e) ∧
    len xs ≤ len buffers ∧ (e = None → len xs = len buffers) ∧
    fills info cap cb i payload (payload_of <$> xs) ∧
    Forall (λ tx, ∃ b, BInv b ∧ tx = mkEndpointTransmit (pb_freeze b)) xs.
Proof.
  intros Hfill Hcap HF. revert i cb payload Hcap.
  induction HF as [|buffer buffers [HB HBb] HF IH]; intros i cb payload Hcap; cbn [build_batch].
  { exists cb, [], None. split_and!; [done..|constructor|constructor]. }
  assert (Hstop : ∀ (cb' : Cb) (e : Error), ∃ cb'' xs e', Ret (cb', @nil (TxSlot (UdpEndpointTransmit F)), Some e)
      = Ret (cb'', Ready <$> xs, e') ∧ len xs ≤ len (buffer :: buffers) ∧
      (e' = None → len xs = len (buffer :: buffers)) ∧
      fills info cap cb i payload (payload_of <$> xs) ∧
      Forall (λ tx, ∃ b, BInv b ∧ tx = mkEndpointTransmit (pb_freeze b)) xs).
  { intros cb' e. exists cb', [], (Some e). split_and!; [done|apply len_nonneg|done|constructor|constructor]. }
  destruct (Hfill cb i payload) as (cb1 & p1 & n & Hf & Hl & Hn). rewrite Hf. run.
  destruct (Z.ltb_spec cap n) as [|Hle]; [apply Hstop|].
  destruct (validate_udp_endpoint_packet info n) as [[]|err] eqn:Hv; [|apply Hstop].
  assert (Hs : slice p1 0 n = Some (take (Z.to_nat n) p1)).
  { unfold slice. rewrite Z.sub_0_r. case_bool; cbn; try done; lia. }
  rewrite Hs. destruct (law_extend buffer (take (Z.to_nat n) p1) HB) as (b' & r & He & HB' & Hr).
  rewrite He. run. destruct (_ <=? _).
  2:{ destruct Hr as [-> _]. apply Hstop. }
  destruct Hr as (-> & Hb' & _). cbn [snd fst].
  destruct (IH (i + 1) cb1 p1 ltac:(lia)) as (cb' & xs & e & Hb & Hlen & Hall & Hfs & Hfr).
  rewrite Hb. run. exists cb', (mkEndpointTransmit (pb_freeze b') :: xs), e. split_and!; [done| | | |constructor; [by exists b'|done]].
  - unfold len in *. cbn [length]. lia.
  - intros Hnone. specialize (Hall Hnone). unfold len in *. cbn [length]. lia.
  - rewrite fmap_cons. replace (payload_of _) with (take (Z.to_nat n) p1); [by econstructor|].
    unfold payload_of. cbn [et_packet]. destruct (law_freeze b' HB') as [-> _]. by rewrite Hb', HBb.
Qed.

End Batch.
