(* ===== verification/EndpointMain.v ===== *)
(** * Properties of UDP endpoints and of sending to completion

    The loopback socket at the end shows that the contracts are satisfiable:
    it holds a bounded number of packets in flight, and each completion drain
    frees one. *)
From S2P Require Import Prelude Core Buffer BufferSpec Endpoint EndpointProofs.
Open Scope Z_scope.

(** ** A bounded loopback socket *)
Record Loopback := mkLoopback {
  lp_capacity : nat;
  lp_in_flight : nat;
  lp_sent : list (UdpTransmit SpecBuffer);
}.
Definition lp_ok (s : Loopback) : Prop := (1 ≤ lp_capacity s)%nat ∧ (lp_in_flight s ≤ lp_capacity s)%nat.

Definition lp_send {T} (conv : T → UdpTransmit SpecBuffer) (s : Loopback) (b : list (TxSlot T)) :
    outcome (send_result Loopback T) :=
  match b with
  | Ready tx :: b' =>
      if decide (lp_in_flight s < lp_capacity s)%nat then
        Ret (mkLoopback (lp_capacity s) (S (lp_in_flight s)) (lp_sent s ++ [conv tx]),
             Taken :: b', Ok 1)
      else Ret (s, b, Ok 0)
  | Taken :: _ => Ret (s, b, Err (mkSendError 0 InvalidBatch))
  | [] => Ret (s, b, Ok 0)
  end.
Definition lp_drain (s : Loopback) : outcome (Loopback * result Z Error) :=
  Ret (mkLoopback (lp_capacity s) (pred (lp_in_flight s)) (lp_sent s), Ok 1).

Definition lp_info : UdpEndpointInfo := mkInfo 8 None None.
Definition lp_spec : UdpEndpointSpec := UdpEndpointSpec_new (SocketAddrV4 0 9).
Definition lp_buffer : SpecBuffer :=
  mkSpecBuffer (mkLayout 8 0 0 8 0 1 8 1 0 false) 0 [] 8.

#[export] Instance loopback_socket : UdpSocket Loopback SpecBuffer SpecBuffer unit := {
  udp_mtu _ := 8;
  udp_capabilities _ := UdpCapabilities_default;
  allocate_tx_batch s out max :=
    Ret (s, out ++ replicate (Z.to_nat (Z.min 4 max)) lp_buffer, Ok (Z.min 4 max));
  udp_send := lp_send id;
  udp_endpoint_info _ _ := lp_info;
  send_to_udp_endpoint se b :=
    r ← lp_send (convert lp_spec) se.1 b;
    Ret (r.1.1, se.2, r.1.2, r.2);
  drain_tx_completions := lp_drain;
}.

#[export] Instance lp_send_contract {T} (conv : T → UdpTransmit SpecBuffer) :
  SendContract lp_ok (λ _, True) lp_sent conv (lp_send conv).
Proof.
  intros s b Hs _. destruct b as [|[tx|] b]; cbn [lp_send].
  - exists s, [], (Ok 0). split_and!; try done; first [apply slots_after_zero|cbn; by rewrite app_nil_r].
  - destruct (decide (lp_in_flight s < lp_capacity s)%nat).
    + eexists _, _, (Ok 1). split_and!; [done| |..].
      * destruct Hs. split; cbn; lia.
      * unfold slots_after. cbn [accepted_of]. change (Z.to_nat 1) with 1%nat.
        split_and!; [lia| |by repeat constructor|done]. unfold len. cbn [length]. lia.
      * done.
    + exists s, (Ready tx :: b), (Ok 0).
      split_and!; try done; first [apply slots_after_zero|cbn; by rewrite app_nil_r].
  - exists s, (Taken :: b), (Err (mkSendError 0 InvalidBatch)).
    split_and!; try done; first [apply slots_after_zero|cbn; by rewrite app_nil_r].
Qed.

#[export] Instance lp_drain_contract : DrainContract lp_ok lp_sent lp_drain.
Proof. intros s [? ?]. eexists _, _. split; [reflexivity|]. unfold lp_ok. cbn. split_and!; [lia|lia|done]. Qed.

#[export] Instance lp_progress {T} (conv : T → UdpTransmit SpecBuffer) :
  SendProgress lp_ok (λ _, True) (lp_send conv) lp_drain lp_in_flight.
Proof.
  intros s b s1 b1 s2 k [Hc Hf] _ Hb Hsend Hd. destruct b as [|[tx|] b]; cbn in Hsend; try done.
  destruct (decide _); simplify_eq. unfold lp_drain in Hd. simplify_eq. cbn. lia.
Qed.

(** ** Properties *)

(** C25. Over any socket whose send takes an accepted prefix in order and
    leaves the rest untouched, the generic endpoint does the same for its own
    batch. It submits exactly the longest prefix of ready packets the endpoint
    accepts, with the endpoint's metadata; the packets the socket does not
    accept are back in their slots; an empty prefix touches neither socket nor
    batch; and the error that ended the prefix is reported exactly when the
    whole prefix was accepted. *)
Theorem generic_endpoint_send {S M F E L} `{!PacketBuffer F} `{!UdpSocket S M F E}
    (Inv : S → Prop) (good : UdpTransmit F → Prop) (log : S → list L) (emb : UdpTransmit F → L)
    (Hsend : SendContract Inv good log emb udp_send)
    (endpoint : GenericUdpEndpoint) (s : S) (batch : list (TxSlot (UdpEndpointTransmit F))) :
  Inv s → Forall (good ∘ convert (ge_spec endpoint)) (items batch) →
  ∃ xs rest n e s' b' r,
    batch = (Ready <$> xs) ++ rest ∧ n = len xs ∧
    Forall (λ tx, validate_udp_endpoint_packet (ge_info endpoint) (pb_len (et_packet tx)) = Ok tt) xs ∧
    match e with
    | None => rest = []
    | Some err => ∃ slot rest', rest = slot :: rest' ∧ rejected (ge_info endpoint) slot err
    end ∧
    send_generic_udp_endpoint endpoint s batch = Ret (s', b', endpoint_result n e r) ∧
    (n = 0 → s' = s ∧ b' = batch) ∧
    (n ≠ 0 → ∃ c', udp_send s (Ready <$> (convert (ge_spec endpoint) <$> xs)) = Ret (s', c', r)) ∧
    Inv s' ∧ slots_after (accepted_of (endpoint_result n e r)) batch b' ∧
    log s' = log s ++ (emb ∘ convert (ge_spec endpoint) <$>
                        items (take (Z.to_nat (accepted_of (endpoint_result n e r))) batch)).
Proof.
  intros Hs Hg. destruct (valid_prefix (ge_info endpoint) batch) as [n e] eqn:Hp.
  destruct (valid_prefix_spec _ _ _ _ Hp) as (xs & rest & Hb & Hn & HF & He).
  destruct (send_generic_spec Inv good log emb endpoint s batch n e Hs Hg Hp)
    as (xs2 & rest2 & s' & b' & r & Hb2 & Hn2 & Hrun & H0 & Hcall & Hs' & Hsl & Hlog).
  assert (xs2 = xs ∧ rest2 = rest) as [-> ->].
  { rewrite Hb in Hb2. apply app_inj_1 in Hb2 as [Hx ->].
    - split; [|done]. apply (f_equal items) in Hx. by rewrite !items_ready in Hx.
    - rewrite !length_fmap. unfold len in *. lia. }
  exists xs, rest, n, e, s', b', r. split_and!; try done.
  intros Hz. destruct (H0 Hz) as [-> ->]. split; [done|]. subst n. rewrite Hz in Hsl.
  replace (accepted_of (endpoint_result 0 e (Ok 0))) with 0 in Hsl by (by destruct e).
  by destruct Hsl as (_ & _ & ->).
Qed.

Definition lp_tx (b : list Z) : UdpEndpointTransmit SpecBuffer :=
  mkEndpointTransmit (mkSpecBuffer (sb_layout lp_buffer) 0 b (8 - len b)).
Definition lp_state : Loopback := mkLoopback 2 2 [].

Lemma generic_endpoint_send_witness :
  ∃ s' b' r, send_generic_udp_endpoint (mkGenericUdpEndpoint lp_spec lp_info)
      (mkLoopback 2 1 []) [Ready (lp_tx [1]); Ready (lp_tx [1; 2]); Taken] = Ret (s', b', r) ∧
    b' = [Taken; Ready (lp_tx [1; 2]); Taken] ∧ lp_sent s' = [convert lp_spec (lp_tx [1])].
Proof.
  destruct (generic_endpoint_send (UdpSocket0 := loopback_socket) lp_ok (λ _, True) lp_sent id (lp_send_contract id)
    (mkGenericUdpEndpoint lp_spec lp_info) (mkLoopback 2 1 [])
    [Ready (lp_tx [1]); Ready (lp_tx [1; 2]); Taken])
    as (xs & rest & n & e & s' & b' & r & _ & _ & _ & _ & Hrun & _).
  { split; cbn; lia. }
  { by apply Forall_true. }
  exists s', b', (endpoint_result n e r). split; [exact Hrun|].
  vm_compute in Hrun. injection Hrun as <- <- Hr. split; reflexivity.
Defined.

(** Sending to completion terminates on every socket whose back-pressure
    ends after finitely many completion drains, and delivers a prefix of the
    batch: the packets the socket accepted are appended to its log in batch
    order, once each, their slots are taken and the others are untouched; a
    success means that every slot was taken. *)
Theorem send_all_complete {S T L} (Inv : S → Prop) (good : T → Prop) (log : S → list L) (emb : T → L)
    (send : S → list (TxSlot T) → outcome (send_result S T))
    (drain : S → outcome (S * result Z Error)) (rank : S → nat) (s : S) (b : list (TxSlot T)) :
  SendContract Inv good log emb send → DrainContract Inv log drain →
  SendProgress Inv good send drain rank → Inv s → Forall good (items b) →
  ∃ fuel0 s' b' r,
    (∀ fuel, (fuel0 ≤ fuel)%nat → send_all send drain fuel s b = Ret (s', b', r)) ∧
    Inv s' ∧ slots_after (accepted_of r) b b' ∧
    log s' = log s ++ (emb <$> items (take (Z.to_nat (accepted_of r)) b)) ∧
    (∀ n, r = Ok n → n = len b ∧ b' = replicate (length b) Taken ∧ log s' = log s ++ (emb <$> items b)).
Proof.
  intros HS HD HP Hs Hg.
  destruct (send_all_loop_spec Inv good log emb send drain rank 0 b s ltac:(done) Hs Hg)
    as (fuel0 & s' & b' & r & Hrun & Hs' & Hsl & Hlog & Htot).
  rewrite Z.sub_0_r in *. exists fuel0, s', b', r. split_and!; try done.
  intros n Hr. specialize (Htot n Hr). rewrite Z.add_0_l in Htot. subst r. cbn in *. subst n.
  assert (HL : Z.to_nat (len b) = length b) by (unfold len; lia).
  rewrite HL, firstn_all in Hlog. destruct Hsl as (_ & _ & ->). rewrite HL, drop_all, app_nil_r. done.
Qed.

Lemma send_all_complete_witness :
  ∃ fuel0 s' b' r,
    (∀ fuel, (fuel0 ≤ fuel)%nat →
       send_all (send_generic_udp_endpoint (mkGenericUdpEndpoint lp_spec lp_info)) lp_drain fuel
         lp_state [Ready (lp_tx [1]); Ready (lp_tx [1; 2])] = Ret (s', b', r)) ∧
    slots_after (accepted_of r) [Ready (lp_tx [1]); Ready (lp_tx [1; 2])] b'.
Proof.
  destruct (send_all_complete lp_ok (λ _, True) lp_sent (id ∘ convert lp_spec)
    (send_generic_udp_endpoint (mkGenericUdpEndpoint lp_spec lp_info)) lp_drain lp_in_flight lp_state
    [Ready (lp_tx [1]); Ready (lp_tx [1; 2])]) as (fuel0 & s' & b' & r & Hrun & _ & Hsl & _).
  - exact (generic_endpoint_contract (UdpSocket0 := loopback_socket) lp_ok (λ _, True) lp_sent id (mkGenericUdpEndpoint lp_spec lp_info)).
  - exact lp_drain_contract.
  - exact (generic_endpoint_progress (UdpSocket0 := loopback_socket) lp_ok (λ _, True) lp_sent id lp_drain lp_in_flight _).
  - split; cbn; lia.
  - by apply Forall_true.
  - exists fuel0, s', b', r. split; [exact Hrun|exact Hsl].
Defined.

(** What an endpoint request must satisfy, apart from the payload length. *)
Definition spec_fits (mtu : Z) (caps : UdpCapabilities) (spec : UdpEndpointSpec) : Prop :=
  (∀ src, sp_source_ip spec = Some src → same_ip_family src (sa_ip (sp_destination spec)) = true) ∧
  match sp_gso_segment_size spec with
  | Some seg =>
      uc_gso caps = true ∧ seg ≤ mtu ∧
      ∀ p m, sp_payload_len spec = Some p → uc_max_gso_segments caps = Some m → p ≤ m * seg
  | None => ∀ p, sp_payload_len spec = Some p → p ≤ mtu
  end.

Lemma div_ceil_le p seg m : 0 < seg → (div_ceil p seg ≤ m ↔ p ≤ m * seg).
Proof.
  intros Hseg. unfold div_ceil.
  pose proof (Z.div_mod (p + seg - 1) seg ltac:(lia)).
  pose proof (Z.mod_pos_bound (p + seg - 1) seg Hseg). split; nia.
Qed.

(** An endpoint is prepared exactly for the requests that match in address
    family, whose segment size the device supports and that fit the MTU or the
    segment limit, and it records them unchanged. A prepared endpoint with a
    fixed length then accepts exactly the packets of that length; one without
    accepts every length up to the MTU, or any length when it segments. *)
Theorem endpoint_validation_exact (mtu : Z) (caps : UdpCapabilities) (spec : UdpEndpointSpec) :
  (∀ seg, sp_gso_segment_size spec = Some seg → 1 ≤ seg) →
  (∀ info, validate_udp_endpoint_spec mtu caps spec = Ok info ↔
     spec_fits mtu caps spec ∧ info = mkInfo mtu (sp_payload_len spec) (sp_gso_segment_size spec)) ∧
  (∀ info n, validate_udp_endpoint_spec mtu caps spec = Ok info →
     (validate_udp_endpoint_packet info n = Ok tt ↔
      match sp_payload_len spec with
      | Some p => n = p
      | None => sp_gso_segment_size spec = None → n ≤ mtu
      end)).
Proof.
  intros Hseg. assert (Hspec : ∀ info, validate_udp_endpoint_spec mtu caps spec = Ok info ↔
    spec_fits mtu caps spec ∧ info = mkInfo mtu (sp_payload_len spec) (sp_gso_segment_size spec)).
  { intros info. unfold validate_udp_endpoint_spec, spec_fits.
    destruct (match sp_source_ip spec with Some source => _ | None => _ end) eqn:Hfam.
    { split; [done|]. intros [[Hf _] _]. destruct (sp_source_ip spec) as [src|]; [|done].
      by rewrite (Hf src eq_refl) in Hfam. }
    assert (Hf : ∀ src, sp_source_ip spec = Some src →
      same_ip_family src (sa_ip (sp_destination spec)) = true).
    { intros src Hsrc. rewrite Hsrc in Hfam. by apply negb_false_iff in Hfam. }
    destruct (sp_gso_segment_size spec) as [seg|] eqn:Hg.
    - specialize (Hseg seg eq_refl). destruct (uc_gso caps); cbn [negb].
      2:{ split; [done|]. by intros [(_ & ? & _) _]. }
      destruct (Z.ltb_spec mtu seg); [split; [done|]; intros [(_ & _ & ? & _) _]; lia|].
      destruct (sp_payload_len spec) as [p|], (uc_max_gso_segments caps) as [m|].
      2-4: split; [by intros [= <-]|by intros [_ ->]].
      destruct (Z.ltb_spec m (div_ceil p seg)) as [Hm|Hm].
      + split; [done|]. intros [(_ & _ & _ & Hp) _]. specialize (Hp p m eq_refl eq_refl).
        apply div_ceil_le in Hp; lia.
      + split; [|by intros [_ ->]]. intros [= <-]. split_and!; try done.
        intros ? ? [= <-] [= <-]. apply div_ceil_le; lia.
    - destruct (sp_payload_len spec) as [p|].
      + destruct (Z.ltb_spec mtu p).
        * split; [done|]. intros [[_ Hp] _]. specialize (Hp p eq_refl). lia.
        * split; [|by intros [_ ->]]. intros [= <-]. split_and!; try done. by intros ? [= <-].
      + split; [by intros [= <-]|by intros [_ ->]]. }
  split; [done|]. intros info n [[_ Hfit] ->]%Hspec.
  unfold validate_udp_endpoint_packet. cbn.
  destruct (sp_payload_len spec) as [p|], (sp_gso_segment_size spec) as [seg|]; cbn.
  - case_bool; cbn; naive_solver.
  - specialize (Hfit p eq_refl). case_bool; cbn; split; try done; lia.
  - naive_solver.
  - case_bool; split; try done. intros Hc. specialize (Hc eq_refl). lia.
Qed.

Lemma endpoint_validation_exact_witness :
  let spec := mkSpec (SocketAddrV4 1 9) None None None (Some 100) (Some 1000) in
  let caps := mkUdpCapabilities true false (Some 10) in
  validate_udp_endpoint_spec 1400 caps spec = Ok (mkInfo 1400 (Some 1000) (Some 100)) ∧
  validate_udp_endpoint_packet (mkInfo 1400 (Some 1000) (Some 100)) 1000 = Ok tt.
Proof.
  intros spec caps.
  destruct (endpoint_validation_exact 1400 caps spec) as [H1 H2].
  { intros seg [= <-]. lia. }
  assert (Hok : validate_udp_endpoint_spec 1400 caps spec = Ok (mkInfo 1400 (Some 1000) (Some 100))).
  { apply H1. split; [|reflexivity]. split; [done|]. split_and!; [reflexivity|lia|].
    intros p m [= <-] [= <-]. lia. }
  split; [exact Hok|]. apply (H2 _ 1000 Hok). reflexivity.
Defined.

(** What the batch builder needs of the socket's allocator: buffers that are
    empty and valid, at most as many as asked for. *)
Definition alloc_ok {S M F E L} `{!PacketBuffer M} `{!UdpSocket S M F E} (Inv : S * E → Prop)
    (log : S * E → list L) (BInv : M → Prop) : Prop :=
  ∀ s e max, Inv (s, e) → 0 < max →
    ∃ s' bufs r, allocate_tx_batch s [] max = Ret (s', bufs, r) ∧ Inv (s', e) ∧
      log (s', e) = log (s, e) ∧ len bufs ≤ max ∧ Forall (λ b, BInv b ∧ bytes_of b = []) bufs.

(** The generic batch builder returns for every callback that returns. It
    sends at most [max] packets; the packets it builds carry, in order, exactly
    the bytes the callback wrote for the indices 0, 1, 2, ..., each of them a
    length the endpoint accepts; the socket's log grows by the accepted prefix
    of these packets and nothing else; and an error of the callback or of a
    buffer is reported only when everything built before it was accepted. *)
Theorem endpoint_batch_builder {S M F E L Cb} `{!PacketBuffer F} `{!UdpSocket S M F E}
    `{!PacketBuffer M} `{!PacketBufferMut M F} (BInv : M → Prop) `{!PacketBufferLaws M F BInv}
    (Inv : S * E → Prop) (good : UdpEndpointTransmit F → Prop) (log : S * E → list L) (emb : UdpEndpointTransmit F → L)
    (fill_payload : Cb → Z → list Z → outcome (Cb * list Z * Z))
    (s : S) (e : E) (max : Z) (cb : Cb) :
  SendContract Inv good log emb send_to_udp_endpoint → (∀ b, BInv b → good (mkEndpointTransmit (pb_freeze b))) → alloc_ok Inv log BInv →
  fill_ok fill_payload → Inv (s, e) → 0 ≤ max →
  (0 ≤ default (ei_mtu (udp_endpoint_info s e)) (ei_payload_len (udp_endpoint_info s e))) →
  ∃ s' e' cb' r xs de r2,
    send_generic_udp_endpoint_batch fill_payload s e max cb = Ret (s', e', cb', r) ∧
    Inv (s', e') ∧ 0 ≤ accepted_of r ≤ len xs ∧ len xs ≤ max ∧
    (let info := udp_endpoint_info s e in
     let cap := default (ei_mtu info) (ei_payload_len info) in
     fills fill_payload info cap cb 0 (replicate (Z.to_nat cap) 0) (payload_of <$> xs)) ∧
    log (s', e') = log (s, e) ++ (emb <$> take (Z.to_nat (accepted_of r)) xs) ∧
    r = endpoint_result (len xs) de r2 ∧
    (xs ≠ [] → ∃ s1 b1, send_to_udp_endpoint (s1, e) (Ready <$> xs) = Ret (s', e', b1, r2)).
Proof.
  intros HS HG HA Hfill Hs Hmax Hcap. unfold send_generic_udp_endpoint_batch.
  set (info := udp_endpoint_info s e) in *.
  set (cap := default (ei_mtu info) (ei_payload_len info)) in *.
  assert (Hnone : ∀ s1 (cb1 : Cb) (de : option Error), Inv (s1, e) → log (s1, e) = log (s, e) →
    ∃ s' e' cb' r xs de' r2,
      Ret (s1, e, cb1, match de with Some kind => Err (mkSendError 0 kind) | None => Ok 0 end)
      = Ret (s', e', cb', r) ∧ Inv (s', e') ∧ 0 ≤ accepted_of r ≤ len xs ∧ len xs ≤ max ∧
      fills fill_payload info cap cb 0 (replicate (Z.to_nat cap) 0) (payload_of <$> xs) ∧
      log (s', e') = log (s, e) ++ (emb <$> take (Z.to_nat (accepted_of r)) xs) ∧
      r = endpoint_result (len xs) de' r2 ∧
      (xs ≠ [] → ∃ s2 b1, send_to_udp_endpoint (s2, e) (Ready <$> xs) = Ret (s', e', b1, r2))).
  { intros s1 cb1 de Hs1 Hlog1. eexists s1, e, cb1, _, [], de, (Ok 0). split; [reflexivity|].
    split_and!; try done; try (by destruct de); [constructor|]. by destruct de; rewrite app_nil_r. }
  destruct (Z.eqb_spec max 0) as [->|Hnz]; [by apply (Hnone s cb None)|].
  destruct (HA s e max Hs ltac:(lia)) as (s1 & bufs & ra & Halloc & Hs1 & Hlog1 & Hlen & HF).
  rewrite Halloc. run. destruct ra as [na|kind]; [|by apply (Hnone s1 cb (Some kind))].
  destruct (Z.eqb_spec (len bufs) 0); [by apply (Hnone s1 cb None)|].
  destruct (build_batch_spec BInv fill_payload info cap bufs 0 cb (replicate (Z.to_nat cap) 0))
    as (cb' & xs & de & Hb & Hxs & Hall & Hfs & Hfr); [done| |done|].
  { unfold len. rewrite length_replicate. lia. }
  rewrite Hb. run.
  assert (HL : len (Ready <$> xs) = len xs) by (unfold len; by rewrite length_fmap).
  rewrite HL. pose proof (len_nonneg xs). destruct (Z.eqb_spec (len xs) 0); [by apply Hnone|].
  destruct (send_contract (s1, e) (Ready <$> xs) Hs1
    ltac:(rewrite items_ready; eapply Forall_impl; [exact Hfr|]; intros ? (? & ? & ->); by apply HG))
    as ([s2 e2] & b2 & r2 & Hsend & Hs2 & Hsl & Hlog2).
  rewrite Hsend. run. destruct Hsl as ([Hk0 Hk] & _ & Hb2). rewrite HL in Hk.
  assert (Hlb : len b2 = len xs).
  { rewrite Hb2, len_app, len_drop, HL by lia. unfold len at 1. rewrite length_replicate. lia. }
  rewrite Hlog1, <- fmap_take, items_ready in Hlog2.
  assert (Hacc : accepted_of (endpoint_result (len xs) de r2) = accepted_of r2).
  { destruct r2 as [k|]; cbn in *; [|done]. destruct (Z.ltb_spec k (len xs)); [done|]. destruct de; cbn; lia. }
  exists s2, e2, cb', (endpoint_result (len xs) de r2), xs, de, r2. rewrite !Hacc.
  split_and!; try done; try lia.
  - rewrite Hlb. destruct r2 as [k|err]; cbn in *; [|done]. destruct (Z.ltb_spec k (len xs)); [done|].
    replace k with (len xs) by lia. done.
  - intros _. by exists s1, b2.
Qed.

(** A callback that writes its index and then counts up. *)
Definition lp_fill (cb : Z) (i : Z) (p : list Z) : outcome (Z * list Z * Z) :=
  Ret (cb + 1, <[0%nat := i]> p, Z.max 0 cb).

Lemma lp_fill_ok : fill_ok lp_fill.
Proof. intros cb i p. eexists _, _, _. split; [reflexivity|]. rewrite len_insert. lia. Qed.

Lemma endpoint_batch_builder_witness :
  ∃ s' e' cb' r, send_generic_udp_endpoint_batch (S := Loopback) (M := SpecBuffer) (E := unit)
      lp_fill (mkLoopback 2 0 []) tt 3 1 = Ret (s', e', cb', r) ∧
    lp_sent s' = [convert lp_spec (lp_tx [0])].
Proof.
  destruct (endpoint_batch_builder sb_ok (λ se : Loopback * unit, lp_ok se.1) (λ _, True) (λ se, lp_sent se.1)
    (convert lp_spec) lp_fill (mkLoopback 2 0 []) tt 3 1) as (s' & e' & cb' & r & xs & de & r2 & Hrun & _).
  - intros [s e] b Hs Hg. destruct (lp_send_contract (convert lp_spec) s b Hs Hg)
      as (s' & b' & r & Hsend & Hs' & Hsl & Hlog).
    exists (s', e), b', r. cbn. rewrite Hsend. cbn. done.
  - done.
  - intros s e max Hs Hm. eexists s, _, _. split; [reflexivity|]. split_and!; try done.
    + unfold len. cbn. rewrite length_replicate. lia.
    + apply Forall_replicate. split; [split; cbn; lia|reflexivity].
  - exact lp_fill_ok.
  - split; cbn; lia.
  - lia.
  - cbn. lia.
  - exists s', e', cb', r. split; [exact Hrun|]. vm_compute in Hrun. injection Hrun as <- <- <- _.
    reflexivity.
Defined.
