(* ===== verification/Umem.v ===== *)
(** * UMEM: [crates/fast-socket-xdp-rs/src/umem.rs]

    Allocation of the packet memory shared with the kernel and the addressing
    of its frames. The mapping is a list of bytes; [mmap], [mbind] and
    [move_pages] are arguments. *)
From S2P Require Import Prelude Bits Core.
Open Scope Z_scope.

(** The error values of the allocation paths, which the source carries as
    messages of [io::Error]. *)
Inductive UmemError :=
  | AllocError
  | UmemInvalidInput
  | UmemOsError (code : Z)
  | WrongNode (page actual : Z)
  | BothFailed (huge_page_error fallback_error : UmemError).

(** The system calls, as functions of the arguments the source computes.
    [sys_mmap len huge] says whether an anonymous mapping of that length was
    made; [sys_mbind mask maxnode] answers [Ok] or the OS error;
    [sys_move_pages n] gives the node of each of the [n] pages. *)
Record Sys := mkSys {
  sys_page_size : Z;
  sys_mmap : Z → bool → bool;
  sys_mbind : list Z → Z → result unit Z;
  sys_move_pages : Z → result (list Z) Z;
}.

Section Alloc.
Context (sys : Sys).

Definition mmap_anonymous (frame_size frame_count page_size : Z) (huge : bool) :
    result Z UmemError :=
  memory_size <-? ok_or (checked_mul 64 frame_size frame_count) AllocError;
  padded <-? ok_or (checked_add 64 memory_size (page_size - 1)) AllocError;
  let aligned_size := Z.land padded (bnot 64 (page_size - 1)) in
  if sys_mmap sys aligned_size huge then Ok aligned_size else Err AllocError.

(** [PageAlignedMemory::alloc_with_page_size]: the mapping, zeroed. *)
Definition alloc_with_page_size (frame_size frame_count page_size : Z) (huge : bool) :
    result (list Z) UmemError :=
  if negb (is_power_of_two frame_size) || negb (is_power_of_two frame_count)
     || negb (is_power_of_two page_size) then Err AllocError
  else
    aligned_size <-? mmap_anonymous frame_size frame_count page_size huge;
    Ok (replicate (Z.to_nat aligned_size) 0).

(** The nodemask of [bind_mapping_to_numa_node]: one bit of the last word. *)
Definition numa_mask (node : Z) : list Z :=
  let word_bits := 64 in
  let word_index := node / word_bits in
  let bit := node mod word_bits in
  <[Z.to_nat word_index := u64 (Z.shiftl 1 bit)]> (replicate (Z.to_nat (word_index + 1)) 0).

Definition bind_mapping_to_numa_node (node : Z) : result unit UmemError :=
  let maxnode := node + 2 in
  match sys_mbind sys (numa_mask node) maxnode with
  | Ok _ => Ok tt
  | Err code => Err (UmemOsError code)
  end.

(** [status.iter().copied().enumerate().find(|(_, actual)| *actual != expected)] *)
Fixpoint find_wrong_node (status : list Z) (index expected : Z) : option (Z * Z) :=
  match status with
  | [] => None
  | actual :: status =>
      if negb (actual =? expected) then Some (index, actual)
      else find_wrong_node status (index + 1) expected
  end.

Definition verify_mapping_on_numa_node (mapping_len page_size node : Z) : result unit UmemError :=
  let page_count := mapping_len / page_size in
  match sys_move_pages sys page_count with
  | Err code => Err (UmemOsError code)
  | Ok status =>
      match find_wrong_node status 0 node with
      | Some (index, actual) => Err (WrongNode index actual)
      | None => Ok tt
      end
  end.

Definition alloc_with_page_size_on_numa_node (frame_size frame_count page_size : Z) (huge : bool)
    (numa_node : Z) : result (list Z) UmemError :=
  if negb (is_power_of_two frame_size) || negb (is_power_of_two frame_count)
     || negb (is_power_of_two page_size) then Err AllocError
  else
    aligned_size <-? mmap_anonymous frame_size frame_count page_size huge;
    _ <-? bind_mapping_to_numa_node numa_node;
    _ <-? verify_mapping_on_numa_node aligned_size page_size numa_node;
    Ok (replicate (Z.to_nat aligned_size) 0).

Definition umem_alloc (frame_size frame_count : Z) : result (list Z) UmemError :=
  if sys_page_size sys <=? 0 then Err AllocError
  else alloc_with_page_size frame_size frame_count (sys_page_size sys) false.

Definition alloc_on_numa_node (frame_size frame_count numa_node : Z) : result (list Z) UmemError :=
  if sys_page_size sys <=? 0 then Err AllocError
  else alloc_with_page_size_on_numa_node frame_size frame_count (sys_page_size sys) false numa_node.

(** ** [Umem] *)
Record Umem := mkUmem {
  um_backing : list Z;
  um_frame_size : Z;
  um_frame_count : Z;
}.

Definition huge_page (h : HugePageSize) : option Z :=
  match h with
  | Size4K => None
  | Size1G => Some (1024 * 1024 * 1024)
  | _ => Some (2 * 1024 * 1024)
  end.

Definition umem_new (frame_size frame_count : Z) (huge_page_size : HugePageSize) :
    result Umem UmemError :=
  if negb (is_power_of_two frame_size) || negb (is_power_of_two frame_count) then
    Err UmemInvalidInput
  else
    let huge :=
      page ← huge_page huge_page_size;
      match alloc_with_page_size frame_size frame_count page true with
      | Ok backing => Some backing
      | Err _ => None
      end in
    let backing :=
      match huge with
      | Some backing => Some backing
      | None =>
          match umem_alloc frame_size frame_count with
          | Ok backing => Some backing
          | Err _ => None
          end
      end in
    match backing with
    | Some backing => Ok (mkUmem backing frame_size frame_count)
    | None => Err AllocError
    end.

Definition umem_new_on_numa_node (frame_size frame_count : Z) (huge_page_size : HugePageSize)
    (numa_node : Z) : result Umem UmemError :=
  if negb (is_power_of_two frame_size) || negb (is_power_of_two frame_count) then
    Err UmemInvalidInput
  else
    let '(backing, huge_page_error) :=
      match huge_page huge_page_size with
      | Some page =>
          match alloc_with_page_size_on_numa_node frame_size frame_count page true numa_node with
          | Ok backing => (Some backing, None)
          | Err error => (None, Some error)
          end
      | None => (None, None)
      end in
    match backing with
    | Some backing => Ok (mkUmem backing frame_size frame_count)
    | None =>
        match alloc_on_numa_node frame_size frame_count numa_node with
        | Ok backing => Ok (mkUmem backing frame_size frame_count)
        | Err error =>
            match huge_page_error with
            | Some huge_page_error => Err (BothFailed huge_page_error error)
            | None => Err error
            end
        end
    end.

End Alloc.

(** ** Addressing *)
Definition umem_len (u : Umem) : Z := len (um_backing u).

Definition frame_offset (u : Umem) (index : Z) : Z := index * um_frame_size u.

Definition frame_addr_for_desc (u : Umem) (addr : Z) : option Z :=
  let frame_size := um_frame_size u in
  let frame_addr := addr - addr mod frame_size in
  let frame_index := frame_addr / frame_size in
  if frame_index <? um_frame_count u then Some frame_addr else None.

Definition validated_range (u : Umem) (addr n : Z) : option (Z * Z) :=
  frame_addr ← frame_addr_for_desc u addr;
  let start := addr in
  stop ← checked_add 64 start n;
  let frame_start := frame_addr in
  frame_end ← checked_add 64 frame_start (um_frame_size u);
  if (start <? frame_start) || (frame_end <? stop) then None else Some (start, stop).

Definition descriptor_slice (u : Umem) (addr n : Z) : option (Z * list Z) :=
  frame_addr ← frame_addr_for_desc u addr;
  range ← validated_range u addr n;
  s ← slice (um_backing u) range.1 range.2;
  Some (frame_addr, s).

Definition contains_frame_addr (u : Umem) (frame_addr : Z) : bool :=
  match frame_addr_for_desc u frame_addr with
  | Some a => a =? frame_addr
  | None => false
  end.

(** [slice_at] and the write through [slice_at_mut]. *)
Definition slice_at (u : Umem) (addr n : Z) : outcome (list Z) :=
  match validated_range u addr n with
  | None => Panic
  | Some (start, stop) =>
      match slice (um_backing u) start stop with
      | Some s => Ret s
      | None => Panic
      end
  end.

Definition write_slice_at (u : Umem) (addr : Z) (bytes : list Z) : outcome Umem :=
  match validated_range u addr (len bytes) with
  | None => Panic
  | Some (start, stop) =>
      if stop <=? len (um_backing u) then
        Ret (mkUmem (write_at (um_backing u) start bytes) (um_frame_size u) (um_frame_count u))
      else Panic
  end.

(** [frame(index)]. *)
Definition umem_frame (u : Umem) (index : Z) : outcome (list Z) :=
  start ← mul_usize index (um_frame_size u);
  stop ← add_usize start (um_frame_size u);
  match slice (um_backing u) start stop with
  | Some s => Ret s
  | None => Panic
  end.

(** ** Properties of allocation and frame addressing *)
Definition um_ok (u : Umem) : Prop :=
  is_power_of_two (um_frame_size u) = true ∧ is_power_of_two (um_frame_count u) = true ∧
  um_frame_size u * um_frame_count u ≤ umem_len u ≤ USIZE_MAX.

Lemma land_page_mask x k :
  0 ≤ k ≤ 64 → 0 ≤ x < 2 ^ 64 → Z.land x (bnot 64 (2 ^ k - 1)) = x - x mod 2 ^ k.
Proof.
  intros Hk Hx. assert (Hm : bnot 64 (2 ^ k - 1) = Z.shiftl (Z.ones (64 - k)) k).
  { unfold bnot. rewrite Z.shiftl_mul_pow2, Z.ones_equiv by lia.
    replace (2 ^ 64) with (2 ^ (64 - k) * 2 ^ k) by (rewrite <- Z.pow_add_r by lia; f_equal; lia). lia. }
  rewrite Hm. transitivity (Z.shiftl (Z.shiftr x k) k).
  - apply Z.bits_inj'. intros i Hi. rewrite Z.land_spec, !Z.shiftl_spec by lia.
    destruct (decide (i < k)).
    { rewrite !(Z.testbit_neg_r _ (i - k)) by lia. by rewrite andb_false_r. }
    rewrite Z.shiftr_spec by lia. replace (i - k + k) with i by lia.
    destruct (decide (i < 64)).
    + rewrite Z.ones_spec_low by lia. by rewrite andb_true_r.
    + assert (Z.testbit x i = false) as ->.
      { destruct (decide (x = 0)) as [->|]; [by rewrite Z.bits_0|].
        apply Z.bits_above_log2; [lia|]. apply Z.log2_lt_pow2; [lia|].
        assert (2 ^ 64 ≤ 2 ^ i) by (apply Z.pow_le_mono_r; lia). lia. }
      done.
  - rewrite Z.shiftl_mul_pow2, Z.shiftr_div_pow2 by lia. pose proof (Z.div_mod x (2 ^ k) ltac:(lia)). lia.
Qed.

Lemma mmap_anonymous_inv sys fs fc page huge n :
  0 ≤ fs → 0 ≤ fc → is_power_of_two page = true →
  mmap_anonymous sys fs fc page huge = Ok n →
  fs * fc ≤ n ≤ USIZE_MAX ∧ n mod page = 0 ∧ sys_mmap sys n huge = true.
Proof.
  intros Hfs Hfc Hp. apply is_power_of_two_spec in Hp as (k & Hk & ->).
  assert (0 < 2 ^ k) by (apply Z.pow_pos_nonneg; lia).
  unfold mmap_anonymous, checked_mul, checked_add.
  destruct (Z.ltb_spec (fs * fc) (2 ^ 64)); [|done]. cbn [ok_or result_bind].
  destruct (Z.ltb_spec (fs * fc + (2 ^ k - 1)) (2 ^ 64)) as [Hlt|]; [|done]. cbn [ok_or result_bind].
  assert (k ≤ 64).
  { apply Z.nlt_ge. intros Hgt. assert (2 ^ 65 ≤ 2 ^ k) by (apply Z.pow_le_mono_r; lia).
    assert (0 ≤ fs * fc) by nia. change (2 ^ 65) with (2 * 2 ^ 64) in *. lia. }
  assert (0 ≤ fs * fc) by nia. rewrite land_page_mask by lia. set (x := fs * fc + (2 ^ k - 1)) in *.
  pose proof (Z.mod_pos_bound x (2 ^ k) ltac:(done)).
  destruct (sys_mmap sys _ huge) eqn:Hm; [|done]. intros [= <-].
  assert (USIZE_MAX = 2 ^ 64 - 1) by reflexivity. split_and!; [unfold x in *; lia|lia| |done].
  pose proof (Z.div_mod x (2 ^ k) ltac:(lia)).
  replace (x - x mod 2 ^ k) with (x / 2 ^ k * 2 ^ k) by lia. by apply Z_mod_mult.
Qed.

Lemma alloc_inv sys fs fc page huge backing :
  alloc_with_page_size sys fs fc page huge = Ok backing →
  fs * fc ≤ len backing ≤ USIZE_MAX ∧ Forall (eq 0) backing.
Proof.
  unfold alloc_with_page_size.
  destruct (is_power_of_two fs) eqn:Hfs; [|done]. destruct (is_power_of_two fc) eqn:Hfc; [|done].
  destruct (is_power_of_two page) eqn:Hp; [|done]. cbn [negb orb].
  destruct (mmap_anonymous sys fs fc page huge) as [n|] eqn:Hm; [|done]. cbn. intros [= <-].
  apply is_power_of_two_spec in Hfs as (a & ? & ->), Hfc as (b & ? & ->).
  apply mmap_anonymous_inv in Hm as (Hn & _); try done; try (apply Z.pow_nonneg; lia).
  split; [|by apply Forall_replicate].
  unfold len. rewrite length_replicate, Z2Nat.id; [done|].
  assert (0 ≤ 2 ^ a * 2 ^ b) by (apply Z.mul_nonneg_nonneg; apply Z.pow_nonneg; lia). lia.
Qed.

Lemma alloc_numa_inv sys fs fc page huge node backing :
  alloc_with_page_size_on_numa_node sys fs fc page huge node = Ok backing →
  alloc_with_page_size sys fs fc page huge = Ok backing ∧
  sys_mbind sys (numa_mask node) (node + 2) = Ok tt ∧
  ∃ status, sys_move_pages sys (len backing / page) = Ok status ∧ Forall (eq node) status.
Proof.
  unfold alloc_with_page_size_on_numa_node. intros H.
  assert (Ha : alloc_with_page_size sys fs fc page huge = Ok backing).
  { unfold alloc_with_page_size. destruct (_ || _); [done|]. destruct (mmap_anonymous _ _ _ _ _); [|done].
    cbn in *. destruct (bind_mapping_to_numa_node _ _); [|done]. cbn in H.
    by destruct (verify_mapping_on_numa_node _ _ _ _). }
  split; [done|]. destruct (_ || _) eqn:Hpow; [done|].
  destruct (mmap_anonymous _ _ _ _ _) as [n|] eqn:Hm; [|done]. cbn in H.
  unfold bind_mapping_to_numa_node in H.
  destruct (sys_mbind sys _ _) as [[]|]; [|done]. cbn in H. split; [done|].
  unfold verify_mapping_on_numa_node in H. destruct (sys_move_pages _ _) as [status|] eqn:Hmp; [|done].
  destruct (find_wrong_node status 0 node) as [[]|] eqn:Hw; [done|]. injection H as <-.
  apply alloc_inv in Ha as [Ha _]. exists status. split.
  - rewrite <- Hmp. f_equal. f_equal. unfold len. rewrite length_replicate, Z2Nat.id; [done|].
    apply orb_false_iff in Hpow as [Hpow Hpg]. apply orb_false_iff in Hpow as [Hfs Hfc].
    apply negb_false_iff, is_power_of_two_spec in Hfs as (a & ? & ->), Hfc as (b & ? & ->).
    apply negb_false_iff in Hpg. apply mmap_anonymous_inv in Hm as (Hm & _); try done;
      try (apply Z.pow_nonneg; lia).
    assert (0 ≤ 2 ^ a * 2 ^ b) by (apply Z.mul_nonneg_nonneg; apply Z.pow_nonneg; lia). lia.
  - clear -Hw. revert Hw. generalize 0. induction status as [|a status IH]; intros i; cbn; [constructor|].
    destruct (Z.eqb_spec a node); cbn; [|done]. intros Hw. constructor; [done|]. by eapply IH.
Qed.

Lemma umem_new_numa_inv sys fs fc h node u :
  umem_new_on_numa_node sys fs fc h node = Ok u →
  um_ok u ∧ um_frame_size u = fs ∧ um_frame_count u = fc ∧ Forall (eq 0) (um_backing u) ∧
  sys_mbind sys (numa_mask node) (node + 2) = Ok tt ∧
  ∃ page status, sys_move_pages sys (umem_len u / page) = Ok status ∧ Forall (eq node) status.
Proof.
  unfold umem_new_on_numa_node. destruct (is_power_of_two fs) eqn:Hfs; [|done].
  destruct (is_power_of_two fc) eqn:Hfc; [|done]. cbn [negb orb].
  assert (Hgoal : ∀ page huge backing,
    alloc_with_page_size_on_numa_node sys fs fc page huge node = Ok backing →
    let u := mkUmem backing fs fc in
    um_ok u ∧ fs = fs ∧ fc = fc ∧ Forall (eq 0) backing ∧
    sys_mbind sys (numa_mask node) (node + 2) = Ok tt ∧
    ∃ page status, sys_move_pages sys (umem_len u / page) = Ok status ∧ Forall (eq node) status).
  { intros page huge backing (Ha & Hb & status & Hs)%alloc_numa_inv. apply alloc_inv in Ha as [[Ha1 Ha2] Ha3].
    split_and!; try done. by exists page, status. }
  destruct (huge_page h) as [page|]; cbn.
  - destruct (alloc_with_page_size_on_numa_node _ _ _ page true node) eqn:Ha.
    { intros [= <-]. by eapply Hgoal. }
    unfold alloc_on_numa_node. destruct (sys_page_size sys <=? 0); [done|].
    destruct (alloc_with_page_size_on_numa_node _ _ _ _ false node) eqn:Ha2; [|done].
    intros [= <-]. by eapply Hgoal.
  - unfold alloc_on_numa_node. destruct (sys_page_size sys <=? 0); [done|].
    destruct (alloc_with_page_size_on_numa_node _ _ _ _ false node) eqn:Ha2; [|done].
    intros [= <-]. by eapply Hgoal.
Qed.

(** A UMEM that allocation returns, with or without a NUMA node, keeps the
    requested geometry, has powers of two for frame size and count, maps at
    least all its frames and is zeroed; on a NUMA node every page was reported
    on that node. Sizes that are not powers of two are refused before any
    mapping is made. *)
Theorem umem_allocation (sys : Sys) (fs fc node : Z) (h : HugePageSize) :
  (∀ u, umem_new sys fs fc h = Ok u →
     um_ok u ∧ um_frame_size u = fs ∧ um_frame_count u = fc ∧ Forall (eq 0) (um_backing u)) ∧
  (∀ u, umem_new_on_numa_node sys fs fc h node = Ok u →
     um_ok u ∧ um_frame_size u = fs ∧ um_frame_count u = fc ∧ Forall (eq 0) (um_backing u) ∧
     sys_mbind sys (numa_mask node) (node + 2) = Ok tt ∧
     ∃ page status, sys_move_pages sys (umem_len u / page) = Ok status ∧ Forall (eq node) status) ∧
  (umem_new sys fs fc h = Err UmemInvalidInput ↔
     is_power_of_two fs = false ∨ is_power_of_two fc = false).
Proof.
  split_and!.
  - intros u. unfold umem_new. destruct (is_power_of_two fs) eqn:Hfs; [|done].
    destruct (is_power_of_two fc) eqn:Hfc; [|done]. cbn [negb orb].
    assert (Hgoal : ∀ backing, fs * fc ≤ len backing ≤ USIZE_MAX ∧ Forall (eq 0) backing →
      um_ok (mkUmem backing fs fc) ∧ fs = fs ∧ fc = fc ∧ Forall (eq 0) backing).
    { by intros backing [[? ?] ?]. }
    destruct (huge_page h ≫= _) as [backing|] eqn:Hh.
    + intros [= <-]. apply Hgoal. destruct (huge_page h) as [page|]; [|done]. cbn in Hh.
      destruct (alloc_with_page_size _ _ _ page true) eqn:Ha; [|done]. simplify_eq. by eapply alloc_inv.
    + unfold umem_alloc. destruct (sys_page_size sys <=? 0); [done|].
      destruct (alloc_with_page_size _ _ _ _ false) eqn:Ha; [|done]. intros [= <-].
      apply Hgoal. by eapply alloc_inv.
  - intros u. apply umem_new_numa_inv.
  - unfold umem_new. destruct (is_power_of_two fs), (is_power_of_two fc); cbn; try naive_solver.
    split; [|by intros [|]]. repeat case_match; done.
Qed.

Lemma um_frame_pos u : um_ok u → 0 < um_frame_size u.
Proof.
  intros (Hfs & _). apply is_power_of_two_spec in Hfs as (a & ? & ->). apply Z.pow_pos_nonneg; lia.
Qed.

Lemma frame_addr_for_desc_eq u addr : um_ok u →
  frame_addr_for_desc u addr
  = if addr / um_frame_size u <? um_frame_count u then Some (addr / um_frame_size u * um_frame_size u)
    else None.
Proof.
  intros Hu. pose proof (um_frame_pos u Hu). unfold frame_addr_for_desc.
  pose proof (Z.div_mod addr (um_frame_size u) ltac:(lia)).
  replace (addr - addr mod um_frame_size u) with (addr / um_frame_size u * um_frame_size u) by lia.
  by rewrite Z.div_mul by lia.
Qed.

Lemma validated_range_eq u addr n : um_ok u → 0 ≤ addr → 0 ≤ n →
  validated_range u addr n
  = if (addr / um_frame_size u <? um_frame_count u)
       && (addr + n <=? (addr / um_frame_size u + 1) * um_frame_size u)
    then Some (addr, addr + n) else None.
Proof.
  intros Hu Haddr Hn. pose proof (um_frame_pos u Hu) as Hpos. destruct (Hu) as (_ & _ & Hlen).
  unfold umem_len in Hlen. set (fs := um_frame_size u) in *.
  pose proof (Z.div_mod addr fs ltac:(lia)) as Hdm. pose proof (Z.mod_pos_bound addr fs Hpos) as Hmod.
  assert (HU : USIZE_MAX = 2 ^ 64 - 1) by reflexivity.
  unfold validated_range. rewrite frame_addr_for_desc_eq by done. fold fs.
  destruct (Z.ltb_spec (addr / fs) (um_frame_count u)); [|done].
  assert ((addr / fs + 1) * fs ≤ len (um_backing u)) by nia.
  cbn [mbind option_bind andb]. unfold checked_add.
  destruct (Z.leb_spec (addr + n) ((addr / fs + 1) * fs)).
  - destruct (Z.ltb_spec (addr + n) (2 ^ 64)); [|lia]. cbn [mbind option_bind].
    destruct (Z.ltb_spec (addr / fs * fs + fs) (2 ^ 64)); [|lia]. cbn [mbind option_bind].
    destruct (Z.ltb_spec addr (addr / fs * fs)); [lia|].
    destruct (Z.ltb_spec (addr / fs * fs + fs) (addr + n)); [lia|done].
  - destruct (Z.ltb_spec (addr + n) (2 ^ 64)); [|done]. cbn [mbind option_bind].
    destruct (Z.ltb_spec (addr / fs * fs + fs) (2 ^ 64)); [|done]. cbn [mbind option_bind].
    destruct (Z.ltb_spec (addr / fs * fs + fs) (addr + n)); [|lia]. by rewrite orb_true_r.
Qed.

(** A descriptor inside frame [i]. *)
Lemma validated_range_in u i addr n : um_ok u → 0 ≤ i < um_frame_count u →
  i * um_frame_size u ≤ addr < (i + 1) * um_frame_size u → 0 ≤ n →
  addr + n ≤ (i + 1) * um_frame_size u →
  addr / um_frame_size u = i ∧ validated_range u addr n = Some (addr, addr + n) ∧
  addr + n ≤ len (um_backing u).
Proof.
  intros Hu Hi Ha Hn Hle. pose proof (um_frame_pos u Hu). destruct (Hu) as (_ & _ & Hlen).
  assert (Hq : addr / um_frame_size u = i) by (symmetry; apply (Z.div_unique addr _ i (addr - i * um_frame_size u)); lia).
  split; [done|]. split.
  - rewrite validated_range_eq by (done || nia). rewrite Hq.
    destruct (Z.ltb_spec i (um_frame_count u)); [|lia].
    destruct (Z.leb_spec (addr + n) ((i + 1) * um_frame_size u)); [done|lia].
  - unfold umem_len in Hlen. nia.
Qed.

(** A descriptor address and length are accepted exactly when they lie
    within one frame of the frame table, and then the range is the descriptor
    itself and the mapped bytes are there; every other descriptor is refused
    by the checked access and panics in the unchecked one. *)
Theorem umem_ranges_exact (u : Umem) (addr n : Z) :
  um_ok u → 0 ≤ addr → 0 ≤ n →
  let fs := um_frame_size u in
  (∀ r, validated_range u addr n = Some r ↔
     r = (addr, addr + n) ∧
     ∃ i, 0 ≤ i < um_frame_count u ∧ i * fs ≤ addr < (i + 1) * fs ∧ addr + n ≤ (i + 1) * fs) ∧
  (validated_range u addr n ≠ None →
     ∃ s, slice_at u addr n = Ret s ∧ len s = n ∧
       descriptor_slice u addr n = Some (addr - addr mod fs, s)) ∧
  (validated_range u addr n = None → slice_at u addr n = Panic ∧ descriptor_slice u addr n = None) ∧
  (contains_frame_addr u addr = true ↔ ∃ i, 0 ≤ i < um_frame_count u ∧ addr = frame_offset u i).
Proof.
  intros Hu Haddr Hn fs. pose proof (um_frame_pos u Hu) as Hpos. fold fs in Hpos.
  pose proof (frame_addr_for_desc_eq u addr Hu) as Hframe.
  pose proof (validated_range_eq u addr n Hu Haddr Hn) as Hrange. fold fs in Hframe, Hrange.
  destruct Hu as (_ & _ & Hlen). unfold umem_len in Hlen. fold fs in Hlen.
  pose proof (Z.div_mod addr fs ltac:(lia)) as Hdm. pose proof (Z.mod_pos_bound addr fs Hpos) as Hmod.
  assert (Hq : 0 ≤ addr / fs) by (apply Z.div_pos; lia).
  split_and!.
  - intros r. rewrite Hrange.
    destruct (Z.ltb_spec (addr / fs) (um_frame_count u)); cbn [andb].
    + destruct (Z.leb_spec (addr + n) ((addr / fs + 1) * fs)).
      * split; [|by intros [-> _]]. intros [= <-]. split; [done|]. exists (addr / fs). split_and!; nia.
      * split; [done|]. intros [_ (i & ? & ? & ?)]. assert (i = addr / fs) by nia. subst i. lia.
    + split; [done|]. intros [_ (i & ? & ? & ?)]. assert (i = addr / fs) by nia. lia.
  - unfold slice_at, descriptor_slice. rewrite Hframe, Hrange.
    destruct (Z.ltb_spec (addr / fs) (um_frame_count u)); cbn [andb]; [|done].
    destruct (Z.leb_spec (addr + n) ((addr / fs + 1) * fs)); [|done]. intros _. cbn [mbind option_bind fst snd].
    assert (Hs : slice (um_backing u) addr (addr + n)
      = Some (take (Z.to_nat (addr + n - addr)) (drop (Z.to_nat addr) (um_backing u)))).
    { unfold slice. assert (addr + n ≤ len (um_backing u)) by nia. case_bool; cbn; try done; lia. }
    rewrite Hs. eexists. split_and!; [reflexivity| |].
    + assert (addr + n ≤ len (um_backing u)) by nia. rewrite len_take, len_drop by lia. lia.
    + cbn. f_equal. f_equal. lia.
  - intros HN. unfold slice_at, descriptor_slice. rewrite HN. split; [done|].
    by destruct (frame_addr_for_desc u addr).
  - unfold contains_frame_addr, frame_offset. rewrite Hframe. fold fs.
    destruct (Z.ltb_spec (addr / fs) (um_frame_count u)).
    + rewrite Z.eqb_eq. split; [intros; exists (addr / fs); lia|].
      intros (i & ? & ->). rewrite Z.div_mul by lia. done.
    + split; [done|]. intros (i & ? & ->). rewrite Z.div_mul in * by lia. lia.
Qed.

(** A machine with 16-byte pages and no huge pages. *)
Definition tiny_sys : Sys := mkSys 16 (λ _ huge, negb huge) (λ _ _, Ok tt) (λ n, Ok (replicate (Z.to_nat n) 0)).
Definition tiny_umem : Umem := mkUmem (replicate 32 0) 8 4.

Lemma umem_allocation_witness :
  umem_new tiny_sys 8 4 HugeDefault = Ok tiny_umem ∧ um_ok tiny_umem.
Proof.
  assert (H : umem_new tiny_sys 8 4 HugeDefault = Ok tiny_umem) by (vm_compute; reflexivity).
  split; [exact H|]. exact (proj1 (proj1 (umem_allocation tiny_sys 8 4 0 HugeDefault) _ H)).
Defined.

Lemma umem_ranges_exact_witness :
  validated_range tiny_umem 18 6 = Some (18, 24) ∧ validated_range tiny_umem 18 7 = None ∧
  slice_at tiny_umem 18 7 = Panic.
Proof.
  assert (Hok : um_ok tiny_umem) by (split_and!; vm_compute; congruence).
  destruct (umem_ranges_exact tiny_umem 18 6 Hok ltac:(lia) ltac:(lia)) as [H1 _].
  destruct (umem_ranges_exact tiny_umem 18 7 Hok ltac:(lia) ltac:(lia)) as (_ & _ & H3 & _).
  assert (HN : validated_range tiny_umem 18 7 = None) by reflexivity.
  split; [|split; [exact HN|exact (proj1 (H3 HN))]].
  apply H1. split; [reflexivity|]. exists 2. cbn. lia.
Defined.
