(* ===== verification/Window.v ===== *)
(** * Windows of byte lists

    [window l s n] is the slice of [n] elements from [s] on; the buffer proofs
    compare windows of memory before and after writes. *)
From S2P Require Import Prelude.
Open Scope Z_scope.

Definition window {A} (l : list A) (s n : Z) : list A := take (Z.to_nat n) (drop (Z.to_nat s) l).

Lemma slice_window {A} (l : list A) s n :
  0 ≤ s → 0 ≤ n → s + n ≤ len l → slice l s (s + n) = Some (window l s n).
Proof.
  intros. unfold slice, window. replace (s + n - s) with n by lia. case_bool; cbn; try done; lia.
Qed.

Lemma slice_inv {A} (l : list A) s e x :
  slice l s e = Some x → 0 ≤ s ≤ e ∧ e ≤ len l ∧ x = window l s (e - s).
Proof. unfold slice, window. case_bool; cbn; try done. intros [= <-]. done. Qed.

Lemma len_window {A} (l : list A) s n : 0 ≤ s → 0 ≤ n → s + n ≤ len l → len (window l s n) = n.
Proof. intros. unfold window. rewrite len_take, len_drop by lia. lia. Qed.

Lemma nthZ_window {A} (l : list A) s n i :
  0 ≤ s → 0 ≤ n → nthZ (window l s n) i = if decide (0 ≤ i < n) then nthZ l (s + i) else None.
Proof.
  intros. unfold window. case_decide.
  - rewrite nthZ_take, nthZ_drop by lia. done.
  - destruct (decide (i < 0)); [by apply nthZ_neg|]. apply nthZ_None. rewrite len_take by lia. lia.
Qed.

Lemma nthZ_app {A} (l k : list A) i :
  nthZ (l ++ k) i = if decide (i < len l) then nthZ l i else nthZ k (i - len l).
Proof. case_decide; [by apply nthZ_app_l|apply nthZ_app_r; lia]. Qed.

Lemma nthZ_out {A} (l : list A) i : ¬ 0 ≤ i < len l → nthZ l i = None.
Proof. intros. destruct (decide (i < 0)); [by apply nthZ_neg|]. apply nthZ_None. lia. Qed.

(** Prove an equality of lists of known lengths position by position. *)
Ltac by_position :=
  apply nthZ_ext; let i := fresh "i" in intros i;
  repeat (rewrite ?nthZ_app, ?nthZ_window, ?nthZ_write_at by lia;
          repeat case_decide; rewrite ?len_window in * by lia);
  first [done | lia | f_equal; lia
        | rewrite nthZ_out by lia; first [done | by rewrite nthZ_out by lia]
        | by rewrite nthZ_out by lia].

Lemma window_window {A} (l : list A) s n s' n' :
  0 ≤ s → 0 ≤ s' → 0 ≤ n' → s' + n' ≤ n → window (window l s n) s' n' = window l (s + s') n'.
Proof. intros. by_position. Qed.

Lemma window_write_in {A} (l xs : list A) p : 0 ≤ p → p + len xs ≤ len l →
  window (write_at l p xs) p (len xs) = xs.
Proof. intros. pose proof (len_nonneg xs). by_position. Qed.

Lemma window_write_out {A} (l xs : list A) p s n :
  0 ≤ p → p + len xs ≤ len l → 0 ≤ s → 0 ≤ n → s + n ≤ p ∨ p + len xs ≤ s →
  window (write_at l p xs) s n = window l s n.
Proof. intros. by_position. Qed.

Lemma window_app {A} (l : list A) s n m :
  0 ≤ s → 0 ≤ n → 0 ≤ m → s + n + m ≤ len l →
  window l s (n + m) = window l s n ++ window l (s + n) m.
Proof. intros. by_position. Qed.

Lemma window_drop {A} (l : list A) s n k :
  0 ≤ s → 0 ≤ k ≤ n → drop (Z.to_nat k) (window l s n) = window l (s + k) (n - k).
Proof.
  intros. apply nthZ_ext. intros i. destruct (decide (i < 0)); [by rewrite !nthZ_neg|].
  rewrite nthZ_drop, !nthZ_window by lia. repeat case_decide; try done; try lia. f_equal. lia.
Qed.

Lemma window_take {A} (l : list A) s n k :
  0 ≤ s → 0 ≤ k ≤ n → take (Z.to_nat k) (window l s n) = window l s k.
Proof. intros. unfold window. rewrite take_take. f_equal. lia. Qed.

Lemma window_all {A} (l : list A) : window l 0 (len l) = l.
Proof. unfold window, len. rewrite Nat2Z.id, drop_0. apply firstn_all. Qed.

Lemma window_zero {A} (l : list A) s : window l s 0 = [].
Proof. reflexivity. Qed.
