(* ===== verification/PacketBuf.v ===== *)
(** * AF_XDP packet buffers: [crates/fast-socket-xdp-rs/src/buffer.rs]

    A live buffer is a handle: a frame address and the bounds of the packet in
    the frame. Its bytes are in the UMEM, which all buffers share, so every
    operation takes and returns the memory. A heap buffer owns its frame.
    Accesses through raw pointers are [UB] outside the memory; [expect] and
    [unreachable!] are panics. The operations run while the owning pool lives,
    as the module's lifetime contract demands. *)
From S2P Require Import Prelude Bits Core Buffer Umem.
Open Scope Z_scope.

(** The free list that [reclaim] points to: each socket has two. *)
Inductive Pool := RxPool | TxPool.
Inductive XdpReclaimCtx := HeapCtx | UmemCtx (reclaim : Pool) (frame_size : Z).
Record XdpBufCtx := mkBufCtx {
  bc_layout : BufferLayout;
  bc_reclaim : XdpReclaimCtx;
}.
Inductive XdpStorage := Heap (frame : list Z) | UmemFrame (frame_addr : Z).
Record XdpPacketBufInner := mkInner {
  bi_storage : option XdpStorage;
  bi_ctx : XdpBufCtx;
  bi_armed : bool;
  bi_start : Z;
  bi_end : Z;
}.

Definition with_bounds (b : XdpPacketBufInner) (start stop : Z) : XdpPacketBufInner :=
  mkInner (bi_storage b) (bi_ctx b) (bi_armed b) start stop.

(** ** Raw memory

    Reads and writes of [n] bytes at [at_] through a pointer. *)
Definition mem_read (mem : list Z) (at_ n : Z) : outcome (list Z) :=
  match slice mem at_ (at_ + n) with
  | Some s => Ret s
  | None => UB
  end.
Definition mem_write (mem : list Z) (at_ : Z) (bytes : list Z) : outcome (list Z) :=
  if (0 <=? at_) && (at_ + len bytes <=? len mem) then Ret (write_at mem at_ bytes) else UB.

(** [ptr] and [mut_ptr] followed by an access at an offset of the frame. *)
Definition frame_read (mem : list Z) (b : XdpPacketBufInner) (offset n : Z) : outcome (list Z) :=
  match bi_storage b with
  | None => Panic
  | Some (Heap frame) => mem_read frame offset n
  | Some (UmemFrame frame_addr) =>
      match bc_reclaim (bi_ctx b) with
      | UmemCtx _ _ => mem_read mem (frame_addr + offset) n
      | HeapCtx => Panic
      end
  end.

Definition frame_write (mem : list Z) (b : XdpPacketBufInner) (offset : Z) (bytes : list Z) :
    outcome (list Z * XdpPacketBufInner) :=
  match bi_storage b with
  | None => Panic
  | Some (Heap frame) =>
      frame ← mem_write frame offset bytes;
      Ret (mem, mkInner (Some (Heap frame)) (bi_ctx b) (bi_armed b) (bi_start b) (bi_end b))
  | Some (UmemFrame frame_addr) =>
      match bc_reclaim (bi_ctx b) with
      | UmemCtx _ _ =>
          mem ← mem_write mem (frame_addr + offset) bytes;
          Ret (mem, b)
      | HeapCtx => Panic
      end
  end.

Definition frame_capacity (b : XdpPacketBufInner) : outcome Z :=
  match bi_storage b with
  | None => Panic
  | Some (Heap frame) => Ret (len frame)
  | Some (UmemFrame _) =>
      match bc_reclaim (bi_ctx b) with
      | UmemCtx _ frame_size => Ret frame_size
      | HeapCtx => Panic
      end
  end.

Definition frame_addr (b : XdpPacketBufInner) : outcome (option Z) :=
  match bi_storage b with
  | None => Panic
  | Some (UmemFrame a) => Ret (Some a)
  | Some (Heap _) => Ret None
  end.

Definition is_umem (b : XdpPacketBufInner) : outcome bool :=
  match bi_storage b with
  | None => Panic
  | Some (UmemFrame _) => Ret true
  | Some (Heap _) => Ret false
  end.

(** [from_storage]: a fresh, armed handle. *)
Definition from_storage (storage : XdpStorage) (ctx : XdpBufCtx) (start stop : Z) :
    XdpPacketBufInner :=
  mkInner (Some storage) ctx true start stop.

(** ** The buffer operations *)
Definition buf_len (b : XdpPacketBufInner) : Z := bi_end b - bi_start b.

Definition as_slice (mem : list Z) (b : XdpPacketBufInner) : outcome (list Z) :=
  frame_read mem b (bi_start b) (buf_len b).

Definition buf_headroom (b : XdpPacketBufInner) : outcome Z :=
  match checked_sub (bi_start b) (l2_headroom (bc_layout (bi_ctx b))) with
  | Some h => Ret h
  | None => Panic
  end.

Definition buf_tailroom (b : XdpPacketBufInner) : outcome Z :=
  capacity ← frame_capacity b;
  Ret (saturating_sub capacity (bi_end b)).

Definition prepend_to_inner (mem : list Z) (b : XdpPacketBufInner) (bytes : list Z) :
    outcome (list Z * XdpPacketBufInner * result unit ReserveError) :=
  headroom ← buf_headroom b;
  if headroom <? len bytes then
    Ret (mem, b, Err (InsufficientHeadroom headroom (len bytes)))
  else
    let new_start := bi_start b - len bytes in
    w ← frame_write mem b new_start bytes;
    Ret (w.1, with_bounds w.2 new_start (bi_end b), Ok tt).

Definition extend_from_slice (mem : list Z) (b : XdpPacketBufInner) (bytes : list Z) :
    outcome (list Z * XdpPacketBufInner * result unit BufferAccessError) :=
  tailroom ← buf_tailroom b;
  if tailroom <? len bytes then
    Ret (mem, b, Err (AppendInsufficientTailroom tailroom (len bytes)))
  else
    w ← frame_write mem b (bi_end b) bytes;
    Ret (w.1, with_bounds w.2 (bi_start b) (bi_end b + len bytes), Ok tt).

Definition trim_prefix_from_inner (b : XdpPacketBufInner) (n : Z) :
    XdpPacketBufInner * result unit BufferAccessError :=
  let packet_len := bi_end b - bi_start b in
  if packet_len <? n then (b, Err (OutOfBounds 0 n packet_len))
  else (with_bounds b (bi_start b + n) (bi_end b), Ok tt).

Definition trim_suffix (b : XdpPacketBufInner) (n : Z) :
    XdpPacketBufInner * result unit BufferAccessError :=
  if buf_len b <? n then
    (b, Err (OutOfBounds (saturating_sub (buf_len b) n) n (buf_len b)))
  else (with_bounds b (bi_start b) (bi_end b - n), Ok tt).

(** The bytes that [read_contiguous] copies into a [dst] of length [n]. *)
Definition read_contiguous (buffer : list Z) (offset n : Z) : result (list Z) BufferAccessError :=
  stop <-? ok_or (checked_add 64 offset n) (OutOfBounds offset n (len buffer));
  if len buffer <? stop then Err (OutOfBounds offset n (len buffer))
  else ok_or (slice buffer offset stop) (OutOfBounds offset n (len buffer)).

(** ** Transmit frames *)
Record XdpTxFrame := mkTxFrame {
  tf_desc_addr : Z;
  tf_len : Z;
}.

Definition prepare_tx_frame_with_header (mem : list Z) (b : XdpPacketBufInner) (header : list Z) :
    outcome (list Z * XdpPacketBufInner * option XdpTxFrame) :=
  let packet_len := buf_len b in
  match bi_storage b with
  | None => Ret (mem, b, None)
  | Some _ =>
      umem ← is_umem b;
      if negb umem || (bi_start b <? len header) then Ret (mem, b, None)
      else
        let l2_start := bi_start b - len header in
        let n := len header + packet_len in
        capacity ← frame_capacity b;
        if capacity <? l2_start + n then Ret (mem, b, None)
        else
          w ← frame_write mem b l2_start header;
          let '(mem, b) := w in
          addr ← frame_addr b;
          match addr with
          | None => Ret (mem, b, None)
          | Some frame_addr => Ret (mem, b, Some (mkTxFrame (frame_addr + l2_start) (u32 n)))
          end
  end.

Definition mark_submitted (b : XdpPacketBufInner) : XdpPacketBufInner :=
  mkInner (bi_storage b) (bi_ctx b) false (bi_start b) (bi_end b).

(** [reclaim], which [Drop] calls on an armed buffer: the frame it gives back. *)
Definition reclaim (b : XdpPacketBufInner) : outcome (XdpPacketBufInner * option XdpStorage) :=
  if negb (bi_armed b) then Ret (b, None)
  else
    match bi_storage b with
    | None => Panic
    | Some (Heap frame) =>
        match bc_reclaim (bi_ctx b) with
        | HeapCtx =>
            Ret (mkInner (Some (Heap [])) (bi_ctx b) false (bi_start b) (bi_end b), Some (Heap frame))
        | UmemCtx _ _ => Panic
        end
    | Some (UmemFrame a) =>
        match bc_reclaim (bi_ctx b) with
        | UmemCtx _ _ => Ret (mark_submitted b, Some (UmemFrame a))
        | HeapCtx => Panic
        end
    end.

Definition drop_buffer (b : XdpPacketBufInner) : outcome (option XdpStorage) :=
  if bi_armed b && match bi_storage b with Some _ => true | None => false end then
    r ← reclaim b;
    Ret r.2
  else Ret None.

(** ** Receive frames: [XdpRxPool::wrap_rx_frame]

    [live] is the pool's UMEM, absent in the heap fallback. *)
Definition wrap_rx_frame (live : option Umem) (ctx : XdpBufCtx) (desc_addr packet_offset n : Z) :
    option XdpPacketBufInner :=
  u ← live;
  let frame_size := um_frame_size u in
  let frame_addr := desc_addr - desc_addr mod frame_size in
  if negb (contains_frame_addr u frame_addr) then None
  else
    let desc_offset := desc_addr - frame_addr in
    start ← checked_add 64 desc_offset packet_offset;
    if start <? l2_headroom (bc_layout ctx) then None
    else
      stop ← checked_add 64 start n;
      if frame_size <? stop then None
      else Some (from_storage (UmemFrame frame_addr) ctx start (start + n)).

(** ** The trait instance

    A buffer together with the memory it lives in. *)
Record XdpBuf := mkXdpBuf {
  xb_mem : list Z;
  xb_inner : XdpPacketBufInner;
}.

Definition xb_bytes (b : XdpBuf) : list Z :=
  match as_slice (xb_mem b) (xb_inner b) with
  | Ret s => s
  | _ => []
  end.

#[export] Instance xdp_packet_buffer : PacketBuffer XdpBuf := {
  pb_len b := buf_len (xb_inner b);
  pb_headroom b := buf_headroom (xb_inner b);
  pb_tailroom b := match buf_tailroom (xb_inner b) with Ret t => t | _ => 0 end;
  pb_layout b := bc_layout (bi_ctx (xb_inner b));
  pb_segments b := if buf_len (xb_inner b) =? 0 then [] else [xb_bytes b];
  pb_read_at_exact b off n := read_contiguous (xb_bytes b) off n;
}.

#[export] Instance xdp_packet_buffer_mut : PacketBufferMut XdpBuf XdpBuf := {
  pb_prepend b xs :=
    r ← prepend_to_inner (xb_mem b) (xb_inner b) xs;
    Ret (mkXdpBuf r.1.1 r.1.2, r.2);
  pb_extend_from_slice b xs :=
    r ← extend_from_slice (xb_mem b) (xb_inner b) xs;
    Ret (mkXdpBuf r.1.1 r.1.2, r.2);
  pb_trim_prefix b n :=
    let r := trim_prefix_from_inner (xb_inner b) n in (mkXdpBuf (xb_mem b) r.1, r.2);
  pb_trim_suffix b n :=
    let r := trim_suffix (xb_inner b) n in (mkXdpBuf (xb_mem b) r.1, r.2);
  pb_freeze b := b;
}.
