(* ===== verification/PacketBufProofs.v ===== *)
(** * Lemmas of the AF_XDP packet buffers *)
From S2P Require Import Prelude Bits Core Buffer Umem Window PacketBuf.
Open Scope Z_scope.

(** The frame a buffer lives in: where it starts in its memory and its size. *)
Definition bi_capacity (b : XdpPacketBufInner) : Z :=
  match bi_storage b, bc_reclaim (bi_ctx b) with
  | Some (Heap frame), _ => len frame
  | Some (UmemFrame _), UmemCtx _ frame_size => frame_size
  | _, _ => 0
  end.

(** The handle is well formed in [mem]. *)
Record inner_ok (mem : list Z) (b : XdpPacketBufInner) : Prop := mkInnerOk {
  io_storage :
    match bi_storage b, bc_reclaim (bi_ctx b) with
    | Some (Heap _), HeapCtx => True
    | Some (UmemFrame a), UmemCtx _ frame_size => 0 ≤ a ∧ a + frame_size ≤ len mem
    | _, _ => False
    end;
  io_l2 : 0 ≤ l2_headroom (bc_layout (bi_ctx b)) ≤ bi_start b;
  io_packet : bi_start b ≤ bi_end b;
  io_end : bi_end b ≤ bi_capacity b;
}.

(** The bytes of the frame. *)
Definition frame_bytes (mem : list Z) (b : XdpPacketBufInner) : list Z :=
  match bi_storage b with
  | Some (Heap frame) => frame
  | Some (UmemFrame a) => window mem a (bi_capacity b)
  | None => []
  end.

(** The packet. *)
Definition packet_bytes (mem : list Z) (b : XdpPacketBufInner) : list Z :=
  window (frame_bytes mem b) (bi_start b) (buf_len b).

(** Memory changed at most inside the frame of [b]. *)
Definition same_outside (mem mem' : list Z) (b : XdpPacketBufInner) : Prop :=
  len mem' = len mem ∧
  match bi_storage b with
  | Some (UmemFrame a) => ∀ i, ¬ a ≤ i < a + bi_capacity b → nthZ mem' i = nthZ mem i
  | _ => mem' = mem
  end.

Lemma frame_capacity_ok mem b : inner_ok mem b → frame_capacity b = Ret (bi_capacity b).
Proof.
  intros [Hs _ _ _]. unfold frame_capacity, bi_capacity.
  destruct (bi_storage b) as [[]|]; [|destruct (bc_reclaim _)|]; done.
Qed.

Lemma len_frame_bytes mem b : inner_ok mem b → len (frame_bytes mem b) = bi_capacity b.
Proof.
  intros [Hs ? ? ?]. unfold frame_bytes, bi_capacity in *.
  destruct (bi_storage b) as [[f|a]|]; [done| |done]. destruct (bc_reclaim _); [done|].
  rewrite len_window; lia.
Qed.

Lemma len_packet_bytes mem b : inner_ok mem b → len (packet_bytes mem b) = buf_len b.
Proof.
  intros Hok. pose proof (len_frame_bytes mem b Hok). destruct Hok.
  unfold packet_bytes, buf_len in *. rewrite len_window; lia.
Qed.

Lemma frame_read_ok mem b off n :
  inner_ok mem b → 0 ≤ off → 0 ≤ n → off + n ≤ bi_capacity b →
  frame_read mem b off n = Ret (window (frame_bytes mem b) off n).
Proof.
  intros [Hs ? ? ?] ? ? Hle. unfold frame_read, mem_read, frame_bytes, bi_capacity in *.
  destruct (bi_storage b) as [[f|a]|]; [|destruct (bc_reclaim _) as [|fs]; [done|]|done].
  - by rewrite slice_window.
  - rewrite slice_window by lia. by rewrite window_window by lia.
Qed.

Lemma as_slice_ok mem b : inner_ok mem b → as_slice mem b = Ret (packet_bytes mem b).
Proof.
  intros Hok. unfold as_slice, packet_bytes. destruct (Hok). unfold buf_len in *. apply frame_read_ok; [done|lia..].
Qed.

Lemma frame_write_ok mem b off bytes :
  inner_ok mem b → 0 ≤ off → off + len bytes ≤ bi_capacity b →
  ∃ mem' b', frame_write mem b off bytes = Ret (mem', b') ∧
    frame_bytes mem' b' = write_at (frame_bytes mem b) off bytes ∧
    inner_ok mem' b' ∧ same_outside mem mem' b ∧
    bi_start b' = bi_start b ∧ bi_end b' = bi_end b ∧ bi_ctx b' = bi_ctx b ∧
    bi_armed b' = bi_armed b ∧ bi_capacity b' = bi_capacity b ∧
    (∀ a, bi_storage b = Some (UmemFrame a) → b' = b).
Proof.
  intros Hok Hoff Hle. pose proof (len_nonneg bytes).
  assert (Hlen := len_frame_bytes mem b Hok). destruct Hok as [Hs H1 H2 H3].
  unfold frame_write, mem_write, frame_bytes, bi_capacity, same_outside in *.
  destruct (bi_storage b) as [[f|a]|] eqn:Hst; [|destruct (bc_reclaim (bi_ctx b)) as [|fs] eqn:Hc; [done|]|done].
  - destruct (bc_reclaim (bi_ctx b)) eqn:Hc; [|done].
    destruct (Z.leb_spec 0 off); [|lia]. destruct (Z.leb_spec (off + len bytes) (len f)); [|lia].
    cbn [andb]. run. eexists _, _. split; [reflexivity|]. unfold bi_capacity. cbn.
    rewrite !len_write_at by lia. split_and!; try done.
    constructor; cbn; rewrite ?Hc; unfold bi_capacity; cbn; rewrite ?len_write_at by lia; done.
  - destruct (Z.leb_spec 0 (a + off)); [|lia].
    destruct (Z.leb_spec (a + off + len bytes) (len mem)); [|lia]. cbn [andb]. run.
    eexists _, b. split; [reflexivity|]. rewrite Hst, Hc, len_write_at by lia. split_and!; try done.
    + apply nthZ_ext. intros i. rewrite nthZ_window, !nthZ_write_at, nthZ_window by lia.
      repeat case_decide; try done; try lia. f_equal. lia.
    + constructor; unfold bi_capacity; rewrite ?Hst, ?Hc, ?len_write_at by lia; done.
    + intros i Hi. unfold bi_capacity in Hi. rewrite Hst, Hc in Hi.
      rewrite nthZ_write_at by lia. by rewrite decide_False by lia.
Qed.

(** Rebounding a handle that stays within its frame. *)
Lemma with_bounds_ok mem b start stop :
  inner_ok mem b → l2_headroom (bc_layout (bi_ctx b)) ≤ start → start ≤ stop → stop ≤ bi_capacity b →
  inner_ok mem (with_bounds b start stop).
Proof. intros [Hs [? _] _ _] ? ? ?. by constructor. Qed.

Lemma packet_with_bounds mem b start stop :
  packet_bytes mem (with_bounds b start stop) = window (frame_bytes mem b) start (stop - start).
Proof. reflexivity. Qed.

Lemma buf_headroom_ok mem b :
  inner_ok mem b → buf_headroom b = Ret (bi_start b - l2_headroom (bc_layout (bi_ctx b))).
Proof.
  intros [_ Hl _ _]. unfold buf_headroom, checked_sub.
  destruct (Z.leb_spec (l2_headroom (bc_layout (bi_ctx b))) (bi_start b)); [done|lia].
Qed.

Lemma buf_tailroom_ok mem b : inner_ok mem b → buf_tailroom b = Ret (bi_capacity b - bi_end b).
Proof.
  intros Hok. unfold buf_tailroom. rewrite (frame_capacity_ok mem b Hok). run.
  destruct Hok. unfold saturating_sub. f_equal. lia.
Qed.

(** ** The operations *)
Lemma prepend_ok mem b xs :
  inner_ok mem b → len xs ≤ bi_start b - l2_headroom (bc_layout (bi_ctx b)) →
  ∃ mem' b', prepend_to_inner mem b xs = Ret (mem', b', Ok tt) ∧ inner_ok mem' b' ∧
    packet_bytes mem' b' = xs ++ packet_bytes mem b ∧ same_outside mem mem' b ∧
    bi_start b' = bi_start b - len xs ∧ bi_end b' = bi_end b ∧ bi_ctx b' = bi_ctx b ∧
    bi_armed b' = bi_armed b ∧ bi_capacity b' = bi_capacity b ∧
    (∀ a, bi_storage b = Some (UmemFrame a) → bi_storage b' = Some (UmemFrame a)).
Proof.
  intros Hok Hle. unfold prepend_to_inner. rewrite (buf_headroom_ok mem b Hok). run.
  destruct (Z.ltb_spec (bi_start b - l2_headroom (bc_layout (bi_ctx b))) (len xs)); [lia|].
  pose proof (len_nonneg xs). pose proof (len_frame_bytes mem b Hok) as HL.
  pose proof (io_l2 _ _ Hok). pose proof (io_packet _ _ Hok). pose proof (io_end _ _ Hok).
  destruct (frame_write_ok mem b (bi_start b - len xs) xs Hok) as
    (mem' & b' & Hw & Hf & Hok' & Hout & Hs & He & Hc & Ha & Hcap & Hum); [lia|lia|].
  rewrite Hw. run. eexists _, _. split; [reflexivity|]. split_and!; try done.
  - apply with_bounds_ok; [done|rewrite Hc; lia|lia|lia].
  - rewrite packet_with_bounds, Hf. unfold packet_bytes, buf_len.
    replace (bi_end b - (bi_start b - len xs)) with (len xs + (bi_end b - bi_start b)) by lia.
    rewrite window_app by (rewrite ?len_write_at; lia). rewrite window_write_in by lia. f_equal.
    rewrite window_write_out by lia. f_equal. lia.
  - intros a Hst. by rewrite (Hum a Hst).
Qed.

Lemma extend_ok mem b xs :
  inner_ok mem b → len xs ≤ bi_capacity b - bi_end b →
  ∃ mem' b', extend_from_slice mem b xs = Ret (mem', b', Ok tt) ∧ inner_ok mem' b' ∧
    packet_bytes mem' b' = packet_bytes mem b ++ xs ∧ same_outside mem mem' b ∧
    bi_start b' = bi_start b ∧ bi_end b' = bi_end b + len xs ∧ bi_ctx b' = bi_ctx b ∧
    bi_armed b' = bi_armed b ∧ bi_capacity b' = bi_capacity b ∧
    (∀ a, bi_storage b = Some (UmemFrame a) → bi_storage b' = Some (UmemFrame a)).
Proof.
  intros Hok Hle. unfold extend_from_slice. rewrite (buf_tailroom_ok mem b Hok). run.
  destruct (Z.ltb_spec (bi_capacity b - bi_end b) (len xs)); [lia|].
  pose proof (len_nonneg xs). pose proof (len_frame_bytes mem b Hok) as HL.
  pose proof (io_l2 _ _ Hok). pose proof (io_packet _ _ Hok). pose proof (io_end _ _ Hok).
  destruct (frame_write_ok mem b (bi_end b) xs Hok) as
    (mem' & b' & Hw & Hf & Hok' & Hout & Hs & He & Hc & Ha & Hcap & Hum); [lia|lia|].
  rewrite Hw. run. eexists _, _. split; [reflexivity|]. split_and!; try done.
  - apply with_bounds_ok; [done|rewrite Hc; lia|lia|lia].
  - rewrite packet_with_bounds, Hf. unfold packet_bytes, buf_len.
    replace (bi_end b + len xs - bi_start b) with (bi_end b - bi_start b + len xs) by lia.
    rewrite window_app by (rewrite ?len_write_at; lia). rewrite window_write_out by lia. f_equal.
    replace (bi_start b + (bi_end b - bi_start b)) with (bi_end b) by lia. by apply window_write_in; lia.
  - intros a Hst. by rewrite (Hum a Hst).
Qed.

Lemma read_contiguous_spec buffer off n :
  len buffer ≤ USIZE_MAX → 0 ≤ off → 0 ≤ n →
  read_contiguous buffer off n
  = match slice buffer off (off + n) with
    | Some s => Ok s
    | None => Err (OutOfBounds off n (len buffer))
    end.
Proof.
  intros HL Hoff Hn. unfold read_contiguous, checked_add.
  assert (USIZE_MAX = 2 ^ 64 - 1) by reflexivity.
  destruct (Z.ltb_spec (off + n) (2 ^ 64)); cbn [ok_or result_bind].
  - destruct (Z.ltb_spec (len buffer) (off + n)).
    + unfold slice. case_bool; cbn; try done; lia.
    + by destruct (slice _ _ _).
  - unfold slice. case_bool; cbn; try done; lia.
Qed.

(** A write in the frame of one buffer does not reach another frame. *)
Lemma frame_bytes_outside mem mem' b c a a' :
  inner_ok mem b → inner_ok mem c → same_outside mem mem' b →
  bi_storage b = Some (UmemFrame a) → bi_storage c = Some (UmemFrame a') →
  a + bi_capacity b ≤ a' ∨ a' + bi_capacity c ≤ a →
  frame_bytes mem' c = frame_bytes mem c ∧ inner_ok mem' c.
Proof.
  intros Hb Hc [Hl Hout] Hsb Hsc Hdis. unfold frame_bytes. rewrite Hsb in Hout. rewrite Hsc.
  destruct Hc as [Hst H1 H2 H3]. split; [|by constructor; rewrite ?Hl].
  assert (0 ≤ a' ∧ 0 ≤ bi_capacity c).
  { rewrite Hsc in Hst. split; [destruct (bc_reclaim _); [done|lia]|lia]. }
  apply nthZ_ext. intros i. rewrite !nthZ_window by lia. case_decide; [|done]. apply Hout. lia.
Qed.

(** ** Transmit frames *)
Lemma prepare_tx_frame_ok mem b header a :
  inner_ok mem b → bi_storage b = Some (UmemFrame a) → len header ≤ bi_start b →
  bi_capacity b < 2 ^ 32 →
  ∃ mem', prepare_tx_frame_with_header mem b header
    = Ret (mem', b, Some (mkTxFrame (a + bi_start b - len header) (len header + buf_len b))) ∧
    inner_ok mem' b ∧ same_outside mem mem' b ∧ packet_bytes mem' b = packet_bytes mem b ∧
    window mem' (a + bi_start b - len header) (len header + buf_len b) = header ++ packet_bytes mem b.
Proof.
  intros Hok Hst Hh Hcap32. unfold prepare_tx_frame_with_header. rewrite Hst. unfold is_umem. rewrite Hst. run.
  pose proof (len_nonneg header). pose proof (len_frame_bytes mem b Hok) as HL.
  pose proof (io_l2 _ _ Hok). pose proof (io_packet _ _ Hok). pose proof (io_end _ _ Hok).
  cbn [negb orb]. destruct (Z.ltb_spec (bi_start b) (len header)); [lia|].
  rewrite (frame_capacity_ok mem b Hok). run. unfold buf_len in *.
  destruct (Z.ltb_spec (bi_capacity b) (bi_start b - len header + (len header + (bi_end b - bi_start b)))); [lia|].
  destruct (frame_write_ok mem b (bi_start b - len header) header Hok) as
    (mem' & b' & Hw & Hf & Hok' & Hout & Hs & He & Hc & Ha & Hcap & Hum); [lia|lia|].
  rewrite (Hum a Hst) in *. rewrite Hw. run. unfold frame_addr. rewrite Hst. run.
  exists mem'. rewrite wrap_small by (unfold fits; lia). split; [by rewrite Z.add_sub_assoc|]. split_and!; try done.
  - unfold packet_bytes, buf_len. rewrite Hf. apply window_write_out; lia.
  - assert (Hwin : window mem' (a + bi_start b - len header) (len header + (bi_end b - bi_start b))
      = window (frame_bytes mem' b) (bi_start b - len header) (len header + (bi_end b - bi_start b))).
    { unfold frame_bytes. rewrite Hst. rewrite window_window; try lia; [f_equal; lia|].
      pose proof (io_storage _ _ Hok) as Hio. rewrite Hst in Hio. destruct (bc_reclaim _); [done|lia]. }
    rewrite Hwin, window_app, Hf; [|lia|lia|lia|rewrite (len_frame_bytes mem' b Hok'); lia].
    rewrite window_write_in by lia. f_equal. rewrite window_write_out by lia. unfold packet_bytes, buf_len.
    f_equal. lia.
Qed.

(** Preparing a frame succeeds exactly for a UMEM buffer with room for the
    header before its packet; otherwise nothing changes. *)
Lemma prepare_tx_frame_total mem b header :
  inner_ok mem b → bi_capacity b ≤ U32_MAX →
  (∃ a mem', bi_storage b = Some (UmemFrame a) ∧ len header ≤ bi_start b ∧
     prepare_tx_frame_with_header mem b header
     = Ret (mem', b, Some (mkTxFrame (a + bi_start b - len header) (len header + buf_len b))) ∧
     inner_ok mem' b ∧ same_outside mem mem' b ∧
     window mem' (a + bi_start b - len header) (len header + buf_len b) = header ++ packet_bytes mem b)
  ∨ prepare_tx_frame_with_header mem b header = Ret (mem, b, None).
Proof.
  intros Hok Hcap. destruct (bi_storage b) as [[f|a]|] eqn:Hst.
  - right. unfold prepare_tx_frame_with_header, is_umem. by rewrite Hst.
  - destruct (decide (len header ≤ bi_start b)).
    + left. destruct (prepare_tx_frame_ok mem b header a) as (mem' & Hp & Hok' & Hout & _ & Hw); try done.
      { unfold U32_MAX in Hcap. lia. }
      by exists a, mem'.
    + right. unfold prepare_tx_frame_with_header, is_umem. rewrite Hst. run. cbn [negb orb].
      by destruct (Z.ltb_spec (bi_start b) (len header)); [|lia].
  - right. unfold prepare_tx_frame_with_header. by rewrite Hst.
Qed.

Lemma same_outside_refl mem b : same_outside mem mem b.
Proof. split; [done|]. by destruct (bi_storage b) as [[]|]. Qed.

(** Two changes within the frame of handles on the same frame. *)
Lemma same_outside_trans m1 m2 m3 b c :
  same_outside m1 m2 b → same_outside m2 m3 c → bi_capacity c = bi_capacity b →
  (∀ a, bi_storage b = Some (UmemFrame a) → bi_storage c = Some (UmemFrame a)) →
  (∀ a, bi_storage c = Some (UmemFrame a) → bi_storage b = Some (UmemFrame a)) →
  same_outside m1 m3 b.
Proof.
  intros [H1 H2] [H3 H4] Hcap Hbc Hcb. split; [congruence|].
  destruct (bi_storage b) as [[f|a]|].
  - destruct (bi_storage c) as [[|a]|]; [congruence| |congruence]. by specialize (Hcb a eq_refl).
  - rewrite (Hbc a eq_refl) in H4. intros i Hi. rewrite H4 by (by rewrite Hcap). by apply H2.
  - destruct (bi_storage c) as [[|a]|]; [congruence| |congruence]. by specialize (Hcb a eq_refl).
Qed.

(** A prepend keeps the kind of storage. *)
Lemma prepend_storage mem b xs mem' b' r a :
  prepend_to_inner mem b xs = Ret (mem', b', r) → bi_storage b' = Some (UmemFrame a) →
  bi_storage b = Some (UmemFrame a).
Proof.
  unfold prepend_to_inner. intros H Hst. apply bind_ret_inv in H as (h & _ & H).
  destruct (h <? len xs); [by simplify_eq|]. apply bind_ret_inv in H as ([m c] & Hw & H). simplify_eq/=.
  unfold frame_write in Hw. destruct (bi_storage b) as [[f|a']|] eqn:Hb; [|destruct (bc_reclaim _); [done|]|done].
  - by apply bind_ret_inv in Hw as (f' & _ & Hw); simplify_eq/=.
  - apply bind_ret_inv in Hw as (f' & _ & Hw). simplify_eq/=. congruence.
Qed.
