(* ===== verification/PacketBufMain.v ===== *)
(** * Properties of the AF_XDP packet buffers *)
From S2P Require Import Prelude Bits Core Buffer BufferSpec Umem Window PacketBuf PacketBufProofs.
Open Scope Z_scope.

Definition xb_ok (b : XdpBuf) : Prop :=
  inner_ok (xb_mem b) (xb_inner b) ∧ bi_capacity (xb_inner b) ≤ USIZE_MAX.

Lemma xb_bytes_ok b : xb_ok b → xb_bytes b = packet_bytes (xb_mem b) (xb_inner b).
Proof. intros [Hok _]. unfold xb_bytes. by rewrite as_slice_ok. Qed.

Lemma xb_bytes_of b : xb_ok b → bytes_of b = packet_bytes (xb_mem b) (xb_inner b).
Proof.
  intros Hb. unfold bytes_of. cbn. rewrite <- (xb_bytes_ok b Hb). destruct Hb as [Hok ?].
  destruct (Z.eqb_spec (buf_len (xb_inner b)) 0) as [Hz|]; cbn; [|by rewrite app_nil_r].
  rewrite xb_bytes_ok by done. unfold packet_bytes. by rewrite Hz.
Qed.

Lemma xb_tailroom b : xb_ok b →
  pb_tailroom b = bi_capacity (xb_inner b) - bi_end (xb_inner b).
Proof. intros [Hok _]. cbn. by rewrite (buf_tailroom_ok _ _ Hok). Qed.

Lemma xb_headroom b : xb_ok b → pb_headroom b
  = Ret (bi_start (xb_inner b) - l2_headroom (bc_layout (bi_ctx (xb_inner b)))).
Proof. intros [Hok _]. cbn. by rewrite (buf_headroom_ok _ _ Hok). Qed.

#[export] Instance xdp_buffer_laws : PacketBufferLaws XdpBuf XdpBuf xb_ok.
Proof.
  split.
  - intros b Hb. rewrite xb_bytes_of by done. destruct Hb as [Hok _]. by rewrite len_packet_bytes.
  - intros b Hb. rewrite xb_headroom by done. destruct Hb as [[_ ? _ _] _]. eexists. split; [done|lia].
  - intros b off n Hb Hoff Hn. rewrite xb_bytes_of by done. cbn. rewrite xb_bytes_ok by done.
    destruct Hb as [Hok Hcap]. pose proof (len_packet_bytes _ _ Hok) as HL.
    destruct (Hok). unfold buf_len in HL. rewrite read_contiguous_spec by lia. by rewrite HL.
  - intros b xs h Hb Hh. rewrite xb_headroom in Hh by done. injection Hh as <-. rewrite (xb_bytes_of b Hb).
    destruct (Hb) as [Hok Hcap]. cbn [pb_prepend xdp_packet_buffer_mut].
    destruct (Z.leb_spec (len xs) (bi_start (xb_inner b) - l2_headroom (bc_layout (bi_ctx (xb_inner b))))) as [Hle|Hgt].
    + destruct (prepend_ok _ _ xs Hok Hle) as (mem' & b' & Hp & Hok' & Hbytes & _ & Hs & He & Hc & _ & Hcap' & _).
      rewrite Hp. run. eexists (mkXdpBuf mem' b'), _. split; [reflexivity|].
      assert (Hb' : xb_ok (mkXdpBuf mem' b')) by (split; [done|cbn; lia]).
      rewrite xb_bytes_of, xb_headroom, !xb_tailroom by done. cbn.
      rewrite Hs, He, Hc, Hcap'. split_and!; try done. f_equal. lia.
    + unfold prepend_to_inner. rewrite (buf_headroom_ok _ _ Hok). run.
      destruct (Z.ltb_spec (bi_start (xb_inner b) - l2_headroom (bc_layout (bi_ctx (xb_inner b)))) (len xs)); [|lia].
      run. eexists _, _. split; [reflexivity|]. by destruct b.
  - intros b xs Hb. rewrite (xb_tailroom b Hb), (xb_bytes_of b Hb), (xb_headroom b Hb).
    destruct (Hb) as [Hok Hcap]. cbn [pb_extend_from_slice xdp_packet_buffer_mut].
    destruct (Z.leb_spec (len xs) (bi_capacity (xb_inner b) - bi_end (xb_inner b))) as [Hle|Hgt].
    + destruct (extend_ok _ _ xs Hok Hle) as (mem' & b' & Hp & Hok' & Hbytes & _ & Hs & He & Hc & _ & Hcap' & _).
      rewrite Hp. run. eexists (mkXdpBuf mem' b'), _. split; [reflexivity|].
      assert (Hb' : xb_ok (mkXdpBuf mem' b')) by (split; [done|cbn; lia]).
      rewrite xb_bytes_of, xb_headroom, xb_tailroom by done. cbn.
      rewrite Hs, He, Hc, Hcap'. split_and!; try done. lia.
    + unfold extend_from_slice. rewrite (buf_tailroom_ok _ _ Hok). run.
      destruct (Z.ltb_spec (bi_capacity (xb_inner b) - bi_end (xb_inner b)) (len xs)); [|lia].
      run. eexists _, _. split; [reflexivity|]. by destruct b.
  - intros b n h Hb Hn Hh. rewrite xb_headroom in Hh by done. injection Hh as <-.
    rewrite (xb_tailroom b Hb), (xb_bytes_of b Hb). destruct (Hb) as [Hok Hcap].
    cbn [pb_trim_prefix xdp_packet_buffer_mut pb_len xdp_packet_buffer]. unfold trim_prefix_from_inner. fold (buf_len (xb_inner b)).
    destruct (Z.ltb_spec (buf_len (xb_inner b)) n), (Z.leb_spec n (buf_len (xb_inner b))); try lia.
    + cbn. by destruct b.
    + destruct (Hok). unfold buf_len in *.
      assert (Hb' : xb_ok (mkXdpBuf (xb_mem b)
        (with_bounds (xb_inner b) (bi_start (xb_inner b) + n) (bi_end (xb_inner b))))).
      { split; [|done]. apply with_bounds_ok; [done|lia..]. }
      cbn [fst snd]. split; [done|]. rewrite xb_bytes_of, (xb_tailroom _ Hb'), (xb_headroom _ Hb') by done.
      cbn [xb_mem xb_inner].
      rewrite packet_with_bounds. unfold packet_bytes, buf_len. rewrite window_drop by lia.
      split_and!; try done; [f_equal; lia|]. cbn [with_bounds bi_start bi_ctx]. f_equal. lia.
  - intros b n Hb Hn. rewrite (xb_headroom b Hb), (xb_tailroom b Hb), (xb_bytes_of b Hb).
    destruct (Hb) as [Hok Hcap].
    cbn [pb_trim_suffix xdp_packet_buffer_mut pb_len xdp_packet_buffer]. unfold trim_suffix.
    destruct (Z.ltb_spec (buf_len (xb_inner b)) n), (Z.leb_spec n (buf_len (xb_inner b))); try lia.
    + cbn. by destruct b.
    + destruct (Hok). unfold buf_len in *.
      assert (Hb' : xb_ok (mkXdpBuf (xb_mem b)
        (with_bounds (xb_inner b) (bi_start (xb_inner b)) (bi_end (xb_inner b) - n)))).
      { split; [|done]. apply with_bounds_ok; [done|lia..]. }
      cbn [fst snd]. split; [done|]. rewrite xb_bytes_of, (xb_tailroom _ Hb'), (xb_headroom _ Hb') by done.
      cbn [xb_mem xb_inner].
      rewrite packet_with_bounds. unfold packet_bytes, buf_len. rewrite window_take by lia.
      split_and!; try done; [f_equal; lia|].
      change (bi_capacity (with_bounds _ _ _)) with (bi_capacity (xb_inner b)).
      cbn [with_bounds bi_end]. lia.
  - done.
Qed.

(** ** Properties *)

(** C23. Under every sequence of prepends, appends and trims, successful or
    refused, an AF_XDP buffer behaves as the abstract packet buffer: it never
    panics or leaves its frame, gives the same results, and ends with the same
    bytes and free space. *)
Theorem xdp_buffer_refines (b : XdpBuf) (ops : list buf_op) :
  xb_ok b → Forall op_wf ops →
  ∃ b' rs, run_ops b ops = Ret (b', rs) ∧ xb_ok b' ∧ run_ops (abs b) ops = Ret (abs b', rs).
Proof. intros. by apply (run_ops_refines xb_ok). Qed.

(** A UMEM of four 8-byte frames and a layout with two bytes of link-layer
    headroom. *)
Definition tiny_ctx : XdpBufCtx := mkBufCtx (mkLayout 4 2 0 8 4 1 8 1 2 false) (UmemCtx TxPool 8).
Definition tiny_buf (frame : Z) : XdpPacketBufInner := from_storage (UmemFrame frame) tiny_ctx 4 4.

Lemma tiny_buf_ok frame : frame ∈ [0; 8; 16; 24] → xb_ok (mkXdpBuf (replicate 32 0) (tiny_buf frame)).
Proof.
  rewrite !elem_of_cons, elem_of_nil. intros Hf.
  split; [|vm_compute; discriminate]. constructor; cbn; unfold len; cbn; lia.
Qed.

Lemma xdp_buffer_refines_witness :
  ∃ b' rs, run_ops (mkXdpBuf (replicate 32 0) (tiny_buf 8))
      [OpExtend [1; 2; 3]; OpPrepend [9; 9]; OpPrepend [7]; OpTrimPrefix 1] = Ret (b', rs) ∧
    xb_bytes b' = [9; 1; 2; 3].
Proof.
  destruct (xdp_buffer_refines (mkXdpBuf (replicate 32 0) (tiny_buf 8))
    [OpExtend [1; 2; 3]; OpPrepend [9; 9]; OpPrepend [7]; OpTrimPrefix 1]) as (b' & rs & Hrun & _).
  - apply tiny_buf_ok. set_solver.
  - repeat constructor. discriminate.
  - exists b', rs. split; [exact Hrun|]. vm_compute in Hrun. injection Hrun as <- <-. reflexivity.
Defined.

(** Buffers do not interfere: any mutation of a buffer, and the writing of
    a transmit header into its frame, leaves the bytes of every buffer in
    another frame of the same UMEM unchanged and keeps its handle valid. *)
Theorem buffers_isolated (mem : list Z) (b c : XdpPacketBufInner) (a a' : Z) (op : buf_op)
    (header : list Z) :
  inner_ok mem b → inner_ok mem c → op_wf op →
  bi_storage b = Some (UmemFrame a) → bi_storage c = Some (UmemFrame a') →
  a + bi_capacity b ≤ a' ∨ a' + bi_capacity c ≤ a → bi_capacity b ≤ U32_MAX →
  (∀ b' r, run_op (mkXdpBuf mem b) op = Ret (b', r) →
     as_slice (xb_mem b') c = as_slice mem c ∧ inner_ok (xb_mem b') c) ∧
  (∀ mem' b' f, prepare_tx_frame_with_header mem b header = Ret (mem', b', f) →
     as_slice mem' c = as_slice mem c ∧ inner_ok mem' c).
Proof.
  intros Hb Hc Hwf Hsb Hsc Hdis Hcap.
  assert (Hkeep : ∀ mem', same_outside mem mem' b →
    as_slice mem' c = as_slice mem c ∧ inner_ok mem' c).
  { intros mem' Hout. destruct (frame_bytes_outside mem mem' b c a a') as [Hf Hc']; try done.
    split; [|done]. rewrite !as_slice_ok by done. unfold packet_bytes. by rewrite Hf. }
  assert (Hsame : as_slice mem c = as_slice mem c ∧ inner_ok mem c) by done.
  split.
  - intros b' r. destruct op as [xs|xs|n|n]; cbn [run_op pb_prepend pb_extend_from_slice
      pb_trim_prefix pb_trim_suffix xdp_packet_buffer_mut xb_mem xb_inner].
    + pose proof (buf_headroom_ok _ _ Hb) as Hh.
      destruct (decide (len xs ≤ bi_start b - l2_headroom (bc_layout (bi_ctx b)))).
      * destruct (prepend_ok mem b xs Hb) as (mem' & b1 & Hp & _ & _ & Hout & _); [done|].
        rewrite Hp. run. intros [= <- _]. cbn. by apply Hkeep.
      * unfold prepend_to_inner. rewrite Hh. run.
        destruct (Z.ltb_spec (bi_start b - l2_headroom (bc_layout (bi_ctx b))) (len xs)); [|lia].
        run. by intros [= <- _].
    + pose proof (buf_tailroom_ok _ _ Hb) as Hh.
      destruct (decide (len xs ≤ bi_capacity b - bi_end b)).
      * destruct (extend_ok mem b xs Hb) as (mem' & b1 & Hp & _ & _ & Hout & _); [done|].
        rewrite Hp. run. intros [= <- _]. cbn. by apply Hkeep.
      * unfold extend_from_slice. rewrite Hh. run.
        destruct (Z.ltb_spec (bi_capacity b - bi_end b) (len xs)); [|lia].
        run. by intros [= <- _].
    + by intros [= <- _].
    + by intros [= <- _].
  - intros mem' b' f. destruct (decide (len header ≤ bi_start b)).
    + destruct (prepare_tx_frame_ok mem b header a) as (mem1 & Hp & _ & Hout & _); try done.
      { unfold U32_MAX in Hcap. lia. }
      rewrite Hp. intros [= <- <- <-]. by apply Hkeep.
    + unfold prepare_tx_frame_with_header, is_umem. rewrite Hsb. run. cbn [negb orb].
      destruct (Z.ltb_spec (bi_start b) (len header)); [|lia]. by intros [= <- <- <-].
Qed.

Lemma buffers_isolated_witness :
  ∃ b' r, run_op (mkXdpBuf (replicate 32 7) (tiny_buf 8)) (OpExtend [1; 2; 3]) = Ret (b', r) ∧
    as_slice (xb_mem b') (with_bounds (tiny_buf 16) 2 8) = Ret [7; 7; 7; 7; 7; 7].
Proof.
  eexists _, _. split; [vm_compute; reflexivity|].
  destruct (buffers_isolated (replicate 32 7) (tiny_buf 8) (with_bounds (tiny_buf 16) 2 8) 8 16
    (OpExtend [1; 2; 3]) []) as [H _].
  - constructor; cbn; unfold len; cbn; lia.
  - constructor; cbn; unfold len; cbn; lia.
  - exact I.
  - reflexivity.
  - reflexivity.
  - left. cbn. lia.
  - vm_compute. discriminate.
  - eapply H. vm_compute. reflexivity.
Defined.

(** A transmit descriptor made for a buffer lies inside the buffer's frame
    and covers exactly the header followed by the packet; wrapping that
    descriptor as a received frame, past the header, gives a valid buffer with
    the same packet. *)
Theorem tx_rx_descriptor_roundtrip (u : Umem) (b : XdpPacketBufInner) (header : list Z) (i : Z)
    (rx : XdpBufCtx) (pool pool' : Pool) :
  um_ok u → inner_ok (um_backing u) b → 0 ≤ i < um_frame_count u →
  bi_storage b = Some (UmemFrame (frame_offset u i)) →
  bc_reclaim (bi_ctx b) = UmemCtx pool (um_frame_size u) → um_frame_size u ≤ U32_MAX →
  bc_reclaim rx = UmemCtx pool' (um_frame_size u) → 0 ≤ l2_headroom (bc_layout rx) ≤ bi_start b →
  len header ≤ bi_start b → 0 < len header + buf_len b →
  ∃ mem' addr n rb,
    prepare_tx_frame_with_header (um_backing u) b header = Ret (mem', b, Some (mkTxFrame addr n)) ∧
    let u' := mkUmem mem' (um_frame_size u) (um_frame_count u) in
    um_ok u' ∧ slice_at u' addr n = Ret (header ++ packet_bytes (um_backing u) b) ∧
    wrap_rx_frame (Some u') rx addr (len header) (buf_len b) = Some rb ∧
    inner_ok mem' rb ∧ as_slice mem' rb = Ret (packet_bytes (um_backing u) b).
Proof.
  intros Hu Hb Hi Hst Hrc Hfs32 Hrx Hl2 Hhdr Hpos. set (fs := um_frame_size u) in *.
  assert (Hcap : bi_capacity b = fs) by (unfold bi_capacity; by rewrite Hst, Hrc).
  destruct (prepare_tx_frame_ok (um_backing u) b header (frame_offset u i))
    as (mem' & Hp & Hb' & [Hlm _] & Hpkt & Hwin); try done.
  { rewrite Hcap. unfold U32_MAX in Hfs32. lia. }
  unfold frame_offset in *. fold fs in Hp, Hwin, Hst.
  set (addr := i * fs + bi_start b - len header) in *. set (n := len header + buf_len b) in *.
  pose proof (len_nonneg header). pose proof (io_l2 _ _ Hb). pose proof (io_packet _ _ Hb).
  pose proof (io_end _ _ Hb) as Hend. rewrite Hcap in Hend.
  assert (Hu' : um_ok (mkUmem mem' fs (um_frame_count u))).
  { destruct Hu as (? & ? & ?). split_and!; try done; unfold umem_len in *; cbn; rewrite Hlm; lia. }
  pose proof (um_frame_pos u Hu) as Hfpos. fold fs in Hfpos.
  assert (Ha0 : 0 ≤ i * fs) by nia.
  destruct (validated_range_in (mkUmem mem' fs (um_frame_count u)) i addr n Hu')
    as (Hq & Hv & Hin); cbn [um_frame_size um_frame_count um_backing] in *;
    [done|unfold addr, n, buf_len in *; lia..|].
  assert (Hmod : addr - addr mod fs = i * fs).
  { pose proof (Z.div_mod addr fs ltac:(lia)). rewrite Hq in *. lia. }
  eexists mem', addr, n, (from_storage (UmemFrame (i * fs)) rx (bi_start b) (bi_start b + buf_len b)).
  cbn zeta. split_and!; try done.
  - unfold slice_at. rewrite Hv. cbn. rewrite slice_window by (unfold addr, n, buf_len in *; lia).
    by rewrite Hwin.
  - unfold wrap_rx_frame. cbn [mbind option_bind um_frame_size]. rewrite Hmod.
    assert (Hcf : contains_frame_addr (mkUmem mem' fs (um_frame_count u)) (i * fs) = true).
    { unfold contains_frame_addr. rewrite frame_addr_for_desc_eq by done. cbn.
      rewrite Z.div_mul by lia. destruct (Z.ltb_spec i (um_frame_count u)); [|lia]. by rewrite Z.eqb_refl. }
    rewrite Hcf. cbn [negb]. replace (addr - i * fs) with (bi_start b - len header) by (unfold addr; lia).
    assert (fs < 2 ^ 64) by (unfold U32_MAX in Hfs32; lia).
    unfold checked_add. replace (bi_start b - len header + len header) with (bi_start b) by lia.
    destruct (Z.ltb_spec (bi_start b) (2 ^ 64)); [|lia]. cbn [mbind option_bind].
    destruct (Z.ltb_spec (bi_start b) (l2_headroom (bc_layout rx))); [lia|].
    unfold buf_len in *. destruct (Z.ltb_spec (bi_start b + (bi_end b - bi_start b)) (2 ^ 64)); [|lia].
    cbn [mbind option_bind]. destruct (Z.ltb_spec fs (bi_start b + (bi_end b - bi_start b))); [lia|done].
  - pose proof (io_storage _ _ Hb') as Hio. rewrite Hst, Hrc in Hio.
    constructor; cbn; rewrite ?Hrx; unfold bi_capacity, buf_len in *; cbn; rewrite ?Hrx; lia.
  - assert (Hrb : inner_ok mem' (from_storage (UmemFrame (i * fs)) rx (bi_start b) (bi_start b + buf_len b))).
    { pose proof (io_storage _ _ Hb') as Hio. rewrite Hst, Hrc in Hio.
      constructor; cbn; rewrite ?Hrx; unfold bi_capacity, buf_len in *; cbn; rewrite ?Hrx; lia. }
    rewrite as_slice_ok by done. f_equal. rewrite <- Hpkt. unfold packet_bytes, frame_bytes, buf_len. cbn.
    rewrite Hst. unfold bi_capacity. cbn. rewrite Hst, Hrx, Hrc. f_equal. lia.
Qed.

Lemma tx_rx_descriptor_roundtrip_witness :
  ∃ mem' addr n rb,
    prepare_tx_frame_with_header (replicate 32 7) (with_bounds (tiny_buf 16) 4 6) [1; 2]
      = Ret (mem', with_bounds (tiny_buf 16) 4 6, Some (mkTxFrame addr n)) ∧
    slice_at (mkUmem mem' 8 4) addr n = Ret [1; 2; 7; 7] ∧
    wrap_rx_frame (Some (mkUmem mem' 8 4)) tiny_ctx addr 2 2 = Some rb.
Proof.
  destruct (tx_rx_descriptor_roundtrip (mkUmem (replicate 32 7) 8 4) (with_bounds (tiny_buf 16) 4 6)
    [1; 2] 2 tiny_ctx TxPool TxPool) as (mem' & addr & n & rb & Hp & _ & Hs & Hw & _).
  - split_and!; vm_compute; congruence.
  - constructor; cbn; unfold len; cbn; lia.
  - cbn. lia.
  - reflexivity.
  - reflexivity.
  - vm_compute. discriminate.
  - reflexivity.
  - cbn. lia.
  - vm_compute. discriminate.
  - vm_compute. reflexivity.
  - exists mem', addr, n, rb. split; [exact Hp|]. split; [exact Hs|exact Hw].
Defined.
