(* ===== verification/Wire.v ===== *)
(** * Wire formats: [egress.rs] and the packet code of [socket.rs]

    Ethernet, VLAN, IPv4, IPv6 and UDP headers as byte lists: the parsers of
    the receive path, the header writers of the transmit path, the Internet
    checksum and its incremental update. Indexing is checked, as in the
    source: out of range it panics. *)
From stdpp Require Import sorting.
From S2P Require Import Prelude Bits Core.
Open Scope Z_scope.

(** ** Bytes *)
Definition bytes_ok (l : list Z) : Prop := Forall (fits 8) l.

(** [x.to_be_bytes()] of a [u16]. *)
Definition to_be16 (x : Z) : list Z := [Z.shiftr x 8; Z.land x 255].
(** [u16::from_be_bytes([hi, lo])]. *)
Definition from_be16 (hi lo : Z) : Z := 256 * hi + lo.

(** [Ipv4Addr::new] and [octets]: an address is a [u32]. *)
Definition ipv4_new (a b c d : Z) : Z := 16777216 * a + 65536 * b + 256 * c + d.
Definition ipv4_octets (x : Z) : list Z :=
  [Z.land (Z.shiftr x 24) 255; Z.land (Z.shiftr x 16) 255; Z.land (Z.shiftr x 8) 255; Z.land x 255].

(** [read_be_u16] and [write_be_u16]. *)
Definition read_be_u16 (bytes : list Z) (offset : Z) : outcome Z :=
  hi ← index bytes offset;
  lo ← index bytes (offset + 1);
  Ret (from_be16 hi lo).

Definition write_be_u16 (bytes : list Z) (offset v : Z) : outcome (list Z) :=
  bytes ← set_index bytes offset (Z.shiftr v 8);
  set_index bytes (offset + 1) (Z.land v 255).

(** [header[a..b].copy_from_slice(src)]: panics when the range is outside the
    header or the lengths differ. *)
Definition copy_from_slice {A} (l : list A) (start stop : Z) (src : list A) : outcome (list A) :=
  if (0 <=? start) && (start <=? stop) && (stop <=? len l) && (len src =? stop - start) then
    Ret (write_at l start src)
  else Panic.

(** The checked slice [&l[start..stop]]. *)
Definition slice_or_panic {A} (l : list A) (start stop : Z) : outcome (list A) :=
  match slice l start stop with
  | Some s => Ret s
  | None => Panic
  end.

Definition IPV4_MIN_HEADER_LEN : Z := 20.
Definition IPV6_HEADER_LEN : Z := 40.
Definition IPV4_FRAGMENT_MASK : Z := 16383.
Definition IPV6_NEXT_HEADER_FRAGMENT : Z := 44.
Definition UDP_HEADER_LEN : Z := 8.
Definition UDP_PROTOCOL : Z := 17.
Definition ETHERTYPE_IPV4 : Z := 2048.
Definition ETHERTYPE_IPV6 : Z := 34525.
Definition ETHERNET_HEADER_LEN : Z := 14.
Definition VLAN_HEADER_LEN : Z := 18.
Definition VLAN_ETHERTYPE : Z := 33024.

(** ** ECN *)
Definition ecn_bits (ecn : option EcnCodepoint) : Z :=
  match ecn with
  | Some Ect0 => 2
  | Some Ect1 => 1
  | Some Ce => 3
  | Some NotEct | None => 0
  end.

Definition ecn_from_bits (bits : Z) : outcome (option EcnCodepoint) :=
  match Z.land bits 3 with
  | 0 => Ret (Some NotEct)
  | 1 => Ret (Some Ect1)
  | 2 => Ret (Some Ect0)
  | 3 => Ret (Some Ce)
  | _ => Panic
  end.

(** ** The Internet checksum *)
Fixpoint sum_chunks (l : list Z) : Z :=
  match l with
  | hi :: lo :: l => from_be16 hi lo + sum_chunks l
  | _ => 0
  end.

(** [while (sum >> 16) != 0 { sum = (sum & 0xffff) + (sum >> 16); }] *)
Fixpoint fold_carries (fuel : nat) (sum : Z) : outcome Z :=
  if negb (Z.shiftr sum 16 =? 0) then
    match fuel with
    | O => Diverge
    | S fuel => fold_carries fuel (Z.land sum 65535 + Z.shiftr sum 16)
    end
  else Ret sum.

Definition ipv4_header_checksum (header : list Z) : outcome Z :=
  assert! len header mod 2 =? 0;
  sum ← fold_carries 3 (sum_chunks header);
  Ret (bnot 16 (u16 sum)).

Definition ipv4_checksum_replace_word (checksum old new : Z) : Z :=
  let sum := bnot 16 checksum + bnot 16 old + new in
  let sum := Z.land sum 65535 + Z.shiftr sum 16 in
  bnot 16 (u16 sum).

(** ** IPv4/UDP headers *)
Record Ipv4UdpHeaderFields := mkFields {
  hf_source_port : Z;
  hf_destination_port : Z;
  hf_source : Z;
  hf_destination : Z;
  hf_total_len : Z;
  hf_udp_len : Z;
  hf_ttl : Z;
  hf_ecn : option EcnCodepoint;
}.

Definition write_ipv4_udp_headers (headers : list Z) (f : Ipv4UdpHeaderFields) : outcome (list Z) :=
  h ← set_index headers 0 69;
  h ← set_index h 1 (ecn_bits (hf_ecn f));
  h ← copy_from_slice h 2 4 (to_be16 (hf_total_len f));
  h ← copy_from_slice h 6 8 (to_be16 0);
  h ← set_index h 8 (hf_ttl f);
  h ← set_index h 9 UDP_PROTOCOL;
  h ← copy_from_slice h 12 16 (ipv4_octets (hf_source f));
  h ← copy_from_slice h 16 20 (ipv4_octets (hf_destination f));
  ip ← slice_or_panic h 0 IPV4_MIN_HEADER_LEN;
  checksum ← ipv4_header_checksum ip;
  h ← copy_from_slice h 10 12 (to_be16 checksum);
  h ← copy_from_slice h 20 22 (to_be16 (hf_source_port f));
  h ← copy_from_slice h 22 24 (to_be16 (hf_destination_port f));
  h ← copy_from_slice h 24 26 (to_be16 (hf_udp_len f));
  copy_from_slice h 26 28 (to_be16 0).

Inductive UdpParse (T : Type) :=
  | Udp (t : T)
  | Fragment
  | Drop.
Arguments Udp {T} t.
Arguments Fragment {T}.
Arguments Drop {T}.

Record ParsedIpv4Udp := mkParsedUdp {
  pu_source : Z;
  pu_destination : Z;
  pu_source_port : Z;
  pu_destination_port : Z;
  pu_ip_len : Z;
  pu_payload_offset : Z;
  pu_payload_len : Z;
  pu_ecn : option EcnCodepoint;
}.

Definition parse_ipv4_udp_datagram (packet : list Z) : outcome (UdpParse ParsedIpv4Udp) :=
  if len packet <? IPV4_MIN_HEADER_LEN then Ret Drop
  else
    b0 ← index packet 0;
    if negb (Z.shiftr b0 4 =? 4) then Ret Drop
    else
      let ihl := Z.land b0 15 * 4 in
      if (ihl <? IPV4_MIN_HEADER_LEN) || (len packet <? ihl) then Ret Drop
      else
        total_len ← read_be_u16 packet 2;
        if (total_len <? ihl) || (len packet <? total_len) then Ret Drop
        else
          fragment ← read_be_u16 packet 6;
          if negb (Z.land fragment IPV4_FRAGMENT_MASK =? 0) then Ret Fragment
          else
            proto ← index packet 9;
            if negb (proto =? UDP_PROTOCOL) || (total_len <? ihl + UDP_HEADER_LEN) then Ret Drop
            else
              udp ← slice_or_panic packet ihl (ihl + UDP_HEADER_LEN);
              udp_len ← read_be_u16 udp 4;
              if (udp_len <? UDP_HEADER_LEN) || (total_len <? ihl + udp_len) then Ret Drop
              else
                s0 ← index packet 12; s1 ← index packet 13; s2 ← index packet 14; s3 ← index packet 15;
                d0 ← index packet 16; d1 ← index packet 17; d2 ← index packet 18; d3 ← index packet 19;
                sp ← read_be_u16 udp 0;
                dp ← read_be_u16 udp 2;
                b1 ← index packet 1;
                ecn ← ecn_from_bits (Z.land b1 3);
                Ret (Udp (mkParsedUdp (ipv4_new s0 s1 s2 s3) (ipv4_new d0 d1 d2 d3) sp dp total_len
                            (ihl + UDP_HEADER_LEN) (udp_len - UDP_HEADER_LEN) ecn)).

(** The L2 prelude shared by both frame parsers: header length and
    ethertype, [None] for a truncated frame. *)
Definition parse_l2 (frame : list Z) : outcome (option (Z * Z)) :=
  if len frame <? ETHERNET_HEADER_LEN then Ret None
  else
    ethertype ← read_be_u16 frame 12;
    if ethertype =? VLAN_ETHERTYPE then
      if len frame <? VLAN_HEADER_LEN then Ret None
      else ethertype ← read_be_u16 frame 16; Ret (Some (VLAN_HEADER_LEN, ethertype))
    else Ret (Some (ETHERNET_HEADER_LEN, ethertype)).

Definition parse_ethernet_ipv4_udp (frame : list Z) : outcome (UdpParse ParsedIpv4Udp) :=
  l2 ← parse_l2 frame;
  match l2 with
  | None => Ret Drop
  | Some (l2_len, ethertype) =>
    if negb (ethertype =? ETHERTYPE_IPV4) then Ret Drop
    else
      packet ← slice_or_panic frame l2_len (len frame);
      r ← parse_ipv4_udp_datagram packet;
      Ret match r with
          | Udp p => Udp (mkParsedUdp (pu_source p) (pu_destination p) (pu_source_port p)
                            (pu_destination_port p) (pu_ip_len p) (l2_len + pu_payload_offset p)
                            (pu_payload_len p) (pu_ecn p))
          | Fragment => Fragment
          | Drop => Drop
          end
  end.

(** ** IP datagrams *)
Record ParsedIp := mkParsedIp {
  pi_version : IpVersion;
  pi_len : Z;
  pi_is_fragment : bool;
}.
Record ParsedEthernet := mkParsedEthernet {
  pe_l2_len : Z;
  pe_ip : ParsedIp;
}.

Definition parse_ipv4_datagram (packet : list Z) : outcome (option ParsedIp) :=
  if len packet <? IPV4_MIN_HEADER_LEN then Ret None
  else
    b0 ← index packet 0;
    let ihl := Z.land b0 15 * 4 in
    if (ihl <? IPV4_MIN_HEADER_LEN) || (len packet <? ihl) then Ret None
    else
      total_len ← read_be_u16 packet 2;
      if (total_len <? ihl) || (len packet <? total_len) then Ret None
      else
        fragment ← read_be_u16 packet 6;
        Ret (Some (mkParsedIp V4 total_len (negb (Z.land fragment IPV4_FRAGMENT_MASK =? 0)))).

(** The [loop] over IPv6 extension headers. *)
Fixpoint fragment_loop (fuel : nat) (packet : list Z) (next offset : Z) : outcome bool :=
  match fuel with
  | O => Diverge
  | S fuel =>
    let step extension_len_of :=
      if len packet <? offset + 2 then Ret false
      else
        next ← index packet offset;
        n ← index packet (offset + 1);
        let offset := saturating_add 64 offset (extension_len_of n) in
        if len packet <? offset then Ret false
        else fragment_loop fuel packet next offset in
    if next =? IPV6_NEXT_HEADER_FRAGMENT then Ret true
    else if (next =? 0) || (next =? 43) || (next =? 60) then step (λ n, (n + 1) * 8)
    else if next =? 51 then step (λ n, (n + 2) * 4)
    else Ret false
  end.

Definition has_ipv6_fragment_header (packet : list Z) : outcome bool :=
  next ← index packet 6;
  fragment_loop (S (length packet)) packet next IPV6_HEADER_LEN.

Definition parse_ipv6_datagram (packet : list Z) : outcome (option ParsedIp) :=
  if len packet <? IPV6_HEADER_LEN then Ret None
  else
    payload_len ← read_be_u16 packet 4;
    match checked_add 64 IPV6_HEADER_LEN payload_len with
    | None => Ret None
    | Some total_len =>
      if len packet <? total_len then Ret None
      else
        p ← slice_or_panic packet 0 total_len;
        f ← has_ipv6_fragment_header p;
        Ret (Some (mkParsedIp V6 total_len f))
    end.

Definition parse_ip_datagram (packet : list Z) : outcome (option ParsedIp) :=
  match packet with
  | [] => Ret None
  | b :: _ =>
    if Z.shiftr b 4 =? 4 then parse_ipv4_datagram packet
    else if Z.shiftr b 4 =? 6 then parse_ipv6_datagram packet
    else Ret None
  end.

Definition parse_ethernet_frame (frame : list Z) : outcome (option ParsedEthernet) :=
  l2 ← parse_l2 frame;
  match l2 with
  | None => Ret None
  | Some (l2_len, ethertype) =>
    if negb (ethertype =? ETHERTYPE_IPV4) && negb (ethertype =? ETHERTYPE_IPV6) then Ret None
    else
      packet ← slice_or_panic frame l2_len (len frame);
      ip ← parse_ip_datagram packet;
      Ret (option_map (mkParsedEthernet l2_len) ip)
  end.

Definition valid_tx_datagram (packet : list Z) (ethertype : Z) : outcome bool :=
  parsed ← parse_ip_datagram packet;
  match parsed with
  | None => Ret false
  | Some p =>
    if negb (pi_len p =? len packet) then Ret false
    else
      Ret (if (ethertype =? ETHERTYPE_IPV4) && bool_decide (pi_version p = V4) then negb (pi_is_fragment p)
           else if (ethertype =? ETHERTYPE_IPV6) && bool_decide (pi_version p = V6) then negb (pi_is_fragment p)
           else false)
  end.

(** ** Ethernet egress *)
Record XdpEgress := mkEgress {
  eg_ifindex : Z;
  eg_queue : Z;
  eg_dst_mac : list Z;
  eg_src_mac : list Z;
  eg_ethertype : Z;
  eg_vlan : option Z;
  eg_mtu : Z;
}.

Definition egress_ipv4 (ifindex queue : Z) (dst_mac src_mac : list Z) (mtu : Z) : XdpEgress :=
  mkEgress ifindex queue dst_mac src_mac ETHERTYPE_IPV4 None mtu.
Definition with_vlan (e : XdpEgress) (vlan : Z) : XdpEgress :=
  mkEgress (eg_ifindex e) (eg_queue e) (eg_dst_mac e) (eg_src_mac e) (eg_ethertype e) (Some vlan) (eg_mtu e).
Definition without_vlan (e : XdpEgress) : XdpEgress :=
  mkEgress (eg_ifindex e) (eg_queue e) (eg_dst_mac e) (eg_src_mac e) (eg_ethertype e) None (eg_mtu e).

Definition ethernet_header_len (e : XdpEgress) : Z :=
  if eg_vlan e is Some _ then VLAN_HEADER_LEN else ETHERNET_HEADER_LEN.

Definition write_ethernet_header (header : list Z) (e : XdpEgress) : outcome (list Z) :=
  assert! len header =? ethernet_header_len e;
  h ← copy_from_slice header 0 6 (eg_dst_mac e);
  h ← copy_from_slice h 6 12 (eg_src_mac e);
  match eg_vlan e with
  | Some vlan =>
    h ← copy_from_slice h 12 14 (to_be16 VLAN_ETHERTYPE);
    h ← copy_from_slice h 14 16 (to_be16 vlan);
    copy_from_slice h 16 18 (to_be16 (eg_ethertype e))
  | None => copy_from_slice h 12 14 (to_be16 (eg_ethertype e))
  end.

(** [build_ethernet_header]: an 18-byte buffer of which the first [l2_len]
    bytes are written. *)
Definition build_ethernet_header (e : XdpEgress) : outcome (list Z * Z) :=
  let l2_len := ethernet_header_len e in
  let header := replicate (Z.to_nat VLAN_HEADER_LEN) 0 in
  prefix ← slice_or_panic header 0 l2_len;
  prefix ← write_ethernet_header prefix e;
  Ret (write_at header 0 prefix, l2_len).

Record XdpResolvedEgress := mkResolved {
  re_egress : XdpEgress;
  re_l2_header : list Z;
  re_l2_len : Z;
}.
Definition from_egress (e : XdpEgress) : outcome XdpResolvedEgress :=
  '(h, l) ← build_ethernet_header e; Ret (mkResolved e h l).
Definition resolved_l2_header (r : XdpResolvedEgress) : outcome (list Z) :=
  slice_or_panic (re_l2_header r) 0 (re_l2_len r).

Inductive ResolvedL2 :=
  | Borrowed (l2_header : list Z) (ip_mtu : Z)
  | Inline (l2_header : list Z) (l2_len : Z) (ip_mtu : Z).
Definition l2_header (r : ResolvedL2) : outcome (list Z) :=
  match r with
  | Borrowed h _ => Ret h
  | Inline h l _ => slice_or_panic h 0 l
  end.
Definition ip_mtu (r : ResolvedL2) : Z :=
  match r with
  | Borrowed _ m | Inline _ _ m => m
  end.

(** ** Cached endpoint headers *)
Record XdpUdpEndpointCache := mkCache {
  ec_route_generation : Z;
  ec_header : list Z;
  ec_l2_len : Z;
}.

Definition validate_xdp_udp_endpoint_payload (info : UdpEndpointInfo) (payload_len : Z) :
    result unit Error :=
  if match ei_payload_len info with Some expected => negb (payload_len =? expected) | None => false end
  then Err InvalidPacket
  else if ei_mtu info <? payload_len then Err OversizeForMtu
  else if U16_MAX - IPV4_MIN_HEADER_LEN - UDP_HEADER_LEN <? payload_len then Err OversizeForMtu
  else Ok tt.

Definition patch_xdp_udp_endpoint_header_lengths (header : list Z) (l2_len payload_len : Z) :
    outcome (result (list Z) Error) :=
  let udp_len := payload_len + UDP_HEADER_LEN in
  let total_len := udp_len + IPV4_MIN_HEADER_LEN in
  if U16_MAX <? total_len then Ret (Err OversizeForMtu)
  else
    let ip_start := l2_len in
    old_total_len ← read_be_u16 header (ip_start + 2);
    old_checksum ← read_be_u16 header (ip_start + 10);
    let total_len := u16 total_len in
    let checksum := ipv4_checksum_replace_word old_checksum old_total_len total_len in
    header ← write_be_u16 header (ip_start + 2) total_len;
    header ← write_be_u16 header (ip_start + 10) checksum;
    header ← write_be_u16 header (ip_start + 24) (u16 udp_len);
    Ret (Ok header).

Definition update_xdp_udp_endpoint_header (cache : XdpUdpEndpointCache) (info : UdpEndpointInfo)
    (payload_len : Z) : outcome (result XdpUdpEndpointCache Error) :=
  match validate_xdp_udp_endpoint_payload info payload_len with
  | Err e => Ret (Err e)
  | Ok _ =>
    match ei_payload_len info with
    | Some _ => Ret (Ok cache)
    | None =>
      r ← patch_xdp_udp_endpoint_header_lengths (ec_header cache) (ec_l2_len cache) payload_len;
      Ret (header <-? r;
           Ok (mkCache (ec_route_generation cache) header (ec_l2_len cache)))
    end
  end.

(** ** Accepted UDP ports *)
Inductive XdpUdpAcceptedPorts :=
  | Single (port : Z)
  | Ports (ports : list Z)
  | Range (start stop : Z).

(** [ports.dedup()]: consecutive repetitions are removed. *)
Fixpoint dedup (l : list Z) : list Z :=
  match l with
  | [] => []
  | x :: l =>
    match dedup l with
    | y :: r => if x =? y then y :: r else x :: y :: r
    | [] => [x]
    end
  end.

Definition accepted_ports (ports : list Z) : outcome XdpUdpAcceptedPorts :=
  assert! negb (len ports =? 0);
  Ret (Ports (dedup (merge_sort Z.le ports))).

Definition accepted_range (start stop : Z) : outcome XdpUdpAcceptedPorts :=
  assert! start <=? stop;
  Ret (Range start stop).

(** [slice::binary_search] on [l[lo..hi]]. *)
Fixpoint binary_search (fuel : nat) (l : list Z) (lo hi x : Z) : outcome bool :=
  if lo <? hi then
    match fuel with
    | O => Diverge
    | S fuel =>
      let mid := lo + (hi - lo) / 2 in
      y ← index l mid;
      if y =? x then Ret true
      else if y <? x then binary_search fuel l (mid + 1) hi x
      else binary_search fuel l lo mid x
    end
  else Ret false.

Definition accepts (a : XdpUdpAcceptedPorts) (port : Z) : outcome bool :=
  match a with
  | Single accepted => Ret (port =? accepted)
  | Ports ports => binary_search (length ports) ports 0 (len ports) port
  | Range start stop => Ret ((start <=? port) && (port <=? stop))
  end.

(** The receive filter of [recv_udp_inner]: the socket's address or the
    wildcard, and an accepted port. *)
Definition IPV4_UNSPECIFIED : Z := 0.
Definition udp_accepts (local_ip : Z) (a : XdpUdpAcceptedPorts) (p : ParsedIpv4Udp) : outcome bool :=
  let dest_matches := (local_ip =? IPV4_UNSPECIFIED) || (pu_destination p =? local_ip) in
  if negb dest_matches then Ret false else accepts a (pu_destination_port p).
