(* ===== verification/WireProofs.v ===== *)
(** * Lemmas on the wire formats

    Byte and checksum arithmetic, the bytes the header writers produce, and
    the totality of the parsers. *)
From S2P Require Import Prelude Bits Core Wire.
From Stdlib Require Import Zify.
Open Scope Z_scope.

#[local] Ltac Zify.zify_post_hook ::= Z.div_mod_to_equations.

(** ** Bytes *)
Lemma shiftr8 x : Z.shiftr x 8 = x / 256.
Proof. rewrite Z.shiftr_div_pow2 by lia. done. Qed.

Lemma land255 x : Z.land x 255 = x mod 256.
Proof. change 255 with (Z.ones 8). rewrite Z.land_ones by lia. done. Qed.

Lemma be16_roundtrip x : from_be16 (Z.shiftr x 8) (Z.land x 255) = x.
Proof. unfold from_be16. rewrite shiftr8, land255. lia. Qed.

Lemma be16_bytes x : fits 16 x → fits 8 (Z.shiftr x 8) ∧ fits 8 (Z.land x 255).
Proof. unfold fits. rewrite shiftr8, land255. lia. Qed.

Lemma be16_back hi lo : fits 8 lo →
  Z.shiftr (from_be16 hi lo) 8 = hi ∧ Z.land (from_be16 hi lo) 255 = lo.
Proof. unfold fits, from_be16. rewrite shiftr8, land255. lia. Qed.

Lemma ipv4_octets_div x :
  ipv4_octets x = [(x / 16777216) mod 256; (x / 65536) mod 256; (x / 256) mod 256; x mod 256].
Proof.
  unfold ipv4_octets. rewrite !land255, !Z.shiftr_div_pow2 by lia. done.
Qed.

Lemma ipv4_roundtrip x : fits 32 x →
  ipv4_new ((x / 16777216) mod 256) ((x / 65536) mod 256) ((x / 256) mod 256) (x mod 256) = x.
Proof. unfold fits, ipv4_new. lia. Qed.

(** ** The one's-complement sum *)

(** The canonical 16-bit representative of a sum modulo 65535. *)
Definition fold16 (x : Z) : Z := if x =? 0 then 0 else (x - 1) mod 65535 + 1.

Lemma shiftr16 x : Z.shiftr x 16 = x / 65536.
Proof. rewrite Z.shiftr_div_pow2 by lia. done. Qed.

Lemma land65535 x : Z.land x 65535 = x mod 65536.
Proof. change 65535 with (Z.ones 16). rewrite Z.land_ones by lia. done. Qed.

Lemma fold_carries_ok x : 0 ≤ x < 2 ^ 32 → fold_carries 3 x = Ret (fold16 x).
Proof.
  intros Hx. unfold fold16.
  assert (Hdone : ∀ fuel y, 0 ≤ y < 65536 → fold_carries fuel y = Ret y).
  { intros fuel y Hy. destruct fuel; cbn [fold_carries]; rewrite shiftr16;
      destruct (Z.eqb_spec (y / 65536) 0); cbn [negb]; [done|lia|done|lia]. }
  assert (Hstep : ∀ fuel y, 65536 ≤ y → fold_carries (S fuel) y = fold_carries fuel (y mod 65536 + y / 65536)).
  { intros fuel y Hy. cbn [fold_carries]. rewrite shiftr16, land65535.
    destruct (Z.eqb_spec (y / 65536) 0); cbn [negb]; [lia|done]. }
  destruct (decide (x < 65536)).
  { rewrite Hdone by lia. f_equal. destruct (Z.eqb_spec x 0); lia. }
  destruct (Z.eqb_spec x 0); [lia|].
  rewrite Hstep by lia. set (y := x mod 65536 + x / 65536).
  assert (Hy : 0 < y < 131071 ∧ (y - 1) mod 65535 = (x - 1) mod 65535) by (unfold y; lia).
  clearbody y. destruct (decide (y < 65536)).
  { rewrite Hdone by lia. f_equal. lia. }
  rewrite Hstep by lia. rewrite Hdone by lia. f_equal. lia.
Qed.

Lemma fold16_range x : 0 ≤ x → fits 16 (fold16 x).
Proof. unfold fold16, fits. intros. destruct (Z.eqb_spec x 0); lia. Qed.

(** [ipv4_header_checksum] is the complement of the folded sum. *)
Lemma checksum_ok header :
  len header mod 2 = 0 → 0 ≤ sum_chunks header < 2 ^ 32 →
  ipv4_header_checksum header = Ret (65535 - fold16 (sum_chunks header)).
Proof.
  intros Hl Hs. unfold ipv4_header_checksum. rewrite Hl. cbn [Z.eqb].
  rewrite fold_carries_ok by done. run. f_equal.
  unfold bnot. rewrite wrap_small; [done|]. apply fold16_range; lia.
Qed.

(** A header whose checksum word is the complement of its folded sum
    verifies, whatever the position of the word. *)
Lemma checksum_verifies w c :
  0 < w < 2 ^ 31 → c = 65535 - fold16 w → fold16 (w + c) = 65535.
Proof. intros Hw ->. unfold fold16. destruct (Z.eqb_spec w 0); [lia|]. case_bool; lia. Qed.

(** The incremental update equals recomputation, except for one sum. *)
Lemma replace_word_ok w old new :
  0 < w < 2 ^ 31 → fits 16 old → fits 16 new → old ≤ w → 0 < w - old + new →
  fold16 w + (65535 - old) + new ≠ 131071 →
  ipv4_checksum_replace_word (65535 - fold16 w) old new = 65535 - fold16 (w - old + new).
Proof.
  intros Hw Ho Hn Hle Hpos Hne. unfold ipv4_checksum_replace_word, bnot, fits in *.
  change (2 ^ 16 - 1) with 65535. change (2 ^ 16) with 65536 in *.
  assert (Hf : 1 ≤ fold16 w ≤ 65535 ∧ ∃ q, w = fold16 w + 65535 * q).
  { unfold fold16. destruct (Z.eqb_spec w 0); [lia|]. split; [lia|]. exists ((w - 1) / 65535). lia. }
  destruct Hf as [Hf [q Hq]]. set (f := fold16 w) in *. clearbody f.
  replace (65535 - (65535 - f)) with f by lia.
  rewrite land65535, shiftr16. set (s := f + (65535 - old) + new) in *.
  assert (Hs : 0 < s ≤ 196605) by lia.
  set (g := s mod 65536 + s / 65536).
  assert (Hg : 1 ≤ g ≤ 65535 ∧ ∃ k, s = g + 65535 * k).
  { unfold g. split; [lia|]. exists (s / 65536). lia. }
  destruct Hg as [Hg [k Hk]]. clearbody g.
  rewrite wrap_small by (unfold fits; lia). f_equal.
  unfold fold16. destruct (Z.eqb_spec (w - old + new) 0); [lia|].
  replace (w - old + new - 1) with ((g - 1) + (k + q - 1) * 65535) by lia.
  rewrite Z_mod_plus_full, Z.mod_small by lia. lia.
Qed.

(** ** The bytes of an IPv4/UDP header *)
Definition fields_ok (f : Ipv4UdpHeaderFields) : Prop :=
  fits 16 (hf_source_port f) ∧ fits 16 (hf_destination_port f) ∧ fits 32 (hf_source f) ∧
  fits 32 (hf_destination f) ∧ fits 16 (hf_total_len f) ∧ fits 16 (hf_udp_len f) ∧ fits 8 (hf_ttl f).

(** The IPv4 header with checksum word [c], and the UDP header. *)
Definition ip_bytes (f : Ipv4UdpHeaderFields) (c : Z) : list Z :=
  [69; ecn_bits (hf_ecn f)] ++ to_be16 (hf_total_len f) ++ [0; 0; 0; 0; hf_ttl f; 17] ++ to_be16 c
  ++ ipv4_octets (hf_source f) ++ ipv4_octets (hf_destination f).
Definition udp_bytes (f : Ipv4UdpHeaderFields) : list Z :=
  to_be16 (hf_source_port f) ++ to_be16 (hf_destination_port f) ++ to_be16 (hf_udp_len f) ++ [0; 0].

(** The sum of the header words without the checksum and the total length. *)
Definition base_sum (f : Ipv4UdpHeaderFields) : Z :=
  from_be16 69 (ecn_bits (hf_ecn f)) + from_be16 (hf_ttl f) 17 +
  hf_source f / 65536 + hf_source f mod 65536 + hf_destination f / 65536 + hf_destination f mod 65536.

Lemma ecn_bits_range e : 0 ≤ ecn_bits e < 4.
Proof. destruct e as [[]|]; cbn; lia. Qed.

Lemma octet_words x : fits 32 x →
  from_be16 ((x / 16777216) mod 256) ((x / 65536) mod 256) = x / 65536 ∧
  from_be16 ((x / 256) mod 256) (x mod 256) = x mod 65536.
Proof. unfold fits, from_be16. lia. Qed.

Lemma ip_sum f c : fields_ok f →
  sum_chunks (ip_bytes f c) = base_sum f + hf_total_len f + c.
Proof.
  intros (_ & _ & Hs & Hd & _ & _ & _). unfold ip_bytes. rewrite !ipv4_octets_div.
  destruct (octet_words _ Hs) as [Hs1 Hs2]. destruct (octet_words _ Hd) as [Hd1 Hd2].
  unfold to_be16. cbn [app sum_chunks]. rewrite !be16_roundtrip, Hs1, Hs2, Hd1, Hd2.
  unfold base_sum. change (from_be16 0 0) with 0. lia.
Qed.

Lemma base_sum_range f : fields_ok f → 17664 ≤ base_sum f < 1000000.
Proof.
  intros (_ & _ & Hs & Hd & _ & _ & Ht). unfold base_sum, from_be16, fits in *.
  pose proof (ecn_bits_range (hf_ecn f)). lia.
Qed.

(** The checksum word of a freshly written header. *)
Definition header_checksum (f : Ipv4UdpHeaderFields) : Z :=
  65535 - fold16 (base_sum f + hf_total_len f).

Lemma ip_bytes_checksum f c : fields_ok f → fits 16 c →
  ipv4_header_checksum (ip_bytes f c) = Ret (65535 - fold16 (base_sum f + hf_total_len f + c)).
Proof.
  intros Hf Hc. pose proof (base_sum_range f Hf) as Hb. pose proof (ip_sum f c Hf) as Hs.
  destruct Hf as (_ & _ & _ & _ & Ht & _). unfold fits in *.
  rewrite checksum_ok; [by rewrite Hs|reflexivity|lia].
Qed.

Lemma write_headers_ok f : fields_ok f →
  write_ipv4_udp_headers (replicate 28 0) f = Ret (ip_bytes f (header_checksum f) ++ udp_bytes f).
Proof.
  intros Hf. pose proof (ip_bytes_checksum f 0 Hf ltac:(done)) as Hc.
  rewrite Z.add_0_r in Hc. fold (header_checksum f) in Hc.
  cbv -[Z.shiftr Z.land ipv4_header_checksum ecn_bits hf_ecn hf_total_len hf_ttl hf_source hf_destination
    hf_source_port hf_destination_port hf_udp_len header_checksum].
  match goal with |- context [ipv4_header_checksum ?l] =>
    replace (ipv4_header_checksum l) with (Ret (header_checksum f)) by exact (eq_sym Hc) end.
  reflexivity.
Qed.

(** ** Parsing written headers *)
Lemma ecn_roundtrip e : ecn_from_bits (Z.land (ecn_bits e) 3) = Ret (Some (default NotEct e)).
Proof. by destruct e as [[]|]. Qed.

#[local] Ltac head_index t :=
  lazymatch t with
  | mbind _ ?m => head_index m
  | index ?l ?k => constr:((l, k))
  end.
#[local] Ltac step_index :=
  lazymatch goal with
  | |- ?t = _ =>
    let p := head_index t in
    let l := eval cbn [fst] in (fst p) in
    let k := eval cbn [snd] in (snd p) in
    let r := eval cbv -[Z.shiftr Z.land ecn_bits hf_ecn hf_total_len hf_ttl hf_source hf_destination
      hf_source_port hf_destination_port hf_udp_len] in (index l k) in
    change (index l k) with r
  end; run.

#[local] Ltac no_branch :=
  match goal with
  | |- context [if ?b then _ else _] =>
    let H := fresh in assert (H : b = false) by (case_bool; try reflexivity; lia); rewrite H; clear H
  end.

Definition header (f : Ipv4UdpHeaderFields) (c : Z) : list Z := ip_bytes f c ++ udp_bytes f.

(** A header followed by at least its payload parses to its fields; bytes
    beyond the total length (Ethernet padding) are ignored. *)
Lemma parse_written f c t :
  fields_ok f → 28 ≤ hf_total_len f ≤ 28 + len t → 8 ≤ hf_udp_len f → hf_udp_len f + 20 ≤ hf_total_len f →
  parse_ipv4_udp_datagram (header f c ++ t)
  = Ret (Udp (mkParsedUdp (hf_source f) (hf_destination f) (hf_source_port f) (hf_destination_port f)
                (hf_total_len f) 28 (hf_udp_len f - 8) (Some (default NotEct (hf_ecn f))))).
Proof.
  intros Hf Ht Hu Hut. assert (Hlen : len (header f c ++ t) = 28 + len t) by (rewrite len_app; done).
  pose proof (len_nonneg t). destruct Hf as (Hsp & Hdp & Hs & Hd & Htl & Hul & _).
  unfold parse_ipv4_udp_datagram, read_be_u16. rewrite Hlen.
  unfold IPV4_MIN_HEADER_LEN, UDP_HEADER_LEN, IPV4_FRAGMENT_MASK.
  no_branch. step_index. change (negb (Z.shiftr 69 4 =? 4)) with false. cbv iota.
  change (Z.land 69 15 * 4) with 20. no_branch. do 2 step_index. rewrite be16_roundtrip. no_branch.
  do 2 step_index. change (negb (Z.land (from_be16 0 0) 16383 =? 0)) with false.
  cbv iota. step_index. change (negb (17 =? UDP_PROTOCOL)) with false. cbn [orb]. no_branch.
  assert (Hudp : slice_or_panic (header f c ++ t) 20 (20 + 8) = Ret (udp_bytes f)).
  { unfold slice_or_panic, slice. rewrite Hlen. case_bool; try lia. done. }
  rewrite Hudp. run. do 2 step_index. rewrite be16_roundtrip. no_branch.
  do 13 step_index. rewrite !be16_roundtrip.
  rewrite ecn_roundtrip. run. do 2 f_equal. f_equal.
  - pose proof (ipv4_octets_div (hf_source f)) as E. unfold ipv4_octets in E. injection E as -> -> -> ->.
    by apply ipv4_roundtrip.
  - pose proof (ipv4_octets_div (hf_destination f)) as E. unfold ipv4_octets in E. injection E as -> -> -> ->.
    by apply ipv4_roundtrip.
Qed.

(** ** Totality of the parsers *)
Lemma index_byte l k : bytes_ok l → 0 ≤ k < len l → ∃ b, index l k = Ret b ∧ fits 8 b.
Proof.
  intros Hl Hk. destruct (nthZ_is_Some l k Hk) as [b Hb]. exists b. split; [by apply index_Some|].
  unfold nthZ in Hb. destruct (k <? 0); [done|]. by apply (Forall_lookup_1 _ _ _ _ Hl Hb).
Qed.

Lemma read_be_u16_total l k : bytes_ok l → 0 ≤ k → k + 1 < len l →
  ∃ v, read_be_u16 l k = Ret v ∧ fits 16 v.
Proof.
  intros Hl Hk Hlen. unfold read_be_u16.
  destruct (index_byte l k Hl) as (hi & -> & Hhi); [lia|]. run.
  destruct (index_byte l (k + 1) Hl) as (lo & -> & Hlo); [lia|]. run.
  eexists. split; [done|]. unfold from_be16, fits in *. lia.
Qed.

Lemma slice_total {A} (l : list A) a b : 0 ≤ a ≤ b → b ≤ len l →
  ∃ s, slice_or_panic l a b = Ret s ∧ len s = b - a ∧ ∀ P, Forall P l → Forall P s.
Proof.
  intros Hab Hb. unfold slice_or_panic, slice. case_bool; try lia. cbn [andb]. eexists. split; [done|].
  split; [rewrite len_take, len_drop; lia|]. intros P HP. by apply Forall_take, Forall_drop.
Qed.

Lemma slice_middle {A} (a x c : list A) :
  slice_or_panic (a ++ x ++ c) (len a) (len a + len x) = Ret x.
Proof.
  unfold slice_or_panic, slice. rewrite !len_app. pose proof (len_nonneg a). pose proof (len_nonneg x). pose proof (len_nonneg c).
  case_bool; try lia. cbn [andb]. f_equal. replace (len a + len x - len a) with (len x) by lia.
  unfold len. rewrite !Nat2Z.id, drop_app_length. by apply take_app_length.
Qed.

Lemma slice_suffix {A} (a t : list A) :
  slice_or_panic (a ++ t) (len a) (len (a ++ t)) = Ret t.
Proof.
  unfold slice_or_panic, slice. rewrite len_app. pose proof (len_nonneg a). pose proof (len_nonneg t).
  case_bool; try lia. cbn [andb]. f_equal.
  replace (len a + len t - len a) with (len t) by lia. unfold len. rewrite !Nat2Z.id, drop_app_length.
  by apply take_ge.
Qed.

Lemma ecn_total b : 0 ≤ b → ∃ e, ecn_from_bits (Z.land b 3) = Ret (Some e).
Proof.
  intros. unfold ecn_from_bits. rewrite <-Z.land_assoc. change (Z.land 3 3) with (Z.ones 2).
  rewrite Z.land_ones by lia.
  assert (b mod 2 ^ 2 = 0 ∨ b mod 2 ^ 2 = 1 ∨ b mod 2 ^ 2 = 2 ∨ b mod 2 ^ 2 = 3) as [->|[->|[->| ->]]]
    by (change (2 ^ 2) with 4; lia); eauto.
Qed.

Lemma land15 b : Z.land b 15 = b mod 16.
Proof. change 15 with (Z.ones 4). rewrite Z.land_ones by lia. done. Qed.

(** The ranges a successful parse guarantees to its caller. *)
Definition parsed_in_range (frame_len : Z) (p : ParsedIpv4Udp) : Prop :=
  0 ≤ pu_payload_len p ∧ 28 ≤ pu_payload_offset p ∧
  pu_payload_offset p + pu_payload_len p ≤ frame_len ∧ pu_ip_len p ≤ frame_len ∧
  fits 16 (pu_source_port p) ∧ fits 16 (pu_destination_port p) ∧
  fits 32 (pu_source p) ∧ fits 32 (pu_destination p).

Lemma ipv4_new_range a b c d : fits 8 a → fits 8 b → fits 8 c → fits 8 d → fits 32 (ipv4_new a b c d).
Proof. unfold fits, ipv4_new. lia. Qed.

#[local] Tactic Notation "get" constr(k) :=
  match goal with
  | Hb : bytes_ok ?l |- context [index ?l k] =>
    let v := fresh "v" in let Hv := fresh "Hv" in
    destruct (index_byte l k Hb) as (v & -> & Hv); [lia|]; run
  end.
#[local] Tactic Notation "get16" constr(l) constr(k) :=
  match goal with
  | Hb : bytes_ok l |- _ =>
    let v := fresh "w" in let Hv := fresh "Hw" in
    destruct (read_be_u16_total l k Hb) as (v & -> & Hv); [lia|lia|]; run
  end.

#[local] Ltac fin := eexists; split; [reflexivity|exact I].

Lemma parse_udp_total packet : bytes_ok packet →
  ∃ r, parse_ipv4_udp_datagram packet = Ret r ∧
    match r with Udp p => parsed_in_range (len packet) p | _ => True end.
Proof.
  intros Hb. unfold parse_ipv4_udp_datagram, IPV4_MIN_HEADER_LEN, UDP_HEADER_LEN.
  destruct (Z.ltb_spec (len packet) 20); [fin|]. get 0.
  destruct (negb _); [fin|]. rewrite land15. destruct (_ || _) eqn:E1; [fin|].
  apply orb_false_iff in E1 as [E1 E2]. apply Z.ltb_ge in E1, E2. get16 packet 2.
  destruct (_ || _) eqn:E3; [fin|]. apply orb_false_iff in E3 as [E3 E4]. apply Z.ltb_ge in E3, E4.
  get16 packet 6. destruct (negb _); [fin|]. get 9.
  destruct (_ || _) eqn:E5; [fin|]. apply orb_false_iff in E5 as [_ E5]. apply Z.ltb_ge in E5.
  set (ihl := v mod 16 * 4) in *.
  destruct (slice_total packet ihl (ihl + 8)) as (udp & -> & Hul & Hub); [lia|lia|]. run.
  assert (Hu : bytes_ok udp) by (by apply Hub).
  get16 udp 4. destruct (_ || _) eqn:E6; [fin|]. apply orb_false_iff in E6 as [E6 E7].
  apply Z.ltb_ge in E6, E7. get 12. get 13. get 14. get 15. get 16. get 17. get 18. get 19.
  get16 udp 0. get16 udp 2. get 1.
  match goal with H : fits 8 ?x |- context [ecn_from_bits (Z.land ?x 3)] =>
    destruct (ecn_total x) as [e ->]; [unfold fits in H; lia|] end. run.
  eexists. split; [done|]. unfold parsed_in_range. cbn.
  split_and!; try lia; try done; by apply ipv4_new_range.
Qed.

Lemma parse_l2_total frame : bytes_ok frame →
  ∃ r, parse_l2 frame = Ret r ∧
    match r with Some (l, _) => (l = 14 ∨ l = 18) ∧ l ≤ len frame | None => True end.
Proof.
  intros Hb. unfold parse_l2, ETHERNET_HEADER_LEN, VLAN_HEADER_LEN.
  destruct (Z.ltb_spec (len frame) 14); [fin|]. get16 frame 12.
  destruct (_ =? _); [|eexists; split; [done|]; cbn; lia].
  destruct (Z.ltb_spec (len frame) 18); [fin|]. get16 frame 16. eexists; split; [done|]. cbn. lia.
Qed.

Lemma parse_eth_udp_total frame : bytes_ok frame →
  ∃ r, parse_ethernet_ipv4_udp frame = Ret r ∧
    match r with Udp p => parsed_in_range (len frame) p | _ => True end.
Proof.
  intros Hb. unfold parse_ethernet_ipv4_udp. destruct (parse_l2_total frame Hb) as (r & -> & Hr). run.
  destruct r as [[l et]|]; [|fin]. destruct (negb _); [fin|].
  destruct (slice_total frame l (len frame)) as (p & -> & Hl & Hp); [lia|lia|]. run.
  destruct (parse_udp_total p) as (r & -> & Hpr); [by apply Hp|]. run.
  eexists. split; [done|]. destruct r; try done. unfold parsed_in_range in *. cbn. intuition lia.
Qed.

Lemma fragment_loop_total packet : bytes_ok packet → len packet < 2 ^ 63 → ∀ fuel next offset,
  0 ≤ offset ≤ len packet → len packet - offset < Z.of_nat fuel →
  ∃ b, fragment_loop fuel packet next offset = Ret b.
Proof.
  intros Hb Hlen. induction fuel as [|fuel IH]; intros next offset Ho Hf; [lia|].
  cbn [fragment_loop].
  assert (Hstep : ∀ ext, (∀ n, fits 8 n → 1 ≤ ext n < 2 ^ 62) →
    ∃ b, (if len packet <? offset + 2 then Ret false
      else next ← index packet offset; n ← index packet (offset + 1);
        let offset := saturating_add 64 offset (ext n) in
        if len packet <? offset then Ret false else fragment_loop fuel packet next offset) = Ret b).
  { intros ext Hext. destruct (Z.ltb_spec (len packet) (offset + 2)); [eauto|].
    get offset. get (offset + 1). pose proof (Hext v0 Hv0). unfold saturating_add.
    rewrite Z.min_r by lia. destruct (Z.ltb_spec (len packet) (offset + ext v0)); [eauto|].
    apply IH; lia. }
  destruct (next =? IPV6_NEXT_HEADER_FRAGMENT); [eauto|].
  destruct (_ || _); [apply Hstep; unfold fits; lia|].
  destruct (next =? 51); [apply Hstep; unfold fits; lia|eauto].
Qed.

Lemma parse_ip_total packet : bytes_ok packet → len packet < 2 ^ 63 →
  ∃ r, parse_ip_datagram packet = Ret r ∧
    match r with Some p => 20 ≤ pi_len p ≤ len packet | None => True end.
Proof.
  intros Hb Hlen. unfold parse_ip_datagram. destruct packet as [|b t] eqn:Ep; [fin|]. rewrite <-Ep in *.
  destruct (_ =? 4); [|destruct (_ =? 6); [|fin]].
  - unfold parse_ipv4_datagram, IPV4_MIN_HEADER_LEN. destruct (Z.ltb_spec (len packet) 20); [fin|].
    get 0. rewrite land15. destruct (_ || _) eqn:E1; [fin|].
    apply orb_false_iff in E1 as [E1 E2]. apply Z.ltb_ge in E1, E2. get16 packet 2.
    destruct (_ || _) eqn:E3; [fin|]. apply orb_false_iff in E3 as [E3 E4]. apply Z.ltb_ge in E3, E4.
    get16 packet 6. eexists. split; [done|]. cbn. lia.
  - unfold parse_ipv6_datagram, IPV6_HEADER_LEN. destruct (Z.ltb_spec (len packet) 40); [fin|].
    get16 packet 4. unfold checked_add. unfold fits in *.
    destruct (Z.ltb_spec (40 + w) (2 ^ 64)); [|lia]. destruct (Z.ltb_spec (len packet) (40 + w)); [fin|].
    destruct (slice_total packet 0 (40 + w)) as (p & -> & Hl & Hp);
        [lia|lia|]. run.
    assert (Hpb : bytes_ok p) by (by apply Hp). unfold has_ipv6_fragment_header.
    destruct (index_byte p 6 Hpb) as (nx & -> & _); [lia|]. run.
    destruct (fragment_loop_total p Hpb ltac:(lia) (S (length p)) nx 40) as [bb Hbb];
        [lia|unfold len in *; lia|].
    unfold IPV6_HEADER_LEN. rewrite Hbb. run. eexists. split; [done|]. cbn. lia.
Qed.
