(* ===== verification/WireMain.v ===== *)
(** * Properties of the wire formats *)
From stdpp Require Import sorting.
From S2P Require Import Prelude Bits Core Wire WireProofs.
From Stdlib Require Import Zify.
Open Scope Z_scope.
#[local] Ltac Zify.zify_post_hook ::= Z.div_mod_to_equations.

(** ** Ethernet headers *)
Definition egress_ok (e : XdpEgress) : Prop :=
  length (eg_dst_mac e) = 6%nat ∧ length (eg_src_mac e) = 6%nat.

Definition eth_bytes (e : XdpEgress) : list Z :=
  eg_dst_mac e ++ eg_src_mac e
  ++ match eg_vlan e with Some v => to_be16 VLAN_ETHERTYPE ++ to_be16 v | None => [] end
  ++ to_be16 (eg_ethertype e).

Lemma build_ethernet_header_ok e : egress_ok e →
  ∃ pad, build_ethernet_header e = Ret (eth_bytes e ++ pad, len (eth_bytes e)) ∧
    len (eth_bytes e) = ethernet_header_len e.
Proof.
  intros [Hd Hs]. destruct e as [ifx q dst src et vlan mtu]. cbn in Hd, Hs.
  destruct dst as [|d0 [|d1 [|d2 [|d3 [|d4 [|d5 [|]]]]]]]; try done.
  destruct src as [|s0 [|s1 [|s2 [|s3 [|s4 [|s5 [|]]]]]]]; try done.
  destruct vlan as [v|].
  - exists []. cbv -[Z.shiftr Z.land]. done.
  - exists [0; 0; 0; 0]. cbv -[Z.shiftr Z.land]. done.
Qed.

Lemma parse_l2_eth e t : egress_ok e → eg_ethertype e = ETHERTYPE_IPV4 →
  parse_l2 (eth_bytes e ++ t) = Ret (Some (ethernet_header_len e, ETHERTYPE_IPV4)).
Proof.
  intros [Hd Hs] Het. destruct e as [ifx q dst src et vlan mtu]. cbn in Hd, Hs, Het. subst et.
  destruct dst as [|d0 [|d1 [|d2 [|d3 [|d4 [|d5 [|]]]]]]]; try done.
  destruct src as [|s0 [|s1 [|s2 [|s3 [|s4 [|s5 [|]]]]]]]; try done.
  unfold parse_l2, ETHERNET_HEADER_LEN, VLAN_HEADER_LEN. pose proof (len_nonneg t).
  rewrite len_app. destruct vlan as [v|]; set (l := eth_bytes _).
  - change (len l) with 18.
    change (read_be_u16 (l ++ t) 12) with (@Ret Z VLAN_ETHERTYPE).
    change (read_be_u16 (l ++ t) 16) with (@Ret Z ETHERTYPE_IPV4).
    destruct (Z.ltb_spec (18 + len t) 14); [lia|]. run.
    destruct (Z.ltb_spec (18 + len t) 18); [lia|]. done.
  - change (len l) with 14.
    change (read_be_u16 (l ++ t) 12) with (@Ret Z ETHERTYPE_IPV4).
    destruct (Z.ltb_spec (14 + len t) 14); [lia|]. done.
Qed.

(** A frame of an Ethernet header, written headers and a payload parses back. *)
Lemma frame_parses e f c payload pad :
  egress_ok e → eg_ethertype e = ETHERTYPE_IPV4 → fields_ok f →
  hf_udp_len f = 8 + len payload → hf_total_len f = 28 + len payload →
  parse_ethernet_ipv4_udp (eth_bytes e ++ header f c ++ payload ++ pad)
  = Ret (Udp (mkParsedUdp (hf_source f) (hf_destination f) (hf_source_port f) (hf_destination_port f)
                (28 + len payload) (ethernet_header_len e + 28) (len payload)
                (Some (default NotEct (hf_ecn f))))).
Proof.
  intros He Het Hf Hul Htl. destruct (build_ethernet_header_ok e He) as (_ & _ & Hl2).
  pose proof (len_nonneg payload). pose proof (len_nonneg pad).
  unfold parse_ethernet_ipv4_udp. rewrite parse_l2_eth by done. run. cbn [negb].
  change (ETHERTYPE_IPV4 =? ETHERTYPE_IPV4) with true. cbn [negb].
  rewrite <-Hl2, slice_suffix. run. rewrite parse_written; [|done|rewrite len_app; lia|lia|lia].
  run. cbn. rewrite Htl, Hul. do 3 f_equal. lia.
Qed.

(** Transmit and receive agree on the wire: for every egress with 6-byte
    MAC addresses, with or without a VLAN tag, and all header fields within
    their widths whose lengths describe the payload, the Ethernet header
    followed by the IPv4 and UDP headers, the payload and any padding is
    parsed back by the receive path to exactly the source, destination,
    ports, lengths and ECN mark that were written, the payload range holds
    the payload, the IPv4 checksum verifies, and the datagram passes the
    transmit validator. *)
Theorem udp_frame_roundtrip (e : XdpEgress) (f : Ipv4UdpHeaderFields) (payload pad : list Z) :
  egress_ok e → eg_ethertype e = ETHERTYPE_IPV4 → fields_ok f →
  hf_udp_len f = 8 + len payload → hf_total_len f = 28 + len payload →
  ∃ h, write_ipv4_udp_headers (replicate 28 0) f = Ret h ∧
    let frame := eth_bytes e ++ h ++ payload ++ pad in
    let l2 := ethernet_header_len e in
    parse_ethernet_ipv4_udp frame
    = Ret (Udp (mkParsedUdp (hf_source f) (hf_destination f) (hf_source_port f) (hf_destination_port f)
                  (28 + len payload) (l2 + 28) (len payload) (Some (default NotEct (hf_ecn f))))) ∧
    slice_or_panic frame (l2 + 28) (l2 + 28 + len payload) = Ret payload ∧
    (ip ← slice_or_panic h 0 20; ipv4_header_checksum ip) = Ret 0 ∧
    valid_tx_datagram (h ++ payload) ETHERTYPE_IPV4 = Ret true.
Proof.
  intros He Het Hf Hul Htl. destruct (build_ethernet_header_ok e He) as (_ & _ & Hl2).
  exists (header f (header_checksum f)). split; [by apply write_headers_ok|]. cbv zeta.
  pose proof (len_nonneg payload). pose proof (len_nonneg pad). pose proof (base_sum_range f Hf) as Hbs.
  assert (Htf : fits 16 (hf_total_len f)) by apply Hf. unfold fits in Htf.
  set (h := header f (header_checksum f)). assert (Hh : len h = 28) by done.
  split_and!.
  - by apply frame_parses.
  - unfold slice_or_panic, slice. rewrite !len_app, Hl2, Hh.
    assert (0 ≤ ethernet_header_len e) by (rewrite <-Hl2; apply len_nonneg).
    case_bool; try lia. cbn [andb]. f_equal.
    replace (ethernet_header_len e + 28 + len payload - (ethernet_header_len e + 28)) with (len payload) by lia.
    rewrite <-Hl2, <-Hh, <-len_app, app_assoc. unfold len. rewrite !Nat2Z.id, drop_app_length.
    by rewrite take_app_length.
  - assert (Hs : slice_or_panic h 0 20 = Ret (ip_bytes f (header_checksum f))) by done.
    rewrite Hs. run. unfold header_checksum in *.
    pose proof (fold16_range (base_sum f + hf_total_len f) ltac:(lia)) as Hfr. unfold fits in Hfr.
    rewrite ip_bytes_checksum by (done || (unfold fits; lia)). f_equal.
    rewrite (checksum_verifies (base_sum f + hf_total_len f)) by (done || lia). done.
  - assert (Hlen : len (h ++ payload) = hf_total_len f) by (rewrite len_app; lia).
    unfold valid_tx_datagram.
    change (parse_ip_datagram (h ++ payload)) with (parse_ipv4_datagram (h ++ payload)).
    unfold parse_ipv4_datagram, IPV4_MIN_HEADER_LEN.
    rewrite !Hlen. change (index (h ++ payload) 0) with (@Ret Z 69). run.
    change (Z.land 69 15 * 4) with 20.
    change (read_be_u16 (h ++ payload) 2) with
      (Ret (from_be16 (Z.shiftr (hf_total_len f) 8) (Z.land (hf_total_len f) 255))).
    change (read_be_u16 (h ++ payload) 6) with (Ret (from_be16 0 0)).
    run. rewrite be16_roundtrip.
    destruct (Z.ltb_spec (hf_total_len f) 20); [lia|]. rewrite (Z.ltb_irrefl (hf_total_len f)).
    change ((20 <? 20) || false) with false. cbn [orb]. run. cbn [pi_len pi_version pi_is_fragment].
    by rewrite Z.eqb_refl.
Qed.

Definition demo_egress : XdpEgress :=
  with_vlan (egress_ipv4 1 0 [2; 0; 0; 0; 0; 1] [2; 0; 0; 0; 0; 2] 1500) 100.
Definition demo_fields : Ipv4UdpHeaderFields :=
  mkFields 5000 6000 167772161 167772162 31 11 64 (Some Ect0).

Lemma udp_frame_roundtrip_witness :
  ∃ h, write_ipv4_udp_headers (replicate 28 0) demo_fields = Ret h ∧
    let frame := eth_bytes demo_egress ++ h ++ [1; 2; 3] ++ [0; 0] in
    parse_ethernet_ipv4_udp frame
    = Ret (Udp (mkParsedUdp 167772161 167772162 5000 6000 31 46 3 (Some Ect0))) ∧
    slice_or_panic frame 46 49 = Ret [1; 2; 3] ∧
    (ip ← slice_or_panic h 0 20; ipv4_header_checksum ip) = Ret 0 ∧
    valid_tx_datagram (h ++ [1; 2; 3]) ETHERTYPE_IPV4 = Ret true.
Proof.
  apply (udp_frame_roundtrip demo_egress demo_fields [1; 2; 3] [0; 0]); try reflexivity.
  - split; reflexivity.
  - repeat split; vm_compute; done.
Defined.

Lemma parse_ethernet_total frame : bytes_ok frame → len frame < 2 ^ 63 →
  ∃ r, parse_ethernet_frame frame = Ret r ∧
    match r with
    | Some p => (pe_l2_len p = 14 ∨ pe_l2_len p = 18) ∧ 20 ≤ pi_len (pe_ip p) ∧
        pe_l2_len p + pi_len (pe_ip p) ≤ len frame
    | None => True
    end.
Proof.
  intros Hb Hl. unfold parse_ethernet_frame. destruct (parse_l2_total frame Hb) as (r & -> & Hr). run.
  destruct r as [[l et]|]; [|by exists None]. destruct (_ && _); [by exists None|].
  destruct (slice_total frame l (len frame)) as (p & -> & Hpl & Hp); [lia|lia|]. run.
  destruct (parse_ip_total p) as (r & -> & Hpr); [by apply Hp|lia|]. run.
  exists (option_map (mkParsedEthernet l) r). split; [done|]. destruct r; cbn; [|done]. lia.
Qed.
Lemma valid_tx_total packet ethertype : bytes_ok packet → len packet < 2 ^ 63 →
  ∃ b, valid_tx_datagram packet ethertype = Ret b.
Proof.
  intros Hb Hl. unfold valid_tx_datagram. destruct (parse_ip_total packet Hb Hl) as (r & -> & _). run.
  destruct r; [|eauto]. destruct (negb _); eauto.
Qed.

(** C27. The receive parsers are total: on every byte string (shorter than the
    address space) the UDP, Ethernet and IP parsers return, without an
    out-of-range index and with the IPv6 extension-header walk terminating,
    and what they accept lies within the frame: the UDP payload range, the
    IP length and the ports and addresses within their widths. *)
Theorem parsers_total (frame : list Z) :
  bytes_ok frame → len frame < 2 ^ 63 →
  (∃ r, parse_ethernet_ipv4_udp frame = Ret r ∧
     match r with Udp p => parsed_in_range (len frame) p | _ => True end) ∧
  (∃ r, parse_ipv4_udp_datagram frame = Ret r ∧
     match r with Udp p => parsed_in_range (len frame) p | _ => True end) ∧
  (∃ r, parse_ethernet_frame frame = Ret r ∧
     match r with
     | Some p => (pe_l2_len p = 14 ∨ pe_l2_len p = 18) ∧ 20 ≤ pi_len (pe_ip p) ∧
         pe_l2_len p + pi_len (pe_ip p) ≤ len frame
     | None => True
     end) ∧
  (∀ ethertype, ∃ b, valid_tx_datagram frame ethertype = Ret b).
Proof.
  intros Hb Hl. split_and!; [by apply parse_eth_udp_total|by apply parse_udp_total|..].
  - by apply parse_ethernet_total.
  - intros et. by apply valid_tx_total.
Qed.

Lemma parsers_total_witness :
  (∃ r, parse_ethernet_ipv4_udp [1; 2; 3] = Ret r ∧
     match r with Udp p => parsed_in_range 3 p | _ => True end) ∧
  (∃ r, parse_ipv4_udp_datagram [1; 2; 3] = Ret r ∧
     match r with Udp p => parsed_in_range 3 p | _ => True end) ∧
  (∃ r, parse_ethernet_frame [1; 2; 3] = Ret r ∧
     match r with
     | Some p => (pe_l2_len p = 14 ∨ pe_l2_len p = 18) ∧ 20 ≤ pi_len (pe_ip p) ∧
         pe_l2_len p + pi_len (pe_ip p) ≤ 3
     | None => True
     end) ∧
  (∀ ethertype, ∃ b, valid_tx_datagram [1; 2; 3] ethertype = Ret b).
Proof.
  apply (parsers_total [1; 2; 3]).
  - repeat constructor; vm_compute; done.
  - reflexivity.
Defined.

(** ** Cached endpoint headers *)
Lemma index_app_r {A} (a h : list A) k : 0 ≤ k → index (a ++ h) (len a + k) = index h k.
Proof.
  intros. unfold index. rewrite nthZ_app_r by lia. by replace (len a + k - len a) with k by lia.
Qed.

Lemma set_index_app_r {A} (a h : list A) k x : 0 ≤ k < len h →
  set_index (a ++ h) (len a + k) x = Ret (a ++ <[Z.to_nat k := x]> h).
Proof.
  intros. pose proof (len_nonneg a). rewrite set_index_ok by (rewrite len_app; lia). f_equal.
  replace (Z.to_nat (len a + k)) with (length a + Z.to_nat k)%nat by (unfold len; lia).
  apply insert_app_r.
Qed.

Lemma read_be_u16_app (a h : list Z) k : 0 ≤ k → read_be_u16 (a ++ h) (len a + k) = read_be_u16 h k.
Proof.
  intros. unfold read_be_u16. rewrite index_app_r by lia.
  replace (len a + k + 1) with (len a + (k + 1)) by lia. by rewrite index_app_r by lia.
Qed.

Lemma write_be_u16_app (a h : list Z) k v : 0 ≤ k → k + 1 < len h →
  write_be_u16 (a ++ h) (len a + k) v
  = Ret (a ++ <[Z.to_nat (k + 1) := Z.land v 255]> (<[Z.to_nat k := Z.shiftr v 8]> h)).
Proof.
  intros. unfold write_be_u16. rewrite set_index_app_r by lia. run.
  replace (len a + k + 1) with (len a + (k + 1)) by lia.
  apply set_index_app_r. rewrite len_insert. lia.
Qed.

Definition with_lengths (f : Ipv4UdpHeaderFields) (total udp : Z) : Ipv4UdpHeaderFields :=
  mkFields (hf_source_port f) (hf_destination_port f) (hf_source f) (hf_destination f) total udp
    (hf_ttl f) (hf_ecn f).

Lemma patch_bytes l2 f c n : fields_ok f → fits 16 c → 0 ≤ n → n + 28 ≤ U16_MAX →
  patch_xdp_udp_endpoint_header_lengths (l2 ++ header f c) (len l2) n
  = Ret (Ok (l2 ++ header (with_lengths f (n + 28) (n + 8))
               (ipv4_checksum_replace_word c (hf_total_len f) (n + 28)))).
Proof.
  intros Hf Hc Hn Hmax. unfold patch_xdp_udp_endpoint_header_lengths, UDP_HEADER_LEN, IPV4_MIN_HEADER_LEN.
  replace (n + 8 + 20) with (n + 28) by lia. unfold U16_MAX in *.
  destruct (Z.ltb_spec 65535 (n + 28)); [lia|].
  rewrite !read_be_u16_app by lia.
  change (read_be_u16 (header f c) 2) with (Ret (from_be16 (Z.shiftr (hf_total_len f) 8) (Z.land (hf_total_len f) 255))).
  change (read_be_u16 (header f c) 10) with (Ret (from_be16 (Z.shiftr c 8) (Z.land c 255))).
  run. rewrite !be16_roundtrip, !wrap_small by (unfold fits; lia).
  rewrite write_be_u16_app by (change (len (header f c)) with 28; lia). run.
  rewrite write_be_u16_app by (rewrite ?len_insert; change (len (header f c)) with 28; lia). run.
  rewrite write_be_u16_app by (rewrite ?len_insert; change (len (header f c)) with 28; lia). run.
  do 2 f_equal.
Qed.

(** Patching the lengths of a cached endpoint header equals writing the
    header afresh, checksum included, for every layer-2 prefix, all fields
    and every payload length that fits, exactly when the uncorrected
    one's-complement sum (the complement of the old checksum, plus the
    complement of the old length, plus the new length) is not 0x1ffff: there
    the single carry fold overflows 16 bits and the stored checksum is
    wrong. An oversize payload is refused. *)
Theorem patch_lengths_correct (l2 : list Z) (f : Ipv4UdpHeaderFields) (n : Z) :
  fields_ok f → 0 ≤ n →
  let old := hf_total_len f in
  let f' := with_lengths f (n + 28) (n + 8) in
  let r := patch_xdp_udp_endpoint_header_lengths (l2 ++ header f (header_checksum f)) (len l2) n in
  if U16_MAX <? n + 28 then r = Ret (Err OversizeForMtu)
  else ∃ c, r = Ret (Ok (l2 ++ header f' c)) ∧
    (c = header_checksum f' ↔ (65535 - header_checksum f) + (65535 - old) + (n + 28) ≠ 131071).
Proof.
  intros Hf Hn old f' r. pose proof (base_sum_range f Hf) as Hb.
  assert (Ht : fits 16 (hf_total_len f)) by apply Hf.
  assert (Hfold : 1 ≤ fold16 (base_sum f + hf_total_len f) ≤ 65535).
  { unfold fold16, fits in *. destruct (Z.eqb_spec (base_sum f + hf_total_len f) 0); lia. }
  assert (Hc : fits 16 (header_checksum f)) by (unfold header_checksum, fits; lia).
  unfold U16_MAX. destruct (Z.ltb_spec 65535 (n + 28)).
  - unfold r, patch_xdp_udp_endpoint_header_lengths, UDP_HEADER_LEN, IPV4_MIN_HEADER_LEN, U16_MAX.
    destruct (Z.ltb_spec 65535 (n + 8 + 20)); [done|lia].
  - exists (ipv4_checksum_replace_word (header_checksum f) old (n + 28)).
    split; [apply patch_bytes; unfold U16_MAX; done || lia|].
    assert (Hf' : header_checksum f' = 65535 - fold16 (base_sum f + old - old + (n + 28))).
    { unfold header_checksum. do 2 f_equal. cbn. change (base_sum f') with (base_sum f). lia. }
    rewrite Hf'. unfold header_checksum in *. unfold old, fits in *. split.
    + intros E Hs. unfold ipv4_checksum_replace_word, bnot in E. change (2 ^ 16 - 1) with 65535 in E.
      rewrite Hs in E. change (u16 (Z.land 131071 65535 + Z.shiftr 131071 16)) with 0 in E.
      unfold fold16 in E. destruct (Z.eqb_spec (base_sum f + hf_total_len f - hf_total_len f + (n + 28)) 0); lia.
    + intros Hne. apply replace_word_ok; unfold fits; lia.
Qed.

Lemma patch_lengths_correct_witness :
  let f := demo_fields in
  if U16_MAX <? 100 + 28 then
    patch_xdp_udp_endpoint_header_lengths ([] ++ header f (header_checksum f)) 0 100 = Ret (Err OversizeForMtu)
  else ∃ c,
    patch_xdp_udp_endpoint_header_lengths ([] ++ header f (header_checksum f)) 0 100
    = Ret (Ok ([] ++ header (with_lengths f (100 + 28) (100 + 8)) c)) ∧
    (c = header_checksum (with_lengths f (100 + 28) (100 + 8)) ↔
     (65535 - header_checksum f) + (65535 - hf_total_len f) + (100 + 28) ≠ 131071).
Proof.
  apply (patch_lengths_correct [] demo_fields 100).
  - repeat split; vm_compute; done.
  - lia.
Defined.

(** The defect is reachable: an endpoint from 10.0.99.5 to 10.0.0.2 with
    TTL 64 is cached with an empty payload; sending 972 bytes through it
    emits an IPv4 header whose checksum does not verify, while a freshly
    written header for the same datagram does. *)
Theorem endpoint_patch_checksum_defect :
  let f := mkFields 5000 6000 (ipv4_new 10 0 99 5) (ipv4_new 10 0 0 2) 28 8 64 None in
  let sent := with_lengths f 1000 980 in
  (h ← write_ipv4_udp_headers (replicate 28 0) f;
   r ← patch_xdp_udp_endpoint_header_lengths h 0 972;
   match r with
   | Ok h => ip ← slice_or_panic h 0 20; ipv4_header_checksum ip
   | Err _ => Panic
   end) ≠ Ret 0 ∧
  (h ← write_ipv4_udp_headers (replicate 28 0) sent;
   ip ← slice_or_panic h 0 20; ipv4_header_checksum ip) = Ret 0.
Proof. split; [vm_compute; discriminate|vm_compute; reflexivity]. Qed.

(** ** Accepted ports *)
Lemma elem_of_dedup x l : x ∈ dedup l ↔ x ∈ l.
Proof.
  induction l as [|y l IH]; [done|]. cbn [dedup]. rewrite elem_of_cons, <-IH.
  destruct (dedup l) as [|z r]; [by rewrite elem_of_cons|].
  destruct (Z.eqb_spec y z) as [->|]; rewrite !elem_of_cons; tauto.
Qed.

Lemma dedup_head_le y l : StronglySorted Z.le (y :: l) → Forall (Z.le y) (dedup l).
Proof.
  intros Hs. apply StronglySorted_inv in Hs as [_ Hf].
  apply Forall_forall. intros x Hx. rewrite elem_of_dedup in Hx.
  rewrite Forall_forall in Hf. by apply Hf.
Qed.

(** Sorted and without repetitions. *)
Lemma dedup_sorted l : StronglySorted Z.le l → StronglySorted Z.lt (dedup l).
Proof.
  induction l as [|y l IH]; intros Hs; [constructor|]. pose proof (dedup_head_le y l Hs) as Hle.
  apply StronglySorted_inv in Hs as [Hs _]. specialize (IH Hs). cbn [dedup].
  destruct (dedup l) as [|z r]; [repeat constructor|].
  destruct (Z.eqb_spec y z) as [->|Hne]; [done|]. constructor; [done|].
  apply StronglySorted_inv in IH as [_ Hr]. apply Forall_cons in Hle as [Hyz _].
  constructor; [lia|]. eapply Forall_impl; [exact Hr|]. intros. simpl in *. lia.
Qed.

Lemma sorted_lookup (l : list Z) (i j : nat) x y :
  StronglySorted Z.lt l → (i < j)%nat → l !! i = Some x → l !! j = Some y → x < y.
Proof.
  intros Hs. revert i j. induction Hs as [|z l _ IH Hf]; intros [|i] [|j] Hij Hi Hj; try done; try lia.
  - injection Hi as ->. cbn in Hj. by apply (Forall_lookup_1 _ _ _ _ Hf Hj).
  - cbn in *. apply (IH i j); [lia|done|done].
Qed.

Lemma sorted_nth l i j x y :
  StronglySorted Z.lt l → i < j → nthZ l i = Some x → nthZ l j = Some y → x < y.
Proof.
  intros Hs Hij Hi Hj. unfold nthZ in *. destruct (Z.ltb_spec i 0), (Z.ltb_spec j 0); try done.
  apply (sorted_lookup l (Z.to_nat i) (Z.to_nat j)); [done|lia|done|done].
Qed.

Lemma binary_search_ok l x : StronglySorted Z.lt l → ∀ fuel lo hi,
  0 ≤ lo → lo ≤ hi ≤ len l → hi - lo ≤ Z.of_nat fuel →
  ∃ b, binary_search fuel l lo hi x = Ret b ∧
    (b = true ↔ ∃ i, lo ≤ i < hi ∧ nthZ l i = Some x).
Proof.
  intros Hs. induction fuel as [|fuel IH]; intros lo hi Hlo Hhi Hf; cbn [binary_search];
    destruct (Z.ltb_spec lo hi) as [Hlt|Hge]; try lia.
  1, 3: exists false; split; [done|]; split; [done|]; intros (i & Hi & _); lia.
  set (mid := lo + (hi - lo) / 2). assert (Hmid : lo ≤ mid < hi) by (unfold mid; lia).
  assert (Hl : mid + 1 - lo ≤ hi - lo) by lia. clearbody mid.
  destruct (nthZ_is_Some l mid) as [y Hy]; [lia|]. rewrite (index_Some _ _ _ Hy). run.
  destruct (Z.eqb_spec y x) as [->|Hne]; [exists true; split; [done|]; split; eauto|].
  destruct (Z.ltb_spec y x).
  - destruct (IH (mid + 1) hi) as (b & -> & Hb); [lia|lia|lia|]. exists b. split; [done|]. rewrite Hb.
    split; intros (i & Hi & Hn); [exists i; split; [lia|done]|].
    destruct (decide (i ≤ mid)); [|exists i; split; [lia|done]].
    destruct (decide (i = mid)) as [->|]; [congruence|].
    pose proof (sorted_nth l i mid _ _ Hs ltac:(lia) Hn Hy). lia.
  - destruct (IH lo mid) as (b & -> & Hb); [lia|lia|lia|]. exists b. split; [done|]. rewrite Hb.
    split; intros (i & Hi & Hn); [exists i; split; [lia|done]|].
    destruct (decide (i < mid)); [exists i; split; [lia|done]|].
    destruct (decide (i = mid)) as [->|]; [congruence|].
    pose proof (sorted_nth l mid i _ _ Hs ltac:(lia) Hy Hn). lia.
Qed.

(** The port filter accepts exactly the configured ports: a list, in any
    order and with repetitions, is sorted and deduplicated so that the binary
    search finds precisely its members; a range accepts its bounds and what
    lies between; an empty list or an inverted range is refused. *)
Theorem accepted_ports_exact (ports : list Z) (start stop port : Z) :
  match accepted_ports ports with
  | Ret a => ports ≠ [] ∧ ∃ b, accepts a port = Ret b ∧ (b = true ↔ port ∈ ports)
  | r => r = Panic ∧ ports = []
  end ∧
  match accepted_range start stop with
  | Ret a => start ≤ stop ∧ ∃ b, accepts a port = Ret b ∧ (b = true ↔ start ≤ port ≤ stop)
  | r => r = Panic ∧ stop < start
  end.
Proof.
  split.
  - unfold accepted_ports. destruct ports as [|p ps]; [done|].
    destruct (Z.eqb_spec (len (p :: ps)) 0) as [E|_]; [unfold len in E; cbn in E; lia|]. cbn [negb].
    split; [done|]. cbn [accepts]. set (l := dedup _).
    assert (Hs : StronglySorted Z.lt l)
      by (apply dedup_sorted, Sorted_StronglySorted, Sorted_merge_sort; exact _).
    destruct (binary_search_ok l port Hs (length l) 0 (len l)) as (b & -> & Hb);
      [lia|pose proof (len_nonneg l); lia|unfold len; lia|].
    exists b. split; [done|]. rewrite Hb.
    assert (Hin : port ∈ p :: ps ↔ port ∈ l)
      by (unfold l; by rewrite elem_of_dedup, merge_sort_Permutation).
    rewrite Hin, list_elem_of_lookup. split.
    + intros (i & Hi & Hn). unfold nthZ in Hn. destruct (i <? 0); [done|]. eauto.
    + intros [i Hi]. exists (Z.of_nat i). rewrite nthZ_of_nat. split; [|done].
      apply lookup_lt_Some in Hi. unfold len. lia.
  - unfold accepted_range. destruct (Z.leb_spec start stop); [|done]. split; [done|].
    cbn [accepts]. eexists. split; [done|]. rewrite andb_true_iff, !Z.leb_le. done.
Qed.
