(* ===== verification/XdpUdp.v ===== *)
(** * The AF_XDP UDP transmit path: [crates/fast-socket-xdp-rs/src/socket.rs]

    Routers, prepared endpoints with their cached headers, the in-place
    construction of UDP packets and the per-packet step of the send loops.
    The router is a class: its route tables are another component. *)
From S2P Require Import Prelude Bits Core Buffer Umem PacketBuf Ring Wire.
Open Scope Z_scope.

(** ** Routers *)
Record XdpRouteContext := mkRouteContext {
  rc_ifindex : Z;
  rc_queue : Z;
  rc_mtu : Z;
}.

(** [XdpUdpRouter]: the required method, and the resolutions and the route
    generation a router may override. *)
Class XdpUdpRouter (R : Type) := {
  resolve_udp_egress : R → Z → XdpRouteContext → outcome (option XdpEgress);
  resolve_udp_egress_resolved : R → Z → XdpRouteContext → outcome (option XdpResolvedEgress);
  resolve_udp_l2 : R → Z → XdpRouteContext → outcome (option ResolvedL2);
  route_generation : R → Z;
}.

(** The provided bodies, from the answers of the methods they call. *)
Definition default_resolve_udp_egress_resolved (egress : outcome (option XdpEgress)) :
    outcome (option XdpResolvedEgress) :=
  egress ← egress;
  match egress with
  | None => Ret None
  | Some egress => r ← from_egress egress; Ret (Some r)
  end.
Definition default_resolve_udp_l2 (resolved : outcome (option XdpResolvedEgress))
    (context : XdpRouteContext) : outcome (option ResolvedL2) :=
  resolved ← resolved;
  match resolved with
  | None => Ret None
  | Some resolved =>
      let egress := re_egress resolved in
      if negb (eg_ifindex egress =? rc_ifindex context) || negb (eg_queue egress =? rc_queue context)
         || negb (eg_ethertype egress =? ETHERTYPE_IPV4)
      then Ret None
      else
        Ret (Some (Inline (re_l2_header resolved) (re_l2_len resolved)
                     (Z.min (rc_mtu context) (eg_mtu egress))))
  end.
Definition default_route_generation : Z := 0.

(** ** Endpoints *)
Record XdpUdpEndpoint := mkXdpUdpEndpoint {
  xe_spec : UdpEndpointSpec;
  xe_info : UdpEndpointInfo;
  xe_cached : option XdpUdpEndpointCache;
}.

Section Endpoints.
Context {R : Type} `{XdpUdpRouter R}.
Context (router : R) (local_ip local_port ttl : Z) (route_context : XdpRouteContext).

(** [match source_ip { Some(V4(a)) => a, Some(V6(_)) => return Err, None =>
    *local_addr.ip() }] *)
Definition source_v4 (source : option IpAddr) : option Z :=
  match source with
  | Some (IpAddrV4 a) => Some a
  | Some (IpAddrV6 _) => None
  | None => Some local_ip
  end.

Definition build_xdp_udp_endpoint_cache (generation : Z) (spec : UdpEndpointSpec) :
    outcome (result (XdpUdpEndpointCache * UdpEndpointInfo) Error) :=
  match sp_destination spec with
  | SocketAddrV6 _ _ _ _ => Ret (Err InvalidPacket)
  | SocketAddrV4 dst_ip dst_port =>
      match source_v4 (sp_source_ip spec) with
      | None => Ret (Err InvalidPacket)
      | Some source_ip =>
          if match sp_gso_segment_size spec with Some _ => true | None => false end then
            Ret (Err InvalidPacket)
          else
            resolved ← resolve_udp_l2 router dst_ip route_context;
            match resolved with
            | None => Ret (Err NoEgressRoute)
            | Some resolved =>
                match checked_sub (ip_mtu resolved) (IPV4_MIN_HEADER_LEN + UDP_HEADER_LEN) with
                | None => Ret (Err InvalidPacket)
                | Some max_payload_len =>
                    let header_payload_len := default 0 (sp_payload_len spec) in
                    let info := mkInfo max_payload_len (sp_payload_len spec) None in
                    match validate_xdp_udp_endpoint_payload info header_payload_len with
                    | Err e => Ret (Err e)
                    | Ok _ =>
                        let udp_len := header_payload_len + UDP_HEADER_LEN in
                        let total_len := udp_len + IPV4_MIN_HEADER_LEN in
                        if U16_MAX <? total_len then Ret (Err OversizeForMtu)
                        else
                          l2 ← l2_header resolved;
                          ip_udp ← write_ipv4_udp_headers (replicate 28 0)
                            (mkFields (default local_port (sp_source_port spec)) dst_port source_ip
                               dst_ip (u16 total_len) (u16 udp_len) ttl (sp_ecn spec));
                          Ret (Ok (mkCache generation (l2 ++ ip_udp) (len l2), info))
                    end
                end
            end
      end
  end.

Definition prepare_xdp_udp_endpoint (spec : UdpEndpointSpec) : outcome (result XdpUdpEndpoint Error) :=
  r ← build_xdp_udp_endpoint_cache (route_generation router) spec;
  Ret (c <-? r; Ok (mkXdpUdpEndpoint spec c.2 (Some c.1))).

(** [refresh_udp_endpoint_cache]: a cache of another generation is dropped and
    rebuilt; the stale cache stays dropped when the rebuild fails. *)
Definition refresh_udp_endpoint_cache (endpoint : XdpUdpEndpoint) :
    outcome (XdpUdpEndpoint * result unit Error) :=
  let generation := route_generation router in
  let cached :=
    match xe_cached endpoint with
    | Some cached => if negb (ec_route_generation cached =? generation) then None else Some cached
    | None => None
    end in
  let endpoint := mkXdpUdpEndpoint (xe_spec endpoint) (xe_info endpoint) cached in
  match cached with
  | Some _ => Ret (endpoint, Ok tt)
  | None =>
      r ← build_xdp_udp_endpoint_cache generation (xe_spec endpoint);
      match r with
      | Err e => Ret (endpoint, Err e)
      | Ok (cached, info) => Ret (mkXdpUdpEndpoint (xe_spec endpoint) info (Some cached), Ok tt)
      end
  end.

(** ** In-place construction

    The packet of a [UdpTransmit] is a handle into [mem]. *)
Definition with_packet {B} (tx : UdpTransmit B) (p : B) : UdpTransmit B :=
  mkUdpTransmit p (ut_destination tx) (ut_source_ip tx) (ut_source_port tx) (ut_ecn tx)
    (ut_gso_segment_size tx).

Definition prepare_xdp_udp_transmit_in_place (mem : list Z) (mtu : Z)
    (tx : UdpTransmit XdpPacketBufInner) :
    outcome (list Z * UdpTransmit XdpPacketBufInner * result unit Error) :=
  match ut_destination tx with
  | SocketAddrV6 _ _ _ _ => Ret (mem, tx, Err InvalidPacket)
  | SocketAddrV4 dst_ip dst_port =>
      match source_v4 (ut_source_ip tx) with
      | None => Ret (mem, tx, Err InvalidPacket)
      | Some source_ip =>
          let payload_len := buf_len (ut_packet tx) in
          match checked_sub mtu (IPV4_MIN_HEADER_LEN + UDP_HEADER_LEN) with
          | None => Ret (mem, tx, Err InvalidPacket)
          | Some max_payload =>
              if max_payload <? payload_len then Ret (mem, tx, Err OversizeForMtu)
              else
                let udp_len := payload_len + UDP_HEADER_LEN in
                let total_len := udp_len + IPV4_MIN_HEADER_LEN in
                if U16_MAX <? total_len then Ret (mem, tx, Err OversizeForMtu)
                else
                  headers ← write_ipv4_udp_headers (replicate 28 0)
                    (mkFields (default local_port (ut_source_port tx)) dst_port source_ip dst_ip
                       (u16 total_len) (u16 udp_len) ttl (ut_ecn tx));
                  r ← prepend_to_inner mem (ut_packet tx) headers;
                  let '(mem, p, r) := r in
                  Ret (mem, with_packet tx p,
                       match r with Ok _ => Ok tt | Err _ => Err InvalidPacket end)
          end
      end
  end.

Definition restore_prepared_xdp_udp_transmit_in_place (tx : UdpTransmit XdpPacketBufInner) :
    UdpTransmit XdpPacketBufInner * result unit Error :=
  let '(p, r) := trim_prefix_from_inner (ut_packet tx) (IPV4_MIN_HEADER_LEN + UDP_HEADER_LEN) in
  (with_packet tx p, match r with Ok _ => Ok tt | Err _ => Err InvalidPacket end).

(** One iteration of the slot loop of [send_udp_inner]: the descriptor to
    enqueue, or the error that ends the loop. *)
Definition prepare_udp_slot (mem : list Z) (slot : TxSlot (UdpTransmit XdpPacketBufInner)) :
    outcome (list Z * TxSlot (UdpTransmit XdpPacketBufInner) * result XdpDesc Error) :=
  match slot with
  | Taken => Ret (mem, slot, Err InvalidBatch)
  | Ready tx =>
      match ut_destination tx with
      | SocketAddrV6 _ _ _ _ => Ret (mem, slot, Err InvalidPacket)
      | SocketAddrV4 dst_ip _ =>
          resolved ← resolve_udp_l2 router dst_ip route_context;
          match resolved with
          | None => Ret (mem, slot, Err NoEgressRoute)
          | Some resolved =>
              p ← prepare_xdp_udp_transmit_in_place mem (ip_mtu resolved) tx;
              let '(mem, tx, r) := p in
              match r with
              | Err kind => Ret (mem, Ready tx, Err kind)
              | Ok _ =>
                  l2 ← l2_header resolved;
                  f ← prepare_tx_frame_with_header mem (ut_packet tx) l2;
                  let '(mem, pkt, frame) := f in
                  let tx := with_packet tx pkt in
                  match frame with
                  | None =>
                      let '(tx, restored) := restore_prepared_xdp_udp_transmit_in_place tx in
                      match restored with
                      | Err kind => Ret (mem, Ready tx, Err kind)
                      | Ok _ => Ret (mem, Ready tx, Err (Device (DeviceError_new Backend)))
                      end
                  | Some frame =>
                      Ret (mem, Ready tx, Ok (mkXdpDesc (tf_desc_addr frame) (tf_len frame) 0))
                  end
              end
          end
      end
  end.

(** The loop over [batch.iter_mut().take(limit)]: the descriptors in order, the
    bytes counted and the error that ended it. *)
Fixpoint prepare_udp_slots (limit : nat) (mem : list Z)
    (batch : list (TxSlot (UdpTransmit XdpPacketBufInner))) (tx_bytes : Z) :
    outcome (list Z * list (TxSlot (UdpTransmit XdpPacketBufInner)) * list XdpDesc * Z * option Error) :=
  match limit, batch with
  | O, _ | _, [] => Ret (mem, batch, [], tx_bytes, None)
  | S limit, slot :: batch =>
      p ← prepare_udp_slot mem slot;
      let '(mem, slot, r) := p in
      match r with
      | Err kind => Ret (mem, slot :: batch, [], tx_bytes, Some kind)
      | Ok desc =>
          let tx_bytes :=
            match slot with
            | Ready tx => saturating_add 64 tx_bytes (buf_len (ut_packet tx))
            | Taken => tx_bytes
            end in
          rest ← prepare_udp_slots limit mem batch tx_bytes;
          let '(mem, batch, descs, tx_bytes, e) := rest in
          Ret (mem, slot :: batch, desc :: descs, tx_bytes, e)
      end
  end.

End Endpoints.

(** One iteration of the slot loop of [send_udp_endpoint_inner]: the cached
    header is updated for the packet's length and copied before it. *)
Definition prepare_endpoint_slot (mem : list Z) (cache : XdpUdpEndpointCache) (info : UdpEndpointInfo)
    (slot : TxSlot (UdpEndpointTransmit XdpPacketBufInner)) :
    outcome (list Z * XdpUdpEndpointCache * TxSlot (UdpEndpointTransmit XdpPacketBufInner)
             * result XdpDesc Error) :=
  match slot with
  | Taken => Ret (mem, cache, slot, Err InvalidBatch)
  | Ready tx =>
      u ← update_xdp_udp_endpoint_header cache info (buf_len (et_packet tx));
      match u with
      | Err kind => Ret (mem, cache, slot, Err kind)
      | Ok cache =>
          f ← prepare_tx_frame_with_header mem (et_packet tx) (ec_header cache);
          let '(mem, pkt, frame) := f in
          let slot := Ready (mkEndpointTransmit pkt) in
          match frame with
          | None => Ret (mem, cache, slot, Err (Device (DeviceError_new Backend)))
          | Some frame =>
              Ret (mem, cache, slot, Ok (mkXdpDesc (tf_desc_addr frame) (tf_len frame) 0))
          end
      end
  end.

(** The loop of [send_udp_endpoint_inner]; the cached header is carried along. *)
Fixpoint prepare_endpoint_slots (limit : nat) (mem : list Z) (cache : XdpUdpEndpointCache)
    (info : UdpEndpointInfo) (batch : list (TxSlot (UdpEndpointTransmit XdpPacketBufInner))) (tx_bytes : Z) :
    outcome (list Z * XdpUdpEndpointCache * list (TxSlot (UdpEndpointTransmit XdpPacketBufInner))
             * list XdpDesc * Z * option Error) :=
  match limit, batch with
  | O, _ | _, [] => Ret (mem, cache, batch, [], tx_bytes, None)
  | S limit, slot :: batch =>
      p ← prepare_endpoint_slot mem cache info slot;
      let '(mem, cache, slot, r) := p in
      match r with
      | Err kind => Ret (mem, cache, slot :: batch, [], tx_bytes, Some kind)
      | Ok desc =>
          let tx_bytes :=
            match slot with
            | Ready tx =>
                saturating_add 64 tx_bytes (buf_len (et_packet tx) + len (ec_header cache) - ec_l2_len cache)
            | Taken => tx_bytes
            end in
          rest ← prepare_endpoint_slots limit mem cache info batch tx_bytes;
          let '(mem, cache, batch, descs, tx_bytes, e) := rest in
          Ret (mem, cache, slot :: batch, desc :: descs, tx_bytes, e)
      end
  end.

(** ** IP packets *)
Definition validate_xdp_ip_transmit (mem : list Z) (ifindex queue_id mtu : Z)
    (tx : IpPacketTransmit XdpPacketBufInner XdpEgress Z) : outcome (result unit Error) :=
  let egress := it_egress tx in
  let n := buf_len (it_packet tx) in
  if negb (eg_ifindex egress =? ifindex) || negb (eg_queue egress =? queue_id) then
    Ret (Err NoEgressRoute)
  else if (mtu <? n) || (eg_mtu egress <? n) then Ret (Err OversizeForMtu)
  else
    bytes ← as_slice mem (it_packet tx);
    valid ← valid_tx_datagram bytes (eg_ethertype egress);
    if negb valid then Ret (Err InvalidPacket)
    else
      headroom ← buf_headroom (it_packet tx);
      if headroom <? ethernet_header_len egress then Ret (Err (Device (DeviceError_new Backend)))
      else Ret (Ok tt).
