(* ===== verification/XdpUdpMain.v ===== *)
(** * Properties of the AF_XDP UDP transmit path *)
From S2P Require Import Prelude Bits Core Buffer Umem Window PacketBuf PacketBufProofs Ring.
From S2P Require Import Wire WireProofs WireMain Endpoint XdpUdp.
Open Scope Z_scope.

(** The header fields the transmit path writes for a packet of [n] bytes. *)
Definition tx_fields (local_ip local_port ttl dst_ip dst_port : Z) (source : option IpAddr)
    (source_port : option Z) (ecn : option EcnCodepoint) (n : Z) : Ipv4UdpHeaderFields :=
  mkFields (default local_port source_port) dst_port
    (match source with Some (IpAddrV4 a) => a | _ => local_ip end) dst_ip (28 + n) (8 + n) ttl ecn.

(** Values of the types the source declares: [u16] ports, IPv4 addresses, an
    [u8] time to live. *)
Record socket_ok (local_ip local_port ttl : Z) : Prop := mkSocketOk {
  so_ip : fits 32 local_ip;
  so_port : fits 16 local_port;
  so_ttl : fits 8 ttl;
}.
Definition meta_ok (dst : SocketAddr) (source : option IpAddr) (source_port : option Z) : Prop :=
  match dst with SocketAddrV4 ip port => fits 32 ip ∧ fits 16 port | SocketAddrV6 _ _ _ _ => True end ∧
  match source with Some (IpAddrV4 a) => fits 32 a | _ => True end ∧
  match source_port with Some p => fits 16 p | None => True end.

Lemma tx_fields_ok local_ip local_port ttl ip port source source_port ecn n :
  socket_ok local_ip local_port ttl → meta_ok (SocketAddrV4 ip port) source source_port →
  0 ≤ n → n + 28 ≤ U16_MAX → fields_ok (tx_fields local_ip local_port ttl ip port source source_port ecn n).
Proof.
  intros [Hi Hp Ht] ([Hd Hdp] & Hs & Hsp) Hn Hmax. unfold fields_ok, tx_fields. cbn.
  unfold fits, U16_MAX in *. split_and!; try lia.
  - destruct source_port; cbn; lia.
  - destruct source_port; cbn; lia.
  - destruct source as [[]|]; lia.
  - destruct source as [[]|]; lia.
Qed.

Lemma len_header f c : len (header f c) = 28.
Proof. reflexivity. Qed.

(** A refusing branch that left memory and buffer alone. *)
#[local] Ltac refuse mem b :=
  exists mem, b; eexists; (split; [reflexivity|]); split_and!; try done;
  intros (? & ? & ? & ? & ? & ? & ?); simplify_eq/=; try done;
  unfold IPV4_MIN_HEADER_LEN, UDP_HEADER_LEN, buf_len in *; lia.

(** When the in-place preparation goes through: an IPv4 destination and
    source, a size within the MTU and within 16 bits, and room for the
    headers. *)
Definition packet_fits (local_ip mtu : Z) (tx : UdpTransmit XdpPacketBufInner) : Prop :=
  ∃ ip port, ut_destination tx = SocketAddrV4 ip port ∧
    source_v4 local_ip (ut_source_ip tx) ≠ None ∧ 28 + buf_len (ut_packet tx) ≤ mtu ∧
    28 + buf_len (ut_packet tx) ≤ U16_MAX ∧
    28 ≤ bi_start (ut_packet tx) - l2_headroom (bc_layout (bi_ctx (ut_packet tx))).

Section InPlace.
Context (local_ip local_port ttl : Z) (Hsock : socket_ok local_ip local_port ttl).

Lemma u16_lengths n : 0 ≤ n → n + 28 ≤ U16_MAX →
  u16 (n + UDP_HEADER_LEN + IPV4_MIN_HEADER_LEN) = 28 + n ∧ u16 (n + UDP_HEADER_LEN) = 8 + n.
Proof.
  intros. unfold U16_MAX, UDP_HEADER_LEN, IPV4_MIN_HEADER_LEN in *.
  rewrite !wrap_small by (unfold fits; lia). lia.
Qed.

(** The in-place preparation: on success the headers precede the payload;
    every refusal leaves memory and packet as they were. *)
Lemma in_place_spec mem mtu tx :
  inner_ok mem (ut_packet tx) → meta_ok (ut_destination tx) (ut_source_ip tx) (ut_source_port tx) →
  ∃ mem' p' r, prepare_xdp_udp_transmit_in_place local_ip local_port ttl mem mtu tx
    = Ret (mem', with_packet tx p', r) ∧
    match r with
    | Err _ => mem' = mem ∧ p' = ut_packet tx ∧ ¬ packet_fits local_ip mtu tx
    | Ok _ =>
        ∃ ip port, ut_destination tx = SocketAddrV4 ip port ∧
        let n := buf_len (ut_packet tx) in
        let f := tx_fields local_ip local_port ttl ip port (ut_source_ip tx) (ut_source_port tx) (ut_ecn tx) n in
        packet_fits local_ip mtu tx ∧ fields_ok f ∧
        inner_ok mem' p' ∧ packet_bytes mem' p' = header f (header_checksum f) ++ packet_bytes mem (ut_packet tx) ∧
        same_outside mem mem' (ut_packet tx) ∧
        bi_start p' = bi_start (ut_packet tx) - 28 ∧ bi_end p' = bi_end (ut_packet tx) ∧
        bi_ctx p' = bi_ctx (ut_packet tx) ∧ bi_capacity p' = bi_capacity (ut_packet tx) ∧
        bi_armed p' = bi_armed (ut_packet tx) ∧
        (∀ a, bi_storage (ut_packet tx) = Some (UmemFrame a) → bi_storage p' = Some (UmemFrame a)) ∧
        (∀ a, bi_storage p' = Some (UmemFrame a) → bi_storage (ut_packet tx) = Some (UmemFrame a))
    end.
Proof.
  intros Hok Hmeta. destruct tx as [b dst source sport ecn gso]. cbn [ut_packet ut_destination
    ut_source_ip ut_source_port ut_ecn] in *. unfold prepare_xdp_udp_transmit_in_place.
  cbn [ut_packet ut_destination ut_source_ip ut_source_port ut_ecn].
  set (tx := mkUdpTransmit b dst source sport ecn gso).
  destruct dst as [ip port|]; [|refuse mem b].
  pose proof (io_packet _ _ Hok). assert (0 ≤ buf_len b) by (unfold buf_len; lia).
  destruct (source_v4 local_ip source) as [source_ip|] eqn:Hsrc; [|refuse mem b].
  assert (match source with Some (IpAddrV4 a) => a | _ => local_ip end = source_ip) as Hsource.
  { by destruct source as [[]|]; simplify_eq/=. }
  unfold checked_sub.
  destruct (Z.leb_spec (IPV4_MIN_HEADER_LEN + UDP_HEADER_LEN) mtu) as [Hmtu|];
    [|refuse mem b].
  destruct (Z.ltb_spec (mtu - (IPV4_MIN_HEADER_LEN + UDP_HEADER_LEN)) (buf_len b)) as [|Hfit];
    [refuse mem b|].
  destruct (Z.ltb_spec U16_MAX (buf_len b + UDP_HEADER_LEN + IPV4_MIN_HEADER_LEN)) as [|Hmax];
    [refuse mem b|].
  unfold IPV4_MIN_HEADER_LEN, UDP_HEADER_LEN in Hfit, Hmax, Hmtu.
  destruct (u16_lengths (buf_len b)) as [-> ->]; [done|lia|].
  pose proof (tx_fields_ok _ _ _ _ _ _ _ ecn (buf_len b) Hsock Hmeta ltac:(done) ltac:(lia)) as Hf.
  set (f := tx_fields local_ip local_port ttl ip port source sport ecn (buf_len b)) in *.
  rewrite <- Hsource. change (mkFields _ _ _ _ _ _ _ _) with f. rewrite write_headers_ok by done. run.
  fold (header f (header_checksum f)).
  destruct (decide (len (header f (header_checksum f)) ≤ bi_start b - l2_headroom (bc_layout (bi_ctx b)))) as [Hh|Hh].
  - destruct (prepend_ok mem b _ Hok Hh) as (mem' & p' & Hp & Hok' & Hb & Hout & Hs & He & Hc & Ha & Hcap & Hum).
    rewrite Hp. run. exists mem', p', (Ok tt). split; [done|]. exists ip, port. rewrite len_header in Hs.
    split_and!; try done.
    { exists ip, port. cbn. rewrite len_header in Hh. split_and!; try done; try lia. congruence. }
    intros a. by apply (prepend_storage mem b (header f (header_checksum f)) mem' p' (Ok tt)).
  - unfold prepend_to_inner. rewrite (buf_headroom_ok _ _ Hok). run.
    destruct (Z.ltb_spec (bi_start b - l2_headroom (bc_layout (bi_ctx b))) (len (header f (header_checksum f)))); [|lia].
    run. refuse mem b.
Qed.

End InPlace.

(** What the transmit path needs of a router: it answers, and an answer has a
    readable header. *)
Definition router_ok {R} `{XdpUdpRouter R} (router : R) (context : XdpRouteContext) : Prop :=
  ∀ dst, fits 32 dst → ∃ o, resolve_udp_l2 router dst context = Ret o ∧
    match o with Some r => ∃ l2, l2_header r = Ret l2 | None => True end.

Lemma with_packet_twice {B} (tx : UdpTransmit B) p q : with_packet (with_packet tx p) q = with_packet tx q.
Proof. reflexivity. Qed.

Lemma with_packet_same {B} (tx : UdpTransmit B) : with_packet tx (ut_packet tx) = tx.
Proof. by destruct tx. Qed.

(** Trimming the prepended headers gives the packet back. *)
Lemma restore_ok mem b xs p :
  inner_ok mem b → packet_bytes mem b = xs ++ p → len xs = 28 → len (xs ++ p) = buf_len b →
  ∃ b', trim_prefix_from_inner b (IPV4_MIN_HEADER_LEN + UDP_HEADER_LEN) = (b', Ok tt) ∧
    inner_ok mem b' ∧ packet_bytes mem b' = p ∧ bi_start b' = bi_start b + 28 ∧ bi_end b' = bi_end b.
Proof.
  intros Hok Hb Hx Hl. unfold trim_prefix_from_inner, IPV4_MIN_HEADER_LEN, UDP_HEADER_LEN.
  pose proof (len_nonneg p). rewrite len_app in Hl. unfold buf_len in Hl. destruct (Hok).
  destruct (Z.ltb_spec (bi_end b - bi_start b) (20 + 8)); [lia|]. eexists. split; [reflexivity|]. split_and!; try done.
  - apply with_bounds_ok; [done|lia..].
  - rewrite packet_with_bounds. unfold packet_bytes, buf_len in Hb.
    replace (bi_end b - (bi_start b + (20 + 8))) with (bi_end b - bi_start b - 28) by lia.
    change (20 + 8) with 28. rewrite <- window_drop, Hb by lia. by apply drop_app_length'; unfold len in Hx; lia.
Qed.

Section Slots.
Context {R : Type} `{XdpUdpRouter R} (router : R).
Context (local_ip local_port ttl : Z) (Hsock : socket_ok local_ip local_port ttl).
Context (context : XdpRouteContext) (Hrouter : router_ok router context).

(** The packets the step can send: routable, fitting, in UMEM, with room for
    the link-layer header. *)
Definition udp_sendable (tx : UdpTransmit XdpPacketBufInner) : Prop :=
  ∃ ip port res l2 a, ut_destination tx = SocketAddrV4 ip port ∧
    resolve_udp_l2 router ip context = Ret (Some res) ∧ l2_header res = Ret l2 ∧
    bi_storage (ut_packet tx) = Some (UmemFrame a) ∧ packet_fits local_ip (ip_mtu res) tx ∧
    len l2 + 28 ≤ bi_start (ut_packet tx).

(** What the step leaves behind for a ready slot. *)
Lemma prepare_udp_slot_spec mem tx :
  inner_ok mem (ut_packet tx) → bi_capacity (ut_packet tx) ≤ U32_MAX →
  meta_ok (ut_destination tx) (ut_source_ip tx) (ut_source_port tx) →
  ∃ mem' p' r,
    prepare_udp_slot router local_ip local_port ttl context mem (Ready tx)
    = Ret (mem', Ready (with_packet tx p'), r) ∧
    len mem' = len mem ∧ same_outside mem mem' (ut_packet tx) ∧
    match r with
    | Err _ =>
        inner_ok mem' p' ∧ packet_bytes mem' p' = packet_bytes mem (ut_packet tx) ∧
        bi_start p' = bi_start (ut_packet tx) ∧ bi_end p' = bi_end (ut_packet tx) ∧
        ¬ udp_sendable tx
    | Ok desc =>
        ∃ ip port res l2 a,
          ut_destination tx = SocketAddrV4 ip port ∧ resolve_udp_l2 router ip context = Ret (Some res) ∧
          l2_header res = Ret l2 ∧ bi_storage (ut_packet tx) = Some (UmemFrame a) ∧
          let n := buf_len (ut_packet tx) in
          let f := tx_fields local_ip local_port ttl ip port (ut_source_ip tx) (ut_source_port tx) (ut_ecn tx) n in
          packet_fits local_ip (ip_mtu res) tx ∧ fields_ok f ∧
          len l2 + 28 ≤ bi_start (ut_packet tx) ∧
          desc = mkXdpDesc (a + bi_start (ut_packet tx) - 28 - len l2) (len l2 + 28 + n) 0 ∧
          window mem' (a + bi_start (ut_packet tx) - 28 - len l2) (len l2 + 28 + n)
          = l2 ++ header f (header_checksum f) ++ packet_bytes mem (ut_packet tx)
    end.
Proof.
  intros Hok Hcap Hmeta. unfold prepare_udp_slot. set (b := ut_packet tx) in *.
  assert (Hsame : same_outside mem mem b) by (split; [done|]; by destruct (bi_storage b) as [[]|]).
  destruct (ut_destination tx) as [ip port|] eqn:Hdst.
  2:{ exists mem, b, (Err InvalidPacket). unfold b. rewrite with_packet_same. split_and!; try done.
      intros (? & ? & ? & ? & ? & ? & _). congruence. }
  destruct (Hrouter ip (proj1 (proj1 Hmeta))) as (o & Ho & Hl2). rewrite Ho. run. destruct o as [res|].
  2:{ exists mem, b, (Err NoEgressRoute). unfold b. rewrite with_packet_same. split_and!; try done.
      intros (? & ? & ? & ? & ? & ? & ? & _). congruence. }
  destruct Hl2 as [l2 Hl2].
  rewrite <- Hdst in Hmeta.
  destruct (in_place_spec local_ip local_port ttl Hsock mem (ip_mtu res) tx Hok Hmeta) as (mem1 & p1 & r & Hp & Hr).
  rewrite Hp. run. destruct r as [[]|e].
  2:{ destruct Hr as (-> & -> & Hno). exists mem, b, (Err e). split_and!; try done.
      intros (ip' & port' & res' & l2' & a & H1 & H2 & H3 & H4 & H5 & H6).
      rewrite Hdst in H1. simplify_eq. rewrite Ho in H2. simplify_eq. done. }
  destruct Hr as (ip' & port' & Hdst' & Hmtu & Hf & Hok1 & Hb1 & Hout & Hs & He & Hc & Hcap1 & Harm & Hum & Hum').
  assert (ip' = ip ∧ port' = port) as [-> ->] by (rewrite Hdst in Hdst'; by simplify_eq).
  fold b in Hmtu, Hf, Hb1, Hout, Hs, He, Hc, Hcap1, Hum, Hum'.
  set (f := tx_fields local_ip local_port ttl ip port (ut_source_ip tx) (ut_source_port tx) (ut_ecn tx) (buf_len b)) in *.
  rewrite Hl2. run. cbn [with_packet ut_packet].
  assert (Hlb : len (header f (header_checksum f) ++ packet_bytes mem b) = buf_len p1).
  { rewrite <- Hb1. by apply len_packet_bytes. }
  assert (Hrestore : ∃ b', trim_prefix_from_inner p1 (IPV4_MIN_HEADER_LEN + UDP_HEADER_LEN) = (b', Ok tt) ∧
    inner_ok mem1 b' ∧ packet_bytes mem1 b' = packet_bytes mem b ∧ bi_start b' = bi_start p1 + 28 ∧ bi_end b' = bi_end p1).
  { by apply (restore_ok mem1 p1 (header f (header_checksum f)) (packet_bytes mem b)). }
  destruct (prepare_tx_frame_total mem1 p1 l2 Hok1 ltac:(lia))
    as [(a & mem2 & Hst & Hroom & Hpr & Hok2 & Hout2 & Hwin)|Hnone].
  - rewrite Hpr. run. exists mem2, p1. eexists. split; [reflexivity|].
    assert (Hstb : bi_storage b = Some (UmemFrame a)) by (by apply Hum').
    split; [destruct Hout as [<- _]; apply Hout2|]. split.
    { apply (same_outside_trans mem mem1 mem2 b p1); try done. }
    exists ip, port, res, l2, a. rewrite Hb1 in Hwin. unfold buf_len in *. rewrite He, Hs in *.
    split_and!; try done; [lia| |].
    + f_equal; cbn [tf_desc_addr tf_len]; lia.
    + etransitivity; [|exact Hwin]. f_equal; lia.
  - rewrite Hnone. run. unfold restore_prepared_xdp_udp_transmit_in_place. cbn [with_packet ut_packet].
    destruct Hrestore as (b' & Ht & Hok' & Hb' & Hs' & He'). rewrite Ht.
    exists mem1, b'. eexists. split; [reflexivity|]. split; [apply Hout|]. split_and!; try done; try lia.
    intros (ip' & port' & res' & l2' & a & H1 & H2 & H3 & H4 & _ & H6).
    rewrite Hdst in H1. simplify_eq. rewrite Ho in H2. simplify_eq. rewrite Hl2 in H3. simplify_eq.
    fold b in H4, H6. destruct (prepare_tx_frame_ok mem1 p1 l2' a Hok1) as (mem2 & Hpr & _);
      [by apply Hum|lia|unfold U32_MAX in Hcap; lia|]. by rewrite Hnone in Hpr.
Qed.

End Slots.

(** ** Properties *)

(** The handle is on frame [i] of the UMEM. *)
Record on_frame (u : Umem) (i : Z) (b : XdpPacketBufInner) : Prop := mkOnFrame {
  of_index : 0 ≤ i < um_frame_count u;
  of_storage : bi_storage b = Some (UmemFrame (frame_offset u i));
  of_ctx : ∃ pool, bc_reclaim (bi_ctx b) = UmemCtx pool (um_frame_size u);
  of_size : um_frame_size u ≤ U32_MAX;
  of_ok : inner_ok (um_backing u) b;
}.

Lemma on_frame_capacity u i b : on_frame u i b → bi_capacity b = um_frame_size u.
Proof. intros [_ Hs [pool Hc] _ _]. unfold bi_capacity. by rewrite Hs, Hc. Qed.

(** A descriptor range that a step wrote into frame [i] is read back by the
    checked UMEM access. *)
Lemma frame_range_read u i b mem' off n bytes :
  um_ok u → on_frame u i b → len mem' = umem_len u → 0 ≤ off → 0 < n → off + n ≤ um_frame_size u →
  window mem' (frame_offset u i + off) n = bytes →
  let u' := mkUmem mem' (um_frame_size u) (um_frame_count u) in
  um_ok u' ∧ slice_at u' (frame_offset u i + off) n = Ret bytes.
Proof.
  intros Hu [Hi _ _ _ _] Hlen Hoff Hn Hle Hw u'. unfold umem_len in Hlen.
  assert (Hu' : um_ok u').
  { destruct Hu as (? & ? & ?). unfold u', um_ok, umem_len in *. cbn. rewrite Hlen. done. }
  split; [done|]. unfold frame_offset in *.
  destruct (validated_range_in u' i (i * um_frame_size u + off) n Hu') as (_ & Hv & Hin);
    cbn [u' um_frame_size um_frame_count um_backing] in *; [done|lia..|].
  unfold slice_at. rewrite Hv. pose proof (um_frame_pos u Hu).
  rewrite slice_window by (cbn [u' um_backing]; nia). cbn [u' um_backing]. by rewrite Hw.
Qed.

(** C5. End to end through UMEM: a routable UDP packet that fits the MTU and
    has room for its headers is turned, in place, into a frame and a
    descriptor such that the descriptor is a valid range of its own UMEM
    frame, no byte of another frame changes, and the receive parser run on the
    descriptor's bytes returns the destination, the chosen source address and
    port, the ECN mark and a payload range that holds exactly the packet's
    bytes. *)
Theorem udp_tx_end_to_end {R} `{XdpUdpRouter R} (router : R) (local_ip local_port ttl : Z)
    (context : XdpRouteContext) (u : Umem) (i : Z) (e : XdpEgress) (res : ResolvedL2)
    (ip port : Z) (tx : UdpTransmit XdpPacketBufInner) :
  socket_ok local_ip local_port ttl → router_ok router context → um_ok u →
  on_frame u i (ut_packet tx) →
  meta_ok (ut_destination tx) (ut_source_ip tx) (ut_source_port tx) →
  ut_destination tx = SocketAddrV4 ip port →
  resolve_udp_l2 router ip context = Ret (Some res) → l2_header res = Ret (eth_bytes e) →
  egress_ok e → eg_ethertype e = ETHERTYPE_IPV4 →
  packet_fits local_ip (ip_mtu res) tx → len (eth_bytes e) + 28 ≤ bi_start (ut_packet tx) →
  ∃ mem' p' addr n frame,
    prepare_udp_slot router local_ip local_port ttl context (um_backing u) (Ready tx)
    = Ret (mem', Ready (with_packet tx p'), Ok (mkXdpDesc addr n 0)) ∧
    let payload := packet_bytes (um_backing u) (ut_packet tx) in
    let l2 := ethernet_header_len e in
    let u' := mkUmem mem' (um_frame_size u) (um_frame_count u) in
    um_ok u' ∧ same_outside (um_backing u) mem' (ut_packet tx) ∧
    slice_at u' addr n = Ret frame ∧
    parse_ethernet_ipv4_udp frame
    = Ret (Udp (mkParsedUdp (match ut_source_ip tx with Some (IpAddrV4 a) => a | _ => local_ip end) ip
                  (default local_port (ut_source_port tx)) port (28 + len payload) (l2 + 28)
                  (len payload) (Some (default NotEct (ut_ecn tx))))) ∧
    slice_or_panic frame (l2 + 28) (l2 + 28 + len payload) = Ret payload.
Proof.
  intros Hsock Hrouter Hu Hof Hmeta Hdst Hres Hl2 He Het Hfits Hroom.
  pose proof (on_frame_capacity u i _ Hof) as Hcap. pose proof (of_ok _ _ _ Hof) as Hok.
  pose proof (of_size _ _ _ Hof). pose proof (of_storage _ _ _ Hof) as Hst.
  destruct (prepare_udp_slot_spec router local_ip local_port ttl Hsock context Hrouter
    (um_backing u) tx Hok ltac:(lia) Hmeta) as (mem' & p' & r & Hrun & Hlen & Hout & Hr).
  destruct r as [desc|].
  2:{ destruct Hr as (_ & _ & _ & _ & []). by exists ip, port, res, (eth_bytes e), (frame_offset u i). }
  destruct Hr as (ip' & port' & res' & l2 & a & H1 & H2 & H3 & H4 & H5 & H6 & H7 & -> & H9).
  rewrite Hdst in H1. rewrite Hst in H4. simplify_eq. rewrite Hres in H2. simplify_eq. rewrite Hl2 in H3. simplify_eq.
  set (b := ut_packet tx) in *. set (f := tx_fields _ _ _ _ _ _ _ _ _) in *.
  pose proof (len_packet_bytes _ _ Hok) as Hpl. pose proof (io_packet _ _ Hok). pose proof (io_end _ _ Hok) as Hend.
  rewrite Hcap in Hend. pose proof (len_nonneg (eth_bytes e)).
  assert (Hn : 0 ≤ buf_len b) by (unfold buf_len; lia).
  destruct (build_ethernet_header_ok e He) as (_ & _ & Hl2len).
  assert (Hoff : frame_offset u i + bi_start b - 28 - len (eth_bytes e)
    = frame_offset u i + (bi_start b - 28 - len (eth_bytes e))) by lia.
  rewrite Hoff in *.
  destruct (frame_range_read u i b mem' (bi_start b - 28 - len (eth_bytes e)) (len (eth_bytes e) + 28 + buf_len b)
    _ Hu Hof Hlen ltac:(lia) ltac:(lia) ltac:(unfold buf_len in *; lia) H9) as [Hu' Hs].
  eexists mem', p', _, _, _. split; [exact Hrun|]. cbv zeta. split_and!; [exact Hu'|exact Hout|exact Hs| |].
  - pose proof (frame_parses e f (header_checksum f) (packet_bytes (um_backing u) b) [] He Het H6) as Hp.
    rewrite app_nil_r in Hp. rewrite Hp; [done| |]; cbn [f tx_fields hf_udp_len hf_total_len]; lia.
  - rewrite <- Hl2len. rewrite app_assoc.
    replace (len (eth_bytes e) + 28) with (len (eth_bytes e ++ header f (header_checksum f)))
      by (by rewrite len_app).
    rewrite <- (app_nil_r (packet_bytes (um_backing u) b)) at 1.
    apply slice_middle.
Qed.

(** The per-packet step of the UDP send loop always returns. It yields a
    descriptor exactly for the packets that can be sent; in every other case it
    reports an error and the slot still holds the same packet, with the same
    bytes, bounds and metadata, in a valid buffer; a slot already taken is
    reported as an invalid batch. No outcome changes a byte outside the
    packet's frame. *)
Theorem udp_slot_step_total {R} `{XdpUdpRouter R} (router : R) (local_ip local_port ttl : Z)
    (context : XdpRouteContext) (mem : list Z) (tx : UdpTransmit XdpPacketBufInner) :
  socket_ok local_ip local_port ttl → router_ok router context →
  inner_ok mem (ut_packet tx) → bi_capacity (ut_packet tx) ≤ U32_MAX →
  meta_ok (ut_destination tx) (ut_source_ip tx) (ut_source_port tx) →
  prepare_udp_slot router local_ip local_port ttl context mem Taken = Ret (mem, Taken, Err InvalidBatch) ∧
  ∃ mem' p' r,
    prepare_udp_slot router local_ip local_port ttl context mem (Ready tx)
    = Ret (mem', Ready (with_packet tx p'), r) ∧
    same_outside mem mem' (ut_packet tx) ∧
    (is_ok r = true ↔ udp_sendable router local_ip context tx) ∧
    (is_ok r = false → inner_ok mem' p' ∧ packet_bytes mem' p' = packet_bytes mem (ut_packet tx) ∧
       bi_start p' = bi_start (ut_packet tx) ∧ bi_end p' = bi_end (ut_packet tx)).
Proof.
  intros Hsock Hrouter Hok Hcap Hmeta. split; [done|].
  destruct (prepare_udp_slot_spec router local_ip local_port ttl Hsock context Hrouter mem tx Hok Hcap Hmeta)
    as (mem' & p' & r & Hrun & _ & Hout & Hr).
  exists mem', p', r. split; [done|]. split; [done|]. destruct r as [desc|e]; cbn.
  - split; [|done]. split; [|done]. intros _.
    destruct Hr as (ip & port & res & l2 & a & H1 & H2 & H3 & H4 & H5 & H6 & H7 & _).
    by exists ip, port, res, l2, a.
  - destruct Hr as (H1 & H2 & H3 & H4 & H5). split; [by split|done].
Qed.

(** ** Cached endpoints *)
Lemma build_cache_ok {R} `{XdpUdpRouter R} (router : R) local_ip local_port ttl context gen spec ip port
    res l2 n :
  socket_ok local_ip local_port ttl →
  meta_ok (sp_destination spec) (sp_source_ip spec) (sp_source_port spec) →
  sp_destination spec = SocketAddrV4 ip port → source_v4 local_ip (sp_source_ip spec) ≠ None →
  sp_gso_segment_size spec = None → sp_payload_len spec = Some n →
  resolve_udp_l2 router ip context = Ret (Some res) → l2_header res = Ret l2 →
  0 ≤ n → 28 + n ≤ ip_mtu res → 28 + n ≤ U16_MAX →
  let f := tx_fields local_ip local_port ttl ip port (sp_source_ip spec) (sp_source_port spec) (sp_ecn spec) n in
  build_xdp_udp_endpoint_cache router local_ip local_port ttl context gen spec
  = Ret (Ok (mkCache gen (l2 ++ header f (header_checksum f)) (len l2),
             mkInfo (ip_mtu res - 28) (Some n) None)).
Proof.
  intros Hsock Hmeta Hdst Hsrc Hgso Hn Hres Hl2 H0 Hmtu Hmax f.
  unfold build_xdp_udp_endpoint_cache. rewrite Hdst in *. destruct (source_v4 _ _) as [sip|] eqn:Hs; [|done].
  rewrite Hgso, Hres. run. unfold checked_sub, IPV4_MIN_HEADER_LEN, UDP_HEADER_LEN in *.
  destruct (Z.leb_spec (20 + 8) (ip_mtu res)); [|lia]. rewrite Hn. cbn [default].
  unfold validate_xdp_udp_endpoint_payload, IPV4_MIN_HEADER_LEN, UDP_HEADER_LEN. cbn [ei_payload_len ei_mtu from_option id].
  rewrite Z.eqb_refl. cbn [negb].
  destruct (Z.ltb_spec (ip_mtu res - (20 + 8)) n); [lia|].
  destruct (Z.ltb_spec (U16_MAX - 20 - 8) n); [lia|].
  destruct (Z.ltb_spec U16_MAX (n + 8 + 20)); [lia|]. rewrite Hl2. run.
  destruct (u16_lengths n) as [Ht Hu]; [done|lia|]. unfold IPV4_MIN_HEADER_LEN, UDP_HEADER_LEN in Ht, Hu.
  rewrite Ht, Hu.
  assert (Hsource : sip = match sp_source_ip spec with Some (IpAddrV4 a) => a | _ => local_ip end).
  { destruct (sp_source_ip spec) as [[]|]; simplify_eq/=; done. }
  rewrite Hsource. change (mkFields _ _ _ _ _ _ _ _) with f.
  rewrite write_headers_ok by (apply tx_fields_ok; done || lia). run. done.
Qed.

Lemma build_cache_generation {R} `{XdpUdpRouter R} (router : R) local_ip local_port ttl context gen spec c info :
  build_xdp_udp_endpoint_cache router local_ip local_port ttl context gen spec = Ret (Ok (c, info)) →
  ec_route_generation c = gen.
Proof.
  unfold build_xdp_udp_endpoint_cache. intros Hb.
  destruct (sp_destination spec); [|discriminate]. destruct (source_v4 _ _); [|discriminate].
  destruct (sp_gso_segment_size spec); [discriminate|].
  apply bind_ret_inv in Hb as ([res|] & _ & Hb); [|discriminate].
  destruct (checked_sub _ _); [|discriminate]. cbv zeta in Hb.
  destruct (validate_xdp_udp_endpoint_payload _ _); [|discriminate].
  destruct (U16_MAX <? _); [discriminate|].
  apply bind_ret_inv in Hb as (l2 & _ & Hb). apply bind_ret_inv in Hb as (h & _ & Hb).
  by injection Hb as <- _.
Qed.


(** A stale header is never used: refreshing an endpoint keeps its
    request, and on success its cache carries the router's current generation
    and is either the one it had or the one a fresh build gives; on failure the
    endpoint is left without a cache and the error is the build's. *)
Theorem endpoint_refresh_current {R} `{XdpUdpRouter R} (router : R) (local_ip local_port ttl : Z)
    (context : XdpRouteContext) (ep ep' : XdpUdpEndpoint) (r : result unit Error) :
  refresh_udp_endpoint_cache router local_ip local_port ttl context ep = Ret (ep', r) →
  xe_spec ep' = xe_spec ep ∧
  match r with
  | Ok _ =>
      ∃ c, xe_cached ep' = Some c ∧ ec_route_generation c = route_generation router ∧
        ((xe_cached ep = Some c ∧ xe_info ep' = xe_info ep) ∨
         build_xdp_udp_endpoint_cache router local_ip local_port ttl context (route_generation router)
           (xe_spec ep) = Ret (Ok (c, xe_info ep')))
  | Err e =>
      xe_cached ep' = None ∧
      build_xdp_udp_endpoint_cache router local_ip local_port ttl context (route_generation router)
        (xe_spec ep) = Ret (Err e)
  end.
Proof.
  unfold refresh_udp_endpoint_cache. intros Hrun.
  assert (Hrebuild : (r0 ← build_xdp_udp_endpoint_cache router local_ip local_port ttl context
      (route_generation router) (xe_spec ep);
    match r0 with
    | Ok (cached, info) => Ret (mkXdpUdpEndpoint (xe_spec ep) info (Some cached), @Ok unit Error tt)
    | Err e => Ret (mkXdpUdpEndpoint (xe_spec ep) (xe_info ep) None, Err e)
    end) = Ret (ep', r) → xe_spec ep' = xe_spec ep ∧
    match r with
    | Ok _ => ∃ c, xe_cached ep' = Some c ∧ ec_route_generation c = route_generation router ∧
        ((xe_cached ep = Some c ∧ xe_info ep' = xe_info ep) ∨
         build_xdp_udp_endpoint_cache router local_ip local_port ttl context (route_generation router)
           (xe_spec ep) = Ret (Ok (c, xe_info ep')))
    | Err e => xe_cached ep' = None ∧
        build_xdp_udp_endpoint_cache router local_ip local_port ttl context (route_generation router)
        (xe_spec ep) = Ret (Err e)
    end).
  { intros Hb. apply bind_ret_inv in Hb as ([[c info]|e] & Hb & Hr); simplify_eq/=; [|done].
    split; [done|]. exists c. split; [done|]. split; [|by right].
    by eapply build_cache_generation. }
  destruct (xe_cached ep) as [c|] eqn:Hc; [|by apply Hrebuild].
  destruct (Z.eqb_spec (ec_route_generation c) (route_generation router)); cbn [negb] in Hrun;
    [|by apply Hrebuild].
  simplify_eq/=. split; [done|]. exists c. split_and!; try done. by left.
Qed.

(** ** Witnesses

    A router that sends everything to one egress, and a buffer holding three
    bytes at offset 60 of the second of two 128-byte frames. *)
#[local] Instance static_router : XdpUdpRouter XdpEgress := {
  resolve_udp_egress := λ r _ _, Ret (Some r);
  resolve_udp_egress_resolved := λ r _ _, default_resolve_udp_egress_resolved (Ret (Some r));
  resolve_udp_l2 := λ r _ context,
    default_resolve_udp_l2 (default_resolve_udp_egress_resolved (Ret (Some r))) context;
  route_generation := λ _, default_route_generation;
}.
Definition demo_context : XdpRouteContext := mkRouteContext 1 0 1500.
Definition demo_mem : list Z := replicate 188 0 ++ [11; 12; 13] ++ replicate 65 0.
Definition demo_umem : Umem := mkUmem demo_mem 128 2.
Definition demo_buf : XdpPacketBufInner :=
  mkInner (Some (UmemFrame 128)) (mkBufCtx (mkLayout 64 28 0 128 60 1 128 1 18 true) (UmemCtx TxPool 128)) true 60 63.
Definition demo_dst : SocketAddr := SocketAddrV4 167772162 6000.
Definition demo_tx : UdpTransmit XdpPacketBufInner :=
  mkUdpTransmit demo_buf demo_dst None None (Some Ect0) None.
Definition demo_spec : UdpEndpointSpec := mkSpec demo_dst None None (Some Ect0) None (Some 3).
Definition demo_l2 : ResolvedL2 :=
  match resolve_udp_l2 demo_egress 0 demo_context with
  | Ret (Some r) => r
  | _ => Borrowed [] 0
  end.

Lemma demo_socket : socket_ok 167772161 5000 64.
Proof. constructor; vm_compute; split; congruence. Qed.
Lemma demo_router : router_ok demo_egress demo_context.
Proof. intros dst _. eexists. split; [vm_compute; reflexivity|]. eexists. vm_compute. reflexivity. Qed.
Lemma demo_inner : inner_ok demo_mem demo_buf.
Proof. constructor; vm_compute; repeat split; congruence. Qed.
Lemma demo_meta : meta_ok demo_dst None None.
Proof. vm_compute; repeat split; congruence. Qed.
Lemma demo_fits : packet_fits 167772161 1500 demo_tx.
Proof. exists 167772162, 6000. vm_compute; repeat split; congruence. Qed.

Lemma udp_tx_end_to_end_witness :
  ∃ mem' p' addr n frame,
    prepare_udp_slot demo_egress 167772161 5000 64 demo_context demo_mem (Ready demo_tx)
    = Ret (mem', Ready (with_packet demo_tx p'), Ok (mkXdpDesc addr n 0)) ∧
    slice_at (mkUmem mem' 128 2) addr n = Ret frame ∧
    parse_ethernet_ipv4_udp frame
    = Ret (Udp (mkParsedUdp 167772161 167772162 5000 6000 31 46 3 (Some Ect0))) ∧
    slice_or_panic frame 46 49 = Ret [11; 12; 13].
Proof.
  destruct (udp_tx_end_to_end demo_egress 167772161 5000 64 demo_context demo_umem 1 demo_egress demo_l2
    167772162 6000 demo_tx) as (mem' & p' & addr & n & frame & Hrun & _ & _ & Hs & Hp & Hpay).
  - exact demo_socket.
  - exact demo_router.
  - split_and!; vm_compute; congruence.
  - constructor; try exact demo_inner; try (exists TxPool; reflexivity); vm_compute; repeat split; congruence.
  - exact demo_meta.
  - reflexivity.
  - vm_compute. reflexivity.
  - vm_compute. reflexivity.
  - split; reflexivity.
  - reflexivity.
  - exact demo_fits.
  - vm_compute. congruence.
  - exists mem', p', addr, n, frame. split; [exact Hrun|]. split; [exact Hs|]. split; [exact Hp|exact Hpay].
Defined.

Lemma udp_slot_step_total_witness :
  ∃ mem' p' r,
    prepare_udp_slot demo_egress 167772161 5000 64 (mkRouteContext 2 0 1500) demo_mem (Ready demo_tx)
    = Ret (mem', Ready (with_packet demo_tx p'), r) ∧
    r = Err NoEgressRoute ∧ packet_bytes mem' p' = [11; 12; 13].
Proof.
  destruct (udp_slot_step_total demo_egress 167772161 5000 64 (mkRouteContext 2 0 1500) demo_mem demo_tx)
    as (_ & mem' & p' & r & Hrun & _ & _ & Hkeep).
  - exact demo_socket.
  - intros dst _. eexists. split; [vm_compute; reflexivity|]. exact I.
  - exact demo_inner.
  - vm_compute. congruence.
  - exact demo_meta.
  - exists mem', p', r. split; [exact Hrun|].
    assert (Hr : r = Err NoEgressRoute) by (vm_compute in Hrun; congruence).
    split; [exact Hr|]. rewrite Hr in Hkeep. destruct (Hkeep eq_refl) as (_ & Hb & _). rewrite Hb. reflexivity.
Defined.


Lemma endpoint_refresh_current_witness :
  ∃ ep c, refresh_udp_endpoint_cache demo_egress 167772161 5000 64 demo_context
      (mkXdpUdpEndpoint demo_spec (mkInfo 0 None None) (Some (mkCache 7 [] 0))) = Ret (ep, Ok tt) ∧
    xe_cached ep = Some c ∧ ec_route_generation c = 0.
Proof.
  destruct (endpoint_refresh_current (H := static_router) demo_egress 167772161 5000 64 demo_context
    (mkXdpUdpEndpoint demo_spec (mkInfo 0 None None) (Some (mkCache 7 [] 0))) _ (Ok tt)
    ltac:(vm_compute; reflexivity)) as [_ (c & Hc & Hg & _)].
  eexists _, c. split; [vm_compute; reflexivity|]. split; [exact Hc|exact Hg].
Defined.
