(* ===== verification/Route.v ===== *)
(** * Routes: [crates/fast-socket-xdp-rs/src/route.rs]

    Route snapshots with their two derived indexes (the longest-prefix-match
    table and the folded per-interface egress table), queue-local adoption of
    updates, and the router built on them. The snapshot read from the kernel
    over netlink is in [Snapshot]. *)
From S2P Require Import Prelude Bits Core Poptrie Wire XdpUdp.
Open Scope Z_scope.

#[export] Instance XdpEgress_eq_dec : EqDecision XdpEgress.
Proof. solve_decision. Defined.
#[export] Instance XdpResolvedEgress_eq_dec : EqDecision XdpResolvedEgress.
Proof. solve_decision. Defined.

(** ** Data *)
Record Ipv4Route := mkRoute {
  rt_destination : Z;
  rt_prefix_len : Z;
  rt_ifindex : Z;
  rt_gateway : option Z;
  rt_priority : Z;
  rt_mtu : Z;
}.
#[export] Instance Ipv4Route_eq_dec : EqDecision Ipv4Route.
Proof. solve_decision. Defined.

Record InterfaceInfo := mkInterface {
  if_ifindex : Z;
  if_master_ifindex : option Z;
  if_mac : list Z;
  if_mtu : Z;
  if_queue : Z;
}.

Record InterfaceEgress := mkInterfaceEgress {
  ie_slots : list Z;
  ie_egresses : list XdpResolvedEgress;
}.

Definition EGRESS_NONE : Z := U32_MAX.
Definition EGRESS_ON_LINK : Z := U32_MAX - 1.

Record RouteSnapshot := mkSnapshot {
  routes_v4 : list Ipv4Route;
  route_index_v4 : option (Poptrie Z);
  egress_index_v4 : gmap Z InterfaceEgress;
  neighbors_v4 : gmap (Z * Z) (list Z);
  interfaces : gmap Z InterfaceInfo;
}.

(** [RouteSnapshot::new]. *)
Definition snapshot_new : RouteSnapshot := mkSnapshot [] None ∅ ∅ ∅.

(** [Ipv4Poptrie]: 14 direct bits over [u32] keys. *)
Definition IPV4_DIRECT_BITS : Z := 14.

(** [XdpResolvedEgress::with_queue]. *)
Definition egress_with_queue (e : XdpEgress) (queue : Z) : XdpEgress :=
  mkEgress (eg_ifindex e) queue (eg_dst_mac e) (eg_src_mac e) (eg_ethertype e) (eg_vlan e) (eg_mtu e).
Definition with_queue (r : XdpResolvedEgress) (queue : Z) : XdpResolvedEgress :=
  mkResolved (egress_with_queue (re_egress r) queue) (re_l2_header r) (re_l2_len r).

(** ** The route table *)
Definition same_route_key (a b : Ipv4Route) : bool :=
  (rt_destination a =? rt_destination b) && (rt_prefix_len a =? rt_prefix_len b)
  && (rt_ifindex a =? rt_ifindex b) && bool_decide (rt_gateway a = rt_gateway b).

(** [upsert_route_v4_no_sort]: the first entry with the route's key is
    overwritten, or the route is pushed. *)
Fixpoint upsert_route_v4_no_sort (routes : list Ipv4Route) (route : Ipv4Route) : list Ipv4Route :=
  match routes with
  | [] => [route]
  | existing :: routes =>
      if same_route_key existing route then route :: routes
      else existing :: upsert_route_v4_no_sort routes route
  end.

(** The comparator of [sort_routes_v4]. *)
Definition route_cmp (left right : Ipv4Route) : comparison :=
  match Z.compare (rt_prefix_len right) (rt_prefix_len left) with
  | Eq => Z.compare (rt_priority left) (rt_priority right)
  | c => c
  end.
Definition route_leb (left right : Ipv4Route) : bool :=
  match route_cmp left right with Gt => false | _ => true end.

(** [slice::sort_by] is a stable sort, and the stable sort of a list is unique:
    insertion from the right, an element going before its equals. *)
Fixpoint sort_insert (route : Ipv4Route) (routes : list Ipv4Route) : list Ipv4Route :=
  match routes with
  | [] => [route]
  | r :: rest => if route_leb route r then route :: routes else r :: sort_insert route rest
  end.
Definition sort_routes_v4 (routes : list Ipv4Route) : list Ipv4Route := foldr sort_insert [] routes.

(** The insertions of [rebuild_route_index_v4]: [(destination, min(prefix_len,
    32), index as u32)] for each route, from the last to the first. *)
Definition indexed_routes (routes : list Ipv4Route) : list (Z * Z * Z) :=
  imap (λ i r, (rt_destination r, Z.min (rt_prefix_len r) 32, u32 (Z.of_nat i))) routes.
Definition rebuild_route_index_v4 (routes : list Ipv4Route) : outcome (option (Poptrie Z)) :=
  match routes with
  | [] => Ret None
  | _ =>
      builder ← insert_all (K := u32_key) builder_new (rev (indexed_routes routes));
      t ← build (K := u32_key) IPV4_DIRECT_BITS builder;
      Ret (Some t)
  end.

(** ** The folded egress index *)

(** The neighbour of [next_hop], on the interface or on the route's own. *)
Definition neighbor_mac (neighbors : gmap (Z * Z) (list Z)) (ifindex route_ifindex next_hop : Z) :
    option (list Z) :=
  match neighbors !! (ifindex, next_hop) with
  | Some mac => Some mac
  | None => neighbors !! (route_ifindex, next_hop)
  end.

(** Does the route leave through the interface, directly or as its bond
    master? *)
Definition route_via (interface : InterfaceInfo) (route : Ipv4Route) : bool :=
  (rt_ifindex route =? if_ifindex interface)
  || bool_decide (if_master_ifindex interface = Some (rt_ifindex route)).

(** [*dedup.entry(resolved).or_insert_with(..)]: the hash map is a list of its
    entries. *)
Fixpoint dedup_get (dedup : list (XdpResolvedEgress * Z)) (e : XdpResolvedEgress) : option Z :=
  match dedup with
  | [] => None
  | (k, slot) :: dedup => if decide (k = e) then Some slot else dedup_get dedup e
  end.

Record EgressFold := mkFold {
  ef_slots : list Z;
  ef_egresses : list XdpResolvedEgress;
  ef_dedup : list (XdpResolvedEgress * Z);
  ef_egressable : bool;
}.

(** The body of the loop over the routes. *)
Definition fold_route (neighbors : gmap (Z * Z) (list Z)) (interface : InterfaceInfo)
    (route_index : Z) (route : Ipv4Route) (st : EgressFold) : outcome EgressFold :=
  if negb (route_via interface route) then Ret st
  else
    match rt_gateway route with
    | Some gateway =>
        match neighbor_mac neighbors (if_ifindex interface) (rt_ifindex route) gateway with
        | None => Ret st
        | Some dst_mac =>
            resolved ← from_egress (egress_ipv4 (if_ifindex interface) (if_queue interface) dst_mac
                                      (if_mac interface) (Z.min (rt_mtu route) (if_mtu interface)));
            let '(slot, egresses, dedup) :=
              match dedup_get (ef_dedup st) resolved with
              | Some slot => (slot, ef_egresses st, ef_dedup st)
              | None =>
                  let slot := u32 (len (ef_egresses st)) in
                  (slot, ef_egresses st ++ [resolved], (resolved, slot) :: ef_dedup st)
              end in
            slots ← set_index (ef_slots st) route_index slot;
            Ret (mkFold slots egresses dedup true)
        end
    | None =>
        slots ← set_index (ef_slots st) route_index EGRESS_ON_LINK;
        Ret (mkFold slots (ef_egresses st) (ef_dedup st) true)
    end.

Fixpoint fold_routes (neighbors : gmap (Z * Z) (list Z)) (interface : InterfaceInfo)
    (route_index : Z) (routes : list Ipv4Route) (st : EgressFold) : outcome EgressFold :=
  match routes with
  | [] => Ret st
  | route :: routes =>
      st ← fold_route neighbors interface route_index route st;
      fold_routes neighbors interface (route_index + 1) routes st
  end.

(** The loop over [interfaces.values()]. *)
Fixpoint index_interfaces (neighbors : gmap (Z * Z) (list Z)) (routes : list Ipv4Route)
    (ifaces : list InterfaceInfo) (index : gmap Z InterfaceEgress) :
    outcome (gmap Z InterfaceEgress) :=
  match ifaces with
  | [] => Ret index
  | interface :: ifaces =>
      st ← fold_routes neighbors interface 0 routes
             (mkFold (replicate (length routes) EGRESS_NONE) [] [] false);
      index_interfaces neighbors routes ifaces
        (if ef_egressable st
         then <[if_ifindex interface := mkInterfaceEgress (ef_slots st) (ef_egresses st)]> index
         else index)
  end.

Definition rebuild_egress_index_v4 (routes : list Ipv4Route) (neighbors : gmap (Z * Z) (list Z))
    (ifaces : gmap Z InterfaceInfo) : outcome (gmap Z InterfaceEgress) :=
  match routes with
  | [] => Ret ∅
  | _ => index_interfaces neighbors routes (map_to_list ifaces).*2 ∅
  end.

(** ** Updates *)
Definition sorted_and_indexed (s : RouteSnapshot) (routes : list Ipv4Route) : outcome RouteSnapshot :=
  let routes := sort_routes_v4 routes in
  route_index ← rebuild_route_index_v4 routes;
  egress_index ← rebuild_egress_index_v4 routes (neighbors_v4 s) (interfaces s);
  Ret (mkSnapshot routes route_index egress_index (neighbors_v4 s) (interfaces s)).

Definition upsert_route_v4 (s : RouteSnapshot) (route : Ipv4Route) : outcome RouteSnapshot :=
  sorted_and_indexed s (upsert_route_v4_no_sort (routes_v4 s) route).

Definition upsert_routes_v4 (s : RouteSnapshot) (routes : list Ipv4Route) : outcome RouteSnapshot :=
  match routes with
  | [] => Ret s
  | _ => sorted_and_indexed s (foldl upsert_route_v4_no_sort (routes_v4 s) routes)
  end.

Definition upsert_neighbor_v4 (s : RouteSnapshot) (ifindex ip : Z) (mac : list Z) : outcome RouteSnapshot :=
  let neighbors := <[(ifindex, ip) := mac]> (neighbors_v4 s) in
  egress_index ← rebuild_egress_index_v4 (routes_v4 s) neighbors (interfaces s);
  Ret (mkSnapshot (routes_v4 s) (route_index_v4 s) egress_index neighbors (interfaces s)).

Definition upsert_interface (s : RouteSnapshot) (interface : InterfaceInfo) : outcome RouteSnapshot :=
  let ifaces := <[if_ifindex interface := interface]> (interfaces s) in
  egress_index ← rebuild_egress_index_v4 (routes_v4 s) (neighbors_v4 s) ifaces;
  Ret (mkSnapshot (routes_v4 s) (route_index_v4 s) egress_index (neighbors_v4 s) ifaces).

(** ** Resolution *)
Definition lookup_route_index_v4 (s : RouteSnapshot) (dst : Z) : outcome (option Z) :=
  match route_index_v4 s with
  | None => Ret None
  | Some t => Poptrie.lookup (K := u32_key) IPV4_DIRECT_BITS t dst
  end.

Definition lookup_route_v4 (s : RouteSnapshot) (dst : Z) : outcome (option Ipv4Route) :=
  i ← lookup_route_index_v4 s dst;
  Ret (match i with Some i => nthZ (routes_v4 s) i | None => None end).

Definition egress_v4 (s : RouteSnapshot) (dst : Z) : outcome (option XdpEgress) :=
  route ← lookup_route_v4 s dst;
  Ret (match route with
       | None => None
       | Some route =>
           let next_hop := default dst (rt_gateway route) in
           match neighbors_v4 s !! (rt_ifindex route, next_hop) with
           | None => None
           | Some dst_mac =>
               match interfaces s !! rt_ifindex route with
               | None => None
               | Some interface =>
                   Some (egress_ipv4 (rt_ifindex route) (if_queue interface) dst_mac
                           (if_mac interface) (Z.min (rt_mtu route) (if_mtu interface)))
               end
           end
       end).

(** The on-link egress of [route_index] for one interface. *)
Definition on_link_egress (s : RouteSnapshot) (route_index dst ifindex : Z)
    (queue : InterfaceInfo → Z) : option XdpEgress :=
  match nthZ (routes_v4 s) route_index with
  | None => None
  | Some route =>
      match interfaces s !! ifindex with
      | None => None
      | Some interface =>
          match neighbor_mac (neighbors_v4 s) ifindex (rt_ifindex route) dst with
          | None => None
          | Some dst_mac =>
              Some (egress_ipv4 ifindex (queue interface) dst_mac (if_mac interface)
                      (Z.min (rt_mtu route) (if_mtu interface)))
          end
      end
  end.

Definition resolved_v4_for_interface (s : RouteSnapshot) (dst ifindex queue : Z) :
    outcome (option XdpResolvedEgress) :=
  i ← lookup_route_index_v4 s dst;
  match i with
  | None => Ret None
  | Some route_index =>
      match egress_index_v4 s !! ifindex with
      | None => Ret None
      | Some interface_egress =>
          match nthZ (ie_slots interface_egress) route_index with
          | None => Ret None
          | Some slot =>
              if slot =? EGRESS_NONE then Ret None
              else if slot =? EGRESS_ON_LINK then
                match on_link_egress s route_index dst ifindex (λ _, queue) with
                | None => Ret None
                | Some e => r ← from_egress e; Ret (Some r)
                end
              else
                r ← index (ie_egresses interface_egress) slot;
                Ret (Some (with_queue r queue))
          end
      end
  end.

Definition egress_v4_for_interface (s : RouteSnapshot) (dst ifindex queue : Z) :
    outcome (option XdpEgress) :=
  r ← resolved_v4_for_interface s dst ifindex queue; Ret (option_map re_egress r).

Definition resolve_l2_on_link_v4 (s : RouteSnapshot) (route_index dst ifindex mtu : Z) :
    outcome (option ResolvedL2) :=
  match on_link_egress s route_index dst ifindex if_queue with
  | None => Ret None
  | Some egress =>
      '(l2_header, l2_len) ← build_ethernet_header egress;
      Ret (Some (Inline l2_header l2_len (Z.min mtu (eg_mtu egress))))
  end.

Definition resolve_l2_for_interface (s : RouteSnapshot) (dst ifindex mtu : Z) :
    outcome (option ResolvedL2) :=
  i ← lookup_route_index_v4 s dst;
  match i with
  | None => Ret None
  | Some route_index =>
      match egress_index_v4 s !! ifindex with
      | None => Ret None
      | Some interface_egress =>
          match nthZ (ie_slots interface_egress) route_index with
          | None => Ret None
          | Some slot =>
              if slot =? EGRESS_NONE then Ret None
              else if slot =? EGRESS_ON_LINK then resolve_l2_on_link_v4 s route_index dst ifindex mtu
              else
                resolved ← index (ie_egresses interface_egress) slot;
                h ← resolved_l2_header resolved;
                Ret (Some (Borrowed h (Z.min mtu (eg_mtu (re_egress resolved)))))
          end
      end
  end.

(** ** Queue-local routes *)
Record XdpLocalRoutes := mkLocalRoutes {
  lr_snapshot : RouteSnapshot;
  lr_pending : list RouteSnapshot;
  lr_generation : Z;
}.
Definition local_routes_new (s : RouteSnapshot) : XdpLocalRoutes := mkLocalRoutes s [] 0.
Definition push_update (r : XdpLocalRoutes) (s : RouteSnapshot) : XdpLocalRoutes :=
  mkLocalRoutes (lr_snapshot r) (lr_pending r ++ [s]) (lr_generation r).

(** The loop of [apply_updates], then the generation. *)
Fixpoint adopt_pending (pending : list RouteSnapshot) (snapshot : RouteSnapshot) (applied : Z) :
    RouteSnapshot * Z :=
  match pending with
  | [] => (snapshot, applied)
  | s :: pending => adopt_pending pending s (applied + 1)
  end.
Definition apply_updates (r : XdpLocalRoutes) : XdpLocalRoutes * Z :=
  let '(snapshot, applied) := adopt_pending (lr_pending r) (lr_snapshot r) 0 in
  let generation :=
    if negb (applied =? 0) then wrapping_add 64 (lr_generation r) applied else lr_generation r in
  (mkLocalRoutes snapshot [] generation, applied).

Definition resolve_v4 (r : XdpLocalRoutes) (dst : Z) : outcome (option XdpEgress) :=
  egress_v4 (lr_snapshot r) dst.
Definition resolve_v4_for_interface (r : XdpLocalRoutes) (dst ifindex queue : Z) :
    outcome (option XdpEgress) :=
  egress_v4_for_interface (lr_snapshot r) dst ifindex queue.
Definition resolve_v4_resolved_for_interface (r : XdpLocalRoutes) (dst ifindex queue : Z) :
    outcome (option XdpResolvedEgress) :=
  resolved_v4_for_interface (lr_snapshot r) dst ifindex queue.

(** [XdpQueueLocalRouter] and its [XdpUdpRouter] implementation. *)
Record XdpQueueLocalRouter := mkQueueLocalRouter { qr_routes : XdpLocalRoutes }.
#[export] Instance queue_local_router : XdpUdpRouter XdpQueueLocalRouter := {
  resolve_udp_egress r dst context :=
    resolve_v4_for_interface (qr_routes r) dst (rc_ifindex context) (rc_queue context);
  resolve_udp_egress_resolved r dst context :=
    resolve_v4_resolved_for_interface (qr_routes r) dst (rc_ifindex context) (rc_queue context);
  resolve_udp_l2 r dst context :=
    resolve_l2_for_interface (lr_snapshot (qr_routes r)) dst (rc_ifindex context) (rc_mtu context);
  route_generation r := lr_generation (qr_routes r);
}.
