(* ===== verification/RouteProofs.v ===== *)
(** * Routes: invariant and proofs

    The order of the route table, what the longest-prefix-match table returns
    for it, and what the folded egress index holds. *)
From Stdlib Require Import Sorted.
From S2P Require Import Prelude Bits Core Poptrie PoptrieEmit PoptrieBuild PoptrieSpec PoptrieValidate PoptrieMain.
From S2P Require Import Window Wire WireProofs WireMain XdpUdp Route.
Open Scope Z_scope.

(** ** Order *)
Definition route_le (a b : Ipv4Route) : Prop :=
  rt_prefix_len b < rt_prefix_len a ∨
  (rt_prefix_len a = rt_prefix_len b ∧ rt_priority a ≤ rt_priority b).

Lemma route_leb_spec a b : reflect (route_le a b) (route_leb a b).
Proof.
  unfold route_leb, route_cmp, route_le.
  apply iff_reflect.
  destruct (Z.compare_spec (rt_prefix_len b) (rt_prefix_len a)); [|split; lia..].
  destruct (Z.compare_spec (rt_priority a) (rt_priority b)); split; (lia || done).
Qed.

Lemma sort_insert_perm r l : Permutation (sort_insert r l) (r :: l).
Proof.
  induction l as [|x l IH]; cbn; [done|]. destruct (route_leb r x); [done|].
  rewrite IH. apply perm_swap.
Qed.

Lemma sort_perm l : Permutation (sort_routes_v4 l) l.
Proof. induction l as [|x l IH]; cbn; [done|]. by rewrite sort_insert_perm, IH. Qed.

Lemma sort_insert_sorted r l : StronglySorted route_le l → StronglySorted route_le (sort_insert r l).
Proof.
  induction 1 as [|x l Hl IH Hx]; cbn; [by repeat constructor|].
  destruct (route_leb_spec r x) as [Hle|Hn].
  - constructor; [by constructor|]. constructor; [done|].
    eapply Forall_impl; [exact Hx|]. unfold route_le in *. intros y Hy. cbn in Hy. lia.
  - constructor; [done|]. rewrite sort_insert_perm. constructor; [|done]. unfold route_le in *. lia.
Qed.

Lemma sort_sorted l : StronglySorted route_le (sort_routes_v4 l).
Proof. induction l; cbn; [constructor|by apply sort_insert_sorted]. Qed.

(** ** The route a destination selects *)
Definition route_matches (dst : Z) (r : Ipv4Route) : bool :=
  let mask := prefix_mask (K := u32_key) (Z.min (rt_prefix_len r) 32) in
  Z.land dst mask =? Z.land (rt_destination r) mask.

(** The first matching route of the table, with its position. *)
Fixpoint first_match (dst : Z) (routes : list Ipv4Route) (i : Z) : option (Z * Ipv4Route) :=
  match routes with
  | [] => None
  | r :: routes => if route_matches dst r then Some (i, r) else first_match dst routes (i + 1)
  end.

Lemma first_match_Some dst routes i j r :
  first_match dst routes i = Some (j, r) →
  i ≤ j ∧ nthZ routes (j - i) = Some r ∧ r ∈ routes ∧ route_matches dst r = true.
Proof.
  revert i. induction routes as [|x routes IH]; intros i; cbn; [done|].
  destruct (route_matches dst x) eqn:Hx.
  - intros [= <- <-]. rewrite Z.sub_diag. split_and!; [lia|done|left|done].
  - intros H. destruct (IH _ H) as (Hj & Hn & Hin & Hm). split_and!; [lia| |by right|done].
    change (x :: routes) with ([x] ++ routes). rewrite nthZ_app_r by (unfold len; cbn; lia).
    unfold len. cbn. rewrite <- Hn. f_equal. lia.
Qed.

Lemma first_match_None dst routes i :
  first_match dst routes i = None → ∀ r, r ∈ routes → route_matches dst r = false.
Proof.
  revert i. induction routes as [|x routes IH]; intros i; cbn; [set_solver|].
  destruct (route_matches dst x) eqn:Hx; [done|]. intros H r [->|Hr]%elem_of_cons; [done|]. by eapply IH.
Qed.

Lemma first_match_best dst routes i j r :
  StronglySorted route_le routes → first_match dst routes i = Some (j, r) →
  ∀ r', r' ∈ routes → route_matches dst r' = true → route_le r r'.
Proof.
  intros Hs. revert i. induction Hs as [|x routes Hs IH Hx]; intros i; cbn; [done|].
  destruct (route_matches dst x) eqn:Hm.
  - intros [= <- <-] r' [->|Hr]%elem_of_cons _; [unfold route_le; lia|].
    by eapply Forall_forall in Hx.
  - intros H r' [->|Hr]%elem_of_cons Hm'; [congruence|]. by eapply IH.
Qed.

(** ** The longest-prefix-match index *)
Definition route_wf (r : Ipv4Route) : Prop := fits 32 (rt_destination r) ∧ 0 ≤ rt_prefix_len r.

(** The insertions for the routes from position [i] on. *)
Definition indexed_from (i : Z) (routes : list Ipv4Route) : list (Z * Z * Z) :=
  imap (λ k r, (rt_destination r, Z.min (rt_prefix_len r) 32, u32 (i + Z.of_nat k))) routes.

Lemma indexed_from_cons i r routes :
  indexed_from i (r :: routes)
  = (rt_destination r, Z.min (rt_prefix_len r) 32, u32 i) :: indexed_from (i + 1) routes.
Proof.
  unfold indexed_from. cbn. f_equal; [by rewrite Z.add_0_r|]. apply imap_ext. intros k x _. cbn.
  do 2 f_equal. lia.
Qed.

Lemma reference_scan_app {K : IpKey} {V} (a b : list (Z * Z * V)) key best :
  reference_scan (a ++ b) key best = reference_scan b key (reference_scan a key best).
Proof. revert best. induction a as [|[[p l] v] a IH]; intros best; cbn; [done|]. apply IH. Qed.

(** Scanning the reversed insertions finds the first match of the sorted
    table. *)
Lemma scan_reversed dst routes i : StronglySorted route_le routes →
  reference_scan (K := u32_key) (rev (indexed_from i routes)) dst None
  = (λ m : Z * Ipv4Route, (Z.min (rt_prefix_len m.2) 32, u32 m.1)) <$> first_match dst routes i.
Proof.
  intros Hs. revert i. induction Hs as [|r routes Hs IH Hx]; intros i; [done|].
  rewrite indexed_from_cons. cbn [rev]. rewrite reference_scan_app, IH. cbn [reference_scan first_match].
  change (Z.land dst _ =? Z.land (rt_destination r) _) with (route_matches dst r).
  destruct (route_matches dst r); [|done].
  destruct (first_match dst routes (i + 1)) as [[j r']|] eqn:Hf; [|done]. cbn.
  apply first_match_Some in Hf as (_ & _ & Hin & _). eapply Forall_forall in Hx; [|exact Hin].
  destruct (Z.leb_spec (Z.min (rt_prefix_len r') 32) (Z.min (rt_prefix_len r) 32)); [done|].
  unfold route_le in Hx. lia.
Qed.

(** The largest route table of the theorems; 31-bit table indices allow about
    this many 32-bit prefixes. *)
Definition MAX_ROUTES : Z := 1000000.

Lemma indexed_total i routes : Forall route_wf routes →
  total_bits (indexed_from i routes) ≤ 32 * len routes.
Proof.
  intros Hr. revert i. induction Hr as [|r routes [Hd Hl] Hr IH]; intros i; [done|].
  rewrite indexed_from_cons, len_cons. cbn [total_bits]. specialize (IH (i + 1)). lia.
Qed.

Lemma total_bits_app {V} (a b : list (Z * Z * V)) : total_bits (a ++ b) = total_bits a + total_bits b.
Proof. induction a as [|[[p l] v] a IH]; cbn; [done|]. rewrite IH. lia. Qed.

Lemma total_bits_rev {V} (a : list (Z * Z * V)) : total_bits (rev a) = total_bits a.
Proof.
  induction a as [|[[p l] v] a IH]; cbn [rev total_bits]; [done|]. rewrite total_bits_app, IH. cbn. lia.
Qed.

Lemma indexed_wf i routes : Forall route_wf routes → Forall (route_ok (K := u32_key)) (indexed_from i routes).
Proof.
  intros Hr. revert i. induction Hr as [|r routes [Hd Hl] Hr IH]; intros i; [done|].
  rewrite indexed_from_cons. constructor; [|done]. split; [exact Hd|]. change BITS with 32. lia.
Qed.

Lemma indexed_fit routes : Forall route_wf routes → len routes ≤ MAX_ROUTES →
  routes_fit (K := u32_key) (rev (indexed_from 0 routes)).
Proof.
  intros Hr Hn. pose proof (indexed_total 0 routes Hr). unfold MAX_ROUTES in Hn. split_and!.
  - apply Forall_rev. by apply indexed_wf.
  - rewrite total_bits_rev. lia.
  - change VALUE_MASK with (2 ^ 31 - 1). unfold len in *. rewrite length_rev. unfold indexed_from.
    rewrite length_imap. lia.
Qed.

Lemma route_index_ok routes : StronglySorted route_le routes → Forall route_wf routes →
  len routes ≤ MAX_ROUTES →
  ∃ idx, rebuild_route_index_v4 routes = Ret idx ∧ ∀ dst, fits 32 dst →
    match idx with
    | None => Ret None
    | Some t => Poptrie.lookup (K := u32_key) IPV4_DIRECT_BITS t dst
    end = Ret (fst <$> first_match dst routes 0).
Proof.
  intros Hs Hr Hn. destruct routes as [|r0 routes0] eqn:E; [by exists None|].
  rewrite <- E in *. pose proof (indexed_fit routes Hr Hn) as Hfit.
  destruct (build_ok (K := u32_key) _ IPV4_DIRECT_BITS Hfit valid_14_v4)
    as (b & h & bn & ds & t & Eb & Et & Hbt & _ & _ & Hval).
  exists (Some t). split.
  - unfold rebuild_route_index_v4. rewrite E at 1. change (indexed_routes routes) with (indexed_from 0 routes).
    rewrite Eb. run. by rewrite Et.
  - intros dst Hd. rewrite (built_lookup _ _ _ _ _ _ Hbt Hd).
    destruct (walk_lpm (values t) bn (bits_of (Z.to_nat BITS) dst) (bt_enc _ _ _ _ _ Hbt) (Some 0) 0) as [-> _].
    { pose proof (len_nonneg (values t)). unfold enc_ok. lia. }
    f_equal. transitivity (reference_lpm (K := u32_key) (rev (indexed_from 0 routes)) dst).
    { rewrite reference_lpm_ok by (done || apply Hfit). by apply lpm_ext. }
    unfold reference_lpm. rewrite scan_reversed by done.
    destruct (first_match dst routes 0) as [[j r]|] eqn:Hf; [|done]. cbn.
    apply first_match_Some in Hf as (Hj & Hnth & _). apply nthZ_Some_range in Hnth.
    rewrite wrap_small; [done|]. unfold fits, MAX_ROUTES in *. lia.
Qed.

(** ** The folded egress index *)
Definition macs_ok (neighbors : gmap (Z * Z) (list Z)) : Prop :=
  ∀ k mac, neighbors !! k = Some mac → length mac = 6%nat.

Lemma neighbor_mac_len neighbors i j ip mac :
  macs_ok neighbors → neighbor_mac neighbors i j ip = Some mac → length mac = 6%nat.
Proof.
  intros Hm. unfold neighbor_mac. destruct (neighbors !! (i, ip)) eqn:E; [intros [= <-]; by eapply Hm|].
  by apply Hm.
Qed.

Lemma from_egress_ok e : egress_ok e → ∃ r, from_egress e = Ret r ∧ re_egress r = e ∧
  resolved_l2_header r = Ret (eth_bytes e).
Proof.
  intros He. destruct (build_ethernet_header_ok e He) as (pad & Hb & _).
  unfold from_egress. rewrite Hb. run. eexists. split_and!; [done|done|].
  unfold resolved_l2_header, slice_or_panic. cbn [re_l2_header re_l2_len].
  pose proof (len_nonneg (eth_bytes e)). pose proof (len_nonneg pad).
  rewrite <- (Z.add_0_l (len (eth_bytes e))), slice_window by (rewrite ?len_app; lia).
  change (Ret (take (Z.to_nat (len (eth_bytes e))) (eth_bytes e ++ pad)) = Ret (eth_bytes e)).
  unfold len. by rewrite Nat2Z.id, take_app_length.
Qed.

Lemma from_egress_queue e q r :
  from_egress e = Ret r → from_egress (egress_with_queue e q) = Ret (with_queue r q).
Proof.
  unfold from_egress. change (build_ethernet_header (egress_with_queue e q)) with (build_ethernet_header e).
  destruct (build_ethernet_header e) as [[h l]| | |]; cbn; try done. by intros [= <-].
Qed.

Section Fold.
Context (neighbors : gmap (Z * Z) (list Z)) (interface : InterfaceInfo).
Context (Hmacs : macs_ok neighbors) (Hmac : length (if_mac interface) = 6%nat).

Definition gateway_egress (route : Ipv4Route) (dst_mac : list Z) : XdpEgress :=
  egress_ipv4 (if_ifindex interface) (if_queue interface) dst_mac (if_mac interface)
    (Z.min (rt_mtu route) (if_mtu interface)).

(** What the slot of a route must hold. *)
Definition slot_ok (egresses : list XdpResolvedEgress) (route : Ipv4Route) (slot : Z) : Prop :=
  if negb (route_via interface route) then slot = EGRESS_NONE
  else
    match rt_gateway route with
    | None => slot = EGRESS_ON_LINK
    | Some gateway =>
        match neighbor_mac neighbors (if_ifindex interface) (rt_ifindex route) gateway with
        | None => slot = EGRESS_NONE
        | Some dst_mac =>
            ∃ r, nthZ egresses slot = Some r ∧ from_egress (gateway_egress route dst_mac) = Ret r
        end
    end.

Record fold_inv (n : Z) (done : list Ipv4Route) (st : EgressFold) : Prop := mkFoldInv {
  fi_len : len (ef_slots st) = n;
  fi_done : ∀ i r, nthZ done i = Some r → ∃ slot, nthZ (ef_slots st) i = Some slot ∧ slot_ok (ef_egresses st) r slot;
  fi_todo : ∀ i, len done ≤ i < n → nthZ (ef_slots st) i = Some EGRESS_NONE;
  fi_dedup : ∀ e j, dedup_get (ef_dedup st) e = Some j → nthZ (ef_egresses st) j = Some e;
  fi_egresses : len (ef_egresses st) ≤ len done;
  fi_none : ef_egressable st = false → ∀ i slot, nthZ (ef_slots st) i = Some slot → slot = EGRESS_NONE;
}.

Lemma slot_ok_mono egresses extra route slot :
  slot_ok egresses route slot → slot_ok (egresses ++ extra) route slot.
Proof.
  unfold slot_ok. destruct (negb _); [done|]. destruct (rt_gateway route); [|done].
  destruct (neighbor_mac _ _ _ _); [|done]. intros (r & Hn & Hr). exists r. split; [|done].
  by apply nthZ_app_Some.
Qed.

(** A step that leaves the slots alone. *)
Lemma fold_inv_skip n done route st :
  fold_inv n done st → len done < n → slot_ok (ef_egresses st) route EGRESS_NONE →
  fold_inv n (done ++ [route]) st.
Proof.
  intros [Hl Hd Ht Hdd He Hn] Hlt Hs. constructor; try done.
  - intros i r Hi. destruct (decide (i < len done)).
    + rewrite nthZ_app_l in Hi by done. by apply Hd.
    + pose proof (nthZ_Some_range _ _ _ Hi) as Hr. rewrite len_snoc in Hr.
      assert (i = len done) as -> by lia. rewrite nthZ_snoc in Hi. simplify_eq.
      exists EGRESS_NONE. split; [|done]. apply Ht. lia.
  - intros i Hi. rewrite len_snoc in Hi. apply Ht. lia.
  - rewrite len_snoc. lia.
Qed.

(** A step that writes the route's slot, with egresses possibly appended. *)
Lemma fold_inv_set n done route st slot extra dedup :
  fold_inv n done st → len done < n →
  slot_ok (ef_egresses st ++ extra) route slot →
  (∀ e j, dedup_get dedup e = Some j → nthZ (ef_egresses st ++ extra) j = Some e) →
  len (ef_egresses st ++ extra) ≤ len done + 1 →
  ∃ slots, set_index (ef_slots st) (len done) slot = Ret slots ∧
    fold_inv n (done ++ [route]) (mkFold slots (ef_egresses st ++ extra) dedup true).
Proof.
  intros [Hl Hd Ht Hdd He Hn] Hlt Hs Hdedup Hlen. pose proof (len_nonneg done).
  rewrite set_index_ok by lia. eexists. split; [done|]. constructor; cbn; try done.
  - by rewrite len_insert.
  - intros i r Hi. rewrite nthZ_insert by lia. destruct (decide (i < len done)).
    + rewrite nthZ_app_l in Hi by done. rewrite decide_False by lia.
      destruct (Hd i r Hi) as (s & H1 & H2). exists s. split; [done|]. by apply slot_ok_mono.
    + pose proof (nthZ_Some_range _ _ _ Hi) as Hr. rewrite len_snoc in Hr.
      assert (i = len done) as -> by lia. rewrite nthZ_snoc in Hi. simplify_eq.
      rewrite decide_True by done. by exists slot.
  - intros i Hi. rewrite len_snoc in Hi. rewrite nthZ_insert by lia. rewrite decide_False by lia. apply Ht. lia.
  - by rewrite len_snoc.
Qed.

Lemma fold_route_ok n done route st :
  fold_inv n done st → len done < n → n ≤ MAX_ROUTES →
  ∃ st', fold_route neighbors interface (len done) route st = Ret st' ∧ fold_inv n (done ++ [route]) st'.
Proof.
  intros Hi Hlt Hmax. unfold fold_route. pose proof (fold_inv_skip n done route st Hi Hlt) as Hskip.
  pose proof (λ slot extra dedup, fold_inv_set n done route st slot extra dedup Hi Hlt) as Hset.
  unfold slot_ok in Hskip, Hset.
  destruct (negb (route_via interface route)); [exists st; split; [done|by apply Hskip]|].
  pose proof (fi_egresses _ _ _ Hi) as Hel.
  destruct (rt_gateway route) as [gateway|].
  2:{ destruct (Hset EGRESS_ON_LINK [] (ef_dedup st)) as (slots & -> & Hs).
      - done.
      - rewrite app_nil_r. by apply Hi.
      - rewrite app_nil_r. lia.
      - rewrite app_nil_r in Hs. by eexists. }
  destruct (neighbor_mac _ _ _ _) as [mac|] eqn:Hn; [|exists st; split; [done|by apply Hskip]].
  fold (gateway_egress route mac).
  destruct (from_egress_ok (gateway_egress route mac)) as (r & Hr & _).
  { split; [by eapply neighbor_mac_len|done]. }
  rewrite Hr in *. run.
  destruct (dedup_get (ef_dedup st) r) as [slot|] eqn:Hd.
  - pose proof (fi_dedup _ _ _ Hi _ _ Hd) as Hnth.
    destruct (Hset slot [] (ef_dedup st)) as (slots & -> & Hs).
    + rewrite app_nil_r. by exists r.
    + rewrite app_nil_r. by apply Hi.
    + rewrite app_nil_r. lia.
    + rewrite app_nil_r in Hs. by eexists.
  - assert (Hw : u32 (len (ef_egresses st)) = len (ef_egresses st)).
    { apply wrap_small. unfold fits, MAX_ROUTES in *. pose proof (len_nonneg (ef_egresses st)). lia. }
    rewrite Hw.
    destruct (Hset (len (ef_egresses st)) [r] ((r, len (ef_egresses st)) :: ef_dedup st)) as (slots & -> & Hs).
    + exists r. by rewrite nthZ_snoc.
    + intros e j. cbn. case_decide as Hk; [intros [= <-]; subst; by rewrite nthZ_snoc|].
      intros Hj. apply nthZ_app_Some. by apply Hi.
    + rewrite len_snoc. lia.
    + by eexists.
Qed.

Lemma fold_routes_ok n todo : n ≤ MAX_ROUTES → ∀ done st,
  fold_inv n done st → len (done ++ todo) = n →
  ∃ st', fold_routes neighbors interface (len done) todo st = Ret st' ∧ fold_inv n (done ++ todo) st'.
Proof.
  intros Hmax. induction todo as [|route todo IH]; intros done st Hi Hn; cbn [fold_routes].
  { exists st. by rewrite app_nil_r. }
  pose proof (len_nonneg todo). rewrite len_app, len_cons in Hn.
  destruct (fold_route_ok n done route st Hi) as (st1 & -> & H1); [lia|done|]. run.
  destruct (IH (done ++ [route]) st1 H1) as (st2 & E & H2).
  { rewrite len_app, len_snoc. lia. }
  rewrite len_snoc in E. exists st2. split; [done|]. by rewrite <- app_assoc in H2.
Qed.

Lemma fold_all_ok routes : len routes ≤ MAX_ROUTES →
  ∃ st, fold_routes neighbors interface 0 routes
          (mkFold (replicate (length routes) EGRESS_NONE) [] [] false) = Ret st ∧
    fold_inv (len routes) routes st.
Proof.
  intros Hn. apply (fold_routes_ok (len routes) routes Hn []); [|done]. constructor; cbn; try done.
  - unfold len. by rewrite length_replicate.
  - intros i r Hi. apply nthZ_Some_range in Hi. unfold len in Hi. cbn in Hi. lia.
  - intros i Hi. apply nthZ_replicate. unfold len in *. cbn in Hi. lia.
  - intros _ i slot Hi. unfold nthZ in Hi. destruct (i <? 0); [done|].
    by apply lookup_replicate in Hi as [-> _].
Qed.
End Fold.

(** The index after the loop over interfaces with distinct ifindexes. *)
Lemma index_interfaces_ok neighbors routes ifaces : macs_ok neighbors → len routes ≤ MAX_ROUTES →
  Forall (λ i, length (if_mac i) = 6%nat) ifaces → NoDup (if_ifindex <$> ifaces) → ∀ index0,
  ∃ index, index_interfaces neighbors routes ifaces index0 = Ret index ∧
    (∀ k, k ∉ if_ifindex <$> ifaces → index !! k = index0 !! k) ∧
    ∀ i, i ∈ ifaces → ∃ st, fold_inv neighbors i (len routes) routes st ∧
      index !! if_ifindex i
      = if ef_egressable st then Some (mkInterfaceEgress (ef_slots st) (ef_egresses st))
        else index0 !! if_ifindex i.
Proof.
  intros Hm Hn. induction ifaces as [|i ifaces IH]; intros Hmac Hnd index0; cbn [index_interfaces].
  { exists index0. split; [done|]. split; [done|]. intros i Hi. by apply not_elem_of_nil in Hi. }
  apply Forall_cons in Hmac as [Hmi Hmac]. cbn in Hnd. apply NoDup_cons in Hnd as [Hni Hnd].
  destruct (fold_all_ok neighbors i Hm Hmi routes Hn) as (st & -> & Hst). run.
  set (index1 := if ef_egressable st then _ else _).
  destruct (IH Hmac Hnd index1) as (index & -> & Hout & Hin). exists index. split; [done|].
  assert (Hi1 : ∀ k, k ≠ if_ifindex i → index1 !! k = index0 !! k).
  { intros k Hk. unfold index1. destruct (ef_egressable st); [|done]. by rewrite lookup_insert_ne. }
  split.
  - intros k Hk. cbn in Hk. apply not_elem_of_cons in Hk as [Hk1 Hk2]. rewrite Hout by done. by apply Hi1.
  - intros j [->|Hj]%elem_of_cons.
    + exists st. split; [done|]. rewrite Hout by done. unfold index1.
      destruct (ef_egressable st); [by rewrite lookup_insert_eq|done].
    + destruct (Hin j Hj) as (st' & H1 & H2). exists st'. split; [done|]. rewrite H2, Hi1; [done|].
      intros E. apply Hni. rewrite <- E. by apply list_elem_of_fmap_2.
Qed.

(** ** The snapshot invariant

    The derived indexes are functions of the source fields. *)
Definition ifaces_ok (ifaces : gmap Z InterfaceInfo) : Prop :=
  ∀ k i, ifaces !! k = Some i → if_ifindex i = k ∧ length (if_mac i) = 6%nat.

Record snapshot_ok (s : RouteSnapshot) : Prop := mkSnapshotOk {
  sn_sorted : StronglySorted route_le (routes_v4 s);
  sn_routes : Forall route_wf (routes_v4 s);
  sn_size : len (routes_v4 s) ≤ MAX_ROUTES;
  sn_macs : macs_ok (neighbors_v4 s);
  sn_ifaces : ifaces_ok (interfaces s);
  sn_route_index : rebuild_route_index_v4 (routes_v4 s) = Ret (route_index_v4 s);
  sn_egress_index :
    rebuild_egress_index_v4 (routes_v4 s) (neighbors_v4 s) (interfaces s) = Ret (egress_index_v4 s);
}.

Lemma ifaces_values ifaces : ifaces_ok ifaces →
  Forall (λ i, length (if_mac i) = 6%nat) (map_to_list ifaces).*2 ∧
  NoDup (if_ifindex <$> (map_to_list ifaces).*2) ∧
  ∀ i, i ∈ (map_to_list ifaces).*2 ↔ ifaces !! if_ifindex i = Some i.
Proof.
  intros Hok. split_and!.
  - apply Forall_forall. intros i ([k j] & -> & Hj)%list_elem_of_fmap. apply elem_of_map_to_list in Hj.
    by apply (Hok k).
  - assert (E : if_ifindex <$> (map_to_list ifaces).*2 = (map_to_list ifaces).*1).
    { rewrite <- list_fmap_compose. apply list_fmap_ext. intros ? [k i] Hk. cbn.
      apply list_elem_of_lookup_2, elem_of_map_to_list in Hk. by apply Hok in Hk as [-> _]. }
    rewrite E. apply NoDup_fst_map_to_list.
  - intros i. split.
    + intros ([k j] & -> & Hj)%list_elem_of_fmap. apply elem_of_map_to_list in Hj. cbn.
      by destruct (Hok k j Hj) as [-> _].
    + intros Hi. apply list_elem_of_fmap. exists (if_ifindex i, i). split; [done|].
      by apply elem_of_map_to_list.
Qed.

Lemma egress_index_total routes neighbors ifaces :
  macs_ok neighbors → ifaces_ok ifaces → len routes ≤ MAX_ROUTES →
  ∃ index, rebuild_egress_index_v4 routes neighbors ifaces = Ret index.
Proof.
  intros Hm Hi Hn. destruct (ifaces_values ifaces Hi) as (H1 & H2 & _). unfold rebuild_egress_index_v4.
  destruct routes as [|r routes']; [by eexists|].
  destruct (index_interfaces_ok neighbors (r :: routes') _ Hm Hn H1 H2 ∅) as (index & -> & _). by eexists.
Qed.

(** What the egress index of an interface holds. *)
Lemma egress_index_lookup s ifindex : snapshot_ok s → routes_v4 s ≠ [] →
  match interfaces s !! ifindex with
  | None => egress_index_v4 s !! ifindex = None
  | Some i => if_ifindex i = ifindex ∧
      ∃ st, fold_inv (neighbors_v4 s) i (len (routes_v4 s)) (routes_v4 s) st ∧
        egress_index_v4 s !! ifindex
        = if ef_egressable st then Some (mkInterfaceEgress (ef_slots st) (ef_egresses st)) else None
  end.
Proof.
  intros [_ _ Hn Hm Hi _ He] Hne. destruct (ifaces_values _ Hi) as (H1 & H2 & H3).
  unfold rebuild_egress_index_v4 in He. destruct (routes_v4 s) as [|r rest] eqn:Er; [done|]. rewrite <- Er in *.
  destruct (index_interfaces_ok _ (routes_v4 s) _ Hm Hn H1 H2 ∅) as (index & E & Hout & Hin).
  rewrite E in He. injection He as <-.
  destruct (interfaces s !! ifindex) as [i|] eqn:Hif.
  - destruct (Hi _ _ Hif) as [Hk _]. split; [done|]. destruct (Hin i) as (st & Hst & Hl).
    { apply H3. by rewrite Hk. }
    exists st. split; [done|]. rewrite Hk in Hl. by rewrite lookup_empty in Hl.
  - rewrite Hout; [done|]. intros (i & -> & Hi')%list_elem_of_fmap. apply H3 in Hi'. congruence.
Qed.

(** ** Resolution without the indexes

    The first matching route; it must leave through the interface; the next
    hop is its gateway or the destination. *)
Definition direct_egress (s : RouteSnapshot) (dst ifindex : Z) (queue : InterfaceInfo → Z) : option XdpEgress :=
  match first_match dst (routes_v4 s) 0 with
  | None => None
  | Some (_, route) =>
      match interfaces s !! ifindex with
      | None => None
      | Some interface =>
          if negb (route_via interface route) then None
          else
            match neighbor_mac (neighbors_v4 s) ifindex (rt_ifindex route) (default dst (rt_gateway route)) with
            | None => None
            | Some dst_mac =>
                Some (egress_ipv4 ifindex (queue interface) dst_mac (if_mac interface)
                        (Z.min (rt_mtu route) (if_mtu interface)))
            end
      end
  end.

Lemma lookup_index_ok s dst : snapshot_ok s → fits 32 dst →
  lookup_route_index_v4 s dst = Ret (fst <$> first_match dst (routes_v4 s) 0).
Proof.
  intros Hs Hd. destruct (route_index_ok (routes_v4 s)) as (idx & E & Hl); [apply Hs..|].
  rewrite (sn_route_index _ Hs) in E. injection E as <-. unfold lookup_route_index_v4. by apply Hl.
Qed.

Lemma lookup_route_ok s dst : snapshot_ok s → fits 32 dst →
  lookup_route_v4 s dst = Ret (snd <$> first_match dst (routes_v4 s) 0).
Proof.
  intros Hs Hd. unfold lookup_route_v4. rewrite lookup_index_ok by done. run.
  destruct (first_match dst (routes_v4 s) 0) as [[j r]|] eqn:Hf; [|done]. cbn.
  apply first_match_Some in Hf as (_ & Hn & _). by rewrite Z.sub_0_r in Hn; rewrite Hn.
Qed.

Lemma direct_egress_ok s dst ifindex queue e : snapshot_ok s →
  direct_egress s dst ifindex queue = Some e → egress_ok e ∧ eg_ethertype e = ETHERTYPE_IPV4 ∧ eg_ifindex e = ifindex.
Proof.
  intros Hs. unfold direct_egress. destruct (first_match dst _ 0) as [[j r]|]; [|done].
  destruct (interfaces s !! ifindex) as [i|] eqn:Hi; [|done]. destruct (negb _); [done|].
  destruct (neighbor_mac _ _ _ _) as [mac|] eqn:Hn; [|done]. intros [= <-]. split; [|done].
  split; [by eapply neighbor_mac_len; [apply Hs|]|]. by destruct (sn_ifaces _ Hs _ _ Hi).
Qed.

(** The queue only labels the egress. *)
Lemma direct_egress_queue s dst ifindex :
  (∀ queue, direct_egress s dst ifindex queue = None) ∨
  ∃ i e, ∀ queue, direct_egress s dst ifindex queue = Some (egress_with_queue e (queue i)).
Proof.
  unfold direct_egress. destruct (first_match dst _ 0) as [[j r]|]; [|by left].
  destruct (interfaces s !! ifindex) as [i|]; [|by left]. destruct (negb _); [by left|].
  destruct (neighbor_mac _ _ _ _) as [mac|]; [|by left]. right.
  by exists i, (egress_ipv4 ifindex 0 mac (if_mac i) (Z.min (rt_mtu r) (if_mtu i))).
Qed.

(** Both indexes together: the slot of the selected route. *)
Lemma slot_lookup s dst ifindex j route : snapshot_ok s → first_match dst (routes_v4 s) 0 = Some (j, route) →
  match egress_index_v4 s !! ifindex with
  | None => ∀ queue, direct_egress s dst ifindex queue = None
  | Some ie => ∃ i slot, interfaces s !! ifindex = Some i ∧ if_ifindex i = ifindex ∧
      nthZ (ie_slots ie) j = Some slot ∧ slot_ok (neighbors_v4 s) i (ie_egresses ie) route slot ∧
      len (ie_egresses ie) < EGRESS_ON_LINK
  end.
Proof.
  intros Hs Hf. pose proof (first_match_Some _ _ _ _ _ Hf) as (_ & Hn & Hin & _). rewrite Z.sub_0_r in Hn.
  assert (Hne : routes_v4 s ≠ []) by (intros E; rewrite E in Hin; by apply not_elem_of_nil in Hin).
  pose proof (egress_index_lookup s ifindex Hs Hne) as He. unfold direct_egress. rewrite Hf.
  destruct (interfaces s !! ifindex) as [i|] eqn:Hi; [|by rewrite He].
  destruct He as (Hk & st & Hst & ->). destruct (fi_done _ _ _ _ _ Hst j route Hn) as (slot & Hsl & Hok).
  destruct (ef_egressable st) eqn:Hb.
  - exists i, slot. split_and!; try done. cbn. pose proof (fi_egresses _ _ _ _ _ Hst).
    pose proof (sn_size _ Hs). unfold EGRESS_ON_LINK, U32_MAX, MAX_ROUTES in *. lia.
  - intros queue. pose proof (fi_none _ _ _ _ _ Hst Hb j slot Hsl) as ->. unfold slot_ok in Hok.
    destruct (negb (route_via i route)); [done|]. destruct (rt_gateway route); [|done]. cbn.
    rewrite Hk in Hok. destruct (neighbor_mac _ _ _ _); [|done]. destruct Hok as (r & Hr & _).
    apply nthZ_Some_range in Hr. pose proof (fi_egresses _ _ _ _ _ Hst). pose proof (sn_size _ Hs).
    unfold EGRESS_NONE, U32_MAX, MAX_ROUTES in *. lia.
Qed.

(** The three answers a slot can give. *)
Lemma slot_cases s dst ifindex j route i ie slot :
  snapshot_ok s → first_match dst (routes_v4 s) 0 = Some (j, route) →
  interfaces s !! ifindex = Some i → if_ifindex i = ifindex →
  slot_ok (neighbors_v4 s) i (ie_egresses ie) route slot → len (ie_egresses ie) < EGRESS_ON_LINK →
  (slot = EGRESS_NONE ∧ ∀ queue, direct_egress s dst ifindex queue = None) ∨
  (slot = EGRESS_ON_LINK ∧ ∀ queue, direct_egress s dst ifindex queue = on_link_egress s j dst ifindex queue) ∨
  (0 ≤ slot < EGRESS_ON_LINK ∧ ∃ r e, nthZ (ie_egresses ie) slot = Some r ∧ from_egress e = Ret r ∧ re_egress r = e ∧
     ∀ queue, direct_egress s dst ifindex queue = Some (egress_with_queue e (queue i))).
Proof.
  intros Hs Hf Hi Hk Hok Hlen. pose proof (first_match_Some _ _ _ _ _ Hf) as (_ & Hn & _). rewrite Z.sub_0_r in Hn.
  unfold direct_egress, on_link_egress. rewrite Hf, Hi, Hn. unfold slot_ok in Hok.
  destruct (negb (route_via i route)); [by left|]. destruct (rt_gateway route) as [g|]; [|by right; left].
  cbn. rewrite Hk in Hok. destruct (neighbor_mac _ _ _ g) as [mac|] eqn:Hm; [|by left].
  destruct Hok as (r & Hr & Hfrom). right. right. pose proof (nthZ_Some_range _ _ _ Hr). split; [lia|].
  destruct (from_egress_ok (gateway_egress i route mac)) as (r' & Hr' & He & _).
  { split; [by eapply neighbor_mac_len; [apply Hs|]|]. by destruct (sn_ifaces _ Hs _ _ Hi). }
  rewrite Hfrom in Hr'. injection Hr' as <-. exists r, (gateway_egress i route mac). split_and!; try done.
  intros queue. unfold gateway_egress, egress_with_queue. cbn. by rewrite Hk.
Qed.

Lemma resolved_ok s dst ifindex queue : snapshot_ok s → fits 32 dst →
  resolved_v4_for_interface s dst ifindex queue
  = match direct_egress s dst ifindex (λ _, queue) with
    | None => Ret None
    | Some e => r ← from_egress e; Ret (Some r)
    end.
Proof.
  intros Hs Hd. unfold resolved_v4_for_interface. rewrite lookup_index_ok by done. run.
  destruct (first_match dst (routes_v4 s) 0) as [[j route]|] eqn:Hf.
  2:{ unfold direct_egress. by rewrite Hf. }
  cbn [fmap option_fmap option_map fst]. pose proof (slot_lookup s dst ifindex j route Hs Hf) as Hsl.
  destruct (egress_index_v4 s !! ifindex) as [ie|]; [|by rewrite Hsl].
  destruct Hsl as (i & slot & Hi & Hk & -> & Hok & Hlen).
  destruct (slot_cases s dst ifindex j route i ie slot Hs Hf Hi Hk Hok Hlen)
    as [[-> Hq]|[[-> Hq]|[Hr (r & e & Hn & Hfrom & _ & Hq)]]]; rewrite Hq; [done|done|].
  unfold EGRESS_ON_LINK, EGRESS_NONE in *. destruct (Z.eqb_spec slot U32_MAX); [lia|].
  destruct (Z.eqb_spec slot (U32_MAX - 1)); [lia|]. rewrite (index_Some _ _ _ Hn). run.
  by rewrite (from_egress_queue _ _ _ Hfrom).
Qed.

(** The transmit resolution: the header and the path MTU of the same egress. *)
Definition l2_for (o : option ResolvedL2) (e : option XdpEgress) (mtu : Z) : Prop :=
  match o, e with
  | None, None => True
  | Some l2, Some e => l2_header l2 = Ret (eth_bytes e) ∧ ip_mtu l2 = Z.min mtu (eg_mtu e)
  | _, _ => False
  end.

Lemma inline_header e : egress_ok e → ∃ h l, build_ethernet_header e = Ret (h, l) ∧
  from_egress e = Ret (mkResolved e h l) ∧ slice_or_panic h 0 l = Ret (eth_bytes e).
Proof.
  intros He. destruct (from_egress_ok e He) as (r & Hr & _ & Hl). unfold from_egress in Hr.
  destruct (build_ethernet_header e) as [[h l]| | |] eqn:Hb; try done. cbn in Hr. injection Hr as <-.
  exists h, l. split_and!; try done. unfold from_egress. by rewrite Hb.
Qed.

Lemma resolve_l2_ok s dst ifindex mtu : snapshot_ok s → fits 32 dst →
  ∃ o, resolve_l2_for_interface s dst ifindex mtu = Ret o ∧
    l2_for o (direct_egress s dst ifindex if_queue) mtu.
Proof.
  intros Hs Hd. unfold resolve_l2_for_interface. rewrite lookup_index_ok by done. run.
  destruct (first_match dst (routes_v4 s) 0) as [[j route]|] eqn:Hf.
  2:{ exists None. split; [done|]. unfold direct_egress. by rewrite Hf. }
  cbn [fmap option_fmap option_map fst]. pose proof (slot_lookup s dst ifindex j route Hs Hf) as Hsl.
  destruct (egress_index_v4 s !! ifindex) as [ie|]; [|exists None; by rewrite Hsl].
  destruct Hsl as (i & slot & Hi & Hk & -> & Hok & Hlen).
  pose proof (direct_egress_ok s dst ifindex if_queue) as Hde.
  destruct (slot_cases s dst ifindex j route i ie slot Hs Hf Hi Hk Hok Hlen)
    as [[-> Hq]|[[-> Hq]|[Hr (r & e & Hn & Hfrom & Hre & Hq)]]].
  - exists None. by rewrite Hq.
  - rewrite Hq in Hde |- *. change (EGRESS_ON_LINK =? EGRESS_NONE) with false. rewrite Z.eqb_refl.
    unfold resolve_l2_on_link_v4. destruct (on_link_egress s j dst ifindex if_queue) as [e|]; [|by exists None].
    destruct (Hde e Hs eq_refl) as (He & _). destruct (inline_header e He) as (h & l & -> & _ & Hl). run.
    eexists. split; [done|]. by split.
  - unfold EGRESS_ON_LINK, EGRESS_NONE in *. destruct (Z.eqb_spec slot U32_MAX); [lia|].
    destruct (Z.eqb_spec slot (U32_MAX - 1)); [lia|]. rewrite (index_Some _ _ _ Hn). run.
    destruct (Hde _ Hs (Hq if_queue)) as (He & _). destruct (from_egress_ok e He) as (r' & Hr' & _ & Hl).
    rewrite Hfrom in Hr'. injection Hr' as <-. rewrite Hl. run. eexists. split; [done|]. rewrite Hq. cbn.
    by rewrite Hre.
Qed.

(** ** Updates against the source tables *)
Definition route_key (r : Ipv4Route) : Z * Z * Z * option Z :=
  (rt_destination r, rt_prefix_len r, rt_ifindex r, rt_gateway r).

Lemma same_route_key_spec a b : reflect (route_key a = route_key b) (same_route_key a b).
Proof.
  apply iff_reflect. unfold same_route_key, route_key.
  rewrite !andb_true_iff, !Z.eqb_eq, bool_decide_eq_true. split; [by intros [= -> -> -> ->]|].
  intros [[[-> ->] ->] ->]. done.
Qed.

Record Tables := mkTables {
  tb_routes : gmap (Z * Z * Z * option Z) Ipv4Route;
  tb_neighbors : gmap (Z * Z) (list Z);
  tb_interfaces : gmap Z InterfaceInfo;
}.

(** The route list holds exactly the table's routes, one per key. *)
Definition holds (routes : list Ipv4Route) (T : gmap (Z * Z * Z * option Z) Ipv4Route) : Prop :=
  NoDup (route_key <$> routes) ∧ ∀ r, r ∈ routes ↔ T !! route_key r = Some r.

Lemma holds_perm l l' T : Permutation l l' → holds l T → holds l' T.
Proof.
  intros Hp [Hn Hi]. split; [by rewrite <- Hp|]. intros r. rewrite <- Hi. by rewrite Hp.
Qed.

Lemma upsert_split routes route :
  (∃ a old b, routes = a ++ old :: b ∧ route_key old = route_key route ∧
     upsert_route_v4_no_sort routes route = a ++ route :: b) ∨
  ((route_key route ∉ (route_key <$> routes)) ∧ upsert_route_v4_no_sort routes route = routes ++ [route]).
Proof.
  induction routes as [|x routes IH]; cbn; [right; set_solver|].
  destruct (same_route_key_spec x route) as [E|E]; [left; by exists [], x, routes|].
  destruct IH as [(a & old & b & -> & Hk & ->)|[Hn ->]].
  - left. by exists (x :: a), old, b.
  - right. split; [|done]. by apply not_elem_of_cons.
Qed.

Lemma upsert_holds routes T route : holds routes T →
  holds (upsert_route_v4_no_sort routes route) (<[route_key route := route]> T).
Proof.
  intros [Hn Hi].
  destruct (upsert_split routes route) as [(a & old & b & -> & Hk & ->)|[Hnk ->]].
  - assert (Hkeys : route_key <$> (a ++ route :: b) = route_key <$> (a ++ old :: b)).
    { rewrite !fmap_app. cbn. by rewrite Hk. }
    split; [by rewrite Hkeys|]. intros r. rewrite lookup_insert_Some.
    rewrite fmap_app in Hn. cbn in Hn. apply NoDup_app in Hn as (Ha & Hab & Hb).
    apply NoDup_cons in Hb as [Hb _].
    rewrite elem_of_app, elem_of_cons. split.
    + intros [Hr|[->|Hr]]; [right|by left|right].
      * split; [|apply Hi; set_solver]. intros E.
        apply (Hab (route_key r)); [by apply list_elem_of_fmap_2|]. rewrite Hk, E. left.
      * split; [|apply Hi; set_solver]. intros E. apply Hb. rewrite Hk, E. by apply list_elem_of_fmap_2.
    + intros [[_ ->]|[Hne Hr]]; [by right; left|]. apply Hi in Hr.
      apply elem_of_app in Hr as [?|[->|?]%elem_of_cons]; [by left|congruence|by right; right].
  - split.
    + rewrite fmap_app. cbn. apply NoDup_app. split_and!; [done| |apply NoDup_singleton].
      intros k Hk1 Hk2. apply list_elem_of_singleton in Hk2 as ->. done.
    + intros r. rewrite lookup_insert_Some, elem_of_app, list_elem_of_singleton. split.
      * intros [Hr| ->]; [|by left]. right. split; [|by apply Hi]. intros E. apply Hnk. rewrite E.
        by apply list_elem_of_fmap_2.
      * intros [[_ ->]|[_ Hr]]; [by right|]. left. by apply Hi.
Qed.

(** ** Sequences of updates *)
Inductive snapshot_op :=
  | UpsertRoute (route : Ipv4Route)
  | UpsertRoutes (routes : list Ipv4Route)
  | UpsertNeighbor (ifindex ip : Z) (mac : list Z)
  | UpsertInterface (interface : InterfaceInfo).

Definition apply_op (s : RouteSnapshot) (op : snapshot_op) : outcome RouteSnapshot :=
  match op with
  | UpsertRoute r => upsert_route_v4 s r
  | UpsertRoutes rs => upsert_routes_v4 s rs
  | UpsertNeighbor i ip mac => upsert_neighbor_v4 s i ip mac
  | UpsertInterface i => upsert_interface s i
  end.
Fixpoint apply_ops (s : RouteSnapshot) (ops : list snapshot_op) : outcome RouteSnapshot :=
  match ops with
  | [] => Ret s
  | op :: ops => s ← apply_op s op; apply_ops s ops
  end.

(** The same updates on the source tables. *)
Definition table_insert (T : gmap (Z * Z * Z * option Z) Ipv4Route) (r : Ipv4Route) :=
  <[route_key r := r]> T.
Definition table_op (T : Tables) (op : snapshot_op) : Tables :=
  match op with
  | UpsertRoute r => mkTables (table_insert (tb_routes T) r) (tb_neighbors T) (tb_interfaces T)
  | UpsertRoutes rs => mkTables (foldl table_insert (tb_routes T) rs) (tb_neighbors T) (tb_interfaces T)
  | UpsertNeighbor i ip mac => mkTables (tb_routes T) (<[(i, ip) := mac]> (tb_neighbors T)) (tb_interfaces T)
  | UpsertInterface i =>
      mkTables (tb_routes T) (tb_neighbors T) (<[if_ifindex i := i]> (tb_interfaces T))
  end.
Definition tables_of (ops : list snapshot_op) : Tables := foldl table_op (mkTables ∅ ∅ ∅) ops.

(** Values of the types the source declares. *)
Definition snapshot_op_wf (op : snapshot_op) : Prop :=
  match op with
  | UpsertRoute r => route_wf r
  | UpsertRoutes rs => Forall route_wf rs
  | UpsertNeighbor _ _ mac => length mac = 6%nat
  | UpsertInterface i => length (if_mac i) = 6%nat
  end.
Definition op_routes (op : snapshot_op) : Z :=
  match op with UpsertRoute _ => 1 | UpsertRoutes rs => len rs | _ => 0 end.
Fixpoint ops_routes (ops : list snapshot_op) : Z :=
  match ops with [] => 0 | op :: ops => op_routes op + ops_routes ops end.

(** A snapshot stands for the tables. *)
Record stands_for (s : RouteSnapshot) (T : Tables) : Prop := mkStandsFor {
  sf_ok : snapshot_ok s;
  sf_routes : holds (routes_v4 s) (tb_routes T);
  sf_neighbors : neighbors_v4 s = tb_neighbors T;
  sf_interfaces : interfaces s = tb_interfaces T;
}.

Lemma upsert_wf routes route : Forall route_wf routes → route_wf route →
  Forall route_wf (upsert_route_v4_no_sort routes route) ∧
  len (upsert_route_v4_no_sort routes route) ≤ len routes + 1.
Proof.
  intros Hr H1. destruct (upsert_split routes route) as [(a & old & b & -> & _ & ->)|[_ ->]].
  - apply Forall_app in Hr as [Ha Hb]. apply Forall_cons in Hb as [_ Hb]. rewrite !len_app, !len_cons.
    split; [|lia]. apply Forall_app. split; [done|]. by constructor.
  - rewrite len_snoc. split; [|lia]. apply Forall_app. split; [done|]. by constructor.
Qed.

Lemma upserts_ok rs : Forall route_wf rs → ∀ routes T, Forall route_wf routes → holds routes T →
  let routes' := foldl upsert_route_v4_no_sort routes rs in
  Forall route_wf routes' ∧ len routes' ≤ len routes + len rs ∧ holds routes' (foldl table_insert T rs).
Proof.
  induction 1 as [|r rs Hr Hrs IH]; intros routes T Hw Hh; cbn.
  - unfold len at 3. cbn. split_and!; try done. lia.
  - destruct (upsert_wf routes r Hw Hr) as [Hw1 Hl1].
    destruct (IH _ _ Hw1 (upsert_holds _ _ _ Hh)) as (H1 & H2 & H3). rewrite len_cons. split_and!; try done. lia.
Qed.

Lemma sorted_and_indexed_ok s T routes Troutes :
  stands_for s T → Forall route_wf routes → len routes ≤ MAX_ROUTES → holds routes Troutes →
  ∃ s', sorted_and_indexed s routes = Ret s' ∧
    stands_for s' (mkTables Troutes (tb_neighbors T) (tb_interfaces T)) ∧
    len (routes_v4 s') = len routes.
Proof.
  intros [Hs _ Hn Hi] Hw Hl Hh. unfold sorted_and_indexed.
  assert (Hlen : len (sort_routes_v4 routes) = len routes) by (unfold len; by rewrite sort_perm).
  assert (Hw' : Forall route_wf (sort_routes_v4 routes)) by by rewrite sort_perm.
  destruct (route_index_ok (sort_routes_v4 routes)) as (idx & Hidx & _); [apply sort_sorted|done|lia|].
  destruct (egress_index_total (sort_routes_v4 routes) (neighbors_v4 s) (interfaces s)) as (eidx & Heidx);
    [apply Hs|apply Hs|lia|].
  rewrite Hidx. run. rewrite Heidx. run. eexists. split; [done|]. split; [|done]. constructor; cbn; try done.
  - constructor; cbn; try done; [apply sort_sorted|lia|apply Hs|apply Hs].
  - by eapply holds_perm; [symmetry; apply sort_perm|].
Qed.

Lemma apply_op_ok s T op : stands_for s T → snapshot_op_wf op →
  len (routes_v4 s) + op_routes op ≤ MAX_ROUTES →
  ∃ s', apply_op s op = Ret s' ∧ stands_for s' (table_op T op) ∧
    len (routes_v4 s') ≤ len (routes_v4 s) + op_routes op.
Proof.
  intros Hsf Hwf Hl. pose proof Hsf as [Hs Hh Hn Hi]. destruct op as [r|rs|i ip mac|i]; cbn in *.
  - destruct (upsert_wf (routes_v4 s) r (sn_routes _ Hs) Hwf) as [Hw Hlr].
    destruct (sorted_and_indexed_ok s T _ _ Hsf Hw ltac:(lia) (upsert_holds _ _ r Hh)) as (s' & H1 & H2 & H3).
    exists s'. split_and!; [done|done|lia].
  - destruct (upserts_ok rs Hwf (routes_v4 s) (tb_routes T) (sn_routes _ Hs) Hh) as (Hw & Hlr & Hh').
    unfold upsert_routes_v4. destruct rs as [|r rs'].
    + exists s. cbn. split_and!; [done|by destruct T|unfold len; cbn; lia].
    + destruct (sorted_and_indexed_ok s T _ _ Hsf Hw ltac:(lia) Hh') as (s' & H1 & H2 & H3).
      exists s'. split_and!; [done|done|lia].
  - assert (Hm : macs_ok (<[(i, ip):=mac]> (neighbors_v4 s))).
    { intros k m [[<- <-]|[_ Hk]]%lookup_insert_Some; [done|]. by apply (sn_macs _ Hs k). }
    unfold upsert_neighbor_v4. destruct (egress_index_total (routes_v4 s) _ (interfaces s) Hm) as (e & He);
      [apply Hs..|]. rewrite He. run. eexists. split; [done|]. cbn. split; [|lia].
    constructor; cbn; try done; [|by rewrite Hn]. by constructor; cbn; try apply Hs.
  - assert (Hm : ifaces_ok (<[if_ifindex i:=i]> (interfaces s))).
    { intros k m [[<- <-]|[_ Hk]]%lookup_insert_Some; [done|]. by apply (sn_ifaces _ Hs k). }
    unfold upsert_interface. destruct (egress_index_total (routes_v4 s) (neighbors_v4 s) _ (sn_macs _ Hs) Hm)
      as (e & He); [apply Hs|]. rewrite He. run. eexists. split; [done|]. cbn. split; [|lia].
    constructor; cbn; try done; [|by rewrite Hi]. by constructor; cbn; try apply Hs.
Qed.

Lemma apply_ops_ok ops : Forall snapshot_op_wf ops → ∀ s T, stands_for s T →
  len (routes_v4 s) + ops_routes ops ≤ MAX_ROUTES →
  ∃ s', apply_ops s ops = Ret s' ∧ stands_for s' (foldl table_op T ops).
Proof.
  induction 1 as [|op ops Hop Hops IH]; intros s T Hs Hl; cbn in *; [by exists s|].
  assert (0 ≤ ops_routes ops).
  { clear. induction ops as [|[] ? IH]; cbn; try pose proof (len_nonneg routes); lia. }
  destruct (apply_op_ok s T op Hs Hop) as (s1 & -> & Hs1 & Hl1); [lia|]. run. apply IH; [done|lia].
Qed.

Lemma snapshot_new_ok : stands_for snapshot_new (mkTables ∅ ∅ ∅).
Proof.
  constructor; cbn; try done.
  - constructor; cbn; try done; try constructor; intros k m Hk; by rewrite lookup_empty in Hk.
  - split; [constructor|]. intros r. rewrite lookup_empty. split; [by intros ?%not_elem_of_nil|done].
Qed.
