(* ===== verification/RouteMain.v ===== *)
(** * Properties of routes and of the queue-local router *)
From Stdlib Require Import Sorted.
From S2P Require Import Prelude Bits Core Buffer PacketBuf Poptrie PoptrieEmit Wire WireProofs WireMain.
From S2P Require Import XdpUdp XdpUdpMain Route RouteProofs.
Open Scope Z_scope.

(** A route of the tables that a destination selects: it matches, and no
    matching route has a longer prefix, or the same length and a lower
    priority value. *)
Definition selects (T : Tables) (dst : Z) (r : Ipv4Route) : Prop :=
  tb_routes T !! route_key r = Some r ∧ route_matches dst r = true ∧
  ∀ r', tb_routes T !! route_key r' = Some r' → route_matches dst r' = true → route_le r r'.

(** The egress of a selected route through an interface, from the tables. *)
Definition egress_via (T : Tables) (dst ifindex queue : Z) (route : Ipv4Route) : option XdpEgress :=
  match tb_interfaces T !! ifindex with
  | None => None
  | Some interface =>
      if negb (route_via interface route) then None
      else
        match neighbor_mac (tb_neighbors T) ifindex (rt_ifindex route) (default dst (rt_gateway route)) with
        | None => None
        | Some dst_mac =>
            Some (egress_ipv4 ifindex queue dst_mac (if_mac interface)
                    (Z.min (rt_mtu route) (if_mtu interface)))
        end
  end.

Definition with_header (e : option XdpEgress) : outcome (option XdpResolvedEgress) :=
  match e with
  | None => Ret None
  | Some e => r ← from_egress e; Ret (Some r)
  end.

(** What a snapshot that stands for the tables resolves. *)
Lemma stands_for_resolves s T : stands_for s T → ∀ dst, fits 32 dst → ∃ sel, lookup_route_v4 s dst = Ret sel ∧
  match sel with
  | None => ∀ r, tb_routes T !! route_key r = Some r → route_matches dst r = false
  | Some r => selects T dst r
  end ∧
  ∀ ifindex queue, resolved_v4_for_interface s dst ifindex queue
    = with_header (match sel with None => None | Some r => egress_via T dst ifindex queue r end).
Proof.
  intros Hs dst Hd. pose proof Hs as [Hok [_ Hh] Hnb Hif]. exists (snd <$> first_match dst (routes_v4 s) 0).
  split; [by apply lookup_route_ok|]. split.
  - destruct (first_match dst (routes_v4 s) 0) as [[j r]|] eqn:Hf; cbn.
    + pose proof (first_match_Some _ _ _ _ _ Hf) as (_ & _ & Hin & Hm). split_and!; [by apply Hh|done|].
      intros r' Hr' Hm'. apply Hh in Hr'. by eapply first_match_best; [apply Hok|exact Hf|..].
    + intros r Hr. apply Hh in Hr. by eapply first_match_None.
  - intros ifindex queue. rewrite resolved_ok by done. unfold direct_egress, egress_via. rewrite Hnb, Hif.
    by destruct (first_match dst (routes_v4 s) 0) as [[j r]|].
Qed.

(** C11. Route resolution, end to end: after any sequence of route, neighbour
    and interface updates (up to a million routes), the snapshot exists, and
    for every destination its indexed lookup returns a route the tables select
    (longest prefix, then lowest priority value), or none when no route
    matches; and for every interface and queue the folded egress index returns
    exactly the egress that the tables give for that route: through the
    interface or its bond master, to the gateway or the destination itself,
    with the smaller MTU and its Ethernet header. *)
Theorem route_resolution_correct (ops : list snapshot_op) :
  Forall snapshot_op_wf ops → ops_routes ops ≤ MAX_ROUTES →
  let T := tables_of ops in
  ∃ s, apply_ops snapshot_new ops = Ret s ∧
    ∀ dst, fits 32 dst → ∃ sel, lookup_route_v4 s dst = Ret sel ∧
      match sel with
      | None => ∀ r, tb_routes T !! route_key r = Some r → route_matches dst r = false
      | Some r => selects T dst r
      end ∧
      ∀ ifindex queue, resolved_v4_for_interface s dst ifindex queue
        = with_header (match sel with None => None | Some r => egress_via T dst ifindex queue r end).
Proof.
  intros Hwf Hn T. destruct (apply_ops_ok ops Hwf _ _ snapshot_new_ok) as (s & E & Hs); [done|].
  change (foldl table_op _ ops) with T in Hs. exists s. split; [done|]. by apply stands_for_resolves.
Qed.

(** Two transmit resolutions that put the same header and limit on the wire. *)
Definition same_l2 (a b : option ResolvedL2) : Prop :=
  match a, b with
  | None, None => True
  | Some a, Some b => ∃ h, l2_header a = Ret h ∧ l2_header b = Ret h ∧ ip_mtu a = ip_mtu b
  | _, _ => False
  end.

(** The router's transmit fast path is equivalent to the trait's own
    definition: over every well-formed snapshot and for every destination, the
    borrowed-header resolution agrees with building the header from the
    resolved egress and checking it against the socket's interface and queue,
    in when it resolves, in the header bytes and in the MTU; and it meets what
    the transmit path requires of a router. *)
Theorem router_fast_path (router : XdpQueueLocalRouter) (context : XdpRouteContext) :
  snapshot_ok (lr_snapshot (qr_routes router)) →
  router_ok router context ∧
  ∀ dst, fits 32 dst → ∃ fast slow, resolve_udp_l2 router dst context = Ret fast ∧
    default_resolve_udp_l2 (resolve_udp_egress_resolved router dst context) context = Ret slow ∧
    same_l2 fast slow.
Proof.
  intros Hs. set (s := lr_snapshot (qr_routes router)) in *. split.
  - intros dst Hd. destruct (resolve_l2_ok s dst (rc_ifindex context) (rc_mtu context) Hs Hd) as (o & E & Hl).
    exists o. split; [exact E|]. destruct o as [l2|]; [|done].
    destruct (direct_egress _ _ _ _); [|done]. destruct Hl as [Hl _]. by eexists.
  - intros dst Hd. destruct (resolve_l2_ok s dst (rc_ifindex context) (rc_mtu context) Hs Hd) as (o & E & Hl).
    exists o. cbn [resolve_udp_egress_resolved queue_local_router].
    unfold resolve_v4_resolved_for_interface. fold s. rewrite resolved_ok by done.
    unfold default_resolve_udp_l2.
    destruct (direct_egress_queue s dst (rc_ifindex context)) as [Hq|(i & e & Hq)].
    { rewrite Hq in Hl |- *. run. eexists. split; [exact E|]. split; [reflexivity|]. by destruct o. }
    destruct (direct_egress_ok s dst _ _ _ Hs (Hq (λ _, rc_queue context))) as (Heok & Het & Hifx).
    rewrite Hq in Hl |- *. destruct (inline_header _ Heok) as (h & l & _ & Hfrom & Hsl).
    rewrite Hfrom. run. cbn [re_egress]. rewrite Hifx, Het, !Z.eqb_refl. cbn [negb orb egress_with_queue eg_queue].
    eexists. split; [exact E|]. split; [reflexivity|].
    destruct o as [l2|]; [|done]. destruct Hl as [Hl2 Hmtu]. exists (eth_bytes e). by split_and!.
Qed.

Lemma adopt_pending_spec ps s n :
  adopt_pending ps s n = (default s (last ps), n + len ps).
Proof.
  revert s n. induction ps as [|p ps IH]; intros s n; cbn [adopt_pending].
  - unfold len. cbn. by rewrite Z.add_0_r.
  - rewrite IH, len_cons. f_equal; [|lia]. destruct ps; [done|]. by rewrite last_cons_cons; destruct (last _) eqn:E;
      [|apply last_None in E].
Qed.

(** Route updates are adopted in order and invalidate prepared headers:
    applying queued updates leaves the last one in force, empties the queue and
    counts each in the generation; and an endpoint cached under the generation
    before is rebuilt from the new routes by its next refresh, whatever it
    held. *)
Theorem route_update_invalidates (router : XdpQueueLocalRouter) (s : RouteSnapshot)
    (earlier : list RouteSnapshot) (local_ip local_port ttl : Z) (context : XdpRouteContext)
    (spec : UdpEndpointSpec) (info : UdpEndpointInfo) (cache : XdpUdpEndpointCache) :
  lr_pending (qr_routes router) = earlier ++ [s] → len earlier + 1 < 2 ^ 64 →
  fits 64 (lr_generation (qr_routes router)) →
  ec_route_generation cache = route_generation router →
  let router' := mkQueueLocalRouter (apply_updates (qr_routes router)).1 in
  lr_snapshot (qr_routes router') = s ∧ lr_pending (qr_routes router') = [] ∧
  (apply_updates (qr_routes router)).2 = len earlier + 1 ∧
  route_generation router' = wrapping_add 64 (route_generation router) (len earlier + 1) ∧
  route_generation router' ≠ route_generation router ∧
  refresh_udp_endpoint_cache router' local_ip local_port ttl context (mkXdpUdpEndpoint spec info (Some cache))
  = (r ← build_xdp_udp_endpoint_cache router' local_ip local_port ttl context (route_generation router') spec;
     match r with
     | Ok (cached, info') => Ret (mkXdpUdpEndpoint spec info' (Some cached), Ok tt)
     | Err e => Ret (mkXdpUdpEndpoint spec info None, Err e)
     end).
Proof.
  intros Hp Hn Hg Hc router'. pose proof (len_nonneg earlier).
  assert (Happly : apply_updates (qr_routes router)
    = (mkLocalRoutes s [] (wrapping_add 64 (route_generation router) (len earlier + 1)), len earlier + 1)).
  { unfold apply_updates. rewrite adopt_pending_spec, Hp, last_snoc, len_snoc. cbn [default].
    rewrite Z.add_0_l. destruct (Z.eqb_spec (len earlier + 1) 0); [lia|done]. }
  assert (Hne : wrapping_add 64 (route_generation router) (len earlier + 1) ≠ route_generation router).
  { cbn. unfold wrapping_add, wrap, fits in *. intros E.
    pose proof (Z.div_mod (lr_generation (qr_routes router) + (len earlier + 1)) (2 ^ 64) ltac:(lia)) as Hd.
    rewrite E in Hd. nia. }
  unfold router'. rewrite Happly. cbn [fst snd]. split_and!; try done.
  unfold refresh_udp_endpoint_cache. cbn [xe_cached xe_spec xe_info]. rewrite Hc.
  destruct (Z.eqb_spec (route_generation router)
    (route_generation (mkQueueLocalRouter (mkLocalRoutes s [] (wrapping_add 64 (route_generation router) (len earlier + 1))))))
    as [E|]; [by symmetry in E|]. done.
Qed.

(** ** Witnesses

    A default route through a gateway and an on-link network; the interface 2
    is a slave of the bond 4. *)
Definition demo_ops : list snapshot_op :=
  [UpsertInterface (mkInterface 2 (Some 4) [1;1;1;1;1;1] 1500 0);
   UpsertNeighbor 4 3221226083 [9;9;9;9;9;9];
   UpsertRoutes [mkRoute 0 0 4 (Some 3221226083) 100 1400; mkRoute 3221225984 24 4 None 10 9000];
   UpsertNeighbor 4 3221225989 [5;5;5;5;5;5];
   UpsertRoute (mkRoute 0 0 4 (Some 3221226083) 50 1300)].

Lemma demo_ops_wf : Forall snapshot_op_wf demo_ops.
Proof. repeat constructor; vm_compute; congruence. Qed.

(** The result of a computation known to return. *)
Definition get {A} (d : A) (o : outcome A) : A := match o with Ret a => a | _ => d end.
Definition demo_snapshot : RouteSnapshot := get snapshot_new (apply_ops snapshot_new demo_ops).

Lemma route_resolution_correct_witness :
  ∃ s sel, apply_ops snapshot_new demo_ops = Ret s ∧ lookup_route_v4 s 134744072 = Ret sel ∧
    sel = Some (mkRoute 0 0 4 (Some 3221226083) 50 1300) ∧
    resolved_v4_for_interface s 134744072 2 7
    = with_header (Some (egress_ipv4 2 7 [9;9;9;9;9;9] [1;1;1;1;1;1] 1300)).
Proof.
  destruct (route_resolution_correct demo_ops demo_ops_wf ltac:(vm_compute; congruence)) as (s & E & H).
  destruct (H 134744072 ltac:(split; [lia|reflexivity])) as (sel & Hl & Hsel & Hr).
  exists s, sel. split; [exact E|]. split; [exact Hl|].
  assert (Hs : sel = Some (mkRoute 0 0 4 (Some 3221226083) 50 1300)).
  { clear -Hsel. destruct sel as [r|].
    - destruct Hsel as (Hin & Hm & _). revert Hin. unfold tables_of. cbn [foldl table_op demo_ops tb_routes table_insert].
      intros Hin. unfold table_insert in Hin. repeat (apply lookup_insert_Some in Hin as [[_ <-]|[? Hin]];
        [solve [done | by vm_compute in Hm | exfalso; auto]|]).
      by rewrite lookup_empty in Hin.
    - specialize (Hsel (mkRoute 0 0 4 (Some 3221226083) 50 1300) ltac:(vm_compute; reflexivity)).
      by vm_compute in Hsel. }
  split; [exact Hs|]. rewrite (Hr 2 7), Hs. vm_compute. reflexivity.
Defined.

Lemma demo_snapshot_ok : snapshot_ok demo_snapshot.
Proof.
  destruct (apply_ops_ok demo_ops demo_ops_wf _ _ snapshot_new_ok) as (s & E & Hs); [vm_compute; congruence|].
  unfold demo_snapshot. rewrite E. apply Hs.
Qed.

Lemma router_fast_path_witness :
  let router := mkQueueLocalRouter (local_routes_new demo_snapshot) in
  let context := mkRouteContext 2 7 1500 in
  ∃ fast slow, resolve_udp_l2 router 134744072 context = Ret fast ∧
    default_resolve_udp_l2 (resolve_udp_egress_resolved router 134744072 context) context = Ret slow ∧
    same_l2 fast slow.
Proof.
  intros router context. apply (router_fast_path router context).
  - exact demo_snapshot_ok.
  - split; [lia|reflexivity].
Defined.

Lemma route_update_invalidates_witness :
  let router := mkQueueLocalRouter (push_update (local_routes_new snapshot_new) demo_snapshot) in
  let router' := mkQueueLocalRouter (apply_updates (qr_routes router)).1 in
  lr_snapshot (qr_routes router') = demo_snapshot ∧ route_generation router' ≠ route_generation router.
Proof.
  intros router router'.
  destruct (route_update_invalidates router demo_snapshot [] 167772161 5000 64 demo_context demo_spec
    (mkInfo 0 None None) (mkCache 0 [] 0)) as (H1 & _ & _ & _ & H2 & _).
  - reflexivity.
  - reflexivity.
  - vm_compute. split; congruence.
  - reflexivity.
  - split; [exact H1|exact H2].
Defined.
