(* ===== verification/Reclaim.v ===== *)
(** * Frame reclaim: the free lists of [buffer.rs] and completion reclaim of [socket.rs]

    A pool's free frames are a vector that only the owner thread touches and a
    bounded queue other threads push into. Completed transmit frames are
    written back into the vectors without a capacity check. *)
From S2P Require Import Prelude Bits Core.
Open Scope Z_scope.

(** ** The bounded queue

    [crossbeam_queue::ArrayQueue] is a parameter: the operations used, and
    below what its documentation promises of them. *)
Class ArrayQueue (Q T : Type) := {
  aq_new : Z → Q;
  (** [push]: [Some] gives the value back when the queue is full. *)
  aq_push : Q → T → Q * option T;
  aq_pop : Q → Q * option T;
}.

(** A bounded first-in first-out queue with a fixed capacity. *)
Class ArrayQueueLaws (Q T : Type) `{ArrayQueue Q T} := {
  aq_items : Q → list T;
  aq_capacity : Q → Z;
  aq_new_law c : 0 < c → aq_items (aq_new c) = [] ∧ aq_capacity (aq_new c) = c;
  aq_push_law q x :
    if len (aq_items q) <? aq_capacity q then
      ∃ q', aq_push q x = (q', None) ∧ aq_items q' = aq_items q ++ [x] ∧ aq_capacity q' = aq_capacity q
    else aq_push q x = (q, Some x);
  aq_pop_law q :
    match aq_items q with
    | [] => aq_pop q = (q, None)
    | x :: l => ∃ q', aq_pop q = (q', Some x) ∧ aq_items q' = l ∧ aq_capacity q' = aq_capacity q
    end;
}.

(** ** [MpscQueue] *)
Record MpscQueue (Q : Type) := mkMpsc {
  mq_inner : Q;
  mq_len : Z;
}.
Arguments mkMpsc {Q} _ _.
Arguments mq_inner {Q} _.
Arguments mq_len {Q} _.

Section Mpsc.
Context {Q T : Type} `{ArrayQueue Q T}.

Definition mpsc_new (capacity : Z) : MpscQueue Q := mkMpsc (aq_new (Z.max capacity 1)) 0.

(** The atomic steps of [push]: reserve, publish, and the undo of a failed
    publication. *)
Definition mpsc_reserve (q : MpscQueue Q) : MpscQueue Q :=
  mkMpsc (mq_inner q) (wrapping_add 64 (mq_len q) 1).
Definition mpsc_publish (q : MpscQueue Q) (value : T) : MpscQueue Q * option T :=
  let '(inner, r) := aq_push (mq_inner q) value in (mkMpsc inner (mq_len q), r).
Definition mpsc_release (q : MpscQueue Q) (n : Z) : MpscQueue Q :=
  mkMpsc (mq_inner q) (wrapping_sub 64 (mq_len q) n).

Definition mpsc_push (q : MpscQueue Q) (value : T) : outcome (MpscQueue Q) :=
  let q := mpsc_reserve q in
  match mpsc_publish q value with
  | (q, None) => Ret q
  | (_, Some _) => Panic
  end.

Definition mpsc_is_empty (q : MpscQueue Q) : bool := mq_len q =? 0.

(** One [inner.pop()] of [drain_into]. *)
Definition mpsc_pop (q : MpscQueue Q) : MpscQueue Q * option T :=
  let '(inner, r) := aq_pop (mq_inner q) in (mkMpsc inner (mq_len q), r).

(** The loop of [drain_into]; alone on the queue it runs once per entry and
    once more. *)
Fixpoint drain_loop (fuel : nat) (q : MpscQueue Q) (out : list T) (drained : Z) :
    outcome (MpscQueue Q * list T * Z) :=
  match fuel with
  | O => Diverge
  | S fuel =>
      match mpsc_pop q with
      | (q, Some value) => drain_loop fuel q (out ++ [value]) (drained + 1)
      | (q, None) => Ret (q, out, drained)
      end
  end.
Definition mpsc_drain_into (q : MpscQueue Q) (out : list T) : outcome (MpscQueue Q * list T) :=
  '(q, out, drained) ← drain_loop (S (Z.to_nat (mq_len q))) q out 0;
  Ret (if 0 <? drained then mpsc_release q drained else q, out).

Definition drain_remote (remote : MpscQueue Q) (local : list T) : outcome (MpscQueue Q * list T) :=
  if mpsc_is_empty remote then Ret (remote, local) else mpsc_drain_into remote local.
End Mpsc.

(** ** Free lists: [FrameReclaim], and [HeapReclaim] with boxed frames

    The last element of the vector is the next one popped. [rc_cap] is the
    capacity of the vector; a checked push beyond it grows the vector to at
    least its new length. *)
Record FrameReclaim (Q T : Type) := mkReclaim {
  rc_free : list T;
  rc_cap : Z;
  rc_remote : MpscQueue Q;
}.
Arguments mkReclaim {Q T} _ _ _.
Arguments rc_free {Q T} _.
Arguments rc_cap {Q T} _.
Arguments rc_remote {Q T} _.

Section FreeLists.
Context {Q T : Type} `{ArrayQueue Q T}.

Definition with_free (r : FrameReclaim Q T) (free : list T) : FrameReclaim Q T :=
  mkReclaim free (Z.max (rc_cap r) (len free)) (rc_remote r).

(** [FrameReclaim::with_remote_capacity]. *)
Definition with_remote_capacity (frames : list T) (capacity : Z) (remote_capacity : option Z) :
    FrameReclaim Q T :=
  mkReclaim frames capacity (mpsc_new (default capacity remote_capacity)).

(** [drain_remote(&self.remote, free)] in place. *)
Definition reclaim_drain_remote (r : FrameReclaim Q T) : outcome (FrameReclaim Q T) :=
  '(remote, free) ← drain_remote (rc_remote r) (rc_free r);
  Ret (mkReclaim free (Z.max (rc_cap r) (len free)) remote).

Definition vec_pop (l : list T) : list T * option T := (removelast l, last l).

Definition reclaim_pop (r : FrameReclaim Q T) : outcome (FrameReclaim Q T * option T) :=
  r ← (if len (rc_free r) =? 0 then reclaim_drain_remote r else Ret r);
  let '(free, x) := vec_pop (rc_free r) in
  Ret (mkReclaim free (rc_cap r) (rc_remote r), x).

(** The loop of [pop_many_with]: the frames given to the closure, in order. *)
Fixpoint pop_loop (count : nat) (free : list T) : outcome (list T * list T) :=
  match count with
  | O => Ret (free, [])
  | S count =>
      match vec_pop free with
      | (free, Some x) => '(free, xs) ← pop_loop count free; Ret (free, x :: xs)
      | (_, None) => Panic
      end
  end.
Definition pop_many_with (r : FrameReclaim Q T) (max : Z) : outcome (FrameReclaim Q T * list T) :=
  if max =? 0 then Ret (r, [])
  else
    r ← (if len (rc_free r) <? max then reclaim_drain_remote r else Ret r);
    let count := Z.min max (len (rc_free r)) in
    '(free, xs) ← pop_loop (Z.to_nat count) (rc_free r);
    Ret (mkReclaim free (rc_cap r) (rc_remote r), xs).

(** [push], by the owner thread or another one. *)
Definition reclaim_push (owner : bool) (r : FrameReclaim Q T) (x : T) : outcome (FrameReclaim Q T) :=
  if owner then Ret (with_free r (rc_free r ++ [x]))
  else remote ← mpsc_push (rc_remote r) x; Ret (mkReclaim (rc_free r) (rc_cap r) remote).

Definition reclaim_is_empty (r : FrameReclaim Q T) : outcome (FrameReclaim Q T * bool) :=
  r ← (if len (rc_free r) =? 0 then reclaim_drain_remote r else Ret r);
  Ret (r, len (rc_free r) =? 0).

(** [drain_into]: the vector is emptied into [out] and keeps its capacity. *)
Definition reclaim_drain_into (r : FrameReclaim Q T) (out : list T) : outcome (FrameReclaim Q T * list T) :=
  r ← reclaim_drain_remote r;
  Ret (mkReclaim [] (rc_cap r) (rc_remote r), out ++ rc_free r).
End FreeLists.

(** ** Completion reclaim *)
Inductive CompletionReclaim :=
  | LocalSplit (first_tx_frame_addr : Z)
  | SharedMemberSlices (member_byte_mask rx_member_byte_len active_byte_len : Z).

Inductive SliceError := FrameSizeNotPow2 | FramesPerMemberNotPow2 | RxFramesNotPow2 | RxFramesExceed.

Definition shared_member_slices (frame_size frames_per_member rx_frames_per_member active_frames : Z) :
    result CompletionReclaim SliceError :=
  if negb (is_power_of_two frame_size) then Err FrameSizeNotPow2
  else if (frames_per_member =? 0) || negb (is_power_of_two frames_per_member) then
    Err FramesPerMemberNotPow2
  else if (rx_frames_per_member =? 0) || negb (is_power_of_two rx_frames_per_member) then
    Err RxFramesNotPow2
  else if frames_per_member <? rx_frames_per_member then Err RxFramesExceed
  else Ok (SharedMemberSlices (frames_per_member * frame_size - 1) (rx_frames_per_member * frame_size)
             (active_frames * frame_size)).

Definition ring_corrupt_error : Error := Device (DeviceError_new RingCorrupt).

(** A vector with its capacity. *)
Record Vec := mkVec {
  v_items : list Z;
  v_cap : Z;
}.

Section Completions.
(** With debug assertions the missing capacity is a panic; without, the write
    is out of bounds. *)
Context (debug_assertions : bool).

Definition push_reclaimed_frame_unchecked (free : Vec) (frame_addr : Z) : outcome Vec :=
  if len (v_items free) <? v_cap free then Ret (mkVec (v_items free ++ [frame_addr]) (v_cap free))
  else if debug_assertions then Panic else UB.

Fixpoint reclaim_local_split_completions (completions : list Z)
    (frame_mask umem_len first_tx_frame_addr : Z) (rx_free tx_free : Vec) :
    outcome (Vec * Vec * result unit Error) :=
  match completions with
  | [] => Ret (rx_free, tx_free, Ok tt)
  | addr :: completions =>
      let frame_addr := Z.land addr (bnot 64 frame_mask) in
      if umem_len <=? frame_addr then Ret (rx_free, tx_free, Err ring_corrupt_error)
      else if frame_addr <? first_tx_frame_addr then
        rx_free ← push_reclaimed_frame_unchecked rx_free frame_addr;
        reclaim_local_split_completions completions frame_mask umem_len first_tx_frame_addr rx_free tx_free
      else
        tx_free ← push_reclaimed_frame_unchecked tx_free frame_addr;
        reclaim_local_split_completions completions frame_mask umem_len first_tx_frame_addr rx_free tx_free
  end.

Fixpoint reclaim_shared_member_slice_completions (completions : list Z)
    (frame_mask umem_len member_byte_mask rx_member_byte_len active_byte_len : Z) (rx_free tx_free : Vec) :
    outcome (Vec * Vec * result unit Error) :=
  match completions with
  | [] => Ret (rx_free, tx_free, Ok tt)
  | addr :: completions =>
      let frame_addr := Z.land addr (bnot 64 frame_mask) in
      if (umem_len <=? frame_addr) || (active_byte_len <=? frame_addr) then
        Ret (rx_free, tx_free, Err ring_corrupt_error)
      else
        let member_offset := Z.land frame_addr member_byte_mask in
        if member_offset <? rx_member_byte_len then
          rx_free ← push_reclaimed_frame_unchecked rx_free frame_addr;
          reclaim_shared_member_slice_completions completions frame_mask umem_len member_byte_mask
            rx_member_byte_len active_byte_len rx_free tx_free
        else
          tx_free ← push_reclaimed_frame_unchecked tx_free frame_addr;
          reclaim_shared_member_slice_completions completions frame_mask umem_len member_byte_mask
            rx_member_byte_len active_byte_len rx_free tx_free
  end.

(** The closure of [drain_tx_completions_inner]. *)
Definition reclaim_completions (reclaim : CompletionReclaim) (frame_mask umem_len : Z)
    (first second : list Z) (free : Vec * Vec) : outcome (Vec * Vec * result unit Error) :=
  let f :=
    match reclaim with
    | LocalSplit first_tx_frame_addr =>
        λ l, reclaim_local_split_completions l frame_mask umem_len first_tx_frame_addr
    | SharedMemberSlices member_byte_mask rx_member_byte_len active_byte_len =>
        λ l, reclaim_shared_member_slice_completions l frame_mask umem_len member_byte_mask
               rx_member_byte_len active_byte_len
    end in
  '(rx_free, tx_free, r) ← f first free.1 free.2;
  match r with
  | Err e => Ret (rx_free, tx_free, Err e)
  | Ok _ => f second rx_free tx_free
  end.
End Completions.
