(* ===== verification/ReclaimProofs.v ===== *)
(** * Frame reclaim: free lists and completions

    What the free-list operations do to the multiset of frames, and when the
    unchecked writes of completion reclaim are in bounds. *)
From S2P Require Import Prelude Bits Core Umem PoptrieEmit PoptrieBuild Reclaim.
Open Scope Z_scope.

(** ** Frames by address *)
Definition frame_of (fs addr : Z) : Z := addr - addr mod fs.
Definition in_frames (fs lo hi addr : Z) : Prop := addr mod fs = 0 ∧ lo * fs ≤ addr < hi * fs.

Lemma frame_of_in fs n addr : 0 < fs → 0 ≤ addr < n * fs → in_frames fs 0 n (frame_of fs addr).
Proof.
  intros Hfs Ha. unfold frame_of, in_frames. pose proof (Z.mod_pos_bound addr fs ltac:(lia)).
  pose proof (Z.div_mod addr fs ltac:(lia)) as Hd.
  replace (addr - addr mod fs) with (addr / fs * fs) by lia. split; [apply Z_mod_mult|].
  assert (0 ≤ addr / fs < n) by (split; [apply Z.div_pos; lia|apply Z.div_lt_upper_bound; lia]). nia.
Qed.

Lemma frame_of_mask k addr : 0 ≤ k ≤ 64 → 0 ≤ addr < 2 ^ 64 →
  Z.land addr (bnot 64 (2 ^ k - 1)) = frame_of (2 ^ k) addr.
Proof. apply land_page_mask. Qed.

(** Distinct frames of a range are no more than the range has. *)
Lemma frames_len fs lo hi l : 0 < fs → lo ≤ hi → NoDup l → Forall (in_frames fs lo hi) l → len l ≤ hi - lo.
Proof.
  intros Hfs Hlh Hnd Hl. rewrite Forall_forall in Hl.
  assert (Hdiv : ∀ a, a ∈ l → a = fs * (a / fs)).
  { intros a Ha. destruct (Hl a Ha) as [Hm _]. pose proof (Z.div_mod a fs ltac:(lia)). lia. }
  transitivity (len ((λ a, a / fs - lo) <$> l)); [unfold len; by rewrite length_fmap|].
  apply NoDup_range_len; [lia| |].
  - apply NoDup_fmap_2_strong; [|done]. intros a b Ha Hb E. rewrite (Hdiv a Ha), (Hdiv b Hb). f_equal. lia.
  - intros i (a & -> & Ha)%list_elem_of_fmap. destruct (Hl a Ha) as [_ Hr]. pose proof (Hdiv a Ha). nia.
Qed.

(** ** Completions of an owned UMEM *)
Section LocalSplit.
Context (debug : bool) (k n rxn : Z).
Context (Hk : 0 ≤ k ≤ 64) (Hrx : 0 ≤ rxn ≤ n) (Hsize : n * 2 ^ k ≤ 2 ^ 64).
Let fs := 2 ^ k.

(** A free list of a range, with room for the whole range. *)
Definition free_ok (lo hi : Z) (v : Vec) : Prop := Forall (in_frames fs lo hi) (v_items v) ∧ hi - lo ≤ v_cap v.

Lemma push_unchecked_ok lo hi v a : lo ≤ hi →
  free_ok lo hi v → in_frames fs lo hi a → NoDup (v_items v ++ [a]) →
  push_reclaimed_frame_unchecked debug v a = Ret (mkVec (v_items v ++ [a]) (v_cap v)) ∧
  free_ok lo hi (mkVec (v_items v ++ [a]) (v_cap v)).
Proof.
  intros Hlh [Hl Hc] Ha Hnd.
  assert (Hall : Forall (in_frames fs lo hi) (v_items v ++ [a])) by (apply Forall_app; split; [done|by constructor]).
  assert (0 < fs) by (unfold fs; lia).
  pose proof (frames_len fs lo hi _ ltac:(done) Hlh Hnd Hall) as Hlen. rewrite len_snoc in Hlen.
  unfold push_reclaimed_frame_unchecked. destruct (Z.ltb_spec (len (v_items v)) (v_cap v)); [|lia]. done.
Qed.

Definition rx_frame (a : Z) : bool := a <? rxn * fs.

Lemma local_split_ok cs : ∀ rx tx,
  Forall (λ a, 0 ≤ a < n * fs) cs →
  NoDup (v_items rx ++ v_items tx ++ (frame_of fs <$> cs)) →
  free_ok 0 rxn rx → free_ok rxn n tx →
  let frames := frame_of fs <$> cs in
  reclaim_local_split_completions debug cs (fs - 1) (n * fs) (rxn * fs) rx tx
  = Ret (mkVec (v_items rx ++ filter (λ a, rx_frame a = true) frames) (v_cap rx),
         mkVec (v_items tx ++ filter (λ a, rx_frame a = false) frames) (v_cap tx), Ok tt).
Proof.
  assert (Hfs : 0 < fs) by (unfold fs; lia).
  induction cs as [|a cs IH]; intros rx tx Hcs Hnd Hr Ht; cbn [fmap list_fmap reclaim_local_split_completions].
  { cbv zeta. cbn [filter list_filter]. rewrite !app_nil_r. by destruct rx, tx. }
  apply Forall_cons in Hcs as [Ha Hcs]. cbn [fmap list_fmap] in Hnd.
  replace (Z.land a (bnot 64 (fs - 1))) with (frame_of fs a)
    by (symmetry; apply frame_of_mask; [done|unfold fs in *; lia]).
  set (f := frame_of fs a) in *. cbv zeta.
  pose proof (frame_of_in fs n a Hfs Ha) as [Hm Hf]. fold f in Hm, Hf.
  destruct (Z.leb_spec (n * fs) f); [lia|]. rewrite !filter_cons.
  destruct (Z.ltb_spec f (rxn * fs)) as [Hlt|Hge].
  - assert (Hp : NoDup ((v_items rx ++ [f]) ++ v_items tx ++ (frame_of fs <$> cs))).
    { rewrite <- app_assoc. cbn. by rewrite Permutation_middle. }
    destruct (push_unchecked_ok 0 rxn rx f) as [-> Hr']; [lia|done|split; [done|lia]| |].
    { by apply NoDup_app in Hp as (? & _). }
    run. rewrite IH by done. cbn [v_items v_cap].
    rewrite decide_True by (apply Z.ltb_lt; lia). rewrite decide_False by (unfold rx_frame; rewrite Z.ltb_ge; lia).
    by rewrite <- app_assoc.
  - assert (Hp : NoDup (v_items rx ++ (v_items tx ++ [f]) ++ (frame_of fs <$> cs))) by by rewrite <- app_assoc.
    destruct (push_unchecked_ok rxn n tx f) as [-> Ht']; [lia|done|split; [done|lia]| |].
    { apply NoDup_app in Hp as (_ & _ & Hp). by apply NoDup_app in Hp as (? & _). }
    run. rewrite IH by done. cbn [v_items v_cap].
    rewrite decide_False by (unfold rx_frame; rewrite Z.ltb_lt; lia). rewrite decide_True by (apply Z.ltb_ge; lia).
    by rewrite <- app_assoc.
Qed.
End LocalSplit.

(** The two slices are processed as one list. *)
Lemma reclaim_completions_app debug first_tx mask umem_len first second free :
  reclaim_completions debug (LocalSplit first_tx) mask umem_len first second free
  = reclaim_local_split_completions debug (first ++ second) mask umem_len first_tx free.1 free.2.
Proof.
  unfold reclaim_completions. destruct free as [rx tx]. cbn [fst snd]. revert rx tx.
  induction first as [|a first IH]; intros rx tx; cbn [app reclaim_local_split_completions]; [done|].
  destruct (umem_len <=? _); [done|]. destruct (_ <? first_tx).
  - destruct (push_reclaimed_frame_unchecked debug rx _); try done. run. apply IH.
  - destruct (push_reclaimed_frame_unchecked debug tx _); try done. run. apply IH.
Qed.

(** ** Completions of a shared UMEM *)
Section SharedSlices.
Context (debug : bool) (kf km kr active n : Z).
Context (Hkf : 0 ≤ kf) (Hkm : 0 ≤ km) (Hkr : 0 ≤ kr) (Hactive : 0 ≤ active ≤ n) (Hsize : n * 2 ^ kf ≤ 2 ^ 64).
Let fs := 2 ^ kf.

(** Receive frames are the first [2 ^ kr] of every member's [2 ^ km]. *)
Definition member_rx_frame (a : Z) : bool := (a / fs) mod 2 ^ km <? 2 ^ kr.

Lemma member_offset_rx a : a mod fs = 0 → 0 ≤ a →
  (Z.land a (2 ^ km * fs - 1) <? 2 ^ kr * fs) = member_rx_frame a.
Proof.
  intros Hm Ha. assert (Hfs : 0 < fs) by (unfold fs; lia). unfold member_rx_frame.
  replace (2 ^ km * fs) with (2 ^ (kf + km)) by (unfold fs; rewrite Z.pow_add_r by done; lia).
  rewrite land_pow2_mask, Z.pow_add_r by lia. fold fs. rewrite Z.rem_mul_r by lia. rewrite Hm.
  assert (H : ∀ x y, (fs * x <? y * fs) = (x <? y)).
  { intros x y. destruct (Z.ltb_spec x y), (Z.ltb_spec (fs * x) (y * fs)); try done; nia. }
  by rewrite Z.add_0_l, H.
Qed.

Definition rx_count (l : list Z) : Z := len (filter (λ a, member_rx_frame a = true) l).
Definition tx_count (l : list Z) : Z := len (filter (λ a, member_rx_frame a = false) l).

(** Whether both free lists have room for what completed. *)
Definition shared_room (frames : list Z) (rx tx : Vec) : bool :=
  (len (v_items rx) + rx_count frames <=? v_cap rx) && (len (v_items tx) + tx_count frames <=? v_cap tx).

Definition shared_result (frames : list Z) (rx tx : Vec) : outcome (Vec * Vec * result unit Error) :=
  if shared_room frames rx tx then
    Ret (mkVec (v_items rx ++ filter (λ a, member_rx_frame a = true) frames) (v_cap rx),
         mkVec (v_items tx ++ filter (λ a, member_rx_frame a = false) frames) (v_cap tx), Ok tt)
  else if debug then Panic else UB.

Lemma rx_count_cons a l : rx_count (a :: l) = rx_count l + (if member_rx_frame a then 1 else 0).
Proof.
  unfold rx_count. rewrite filter_cons. destruct (member_rx_frame a).
  - rewrite decide_True, len_cons by done. lia.
  - rewrite decide_False by done. lia.
Qed.
Lemma tx_count_cons a l : tx_count (a :: l) = tx_count l + (if member_rx_frame a then 0 else 1).
Proof.
  unfold tx_count. rewrite filter_cons. destruct (member_rx_frame a).
  - rewrite decide_False by done. lia.
  - rewrite decide_True, len_cons by done. lia.
Qed.

(** One completion first. *)
Lemma shared_result_cons a l rx tx :
  len (v_items rx) ≤ v_cap rx → len (v_items tx) ≤ v_cap tx →
  shared_result (a :: l) rx tx
  = (if member_rx_frame a then
       rx' ← push_reclaimed_frame_unchecked debug rx a; shared_result l rx' tx
     else tx' ← push_reclaimed_frame_unchecked debug tx a; shared_result l rx tx').
Proof.
  intros Hr Ht. unfold shared_result, shared_room, push_reclaimed_frame_unchecked.
  rewrite rx_count_cons, tx_count_cons, !filter_cons.
  pose proof (len_nonneg (filter (λ a, member_rx_frame a = true) l)) as Hc1. fold (rx_count l) in Hc1.
  pose proof (len_nonneg (filter (λ a, member_rx_frame a = false) l)) as Hc2. fold (tx_count l) in Hc2.
  destruct (member_rx_frame a); cbn -[Z.leb Z.ltb len]; rewrite ?Z.add_0_r.
  - destruct (Z.ltb_spec (len (v_items rx)) (v_cap rx)).
    + run. cbn [v_items v_cap]. rewrite len_snoc, <- app_assoc.
      replace (len (v_items rx) + (rx_count l + 1)) with (len (v_items rx) + 1 + rx_count l) by lia. done.
    + destruct (Z.leb_spec (len (v_items rx) + (rx_count l + 1)) (v_cap rx)); [lia|]. by destruct debug.
  - destruct (Z.ltb_spec (len (v_items tx)) (v_cap tx)).
    + run. cbn [v_items v_cap]. rewrite len_snoc, <- app_assoc.
      replace (len (v_items tx) + (tx_count l + 1)) with (len (v_items tx) + 1 + tx_count l) by lia. done.
    + destruct (Z.leb_spec (len (v_items tx) + (tx_count l + 1)) (v_cap tx)); [lia|]. rewrite andb_false_r.
      by destruct debug.
Qed.

Lemma push_unchecked_room v a v' : push_reclaimed_frame_unchecked debug v a = Ret v' →
  len (v_items v') ≤ v_cap v' .
Proof.
  unfold push_reclaimed_frame_unchecked. destruct (Z.ltb_spec (len (v_items v)) (v_cap v)); [|by destruct debug].
  intros [= <-]. cbn. rewrite len_snoc. lia.
Qed.

Lemma shared_slices_ok cs : ∀ rx tx,
  Forall (λ a, 0 ≤ a < active * fs) cs → len (v_items rx) ≤ v_cap rx → len (v_items tx) ≤ v_cap tx →
  reclaim_shared_member_slice_completions debug cs (fs - 1) (n * fs) (2 ^ km * fs - 1) (2 ^ kr * fs)
    (active * fs) rx tx = shared_result (frame_of fs <$> cs) rx tx.
Proof.
  assert (Hfs : 0 < fs) by (unfold fs; lia). assert (Hn : active * fs ≤ n * fs) by nia.
  induction cs as [|a cs IH]; intros rx tx Hcs Hr Ht; cbn [fmap list_fmap reclaim_shared_member_slice_completions].
  { unfold shared_result, shared_room, rx_count, tx_count. cbn [filter list_filter]. rewrite !app_nil_r.
    destruct rx as [r rc], tx as [t tc]. cbn [v_items v_cap] in *. change (len []) with 0. rewrite !Z.add_0_r.
    by rewrite !(proj2 (Z.leb_le _ _)) by done. }
  apply Forall_cons in Hcs as [Ha Hcs].
  assert (Hk64 : kf ≤ 64).
  { destruct (Z.le_gt_cases kf 64); [done|]. assert (2 ^ 64 < fs) by (apply Z.pow_lt_mono_r; lia).
    fold fs in Hsize. assert (1 ≤ active) by nia. assert (1 * fs ≤ n * fs) by (apply Z.mul_le_mono_nonneg_r; lia). lia. }
  replace (Z.land a (bnot 64 (fs - 1))) with (frame_of fs a)
    by (symmetry; apply frame_of_mask; unfold fs in *; lia).
  pose proof (frame_of_in fs active a Hfs Ha) as [Hm Hf]. set (f := frame_of fs a) in *.
  destruct (Z.leb_spec (n * fs) f); [lia|]. destruct (Z.leb_spec (active * fs) f); [lia|]. cbn [orb].
  rewrite member_offset_rx by (done || lia). rewrite shared_result_cons by done.
  destruct (member_rx_frame f).
  - destruct (push_reclaimed_frame_unchecked debug rx f) as [v| | |] eqn:E; try done. run.
    apply push_unchecked_room in E. by apply IH.
  - destruct (push_reclaimed_frame_unchecked debug tx f) as [v| | |] eqn:E; try done. run.
    apply push_unchecked_room in E. by apply IH.
Qed.
End SharedSlices.

(** The two slices are processed as one list. *)
Lemma reclaim_shared_app debug mbm rxl act mask umem_len first second free :
  reclaim_completions debug (SharedMemberSlices mbm rxl act) mask umem_len first second free
  = reclaim_shared_member_slice_completions debug (first ++ second) mask umem_len mbm rxl act free.1 free.2.
Proof.
  unfold reclaim_completions. destruct free as [rx tx]. cbn [fst snd]. revert rx tx.
  induction first as [|a first IH]; intros rx tx; cbn [app reclaim_shared_member_slice_completions]; [done|].
  destruct (_ || _); [done|]. destruct (_ <? rxl).
  - destruct (push_reclaimed_frame_unchecked debug rx _); try done. run. apply IH.
  - destruct (push_reclaimed_frame_unchecked debug tx _); try done. run. apply IH.
Qed.

(** ** Free lists *)
Section FreeListProofs.
Context {Q T : Type} `{!ArrayQueue Q T, !ArrayQueueLaws Q T}.

Definition remote_items (r : FrameReclaim Q T) : list T := aq_items (mq_inner (rc_remote r)).
(** Everything the pool holds. *)
Definition held (r : FrameReclaim Q T) : list T := rc_free r ++ remote_items r.

(** No push is in progress and the counter is exact. *)
Record reclaim_ok (remote_capacity : Z) (r : FrameReclaim Q T) : Prop := mkReclaimOk {
  ro_len : mq_len (rc_remote r) = len (remote_items r);
  ro_bound : len (remote_items r) < 2 ^ 64;
  ro_remote : aq_capacity (mq_inner (rc_remote r)) = remote_capacity;
  ro_cap : len (rc_free r) ≤ rc_cap r;
}.

Lemma drain_loop_ok (fuel : nat) (q : MpscQueue Q) out d :
  len (aq_items (mq_inner q)) < Z.of_nat fuel →
  ∃ q', drain_loop fuel q out d = Ret (q', out ++ aq_items (mq_inner q), d + len (aq_items (mq_inner q))) ∧
    aq_items (mq_inner q') = [] ∧ mq_len q' = mq_len q ∧
    aq_capacity (mq_inner q') = aq_capacity (mq_inner q).
Proof.
  revert q out d. induction fuel as [|fuel IH]; intros q out d Hf.
  { pose proof (len_nonneg (aq_items (mq_inner q))). lia. }
  cbn [drain_loop]. unfold mpsc_pop. pose proof (aq_pop_law (mq_inner q)) as Hpop.
  destruct (aq_items (mq_inner q)) as [|x l] eqn:Hi.
  - rewrite Hpop. exists (mkMpsc (mq_inner q) (mq_len q)). cbn. rewrite app_nil_r. unfold len. cbn.
    rewrite Z.add_0_r. done.
  - destruct Hpop as (q' & -> & Hi' & Hc'). rewrite len_cons in Hf |- *.
    destruct (IH (mkMpsc q' (mq_len q)) (out ++ [x]) (d + 1)) as (q2 & -> & H1 & H2 & H3).
    { cbn. rewrite Hi'. lia. }
    exists q2. cbn in H2, H3 |- *. rewrite Hi', <- app_assoc. split_and!; try done; [|congruence].
    f_equal. f_equal. lia.
Qed.

Lemma drain_remote_ok cap r : reclaim_ok cap r →
  ∃ r', reclaim_drain_remote r = Ret r' ∧ reclaim_ok cap r' ∧ rc_free r' = held r ∧
    remote_items r' = [] ∧ rc_cap r ≤ rc_cap r'.
Proof.
  intros [Hl Hb Hc Hv]. unfold reclaim_drain_remote, drain_remote, mpsc_is_empty, held. rewrite Hl.
  destruct (Z.eqb_spec (len (remote_items r)) 0) as [E|E].
  - assert (Hn : remote_items r = []) by (apply nil_length_inv; unfold len in E; lia). run.
    eexists. split; [done|]. rewrite Hn, app_nil_r. split_and!; try done; [|cbn; lia].
    constructor; cbn; try done. lia.
  - unfold mpsc_drain_into. pose proof (len_nonneg (remote_items r)). rewrite Hl.
    destruct (drain_loop_ok (S (Z.to_nat (len (remote_items r)))) (rc_remote r) (rc_free r) 0)
      as (q' & -> & H1 & H2 & H3); [fold (remote_items r); lia|]. run. fold (remote_items r).
    rewrite Z.add_0_l. destruct (Z.ltb_spec 0 (len (remote_items r))); [|lia]. run.
    eexists. split; [done|]. split_and!; try done; [|cbn; lia]. constructor; cbn; try done.
    + unfold remote_items. cbn. rewrite H1, H2, Hl. unfold wrapping_sub. rewrite Z.sub_diag. done.
    + unfold remote_items. cbn. by rewrite H1.
    + congruence.
    + lia.
Qed.

Lemma pop_loop_ok (count : nat) : ∀ free : list T, (count ≤ length free)%nat →
  ∃ xs, pop_loop count free = Ret (take (length free - count) free, xs) ∧
    length xs = count ∧ Permutation (take (length free - count) free ++ xs) free.
Proof.
  induction count as [|count IH]; intros free Hc; cbn [pop_loop].
  { exists []. rewrite Nat.sub_0_r, take_ge, app_nil_r by lia. done. }
  destruct free as [|y l _] using rev_ind; [cbn in Hc; lia|]. rewrite length_app in Hc |- *. cbn in Hc |- *.
  unfold vec_pop. rewrite last_snoc, removelast_last.
  destruct (IH l) as (xs & -> & Hl & Hp); [lia|]. run. exists (y :: xs).
  rewrite take_app_le by lia. replace (length l + 1 - S count)%nat with (length l - count)%nat by lia.
  split_and!; [done|cbn; lia|]. rewrite <- Permutation_middle, Hp. apply Permutation_cons_append.
Qed.

(** The free list is refilled from the return queue when it is short. *)
Lemma refill_ok cap r max : reclaim_ok cap r →
  ∃ r1, (if len (rc_free r) <? max then reclaim_drain_remote r else Ret r) = Ret r1 ∧
    reclaim_ok cap r1 ∧ Permutation (held r1) (held r) ∧ Z.min max (len (rc_free r1)) = Z.min max (len (held r)) ∧
    rc_cap r ≤ rc_cap r1.
Proof.
  intros Hok. destruct (Z.ltb_spec (len (rc_free r)) max).
  - destruct (drain_remote_ok cap r Hok) as (r1 & -> & H1 & H2 & H3 & H4). exists r1. unfold held at 1.
    rewrite H3, app_nil_r, H2. done.
  - exists r. unfold held at 3. rewrite len_app. pose proof (len_nonneg (remote_items r)).
    split_and!; try done; lia.
Qed.

Lemma pop_many_ok cap r max : reclaim_ok cap r → 0 ≤ max →
  ∃ r' xs, pop_many_with r max = Ret (r', xs) ∧ reclaim_ok cap r' ∧
    len xs = Z.min max (len (held r)) ∧ Permutation (held r' ++ xs) (held r) ∧ rc_cap r ≤ rc_cap r'.
Proof.
  intros Hok Hmax. unfold pop_many_with. destruct (Z.eqb_spec max 0) as [->|].
  { exists r, []. pose proof (len_nonneg (held r)). rewrite app_nil_r. split_and!; try done. unfold len. cbn. lia. }
  destruct (refill_ok cap r max Hok) as (r1 & -> & H1 & Hp & Hlen & Hcap). run. rewrite Hlen. pose proof (len_nonneg (held r)).
  destruct (pop_loop_ok (Z.to_nat (Z.min max (len (held r)))) (rc_free r1)) as (xs & -> & Hx & Hpx).
  { unfold len in *. lia. }
  run. eexists _, xs. split; [done|]. destruct H1 as [Hl Hb Hc Hv]. split_and!.
  - constructor; try done. cbn. unfold len in *. rewrite length_take. lia.
  - unfold len in *. lia.
  - etransitivity; [|exact Hp]. unfold held at 1 3. cbn [rc_free].
    change (remote_items (mkReclaim _ _ (rc_remote r1))) with (remote_items r1).
    rewrite <- app_assoc, (Permutation_app_comm (remote_items r1) xs), app_assoc. by apply Permutation_app.
  - cbn. done.
Qed.

Lemma free_list_pop_ok cap r : reclaim_ok cap r →
  ∃ r' x, reclaim_pop r = Ret (r', x) ∧ reclaim_ok cap r' ∧
    match x with Some x => Permutation (x :: held r') (held r) | None => held r' = [] ∧ held r = [] end.
Proof.
  intros Hok. unfold reclaim_pop. replace (len (rc_free r) =? 0) with (len (rc_free r) <? 1).
  2:{ pose proof (len_nonneg (rc_free r)). destruct (Z.ltb_spec (len (rc_free r)) 1), (Z.eqb_spec (len (rc_free r)) 0); lia. }
  destruct (refill_ok cap r 1 Hok) as (r1 & -> & [Hl Hb Hc Hv] & Hp & Hlen & _). run. unfold vec_pop.
  destruct (rc_free r1) as [|y l _] eqn:Hf using rev_ind.
  - eexists _, None. split; [done|]. split; [by constructor|]. pose proof (len_nonneg (held r)). change (len []) with 0 in Hlen.
    assert (Hn : held r = []) by (apply nil_length_inv; unfold len in *; lia). split; [|done].
    rewrite Hn in Hp. apply Permutation_nil_r in Hp. unfold held in *. by rewrite Hf in Hp.
  - rewrite last_snoc, removelast_last. eexists _, (Some y). split; [done|]. rewrite len_snoc in Hv. split; [constructor; cbn; try done; lia|].
    rewrite <- Hp. unfold held, remote_items. cbn. rewrite Hf, <- app_assoc. cbn. by rewrite Permutation_middle.
Qed.

Lemma reclaim_push_ok cap owner r x : reclaim_ok cap r → len (held r) < Z.min cap (2 ^ 64 - 1) →
  ∃ r', reclaim_push owner r x = Ret r' ∧ reclaim_ok cap r' ∧ Permutation (held r') (x :: held r) ∧
    rc_cap r ≤ rc_cap r'.
Proof.
  intros [Hl Hb Hc Hv] Hlen. unfold held in Hlen. rewrite len_app in Hlen.
  pose proof (len_nonneg (rc_free r)). pose proof (len_nonneg (remote_items r)).
  unfold reclaim_push. destruct owner.
  - eexists. split; [done|]. split_and!.
    + constructor; try done. cbn. lia.
    + unfold held. cbn. change (remote_items (with_free r _)) with (remote_items r). rewrite <- app_assoc.
      cbn. by rewrite Permutation_middle.
    + cbn. lia.
  - unfold mpsc_push, mpsc_publish. cbn [mpsc_reserve mq_inner mq_len].
    pose proof (aq_push_law (mq_inner (rc_remote r)) x) as Hp. fold (remote_items r) in Hp. rewrite Hc in Hp.
    destruct (Z.ltb_spec (len (remote_items r)) cap); [|lia]. destruct Hp as (q' & -> & Hi & Hc'). run.
    eexists. split; [done|]. split_and!.
    + constructor; cbn; try done; unfold remote_items; cbn; rewrite ?Hi, ?len_snoc; try lia; try congruence.
      rewrite Hl. unfold wrapping_add. apply wrap_small. unfold fits. lia.
    + unfold held, remote_items. cbn. rewrite Hi, app_assoc. by rewrite <- Permutation_cons_append.
    + cbn. lia.
Qed.

Lemma reclaim_drain_into_ok cap r out : reclaim_ok cap r →
  ∃ r', reclaim_drain_into r out = Ret (r', out ++ held r) ∧ reclaim_ok cap r' ∧ held r' = [] ∧
    rc_cap r ≤ rc_cap r'.
Proof.
  intros Hok. destruct (drain_remote_ok cap r Hok) as (r1 & E & [Hl Hb Hc Hv] & Hf & Hr & Hcap).
  unfold reclaim_drain_into. rewrite E. run. rewrite Hf. eexists. split; [done|]. split_and!; [|done|done].
  constructor; try done. cbn. pose proof (len_nonneg (rc_free r1)). unfold len. cbn. lia.
Qed.

Lemma reclaim_is_empty_ok cap r : reclaim_ok cap r →
  ∃ r', reclaim_is_empty r = Ret (r', bool_decide (held r = [])) ∧ reclaim_ok cap r' ∧
    Permutation (held r') (held r) ∧ rc_cap r ≤ rc_cap r'.
Proof.
  intros Hok. unfold reclaim_is_empty.
  assert (Hz : ∀ l : list T, (len l =? 0) = bool_decide (l = [])).
  { intros [|x l]; [done|]. rewrite len_cons. pose proof (len_nonneg l). rewrite bool_decide_eq_false_2 by done.
    apply Z.eqb_neq. lia. }
  destruct (Z.eqb_spec (len (rc_free r)) 0) as [E|E].
  - destruct (drain_remote_ok cap r Hok) as (r1 & -> & H1 & H2 & H3 & H4). run. exists r1. rewrite H2, Hz.
    split_and!; try done. unfold held at 1. by rewrite H2, H3, app_nil_r.
  - run. exists r. split_and!; try done. do 2 f_equal. destruct (Z.eqb_spec (len (rc_free r)) 0); [done|].
    rewrite bool_decide_eq_false_2; [done|]. unfold held. destruct (rc_free r); [done|]. done.
Qed.
End FreeListProofs.
