(* ===== verification/ReclaimMain.v ===== *)
(** * Properties of frame reclaim *)
From S2P Require Import Prelude Bits Core PoptrieEmit Reclaim ReclaimProofs.
Open Scope Z_scope.

(** ** The cross-thread queue under interleaving

    Any number of threads push while the owner drains; each atomic operation
    of the source is one step. *)
Record mstate (Q T : Type) := mkM {
  ms_queue : MpscQueue Q;
  ms_reserved : list T; (** values between the increment and the publication *)
  ms_failed : Z; (** pushes that found the queue full and have not undone the increment *)
  ms_drain : option (list T); (** what the drain in progress has popped *)
  ms_published : list T; (** every value published, in order *)
  ms_out : list T; (** every value the owner received, in order *)
}.
Arguments mkM {Q T} _ _ _ _ _ _.
Arguments ms_queue {Q T} _.
Arguments ms_reserved {Q T} _.
Arguments ms_failed {Q T} _.
Arguments ms_drain {Q T} _.
Arguments ms_published {Q T} _.
Arguments ms_out {Q T} _.

Section Interleaving.
Context {Q T : Type} `{Hq : ArrayQueue Q T}.

Inductive mreach (capacity : Z) : mstate Q T → Prop :=
  | mreach_init : mreach capacity (mkM (mpsc_new capacity) [] 0 None [] [])
  | mreach_reserve s v :
      mreach capacity s →
      mreach capacity (mkM (mpsc_reserve (ms_queue s)) (v :: ms_reserved s) (ms_failed s) (ms_drain s)
                         (ms_published s) (ms_out s))
  | mreach_publish s l v l' q :
      mreach capacity s → ms_reserved s = l ++ v :: l' → mpsc_publish (ms_queue s) v = (q, None) →
      mreach capacity (mkM q (l ++ l') (ms_failed s) (ms_drain s) (ms_published s ++ [v]) (ms_out s))
  | mreach_full s l v l' q w :
      mreach capacity s → ms_reserved s = l ++ v :: l' → mpsc_publish (ms_queue s) v = (q, Some w) →
      mreach capacity (mkM q (l ++ l') (ms_failed s + 1) (ms_drain s) (ms_published s) (ms_out s))
  | mreach_undo s :
      mreach capacity s → 0 < ms_failed s →
      mreach capacity (mkM (mpsc_release (ms_queue s) 1) (ms_reserved s) (ms_failed s - 1) (ms_drain s)
                         (ms_published s) (ms_out s))
  | mreach_open s :
      mreach capacity s → ms_drain s = None → mpsc_is_empty (ms_queue s) = false →
      mreach capacity (mkM (ms_queue s) (ms_reserved s) (ms_failed s) (Some []) (ms_published s) (ms_out s))
  | mreach_pop s popped q v :
      mreach capacity s → ms_drain s = Some popped → mpsc_pop (ms_queue s) = (q, Some v) →
      mreach capacity (mkM q (ms_reserved s) (ms_failed s) (Some (popped ++ [v])) (ms_published s) (ms_out s ++ [v]))
  | mreach_close s popped q :
      mreach capacity s → ms_drain s = Some popped → mpsc_pop (ms_queue s) = (q, None) →
      mreach capacity (mkM (if 0 <? len popped then mpsc_release q (len popped) else q)
                         (ms_reserved s) (ms_failed s) None (ms_published s) (ms_out s)).

Context `{!ArrayQueueLaws Q T}.

Record mok (capacity : Z) (s : mstate Q T) : Prop := mkMok {
  mk_cap : aq_capacity (mq_inner (ms_queue s)) = Z.max capacity 1;
  mk_failed : 0 ≤ ms_failed s;
  mk_bound : len (aq_items (mq_inner (ms_queue s))) ≤ Z.max capacity 1;
  mk_len : mq_len (ms_queue s) = u64 (len (ms_reserved s) + len (aq_items (mq_inner (ms_queue s)))
             + len (default [] (ms_drain s)) + ms_failed s);
  mk_fifo : ms_published s = ms_out s ++ aq_items (mq_inner (ms_queue s));
}.

Lemma wrap_add_l n k : wrapping_add 64 (u64 n) k = u64 (n + k).
Proof. unfold wrapping_add, wrap. by rewrite Zplus_mod_idemp_l. Qed.
Lemma wrap_sub_l n k : wrapping_sub 64 (u64 n) k = u64 (n - k).
Proof. unfold wrapping_sub, wrap. by rewrite Zminus_mod_idemp_l. Qed.

Lemma mreach_ok capacity s : mreach capacity s → mok capacity s.
Proof.
  induction 1 as [|s v _ [Hc Hf Hb Hl Hp]|s l v l' q _ [Hc Hf Hb Hl Hp] Hr E|s l v l' q w _ [Hc Hf Hb Hl Hp] Hr E
    |s _ [Hc Hf Hb Hl Hp] Hpos|s _ [Hc Hf Hb Hl Hp] Hd He|s popped q v _ [Hc Hf Hb Hl Hp] Hd E
    |s popped q _ [Hc Hf Hb Hl Hp] Hd E].
  - destruct (aq_new_law (Z.max capacity 1) ltac:(lia)) as [Hi Hcap]. constructor; cbn; rewrite ?Hi; try done.
    unfold len. cbn. lia.
  - constructor; cbn; try done. rewrite Hl, wrap_add_l, len_cons. f_equal. lia.
  - unfold mpsc_publish in E. pose proof (aq_push_law (mq_inner (ms_queue s)) v) as Hpush.
    rewrite Hc in Hpush. destruct (Z.ltb_spec (len (aq_items (mq_inner (ms_queue s)))) (Z.max capacity 1)).
    2:{ rewrite Hpush in E. done. }
    destruct Hpush as (q' & Hq' & Hi & Hcap). rewrite Hq' in E. injection E as <-. constructor; cbn; rewrite ?Hi, ?len_snoc; try done; try lia.
    + rewrite Hl, Hr, !len_app, len_cons. f_equal. lia.
    + by rewrite Hp, <- app_assoc.
  - unfold mpsc_publish in E. pose proof (aq_push_law (mq_inner (ms_queue s)) v) as Hpush.
    rewrite Hc in Hpush. destruct (Z.ltb_spec (len (aq_items (mq_inner (ms_queue s)))) (Z.max capacity 1)).
    { destruct Hpush as (q' & Hq' & _). rewrite Hq' in E. done. }
    rewrite Hpush in E. injection E as <- <-. constructor; cbn; try done; try lia.
    rewrite Hl, Hr, !len_app, len_cons. f_equal. lia.
  - constructor; cbn; try done; try lia. rewrite Hl, wrap_sub_l. f_equal. lia.
  - constructor; cbn; try done. rewrite Hl, Hd. cbn. done.
  - unfold mpsc_pop in E. pose proof (aq_pop_law (mq_inner (ms_queue s))) as Hpop.
    destruct (aq_items (mq_inner (ms_queue s))) as [|x rest] eqn:Hi; [by rewrite Hpop in E|].
    destruct Hpop as (q' & Hq' & Hi' & Hcap). rewrite Hq' in E. injection E as <- ->.
    rewrite len_cons in Hb, Hl. constructor; cbn; rewrite ?Hi'; try done; try lia; try congruence.
    + rewrite Hl, Hd, len_snoc. cbn. f_equal. lia.
    + by rewrite Hp, <- app_assoc.
  - unfold mpsc_pop in E. pose proof (aq_pop_law (mq_inner (ms_queue s))) as Hpop.
    destruct (aq_items (mq_inner (ms_queue s))) as [|x rest] eqn:Hi.
    2:{ destruct Hpop as (q' & Hq' & _). by rewrite Hq' in E. }
    rewrite Hpop in E. injection E as <-. rewrite Hd in Hl. cbn in Hl. pose proof (len_nonneg popped).
    destruct (Z.ltb_spec 0 (len popped)); constructor; cbn; rewrite ?Hi; try done.
    + rewrite Hl, wrap_sub_l. f_equal. unfold len. cbn. lia.
    + rewrite Hl. f_equal. unfold len in *. cbn. lia.
Qed.
End Interleaving.

(** C31. The cross-thread reclaim queue loses and reorders nothing: under every
    interleaving of pushes by any number of threads with the owner's drains,
    the values the owner received followed by those in the queue are exactly
    the published ones in order; the counter that gates the drain counts
    every reserved, published and half-drained value, so a closed gate never
    hides a published value and the counter does not underflow; and a push
    finds room, without the panic, whenever the capacity covers the values
    outstanding. *)
Theorem reclaim_queue_lossless {Q T : Type} `{!ArrayQueue Q T, !ArrayQueueLaws Q T}
    (capacity : Z) (s : mstate Q T) :
  mreach capacity s →
  len (ms_reserved s) + Z.max capacity 1 + len (default [] (ms_drain s)) + ms_failed s < 2 ^ 64 →
  let items := aq_items (mq_inner (ms_queue s)) in
  ms_published s = ms_out s ++ items ∧
  mq_len (ms_queue s) = len (ms_reserved s) + len items + len (default [] (ms_drain s)) + ms_failed s ∧
  (mpsc_is_empty (ms_queue s) = true → items = [] ∧ ms_reserved s = []) ∧
  (∀ l v l', ms_reserved s = l ++ v :: l' → len (ms_reserved s) + len items ≤ Z.max capacity 1 →
     ∃ q, mpsc_publish (ms_queue s) v = (q, None) ∧ aq_items (mq_inner q) = items ++ [v]).
Proof.
  intros Hr Hn items. destruct (mreach_ok capacity s Hr) as [Hc Hf Hb Hl Hp]. fold items in Hb, Hl, Hp.
  pose proof (len_nonneg (ms_reserved s)). pose proof (len_nonneg items).
  pose proof (len_nonneg (default [] (ms_drain s))).
  rewrite wrap_small in Hl by (unfold fits; lia). split_and!; [done|done| |].
  - unfold mpsc_is_empty. intros He%Z.eqb_eq. rewrite Hl in He. unfold len in *.
    split; apply nil_length_inv; lia.
  - intros l v l' E Hcap. pose proof (aq_push_law (mq_inner (ms_queue s)) v) as Hpush. fold items in Hpush.
    rewrite Hc in Hpush. rewrite E, len_app, len_cons in Hcap.
    pose proof (len_nonneg l). pose proof (len_nonneg l'). destruct (Z.ltb_spec (len items) (Z.max capacity 1)); [|lia].
    destruct Hpush as (q' & Hq' & Hi & _). eexists. unfold mpsc_publish. rewrite Hq'. done.
Qed.

(** A list-backed queue that meets the documented behaviour. *)
#[export] Instance list_queue T : ArrayQueue (list T * Z) T := {
  aq_new c := ([], c);
  aq_push q x := if len q.1 <? q.2 then ((q.1 ++ [x], q.2), None) else (q, Some x);
  aq_pop q := match q.1 with [] => (q, None) | x :: l => ((l, q.2), Some x) end;
}.
#[export] Instance list_queue_laws T : ArrayQueueLaws (list T * Z) T.
Proof.
  refine {| aq_items q := q.1; aq_capacity q := q.2 |}.
  - done.
  - intros [l c] x. cbn. destruct (len l <? c); [by eexists|done].
  - intros [[|x l] c]; cbn; [done|by eexists].
Defined.

Lemma reclaim_queue_lossless_witness :
  let s := mkM (mkMpsc ([7; 8], 4) 3) [9] 0 None [7; 8] [] in
  mq_len (ms_queue s) = 3 ∧ ∃ q, mpsc_publish (ms_queue s) 9 = (q, None) ∧ aq_items (mq_inner q) = [7; 8; 9].
Proof.
  intros s. destruct (reclaim_queue_lossless (Q := list Z * Z) 4 s) as (_ & Hl & _ & Hpub).
  - refine (mreach_reserve 4 (mkM (mkMpsc ([7; 8], 4) 2) [] 0 None [7; 8] []) 9 _).
    refine (mreach_publish 4 (mkM (mkMpsc ([7], 4) 2) [8] 0 None [7] []) [] 8 [] (mkMpsc ([7; 8], 4) 2) _ _ _).
    + refine (mreach_reserve 4 (mkM (mkMpsc ([7], 4) 1) [] 0 None [7] []) 8 _).
      refine (mreach_publish 4 (mkM (mkMpsc ([], 4) 1) [7] 0 None [] []) [] 7 [] (mkMpsc ([7], 4) 1) _ _ _).
      * exact (mreach_reserve 4 _ 7 (mreach_init 4)).
      * reflexivity.
      * reflexivity.
    + reflexivity.
    + reflexivity.
  - reflexivity.
  - split; [exact Hl|]. apply (Hpub [] 9 []); [reflexivity|vm_compute; congruence].
Defined.

(** ** Completion reclaim *)

(** Over an owned UMEM the unchecked writes of completion reclaim are in
    bounds, with and without debug assertions: when the two free lists hold
    distinct frames of their ranges, have room for their whole ranges, and the
    completed addresses fall in distinct frames outside both lists, every
    completed frame, whatever offset the driver reports inside it, is
    appended to the list of its range in ring order and nothing else changes. *)
Theorem local_split_reclaim_safe (debug : bool) (k n rxn : Z) (first second : list Z) (rx tx : Vec) :
  0 ≤ k ≤ 64 → 0 ≤ rxn ≤ n → n * 2 ^ k ≤ 2 ^ 64 →
  Forall (λ a, 0 ≤ a < n * 2 ^ k) (first ++ second) →
  NoDup (v_items rx ++ v_items tx ++ (frame_of (2 ^ k) <$> first ++ second)) →
  Forall (in_frames (2 ^ k) 0 rxn) (v_items rx) → rxn ≤ v_cap rx →
  Forall (in_frames (2 ^ k) rxn n) (v_items tx) → n - rxn ≤ v_cap tx →
  let frames := frame_of (2 ^ k) <$> first ++ second in
  reclaim_completions debug (LocalSplit (rxn * 2 ^ k)) (2 ^ k - 1) (n * 2 ^ k) first second (rx, tx)
  = Ret (mkVec (v_items rx ++ filter (λ a, (a <? rxn * 2 ^ k) = true) frames) (v_cap rx),
         mkVec (v_items tx ++ filter (λ a, (a <? rxn * 2 ^ k) = false) frames) (v_cap tx), Ok tt).
Proof.
  intros Hk Hrx Hs Hcs Hnd Hr Hrc Ht Htc frames. rewrite reclaim_completions_app.
  apply (local_split_ok debug k n rxn); try done. split; [done|lia].
Qed.

Lemma local_split_reclaim_safe_witness :
  reclaim_completions false (LocalSplit 4096) 2047 8192 [6200] [4096; 130] (mkVec [2048] 2, mkVec [] 2)
  = Ret (mkVec [2048; 0] 2, mkVec [6144; 4096] 2, Ok tt).
Proof.
  apply (local_split_reclaim_safe false 11 4 2 [6200] [4096; 130] (mkVec [2048] 2) (mkVec [] 2)).
  - lia.
  - lia.
  - vm_compute. congruence.
  - repeat constructor; vm_compute; congruence.
  - apply (bool_decide_unpack _). vm_compute. exact I.
  - repeat constructor; vm_compute; congruence.
  - cbn. lia.
  - constructor.
  - cbn. lia.
Defined.

(** Over a shared UMEM, completion reclaim of in-range addresses sorts the
    frames by their place inside their member's slice, and is defined exactly
    when the free lists of the completing member have room for them; nothing
    in the code provides that room, since the lists are allocated for one
    member's frames while a frame of any member may complete here. Without
    room it is an out-of-bounds write (a panic with debug assertions). *)
Theorem shared_reclaim_needs_room (debug : bool) (kf km kr active n : Z) (slices : CompletionReclaim)
    (first second : list Z) (rx tx : Vec) :
  0 ≤ kf → 0 ≤ km → 0 ≤ kr ≤ km → 0 ≤ active ≤ n → n * 2 ^ kf ≤ 2 ^ 64 →
  shared_member_slices (2 ^ kf) (2 ^ km) (2 ^ kr) active = Ok slices →
  Forall (λ a, 0 ≤ a < active * 2 ^ kf) (first ++ second) →
  len (v_items rx) ≤ v_cap rx → len (v_items tx) ≤ v_cap tx →
  let frames := frame_of (2 ^ kf) <$> first ++ second in
  let rx_done := filter (λ a, ((a / 2 ^ kf) mod 2 ^ km <? 2 ^ kr) = true) frames in
  let tx_done := filter (λ a, ((a / 2 ^ kf) mod 2 ^ km <? 2 ^ kr) = false) frames in
  reclaim_completions debug slices (2 ^ kf - 1) (n * 2 ^ kf) first second (rx, tx)
  = if (len (v_items rx) + len rx_done <=? v_cap rx) && (len (v_items tx) + len tx_done <=? v_cap tx) then
      Ret (mkVec (v_items rx ++ rx_done) (v_cap rx), mkVec (v_items tx ++ tx_done) (v_cap tx), Ok tt)
    else if debug then Panic else UB.
Proof.
  intros Hkf Hkm Hkr Hact Hs. unfold shared_member_slices.
  assert (Hp : ∀ k, 0 ≤ k → is_power_of_two (2 ^ k) = true) by (intros k Hk; apply is_power_of_two_spec; by exists k).
  assert (Hz : ∀ k, 0 ≤ k → (2 ^ k =? 0) = false) by (intros k Hk; apply Z.eqb_neq; lia).
  rewrite !Hp, !Hz by lia. cbn [negb orb].
  destruct (Z.ltb_spec (2 ^ km) (2 ^ kr)); [done|]. intros [= <-] Hcs Hr Ht.
  rewrite reclaim_shared_app. by apply shared_slices_ok.
Qed.

(** Two members of four frames; the second has all its transmit frames free
    when a transmit frame of the first completes on its ring. *)
Lemma shared_reclaim_needs_room_witness :
  shared_member_slices 2048 4 2 8 = Ok (SharedMemberSlices 8191 4096 16384) ∧
  reclaim_completions false (SharedMemberSlices 8191 4096 16384) 2047 16384 [4096] []
    (mkVec [] 2, mkVec [12288; 14336] 2) = UB.
Proof.
  split; [reflexivity|].
  apply (shared_reclaim_needs_room false 11 2 1 8 8 (SharedMemberSlices 8191 4096 16384) [4096] []
    (mkVec [] 2) (mkVec [12288; 14336] 2)).
  - lia.
  - lia.
  - lia.
  - lia.
  - vm_compute. congruence.
  - reflexivity.
  - repeat constructor; vm_compute; congruence.
  - vm_compute. congruence.
  - vm_compute. congruence.
Defined.
