(* ===== verification/HeapPool.v ===== *)
(** * The pools of an AF_XDP socket: [XdpRxPool] and [XdpTxPool] of [buffer.rs]

    A pool has a list of boxed heap frames and, in a bound socket, the free
    list of its half of the UMEM, which it shares with the live state. What is
    in a heap frame is in the buffer that holds it; running out of memory
    aborts the program and is left out. *)
From S2P Require Import Prelude Bits Core Buffer BufferSpec Umem Window PacketBuf PacketBufProofs PacketBufMain.
From S2P Require Import Reclaim ReclaimProofs ReclaimMain.
Open Scope Z_scope.

Definition ISIZE_MAX : Z := 2 ^ 63 - 1.

(** The two pools have the same fields; [xp_live] names the free list shared
    with the live state. *)
Record XdpPool (Q : Type) := mkPool {
  xp_ctx : XdpBufCtx;
  xp_heap : FrameReclaim Q (list Z);
  xp_live : option Pool;
}.
Arguments mkPool {Q} _ _ _.
Arguments xp_ctx {Q} _.
Arguments xp_heap {Q} _.
Arguments xp_live {Q} _.

Section Pools.
Context {Q : Type} `{ArrayQueue Q (list Z)}.
Implicit Types p : XdpPool Q.

(** [HeapReclaim::new]: a vector of boxed slices, two words each, and the
    slices, whose sizes the allocator bounds. *)
Definition heap_reclaim_new (layout : BufferLayout) (count : Z) : outcome (FrameReclaim Q (list Z)) :=
  assert! count * 16 <=? ISIZE_MAX;
  assert! (count =? 0) || (chunk_size layout <=? ISIZE_MAX);
  Ret (with_remote_capacity (replicate (Z.to_nat count) (replicate (Z.to_nat (chunk_size layout)) 0)) count (Some count)).

Definition with_heap_capacity (layout : BufferLayout) (count : Z) : outcome (XdpPool Q) :=
  heap ← heap_reclaim_new layout count;
  Ret (mkPool (mkBufCtx layout HeapCtx) heap None).
(** [XdpRxPool::new] and [XdpTxPool::new]. *)
Definition pool_new (layout : BufferLayout) : outcome (XdpPool Q) := with_heap_capacity layout 64.

(** [XdpRxPool::live] and [XdpTxPool::live]. *)
Definition pool_live (layout : BufferLayout) (which : Pool) (frame_size : Z) : outcome (XdpPool Q) :=
  heap ← heap_reclaim_new layout 0;
  Ret (mkPool (mkBufCtx layout (UmemCtx which frame_size)) heap (Some which)).

Definition with_heap p (heap : FrameReclaim Q (list Z)) : XdpPool Q := mkPool (xp_ctx p) heap (xp_live p).

(** [XdpRxPool::allocate], and the last part of [XdpTxPool::allocate]. *)
Definition heap_allocate p : outcome (XdpPool Q * option XdpPacketBufInner) :=
  '(heap, frame) ← reclaim_pop (xp_heap p);
  let offset := data_offset (bc_layout (xp_ctx p)) in
  Ret (with_heap p heap, fmap (M := option) (λ frame, from_storage (Heap frame) (xp_ctx p) offset offset) frame).

(** [XdpTxPool::allocate]; [reclaim] is the free list of the live half. *)
Definition tx_allocate {QF} `{ArrayQueue QF Z} p (reclaim : FrameReclaim QF Z) :
    outcome (XdpPool Q * FrameReclaim QF Z * option XdpPacketBufInner) :=
  match xp_live p with
  | Some _ =>
      '(reclaim, a) ← reclaim_pop reclaim;
      let offset := data_offset (bc_layout (xp_ctx p)) in
      Ret (p, reclaim, fmap (M := option) (λ a, from_storage (UmemFrame a) (xp_ctx p) offset offset) a)
  | None => '(p, b) ← heap_allocate p; Ret (p, reclaim, b)
  end.

(** [XdpTxPool::allocate_many] without a live half: the buffers appended. *)
Fixpoint heap_allocate_many (max : nat) p : outcome (XdpPool Q * list XdpPacketBufInner) :=
  match max with
  | O => Ret (p, [])
  | S max =>
      '(p, b) ← heap_allocate p;
      match b with
      | None => Ret (p, [])
      | Some b => '(p, bs) ← heap_allocate_many max p; Ret (p, b :: bs)
      end
  end.

(** The drop of a buffer of this pool, on its thread or on another one:
    [XdpPacketBufInner::reclaim] with [HeapReclaim::push]. *)
Definition take_back (owner : bool) p (b : XdpPacketBufInner) : outcome (XdpPool Q) :=
  frame ← drop_buffer b;
  match frame with
  | Some (Heap frame) => heap ← reclaim_push owner (xp_heap p) frame; Ret (with_heap p heap)
  | _ => Ret p
  end.

(** ** Everything that can happen to a heap pool and its buffers

    Allocations, edits of a buffer, drops, in any order. *)
Inductive pool_step : XdpPool Q * list XdpPacketBufInner → XdpPool Q * list XdpPacketBufInner → Prop :=
  | step_allocate p p' bs b : heap_allocate p = Ret (p', Some b) → pool_step (p, bs) (p', b :: bs)
  | step_empty p p' bs : heap_allocate p = Ret (p', None) → pool_step (p, bs) (p', bs)
  | step_edit p bs bs' b x op r : op_wf op → run_op (mkXdpBuf [] b) op = Ret (x, r) →
      pool_step (p, bs ++ b :: bs') (p, bs ++ xb_inner x :: bs')
  | step_drop p p' bs bs' b owner : take_back owner p b = Ret p' → pool_step (p, bs ++ b :: bs') (p', bs ++ bs').

(** ** Invariant *)
Context `{!ArrayQueueLaws Q (list Z)} (layout : BufferLayout) (count : Z).
Context (Hlayout : layout_ok layout) (Hcount : 0 ≤ count) (Hfits : count * 16 ≤ ISIZE_MAX) (Hchunk : chunk_size layout ≤ ISIZE_MAX).

Definition chunk (frame : list Z) : Prop := len frame = chunk_size layout.
(** A buffer of the pool: armed, on a whole frame of its own. *)
Record heap_buf (b : XdpPacketBufInner) : Prop := mkHeapBuf {
  hb_ctx : bi_ctx b = mkBufCtx layout HeapCtx;
  hb_armed : bi_armed b = true;
  hb_ok : inner_ok [] b;
  hb_frame : bi_capacity b = chunk_size layout;
}.
(** All frames are in the pool or in a buffer. *)
Record pool_ok (w : XdpPool Q * list XdpPacketBufInner) : Prop := mkPoolOk {
  po_ctx : xp_ctx w.1 = mkBufCtx layout HeapCtx;
  po_live : xp_live w.1 = None;
  po_heap : reclaim_ok (Z.max count 1) (xp_heap w.1);
  po_frames : Forall chunk (held (xp_heap w.1));
  po_bufs : Forall heap_buf w.2;
  po_count : len (held (xp_heap w.1)) + len w.2 = count;
}.

Lemma chunk_nonneg : 0 ≤ chunk_size layout.
Proof. destruct Hlayout. lia. Qed.

Lemma heap_buf_new frame : chunk frame → heap_buf (from_storage (Heap frame) (mkBufCtx layout HeapCtx) (data_offset layout) (data_offset layout)).
Proof.
  intros Hf. constructor; [done|done| |exact Hf]. destruct Hlayout. constructor; cbn; try done; [lia|].
  unfold bi_capacity. cbn. rewrite Hf. lia.
Qed.

Lemma heap_buf_frame b : heap_buf b → ∃ frame, bi_storage b = Some (Heap frame) ∧ chunk frame.
Proof.
  intros [Hc _ [Hs _ _ _] Hf]. unfold bi_capacity in Hf. rewrite Hc in *. cbn in *.
  destruct (bi_storage b) as [[frame|]|]; [by exists frame|done..].
Qed.

Lemma with_heap_capacity_ok : ∃ p, with_heap_capacity layout count = Ret p ∧ pool_ok (p, []).
Proof.
  unfold with_heap_capacity, heap_reclaim_new. destruct (Z.leb_spec (count * 16) ISIZE_MAX); [|lia].
  destruct (Z.leb_spec (chunk_size layout) ISIZE_MAX); [|lia]. rewrite orb_true_r. run. eexists. split; [done|].
  destruct (aq_new_law (Q := Q) (T := list Z) (Z.max count 1) ltac:(lia)) as [Hi Hc].
  set (frame := replicate (Z.to_nat (chunk_size layout)) 0).
  assert (Hheld : held (with_remote_capacity (Q := Q) (replicate (Z.to_nat count) frame) count (Some count)) = replicate (Z.to_nat count) frame).
  { unfold held, remote_items. cbn. unfold mpsc_new. cbn. by rewrite Hi, app_nil_r. }
  constructor; cbn [fst snd xp_ctx xp_live xp_heap]; try done.
  - constructor; cbn; unfold remote_items, mpsc_new; cbn; rewrite ?Hi; try done. unfold len. rewrite length_replicate. lia.
  - rewrite Hheld. apply Forall_replicate. unfold chunk, frame, len. rewrite length_replicate. pose proof chunk_nonneg. lia.
  - rewrite Hheld. unfold len. rewrite length_replicate. cbn. lia.
Qed.

Lemma heap_allocate_ok p bs : pool_ok (p, bs) → ∃ p' b, heap_allocate p = Ret (p', b) ∧
  match b with
  | Some b => len bs < count ∧ pool_ok (p', b :: bs)
  | None => len bs = count ∧ pool_ok (p', bs)
  end.
Proof.
  intros [Hc Hl Hh Hf Hb Hn]. cbn [fst snd] in *. destruct (free_list_pop_ok _ _ Hh) as (heap & frame & E & Hh' & Hr).
  unfold heap_allocate. rewrite E. run. rewrite Hc. cbn [bc_layout]. eexists _, _. split; [done|].
  assert (Hf' : Forall chunk (held heap) ∧ match frame with Some f => chunk f | None => True end).
  { destruct frame as [f|]; [|by destruct Hr as [-> _]]. rewrite <- Hr in Hf. apply Forall_cons in Hf as [??]. done. }
  destruct Hf' as [Hf' Hx]. destruct frame as [f|]; cbn [fmap option_fmap option_map].
  - assert (Hlen : len (f :: held heap) = len (held (xp_heap p))) by (unfold len; by rewrite Hr). rewrite len_cons in Hlen.
    pose proof (len_nonneg (held heap)). split; [lia|].
    constructor; cbn [fst snd with_heap xp_ctx xp_live xp_heap]; try done; [by constructor; [apply heap_buf_new|]|rewrite len_cons; lia].
  - destruct Hr as [H1 H2]. rewrite H2 in Hn. cbn in Hn. split; [exact Hn|]. constructor; cbn; try done. rewrite H1. exact Hn.
Qed.

Lemma take_back_ok owner p bs b bs' : pool_ok (p, bs ++ b :: bs') → ∃ p', take_back owner p b = Ret p' ∧ pool_ok (p', bs ++ bs').
Proof.
  intros [Hc Hl Hh Hf Hb Hn]. cbn [fst snd] in *. apply Forall_app in Hb as [Hb [Hx Hb']%Forall_cons].
  destruct (heap_buf_frame b Hx) as (frame & Hs & Hlen). rewrite len_app, len_cons in Hn. pose proof (len_nonneg bs). pose proof (len_nonneg bs').
  unfold take_back, drop_buffer, PacketBuf.reclaim. rewrite (hb_armed b Hx), Hs, (hb_ctx b Hx). cbn [andb negb bc_reclaim]. run. cbn [snd].
  destruct (reclaim_push_ok _ owner _ frame Hh) as (heap & -> & Hh' & Hp & _); [unfold ISIZE_MAX in Hfits; lia|]. run.
  eexists. split; [done|]. constructor; cbn; try done.
  - rewrite Hp. by constructor.
  - by apply Forall_app.
  - apply Permutation_length in Hp. rewrite len_app. unfold len in *. cbn in Hp. lia.
Qed.

Lemma heap_edit_ok b op : heap_buf b → op_wf op → ∃ x r, run_op (mkXdpBuf [] b) op = Ret (x, r) ∧ heap_buf (xb_inner x).
Proof.
  intros Hb Hwf. destruct (Hb) as [Hc Ha Hok Hcap].
  assert (Hsame : ∀ mem' b', inner_ok mem' b' → same_outside [] mem' b → bi_ctx b' = bi_ctx b → bi_armed b' = bi_armed b →
    bi_capacity b' = bi_capacity b → heap_buf b').
  { intros mem' b' H1 [H2 _] H3 H4 H5. assert (mem' = []) as -> by (by apply nil_length_inv, Nat2Z.inj). constructor; congruence. }
  assert (Hbounds : ∀ start stop, l2_headroom layout ≤ start → start ≤ stop → stop ≤ bi_capacity b → heap_buf (with_bounds b start stop)).
  { intros. constructor; try done. apply with_bounds_ok; rewrite ?Hc; done. }
  pose proof (io_l2 _ _ Hok) as Hl2. rewrite Hc in Hl2. cbn in Hl2. destruct (Hok).
  destruct op as [xs|xs|n|n]; cbn.
  - destruct (Z.leb_spec (len xs) (bi_start b - l2_headroom (bc_layout (bi_ctx b)))) as [Hle|Hgt].
    + destruct (prepend_ok [] b xs Hok Hle) as (m & b' & -> & H1 & _ & H2 & _ & _ & H3 & H4 & H5 & _). run. eauto 6.
    + unfold prepend_to_inner. rewrite (buf_headroom_ok [] b Hok). run.
      destruct (Z.ltb_spec (bi_start b - l2_headroom (bc_layout (bi_ctx b))) (len xs)); [|lia]. run. by eexists _, _.
  - destruct (Z.leb_spec (len xs) (bi_capacity b - bi_end b)) as [Hle|Hgt].
    + destruct (extend_ok [] b xs Hok Hle) as (m & b' & -> & H1 & _ & H2 & _ & _ & H3 & H4 & H5 & _). run. eauto 6.
    + unfold extend_from_slice. rewrite (buf_tailroom_ok [] b Hok). run. destruct (Z.ltb_spec (bi_capacity b - bi_end b) (len xs)); [|lia].
      run. by eexists _, _.
  - eexists _, _. split; [done|]. unfold trim_prefix_from_inner. cbn in Hwf.
    destruct (Z.ltb_spec (bi_end b - bi_start b) n); [done|]. cbn. apply Hbounds; lia.
  - eexists _, _. split; [done|]. unfold trim_suffix, buf_len. cbn in Hwf.
    destruct (Z.ltb_spec (bi_end b - bi_start b) n); [done|]. cbn. apply Hbounds; lia.
Qed.

Lemma pool_step_ok w w' : pool_step w w' → pool_ok w → pool_ok w'.
Proof.
  intros [p p' bs b E|p p' bs E|p bs bs' b x op r Hwf E|p p' bs bs' b owner E] Hok.
  - destruct (heap_allocate_ok p bs Hok) as (p1 & b1 & E1 & H1). rewrite E in E1. injection E1 as <- <-. apply H1.
  - destruct (heap_allocate_ok p bs Hok) as (p1 & b1 & E1 & H1). rewrite E in E1. injection E1 as <- <-. apply H1.
  - destruct Hok as [Hc Hl Hh Hf Hb Hn]. cbn [fst snd] in *. apply Forall_app in Hb as [Hb [Hx Hb']%Forall_cons].
    destruct (heap_edit_ok b op Hx Hwf) as (x1 & r1 & E1 & H1). rewrite E in E1. injection E1 as <- <-.
    rewrite len_app, len_cons in Hn. constructor; cbn; try done; [|rewrite len_app, len_cons; lia]. apply Forall_app. split; [done|]. by constructor.
  - destruct (take_back_ok owner p bs b bs' Hok) as (p1 & E1 & H1). rewrite E in E1. by injection E1 as <-.
Qed.

(** C26. A heap pool hands out every frame once. Whatever mix of allocations,
    edits and drops, on the owner's thread or on others, preceded it: an
    allocation returns a buffer exactly while fewer than [count] are out, on a
    frame of the layout's size, empty and with the layout's headroom; every
    edit and every drop of a buffer returns, so the return queue is never
    full; and no frame is lost or handed out twice. *)
Theorem heap_pool_exact : ∃ p0, with_heap_capacity layout count = Ret p0 ∧
  ∀ p bs, rtc pool_step (p0, []) (p, bs) →
    len (held (xp_heap p)) + len bs = count ∧ Forall heap_buf bs ∧
    (∃ p' b, heap_allocate p = Ret (p', b) ∧ (is_Some b ↔ len bs < count)) ∧
    (∀ b, b ∈ bs → (∀ owner, ∃ p', take_back owner p b = Ret p' ∧ len (held (xp_heap p')) = len (held (xp_heap p)) + 1) ∧
                   (∀ op, op_wf op → ∃ x r, run_op (mkXdpBuf [] b) op = Ret (x, r) ∧ heap_buf (xb_inner x))).
Proof.
  destruct with_heap_capacity_ok as (p0 & E0 & Hok0). exists p0. split; [done|]. intros p bs Hsteps.
  assert (Hok : pool_ok (p, bs)). { clear E0. induction Hsteps as [|w w' w'' Hs _ IH]; [done|]. by eapply IH, pool_step_ok. }
  pose proof (po_count _ Hok) as Hn. pose proof (po_bufs _ Hok) as Hb. split; [done|]. split; [done|]. split.
  - destruct (heap_allocate_ok p bs Hok) as (p' & b & E & Hr). exists p', b. split; [done|]. destruct b as [b|].
    + split; [intros _; apply Hr|intros _; by eexists].
    + split; [by intros []|destruct Hr; lia].
  - intros b Hin. rewrite Forall_forall in Hb. split; [|intros; by apply heap_edit_ok; [apply Hb|]].
    apply list_elem_of_split in Hin as (l & l' & ->). intros owner. destruct (take_back_ok owner p l b l' Hok) as (p' & E & Hok').
    exists p'. split; [done|]. pose proof (po_count _ Hok') as Hn'. cbn [fst snd] in *. rewrite len_app, len_cons in *. lia.
Qed.
End Pools.

(** A pool of one frame of eight bytes: allocated, written, dropped on another
    thread. *)
Definition one_frame : FrameReclaim (list (list Z) * Z) (list Z) := mkReclaim [replicate 8 0] 1 (mkMpsc ([], 1) 0).
Definition one_pool : XdpPool (list (list Z) * Z) := mkPool (mkBufCtx (bc_layout tiny_ctx) HeapCtx) one_frame None.
Definition one_buf : XdpPacketBufInner := from_storage (Heap (replicate 8 0)) (mkBufCtx (bc_layout tiny_ctx) HeapCtx) 4 4.
Definition empty_pool : XdpPool (list (list Z) * Z) := with_heap one_pool (mkReclaim [] 1 (mkMpsc ([], 1) 0)).

Lemma heap_tiny_ok : layout_ok (bc_layout tiny_ctx).
Proof. constructor; cbn; try lia. done. Qed.

Lemma heap_pool_exact_witness :
  with_heap_capacity (bc_layout tiny_ctx) 1 = Ret one_pool ∧ heap_allocate one_pool = Ret (empty_pool, Some one_buf) ∧
  (∃ p', take_back false empty_pool one_buf = Ret p' ∧ len (held (xp_heap p')) = len (held (xp_heap empty_pool)) + 1) ∧
  ∃ x r, run_op (mkXdpBuf [] one_buf) (OpExtend [1; 2; 3]) = Ret (x, r) ∧ heap_buf (bc_layout tiny_ctx) (xb_inner x).
Proof.
  split; [reflexivity|]. split; [reflexivity|].
  destruct (heap_pool_exact (Q := list (list Z) * Z) (bc_layout tiny_ctx) 1 heap_tiny_ok) as (p0 & E & Hp); [done..|].
  assert (E1 : Ret one_pool = Ret p0) by exact E. injection E1 as <-.
  destruct (Hp empty_pool [one_buf]) as (_ & _ & _ & Hb).
  - eapply rtc_once, step_allocate. reflexivity.
  - destruct (Hb one_buf ltac:(left)) as [H1 H2]. split; [apply (H1 false)|apply (H2 (OpExtend [1; 2; 3])); done].
Defined.
