(* ===== verification/Live.v ===== *)
(** * The live AF_XDP socket: the operations of [socket.rs] around the packet steps

    The rings, the two free lists and the counters of a bound socket, and every
    operation that changes them: opening over an owned UMEM, completion
    draining, transmit allocation, the UDP sends, FILL replenishment, the UDP
    receive and the drop of a packet buffer. The ring mappings and the UMEM
    allocation are arguments of the opening; loading and binding the XDP
    program is left out. Wake-up system calls are arguments. *)
From S2P Require Import Prelude Bits Core Buffer Umem PacketBuf Ring Wire XdpUdp Reclaim.
Open Scope Z_scope.

Record UdpReceive (B M : Type) := mkUdpReceive {
  ur_packet : B;
  ur_meta : M;
}.
Arguments mkUdpReceive {B M} _ _.
Arguments ur_packet {B M} _.
Arguments ur_meta {B M} _.

(** What construction fixes. *)
Record XdpConfig := mkConfig {
  cf_ifindex : Z;
  cf_queue : Z;
  cf_mtu : Z;
  cf_rings : RingSizes;
  cf_rx_ctx : XdpBufCtx;
  cf_tx_ctx : XdpBufCtx;
  cf_completion : CompletionReclaim;
  cf_threshold : Z;
  cf_interval : Z;
}.

Record RawXdpSocket := mkRaw {
  fill_prod : RingProducer;
  fill_mmap : RingMem Z;
  comp_cons : RingConsumer;
  comp_mmap : RingMem Z;
  rx_cons : RingConsumer;
  rx_mmap : RingMem XdpDesc;
  tx_prod : RingProducer;
  tx_mmap : RingMem XdpDesc;
}.

(** [XdpIpPacketSocket] with its live state and pools. *)
Record XdpSocket (Q : Type) := mkSocket {
  xs_raw : RawXdpSocket;
  xs_umem : Umem;
  xs_rx : FrameReclaim Q Z;
  xs_tx : FrameReclaim Q Z;
  xs_in_flight : Z;
  xs_since : Z;
  xs_wake_pending : bool;
  xs_stats : RawDeviceStats;
}.
Arguments mkSocket {Q} _ _ _ _ _ _ _ _.
Arguments xs_raw {Q} _.
Arguments xs_umem {Q} _.
Arguments xs_rx {Q} _.
Arguments xs_tx {Q} _.
Arguments xs_in_flight {Q} _.
Arguments xs_since {Q} _.
Arguments xs_wake_pending {Q} _.
Arguments xs_stats {Q} _.

(** [tx_drain_hysteresis]. *)
Definition tx_drain_hysteresis (completion_ring frames_per_socket : Z) : Z * Z :=
  let tx_frame_count := frames_per_socket / 2 in
  let completion_threshold := Z.max (completion_ring / 2) 1 in
  let frame_threshold := Z.max (tx_frame_count / 2) 1 in
  let drain_threshold := Z.min completion_threshold frame_threshold in
  let drain_interval := Z.max (drain_threshold / 2) 1 in
  (drain_threshold, drain_interval).

(** [usize::checked_next_power_of_two]. *)
Definition checked_next_power_of_two (x : Z) : option Z :=
  let p := if x <=? 1 then 1 else 2 ^ Z.log2_up x in
  if p <? 2 ^ 64 then Some p else None.

Inductive OpenError :=
  | FrameSizeOverflow
  | FrameSizeTooLarge
  | BadFrameCount (frame_count : Z)
  | HeadroomTooLarge
  | OpenUmem (e : UmemError)
  | OpenRing (e : ring_error).

Definition umem_frame_size (rx_layout tx_layout : BufferLayout) : result Z OpenError :=
  match checked_next_power_of_two (Z.max (chunk_size rx_layout) (chunk_size tx_layout)) with
  | None => Err FrameSizeOverflow
  | Some frame_size => if U32_MAX <? frame_size then Err FrameSizeTooLarge else Ok frame_size
  end.

Definition device_error (error : string) : Error := Device (with_source Backend error).

(** Counters. *)
Definition stats_ring_full (s : RawDeviceStats) : RawDeviceStats :=
  mkStats (rx_packets s) (rx_bytes s) (tx_packets s) (tx_bytes s) (dropped_fragments s)
    (dropped_tx_oversize s) (dropped_rx_oversize s) (saturating_add 64 (ring_full s) 1).
Definition stats_fragment (s : RawDeviceStats) : RawDeviceStats :=
  mkStats (rx_packets s) (rx_bytes s) (tx_packets s) (tx_bytes s) (saturating_add 64 (dropped_fragments s) 1)
    (dropped_tx_oversize s) (dropped_rx_oversize s) (ring_full s).
Definition stats_sent (s : RawDeviceStats) (packets bytes : Z) : RawDeviceStats :=
  mkStats (rx_packets s) (rx_bytes s) (saturating_add 64 (tx_packets s) packets)
    (saturating_add 64 (tx_bytes s) bytes) (dropped_fragments s)
    (dropped_tx_oversize s) (dropped_rx_oversize s) (ring_full s).
Definition stats_received (s : RawDeviceStats) (bytes : Z) : RawDeviceStats :=
  mkStats (saturating_add 64 (rx_packets s) 1) (saturating_add 64 (rx_bytes s) bytes) (tx_packets s)
    (tx_bytes s) (dropped_fragments s) (dropped_tx_oversize s) (dropped_rx_oversize s) (ring_full s).

(** ** Opening over an owned UMEM: [LiveXdpState::open]

    [alloc] is [Umem::new_on_numa_node]; the four mappings are the rings the
    kernel created. The capacities of the two free vectors are those asked
    for. *)
Definition live_open {Q} `{ArrayQueue Q Z} (ifindex queue mtu : Z) (rings : RingSizes)
    (rx_layout tx_layout : BufferLayout) (frame_count : Z) (alloc : Z → Z → result Umem UmemError)
    (fill comp : RingMem Z) (rx tx : RingMem XdpDesc) :
    outcome (result (XdpConfig * XdpSocket Q) OpenError) :=
  match umem_frame_size rx_layout tx_layout with
  | Err e => Ret (Err e)
  | Ok frame_size =>
      if (frame_count <? 2) || negb (is_power_of_two frame_count) then Ret (Err (BadFrameCount frame_count))
      else
        let rx_frames := frame_count / 2 in
        match alloc frame_size frame_count with
        | Err e => Ret (Err (OpenUmem e))
        | Ok umem =>
            if U32_MAX <? l2_headroom rx_layout then Ret (Err HeadroomTooLarge)
            else
              match ring_sizes_validate rings with
              | Err e => Ret (Err (OpenRing e))
              | Ok _ =>
                  f ← prefill (producer_new (sz_fill rings)) fill (sz_fill rings)
                        (frame_offset umem <$> seqZ 0 rx_frames);
                  match f with
                  | (Err e, _, _) => Ret (Err (OpenRing e))
                  | (Ok _, fill_p, fill) =>
                      let raw := mkRaw fill_p fill consumer_new comp consumer_new rx
                                   (producer_new (sz_tx rings)) tx in
                      let tx_frames := frame_offset umem <$> seqZ rx_frames (frame_count - rx_frames) in
                      let '(threshold, interval) := tx_drain_hysteresis (sz_completion rings) frame_count in
                      Ret (Ok (mkConfig ifindex queue mtu rings
                                 (mkBufCtx rx_layout (UmemCtx RxPool (um_frame_size umem)))
                                 (mkBufCtx tx_layout (UmemCtx TxPool (um_frame_size umem)))
                                 (LocalSplit (frame_offset umem rx_frames)) threshold interval,
                               mkSocket raw umem (with_remote_capacity [] rx_frames None)
                                 (with_remote_capacity tx_frames (len tx_frames) None)
                                 0 0 false stats_default))
                  end
              end
        end
  end.

Section Live.
Context {Q : Type} `{ArrayQueue Q Z} (debug : bool) (cfg : XdpConfig).

(** Field updates. *)
Definition set_comp (s : XdpSocket Q) (c : RingConsumer) (m : RingMem Z) : XdpSocket Q :=
  let r := xs_raw s in
  mkSocket (mkRaw (fill_prod r) (fill_mmap r) c m (rx_cons r) (rx_mmap r) (tx_prod r) (tx_mmap r))
    (xs_umem s) (xs_rx s) (xs_tx s) (xs_in_flight s) (xs_since s) (xs_wake_pending s) (xs_stats s).
Definition set_tx_ring (s : XdpSocket Q) (p : RingProducer) (m : RingMem XdpDesc) : XdpSocket Q :=
  let r := xs_raw s in
  mkSocket (mkRaw (fill_prod r) (fill_mmap r) (comp_cons r) (comp_mmap r) (rx_cons r) (rx_mmap r) p m)
    (xs_umem s) (xs_rx s) (xs_tx s) (xs_in_flight s) (xs_since s) (xs_wake_pending s) (xs_stats s).
Definition set_rx_ring (s : XdpSocket Q) (c : RingConsumer) (m : RingMem XdpDesc) : XdpSocket Q :=
  let r := xs_raw s in
  mkSocket (mkRaw (fill_prod r) (fill_mmap r) (comp_cons r) (comp_mmap r) c m (tx_prod r) (tx_mmap r))
    (xs_umem s) (xs_rx s) (xs_tx s) (xs_in_flight s) (xs_since s) (xs_wake_pending s) (xs_stats s).
Definition set_fill (s : XdpSocket Q) (p : RingProducer) (m : RingMem Z) : XdpSocket Q :=
  let r := xs_raw s in
  mkSocket (mkRaw p m (comp_cons r) (comp_mmap r) (rx_cons r) (rx_mmap r) (tx_prod r) (tx_mmap r))
    (xs_umem s) (xs_rx s) (xs_tx s) (xs_in_flight s) (xs_since s) (xs_wake_pending s) (xs_stats s).
Definition set_pools (s : XdpSocket Q) (rx tx : FrameReclaim Q Z) : XdpSocket Q :=
  mkSocket (xs_raw s) (xs_umem s) rx tx (xs_in_flight s) (xs_since s) (xs_wake_pending s) (xs_stats s).
Definition set_flight (s : XdpSocket Q) (in_flight since : Z) : XdpSocket Q :=
  mkSocket (xs_raw s) (xs_umem s) (xs_rx s) (xs_tx s) in_flight since (xs_wake_pending s) (xs_stats s).
Definition set_wake (s : XdpSocket Q) (pending : bool) : XdpSocket Q :=
  mkSocket (xs_raw s) (xs_umem s) (xs_rx s) (xs_tx s) (xs_in_flight s) (xs_since s) pending (xs_stats s).
Definition set_stats (s : XdpSocket Q) (stats : RawDeviceStats) : XdpSocket Q :=
  mkSocket (xs_raw s) (xs_umem s) (xs_rx s) (xs_tx s) (xs_in_flight s) (xs_since s) (xs_wake_pending s) stats.
Definition set_mem (s : XdpSocket Q) (mem : list Z) : XdpSocket Q :=
  let u := xs_umem s in
  mkSocket (xs_raw s) (mkUmem mem (um_frame_size u) (um_frame_count u)) (xs_rx s) (xs_tx s)
    (xs_in_flight s) (xs_since s) (xs_wake_pending s) (xs_stats s).

(** ** Completions *)
Definition drain_tx_completions_inner (s : XdpSocket Q) : outcome (XdpSocket Q * result Z Error) :=
  let frame_size := um_frame_size (xs_umem s) in
  let frame_mask := frame_size - 1 in
  let umem_len := um_frame_count (xs_umem s) * frame_size in
  d ← drain_completion_slices (comp_cons (xs_raw s)) (comp_mmap (xs_raw s)) (sz_completion (cf_rings cfg))
        (sz_completion (cf_rings cfg)) (reclaim_completions debug (cf_completion cfg) frame_mask umem_len)
        (mkVec (rc_free (xs_rx s)) (rc_cap (xs_rx s)), mkVec (rc_free (xs_tx s)) (rc_cap (xs_tx s)));
  let '(free, r, c, m) := d in
  let s := set_comp s c m in
  let s := set_pools s (mkReclaim (v_items free.1) (v_cap free.1) (rc_remote (xs_rx s)))
             (mkReclaim (v_items free.2) (v_cap free.2) (rc_remote (xs_tx s))) in
  match r with
  | Err e => Ret (s, Err e)
  | Ok completed => Ret (set_flight s (saturating_sub (xs_in_flight s) completed) 0, Ok completed)
  end.

Definition should_drain_tx_completions (s : XdpSocket Q) : bool :=
  (cf_threshold cfg <=? xs_in_flight s) && (cf_interval cfg <=? xs_since s).

Definition drain_completions_if_tx_pressure (s : XdpSocket Q) : outcome (XdpSocket Q * result unit Error) :=
  if should_drain_tx_completions s then
    d ← drain_tx_completions_inner s;
    Ret (d.1, match d.2 with Ok _ => Ok tt | Err e => Err e end)
  else Ret (s, Ok tt).

(** ** Transmit allocation *)

(** [XdpTxPool::allocate_many], live. *)
Definition allocate_many (s : XdpSocket Q) (out : list XdpPacketBufInner) (max : Z) :
    outcome (XdpSocket Q * list XdpPacketBufInner * Z) :=
  if max =? 0 then Ret (s, out, 0)
  else
    let off := data_offset (bc_layout (cf_tx_ctx cfg)) in
    '(tx, frames) ← pop_many_with (xs_tx s) max;
    Ret (set_pools s (xs_rx s) tx,
         out ++ ((λ a, from_storage (UmemFrame a) (cf_tx_ctx cfg) off off) <$> frames), len frames).

(** The loop of [allocate_tx_batch_inner]: an empty pool is drained once, and
    again only after an allocation in between. *)
Fixpoint allocate_loop (fuel : nat) (s : XdpSocket Q) (out : list XdpPacketBufInner) (start_len max : Z)
    (drained_after_empty : bool) : outcome (XdpSocket Q * list XdpPacketBufInner * result unit Error) :=
  if len out - start_len <? max then
    match fuel with
    | O => Diverge
    | S fuel =>
        a ← allocate_many s out (max - (len out - start_len));
        let '(s, out, allocated) := a in
        if 0 <? allocated then allocate_loop fuel s out start_len max false
        else if drained_after_empty then Ret (s, out, Ok tt)
        else
          d ← drain_tx_completions_inner s;
          match d with
          | (s, Err e) => Ret (s, out, Err e)
          | (s, Ok n) => if n =? 0 then Ret (s, out, Ok tt) else allocate_loop fuel s out start_len max true
          end
    end
  else Ret (s, out, Ok tt).

Definition allocate_tx_batch_inner (s : XdpSocket Q) (out : list XdpPacketBufInner) (max : Z) :
    outcome (XdpSocket Q * list XdpPacketBufInner * result Z Error) :=
  if max =? 0 then Ret (s, out, Ok 0)
  else
    d ← drain_completions_if_tx_pressure s;
    match d with
    | (s, Err e) => Ret (s, out, Err e)
    | (s, Ok _) =>
        let start_len := len out in
        l ← allocate_loop (Z.to_nat (2 * max + 2)) s out start_len max false;
        let '(s, out, r) := l in
        Ret (s, out, match r with Ok _ => Ok (len out - start_len) | Err e => Err e end)
    end.

(** The drop of a packet buffer, on the owner thread or another one: an armed
    buffer's frame goes to the free list its context names. *)
Definition drop_packet (owner : bool) (s : XdpSocket Q) (b : XdpPacketBufInner) : outcome (XdpSocket Q) :=
  d ← drop_buffer b;
  match d, bc_reclaim (bi_ctx b) with
  | Some (UmemFrame a), UmemCtx RxPool _ =>
      rx ← reclaim_push owner (xs_rx s) a; Ret (set_pools s rx (xs_tx s))
  | Some (UmemFrame a), UmemCtx TxPool _ =>
      tx ← reclaim_push owner (xs_tx s) a; Ret (set_pools s (xs_rx s) tx)
  | _, _ => Ret s
  end.

(** ** Sends *)

(** The head of every send: completions under pressure, then the room in the
    TX ring, draining once when it is full. [Ok 0] means there is none. *)
Definition reserve_tx (s : XdpSocket Q) : outcome (XdpSocket Q * result Z Error) :=
  d ← drain_completions_if_tx_pressure s;
  match d with
  | (s, Err e) => Ret (s, Err e)
  | (s, Ok _) =>
      '(n, p) ← tx_available (tx_prod (xs_raw s)) (tx_mmap (xs_raw s));
      let s := set_tx_ring s p (tx_mmap (xs_raw s)) in
      if negb (n =? 0) then Ret (s, Ok n)
      else
        let s := set_stats s (stats_ring_full (xs_stats s)) in
        d ← drain_tx_completions_inner s;
        match d with
        | (s, Err e) => Ret (s, Err e)
        | (s, Ok _) =>
            '(n, p) ← tx_available (tx_prod (xs_raw s)) (tx_mmap (xs_raw s));
            Ret (set_tx_ring s p (tx_mmap (xs_raw s)), Ok n)
        end
  end.

(** [for slot in batch.iter_mut().take(accepted)]: the packet is marked
    submitted and the slot taken. *)
Fixpoint submit_slots {T} (accepted : nat) (batch : list (TxSlot T)) : outcome (list (TxSlot T)) :=
  match accepted, batch with
  | O, _ | _, [] => Ret batch
  | S accepted, Ready _ :: batch => batch ← submit_slots accepted batch; Ret (Taken :: batch)
  | S _, Taken :: _ => Panic
  end.

(** The tail of the UDP sends, from the prepared descriptors on. *)
Definition finish_send {T} (wake : result unit string) (s : XdpSocket Q) (batch : list (TxSlot T))
    (descs : list XdpDesc) (bytes : Z) (deferred_error : option Error) :
    outcome (XdpSocket Q * list (TxSlot T) * result Z SendError) :=
  let prepared := len descs in
  if prepared =? 0 then
    Ret (s, batch, match deferred_error with Some kind => Err (mkSendError 0 kind) | None => Ok 0 end)
  else
    '(accepted, p, m) ← enqueue_tx_batch (tx_prod (xs_raw s)) (tx_mmap (xs_raw s)) (sz_tx (cf_rings cfg)) descs;
    assert! accepted =? prepared;
    let s := set_tx_ring s p (if 0 <? accepted then commit p m else m) in
    let s :=
      if 0 <? accepted then
        set_flight s (saturating_add 64 (xs_in_flight s) accepted) (saturating_add 64 (xs_since s) accepted)
      else s in
    batch ← submit_slots (Z.to_nat accepted) batch;
    let needs_wake := xs_wake_pending s || ((0 <? accepted) && needs_wakeup (tx_mmap (xs_raw s))) in
    let '(s, wake_error) :=
      if needs_wake then
        match wake with
        | Ok _ => (set_wake s false, None)
        | Err error => (set_wake s true, Some error)
        end
      else (s, None) in
    let s := if 0 <? accepted then set_stats s (stats_sent (xs_stats s) accepted bytes) else s in
    Ret (s, batch,
         match wake_error with
         | Some error => Err (mkSendError accepted (device_error error))
         | None =>
             match deferred_error with
             | Some kind => if accepted =? prepared then Err (mkSendError accepted kind) else Ok accepted
             | None => Ok accepted
             end
         end).

Definition send_udp_inner {R} `{XdpUdpRouter R} (router : R) (local_ip local_port ttl : Z)
    (wake : result unit string) (s : XdpSocket Q) (batch : list (TxSlot (UdpTransmit XdpPacketBufInner))) :
    outcome (XdpSocket Q * list (TxSlot (UdpTransmit XdpPacketBufInner)) * result Z SendError) :=
  let route_context := mkRouteContext (cf_ifindex cfg) (cf_queue cfg) (cf_mtu cfg) in
  a ← reserve_tx s;
  match a with
  | (s, Err kind) => Ret (s, batch, Err (mkSendError 0 kind))
  | (s, Ok tx_available) =>
      if tx_available =? 0 then Ret (s, batch, Ok 0)
      else
        let limit := Z.min (len batch) tx_available in
        p ← prepare_udp_slots router local_ip local_port ttl route_context (Z.to_nat limit)
              (um_backing (xs_umem s)) batch 0;
        let '(mem, batch, descs, bytes, deferred_error) := p in
        finish_send wake (set_mem s mem) batch descs bytes deferred_error
  end.

Definition send_udp_endpoint_inner {R} `{XdpUdpRouter R} (router : R) (local_ip local_port ttl : Z)
    (wake : result unit string) (s : XdpSocket Q) (endpoint : XdpUdpEndpoint)
    (batch : list (TxSlot (UdpEndpointTransmit XdpPacketBufInner))) :
    outcome (XdpSocket Q * XdpUdpEndpoint * list (TxSlot (UdpEndpointTransmit XdpPacketBufInner))
             * result Z SendError) :=
  let route_context := mkRouteContext (cf_ifindex cfg) (cf_queue cfg) (cf_mtu cfg) in
  e ← refresh_udp_endpoint_cache router local_ip local_port ttl route_context endpoint;
  match e with
  | (endpoint, Err kind) => Ret (s, endpoint, batch, Err (mkSendError 0 kind))
  | (endpoint, Ok _) =>
      a ← reserve_tx s;
      match a with
      | (s, Err kind) => Ret (s, endpoint, batch, Err (mkSendError 0 kind))
      | (s, Ok tx_available) =>
          if tx_available =? 0 then Ret (s, endpoint, batch, Ok 0)
          else
            match xe_cached endpoint with
            | None => Panic
            | Some cache =>
                let limit := Z.min (len batch) tx_available in
                p ← prepare_endpoint_slots (Z.to_nat limit) (um_backing (xs_umem s)) cache (xe_info endpoint)
                      batch 0;
                let '(mem, cache, batch, descs, bytes, deferred_error) := p in
                let endpoint := mkXdpUdpEndpoint (xe_spec endpoint) (xe_info endpoint) (Some cache) in
                f ← finish_send wake (set_mem s mem) batch descs bytes deferred_error;
                Ret (f.1.1, endpoint, f.1.2, f.2)
            end
      end
  end.

(** [notify_tx]: the unconditional doorbell. *)
Definition notify_tx (wake : result unit string) (s : XdpSocket Q) : XdpSocket Q * result unit Error :=
  match wake with
  | Ok _ => (set_wake s false, Ok tt)
  | Err error => (set_wake s true, Err (device_error error))
  end.

(** ** Receive *)

(** Pushes back, on the owner thread, of addresses in order. *)
Fixpoint push_all (r : FrameReclaim Q Z) (addrs : list Z) : outcome (FrameReclaim Q Z) :=
  match addrs with
  | [] => Ret r
  | a :: addrs => r ← reclaim_push true r a; push_all r addrs
  end.

Definition live_replenish_fill (wake : result unit string) (s : XdpSocket Q) :
    outcome (XdpSocket Q * result unit string) :=
  '(rx, empty) ← reclaim_is_empty (xs_rx s);
  s ← (if negb empty then
         '(rx, scratch) ← reclaim_drain_into rx [];
         '(written, p, m) ← replenish_fill_batch (fill_prod (xs_raw s)) (fill_mmap (xs_raw s))
                              (sz_fill (cf_rings cfg)) scratch;
         rx ← (if written <? len scratch then push_all rx (drop (Z.to_nat written) scratch) else Ret rx);
         Ret (set_pools (set_fill s p m) rx (xs_tx s))
       else Ret (set_pools s rx (xs_tx s)));
  if needs_wakeup (fill_mmap (xs_raw s)) then
    Ret (s, wake)
  else Ret (s, Ok tt).

(** [reclaim_rx_descs]. *)
Definition reclaim_rx_descs (s : XdpSocket Q) (descs : list XdpDesc) : outcome (XdpSocket Q) :=
  rx ← push_all (xs_rx s) (omap (λ d, frame_addr_for_desc (xs_umem s) (xd_addr d)) descs);
  Ret (set_pools s rx (xs_tx s)).

Definition push_rx (s : XdpSocket Q) (frame_addr : Z) : outcome (XdpSocket Q) :=
  rx ← reclaim_push true (xs_rx s) frame_addr; Ret (set_pools s rx (xs_tx s)).

Abbreviation udp_receive := (UdpReceive XdpPacketBufInner UdpRecvMeta).

Definition udp_recv_meta (p : ParsedIpv4Udp) : UdpRecvMeta :=
  mkUdpRecvMeta (SocketAddrV4 (pu_source p) (pu_source_port p)) (Some (IpAddrV4 (pu_destination p)))
    (Some (pu_destination_port p)) (pu_ecn p) (pu_payload_len p) None.

(** The loop of [recv_udp_inner] over the drained descriptors. *)
Fixpoint recv_udp_loop (local_ip : Z) (accepted_ports : XdpUdpAcceptedPorts) (s : XdpSocket Q)
    (descs : list XdpDesc) (out : RecvBatch udp_receive) (delivered : Z) :
    outcome (XdpSocket Q * RecvBatch udp_receive * result Z Error) :=
  match descs with
  | [] => Ret (s, out, Ok delivered)
  | desc :: rest =>
      match descriptor_slice (xs_umem s) (xd_addr desc) (xd_len desc) with
      | None =>
          s ← reclaim_rx_descs s (desc :: rest);
          Ret (s, out, Err ring_corrupt_error)
      | Some (frame_addr, frame) =>
          parsed ← parse_ethernet_ipv4_udp frame;
          match parsed with
          | Fragment =>
              s ← push_rx (set_stats s (stats_fragment (xs_stats s))) frame_addr;
              recv_udp_loop local_ip accepted_ports s rest out delivered
          | Drop =>
              s ← push_rx s frame_addr;
              recv_udp_loop local_ip accepted_ports s rest out delivered
          | Udp parsed =>
              accepted ← udp_accepts local_ip accepted_ports parsed;
              if negb accepted then
                s ← push_rx s frame_addr;
                recv_udp_loop local_ip accepted_ports s rest out delivered
              else
                match wrap_rx_frame (Some (xs_umem s)) (cf_rx_ctx cfg) (xd_addr desc) (pu_payload_offset parsed)
                        (pu_payload_len parsed) with
                | None =>
                    s ← push_rx (set_stats s (stats_ring_full (xs_stats s))) frame_addr;
                    recv_udp_loop local_ip accepted_ports s rest out delivered
                | Some packet =>
                    match rb_push out (mkUdpReceive packet (udp_recv_meta parsed)) with
                    | (_, Err _) => Panic
                    | (out, Ok _) =>
                        recv_udp_loop local_ip accepted_ports
                          (set_stats s (stats_received (xs_stats s) (pu_ip_len parsed))) rest out (delivered + 1)
                    end
                end
          end
      end
  end.

(** [recv_udp_inner]; [wake1] and [wake2] answer the two FILL doorbells. *)
Definition recv_udp_inner (local_ip : Z) (accepted_ports : XdpUdpAcceptedPorts)
    (wake1 wake2 : result unit string) (s : XdpSocket Q) (out : RecvBatch udp_receive) :
    outcome (XdpSocket Q * RecvBatch udp_receive * result Z Error) :=
  f ← live_replenish_fill wake1 s;
  match f with
  | (s, Err e) => Ret (s, out, Err (device_error e))
  | (s, Ok _) =>
      '(drained, c, m, descs) ← drain_rx (rx_cons (xs_raw s)) (rx_mmap (xs_raw s)) (sz_rx (cf_rings cfg))
                                  (sz_rx (cf_rings cfg)) (remaining out) [];
      let s := set_rx_ring s c m in
      if drained =? 0 then Ret (s, out, Ok 0)
      else
        l ← recv_udp_loop local_ip accepted_ports s descs out 0;
        match l with
        | (s, out, Err e) => Ret (s, out, Err e)
        | (s, out, Ok delivered) =>
            f ← live_replenish_fill wake2 s;
            Ret (f.1, out, match f.2 with Ok _ => Ok delivered | Err e => Err (device_error e) end)
        end
  end.

Definition recv_udp (local_ip : Z) (accepted_ports : XdpUdpAcceptedPorts)
    (wake1 wake2 : result unit string) (s : XdpSocket Q) (out : RecvBatch udp_receive) :
    outcome (XdpSocket Q * RecvBatch udp_receive * result Z Error) :=
  if remaining out =? 0 then Ret (s, out, Ok 0)
  else recv_udp_inner local_ip accepted_ports wake1 wake2 s out.
End Live.
