(* ===== verification/LiveRing.v ===== *)
(** * Ring contents

    The ring invariants with the history hidden: what a ring holds now, and
    what each operation and each kernel step does to it. *)
From S2P Require Import Prelude Bits Ring RingProofs RingMain.
Open Scope Z_scope.

(** The published, untaken entries of a producer ring. *)
Definition pring {A} (size : Z) (q : list A) (p : RingProducer) (m : RingMem A) : Prop :=
  ∃ C D staged, pinv size C D (len staged) staged p m ∧ q = drop (Z.to_nat D) staged.

(** The undrained entries of a consumer ring. *)
Definition cring {A} (size : Z) (q : list A) (c : RingConsumer) (m : RingMem A) : Prop :=
  ∃ Pc T pushed, cinv size Pc T T pushed c m ∧ q = drop (Z.to_nat T) pushed.

Lemma pring_size {A} size (q : list A) p m : pring size q p m → ring_size size ∧ len q ≤ size.
Proof.
  intros (C & D & st & Hi & ->). pose proof (pi_order _ _ _ _ _ _ _ Hi). split; [apply Hi|].
  rewrite len_drop by lia. lia.
Qed.
Lemma cring_size {A} size (q : list A) c m : cring size q c m → ring_size size ∧ len q ≤ size.
Proof.
  intros (Pc & T & l & Hi & ->). pose proof (cv_order _ _ _ _ _ _ _ Hi). split; [apply Hi|].
  rewrite len_drop by lia. lia.
Qed.

Lemma pring_new {A} size (d : list A) fl : ring_size size → len d = size →
  pring size [] (producer_new size) (mkRing 0 0 fl d).
Proof.
  intros Hs Hd. pose proof (ring_size_pos _ Hs). exists 0, 0, []. split; [|done].
  split; cbn; try done; change (len (@nil A)) with 0; lia.
Qed.
Lemma cring_new {A} size (d : list A) fl : ring_size size → len d = size →
  cring size [] consumer_new (mkRing 0 0 fl d).
Proof.
  intros Hs Hd. pose proof (ring_size_pos _ Hs). exists 0, 0, []. split; [|done].
  split; cbn; try done; change (len (@nil A)) with 0; lia.
Qed.

(** Only the flags of a ring may change under a cursor. *)
Definition set_flags {A} (m : RingMem A) (fl : Z) : RingMem A := mkRing (producer m) (consumer m) fl (desc m).
Lemma pring_flags {A} size (q : list A) p m fl : pring size q p m → pring size q p (set_flags m fl).
Proof. intros (C & D & st & [] & ->). exists C, D, st. split; [|done]. by split. Qed.

(** ** Producer operations *)
Lemma pring_available {A} size (q : list A) p m : pring size q p m →
  ∃ p', tx_available p m = Ret (size - len q, p') ∧ pring size q p' m.
Proof.
  intros (C & D & st & Hi & ->). pose proof (pinv_sync _ _ _ _ _ _ _ Hi) as Hs.
  pose proof (pi_order _ _ _ _ _ _ _ Hi). unfold tx_available. rewrite (pinv_available _ _ _ _ _ _ _ Hs). run.
  eexists. split; [|by exists D, D, st]. rewrite len_drop by lia. do 2 f_equal. lia.
Qed.

Lemma drop_app_stage {A} (st xs : list A) D : 0 ≤ D ≤ len st →
  drop (Z.to_nat D) (st ++ xs) = drop (Z.to_nat D) st ++ xs.
Proof. intros HD. rewrite drop_app_le; [done|]. unfold len in HD. lia. Qed.

(** Staging and committing a batch: as many entries as there is room for. *)
Lemma pring_enqueue {A} size (q xs : list A) p m : pring size q p m → len xs ≤ U32_MAX →
  let n := Z.min (len xs) (size - len q) in
  ∃ p' m', enqueue_tx_batch p m size xs = Ret (n, p', m') ∧
    pring size (q ++ take (Z.to_nat n) xs) p' (if 0 <? n then commit p' m' else m').
Proof.
  intros (C & D & st & Hi & ->) Hmax n. pose proof (pi_order _ _ _ _ _ _ _ Hi) as Ho.
  destruct (enqueue_tx_batch_ok _ _ _ _ _ _ _ xs Hi) as (k & p' & m' & C' & E & Hk & Hi' & Hfull).
  pose proof (pi_order _ _ _ _ _ _ _ Hi') as Ho'. rewrite len_app, len_take in Ho' by lia.
  unfold n. rewrite len_drop by lia.
  assert (Ek : k = Z.min (len xs) (size - Z.max 0 (len st - D))).
  { destruct (decide (k < len xs)) as [Hlt|]; [specialize (Hfull Hlt Hmax)|]; lia. }
  rewrite <- Ek. exists p', m'. split; [done|]. destruct (Z.ltb_spec 0 k).
  - exists C', D, (st ++ take (Z.to_nat k) xs). split; [by apply pinv_commit with (len st)|].
    by rewrite drop_app_stage by lia.
  - exists C', D, st. replace (Z.to_nat k) with 0%nat in * by lia. rewrite take_0, app_nil_r in *. done.
Qed.

Lemma pring_replenish {A} size (q xs : list A) p m : pring size q p m → len xs ≤ U32_MAX →
  let n := Z.min (len xs) (size - len q) in
  ∃ p' m', replenish_fill_batch p m size xs = Ret (n, p', m') ∧ pring size (q ++ take (Z.to_nat n) xs) p' m'.
Proof.
  intros (C & D & st & Hi & ->) Hmax n. pose proof (pi_order _ _ _ _ _ _ _ Hi) as Ho.
  destruct (replenish_fill_batch_ok _ _ _ _ xs _ _ Hi) as (k & p' & m' & C' & E & Hk & Hi' & Hfull).
  pose proof (pi_order _ _ _ _ _ _ _ Hi') as Ho'. rewrite len_app, len_take in Ho' by lia.
  unfold n. rewrite len_drop by lia.
  assert (Ek : k = Z.min (len xs) (size - Z.max 0 (len st - D))).
  { destruct (decide (k < len xs)) as [Hlt|]; [specialize (Hfull Hlt Hmax)|]; lia. }
  rewrite <- Ek. exists p', m'. split; [done|]. exists C', D, (st ++ take (Z.to_nat k) xs).
  rewrite drop_app_stage by lia. split; [|done]. rewrite len_app, len_take by lia.
  by replace (len st + Z.min k (len xs)) with (len st + k) by lia.
Qed.

Lemma prefill_ok {A} size (xs : list A) : ∀ C (st : list A) p m,
  pinv size C 0 0 st p m →
  (len st + len xs ≤ size → ∃ p' m', prefill p m size xs = Ret (Ok tt, p', m') ∧ pring size (st ++ xs) p' m') ∧
  (size < len st + len xs → ∃ p' m', prefill p m size xs = Ret (Err (PrefillExceeds size), p', m')).
Proof.
  induction xs as [|x xs IH]; intros C st p m Hi; cbn [prefill].
  { pose proof (pi_order _ _ _ _ _ _ _ Hi). change (len (@nil A)) with 0. split; [|lia]. intros _. eexists _, _.
    split; [done|]. exists C, 0, st. rewrite app_nil_r. split; [by apply pinv_commit with 0|done]. }
  assert (Hlc : len (x :: xs) = len xs + 1) by (unfold len; cbn [length]; lia). rewrite Hlc.
  pose proof (len_nonneg xs).
  destruct (produce_ok _ _ _ _ _ _ _ Hi) as [(p' & -> & Hi' & Hfull)|(p' & C' & -> & Hi' & Hroom)].
  { split; [lia|]. intros _. eexists _, _. done. }
  destruct (write_desc_ok size (len st) m x) as (d & -> & Hd & Hn);
    [apply Hi|apply len_nonneg|apply Hi|]. run.
  pose proof (pinv_stage size C' 0 0 st [x] p' m d Hi' Hroom Hd Hn) as Hi1.
  destruct (IH _ _ _ _ Hi1) as [H1 H2]. rewrite len_snoc, <- app_assoc in *.
  change (len [x]) with 1 in *. split; intros; [apply H1|apply H2]; lia.
Qed.

(** The kernel takes the oldest entries. *)
Lemma pring_take {A} size (q l : list A) p m : pring size q p m → kernel_takes size m l →
  ∃ q', q = l ++ q' ∧
    pring size q' p (mkRing (producer m) (wrapping_add 32 (consumer m) (len l)) (flags m) (desc m)).
Proof.
  intros (C & D & st & Hi & ->) Hk. destruct (kernel_takes_ok _ _ _ _ _ _ _ _ Hi Hk) as [Hle Hw].
  pose proof (pi_order _ _ _ _ _ _ _ Hi) as Ho. pose proof (len_nonneg l).
  exists (drop (Z.to_nat (D + len l)) st). split.
  - rewrite Hw at 1. unfold window. rewrite Z2Nat.inj_add, <- drop_drop by lia. by rewrite take_drop.
  - exists C, (D + len l), st. split; [|done]. destruct Hi as [? ? ? ? ? ? ? Hc Hsl].
    split; cbn; try done; try lia.
    + by rewrite Hc, wrapping_step.
    + intros i Hi. apply Hsl. lia.
Qed.

(** ** Consumer operations *)
Lemma cring_push {A} size (q : list A) c m m' x : cring size q c m → kernel_pushes size m m' x →
  cring size (q ++ [x]) c m'.
Proof.
  intros (Pc & T & l & Hi & ->) Hk. pose proof (cv_order _ _ _ _ _ _ _ Hi).
  exists Pc, T, (l ++ [x]). split; [by eapply cinv_push|]. by rewrite drop_app_stage by lia.
Qed.

Lemma window_drop_take {A} (l : list A) T n : 0 ≤ T → 0 ≤ n →
  window l T n = take (Z.to_nat n) (drop (Z.to_nat T) l) ∧
  drop (Z.to_nat (T + n)) l = drop (Z.to_nat n) (drop (Z.to_nat T) l).
Proof. intros. split; [done|]. rewrite drop_drop. f_equal. lia. Qed.

Lemma cring_drain_rx {A} size (q : list A) c m cap max : cring size q c m → 0 ≤ max → cap ≤ U32_MAX →
  let n := Z.min (Z.min max (saturating_sub cap 0)) (len q) in
  ∃ c' m', drain_rx c m size cap max [] = Ret (n, c', m', take (Z.to_nat n) q) ∧
    cring size (drop (Z.to_nat n) q) c' m'.
Proof.
  intros (Pc & T & l & Hi & ->) Hmax Hcap n. pose proof (cv_order _ _ _ _ _ _ _ Hi) as Ho.
  destruct (drain_rx_ok _ _ _ _ _ _ cap max [] Hi Hmax) as (c' & m' & E & Hn & Hi').
  change (len (@nil A)) with 0 in *.
  assert (En : Z.min (u32 (Z.min (Z.min max (saturating_sub cap 0)) U32_MAX)) (len l - T) = n).
  { unfold n, wrap. rewrite len_drop by lia. rewrite Z.mod_small by (unfold saturating_sub, U32_MAX in *; lia).
    unfold saturating_sub, U32_MAX in *. lia. }
  rewrite En in *. destruct (window_drop_take l T n ltac:(lia) Hn) as [Hw Hd].
  exists c', m'. rewrite E, Hw. split; [done|]. exists (len l), (T + n), l. by rewrite Hd.
Qed.

(** Draining all completions hands every entry to the closure, in two parts. *)
Lemma cring_slices {A S E} size (q : list A) c m (f : list A → list A → S → outcome (S * result unit E)) s :
  cring size q c m → size ≤ U32_MAX →
  ∃ c' m', cring size [] c' m' ∧
    if len q =? 0 then drain_completion_slices c m size size f s = Ret (s, Ok 0, c', m')
    else ∃ first second, first ++ second = q ∧
      drain_completion_slices c m size size f s
      = (r ← f first second s;
         Ret (r.1, match r.2 with Ok _ => Ok (len q) | Err e => Err e end, c', m')).
Proof.
  intros (Pc & T & l & Hi & ->) Hsz. pose proof (cv_order _ _ _ _ _ _ _ Hi) as Ho.
  pose proof (ring_size_pos _ (cv_size _ _ _ _ _ _ _ Hi)).
  destruct (drain_completion_slices_ok _ _ _ _ _ _ size f s Hi ltac:(lia)) as (c' & m' & Hi' & Hr).
  assert (En : Z.min (u32 (Z.min size U32_MAX)) (len l - T) = len (drop (Z.to_nat T) l)).
  { rewrite len_drop by lia. unfold wrap. rewrite Z.mod_small by (unfold U32_MAX in *; lia). lia. }
  rewrite En in *. exists c', m'. split.
  { exists (len l), (T + len (drop (Z.to_nat T) l)), l. split; [done|]. symmetry. apply drop_ge.
    rewrite len_drop by lia. unfold len in *. lia. }
  destruct (len (drop (Z.to_nat T) l) =? 0); [done|]. destruct Hr as (first & second & Hw & Hr).
  exists first, second. split; [|done]. rewrite Hw. unfold window. apply take_ge. unfold len. lia.
Qed.

(** Equal indices: the ring is empty. *)
Lemma pring_empty {A} size (q : list A) p m : pring size q p m → producer m = consumer m → q = [].
Proof.
  intros (C & D & st & Hi & ->) E. pose proof (pi_order _ _ _ _ _ _ _ Hi) as Ho. pose proof (ring_size_pos _ (pi_size _ _ _ _ _ _ _ Hi)).
  rewrite (pi_prod _ _ _ _ _ _ _ Hi), (pi_cons _ _ _ _ _ _ _ Hi) in E.
  pose proof (wrapping_dist D (len st) ltac:(lia)) as Hd. rewrite E in Hd. unfold wrapping_sub in Hd.
  rewrite Z.sub_diag in Hd. change (wrap 32 0) with 0 in Hd. apply drop_ge. unfold len in *. lia.
Qed.
