(* ===== verification/LiveProofs.v ===== *)
(** * The frames of a live socket

    Where every frame of an owned UMEM is: in a free list, in a ring, with the
    kernel, or with a packet buffer of the application. The invariant says
    each frame is in exactly one place; the lemmas say what each operation
    moves. *)
From S2P Require Import Prelude Bits Core Buffer Umem Window PacketBuf PacketBufProofs Ring RingProofs.
From S2P Require Import PoptrieEmit PoptrieBuild Wire WireProofs XdpUdp XdpUdpMain Reclaim ReclaimProofs.
From S2P Require Import Live LiveRing.
Open Scope Z_scope.

(** ** Counting *)
Fixpoint cnt (a : Z) (l : list Z) : Z :=
  match l with
  | [] => 0
  | x :: l => (if x =? a then 1 else 0) + cnt a l
  end.

Lemma cnt_app a l l' : cnt a (l ++ l') = cnt a l + cnt a l'.
Proof. induction l as [|x l IH]; cbn [app cnt]; [lia|]. rewrite IH. lia. Qed.
Lemma cnt_nonneg a l : 0 ≤ cnt a l.
Proof. induction l as [|x l IH]; cbn [cnt]; [lia|]. destruct (x =? a); lia. Qed.
Lemma cnt_pos a l : 0 < cnt a l ↔ a ∈ l.
Proof.
  induction l as [|x l IH]; cbn [cnt]; [split; [lia|by intros ?%not_elem_of_nil]|].
  pose proof (cnt_nonneg a l). rewrite elem_of_cons, <- IH. destruct (Z.eqb_spec x a); lia.
Qed.
Lemma cnt_filter (P : Z → bool) a l :
  cnt a (filter (λ x, P x = true) l) + cnt a (filter (λ x, P x = false) l) = cnt a l.
Proof.
  induction l as [|x l IH]; [done|]. rewrite !filter_cons. destruct (P x).
  - rewrite decide_True, decide_False by done. cbn [cnt]. lia.
  - rewrite decide_False, decide_True by done. cbn [cnt]. lia.
Qed.

Lemma perm_cnt l l' : Permutation l l' ↔ ∀ a, cnt a l = cnt a l'.
Proof.
  split.
  - intros Hp a. induction Hp as [|x l l' _ IH|x y l|l1 l2 l3 _ IH1 _ IH2]; cbn [cnt]; lia.
  - revert l'. induction l as [|x l IH]; intros l' Hc.
    + destruct l' as [|y l']; [done|]. specialize (Hc y). cbn in Hc. rewrite Z.eqb_refl in Hc.
      pose proof (cnt_nonneg y l'). lia.
    + assert (Hx : x ∈ l').
      { apply cnt_pos. rewrite <- Hc. cbn. rewrite Z.eqb_refl. pose proof (cnt_nonneg x l). lia. }
      apply list_elem_of_split in Hx as (l1 & l2 & ->). rewrite <- Permutation_middle. constructor. apply IH.
      intros a. specialize (Hc a). rewrite cnt_app in *. cbn [cnt] in Hc. lia.
Qed.

Lemma nodup_cnt l : NoDup l ↔ ∀ a, cnt a l ≤ 1.
Proof.
  induction l as [|x l IH]; [split; [cbn; lia|constructor]|]. rewrite NoDup_cons, IH. cbn [cnt]. split.
  - intros [Hx Hl] a. specialize (Hl a). destruct (Z.eqb_spec x a) as [->|]; [|lia].
    rewrite <- cnt_pos in Hx. lia.
  - intros Ha. split.
    + rewrite <- cnt_pos. specialize (Ha x). rewrite Z.eqb_refl in Ha. lia.
    + intros a. specialize (Ha a). pose proof (cnt_nonneg a l). destruct (x =? a); lia.
Qed.

(** Every count in the goal is nonnegative. *)
Ltac cnt_pos_facts :=
  repeat match goal with
    | |- context [cnt ?x ?l] =>
        lazymatch goal with H : 0 ≤ cnt x l |- _ => fail | _ => pose proof (cnt_nonneg x l) end
    end.
(** Counts distribute over the lists they are taken of. *)
Lemma cnt_fmap_app {A} (f : A → Z) a l l' : cnt a (f <$> l ++ l') = cnt a (f <$> l) + cnt a (f <$> l').
Proof. by rewrite fmap_app, cnt_app. Qed.
Lemma cnt_fmap_cons {A} (f : A → Z) a x l : cnt a (f <$> x :: l) = (if f x =? a then 1 else 0) + cnt a (f <$> l).
Proof. done. Qed.
Lemma cnt_cons a x l : cnt a (x :: l) = (if x =? a then 1 else 0) + cnt a l.
Proof. done. Qed.
Lemma cnt_nil a : cnt a [] = 0.
Proof. done. Qed.
Lemma cnt_fmap_nil {A} (f : A → Z) a : cnt a (f <$> []) = 0.
Proof. done. Qed.
Create Rewrite HintDb cnt.
#[export] Hint Rewrite cnt_app @cnt_fmap_app @cnt_fmap_cons cnt_cons cnt_nil @cnt_fmap_nil : cnt.

(** ** Geometry *)
Record Geometry := mkGeometry {
  g_log : Z; (** frame size, as a power of two *)
  g_frames : Z;
  g_rx : Z; (** receive frames: the first ones *)
}.
Definition g_size (g : Geometry) : Z := 2 ^ g_log g.

Record geometry_ok (g : Geometry) : Prop := mkGeometryOk {
  go_log : 0 ≤ g_log g ≤ 31;
  go_rx : 0 < g_rx g < g_frames g;
  go_frames : g_frames g ≤ U32_MAX;
}.

Section Frames.
Context (g : Geometry) (cfg : XdpConfig) (Hg : geometry_ok g).
Abbreviation fs := (g_size g).
Abbreviation n := (g_frames g).
Abbreviation rxn := (g_rx g).

Lemma fs_pos : 0 < fs.
Proof. unfold g_size. pose proof (go_log g Hg). lia. Qed.
Lemma fs_bound : fs ≤ 2 ^ 31.
Proof. unfold g_size. pose proof (go_log g Hg). apply Z.pow_le_mono_r; lia. Qed.
Lemma total_bound : n * fs ≤ 2 ^ 63.
Proof. pose proof fs_bound. pose proof fs_pos. pose proof (go_frames g Hg). pose proof (go_rx g Hg). unfold U32_MAX in *. nia. Qed.

Definition all_frames : list Z := (λ i, i * fs) <$> seqZ 0 n.

Lemma all_frames_in a : a ∈ all_frames ↔ in_frames fs 0 n a.
Proof.
  pose proof fs_pos. unfold all_frames, in_frames. rewrite list_elem_of_fmap. split.
  - intros (i & -> & Hi%elem_of_seqZ). rewrite Z.mod_mul by lia. split; [done|]. nia.
  - intros [Hm Hr]. exists (a / fs). pose proof (Z.div_mod a fs ltac:(lia)). split; [lia|].
    apply elem_of_seqZ. split; [apply Z.div_pos; lia|]. apply Z.div_lt_upper_bound; lia.
Qed.
Lemma all_frames_nodup : NoDup all_frames.
Proof.
  pose proof fs_pos. apply NoDup_fmap_2_strong; [|apply NoDup_seqZ]. intros x y _ _ E. nia.
Qed.
Lemma all_frames_len : len all_frames = n.
Proof.
  unfold all_frames, len. rewrite length_fmap, length_seqZ. pose proof (go_rx g Hg). lia.
Qed.

(** ** The configuration *)
Definition pool_ctx (pool : Pool) : XdpBufCtx := match pool with RxPool => cf_rx_ctx cfg | TxPool => cf_tx_ctx cfg end.
Definition pool_frame (pool : Pool) : Z → Prop :=
  match pool with RxPool => in_frames fs 0 rxn | TxPool => in_frames fs rxn n end.

Record config_ok : Prop := mkConfigOk {
  co_ctx pool : bc_reclaim (pool_ctx pool) = UmemCtx pool fs;
  co_l2 pool : 0 ≤ l2_headroom (bc_layout (pool_ctx pool));
  co_offset : l2_headroom (bc_layout (cf_tx_ctx cfg)) ≤ data_offset (bc_layout (cf_tx_ctx cfg)) ≤ fs;
  co_completion : cf_completion cfg = LocalSplit (rxn * fs);
}.

(** ** Packet buffers *)
Definition haddr (h : XdpPacketBufInner) : Z :=
  match bi_storage h with Some (UmemFrame a) => a | _ => -1 end.

(** A live buffer of one of the two pools. *)
Definition handle_ok (size : Z) (h : XdpPacketBufInner) : Prop :=
  ∃ pool a, bi_storage h = Some (UmemFrame a) ∧ pool_frame pool a ∧ bi_ctx h = pool_ctx pool ∧
    bi_armed h = true ∧ ∀ mem, len mem = size → inner_ok mem h.

(** ** The world *)
Context {Q : Type} `{Hq : ArrayQueue Q Z, !ArrayQueueLaws Q Z}.

(** The socket, the buffers of the application, and the frames the kernel
    holds for receiving and for transmitting. *)
Record World := mkWorld {
  w_sock : XdpSocket Q;
  w_app : list XdpPacketBufInner;
  w_krx : list Z;
  w_ktx : list Z;
}.

(** What the rings hold. *)
Record Queues := mkQueues {
  q_fill : list Z;
  q_tx : list XdpDesc;
  q_comp : list Z;
  q_rx : list XdpDesc;
}.

Definition desc_frame (d : XdpDesc) : Z := frame_of fs (xd_addr d).

Definition places (q : Queues) (w : World) : list Z :=
  held (xs_rx (w_sock w)) ++ held (xs_tx (w_sock w)) ++ (haddr <$> w_app w) ++ q_fill q ++ w_krx w ++
  (desc_frame <$> q_rx q) ++ (desc_frame <$> q_tx q) ++ w_ktx w ++ (frame_of fs <$> q_comp q).

(** A received descriptor lies within its frame. *)
Definition desc_ok (d : XdpDesc) : Prop := 0 ≤ xd_addr d ∧ 0 ≤ xd_len d ∧ xd_addr d mod fs + xd_len d ≤ fs.

Record winv (q : Queues) (w : World) : Prop := mkWinv {
  wi_fill : pring (sz_fill (cf_rings cfg)) (q_fill q) (fill_prod (xs_raw (w_sock w))) (fill_mmap (xs_raw (w_sock w)));
  wi_tx : pring (sz_tx (cf_rings cfg)) (q_tx q) (tx_prod (xs_raw (w_sock w))) (tx_mmap (xs_raw (w_sock w)));
  wi_comp : cring (sz_completion (cf_rings cfg)) (q_comp q) (comp_cons (xs_raw (w_sock w))) (comp_mmap (xs_raw (w_sock w)));
  wi_rx : cring (sz_rx (cf_rings cfg)) (q_rx q) (rx_cons (xs_raw (w_sock w))) (rx_mmap (xs_raw (w_sock w)));
  wi_umem : um_ok (xs_umem (w_sock w));
  wi_fs : um_frame_size (xs_umem (w_sock w)) = fs;
  wi_count : um_frame_count (xs_umem (w_sock w)) = n;
  wi_bytes : bytes_ok (um_backing (xs_umem (w_sock w)));
  wi_rxp : reclaim_ok rxn (xs_rx (w_sock w)) ∧ rxn ≤ rc_cap (xs_rx (w_sock w));
  wi_txp : reclaim_ok (n - rxn) (xs_tx (w_sock w)) ∧ n - rxn ≤ rc_cap (xs_tx (w_sock w));
  wi_handles : Forall (handle_ok (len (um_backing (xs_umem (w_sock w))))) (w_app w);
  wi_rxclass : Forall (in_frames fs 0 rxn)
    (held (xs_rx (w_sock w)) ++ q_fill q ++ w_krx w ++ (desc_frame <$> q_rx q));
  wi_txclass : Forall (in_frames fs rxn n) (held (xs_tx (w_sock w)));
  wi_desc : Forall desc_ok (q_rx q);
  wi_places : Permutation (places q w) all_frames;
  wi_flight : xs_in_flight (w_sock w) = len (q_tx q) + len (w_ktx w) + len (q_comp q);
}.

(** ** Consequences *)
Lemma winv_cnt q w a : winv q w → cnt a (places q w) ≤ 1.
Proof.
  intros Hw. rewrite (proj1 (perm_cnt _ _) (wi_places _ _ Hw)). apply nodup_cnt. apply all_frames_nodup.
Qed.

Lemma winv_in q w a : winv q w → 0 < cnt a (places q w) → in_frames fs 0 n a.
Proof.
  intros Hw. rewrite (proj1 (perm_cnt _ _) (wi_places _ _ Hw)), cnt_pos. apply all_frames_in.
Qed.

Lemma winv_len q w : winv q w → len (places q w) = n.
Proof.
  intros Hw. rewrite <- all_frames_len. unfold len. by rewrite (wi_places _ _ Hw).
Qed.

(** A new world with the same frames elsewhere. *)
Lemma places_move q w q' w' : winv q w → (∀ a, cnt a (places q' w') = cnt a (places q w)) →
  Permutation (places q' w') all_frames.
Proof. intros Hw Hc. etransitivity; [by apply perm_cnt|]. apply Hw. Qed.

Lemma held_free (r : FrameReclaim Q Z) free cap : held (mkReclaim free cap (rc_remote r)) = free ++ remote_items r.
Proof. done. Qed.

(** ** Completions *)
Context (Hcfg : config_ok) (debug : bool).

Definition with_sock (w : World) (s : XdpSocket Q) : World := mkWorld s (w_app w) (w_krx w) (w_ktx w).
Definition no_comp (q : Queues) : Queues := mkQueues (q_fill q) (q_tx q) [] (q_rx q).

Lemma comp_addr_range q w a : winv q w → a ∈ q_comp q → 0 ≤ a < n * fs.
Proof.
  intros Hw Ha. pose proof fs_pos. assert (Hf : in_frames fs 0 n (frame_of fs a)).
  { apply (winv_in q w _ Hw). unfold places. rewrite !cnt_app.
    assert (0 < cnt (frame_of fs a) (frame_of fs <$> q_comp q)) by (apply cnt_pos; apply list_elem_of_fmap; eauto).
    cnt_pos_facts. lia. }
  destruct Hf as [Hm Hr]. unfold frame_of in *. pose proof (Z.mod_pos_bound a fs ltac:(lia)).
  rewrite Z.mul_0_l in Hr. split; [lia|].
  assert (Hd : a - a mod fs = fs * (a / fs)) by (clear -H; pose proof (Z.div_mod a fs ltac:(lia)); lia).
  clear Hm. set (i := a / fs) in *. set (r := a mod fs) in *. clearbody i r. assert (i < n) by nia. nia.
Qed.

(** The two free lists, with the completed frames, are distinct frames. *)
Lemma drain_nodup q w : winv q w →
  NoDup (rc_free (xs_rx (w_sock w)) ++ rc_free (xs_tx (w_sock w)) ++ (frame_of fs <$> q_comp q)).
Proof.
  intros Hw. apply nodup_cnt. intros a. pose proof (winv_cnt q w a Hw) as Hc. unfold places, held in Hc.
  autorewrite with cnt in *. revert Hc. cnt_pos_facts. lia.
Qed.

Definition is_rx (a : Z) : bool := a <? rxn * fs.
Definition rx_of (l : list Z) : list Z := filter (λ a, is_rx a = true) l.
Definition tx_of (l : list Z) : list Z := filter (λ a, is_rx a = false) l.

Lemma free_classes q w : winv q w →
  Forall (in_frames fs 0 rxn) (rc_free (xs_rx (w_sock w))) ∧ Forall (in_frames fs rxn n) (rc_free (xs_tx (w_sock w))).
Proof.
  intros Hw. pose proof (wi_rxclass _ _ Hw) as Hr. pose proof (wi_txclass _ _ Hw) as Ht. unfold held in Hr, Ht.
  rewrite !Forall_app in Hr. rewrite Forall_app in Ht. tauto.
Qed.

(** What reclaiming every completion returns. *)
Lemma drain_run q w : winv q w →
  let rx := xs_rx (w_sock w) in let tx := xs_tx (w_sock w) in
  let frames := frame_of fs <$> q_comp q in
  ∃ c m, cring (sz_completion (cf_rings cfg)) [] c m ∧
    drain_completion_slices (comp_cons (xs_raw (w_sock w))) (comp_mmap (xs_raw (w_sock w)))
      (sz_completion (cf_rings cfg)) (sz_completion (cf_rings cfg))
      (reclaim_completions debug (cf_completion cfg) (fs - 1) (n * fs))
      (mkVec (rc_free rx) (rc_cap rx), mkVec (rc_free tx) (rc_cap tx))
    = Ret (mkVec (rc_free rx ++ rx_of frames) (rc_cap rx), mkVec (rc_free tx ++ tx_of frames) (rc_cap tx),
           Ok (len (q_comp q)), c, m).
Proof.
  intros Hw rx tx frames. destruct (cring_size _ _ _ _ (wi_comp _ _ Hw)) as [Hs _].
  pose proof (ring_size_pos _ Hs).
  destruct (cring_slices (S := Vec * Vec) _ _ _ _ (reclaim_completions debug (cf_completion cfg) (fs - 1) (n * fs))
    (mkVec (rc_free rx) (rc_cap rx), mkVec (rc_free tx) (rc_cap tx)) (wi_comp _ _ Hw)) as (c & m & Hc & Hr);
    [unfold U32_MAX; lia|].
  exists c, m. split; [done|]. destruct (Z.eqb_spec (len (q_comp q)) 0) as [E|E].
  - rewrite Hr. assert (Hn : q_comp q = []) by (apply nil_length_inv; unfold len in E; lia).
    unfold frames. rewrite Hn. cbn [fmap list_fmap]. unfold rx_of, tx_of. cbn [filter list_filter]. by rewrite !app_nil_r.
  - destruct Hr as (first & second & Hfs & ->). rewrite (co_completion Hcfg), reclaim_completions_app, Hfs. cbn [fst snd].
    destruct (free_classes q w Hw) as [Hrc Htc]. pose proof (go_rx g Hg). pose proof (go_log g Hg).
    pose proof total_bound.
    unfold g_size in *. rewrite (local_split_ok debug (g_log g) n rxn).
    + run. done.
    + lia.
    + lia.
    + lia.
    + apply Forall_forall. intros a Ha. by apply (comp_addr_range q w).
    + by apply drain_nodup.
    + split; [done|]. destruct (wi_rxp _ _ Hw) as [_ ?]. unfold rx, tx. cbn [v_cap]. lia.
    + split; [done|]. destruct (wi_txp _ _ Hw) as [_ ?]. unfold rx, tx. cbn [v_cap]. lia.
Qed.

Lemma rx_of_class l : Forall (in_frames fs 0 n) l → Forall (in_frames fs 0 rxn) (rx_of l).
Proof.
  rewrite !Forall_forall. intros Hl a [Ha Hin]%list_elem_of_filter. destruct (Hl a Hin). unfold is_rx in Ha.
  apply Z.ltb_lt in Ha. split; [done|lia].
Qed.
Lemma tx_of_class l : Forall (in_frames fs 0 n) l → Forall (in_frames fs rxn n) (tx_of l).
Proof.
  rewrite !Forall_forall. intros Hl a [Ha Hin]%list_elem_of_filter. destruct (Hl a Hin). unfold is_rx in Ha.
  apply Z.ltb_ge in Ha. split; [done|lia].
Qed.
Lemma cnt_split a l : cnt a (rx_of l) + cnt a (tx_of l) = cnt a l.
Proof. apply cnt_filter. Qed.

(** A free list extended by distinct frames of its range still has room. *)
Lemma reclaim_extend lo hi cap (r : FrameReclaim Q Z) xs :
  reclaim_ok cap r → lo ≤ hi → hi - lo ≤ rc_cap r → NoDup (rc_free r ++ xs) →
  Forall (in_frames fs lo hi) (rc_free r ++ xs) →
  reclaim_ok cap (mkReclaim (rc_free r ++ xs) (rc_cap r) (rc_remote r)).
Proof.
  intros [Hl Hb Hc Hv] Hlh Hcap Hnd Hin. constructor; try done. cbn [rc_free rc_cap].
  pose proof (frames_len fs lo hi _ fs_pos Hlh Hnd Hin). lia.
Qed.

Lemma comp_frames q w : winv q w → Forall (in_frames fs 0 n) (frame_of fs <$> q_comp q).
Proof.
  intros Hw. apply Forall_forall. intros f (a & -> & Ha)%list_elem_of_fmap. apply frame_of_in; [apply fs_pos|].
  by apply (comp_addr_range q w).
Qed.

Lemma drain_ok q w : winv q w →
  ∃ s, drain_tx_completions_inner debug cfg (w_sock w) = Ret (s, Ok (len (q_comp q))) ∧
    winv (no_comp q) (with_sock w s) ∧ (q_comp q = [] → held (xs_tx s) = held (xs_tx (w_sock w))).
Proof.
  intros Hw. destruct (drain_run q w Hw) as (c & m & Hc & Hrun).
  unfold drain_tx_completions_inner. rewrite (wi_fs _ _ Hw), (wi_count _ _ Hw), Hrun. run.
  pose proof (comp_frames q w Hw) as Hcf. set (frames := frame_of fs <$> q_comp q) in *.
  pose proof (go_rx g Hg) as Hrx. destruct (free_classes q w Hw) as [Hfr Hft].
  destruct (wi_rxp _ _ Hw) as [Hro Hrcap]. destruct (wi_txp _ _ Hw) as [Hto Htcap].
  assert (Hnd : ∀ a, cnt a (rc_free (xs_rx (w_sock w))) + cnt a (rc_free (xs_tx (w_sock w))) + cnt a frames ≤ 1).
  { intros a. pose proof (proj1 (nodup_cnt _) (drain_nodup q w Hw) a) as Hn. autorewrite with cnt in *. fold frames in Hn. lia. }
  eexists. split; [done|]. cbn [v_items v_cap fst snd]. split.
  2:{ intros Hnil. unfold frames. rewrite Hnil. unfold held, tx_of. cbn. by rewrite app_nil_r. }
  constructor; try exact Hc; try apply Hw.
  - split; [|apply Hrcap]. cbn [set_comp xs_rx xs_tx]. apply (reclaim_extend 0 rxn); try done; try lia.
    + apply nodup_cnt. intros a. specialize (Hnd a). pose proof (cnt_split a frames).
      autorewrite with cnt. revert Hnd. cnt_pos_facts. pose proof (cnt_nonneg a (tx_of frames)). lia.
    + apply Forall_app. split; [done|by apply rx_of_class].
  - split; [|apply Htcap]. cbn [set_comp xs_rx xs_tx]. apply (reclaim_extend rxn n); try done; try lia.
    + apply nodup_cnt. intros a. specialize (Hnd a). pose proof (cnt_split a frames).
      autorewrite with cnt. revert Hnd. cnt_pos_facts. pose proof (cnt_nonneg a (rx_of frames)). lia.
    + apply Forall_app. split; [done|by apply tx_of_class].
  - pose proof (wi_rxclass _ _ Hw) as Hr. unfold held in *. cbn. rewrite !Forall_app in *.
    pose proof (rx_of_class frames Hcf). tauto.
  - pose proof (wi_txclass _ _ Hw) as Ht. unfold held in *. cbn. rewrite !Forall_app in *.
    pose proof (tx_of_class frames Hcf). tauto.
  - apply (places_move q w); [done|]. intros a. pose proof (cnt_split a frames). unfold places, held. cbn.
    autorewrite with cnt. fold frames. unfold remote_items. cbn. lia.
  - cbn. rewrite (wi_flight _ _ Hw). pose proof (len_nonneg (q_tx q)). pose proof (len_nonneg (w_ktx w)).
    unfold saturating_sub. change (len (@nil Z)) with 0. lia.
Qed.

Lemma pressure_ok q w : winv q w →
  ∃ s q', drain_completions_if_tx_pressure debug cfg (w_sock w) = Ret (s, Ok tt) ∧
    winv q' (with_sock w s) ∧ (q' = q ∨ q' = no_comp q).
Proof.
  intros Hw. unfold drain_completions_if_tx_pressure. destruct (should_drain_tx_completions cfg (w_sock w)).
  - destruct (drain_ok q w Hw) as (s & -> & Hw' & _). run. exists s, (no_comp q). split_and!; [done|done|by right].
  - exists (w_sock w), q. split_and!; [done| |by left]. by destruct w.
Qed.

(** ** Allocation *)
Definition with_app (w : World) (s : XdpSocket Q) (app : list XdpPacketBufInner) : World :=
  mkWorld s app (w_krx w) (w_ktx w).

Lemma pool_frame_in pool a : pool_frame pool a → in_frames fs 0 n a.
Proof.
  pose proof (go_rx g Hg). pose proof fs_pos. destruct pool; intros [Hm Hr]; (split; [done|]); nia.
Qed.

(** A fresh transmit buffer. *)
Lemma fresh_tx_ok size a : in_frames fs rxn n a → fs * n ≤ size →
  let off := data_offset (bc_layout (cf_tx_ctx cfg)) in
  handle_ok size (from_storage (UmemFrame a) (cf_tx_ctx cfg) off off).
Proof.
  intros Ha Hsz off. pose proof (pool_frame_in TxPool a Ha) as [Hm Hr]. pose proof fs_pos.
  pose proof (co_ctx Hcfg TxPool) as Hctx. pose proof (co_l2 Hcfg TxPool) as Hl2. pose proof (co_offset Hcfg).
  cbn [pool_ctx] in Hctx, Hl2.
  exists TxPool, a. split_and!; try done. intros mem Hl. 
  constructor; unfold bi_capacity; cbn; rewrite ?Hctx; fold off; try lia.
  - split; [lia|]. pose proof (Z.div_mod a fs ltac:(lia)). assert (a / fs < n) by (apply Z.div_lt_upper_bound; lia). nia.
Qed.

Lemma haddr_fresh ctx off (xs : list Z) : haddr <$> ((λ a, from_storage (UmemFrame a) ctx off off) <$> xs) = xs.
Proof. induction xs as [|x xs IH]; [done|]. cbn. by rewrite IH. Qed.

(** Frames leave the transmit free list for the application. *)
Lemma winv_take_tx q w tx xs : winv q w → reclaim_ok (n - rxn) tx → n - rxn ≤ rc_cap tx →
  Permutation (held tx ++ xs) (held (xs_tx (w_sock w))) →
  let off := data_offset (bc_layout (cf_tx_ctx cfg)) in
  winv q (with_app w (set_pools (w_sock w) (xs_rx (w_sock w)) tx)
            (w_app w ++ ((λ a, from_storage (UmemFrame a) (cf_tx_ctx cfg) off off) <$> xs))).
Proof.
  intros Hw Hok Hc Hp off. pose proof (wi_txclass _ _ Hw) as Ht. rewrite <- Hp, Forall_app in Ht.
  destruct Ht as [Ht Hx]. constructor; try apply Hw; cbn.
  - done.
  - apply Forall_app. split; [apply Hw|]. apply Forall_fmap. eapply Forall_impl; [exact Hx|]. intros a Ha.
    apply fresh_tx_ok; [done|]. destruct (wi_umem _ _ Hw) as (_ & _ & Hu). unfold umem_len in Hu.
    rewrite (wi_fs _ _ Hw), (wi_count _ _ Hw) in Hu. lia.
  - done.
  - apply (places_move q w); [done|]. intros a. apply (proj1 (perm_cnt _ _)) with (a := a) in Hp. unfold places. cbn.
    autorewrite with cnt in *. rewrite haddr_fresh. lia.
Qed.

Lemma allocate_many_ok q w out max : winv q w → 0 ≤ max →
  ∃ s hs, allocate_many cfg (w_sock w) out max = Ret (s, out ++ hs, len hs) ∧
    len hs = Z.min max (len (held (xs_tx (w_sock w)))) ∧
    len (held (xs_tx s)) = len (held (xs_tx (w_sock w))) - len hs ∧ winv q (with_app w s (w_app w ++ hs)).
Proof.
  intros Hw Hmax. unfold allocate_many. destruct (Z.eqb_spec max 0) as [->|].
  { exists (w_sock w), []. rewrite !app_nil_r. pose proof (len_nonneg (held (xs_tx (w_sock w)))).
    change (len (@nil XdpPacketBufInner)) with 0. split_and!; try done; [lia|lia|by destruct w]. }
  destruct (wi_txp _ _ Hw) as [Hok Hcap].
  destruct (pop_many_ok _ _ max Hok Hmax) as (tx & xs & -> & Hok' & Hl & Hp & Hc). run.
  set (off := data_offset _). set (hs := (λ a, from_storage (UmemFrame a) (cf_tx_ctx cfg) off off) <$> xs).
  exists (set_pools (w_sock w) (xs_rx (w_sock w)) tx), hs.
  assert (Hlen : len hs = len xs) by (unfold len, hs; by rewrite length_fmap).
  rewrite Hlen. split; [done|]. split; [lia|].
  split; [unfold len; cbn; rewrite <- Hp, length_app; lia|].
  apply winv_take_tx; [done|done|lia|done].
Qed.

(** The retry loop ends within its fuel, and only moves frames. *)
Lemma allocate_loop_ok fuel : ∀ q w out start max (drained : bool),
  winv q w → 0 ≤ len out - start ≤ max →
  2 * (max - (len out - start)) + (if drained then 1 else 2) ≤ Z.of_nat fuel →
  (drained = true → q_comp q = []) →
  ∃ s q' hs, allocate_loop debug cfg fuel (w_sock w) out start max drained = Ret (s, out ++ hs, Ok tt) ∧
    len out - start + len hs ≤ max ∧ winv q' (with_app w s (w_app w ++ hs)) ∧ (q' = q ∨ q' = no_comp q) ∧
    (len out - start + len hs < max → held (xs_tx s) = [] ∧ q_comp q' = []).
Proof.
  induction fuel as [|fuel IH]; intros q w out start max drained Hw Hr Hf Hdr; cbn [allocate_loop].
  { destruct drained; lia. }
  destruct (Z.ltb_spec (len out - start) max) as [Hlt|].
  2:{ exists (w_sock w), q, []. rewrite !app_nil_r. change (len (@nil XdpPacketBufInner)) with 0.
      split_and!; try done; [lia|by destruct w|by left|lia]. }
  destruct (allocate_many_ok q w out (max - (len out - start)) Hw ltac:(lia)) as (s & hs & -> & Hl & Hheld & Hw'). run.
  pose proof (len_nonneg hs). destruct (Z.ltb_spec 0 (len hs)).
  - destruct (IH q (with_app w s (w_app w ++ hs)) (out ++ hs) start max false Hw') as (s2 & q2 & hs2 & E & Hl2 & Hw2 & Hq2 & Hx2).
    { rewrite len_app. lia. }
    { rewrite len_app. destruct drained; lia. }
    { done. }
    cbn in E. rewrite E. exists s2, q2, (hs ++ hs2). rewrite len_app in Hl2, Hx2 |- *. unfold with_app in *. cbn in Hw2.
    rewrite <- !app_assoc in *. split_and!; try done; [lia|]. intros. apply Hx2. lia.
  - assert (hs = []) as -> by (apply nil_length_inv; unfold len in *; lia). rewrite !app_nil_r in *.
    change (len (@nil XdpPacketBufInner)) with 0 in *.
    assert (Hempty : held (xs_tx s) = []) by (apply nil_length_inv; pose proof (len_nonneg (held (xs_tx s))); unfold len in *; lia).
    assert (Hw1 : winv q (with_app w s (w_app w))) by done. clear Hw'. destruct drained.
    { exists s, q, []. rewrite !app_nil_r. change (len (@nil XdpPacketBufInner)) with 0. split_and!; try done; [lia|by left|]. auto. }
    destruct (drain_ok q _ Hw1) as (s2 & E2 & Hw2 & Hsame). cbn in E2, Hsame. rewrite E2. run.
    destruct (Z.eqb_spec (len (q_comp q)) 0) as [E0|].
    { exists s2, (no_comp q), []. rewrite !app_nil_r. change (len (@nil XdpPacketBufInner)) with 0.
      assert (q_comp q = []) by (apply nil_length_inv; unfold len in E0; lia).
      split_and!; try done; [lia|by right|]. intros _. by rewrite Hsame. }
    destruct (IH (no_comp q) (with_app w s2 (w_app w)) out start max true Hw2) as (s3 & q3 & hs3 & E3 & Hl3 & Hw3 & Hq3 & Hx3);
      [lia|lia|done|].
    cbn in E3. rewrite E3. exists s3, q3, hs3. split_and!; try done. right. by destruct Hq3 as [->| ->].
Qed.

Lemma allocate_tx_batch_ok q w out max : winv q w → 0 ≤ max →
  ∃ s q' hs, allocate_tx_batch_inner debug cfg (w_sock w) out max = Ret (s, out ++ hs, Ok (len hs)) ∧
    len hs ≤ max ∧ winv q' (with_app w s (w_app w ++ hs)) ∧ (q' = q ∨ q' = no_comp q) ∧
    (len hs < max → held (xs_tx s) = [] ∧ q_comp q' = []).
Proof.
  intros Hw Hmax. unfold allocate_tx_batch_inner. destruct (Z.eqb_spec max 0) as [->|].
  { exists (w_sock w), q, []. rewrite !app_nil_r. split_and!; try done; [by destruct w|by left]. }
  destruct (pressure_ok q w Hw) as (s1 & q1 & -> & Hw1 & Hq1). run.
  destruct (allocate_loop_ok (Z.to_nat (2 * max + 2)) q1 (with_sock w s1) out (len out) max false Hw1)
    as (s2 & q2 & hs & E & Hl & Hw2 & Hq2 & Hx); [lia|lia|done|].
  cbn in E. rewrite E. run. exists s2, q2, hs. rewrite len_app. split_and!; [|lia|done| |].
  - do 3 f_equal. lia.
  - destruct Hq1 as [->| ->], Hq2 as [->| ->]; (by left) || by right.
  - intros. apply Hx. lia.
Qed.

(** ** Room in the TX ring *)
Lemma reserve_tx_ok q w : winv q w →
  ∃ s q', reserve_tx debug cfg (w_sock w) = Ret (s, Ok (sz_tx (cf_rings cfg) - len (q_tx q))) ∧
    winv q' (with_sock w s) ∧ q_tx q' = q_tx q.
Proof.
  intros Hw. unfold reserve_tx. destruct (pressure_ok q w Hw) as (s1 & q1 & -> & Hw1 & Hq1). run.
  assert (Htx : q_tx q1 = q_tx q) by (by destruct Hq1 as [->| ->]).
  destruct (pring_available _ _ _ _ (wi_tx _ _ Hw1)) as (p & E & Hp). cbn in E. rewrite E. run. rewrite Htx in *.
  assert (Hw2 : winv q1 (with_sock w (set_tx_ring s1 p (tx_mmap (xs_raw s1))))).
  { constructor; try apply Hw1. cbn. by rewrite Htx. }
  destruct (negb _) eqn:En.
  { run. eexists _, q1. split; [done|]. done. }
  run. destruct (drain_ok q1 (with_sock w (set_stats (set_tx_ring s1 p (tx_mmap (xs_raw s1)))
    (stats_ring_full (xs_stats (set_tx_ring s1 p (tx_mmap (xs_raw s1)))))))) as (s3 & E3 & Hw3 & _).
  { constructor; apply Hw2. }
  cbn [w_sock with_sock] in E3. rewrite E3. run.
  destruct (pring_available _ _ _ _ (wi_tx _ _ Hw3)) as (p3 & E4 & Hp3). cbn [w_sock with_sock] in E4. rewrite E4. run.
  eexists _, (no_comp q1). cbn [no_comp q_tx] in *. rewrite Htx in *. split; [done|]. split; [|done].
  constructor; try apply Hw3. cbn. by rewrite Htx.
Qed.
End Frames.
