(* ===== verification/LiveTx.v ===== *)
(** * Sends of a live socket

    What a send does to the frames: the prepared packets' frames enter the TX
    ring, and every other packet keeps its buffer. *)
From S2P Require Import Prelude Bits Core Buffer Umem Window PacketBuf PacketBufProofs Ring RingProofs.
From S2P Require Import PoptrieEmit Wire WireProofs XdpUdp XdpUdpMain Reclaim ReclaimProofs.
From S2P Require Import Live LiveRing LiveProofs.
Open Scope Z_scope.

(** ** Memory stays bytes *)
Lemma bytes_write_at mem at_ xs : bytes_ok mem → bytes_ok xs → bytes_ok (write_at mem at_ xs).
Proof.
  intros Hm Hx. unfold write_at, bytes_ok. rewrite !Forall_app. split_and!; [by apply Forall_take|done|by apply Forall_drop].
Qed.

Lemma frame_write_keeps mem b off xs mem' b' a : bi_storage b = Some (UmemFrame a) →
  frame_write mem b off xs = Ret (mem', b') → b' = b ∧ (bytes_ok mem → bytes_ok xs → bytes_ok mem').
Proof.
  intros Hs. unfold frame_write. rewrite Hs. destruct (bc_reclaim _); [done|]. intros H.
  apply bind_ret_inv in H as (m & Hm & [= -> ->]). split; [done|]. unfold mem_write in Hm.
  destruct (_ && _); [|done]. injection Hm as <-. intros. by apply bytes_write_at.
Qed.

(** A handle on the same frame, of the same pool, still armed. *)
Definition same_handle (b b' : XdpPacketBufInner) : Prop :=
  bi_storage b' = bi_storage b ∧ bi_ctx b' = bi_ctx b ∧ bi_armed b' = bi_armed b.

Lemma prepend_keeps mem b xs mem' b' r a : bi_storage b = Some (UmemFrame a) →
  prepend_to_inner mem b xs = Ret (mem', b', r) →
  same_handle b b' ∧ (bytes_ok mem → bytes_ok xs → bytes_ok mem').
Proof.
  intros Hs H. unfold prepend_to_inner in H. apply bind_ret_inv in H as (h & _ & H).
  destruct (h <? len xs); [by simplify_eq|]. apply bind_ret_inv in H as ([m c] & Hw & H). simplify_eq/=.
  apply (frame_write_keeps _ _ _ _ _ _ a) in Hw as [-> Hb]; done.
Qed.

Lemma prepare_frame_keeps mem b hdr mem' b' r a : bi_storage b = Some (UmemFrame a) →
  prepare_tx_frame_with_header mem b hdr = Ret (mem', b', r) →
  b' = b ∧ (bytes_ok mem → bytes_ok hdr → bytes_ok mem').
Proof.
  intros Hs H. unfold prepare_tx_frame_with_header in H. rewrite Hs in H.
  apply bind_ret_inv in H as (u & _ & H). destruct (_ || _); [by simplify_eq|].
  apply bind_ret_inv in H as (c & _ & H). destruct (_ <? _); [by simplify_eq|].
  apply bind_ret_inv in H as ([m c'] & Hw & H). apply (frame_write_keeps _ _ _ _ _ _ a) in Hw as [-> Hb]; [|done].
  apply bind_ret_inv in H as ([ad|] & _ & H); by simplify_eq.
Qed.

Lemma land_byte x : fits 8 (Z.land x 255).
Proof. change 255 with (Z.ones 8). rewrite Z.land_ones by lia. apply Z.mod_pos_bound. lia. Qed.
Lemma to_be16_bytes x : fits 16 x → bytes_ok (to_be16 x).
Proof.
  intros Hx. unfold fits in Hx. unfold to_be16. apply Forall_cons. split; [|apply Forall_singleton]; unfold fits.
  - rewrite Z.shiftr_div_pow2 by lia. split; [apply Z.div_pos; lia|apply Z.div_lt_upper_bound; lia].
  - apply land_byte.
Qed.

Lemma header_bytes f : fields_ok f → bytes_ok (header f (header_checksum f)).
Proof.
  intros (Hsp & Hdp & Hs & Hd & Htl & Hul & Httl). unfold header, ip_bytes, udp_bytes, bytes_ok.
  pose proof (ecn_bits_range (hf_ecn f)). assert (Hc : fits 16 (header_checksum f)).
  { unfold header_checksum. assert (Hp : 0 ≤ base_sum f + hf_total_len f).
    { unfold fits, base_sum, from_be16 in *. pose proof (Z.mod_pos_bound (hf_source f) 65536 ltac:(lia)).
      pose proof (Z.mod_pos_bound (hf_destination f) 65536 ltac:(lia)).
      assert (0 ≤ hf_source f / 65536) by (apply Z.div_pos; lia).
      assert (0 ≤ hf_destination f / 65536) by (apply Z.div_pos; lia). lia. }
    pose proof (fold16_range _ Hp). unfold fits in *. lia. }
  assert (Ho : ∀ x, Forall (fits 8) (ipv4_octets x)).
  { intros x. unfold ipv4_octets. do 4 (apply Forall_cons; split; [apply land_byte|]). apply Forall_nil. done. }
  pose proof (to_be16_bytes _ Hc). pose proof (to_be16_bytes _ Hsp). pose proof (to_be16_bytes _ Hdp).
  pose proof (to_be16_bytes _ Htl). pose proof (to_be16_bytes _ Hul).
  rewrite !Forall_app, !Forall_cons. unfold bytes_ok in *. split_and!; try done; unfold fits; lia.
Qed.

(** What the transmit path needs of a router, with headers made of bytes. *)
Definition router_bytes {R} `{XdpUdpRouter R} (router : R) (context : XdpRouteContext) : Prop :=
  ∀ dst res l2, fits 32 dst → resolve_udp_l2 router dst context = Ret (Some res) → l2_header res = Ret l2 → bytes_ok l2.

Section Prepare.
Context {R : Type} `{XdpUdpRouter R} (router : R).
Context (local_ip local_port ttl : Z) (Hsock : socket_ok local_ip local_port ttl).
Context (context : XdpRouteContext) (Hrouter : router_ok router context) (Hbytes : router_bytes router context).

Lemma in_place_keeps mem mtu tx mem' tx' r a :
  bi_storage (ut_packet tx) = Some (UmemFrame a) →
  meta_ok (ut_destination tx) (ut_source_ip tx) (ut_source_port tx) →
  prepare_xdp_udp_transmit_in_place local_ip local_port ttl mem mtu tx = Ret (mem', tx', r) →
  same_handle (ut_packet tx) (ut_packet tx') ∧ (bytes_ok mem → bytes_ok mem').
Proof.
  intros Hs Hmeta Hrun. unfold prepare_xdp_udp_transmit_in_place in Hrun.
  destruct (ut_destination tx) as [ip port|]; [|by simplify_eq].
  destruct (source_v4 local_ip (ut_source_ip tx)) as [sip|] eqn:Hsrc; [|by simplify_eq].
  destruct (checked_sub mtu _); [|by simplify_eq]. destruct (_ <? _); [by simplify_eq|].
  cbv zeta in Hrun. destruct (U16_MAX <? _); [by simplify_eq|].
  apply bind_ret_inv in Hrun as (h & Hh & Hrun). apply bind_ret_inv in Hrun as ([[m p] r'] & Hp & Hrun). simplify_eq/=.
  apply (prepend_keeps _ _ _ _ _ _ a) in Hp as [Hsame Hb]; [|done]. split; [done|]. intros Hm. apply Hb; [done|].
  set (f := mkFields _ _ _ _ _ _ _ _) in Hh. assert (Hf : fields_ok f).
  { destruct Hsock as [H1 H2 H3]. destruct Hmeta as ([Hd Hdp] & Hsip & Hsp). unfold fields_ok, f. cbn.
    split_and!; try done; try (apply wrap_fits; lia); try (by destruct (ut_source_port tx));
      (destruct (ut_source_ip tx) as [[]|]; simplify_eq/=; done). }
  rewrite write_headers_ok in Hh by done. injection Hh as <-. exact (header_bytes f Hf).
Qed.

Lemma prepare_udp_slot_keeps mem tx mem' slot r a :
  bi_storage (ut_packet tx) = Some (UmemFrame a) →
  meta_ok (ut_destination tx) (ut_source_ip tx) (ut_source_port tx) →
  prepare_udp_slot router local_ip local_port ttl context mem (Ready tx) = Ret (mem', slot, r) →
  ∃ p, slot = Ready (with_packet tx p) ∧ same_handle (ut_packet tx) p ∧ (bytes_ok mem → bytes_ok mem').
Proof.
  intros Hs Hmeta Hrun. unfold prepare_udp_slot in Hrun.
  assert (Hsame : ∃ p, Ready tx = Ready (with_packet tx p) ∧ same_handle (ut_packet tx) p ∧ (bytes_ok mem → bytes_ok mem)).
  { exists (ut_packet tx). by destruct tx. }
  destruct (ut_destination tx) as [ip port|] eqn:Hd; [|by simplify_eq].
  apply bind_ret_inv in Hrun as ([res|] & Hres & Hrun); [|by simplify_eq].
  apply bind_ret_inv in Hrun as ([[m1 tx1] r1] & Hp & Hrun). rewrite <- Hd in Hmeta.
  destruct (in_place_keeps _ _ _ _ _ _ a Hs Hmeta Hp) as [(Hs1 & Hc1 & Ha1) Hb1]. rewrite Hs in Hs1.
  assert (Htx1 : tx1 = with_packet tx (ut_packet tx1)).
  { clear -Hp. unfold prepare_xdp_udp_transmit_in_place in Hp.
    destruct (ut_destination tx); [|simplify_eq; by destruct tx1].
    destruct (source_v4 _ _); [|simplify_eq; by destruct tx1].
    destruct (checked_sub _ _); [|simplify_eq; by destruct tx1]. destruct (_ <? _); [simplify_eq; by destruct tx1|].
    cbv zeta in Hp. destruct (U16_MAX <? _); [simplify_eq; by destruct tx1|].
    apply bind_ret_inv in Hp as (h & _ & Hp). apply bind_ret_inv in Hp as ([[m p] r'] & _ & Hp). by simplify_eq/=. }
  assert (Hh : same_handle (ut_packet tx) (ut_packet tx1)) by (unfold same_handle; by rewrite Hs1, Hs, Hc1, Ha1).
  destruct r1 as [[]|e]; [|injection Hrun as <- <- <-; exists (ut_packet tx1); by rewrite <- Htx1].
  apply bind_ret_inv in Hrun as (l2 & Hl2 & Hrun). apply bind_ret_inv in Hrun as ([[m2 p2] fr] & Hf & Hrun).
  apply (prepare_frame_keeps _ _ _ _ _ _ a) in Hf as [-> Hb2]; [|done].
  assert (Hl : bytes_ok l2). { rewrite Hd in Hmeta. apply (Hbytes ip res l2); [apply Hmeta|done|done]. }
  assert (Hbm : bytes_ok mem → bytes_ok m2) by auto.
  destruct fr as [fr|].
  - injection Hrun as <- <- <-. exists (ut_packet tx1). rewrite Htx1. by destruct tx.
  - unfold restore_prepared_xdp_udp_transmit_in_place, trim_prefix_from_inner in Hrun.
    destruct (_ <? _); cbn in Hrun; injection Hrun as <- <- <-; rewrite Htx1; (eexists; split; [reflexivity|done]).
Qed.
End Prepare.

(** ** Batches *)
Definition slot_packet {T} (pkt : T → XdpPacketBufInner) (slot : TxSlot T) : option XdpPacketBufInner :=
  match slot with Ready t => Some (pkt t) | Taken => None end.
(** The buffers a batch holds. *)
Definition slot_handles {T} (pkt : T → XdpPacketBufInner) (batch : list (TxSlot T)) : list XdpPacketBufInner :=
  omap (slot_packet pkt) batch.

(** The frame of the packet in a slot. *)
Definition slot_frame {T} (pkt : T → XdpPacketBufInner) (slot : TxSlot T) : option Z := haddr <$> slot_packet pkt slot.
Lemma slot_frames {T} (pkt : T → XdpPacketBufInner) (batch : list (TxSlot T)) :
  haddr <$> slot_handles pkt batch = omap id (slot_frame pkt <$> batch).
Proof.
  induction batch as [|[t|] batch IH]; [done| |exact IH]. unfold slot_handles in *. cbn. by rewrite IH.
Qed.

Lemma slot_handles_ready {T} (pkt : T → XdpPacketBufInner) (done : list T) :
  slot_handles pkt (Ready <$> done) = pkt <$> done.
Proof. induction done as [|t done IH]; [done|]. unfold slot_handles in *. cbn. by rewrite IH. Qed.
Lemma slot_handles_app {T} (pkt : T → XdpPacketBufInner) (l l' : list (TxSlot T)) :
  slot_handles pkt (l ++ l') = slot_handles pkt l ++ slot_handles pkt l'.
Proof. apply omap_app. Qed.
Lemma slot_handles_taken {T} (pkt : T → XdpPacketBufInner) (k : nat) : slot_handles pkt (replicate k Taken) = [].
Proof. induction k as [|k IH]; [done|]. exact IH. Qed.

Lemma submit_slots_ok {T} (done : list T) (rest : list (TxSlot T)) :
  submit_slots (length done) ((Ready <$> done) ++ rest) = Ret (replicate (length done) Taken ++ rest).
Proof. induction done as [|t done IH]; [by destruct rest|]. cbn. by rewrite IH. Qed.

Lemma inner_ok_len mem mem' b : inner_ok mem b → len mem' = len mem → inner_ok mem' b.
Proof. intros [Hs ? ? ?] Hl. constructor; try done. by rewrite Hl. Qed.

Section Send.
Context (g : Geometry) (cfg : XdpConfig) (Hg : geometry_ok g) (Hcfg : config_ok g cfg).
Abbreviation fs := (g_size g).
Abbreviation n := (g_frames g).
Abbreviation rxn := (g_rx g).

Lemma same_handle_ok size b b' : handle_ok g cfg size b → same_handle b b' →
  (∀ mem, len mem = size → inner_ok mem b') → handle_ok g cfg size b' ∧ haddr b' = haddr b.
Proof.
  intros (pool & a & Hs & Hp & Hc & Ha & _) (Hs' & Hc' & Ha') Hok. split; [|unfold haddr; by rewrite Hs'].
  exists pool, a. rewrite Hs', Hc', Ha'. done.
Qed.

Lemma handle_capacity size b : handle_ok g cfg size b → bi_capacity b = fs.
Proof.
  intros (pool & a & Hs & _ & Hc & _). unfold bi_capacity. rewrite Hs, Hc. by rewrite (co_ctx g cfg Hcfg pool).
Qed.

Lemma frame_of_offset a off : a mod fs = 0 → 0 ≤ off < fs → frame_of fs (a + off) = a.
Proof.
  intros Ha Ho. unfold frame_of. rewrite <- Zplus_mod_idemp_l, Ha. cbn. rewrite Z.mod_small by lia. lia.
Qed.

(** What preparing a batch leaves: the descriptors are those of the first
    packets, which are ready, in order; every packet stays on its frame, and
    those after the prepared ones stay usable. *)
Definition prepared {T} (pkt : T → XdpPacketBufInner) (size : Z) (batch batch' : list (TxSlot T))
    (descs : list XdpDesc) : Prop :=
  ∃ done rest, batch' = (Ready <$> done) ++ rest ∧ length descs = length done ∧
    desc_frame g <$> descs = haddr <$> (pkt <$> done) ∧
    slot_frame pkt <$> batch' = slot_frame pkt <$> batch ∧
    Forall (handle_ok g cfg size) (slot_handles pkt rest).

Lemma prepared_nil {T} (pkt : T → XdpPacketBufInner) size batch :
  Forall (handle_ok g cfg size) (slot_handles pkt batch) → prepared pkt size batch batch [].
Proof. intros Hb. by exists [], batch. Qed.

Lemma prepared_stop {T} (pkt : T → XdpPacketBufInner) size t t' batch :
  Forall (handle_ok g cfg size) (slot_handles pkt batch) → handle_ok g cfg size (pkt t') → haddr (pkt t') = haddr (pkt t) →
  prepared pkt size (Ready t :: batch) (Ready t' :: batch) [].
Proof.
  intros Hb Ht Ha. exists [], (Ready t' :: batch). split_and!; try done.
  - cbn. unfold slot_frame. cbn. by rewrite Ha.
  - unfold slot_handles. cbn. by constructor.
Qed.

Lemma prepared_cons {T} (pkt : T → XdpPacketBufInner) size t t' batch batch' d descs :
  prepared pkt size batch batch' descs → haddr (pkt t') = haddr (pkt t) → desc_frame g d = haddr (pkt t) →
  prepared pkt size (Ready t :: batch) (Ready t' :: batch') (d :: descs).
Proof.
  intros (done & rest & -> & Hl & Hd & Hs & Hr) Ha Hf. exists (t' :: done), rest. split_and!; try done.
  - cbn. by rewrite Hl.
  - cbn. by rewrite Hf, Ha, Hd.
  - rewrite !fmap_cons, Hs. unfold slot_frame at 1 3. cbn. by rewrite Ha.
Qed.

(** ** Preparing UDP packets *)
Definition udp_slot_ok (slot : TxSlot (UdpTransmit XdpPacketBufInner)) : Prop :=
  match slot with
  | Ready tx => meta_ok (ut_destination tx) (ut_source_ip tx) (ut_source_port tx)
  | Taken => True
  end.

Lemma prepare_udp_slots_ok {R} `{XdpUdpRouter R} (router : R) local_ip local_port ttl context size :
  socket_ok local_ip local_port ttl → router_ok router context → router_bytes router context →
  ∀ limit mem batch bytes, len mem = size → bytes_ok mem →
  Forall (handle_ok g cfg size) (slot_handles ut_packet batch) → Forall udp_slot_ok batch →
  ∃ mem' batch' descs bytes' e,
    prepare_udp_slots router local_ip local_port ttl context limit mem batch bytes
    = Ret (mem', batch', descs, bytes', e) ∧
    len mem' = size ∧ bytes_ok mem' ∧ (length descs ≤ limit)%nat ∧ prepared ut_packet size batch batch' descs.
Proof.
  intros Hsock Hrouter Hbytes. pose proof (fs_pos g Hg). pose proof (fs_bound g Hg).
  induction limit as [|limit IH]; intros mem batch bytes Hm Hb Hh Hs; cbn [prepare_udp_slots].
  { eexists _, _, _, _, _. split; [done|]. split_and!; try done. by apply prepared_nil. }
  destruct batch as [|[tx|] batch].
  { eexists _, _, _, _, _. split; [done|]. split_and!; try done; [cbn; lia|]. by apply prepared_nil. }
  2:{ cbn [prepare_udp_slot]. run. eexists _, _, _, _, _. split; [done|]. split_and!; try done; [cbn; lia|]. by apply prepared_nil. }
  apply Forall_cons in Hs as [Hmeta Hs]. unfold slot_handles in Hh. cbn in Hh. apply Forall_cons in Hh as [Htx Hh].
  fold (slot_handles ut_packet batch) in Hh.
  pose proof (handle_capacity size _ Htx) as Hcap. destruct (Htx) as (pool & a & Hst & Hpool & Hctx & Harm & Hok).
  destruct (prepare_udp_slot_spec router local_ip local_port ttl Hsock context Hrouter mem tx (Hok mem Hm))
    as (mem1 & p1 & r & Hrun & Hl1 & _ & Hr); [unfold U32_MAX; lia|done|].
  destruct (prepare_udp_slot_keeps router local_ip local_port ttl Hsock context Hbytes _ _ _ _ _ a Hst Hmeta Hrun)
    as (p2 & Ep & Hsame & Hb1). assert (p2 = p1) as -> by (unfold with_packet in Ep; congruence). clear Ep.
  rewrite Hrun. run. destruct r as [d|e].
  - destruct Hr as (ip & port & res & l2 & a' & _ & _ & _ & Hst' & Hr). rewrite Hst in Hst'. injection Hst' as <-.
    destruct Hr as (_ & _ & Hroom & -> & _).
    destruct (IH mem1 batch (saturating_add 64 bytes (buf_len p1))) as (mem2 & batch2 & descs & bytes2 & e & Hrun2 & Hm2 & Hb2 & Hl2 & Hp2);
      [congruence|auto|done|done|].
    cbn [with_packet ut_packet]. rewrite Hrun2. run. eexists _, _, _, _, _. split; [done|]. split_and!; try done; [cbn; lia|].
    pose proof (len_nonneg l2). pose proof (io_packet _ _ (Hok mem Hm)). pose proof (io_end _ _ (Hok mem Hm)).
    apply prepared_cons; [done| |].
    + cbn. unfold haddr. by rewrite (proj1 Hsame).
    + unfold desc_frame, haddr. cbn [xd_addr]. rewrite Hst.
      replace (a + bi_start (ut_packet tx) - 28 - len l2) with (a + (bi_start (ut_packet tx) - 28 - len l2)) by lia.
      apply frame_of_offset; [|lia]. by destruct (pool_frame_in g Hg pool a Hpool).
  - destruct Hr as (Hok1 & _). eexists _, _, _, _, _. split; [done|]. split_and!; [congruence|auto|cbn; lia|].
    destruct (same_handle_ok size (ut_packet tx) p1 Htx Hsame) as [Hh1 Hh2].
    { intros m Hml. apply (inner_ok_len mem1); [done|congruence]. }
    by apply prepared_stop.
Qed.

(** ** Handing descriptors to the ring *)
Context {Q : Type} `{Hq : ArrayQueue Q Z, !ArrayQueueLaws Q Z}.
Implicit Types (w : World (Q := Q)).

Definition mem_size w : Z := len (um_backing (xs_umem (w_sock w))).

Lemma winv_app q w app : winv g cfg q w → Forall (handle_ok g cfg (mem_size w)) app →
  (∀ a, cnt a (haddr <$> app) = cnt a (haddr <$> w_app w)) → winv g cfg q (with_app w (w_sock w) app).
Proof.
  intros Hw Ha Hp. constructor; try apply Hw; [done|]. apply (places_move g cfg q w); [done|]. intros a.
  specialize (Hp a). unfold places. cbn. autorewrite with cnt. lia.
Qed.

Lemma winv_mem q w mem : winv g cfg q w → len mem = mem_size w → bytes_ok mem →
  winv g cfg q (with_sock w (set_mem (w_sock w) mem)).
Proof.
  intros Hw Hl Hb. constructor; try apply Hw; cbn; try done.
  - destruct (wi_umem _ _ _ _ Hw) as (H1 & H2 & H3). unfold um_ok, umem_len in *. cbn. unfold mem_size in Hl. by rewrite Hl.
  - rewrite Hl. apply Hw.
Qed.

(** Counters, wake-up state and flags of the ring are free. *)
Lemma winv_stats q w stats pending since : winv g cfg q w →
  winv g cfg q (with_sock w (set_stats (set_wake (set_flight (w_sock w) (xs_in_flight (w_sock w)) since) pending) stats)).
Proof. intros Hw. constructor; apply Hw. Qed.

Definition accepted_of (r : result Z SendError) : Z := match r with Ok k => k | Err e => se_accepted e end.

(** Entries staged and committed: their frames leave the application. *)
Lemma winv_submit q w hs hs' others descs p m since :
  winv g cfg q w → w_app w = hs ++ others →
  haddr <$> hs = (desc_frame g <$> descs) ++ (haddr <$> hs') → Forall (handle_ok g cfg (mem_size w)) hs' →
  pring (sz_tx (cf_rings cfg)) (q_tx q ++ descs) p m →
  winv g cfg (mkQueues (q_fill q) (q_tx q ++ descs) (q_comp q) (q_rx q))
    (with_app w (set_flight (set_tx_ring (w_sock w) p m) (xs_in_flight (w_sock w) + len descs) since) (hs' ++ others)).
Proof.
  intros Hw Happ Hhs Hok Hp. constructor; try apply Hw; cbn; try done.
  - pose proof (wi_handles _ _ _ _ Hw) as Hh. rewrite Happ in Hh. apply Forall_app in Hh as [_ Ho]. by apply Forall_app.
  - apply (places_move g cfg q w); [done|]. intros a. unfold places. cbn. rewrite Happ. autorewrite with cnt. rewrite Hhs.
    autorewrite with cnt. lia.
  - rewrite (wi_flight _ _ _ _ Hw), len_app. lia.
Qed.

Lemma flight_bound q w (descs : list XdpDesc) : winv g cfg q w → len descs ≤ sz_tx (cf_rings cfg) →
  saturating_add 64 (xs_in_flight (w_sock w)) (len descs) = xs_in_flight (w_sock w) + len descs.
Proof.
  intros Hw Hd. pose proof (winv_len g cfg Hg q w Hw) as Hl. unfold places in Hl.
  rewrite (wi_flight _ _ _ _ Hw). destruct (pring_size _ _ _ _ (wi_tx _ _ _ _ Hw)) as [Hs _].
  pose proof (ring_size_pos _ Hs). pose proof (go_frames g Hg). unfold U32_MAX, saturating_add in *.
  unfold len in *. rewrite !length_app, !length_fmap in Hl. lia.
Qed.

(** The tail of a send. *)
Lemma finish_send_ok {T} (pkt : T → XdpPacketBufInner) wake q w others batch batch' descs bytes e :
  winv g cfg q w → w_app w = slot_handles pkt batch ++ others →
  prepared pkt (mem_size w) batch batch' descs → len descs ≤ sz_tx (cf_rings cfg) - len (q_tx q) →
  ∃ s r, finish_send cfg wake (w_sock w) batch' descs bytes e
    = Ret (s, replicate (length descs) Taken ++ drop (length descs) batch', r) ∧
    accepted_of r = len descs ∧ Forall (λ o, is_Some o) (take (length descs) (slot_frame pkt <$> batch)) ∧
    drop (length descs) (slot_frame pkt <$> batch) = slot_frame pkt <$> drop (length descs) batch' ∧
    (length descs ≤ length batch)%nat ∧
    winv g cfg (mkQueues (q_fill q) (q_tx q ++ descs) (q_comp q) (q_rx q))
      (with_app w s (slot_handles pkt (replicate (length descs) Taken ++ drop (length descs) batch') ++ others)).
Proof.
  intros Hw Happ (done & rest & -> & Hl & Hdf & Hsame & Hrest) Hroom.
  assert (Hdrop : drop (length descs) ((Ready <$> done) ++ rest) = rest).
  { rewrite Hl. apply drop_app_length'. by rewrite length_fmap. }
  assert (Hlen : (length descs ≤ length batch)%nat).
  { apply (f_equal length) in Hsame. rewrite !length_fmap, length_app, length_fmap in Hsame. lia. }
  assert (Hframes : Forall (λ o, is_Some o) (take (length descs) (slot_frame pkt <$> batch)) ∧
    drop (length descs) (slot_frame pkt <$> batch) = slot_frame pkt <$> rest).
  { rewrite <- Hsame, Hl, fmap_app, take_app_length', drop_app_length' by (by rewrite !length_fmap).
    split; [|done]. apply Forall_fmap, Forall_fmap. apply Forall_true. intros t. by eexists. }
  rewrite Hdrop, slot_handles_app, slot_handles_taken. cbn [app].
  apply (f_equal (omap id)) in Hsame. rewrite <- !slot_frames in Hsame.
  rewrite slot_handles_app, slot_handles_ready, fmap_app, <- Hdf in Hsame.
  pose proof (len_nonneg descs). pose proof (len_nonneg (q_tx q)).
  destruct (pring_size _ _ _ _ (wi_tx _ _ _ _ Hw)) as [Hs _]. pose proof (ring_size_pos _ Hs).
  destruct (pring_enqueue _ _ descs _ _ (wi_tx _ _ _ _ Hw)) as (p & m & Henq & Hp); [unfold U32_MAX; lia|].
  rewrite Z.min_l in Henq, Hp by lia. rewrite take_ge in Hp by (unfold len; lia).
  unfold finish_send. destruct (Z.eqb_spec (len descs) 0) as [E0|E0].
  { assert (descs = []) as -> by (apply nil_length_inv; unfold len in E0; lia). cbn in Hl.
    symmetry in Hl. apply nil_length_inv in Hl as ->. eexists _, _. split; [done|]. split; [by destruct e|].
    split_and!; try done; try apply Hframes. rewrite app_nil_r. destruct q as [qf qt qc qr]. apply (winv_app _ _ _ Hw).
    - pose proof (wi_handles _ _ _ _ Hw) as Hh. rewrite Happ in Hh. apply Forall_app in Hh as [_ Ho]. by apply Forall_app.
    - intros a. rewrite Happ. autorewrite with cnt. rewrite <- Hsame. cbn. done. }
  rewrite Henq. run. rewrite Z.eqb_refl. run. destruct (Z.ltb_spec 0 (len descs)); [|lia].
  assert (Hsub : submit_slots (Z.to_nat (len descs)) ((Ready <$> done) ++ rest) = Ret (replicate (length descs) Taken ++ rest)).
  { unfold len. rewrite Nat2Z.id, Hl. apply submit_slots_ok. }
  cbn [set_flight set_tx_ring xs_raw tx_mmap]. rewrite Hsub. run.
  change (xs_in_flight (set_tx_ring (w_sock w) p (commit p m))) with (xs_in_flight (w_sock w)).
  rewrite (flight_bound q w descs Hw) by lia.
  pose proof (winv_submit q w _ _ others descs p _ (saturating_add 64 (xs_since (w_sock w)) (len descs)) Hw Happ
    (eq_sym Hsame) Hrest Hp) as Hfin.
  destruct (_ || _); [destruct wake as [[]|err]|];
    (eexists _, _; split; [done|]; split; [by destruct e|]; split; [apply Hframes|];
     split; [apply Hframes|]; split; [done|]; constructor; apply Hfin).
Qed.
End Send.
