(* ===== verification/LiveSend.v ===== *)
(** * The UDP sends of a live socket, whole

    The endpoint path's cached header stays well formed, both send paths
    return, and both only move frames of accepted packets into the TX ring. *)
From S2P Require Import Prelude Bits Core Buffer Umem Window PacketBuf PacketBufProofs Ring RingProofs.
From S2P Require Import PoptrieEmit Wire WireProofs XdpUdp XdpUdpMain Reclaim ReclaimProofs.
From S2P Require Import Live LiveRing LiveProofs LiveTx.
Open Scope Z_scope.

(** ** Cached headers *)
Record cache_ok (c : XdpUdpEndpointCache) : Prop := mkCacheOk {
  ck_l2 : 0 ≤ ec_l2_len c;
  ck_len : len (ec_header c) = ec_l2_len c + 28;
  ck_bytes : bytes_ok (ec_header c);
}.

Lemma bytes_insert l i x : bytes_ok l → fits 8 x → bytes_ok (<[i := x]> l).
Proof. intros. by apply Forall_insert. Qed.

Lemma write_be_u16_ok l off v : bytes_ok l → fits 16 v → 0 ≤ off → off + 1 < len l →
  ∃ l', write_be_u16 l off v = Ret l' ∧ len l' = len l ∧ bytes_ok l'.
Proof.
  intros Hl Hv Ho Hb. unfold write_be_u16. pose proof (to_be16_bytes v Hv) as Hv8. apply Forall_cons in Hv8 as [H1 _].
  rewrite set_index_ok by lia. run. rewrite set_index_ok by (rewrite len_insert; lia). eexists. split; [done|].
  rewrite !len_insert. split; [done|]. apply bytes_insert; [by apply bytes_insert|apply land_byte].
Qed.

Lemma update_header_ok cache info k : cache_ok cache → 0 ≤ k →
  ∃ r, update_xdp_udp_endpoint_header cache info k = Ret r ∧
    match r with Ok c => cache_ok c ∧ ec_l2_len c = ec_l2_len cache | Err _ => True end.
Proof.
  intros [Hl2 Hlen Hb] Hk. unfold update_xdp_udp_endpoint_header.
  destruct (validate_xdp_udp_endpoint_payload info k); [|by eexists]. destruct (ei_payload_len info); [by eexists|].
  unfold patch_xdp_udp_endpoint_header_lengths. destruct (U16_MAX <? _) eqn:E; [by eexists|].
  destruct (read_be_u16_total (ec_header cache) (ec_l2_len cache + 2)) as (t & -> & Ht); [done|lia|lia|].
  destruct (read_be_u16_total (ec_header cache) (ec_l2_len cache + 10)) as (c & -> & Hc); [done|lia|lia|]. run.
  destruct (write_be_u16_ok (ec_header cache) (ec_l2_len cache + 2) (u16 (k + UDP_HEADER_LEN + IPV4_MIN_HEADER_LEN)))
    as (h1 & -> & Hl1 & Hb1); [done|apply wrap_fits; lia|lia|lia|]. run.
  destruct (write_be_u16_ok h1 (ec_l2_len cache + 10)
    (ipv4_checksum_replace_word c t (u16 (k + UDP_HEADER_LEN + IPV4_MIN_HEADER_LEN)))) as (h2 & -> & Hl3 & Hb2); [done| |lia|lia|].
  { unfold ipv4_checksum_replace_word, bnot. match goal with |- context [u16 ?x] => pose proof (wrap_fits 16 x ltac:(lia)) end.
    unfold fits in *. lia. }
  run. destruct (write_be_u16_ok h2 (ec_l2_len cache + 24) (u16 (k + UDP_HEADER_LEN))) as (h3 & -> & Hl4 & Hb3);
    [done|apply wrap_fits; lia|lia|lia|]. run. eexists. split; [done|]. cbn. split; [|done]. constructor; cbn; [done|lia|done].
Qed.

Section Refresh.
Context {R : Type} `{XdpUdpRouter R} (router : R).
Context (local_ip local_port ttl : Z) (Hsock : socket_ok local_ip local_port ttl).
Context (context : XdpRouteContext) (Hrouter : router_ok router context) (Hbytes : router_bytes router context).

Definition spec_ok (spec : UdpEndpointSpec) : Prop :=
  meta_ok (sp_destination spec) (sp_source_ip spec) (sp_source_port spec).
Definition endpoint_ok (ep : XdpUdpEndpoint) : Prop :=
  spec_ok (xe_spec ep) ∧ match xe_cached ep with Some c => cache_ok c | None => True end.

Lemma build_cache_total gen spec : spec_ok spec →
  ∃ r, build_xdp_udp_endpoint_cache router local_ip local_port ttl context gen spec = Ret r ∧
    match r with Ok (c, _) => cache_ok c | Err _ => True end.
Proof.
  intros Hspec. unfold build_xdp_udp_endpoint_cache, spec_ok in *.
  destruct (sp_destination spec) as [ip port|]; [|by eexists].
  destruct (source_v4 local_ip (sp_source_ip spec)) as [sip|] eqn:Hs; [|by eexists].
  destruct (sp_gso_segment_size spec); [by eexists|].
  destruct (Hrouter ip (proj1 (proj1 Hspec))) as (o & Ho & Hl2). rewrite Ho. run. destruct o as [res|]; [|by eexists].
  destruct Hl2 as [l2 Hl2]. destruct (checked_sub _ _); [|by eexists]. cbv zeta.
  destruct (validate_xdp_udp_endpoint_payload _ _); [|by eexists]. destruct (U16_MAX <? _); [by eexists|].
  rewrite Hl2. run. set (f := mkFields _ _ _ _ _ _ _ _). assert (Hf : fields_ok f).
  { destruct Hsock as [H1 H2 H3]. destruct Hspec as ([Hd Hdp] & Hsip & Hsp). unfold fields_ok, f. cbn.
    split_and!; try done; try (apply wrap_fits; lia); try (by destruct (sp_source_port spec));
      (destruct (sp_source_ip spec) as [[]|]; simplify_eq/=; done). }
  rewrite write_headers_ok by done. run. eexists. split; [done|]. pose proof (len_nonneg l2). constructor; cbn [ec_l2_len ec_header].
  - done.
  - by rewrite len_app.
  - apply Forall_app. split; [by apply (Hbytes ip res l2 (proj1 (proj1 Hspec)))|exact (header_bytes f Hf)].
Qed.

Lemma refresh_ok ep : endpoint_ok ep →
  ∃ ep' r, refresh_udp_endpoint_cache router local_ip local_port ttl context ep = Ret (ep', r) ∧ endpoint_ok ep' ∧
    match r with Ok _ => ∃ c, xe_cached ep' = Some c | Err _ => True end.
Proof.
  intros [Hspec Hc]. unfold refresh_udp_endpoint_cache.
  destruct (xe_cached ep) as [c|].
  - destruct (Z.eqb_spec (ec_route_generation c) (route_generation router)); cbn [negb].
    + eexists _, _. split; [done|]. split; [by split|]. by exists c.
    + destruct (build_cache_total (route_generation router) (xe_spec ep) Hspec) as ([[c' i]|e] & Hb & Hr); cbn [xe_spec]; rewrite Hb; run;
        (eexists _, _; split; [done|]; split; [by split|]); [by exists c'|done].
  - destruct (build_cache_total (route_generation router) (xe_spec ep) Hspec) as ([[c' i]|e] & Hb & Hr); cbn [xe_spec]; rewrite Hb; run;
      (eexists _, _; split; [done|]; split; [by split|]); [by exists c'|done].
Qed.
End Refresh.

Section Sends.
Context (g : Geometry) (cfg : XdpConfig) (Hg : geometry_ok g) (Hcfg : config_ok g cfg) (debug : bool).
Context {Q : Type} `{Hq : ArrayQueue Q Z, !ArrayQueueLaws Q Z}.
Implicit Types (w : World (Q := Q)).

Lemma prepare_endpoint_slots_ok size info : ∀ limit mem cache batch bytes,
  len mem = size → bytes_ok mem → cache_ok cache → Forall (handle_ok g cfg size) (slot_handles et_packet batch) →
  ∃ mem' cache' batch' descs bytes' e,
    prepare_endpoint_slots limit mem cache info batch bytes = Ret (mem', cache', batch', descs, bytes', e) ∧
    len mem' = size ∧ bytes_ok mem' ∧ cache_ok cache' ∧ (length descs ≤ limit)%nat ∧
    prepared g cfg et_packet size batch batch' descs.
Proof.
  pose proof (fs_pos g Hg). pose proof (fs_bound g Hg).
  induction limit as [|limit IH]; intros mem cache batch bytes Hm Hb Hc Hh; cbn [prepare_endpoint_slots].
  { eexists _, _, _, _, _, _. split; [done|]. split_and!; try done. by apply prepared_nil. }
  destruct batch as [|[tx|] batch].
  { eexists _, _, _, _, _, _. split; [done|]. split_and!; try done; [cbn; lia|]. by apply prepared_nil. }
  2:{ cbn [prepare_endpoint_slot]. run. eexists _, _, _, _, _, _. split; [done|]. split_and!; try done; [cbn; lia|]. by apply prepared_nil. }
  unfold slot_handles in Hh. cbn in Hh. apply Forall_cons in Hh as [Htx Hh]. fold (slot_handles et_packet batch) in Hh.
  pose proof (handle_capacity g cfg Hcfg size _ Htx) as Hcap. destruct (Htx) as (pool & a & Hst & Hpool & Hctx & Harm & Hok).
  pose proof (io_packet _ _ (Hok mem Hm)) as Hpk. pose proof (io_end _ _ (Hok mem Hm)).
  unfold prepare_endpoint_slot.
  destruct (update_header_ok cache info (buf_len (et_packet tx)) Hc) as ([c1|e1] & Hu & Hr); [unfold buf_len; lia| |]; rewrite Hu; run.
  2:{ eexists _, _, _, _, _, _. split; [done|]. split_and!; try done; [cbn; lia|]. by apply prepared_stop. }
  destruct Hr as [Hc1 _]. pose proof (ck_len _ Hc1) as Hlen1. pose proof (ck_l2 _ Hc1).
  destruct (prepare_tx_frame_total mem (et_packet tx) (ec_header c1) (Hok mem Hm)) as
    [(a' & mem1 & Hst' & Hroom & Hrun & Hok1 & Hout & _)|Hnone]; [unfold U32_MAX; lia| |].
  - rewrite Hst in Hst'. injection Hst' as <-. rewrite Hrun. run.
    pose proof (prepare_frame_keeps _ _ _ _ _ _ a Hst Hrun) as [_ Hb1]. destruct Hout as [Hl1 _].
    match goal with |- context [prepare_endpoint_slots limit mem1 c1 info batch ?b] =>
      destruct (IH mem1 c1 batch b) as (mem2 & c2 & batch2 & descs & bytes2 & e & Hrun2 & Hm2 & Hb2 & Hc2 & Hl2 & Hp2) end;
      [congruence|apply Hb1; [done|apply Hc1]|done|done|].
    rewrite Hrun2. run. eexists _, _, _, _, _, _. split; [done|]. split_and!; try done; [cbn; lia|].
    apply prepared_cons; [done|done|]. unfold desc_frame, haddr. cbn [xd_addr tf_desc_addr]. rewrite Hst.
    rewrite <- Z.add_sub_assoc. apply frame_of_offset; [|lia]. by destruct (pool_frame_in g Hg pool a Hpool).
  - rewrite Hnone. run. eexists _, _, _, _, _, _. split; [done|]. split_and!; try done; [cbn; lia|]. by apply prepared_stop.
Qed.

(** Reordering the application's buffers. *)
Lemma winv_perm q w app : winv g cfg q w → Permutation (w_app w) app → winv g cfg q (with_app w (w_sock w) app).
Proof.
  intros Hw Hp. apply winv_app; [done| |].
  - pose proof (wi_handles _ _ _ _ Hw) as Hh. by rewrite Hp in Hh.
  - intros a. apply perm_cnt. by rewrite Hp.
Qed.

(** What a send does: exactly the accepted packets' slots are taken, the rest
    keep their packets; the accepted packets' frames enter the TX ring. *)
Definition sent {T} (pkt : T → XdpPacketBufInner) (q' : Queues) w (others : list XdpPacketBufInner) (s : XdpSocket Q)
    (batch batch' : list (TxSlot T)) (r : result Z SendError) : Prop :=
  winv g cfg q' (with_app w s (slot_handles pkt batch' ++ others)) ∧ 0 ≤ accepted_of r ≤ len batch ∧
  let k := Z.to_nat (accepted_of r) in
  Forall (λ o, is_Some o) (take k (slot_frame pkt <$> batch)) ∧
  slot_frame pkt <$> batch' = replicate k None ++ drop k (slot_frame pkt <$> batch).

(** Nothing was sent. *)
Lemma sent_nothing {T} (pkt : T → XdpPacketBufInner) q w others s batch r :
  winv g cfg q (with_app w s (slot_handles pkt batch ++ others)) → accepted_of r = 0 → sent pkt q w others s batch batch r.
Proof. intros Hw Hr. unfold sent. rewrite Hr. pose proof (len_nonneg batch). split_and!; try done; lia. Qed.

Lemma slot_frame_taken {T} (pkt : T → XdpPacketBufInner) k : slot_frame pkt <$> replicate k Taken = replicate k None.
Proof. by rewrite fmap_replicate. Qed.

Lemma finish_sent {T} (pkt : T → XdpPacketBufInner) wake q w others batch batch' descs bytes e :
  winv g cfg q w → w_app w = slot_handles pkt batch ++ others →
  prepared g cfg pkt (mem_size w) batch batch' descs → len descs ≤ sz_tx (cf_rings cfg) - len (q_tx q) →
  ∃ s batch2 r q', finish_send cfg wake (w_sock w) batch' descs bytes e = Ret (s, batch2, r) ∧
    sent pkt q' w others s batch batch2 r.
Proof.
  intros Hw Happ Hp Hroom.
  destruct (finish_send_ok g cfg Hg pkt wake q w others batch batch' descs bytes e Hw Happ Hp Hroom)
    as (s & r & Hrun & Hacc & Hr1 & Hr2 & Hr3 & Hw').
  eexists _, _, _, _. split; [exact Hrun|]. split; [exact Hw'|]. rewrite Hacc. unfold len. rewrite Nat2Z.id.
  split; [lia|]. split; [done|]. by rewrite fmap_app, slot_frame_taken, Hr2.
Qed.

Lemma app_split q w app others : winv g cfg q w → w_app w = app ++ others → Forall (handle_ok g cfg (mem_size w)) app.
Proof. intros Hw Happ. pose proof (wi_handles _ _ _ _ Hw) as Hh. rewrite Happ in Hh. by apply Forall_app in Hh as [? _]. Qed.

Section WithRouter.
Context {R : Type} `{XdpUdpRouter R} (router : R).
Context (local_ip local_port ttl : Z) (Hsock : socket_ok local_ip local_port ttl).
Let context := mkRouteContext (cf_ifindex cfg) (cf_queue cfg) (cf_mtu cfg).
Context (Hrouter : router_ok router context) (Hbytes : router_bytes router context).

Lemma send_udp_ok wake q w batch others :
  winv g cfg q w → Permutation (w_app w) (slot_handles ut_packet batch ++ others) → Forall udp_slot_ok batch →
  ∃ s batch' r q', send_udp_inner debug cfg router local_ip local_port ttl wake (w_sock w) batch = Ret (s, batch', r) ∧
    sent ut_packet q' w others s batch batch' r.
Proof.
  intros Hw0 Hp Hmeta. apply (winv_perm _ _ _ Hw0) in Hp as Hw. clear Hp. unfold send_udp_inner.
  destruct (reserve_tx_ok g cfg Hg Hcfg debug q _ Hw) as (s1 & q1 & Hr & Hw1 & Htx). cbn [with_app w_sock] in Hr.
  rewrite Hr. run. set (room := sz_tx (cf_rings cfg) - len (q_tx q)) in *.
  destruct (Z.eqb_spec room 0).
  { run. eexists _, _, _, q1. split; [done|]. apply sent_nothing; done. }
  pose proof (app_split _ _ _ others Hw1 eq_refl) as Hh.
  destruct (prepare_udp_slots_ok g cfg Hg Hcfg router local_ip local_port ttl context _ Hsock Hrouter Hbytes
    (Z.to_nat (Z.min (len batch) room)) _ batch 0 eq_refl (wi_bytes _ _ _ _ Hw1) Hh Hmeta)
    as (mem & batch1 & descs & bytes & e & Hprep & Hm & Hb & Hl & Hpr).
  cbn [with_sock with_app w_sock] in Hprep. fold context. rewrite Hprep. run.
  pose proof (winv_mem g cfg q1 _ mem Hw1 Hm Hb) as Hw2.
  destruct (finish_sent ut_packet wake q1 _ others batch batch1 descs bytes e Hw2 eq_refl) as (s2 & batch2 & r & q2 & Hf & Hs).
  { unfold mem_size. cbn. by rewrite Hm. }
  { rewrite Htx. fold room. pose proof (pring_size _ _ _ _ (wi_tx _ _ _ _ Hw)) as [_ ?]. unfold len in *. lia. }
  cbn [with_sock with_app w_sock] in Hf. rewrite Hf. eexists _, _, _, _. split; [done|]. exact Hs.
Qed.

Lemma send_udp_endpoint_ok wake q w ep batch others :
  winv g cfg q w → Permutation (w_app w) (slot_handles et_packet batch ++ others) → endpoint_ok ep →
  ∃ s ep' batch' r q',
    send_udp_endpoint_inner debug cfg router local_ip local_port ttl wake (w_sock w) ep batch = Ret (s, ep', batch', r) ∧
    endpoint_ok ep' ∧ sent et_packet q' w others s batch batch' r.
Proof.
  intros Hw0 Hp Hep. apply (winv_perm _ _ _ Hw0) in Hp as Hw. clear Hp. unfold send_udp_endpoint_inner.
  destruct (refresh_ok router local_ip local_port ttl Hsock context Hrouter Hbytes ep Hep) as (ep1 & r1 & He & Hep1 & Hc).
  fold context. rewrite He. run. destruct r1 as [[]|err].
  2:{ eexists _, _, _, _, q. split; [done|]. split; [done|]. by apply sent_nothing. }
  destruct Hc as [c Hc].
  destruct (reserve_tx_ok g cfg Hg Hcfg debug q _ Hw) as (s1 & q1 & Hr & Hw1 & Htx). cbn [with_app w_sock] in Hr.
  rewrite Hr. run. set (room := sz_tx (cf_rings cfg) - len (q_tx q)) in *.
  destruct (Z.eqb_spec room 0).
  { run. eexists _, _, _, _, q1. split; [done|]. split; [done|]. by apply sent_nothing. }
  rewrite Hc. pose proof (app_split _ _ _ others Hw1 eq_refl) as Hh. destruct Hep1 as [Hspec Hcache]. rewrite Hc in Hcache.
  destruct (prepare_endpoint_slots_ok _ (xe_info ep1) (Z.to_nat (Z.min (len batch) room)) _ c batch 0 eq_refl
    (wi_bytes _ _ _ _ Hw1) Hcache Hh) as (mem & c' & batch1 & descs & bytes & e & Hprep & Hm & Hb & Hc' & Hl & Hpr).
  cbn [with_sock with_app w_sock] in Hprep. rewrite Hprep. run.
  pose proof (winv_mem g cfg q1 _ mem Hw1 Hm Hb) as Hw2.
  destruct (finish_sent et_packet wake q1 _ others batch batch1 descs bytes e Hw2 eq_refl) as (s2 & batch2 & r & q2 & Hf & Hs).
  { unfold mem_size. cbn. by rewrite Hm. }
  { rewrite Htx. fold room. pose proof (pring_size _ _ _ _ (wi_tx _ _ _ _ Hw)) as [_ ?]. unfold len in *. lia. }
  cbn [with_sock with_app w_sock] in Hf. rewrite Hf. run. eexists _, _, _, _, _. split; [done|]. split; [by split|]. exact Hs.
Qed.
End WithRouter.
End Sends.
