(* ===== verification/LiveRx.v ===== *)
(** * The receive side of a live socket

    FILL replenishment and the UDP receive only move receive frames: between
    the free list, the FILL ring and the packets handed to the application. *)
From S2P Require Import Prelude Bits Core Buffer Umem Window PacketBuf PacketBufProofs Ring RingProofs.
From S2P Require Import PoptrieEmit Wire WireProofs XdpUdp XdpUdpMain Reclaim ReclaimProofs.
From S2P Require Import Live LiveRing LiveProofs LiveTx.
Open Scope Z_scope.

(** ** The port filter returns *)
Lemma binary_search_total l x : ∀ fuel lo hi, 0 ≤ lo → lo ≤ hi ≤ len l → hi - lo ≤ Z.of_nat fuel →
  ∃ b, binary_search fuel l lo hi x = Ret b.
Proof.
  induction fuel as [|fuel IH]; intros lo hi Hlo Hhi Hf; cbn [binary_search];
    destruct (Z.ltb_spec lo hi) as [Hlt|Hge]; try lia; try by eexists.
  set (mid := lo + (hi - lo) / 2). assert (Hmid : lo ≤ mid < hi).
  { unfold mid. assert (0 ≤ (hi - lo) / 2 < hi - lo) by (split; [apply Z.div_pos; lia|apply Z.div_lt; lia]). lia. }
  clearbody mid.
  destruct (nthZ_is_Some l mid) as [y Hy]; [lia|]. rewrite (index_Some _ _ _ Hy). run.
  destruct (y =? x); [by eexists|]. destruct (y <? x); apply IH; lia.
Qed.

Lemma udp_accepts_total local_ip a p : ∃ b, udp_accepts local_ip a p = Ret b.
Proof.
  unfold udp_accepts. destruct (negb _); [by eexists|]. destruct a as [port|l|lo hi]; cbn [accepts]; try by eexists.
  pose proof (len_nonneg l). apply binary_search_total; unfold len in *; lia.
Qed.

Section Receive.
Context (g : Geometry) (cfg : XdpConfig) (Hg : geometry_ok g) (Hcfg : config_ok g cfg).
Context {Q : Type} `{Hq : ArrayQueue Q Z, !ArrayQueueLaws Q Z}.
Implicit Types (w : World (Q := Q)).
Abbreviation fs := (g_size g).
Abbreviation n := (g_frames g).
Abbreviation rxn := (g_rx g).

Lemma push_all_ok cap (r : FrameReclaim Q Z) addrs : reclaim_ok cap r → cap < 2 ^ 64 - 1 →
  len (held r) + len addrs ≤ cap →
  ∃ r', push_all r addrs = Ret r' ∧ reclaim_ok cap r' ∧ Permutation (held r') (held r ++ addrs) ∧ rc_cap r ≤ rc_cap r'.
Proof.
  revert r. induction addrs as [|a addrs IH]; intros r Hok Hcap Hlen; cbn [push_all].
  { exists r. rewrite app_nil_r. split_and!; try done; lia. }
  rewrite len_cons in Hlen. pose proof (len_nonneg addrs).
  destruct (reclaim_push_ok cap true r a Hok) as (r1 & -> & Hok1 & Hp1 & Hc1); [lia|]. run.
  destruct (IH r1 Hok1 Hcap) as (r2 & -> & Hok2 & Hp2 & Hc2).
  { assert (len (held r1) = len (held r) + 1); [|lia]. unfold len. rewrite Hp1. cbn. lia. }
  exists r2. split_and!; try done; [|lia]. rewrite Hp2, Hp1. cbn. by rewrite Permutation_middle.
Qed.

(** Distinct receive frames fit the receive pool. *)
Lemma rx_frames_fit q w l : winv g cfg q w → Forall (in_frames fs 0 rxn) l →
  (∀ a, cnt a (held (xs_rx (w_sock w)) ++ l) ≤ 1) → len (held (xs_rx (w_sock w))) + len l ≤ rxn.
Proof.
  intros Hw Hl Hc. rewrite <- len_app. pose proof (go_rx g Hg).
  rewrite <- (Z.sub_0_r rxn). apply (frames_len fs); [apply fs_pos, Hg|lia|by apply nodup_cnt|].
  apply Forall_app. split; [|done]. pose proof (wi_rxclass _ _ _ _ Hw) as Hr. rewrite Forall_app in Hr. apply Hr.
Qed.

(** The frames the FILL ring had no room for go back to the pool. *)
Lemma push_back_ok (r : FrameReclaim Q Z) l k : reclaim_ok rxn r → held r = [] → 0 ≤ k ≤ len l → len l ≤ rxn →
  ∃ r', (if k <? len l then push_all r (drop (Z.to_nat k) l) else Ret r) = Ret r' ∧
    reclaim_ok rxn r' ∧ Permutation (held r') (drop (Z.to_nat k) l) ∧ rc_cap r ≤ rc_cap r'.
Proof.
  intros Hok Hh Hk Hl. pose proof (go_rx g Hg). pose proof (go_frames g Hg) as Hn. destruct (Z.ltb_spec k (len l)).
  - destruct (push_all_ok rxn r (drop (Z.to_nat k) l) Hok) as (r3 & -> & H1 & H2 & H3);
      [unfold U32_MAX in Hn; lia|rewrite Hh, len_drop by lia; change (len (@nil Z)) with 0; lia|].
    exists r3. rewrite Hh in H2. done.
  - exists r. rewrite Hh, drop_ge by (unfold len in *; lia). split_and!; try done; lia.
Qed.

Lemma live_replenish_ok wake q w : winv g cfg q w →
  ∃ s q' r, live_replenish_fill cfg wake (w_sock w) = Ret (s, r) ∧ winv g cfg q' (with_sock w s) ∧ q_rx q' = q_rx q ∧
    (r = Ok tt ∨ r = wake).
Proof.
  intros Hw. unfold live_replenish_fill. destruct (wi_rxp _ _ _ _ Hw) as [Hok Hcap].
  destruct (reclaim_is_empty_ok _ _ Hok) as (rx & -> & Hok1 & Hp1 & Hc1). run.
  pose proof (go_rx g Hg) as Hrx. pose proof (go_frames g Hg) as Hn.
  pose proof (wi_rxclass _ _ _ _ Hw) as Hclass. rewrite !Forall_app in Hclass. destruct Hclass as (Hc_held & Hc_fill & Hc_krx & Hc_rx).
  assert (Hstep : ∃ s q', (if negb (bool_decide (held (xs_rx (w_sock w)) = [])) then
      '(rx, scratch) ← reclaim_drain_into rx [];
      '(written, p, m) ← replenish_fill_batch (fill_prod (xs_raw (w_sock w))) (fill_mmap (xs_raw (w_sock w)))
                           (sz_fill (cf_rings cfg)) scratch;
      rx ← (if written <? len scratch then push_all rx (drop (Z.to_nat written) scratch) else Ret rx);
      Ret (set_pools (set_fill (w_sock w) p m) rx (xs_tx (w_sock w)))
    else Ret (set_pools (w_sock w) rx (xs_tx (w_sock w)))) = Ret s ∧ winv g cfg q' (with_sock w s) ∧ q_rx q' = q_rx q).
  2:{ destruct Hstep as (s & q' & -> & Hw' & Hq'). run. destruct (needs_wakeup _).
      - exists s, q', wake. split_and!; try done. by right.
      - exists s, q', (Ok tt). split_and!; try done. by left. }
  destruct (bool_decide_reflect (held (xs_rx (w_sock w)) = [])) as [He|He]; cbn [negb].
  - eexists _, q. split; [done|]. split; [|done]. constructor; try apply Hw; cbn.
    + split; [done|lia].
    + rewrite !Forall_app. rewrite Hp1. done.
    + apply (places_move g cfg q w); [done|]. intros a. pose proof (proj1 (perm_cnt _ _) Hp1 a). unfold places. cbn. autorewrite with cnt. lia.
  - destruct (reclaim_drain_into_ok _ rx [] Hok1) as (r2 & -> & Hok2 & Hh2 & Hc2). run.
    pose proof (rx_frames_fit q w [] Hw ltac:(done)) as Hfit.
    assert (Hheld : len (held rx) = len (held (xs_rx (w_sock w)))) by (unfold len; by rewrite Hp1).
    assert (Hle : len (held rx) ≤ rxn).
    { rewrite Hheld. change (len (@nil Z)) with 0 in Hfit. rewrite Z.add_0_r in Hfit. apply Hfit. intros a.
      rewrite app_nil_r. pose proof (winv_cnt g cfg Hg q w a Hw) as Hc. unfold places in Hc. autorewrite with cnt in Hc.
      revert Hc. cnt_pos_facts. lia. }
    cbn [app]. destruct (pring_replenish _ _ (held rx) _ _ (wi_fill _ _ _ _ Hw)) as (p & m & -> & Hp); [lia|]. run.
    set (k := Z.min _ _) in *. pose proof (pring_size _ _ _ _ (wi_fill _ _ _ _ Hw)) as [_ Hfl].
    pose proof (len_nonneg (held rx)). assert (Hk : 0 ≤ k ≤ len (held rx)) by lia.
    destruct (push_back_ok r2 (held rx) k Hok2 Hh2 Hk Hle) as (r3 & -> & Hok3 & Hp3 & Hc3). run.
    rewrite <- (take_drop (Z.to_nat k) (held rx)) in Hp1.
    assert (Hcl : Forall (in_frames fs 0 rxn) (take (Z.to_nat k) (held rx) ++ drop (Z.to_nat k) (held rx))) by (by rewrite Hp1).
    apply Forall_app in Hcl as [Hcl1 Hcl2].
    eexists _, (mkQueues (q_fill q ++ take (Z.to_nat k) (held rx)) (q_tx q) (q_comp q) (q_rx q)). split; [done|]. split; [|done].
    constructor; try apply Hw; cbn.
    + done.
    + split; [done|lia].
    + rewrite !Forall_app. rewrite Hp3. done.
    + apply (places_move g cfg q w); [done|]. intros a. pose proof (proj1 (perm_cnt _ _) Hp1 a) as E1.
      pose proof (proj1 (perm_cnt _ _) Hp3 a) as E3. unfold places. cbn. autorewrite with cnt in *. lia.
Qed.

(** ** Receiving *)
Definition with_krx w (s : XdpSocket Q) (app : list XdpPacketBufInner) (krx : list Z) : World :=
  mkWorld s app krx (w_ktx w).

(** The descriptor at the head of those in hand, with its bytes. *)
Lemma desc_slice_ok q w d krx : winv g cfg q w → w_krx w = desc_frame g d :: krx → desc_ok g d →
  ∃ frame, descriptor_slice (xs_umem (w_sock w)) (xd_addr d) (xd_len d) = Some (desc_frame g d, frame) ∧ bytes_ok frame ∧
    len frame = xd_len d.
Proof.
  intros Hw Hk (Ha & Hl & Hle). pose proof (fs_pos g Hg).
  pose proof (wi_rxclass _ _ _ _ Hw) as Hc. rewrite Hk, !Forall_app, Forall_cons in Hc. destruct Hc as (_ & _ & [[Hm Hr] _] & _).
  set (u := xs_umem (w_sock w)). pose proof (wi_umem _ _ _ _ Hw) as Hu. pose proof (wi_fs _ _ _ _ Hw) as Hfs.
  pose proof (wi_count _ _ _ _ Hw) as Hcount. fold u in Hu, Hfs, Hcount. pose proof (go_rx g Hg).
  set (i := xd_addr d / fs) in *. assert (Hd : xd_addr d = fs * i + xd_addr d mod fs) by (apply Z.div_mod; lia).
  pose proof (Z.mod_pos_bound (xd_addr d) fs ltac:(lia)) as Hmod. unfold desc_frame, frame_of in *.
  assert (Hi : 0 ≤ i < n) by nia.
  destruct (validated_range_in u i (xd_addr d) (xd_len d) Hu) as (Hq' & Hv & Hlen); rewrite ?Hfs, ?Hcount; try lia.
  unfold descriptor_slice. rewrite frame_addr_for_desc_eq by done. rewrite Hfs in *. rewrite Hcount, Hq'.
  destruct (Z.ltb_spec i n); [|lia]. cbn [mbind option_bind]. rewrite Hv. cbn [mbind option_bind fst snd].
  rewrite slice_window by lia. eexists. cbn [mbind option_bind]. split; [do 2 f_equal; lia|]. split; [|by apply len_window].
  unfold window. apply Forall_take, Forall_drop, Hw.
Qed.

(** A frame in hand goes back to the receive pool. *)
Lemma push_rx_ok q w f krx : winv g cfg q w → w_krx w = f :: krx →
  ∃ s, push_rx (w_sock w) f = Ret s ∧ winv g cfg q (with_krx w s (w_app w) krx).
Proof.
  intros Hw Hk. unfold push_rx. destruct (wi_rxp _ _ _ _ Hw) as [Hok Hcap]. pose proof (go_frames g Hg) as Hn. pose proof (go_rx g Hg).
  pose proof (wi_rxclass _ _ _ _ Hw) as Hc. rewrite Hk, !Forall_app, Forall_cons in Hc. destruct Hc as (Hc1 & Hc2 & [Hf Hc3] & Hc4).
  assert (Hfit : len (held (xs_rx (w_sock w))) + len [f] ≤ rxn).
  { apply (rx_frames_fit q w [f] Hw); [by constructor|]. intros a. pose proof (winv_cnt g cfg Hg q w a Hw) as Hcnt.
    unfold places in Hcnt. rewrite Hk in Hcnt. autorewrite with cnt in *. revert Hcnt. cnt_pos_facts. lia. }
  change (len [f]) with 1 in Hfit.
  destruct (reclaim_push_ok rxn true (xs_rx (w_sock w)) f Hok) as (r & -> & Hok' & Hp & Hc'); [unfold U32_MAX in Hn; lia|]. run.
  eexists. split; [done|]. constructor; try apply Hw; cbn.
  - split; [done|lia].
  - rewrite !Forall_app, Hp, Forall_cons. done.
  - apply (places_move g cfg q w); [done|]. intros a. pose proof (proj1 (perm_cnt _ _) Hp a) as E. unfold places. cbn. rewrite Hk.
    autorewrite with cnt in *. lia.
Qed.

(** A frame in hand becomes a packet of the application. *)
Lemma wrap_rx_ok q w d krx off k p : winv g cfg q w → w_krx w = desc_frame g d :: krx → desc_ok g d → 0 ≤ k → 0 ≤ off →
  wrap_rx_frame (Some (xs_umem (w_sock w))) (cf_rx_ctx cfg) (xd_addr d) off k = Some p →
  winv g cfg q (with_krx w (w_sock w) (w_app w ++ [p]) krx).
Proof.
  intros Hw Hk (Ha & Hl & Hle) Hk0 Hoff Hwrap. pose proof (fs_pos g Hg). pose proof (go_rx g Hg).
  pose proof (wi_rxclass _ _ _ _ Hw) as Hc. rewrite Hk, !Forall_app, Forall_cons in Hc. destruct Hc as (Hc1 & Hc2 & [Hf Hc3] & Hc4).
  unfold wrap_rx_frame in Hwrap. cbn [mbind option_bind] in Hwrap. rewrite (wi_fs _ _ _ _ Hw) in Hwrap.
  destruct (negb _); [done|]. unfold checked_add in Hwrap.
  destruct (_ <? 2 ^ 64); [|done]. cbn [mbind option_bind] in Hwrap.
  destruct (Z.ltb_spec (xd_addr d - (xd_addr d - xd_addr d mod fs) + off) (l2_headroom (bc_layout (cf_rx_ctx cfg)))); [done|].
  destruct (_ <? 2 ^ 64); [|done]. cbn [mbind option_bind] in Hwrap.
  destruct (Z.ltb_spec fs (xd_addr d - (xd_addr d - xd_addr d mod fs) + off + k)); [done|]. injection Hwrap as <-.
  fold (frame_of fs (xd_addr d)) in *. fold (desc_frame g d) in *.
  pose proof (co_ctx g cfg Hcfg RxPool) as Hctx. pose proof (co_l2 g cfg Hcfg RxPool) as Hl2. cbn [pool_ctx] in Hctx, Hl2.
  constructor; try apply Hw; cbn.
  - apply Forall_app. split; [apply Hw|]. apply Forall_singleton. exists RxPool, (desc_frame g d). split_and!; try done.
    intros mem Hmem. constructor; unfold bi_capacity; cbn; rewrite ?Hctx; try lia.
    destruct Hf as [Hm Hr]. split; [lia|]. destruct (wi_umem _ _ _ _ Hw) as (_ & _ & Hu). unfold umem_len in Hu.
    rewrite (wi_fs _ _ _ _ Hw), (wi_count _ _ _ _ Hw) in Hu. rewrite Hmem.
    pose proof (Z.div_mod (desc_frame g d) fs ltac:(lia)). assert (desc_frame g d / fs < rxn) by (apply Z.div_lt_upper_bound; lia). nia.
  - rewrite !Forall_app. done.
  - apply (places_move g cfg q w); [done|]. intros a. unfold places. cbn. rewrite Hk. autorewrite with cnt. unfold haddr at 2. cbn. lia.
Qed.

Lemma winv_count q w stats : winv g cfg q w → winv g cfg q (with_sock w (set_stats (w_sock w) stats)).
Proof. intros Hw. constructor; apply Hw. Qed.

(** A frame in hand that is not delivered. *)
Lemma recv_drop_ok q w stats f krx : winv g cfg q w → w_krx w = f :: krx →
  ∃ s, push_rx (set_stats (w_sock w) stats) f = Ret s ∧ winv g cfg q (with_krx w s (w_app w) krx).
Proof. intros Hw Hk. exact (push_rx_ok q _ f krx (winv_count q w stats Hw) Hk). Qed.

Lemma recv_udp_loop_ok local_ip ports q descs : ∀ w out delivered krx,
  winv g cfg q w → w_krx w = (desc_frame g <$> descs) ++ krx → Forall (desc_ok g) descs →
  len (rb_items out) + len descs ≤ rb_capacity out →
  ∃ s items, recv_udp_loop cfg local_ip ports (w_sock w) descs out delivered
    = Ret (s, mkRecvBatch (rb_items out ++ items) (rb_capacity out), Ok (delivered + len items)) ∧
    len items ≤ len descs ∧ winv g cfg q (with_krx w s (w_app w ++ (ur_packet <$> items)) krx).
Proof.
  induction descs as [|d descs IH]; intros w out delivered krx Hw Hk Hd Hcap; cbn [recv_udp_loop].
  { exists (w_sock w), []. rewrite app_nil_r, Z.add_0_r. destruct out. cbn. rewrite app_nil_r. split_and!; try done.
    cbn in Hk. rewrite <- Hk. by destruct w. }
  apply Forall_cons in Hd as [Hdd Hd]. cbn in Hk. rewrite len_cons in Hcap |- *.
  assert (Hskip : ∀ stats, ∃ s items,
    (s ← push_rx (set_stats (w_sock w) stats) (desc_frame g d); recv_udp_loop cfg local_ip ports s descs out delivered)
    = Ret (s, mkRecvBatch (rb_items out ++ items) (rb_capacity out), Ok (delivered + len items)) ∧
    len items ≤ len descs + 1 ∧ winv g cfg q (with_krx w s (w_app w ++ (ur_packet <$> items)) krx)).
  { intros stats. destruct (recv_drop_ok q w stats _ _ Hw Hk) as (s1 & -> & Hw1). run.
    destruct (IH _ out delivered krx Hw1 eq_refl Hd ltac:(lia)) as (s2 & items & E & Hl & Hw2).
    exists s2, items. split_and!; [exact E|lia|exact Hw2]. }
  assert (Hskip0 := Hskip (xs_stats (w_sock w))).
  replace (set_stats (w_sock w) (xs_stats (w_sock w))) with (w_sock w) in Hskip0 by (by destruct (w_sock w)).
  destruct (desc_slice_ok q w d _ Hw Hk Hdd) as (frame & -> & Hb & _).
  destruct (parse_eth_udp_total frame Hb) as (r & -> & Hr). run. destruct r as [parsed| |]; [|apply Hskip|apply Hskip0].
  destruct (udp_accepts_total local_ip ports parsed) as ([] & ->); run; cbn [negb]; [|apply Hskip0].
  destruct (wrap_rx_frame _ _ _ _ _) as [p|] eqn:Hwrap; [|apply Hskip].
  destruct Hr as (Hr1 & Hr2 & _). unfold rb_push, rb_len. pose proof (len_nonneg descs).
  destruct (Z.leb_spec (rb_capacity out) (len (rb_items out))); [lia|].
  assert (Hoff : 0 ≤ pu_payload_offset parsed) by lia.
  pose proof (wrap_rx_ok q w d _ _ _ p Hw Hk Hdd Hr1 Hoff Hwrap) as Hw1.
  apply (winv_count q _ (stats_received (xs_stats (w_sock w)) (pu_ip_len parsed))) in Hw1.
  set (item := mkUdpReceive p (udp_recv_meta parsed)).
  destruct (IH _ (mkRecvBatch (rb_items out ++ [item]) (rb_capacity out)) (delivered + 1) krx Hw1 eq_refl Hd)
    as (s2 & items & E & Hl & Hw2); [cbn; rewrite len_snoc; lia|].
  exists s2, (item :: items). rewrite len_cons. cbn in E, Hw2 |- *. rewrite <- app_assoc in E, Hw2. cbn in E, Hw2.
  split_and!; [|lia|exact Hw2]. rewrite E. do 3 f_equal. lia.
Qed.

(** Descriptors drained from the RX ring are in hand. *)
Lemma drain_rx_live q w max : winv g cfg q w → 0 ≤ max →
  ∃ k c m descs krx, drain_rx (rx_cons (xs_raw (w_sock w))) (rx_mmap (xs_raw (w_sock w))) (sz_rx (cf_rings cfg))
      (sz_rx (cf_rings cfg)) max [] = Ret (k, c, m, descs) ∧ k = len descs ∧ len descs ≤ max ∧
    krx = w_krx w ∧ Forall (desc_ok g) descs ∧ q_rx q = descs ++ drop (length descs) (q_rx q) ∧
    winv g cfg (mkQueues (q_fill q) (q_tx q) (q_comp q) (drop (length descs) (q_rx q)))
      (with_krx w (set_rx_ring (w_sock w) c m) (w_app w) ((desc_frame g <$> descs) ++ krx)).
Proof.
  intros Hw Hmax. destruct (cring_size _ _ _ _ (wi_rx _ _ _ _ Hw)) as [Hs Hlq]. pose proof (ring_size_pos _ Hs).
  destruct (cring_drain_rx _ _ _ _ (sz_rx (cf_rings cfg)) max (wi_rx _ _ _ _ Hw) Hmax) as (c & m & E & Hc); [unfold U32_MAX; lia|].
  set (k := Z.min _ _) in *. pose proof (len_nonneg (q_rx q)).
  assert (Hk : 0 ≤ k ≤ len (q_rx q)) by (unfold k, saturating_sub; lia).
  set (descs := take (Z.to_nat k) (q_rx q)) in *.
  assert (Hl : len descs = k) by (unfold descs; rewrite len_take by lia; lia).
  assert (Hln : length descs = Z.to_nat k) by (unfold len in Hl; lia).
  assert (Hsplit : q_rx q = descs ++ drop (length descs) (q_rx q)) by (rewrite Hln; symmetry; apply take_drop).
  exists k, c, m, descs, (w_krx w). rewrite E. split_and!; try done; [unfold k in Hl; lia| |].
  { apply Forall_take, Hw. }
  constructor; try apply Hw; cbn.
  - by rewrite Hln.
  - pose proof (wi_rxclass _ _ _ _ Hw) as Hcl. rewrite Hsplit, fmap_app in Hcl. rewrite !Forall_app in *. tauto.
  - apply Forall_drop, Hw.
  - apply (places_move g cfg q w); [done|]. intros a. pose proof (f_equal (λ l, cnt a (desc_frame g <$> l)) Hsplit) as Hc2. cbn beta in Hc2.
    unfold places. cbn. autorewrite with cnt in *. lia.
Qed.

(** ** A whole receive

    Both receives replenish, drain, deliver and replenish again; they differ in
    the loop that delivers. *)
Definition recv_with {T} (loop : XdpSocket Q → list XdpDesc → RecvBatch T → outcome (XdpSocket Q * RecvBatch T * result Z Error))
    (wake1 wake2 : result unit string) (s : XdpSocket Q) (out : RecvBatch T) :
    outcome (XdpSocket Q * RecvBatch T * result Z Error) :=
  f ← live_replenish_fill cfg wake1 s;
  match f with
  | (s, Err e) => Ret (s, out, Err (device_error e))
  | (s, Ok _) =>
      '(drained, c, m, descs) ← drain_rx (rx_cons (xs_raw s)) (rx_mmap (xs_raw s)) (sz_rx (cf_rings cfg))
                                  (sz_rx (cf_rings cfg)) (remaining out) [];
      let s := set_rx_ring s c m in
      if drained =? 0 then Ret (s, out, Ok 0)
      else
        l ← loop s descs out;
        match l with
        | (s, out, Err e) => Ret (s, out, Err e)
        | (s, out, Ok delivered) =>
            f ← live_replenish_fill cfg wake2 s;
            Ret (f.1, out, match f.2 with Ok _ => Ok delivered | Err e => Err (device_error e) end)
        end
  end.

(** What delivering the drained descriptors promises. *)
Definition delivers {T} (pkt : T → XdpPacketBufInner)
    (loop : XdpSocket Q → list XdpDesc → RecvBatch T → outcome (XdpSocket Q * RecvBatch T * result Z Error)) : Prop :=
  ∀ q w descs out krx, winv g cfg q w → w_krx w = (desc_frame g <$> descs) ++ krx → Forall (desc_ok g) descs →
  len (rb_items out) + len descs ≤ rb_capacity out →
  ∃ s items, loop (w_sock w) descs out = Ret (s, mkRecvBatch (rb_items out ++ items) (rb_capacity out), Ok (len items)) ∧
    len items ≤ len descs ∧ winv g cfg q (with_krx w s (w_app w ++ (pkt <$> items)) krx).

(** What a receive promises: it delivers at most what fits, the delivered
    packets hold the frames, and only a doorbell's error is reported. *)
Definition received {T} (pkt : T → XdpPacketBufInner) (wake1 wake2 : result unit string) w (out : RecvBatch T)
    (o : outcome (XdpSocket Q * RecvBatch T * result Z Error)) : Prop :=
  ∃ s q' items r, o = Ret (s, mkRecvBatch (rb_items out ++ items) (rb_capacity out), r) ∧
    len (rb_items out) + len items ≤ rb_capacity out ∧
    (r = Ok (len items) ∨ ∃ e, (wake1 = Err e ∨ wake2 = Err e) ∧ r = Err (device_error e)) ∧
    winv g cfg q' (with_app w s (w_app w ++ (pkt <$> items))).

Lemma received_none {T} (pkt : T → XdpPacketBufInner) wake1 wake2 w out s q' r :
  winv g cfg q' (with_sock w s) → len (rb_items out) ≤ rb_capacity out →
  (r = Ok 0 ∨ ∃ e, (wake1 = Err e ∨ wake2 = Err e) ∧ r = Err (device_error e)) →
  received pkt wake1 wake2 w out (Ret (s, out, r)).
Proof.
  intros Hs Hcap Hr. exists s, q', [], r. rewrite !app_nil_r. change (len (@nil T)) with 0. rewrite Z.add_0_r. by destruct out.
Qed.

Lemma recv_with_ok {T} (pkt : T → XdpPacketBufInner) loop wake1 wake2 q w out :
  delivers pkt loop → winv g cfg q w → len (rb_items out) ≤ rb_capacity out →
  received pkt wake1 wake2 w out (recv_with loop wake1 wake2 (w_sock w) out).
Proof.
  intros Hloop Hw Hcap. unfold recv_with.
  destruct (live_replenish_ok wake1 q w Hw) as (s1 & q1 & r1 & -> & Hw1 & Hq1 & Hr1). run.
  destruct r1 as [[]|e1].
  2:{ apply (received_none _ _ _ _ _ _ q1); [done|done|]. right. exists e1. destruct Hr1 as [|<-]; [done|]. split; [by left|done]. }
  destruct (drain_rx_live q1 _ (remaining out) Hw1) as (k & c & m & descs & krx & E & -> & Hl & -> & Hd & _ & Hw2);
    [unfold remaining, saturating_sub; lia|].
  cbn [with_sock w_sock] in E. rewrite E. run. destruct (Z.eqb_spec (len descs) 0) as [E0|].
  { assert (descs = []) as -> by (apply nil_length_inv; unfold len in E0; lia).
    apply (received_none _ _ _ _ _ _ _ _ Hw2 Hcap). by left. }
  unfold remaining, rb_len, saturating_sub in Hl.
  destruct (Hloop _ _ descs out _ Hw2 eq_refl Hd ltac:(lia)) as (s3 & items & E3 & Hli & Hw3).
  cbn [with_krx with_sock w_sock] in E3. rewrite E3. run. destruct (live_replenish_ok wake2 _ _ Hw3) as (s4 & q4 & r4 & E4 & Hw4 & _ & Hr4).
  cbn [with_krx with_sock w_sock] in E4. rewrite E4. run. eexists _, q4, items, _. split; [done|]. split; [lia|]. split; [|exact Hw4].
  cbn [snd]. destruct r4 as [[]|e4]; [by left|]. right. exists e4. destruct Hr4 as [|<-]; [done|]. split; [by right|done].
Qed.

Lemma recv_udp_ok local_ip ports wake1 wake2 q w out :
  winv g cfg q w → len (rb_items out) ≤ rb_capacity out →
  received ur_packet wake1 wake2 w out (recv_udp cfg local_ip ports wake1 wake2 (w_sock w) out).
Proof.
  intros Hw Hcap. unfold recv_udp, remaining, rb_len.
  destruct (Z.eqb_spec (saturating_sub (rb_capacity out) (len (rb_items out))) 0).
  { apply (received_none _ _ _ _ _ _ q); [by destruct w|done|by left]. }
  apply (recv_with_ok ur_packet (λ s descs out, recv_udp_loop cfg local_ip ports s descs out 0) wake1 wake2 q w out); [|done|done].
  intros q1 w1 descs out1 krx Hw1 Hk Hd Hc1. exact (recv_udp_loop_ok local_ip ports q1 descs w1 out1 0 krx Hw1 Hk Hd Hc1).
Qed.
End Receive.
