(* ===== verification/LiveSteps.v ===== *)
(** * Steps of a live socket and its environment

    Opening establishes the invariant of [LiveProofs]; the kernel's steps and
    the drop of a buffer keep it. *)
From S2P Require Import Prelude Bits Core Buffer Umem Window PacketBuf PacketBufProofs Ring RingProofs RingMain.
From S2P Require Import PoptrieEmit Wire WireProofs XdpUdp XdpUdpMain Reclaim ReclaimProofs.
From S2P Require Import Live LiveRing LiveProofs LiveTx.
Open Scope Z_scope.

Section Steps.
Context (g : Geometry) (cfg : XdpConfig) (Hg : geometry_ok g) (Hcfg : config_ok g cfg).
Context {Q : Type} `{Hq : ArrayQueue Q Z, !ArrayQueueLaws Q Z}.
Implicit Types (w : World (Q := Q)).
Abbreviation fs := (g_size g).
Abbreviation n := (g_frames g).
Abbreviation rxn := (g_rx g).

(** ** Dropping a buffer *)
Lemma drop_ok owner q w l1 h l2 : winv g cfg q w → w_app w = l1 ++ h :: l2 →
  ∃ s, drop_packet owner (w_sock w) h = Ret s ∧ winv g cfg q (with_app w s (l1 ++ l2)).
Proof.
  intros Hw Happ. pose proof (wi_handles _ _ _ _ Hw) as Hh. rewrite Happ, Forall_app, Forall_cons in Hh.
  destruct Hh as (Hh1 & (pool & a & Hs & Hp & Hc & Ha & Hin) & Hh2).
  pose proof (go_rx g Hg) as Hrx. pose proof (go_frames g Hg) as Hn. pose proof (fs_pos g Hg) as Hfs.
  assert (Hcnt : ∀ x, cnt x (held (xs_rx (w_sock w)) ++ held (xs_tx (w_sock w)) ++ [a]) ≤ 1).
  { intros x. pose proof (winv_cnt g cfg Hg q w x Hw) as Hc1. unfold places in Hc1. rewrite Happ in Hc1.
    unfold haddr in Hc1. autorewrite with cnt in *. rewrite Hs in Hc1. revert Hc1. cnt_pos_facts. lia. }
  assert (Hmove : ∀ s, (∀ x, cnt x (held (xs_rx s)) + cnt x (held (xs_tx s))
      = cnt x (held (xs_rx (w_sock w))) + cnt x (held (xs_tx (w_sock w))) + cnt x [a]) →
    ∀ x, cnt x (places g q (with_app w s (l1 ++ l2))) = cnt x (places g q w)).
  { intros s Hs' x. specialize (Hs' x). unfold places. cbn. rewrite Happ. unfold haddr. autorewrite with cnt in *. rewrite Hs. lia. }
  unfold drop_packet, drop_buffer, reclaim. rewrite Ha, Hs, Hc, (co_ctx g cfg Hcfg pool). cbn [andb negb]. run. cbn [snd].
  destruct pool; cbn [pool_frame] in Hp.
  - destruct (wi_rxp _ _ _ _ Hw) as [Hok Hcap]. pose proof (wi_rxclass _ _ _ _ Hw) as Hcl. rewrite Forall_app in Hcl.
    assert (Hlen : len (held (xs_rx (w_sock w)) ++ [a]) ≤ rxn - 0).
    { apply (frames_len fs); [done|lia| |].
      - apply nodup_cnt. intros x. specialize (Hcnt x). autorewrite with cnt in *. revert Hcnt. cnt_pos_facts. lia.
      - apply Forall_app. split; [apply Hcl|by apply Forall_singleton]. }
    rewrite len_snoc in Hlen.
    destruct (reclaim_push_ok rxn owner (xs_rx (w_sock w)) a Hok) as (r & -> & Hok' & Hperm & Hc'); [unfold U32_MAX in Hn; lia|]. run.
    eexists. split; [done|]. constructor; try apply Hw; cbn; [split; [done|lia]| | |].
    + by apply Forall_app.
    + rewrite Forall_app, Hperm, Forall_cons. tauto.
    + apply (places_move g cfg q w); [done|]. apply Hmove. intros x. pose proof (proj1 (perm_cnt _ _) Hperm x) as E. cbn.
      autorewrite with cnt in *. lia.
  - destruct (wi_txp _ _ _ _ Hw) as [Hok Hcap].
    assert (Hlen : len (held (xs_tx (w_sock w)) ++ [a]) ≤ n - rxn).
    { apply (frames_len fs); [done|lia| |].
      - apply nodup_cnt. intros x. specialize (Hcnt x). autorewrite with cnt in *. revert Hcnt. cnt_pos_facts. lia.
      - apply Forall_app. split; [apply Hw|by apply Forall_singleton]. }
    rewrite len_snoc in Hlen.
    destruct (reclaim_push_ok (n - rxn) owner (xs_tx (w_sock w)) a Hok) as (r & -> & Hok' & Hperm & Hc'); [unfold U32_MAX in Hn; lia|]. run.
    eexists. split; [done|]. constructor; try apply Hw; cbn; [split; [done|lia]| | |].
    + by apply Forall_app.
    + rewrite Hperm, Forall_cons. split; [done|apply Hw].
    + apply (places_move g cfg q w); [done|]. apply Hmove. intros x. pose proof (proj1 (perm_cnt _ _) Hperm x) as E. cbn.
      autorewrite with cnt in *. lia.
Qed.

(** ** The kernel *)
Definition ring_taken {A} (m : RingMem A) (l : list A) : RingMem A :=
  mkRing (producer m) (wrapping_add 32 (consumer m) (len l)) (flags m) (desc m).

Lemma kernel_fill_ok q w l : winv g cfg q w → kernel_takes (sz_fill (cf_rings cfg)) (fill_mmap (xs_raw (w_sock w))) l →
  ∃ q', winv g cfg q' (mkWorld (set_fill (w_sock w) (fill_prod (xs_raw (w_sock w))) (ring_taken (fill_mmap (xs_raw (w_sock w))) l))
    (w_app w) (w_krx w ++ l) (w_ktx w)).
Proof.
  intros Hw Hk. destruct (pring_take _ _ _ _ _ (wi_fill _ _ _ _ Hw) Hk) as (qf & Hqf & Hp).
  exists (mkQueues qf (q_tx q) (q_comp q) (q_rx q)). constructor; try apply Hw; cbn; [exact Hp| |].
  - pose proof (wi_rxclass _ _ _ _ Hw) as Hc. rewrite Hqf in Hc. rewrite !Forall_app in *. tauto.
  - apply (places_move g cfg q w); [done|]. intros a. unfold places. cbn. rewrite Hqf. autorewrite with cnt. lia.
Qed.

Lemma kernel_tx_ok q w l : winv g cfg q w → kernel_takes (sz_tx (cf_rings cfg)) (tx_mmap (xs_raw (w_sock w))) l →
  ∃ q', winv g cfg q' (mkWorld (set_tx_ring (w_sock w) (tx_prod (xs_raw (w_sock w))) (ring_taken (tx_mmap (xs_raw (w_sock w))) l))
    (w_app w) (w_krx w) (w_ktx w ++ (desc_frame g <$> l))).
Proof.
  intros Hw Hk. destruct (pring_take _ _ _ _ _ (wi_tx _ _ _ _ Hw) Hk) as (qt & Hqt & Hp).
  exists (mkQueues (q_fill q) qt (q_comp q) (q_rx q)). constructor; try apply Hw; cbn; [exact Hp| |].
  - apply (places_move g cfg q w); [done|]. intros a. unfold places. cbn. rewrite Hqt. autorewrite with cnt. lia.
  - rewrite (wi_flight _ _ _ _ Hw), Hqt. unfold len. rewrite !length_app, length_fmap. lia.
Qed.

Lemma kernel_rx_ok q w k1 k2 d m : winv g cfg q w → w_krx w = k1 ++ desc_frame g d :: k2 → desc_ok g d →
  kernel_pushes (sz_rx (cf_rings cfg)) (rx_mmap (xs_raw (w_sock w))) m d →
  ∃ q', winv g cfg q' (mkWorld (set_rx_ring (w_sock w) (rx_cons (xs_raw (w_sock w))) m) (w_app w) (k1 ++ k2) (w_ktx w)).
Proof.
  intros Hw Hk Hd Hp. pose proof (cring_push _ _ _ _ _ _ (wi_rx _ _ _ _ Hw) Hp) as Hc.
  exists (mkQueues (q_fill q) (q_tx q) (q_comp q) (q_rx q ++ [d])). constructor; try apply Hw; cbn; [exact Hc| | |].
  - pose proof (wi_rxclass _ _ _ _ Hw) as Hcl. rewrite Hk in Hcl. rewrite fmap_app. rewrite !Forall_app, !Forall_cons in *.
    cbn. rewrite Forall_singleton. tauto.
  - apply Forall_app. split; [apply Hw|by apply Forall_singleton].
  - apply (places_move g cfg q w); [done|]. intros a. unfold places. cbn. rewrite Hk. autorewrite with cnt. lia.
Qed.

Lemma kernel_comp_ok q w k1 k2 a m : winv g cfg q w → w_ktx w = k1 ++ frame_of fs a :: k2 →
  kernel_pushes (sz_completion (cf_rings cfg)) (comp_mmap (xs_raw (w_sock w))) m a →
  ∃ q', winv g cfg q' (mkWorld (set_comp (w_sock w) (comp_cons (xs_raw (w_sock w))) m) (w_app w) (w_krx w) (k1 ++ k2)).
Proof.
  intros Hw Hk Hp. pose proof (cring_push _ _ _ _ _ _ (wi_comp _ _ _ _ Hw) Hp) as Hc.
  exists (mkQueues (q_fill q) (q_tx q) (q_comp q ++ [a]) (q_rx q)). constructor; try apply Hw; cbn; [exact Hc| |].
  - apply (places_move g cfg q w); [done|]. intros x. unfold places. cbn. rewrite Hk. autorewrite with cnt. lia.
  - rewrite (wi_flight _ _ _ _ Hw), Hk. unfold len. rewrite !length_app. cbn. lia.
Qed.

Lemma kernel_flags_ok q w f1 f2 : winv g cfg q w →
  winv g cfg q (with_sock w (set_fill (set_tx_ring (w_sock w) (tx_prod (xs_raw (w_sock w))) (set_flags (tx_mmap (xs_raw (w_sock w))) f1))
    (fill_prod (xs_raw (w_sock w))) (set_flags (fill_mmap (xs_raw (w_sock w))) f2))).
Proof. intros Hw. constructor; try apply Hw; cbn; apply pring_flags, Hw. Qed.

Lemma handles_ok q w app : winv g cfg q w → Forall (handle_ok g cfg (mem_size w)) app →
  haddr <$> app = haddr <$> w_app w → winv g cfg q (with_app w (w_sock w) app).
Proof. intros Hw Ha He. apply winv_app; [done|done|]. intros a. by rewrite He. Qed.
End Steps.

(** ** Opening *)
Definition fresh_ring {A} (size : Z) (m : RingMem A) : Prop :=
  producer m = 0 ∧ consumer m = 0 ∧ len (desc m) = size.

Lemma fresh_ring_eq {A} size (m : RingMem A) : fresh_ring size m → m = mkRing 0 0 (flags m) (desc m).
Proof. destruct m as [p c f d]. unfold fresh_ring. cbn. by intros (-> & -> & _). Qed.

Lemma validated_ring_size r size : 0 ≤ size ≤ U32_MAX → validate_ring_size r size = Ok tt → ring_size size.
Proof.
  unfold validate_ring_size. destruct (is_power_of_two size) eqn:E; [|done]. intros Hs _.
  apply is_power_of_two_spec in E as (k & Hk & ->). exists k. split; [|done]. split; [done|].
  destruct (Z.le_gt_cases k 31); [done|]. assert (2 ^ 32 ≤ 2 ^ k) by (apply Z.pow_le_mono_r; lia). unfold U32_MAX in Hs. lia.
Qed.

(** The frame size: a power of two that holds both chunks. *)
Lemma umem_frame_size_ok rl tl fsz : umem_frame_size rl tl = Ok fsz →
  ∃ k, 0 ≤ k ≤ 31 ∧ fsz = 2 ^ k ∧ chunk_size rl ≤ fsz ∧ chunk_size tl ≤ fsz.
Proof.
  unfold umem_frame_size, checked_next_power_of_two. set (c := Z.max _ _).
  destruct (_ <? 2 ^ 64); [|done]. destruct (Z.ltb_spec U32_MAX (if c <=? 1 then 1 else 2 ^ Z.log2_up c)) as [|Hle]; [done|].
  intros [= <-]. destruct (Z.leb_spec c 1) as [Hc|Hc]; [exists 0; split_and!; lia|].
  pose proof (Z.log2_up_spec c ltac:(lia)) as [_ Hs]. pose proof (Z.log2_up_nonneg c).
  exists (Z.log2_up c). split_and!; try done; try lia.
  destruct (Z.le_gt_cases (Z.log2_up c) 31); [done|].
  assert (2 ^ 32 ≤ 2 ^ Z.log2_up c) by (apply Z.pow_le_mono_r; lia). unfold U32_MAX in Hle. lia.
Qed.

(** What opening relies on of [Umem::new_on_numa_node]. *)
Definition alloc_ok (alloc : Z → Z → result Umem UmemError) : Prop :=
  ∀ fsz fc u, alloc fsz fc = Ok u → um_ok u ∧ um_frame_size u = fsz ∧ um_frame_count u = fc ∧ bytes_ok (um_backing u).

Definition rings_fresh (rings : RingSizes) (fill comp : RingMem Z) (rx tx : RingMem XdpDesc) : Prop :=
  fresh_ring (sz_fill rings) fill ∧ fresh_ring (sz_completion rings) comp ∧ fresh_ring (sz_rx rings) rx ∧
  fresh_ring (sz_tx rings) tx ∧
  0 ≤ sz_fill rings ≤ U32_MAX ∧ 0 ≤ sz_completion rings ≤ U32_MAX ∧ 0 ≤ sz_rx rings ≤ U32_MAX ∧ 0 ≤ sz_tx rings ≤ U32_MAX.

Lemma rings_validated rings : ring_sizes_validate rings = Ok tt →
  0 ≤ sz_fill rings ≤ U32_MAX → 0 ≤ sz_completion rings ≤ U32_MAX → 0 ≤ sz_rx rings ≤ U32_MAX → 0 ≤ sz_tx rings ≤ U32_MAX →
  ring_size (sz_fill rings) ∧ ring_size (sz_completion rings) ∧ ring_size (sz_rx rings) ∧ ring_size (sz_tx rings).
Proof.
  unfold ring_sizes_validate. intros H H1 H2 H3 H4.
  destruct (validate_ring_size RFill _) as [[]|] eqn:E1; [|done]. destruct (validate_ring_size RCompletion _) as [[]|] eqn:E2; [|done].
  destruct (validate_ring_size RRx _) as [[]|] eqn:E3; [|done]. cbn in H.
  split_and!; by eapply validated_ring_size.
Qed.

Lemma reclaim_fresh {Q} `{ArrayQueue Q Z, !ArrayQueueLaws Q Z} (frames : list Z) cap : len frames ≤ cap → 0 < cap →
  let r : FrameReclaim Q Z := with_remote_capacity frames cap None in reclaim_ok cap r ∧ held r = frames ∧ rc_cap r = cap.
Proof.
  intros Hl Hc r. destruct (aq_new_law (Q := Q) (T := Z) (Z.max cap 1) ltac:(lia)) as [Hi Hcap].
  assert (Hri : remote_items r = []) by exact Hi.
  split_and!; [|unfold held; rewrite Hri; apply app_nil_r|done]. constructor; rewrite ?Hri; try done.
  cbn. rewrite Hcap. lia.
Qed.

Lemma offsets_in u lo k : 0 < um_frame_size u → 0 ≤ k →
  Forall (in_frames (um_frame_size u) lo (lo + k)) (frame_offset u <$> seqZ lo k).
Proof.
  intros Hp Hk. apply Forall_forall. intros a (i & -> & Hi%elem_of_seqZ)%list_elem_of_fmap. unfold frame_offset, in_frames.
  rewrite Z.mod_mul by lia. split; [done|]. nia.
Qed.

Lemma pinv_fresh {A} size (m : RingMem A) : ring_size size → fresh_ring size m → pinv size 0 0 0 [] (producer_new size) m.
Proof.
  intros Hs (Hp & Hc & Hd). pose proof (ring_size_pos _ Hs). split; cbn; try done; change (len (@nil A)) with 0; lia.
Qed.
Lemma pring_fresh {A} size (m : RingMem A) : ring_size size → fresh_ring size m → pring size [] (producer_new size) m.
Proof. intros Hs Hf. rewrite (fresh_ring_eq _ _ Hf). apply pring_new; [done|apply Hf]. Qed.
Lemma cring_fresh {A} size (m : RingMem A) : ring_size size → fresh_ring size m → cring size [] consumer_new m.
Proof. intros Hs Hf. rewrite (fresh_ring_eq _ _ Hf). apply cring_new; [done|apply Hf]. Qed.

Section Open.
Context {Q : Type} `{Hq : ArrayQueue Q Z, !ArrayQueueLaws Q Z}.
Context (ifindex queue mtu : Z) (rings : RingSizes) (rl tl : BufferLayout) (fc : Z).
Context (alloc : Z → Z → result Umem UmemError) (fill comp : RingMem Z) (rx tx : RingMem XdpDesc).
Context (Hrl : layout_ok rl) (Htl : layout_ok tl) (Hfc : fc ≤ U32_MAX) (Halloc : alloc_ok alloc).
Context (Hrings : rings_fresh rings fill comp rx tx).

Definition open_geometry (u : Umem) : Geometry := mkGeometry (Z.log2 (um_frame_size u)) fc (fc / 2).

Lemma live_open_ok cfg (s : XdpSocket Q) :
  live_open ifindex queue mtu rings rl tl fc alloc fill comp rx tx = Ret (Ok (cfg, s)) →
  let g := open_geometry (xs_umem s) in
  geometry_ok g ∧ config_ok g cfg ∧ cf_rings cfg = rings ∧
  winv g cfg (mkQueues (frame_offset (xs_umem s) <$> seqZ 0 (fc / 2)) [] [] []) (mkWorld s [] [] []).
Proof.
  intros Hrun. unfold live_open in Hrun. destruct (umem_frame_size rl tl) as [fsz|] eqn:Hsz; [|done].
  apply umem_frame_size_ok in Hsz as (k & Hk & -> & Hcr & Hct).
  destruct (_ || _) eqn:Hfc2; [done|]. apply orb_false_iff in Hfc2 as [Hfc2 Hpow]. apply Z.ltb_ge in Hfc2.
  destruct (alloc (2 ^ k) fc) as [u|] eqn:Ha; [|done]. apply Halloc in Ha as (Hu & Hufs & Hufc & Hub).
  destruct (_ <? _); [done|]. destruct (ring_sizes_validate rings) as [[]|] eqn:Hval; [|done].
  destruct Hrings as (Hf1 & Hf2 & Hf3 & Hf4 & Hz1 & Hz2 & Hz3 & Hz4).
  destruct (rings_validated rings Hval) as (Hs1 & Hs2 & Hs3 & Hs4); try done.
  set (rxf := fc / 2) in *. assert (Hrx : 0 < rxf < fc) by (unfold rxf; split; [apply Z.div_str_pos; lia|apply Z.div_lt; lia]).
  pose proof (pinv_fresh _ fill Hs1 Hf1) as Hpi.
  destruct (prefill_ok _ (frame_offset u <$> seqZ 0 rxf) _ _ _ _ Hpi) as [Hpre1 Hpre2].
  apply bind_ret_inv in Hrun as ([[[[]|e] fp] fm] & Hpre & Hrun); [|done].
  destruct (Z.le_gt_cases (len (@nil Z) + len (frame_offset u <$> seqZ 0 rxf)) (sz_fill rings)) as [Hle|Hgt].
  2:{ destruct (Hpre2 Hgt) as (? & ? & E). by rewrite E in Hpre. }
  destruct (Hpre1 Hle) as (fp' & fm' & E & Hring). rewrite E in Hpre. injection Hpre as -> ->.
  destruct (tx_drain_hysteresis _ _) as [th iv]. injection Hrun as <- <-. cbn [xs_umem].
  set (g := open_geometry u).
  assert (Hgs : g_size g = 2 ^ k) by (unfold g_size, g, open_geometry; cbn; by rewrite Hufs, Z.log2_pow2 by lia).
  assert (Hg : geometry_ok g).
  { constructor; cbn; [|done|done]. rewrite Hufs, Z.log2_pow2 by lia. lia. }
  assert (Hpos : 0 < um_frame_size u) by (rewrite Hufs; lia).
  assert (Hlt : len (frame_offset u <$> seqZ rxf (fc - rxf)) = fc - rxf) by (unfold len; rewrite length_fmap, length_seqZ; lia).
  destruct (reclaim_fresh (Q := Q) [] rxf ltac:(change (len (@nil Z)) with 0; lia) ltac:(lia)) as (Hr1 & Hr2 & Hr3).
  destruct (reclaim_fresh (Q := Q) (frame_offset u <$> seqZ rxf (fc - rxf)) (fc - rxf)) as (Ht1 & Ht2 & Ht3); [lia|lia|].
  rewrite Hlt in *. split; [done|]. split; [|split; [done|]].
  - pose proof (lo_headroom _ Htl). pose proof (lo_offset _ Htl). pose proof (lo_chunk _ Htl).
    pose proof (lo_payload _ Htl). pose proof (lo_tailroom _ Htl).
    constructor; cbn.
    + intros []; cbn; by rewrite Hgs, Hufs.
    + intros []; cbn; [apply Hrl|apply Htl].
    + rewrite Hgs. lia.
    + unfold frame_offset. by rewrite Hgs, Hufs.
  - cbn in Hr2, Ht2. constructor; cbn; fold rxf; try done.
    + by apply pring_fresh.
    + by apply cring_fresh.
    + by apply cring_fresh.
    + congruence.
    + rewrite Hr2. cbn. rewrite app_nil_r. pose proof (offsets_in u 0 rxf Hpos ltac:(lia)) as Ho. by rewrite Hgs, <- Hufs.
    + rewrite Ht2. pose proof (offsets_in u rxf (fc - rxf) Hpos ltac:(lia)) as Ho.
      replace (rxf + (fc - rxf)) with fc in Ho by lia. by rewrite Hgs, <- Hufs.
    + rewrite Hr2, Ht2. cbn. rewrite !app_nil_r. unfold all_frames. cbn [g_frames].
      assert (Hseq : seqZ 0 fc = seqZ 0 rxf ++ seqZ rxf (fc - rxf)).
      { pose proof (seqZ_app 0 rxf (fc - rxf) ltac:(lia) ltac:(lia)) as Hsa. rewrite Z.add_0_l in Hsa.
        rewrite <- Hsa. f_equal. lia. }
      change (g_frames g) with fc. rewrite Hseq. apply perm_cnt. intros a.
      autorewrite with cnt. unfold frame_offset. rewrite Hgs, Hufs. lia.
Qed.
End Open.
