(* ===== verification/LiveIp.v ===== *)
(** * The IP packet socket over a live queue

    [XdpIpPacketSocket]'s own sends and receives: complete IP datagrams with an
    egress chosen by the caller, over the same rings, free lists and counters
    as the UDP socket. *)
From S2P Require Import Prelude Bits Core Buffer Umem Window PacketBuf PacketBufProofs Ring RingProofs.
From S2P Require Import PoptrieEmit Wire WireProofs WireMain XdpUdp XdpUdpMain Reclaim ReclaimProofs.
From S2P Require Import Live LiveRing LiveProofs LiveTx LiveSend LiveRx.
Open Scope Z_scope.

Record IpPacketReceive (B M : Type) := mkIpPacketReceive {
  ir_packet : B;
  ir_meta : M;
}.
Arguments mkIpPacketReceive {B M} _ _.
Arguments ir_packet {B M} _.
Arguments ir_meta {B M} _.

Abbreviation ip_transmit := (IpPacketTransmit XdpPacketBufInner XdpEgress Z).
Abbreviation ip_receive := (IpPacketReceive XdpPacketBufInner IpPacketRecvMeta).

Definition stats_tx_oversize (s : RawDeviceStats) : RawDeviceStats :=
  mkStats (rx_packets s) (rx_bytes s) (tx_packets s) (tx_bytes s) (dropped_fragments s)
    (saturating_add 64 (dropped_tx_oversize s) 1) (dropped_rx_oversize s) (ring_full s).

(** ** Preparing a batch

    One slot: the descriptor of its frame, or the error that ends the batch.
    Nothing of the packet but the bytes before it changes. *)
Definition prepare_ip_slot (ifindex queue_id mtu : Z) (mem : list Z) (stats : RawDeviceStats) (slot : TxSlot ip_transmit) :
    outcome (list Z * RawDeviceStats * TxSlot ip_transmit * result XdpDesc Error) :=
  match slot with
  | Taken => Ret (mem, stats, Taken, Err InvalidBatch)
  | Ready tx =>
      v ← validate_xdp_ip_transmit mem ifindex queue_id mtu tx;
      match v with
      | Err kind =>
          let stats := if kind is OversizeForMtu then stats_tx_oversize stats else stats in
          Ret (mem, stats, Ready tx, Err kind)
      | Ok _ =>
          let l2_len := ethernet_header_len (it_egress tx) in
          let header := replicate (Z.to_nat VLAN_HEADER_LEN) 0 in
          prefix ← slice_or_panic header 0 l2_len;
          prefix ← write_ethernet_header prefix (it_egress tx);
          f ← prepare_tx_frame_with_header mem (it_packet tx) prefix;
          let '(mem, packet, frame) := f in
          let tx := mkIpPacketTransmit packet (it_egress tx) (it_source _ _ _ tx) (it_destination _ _ _ tx)
                      (it_hop_limit _ _ _ tx) (it_offload tx) (it_tso_segment_size tx) in
          match frame with
          | None => Ret (mem, stats, Ready tx, Err (Device (DeviceError_new Backend)))
          | Some frame => Ret (mem, stats, Ready tx, Ok (mkXdpDesc (tf_desc_addr frame) (tf_len frame) 0))
          end
      end
  end.

(** The loop over the first [limit] slots. *)
Fixpoint prepare_ip_slots (ifindex queue_id mtu : Z) (limit : nat) (mem : list Z) (stats : RawDeviceStats)
    (batch : list (TxSlot ip_transmit)) :
    outcome (list Z * RawDeviceStats * list (TxSlot ip_transmit) * list XdpDesc * option Error) :=
  match limit, batch with
  | O, _ | _, [] => Ret (mem, stats, batch, [], None)
  | S limit, slot :: batch =>
      p ← prepare_ip_slot ifindex queue_id mtu mem stats slot;
      let '(mem, stats, slot, r) := p in
      match r with
      | Err e => Ret (mem, stats, slot :: batch, [], Some e)
      | Ok desc =>
          rest ← prepare_ip_slots ifindex queue_id mtu limit mem stats batch;
          let '(mem, stats, batch, descs, e) := rest in
          Ret (mem, stats, slot :: batch, desc :: descs, e)
      end
  end.

(** The accepted slots are taken and counted one by one. *)
Fixpoint submit_ip_slots (accepted : nat) (stats : RawDeviceStats) (batch : list (TxSlot ip_transmit)) :
    RawDeviceStats * list (TxSlot ip_transmit) * result unit Error :=
  match accepted, batch with
  | O, _ | _, [] => (stats, batch, Ok tt)
  | S accepted, Ready tx :: batch =>
      let stats := stats_sent stats 1 (buf_len (it_packet tx)) in
      let '(stats, batch, r) := submit_ip_slots accepted stats batch in
      (stats, Taken :: batch, r)
  | S _, Taken :: _ => (stats, batch, Err InvalidBatch)
  end.

Section Ip.
Context {Q : Type} `{ArrayQueue Q Z} (debug : bool) (cfg : XdpConfig).

(** From the prepared descriptors on. *)
Definition finish_send_ip (wake : result unit string) (s : XdpSocket Q) (batch : list (TxSlot ip_transmit))
    (descs : list XdpDesc) (deferred_error : option Error) :
    outcome (XdpSocket Q * list (TxSlot ip_transmit) * result Z SendError) :=
  let prepared := len descs in
  if prepared =? 0 then
    Ret (s, batch, match deferred_error with Some kind => Err (mkSendError 0 kind) | None => Ok 0 end)
  else
    '(accepted, p, m) ← enqueue_tx_batch (tx_prod (xs_raw s)) (tx_mmap (xs_raw s)) (sz_tx (cf_rings cfg)) descs;
    assert! accepted =? prepared;
    let s := set_tx_ring s p (if 0 <? accepted then commit p m else m) in
    let s :=
      if 0 <? accepted then
        set_flight s (saturating_add 64 (xs_in_flight s) accepted) (saturating_add 64 (xs_since s) accepted)
      else s in
    let '(stats, batch, submitted) := submit_ip_slots (Z.to_nat accepted) (xs_stats s) batch in
    let s := set_stats s stats in
    match submitted with
    | Err kind => Ret (s, batch, Err (mkSendError accepted kind))
    | Ok _ =>
        let needs_wake := xs_wake_pending s || ((0 <? accepted) && needs_wakeup (tx_mmap (xs_raw s))) in
        let '(s, wake_error) :=
          if needs_wake then
            match wake with
            | Ok _ => (set_wake s false, None)
            | Err error => (set_wake s true, Some error)
            end
          else (s, None) in
        Ret (s, batch,
             match wake_error with
             | Some error => Err (mkSendError accepted (device_error error))
             | None =>
                 match deferred_error with
                 | Some kind => if accepted =? prepared then Err (mkSendError accepted kind) else Ok accepted
                 | None => Ok accepted
                 end
             end)
    end.

Definition send_inner (wake : result unit string) (s : XdpSocket Q) (batch : list (TxSlot ip_transmit)) :
    outcome (XdpSocket Q * list (TxSlot ip_transmit) * result Z SendError) :=
  a ← reserve_tx debug cfg s;
  match a with
  | (s, Err kind) => Ret (s, batch, Err (mkSendError 0 kind))
  | (s, Ok tx_available) =>
      if tx_available =? 0 then Ret (s, batch, Ok 0)
      else
        let limit := Z.min (len batch) tx_available in
        p ← prepare_ip_slots (cf_ifindex cfg) (cf_queue cfg) (cf_mtu cfg) (Z.to_nat limit)
              (um_backing (xs_umem s)) (xs_stats s) batch;
        let '(mem, stats, batch, descs, deferred_error) := p in
        finish_send_ip wake (set_stats (set_mem s mem) stats) batch descs deferred_error
  end.

Definition ip_recv_meta (p : ParsedIp) : IpPacketRecvMeta := mkIpPacketRecvMeta (pi_version p) (pi_len p) NotChecked.

(** The loop of [recv_inner] over the drained descriptors. *)
Fixpoint recv_ip_loop (s : XdpSocket Q) (descs : list XdpDesc) (out : RecvBatch ip_receive) (delivered : Z) :
    outcome (XdpSocket Q * RecvBatch ip_receive * result Z Error) :=
  match descs with
  | [] => Ret (s, out, Ok delivered)
  | desc :: rest =>
      match descriptor_slice (xs_umem s) (xd_addr desc) (xd_len desc) with
      | None =>
          s ← reclaim_rx_descs s (desc :: rest);
          Ret (s, out, Err ring_corrupt_error)
      | Some (frame_addr, frame) =>
          parsed ← parse_ethernet_frame frame;
          match parsed with
          | None => s ← push_rx s frame_addr; recv_ip_loop s rest out delivered
          | Some parsed =>
              if pi_is_fragment (pe_ip parsed) then
                s ← push_rx (set_stats s (stats_fragment (xs_stats s))) frame_addr;
                recv_ip_loop s rest out delivered
              else
                match wrap_rx_frame (Some (xs_umem s)) (cf_rx_ctx cfg) (xd_addr desc) (pe_l2_len parsed)
                        (pi_len (pe_ip parsed)) with
                | None =>
                    s ← push_rx (set_stats s (stats_ring_full (xs_stats s))) frame_addr;
                    recv_ip_loop s rest out delivered
                | Some packet =>
                    match rb_push out (mkIpPacketReceive packet (ip_recv_meta (pe_ip parsed))) with
                    | (_, Err _) => Panic
                    | (out, Ok _) =>
                        recv_ip_loop (set_stats s (stats_received (xs_stats s) (pi_len (pe_ip parsed)))) rest out
                          (delivered + 1)
                    end
                end
          end
      end
  end.

(** [recv_inner]; [wake1] and [wake2] answer the two FILL doorbells. *)
Definition recv_inner (wake1 wake2 : result unit string) (s : XdpSocket Q) (out : RecvBatch ip_receive) :
    outcome (XdpSocket Q * RecvBatch ip_receive * result Z Error) :=
  f ← live_replenish_fill cfg wake1 s;
  match f with
  | (s, Err e) => Ret (s, out, Err (device_error e))
  | (s, Ok _) =>
      '(drained, c, m, descs) ← drain_rx (rx_cons (xs_raw s)) (rx_mmap (xs_raw s)) (sz_rx (cf_rings cfg))
                                  (sz_rx (cf_rings cfg)) (remaining out) [];
      let s := set_rx_ring s c m in
      if drained =? 0 then Ret (s, out, Ok 0)
      else
        l ← recv_ip_loop s descs out 0;
        match l with
        | (s, out, Err e) => Ret (s, out, Err e)
        | (s, out, Ok delivered) =>
            f ← live_replenish_fill cfg wake2 s;
            Ret (f.1, out, match f.2 with Ok _ => Ok delivered | Err e => Err (device_error e) end)
        end
  end.
End Ip.

(** ** Ethernet headers of any IP packet *)
Record egress_typed (e : XdpEgress) : Prop := mkEgressTyped {
  et_macs : egress_ok e;
  et_dst : bytes_ok (eg_dst_mac e);
  et_src : bytes_ok (eg_src_mac e);
  et_vlan : match eg_vlan e with Some v => fits 16 v | None => True end;
  et_type : fits 16 (eg_ethertype e);
}.

Lemma eth_bytes_ok e : egress_typed e → bytes_ok (eth_bytes e).
Proof.
  intros [_ Hd Hs Hv Ht]. unfold eth_bytes, bytes_ok in *. rewrite !Forall_app. split_and!; try done.
  - destruct (eg_vlan e) as [v|]; [|done]. apply Forall_app. split; apply to_be16_bytes; [vm_compute; split; congruence|done].
  - by apply to_be16_bytes.
Qed.

(** The header of the send path. *)
Lemma ip_header_ok e : egress_ok e → len (eth_bytes e) = ethernet_header_len e ∧
  (prefix ← slice_or_panic (replicate (Z.to_nat VLAN_HEADER_LEN) 0) 0 (ethernet_header_len e);
   write_ethernet_header prefix e) = Ret (eth_bytes e).
Proof.
  intros [Hd Hs]. destruct e as [ifx q dst src et vlan mtu]. cbn in Hd, Hs.
  destruct dst as [|d0 [|d1 [|d2 [|d3 [|d4 [|d5 [|]]]]]]]; try done.
  destruct src as [|s0 [|s1 [|s2 [|s3 [|s4 [|s5 [|]]]]]]]; try done.
  destruct vlan as [v|]; (split; cbv -[Z.shiftr Z.land]; done).
Qed.

Lemma parse_l2_ip e t : egress_ok e → eg_ethertype e = ETHERTYPE_IPV4 ∨ eg_ethertype e = ETHERTYPE_IPV6 →
  parse_l2 (eth_bytes e ++ t) = Ret (Some (ethernet_header_len e, eg_ethertype e)).
Proof.
  intros He Ht. destruct Ht as [Ht|Ht]; [rewrite Ht; by apply parse_l2_eth|].
  destruct He as [Hd Hs]. destruct e as [ifx q dst src et vlan mtu]. cbn in Hd, Hs, Ht. subst et.
  destruct dst as [|d0 [|d1 [|d2 [|d3 [|d4 [|d5 [|]]]]]]]; try done.
  destruct src as [|s0 [|s1 [|s2 [|s3 [|s4 [|s5 [|]]]]]]]; try done.
  unfold parse_l2, ETHERNET_HEADER_LEN, VLAN_HEADER_LEN. pose proof (len_nonneg t).
  rewrite len_app. destruct vlan as [v|]; set (l := eth_bytes _).
  - change (len l) with 18.
    change (read_be_u16 (l ++ t) 12) with (@Ret Z VLAN_ETHERTYPE).
    change (read_be_u16 (l ++ t) 16) with (@Ret Z ETHERTYPE_IPV6).
    destruct (Z.ltb_spec (18 + len t) 14); [lia|]. run.
    destruct (Z.ltb_spec (18 + len t) 18); [lia|]. done.
  - change (len l) with 14.
    change (read_be_u16 (l ++ t) 12) with (@Ret Z ETHERTYPE_IPV6).
    destruct (Z.ltb_spec (14 + len t) 14); [lia|]. done.
Qed.

(** What a datagram accepted for transmission is. *)
Lemma valid_tx_inv packet ethertype : valid_tx_datagram packet ethertype = Ret true →
  ∃ v, parse_ip_datagram packet = Ret (Some (mkParsedIp v (len packet) false)) ∧
    ethertype = match v with V4 => ETHERTYPE_IPV4 | V6 => ETHERTYPE_IPV6 end.
Proof.
  unfold valid_tx_datagram. intros Hv. apply bind_ret_inv in Hv as ([[v n f]|] & -> & Hv); [|done]. cbn [pi_len pi_version pi_is_fragment] in Hv.
  destruct (Z.eqb_spec n (len packet)) as [->|]; [|done]. cbn [negb] in Hv. exists v. injection Hv as Hv.
  destruct v, f, (Z.eqb_spec ethertype ETHERTYPE_IPV4), (Z.eqb_spec ethertype ETHERTYPE_IPV6); by cbn in Hv.
Qed.

(** The frame on the wire parses back to the datagram. *)
Lemma ip_frame_parses e packet : egress_ok e → valid_tx_datagram packet (eg_ethertype e) = Ret true →
  ∃ v, eg_ethertype e = (match v with V4 => ETHERTYPE_IPV4 | V6 => ETHERTYPE_IPV6 end) ∧
    parse_ethernet_frame (eth_bytes e ++ packet)
    = Ret (Some (mkParsedEthernet (ethernet_header_len e) (mkParsedIp v (len packet) false))).
Proof.
  intros He Hv. apply valid_tx_inv in Hv as (v & Hp & Ht). exists v. split; [done|]. destruct (ip_header_ok e He) as [Hl _].
  unfold parse_ethernet_frame. rewrite parse_l2_ip by (try done; destruct v; auto). run.
  assert (Hif : negb (eg_ethertype e =? ETHERTYPE_IPV4) && negb (eg_ethertype e =? ETHERTYPE_IPV6) = false) by (rewrite Ht; by destruct v).
  rewrite Hif. pose proof (len_nonneg packet). pose proof (len_nonneg (eth_bytes e)). rewrite <- Hl, len_app.
  unfold slice_or_panic. rewrite slice_window by (rewrite ?len_app; lia). run.
  replace (window _ _ _) with packet; [by rewrite Hp|]. unfold window, len. rewrite !Nat2Z.id, drop_app_length, take_ge; [done|lia].
Qed.

(** ** One slot *)
Lemma packet_bytes_ok mem b a : inner_ok mem b → bi_storage b = Some (UmemFrame a) → bytes_ok mem → bytes_ok (packet_bytes mem b).
Proof.
  intros [Hs _ _ _] Hst Hb. unfold packet_bytes, frame_bytes. rewrite Hst in *. destruct (bc_reclaim _); [done|].
  unfold window, bytes_ok. by repeat (apply Forall_take || apply Forall_drop).
Qed.

Lemma validate_ip_ok mem ifindex queue_id mtu (tx : ip_transmit) a :
  inner_ok mem (it_packet tx) → bi_storage (it_packet tx) = Some (UmemFrame a) → bytes_ok mem →
  bi_capacity (it_packet tx) ≤ U32_MAX →
  ∃ r, validate_xdp_ip_transmit mem ifindex queue_id mtu tx = Ret r ∧
    (r = Ok tt ↔ eg_ifindex (it_egress tx) = ifindex ∧ eg_queue (it_egress tx) = queue_id ∧
       buf_len (it_packet tx) ≤ mtu ∧ buf_len (it_packet tx) ≤ eg_mtu (it_egress tx) ∧
       valid_tx_datagram (packet_bytes mem (it_packet tx)) (eg_ethertype (it_egress tx)) = Ret true ∧
       ethernet_header_len (it_egress tx) ≤ bi_start (it_packet tx) - l2_headroom (bc_layout (bi_ctx (it_packet tx)))).
Proof.
  intros Hok Hst Hb Hcap. unfold validate_xdp_ip_transmit.
  destruct (Z.eqb_spec (eg_ifindex (it_egress tx)) ifindex); cbn [negb orb]; [|eexists; split; [done|naive_solver]].
  destruct (Z.eqb_spec (eg_queue (it_egress tx)) queue_id); cbn [negb]; [|eexists; split; [done|naive_solver]].
  destruct (Z.ltb_spec mtu (buf_len (it_packet tx))); cbn [orb]; [eexists; split; [done|split; [done|lia]]|].
  destruct (Z.ltb_spec (eg_mtu (it_egress tx)) (buf_len (it_packet tx))); [eexists; split; [done|split; [done|lia]]|].
  rewrite (as_slice_ok _ _ Hok). run. pose proof (packet_bytes_ok _ _ _ Hok Hst Hb) as Hpb.
  pose proof (len_packet_bytes _ _ Hok) as Hl. pose proof (io_end _ _ Hok). pose proof (io_packet _ _ Hok).
  pose proof (io_l2 _ _ Hok). unfold U32_MAX, buf_len in *.
  destruct (valid_tx_total _ (eg_ethertype (it_egress tx)) Hpb) as ([] & ->); [lia| |]; run; cbn [negb]; [|eexists; split; [done|naive_solver]].
  rewrite (buf_headroom_ok _ _ Hok). run.
  destruct (Z.ltb_spec (bi_start (it_packet tx) - l2_headroom (bc_layout (bi_ctx (it_packet tx)))) (ethernet_header_len (it_egress tx)));
    (eexists; split; [done|]); [split; [done|lia]|naive_solver].
Qed.

Section Slots.
Context (g : Geometry) (cfg : XdpConfig) (Hg : geometry_ok g) (Hcfg : config_ok g cfg).

Definition ip_slot_ok (slot : TxSlot ip_transmit) : Prop :=
  match slot with Ready tx => egress_typed (it_egress tx) | Taken => True end.

Lemma prepare_ip_slot_ok size ifindex queue_id mtu mem stats (tx : ip_transmit) :
  len mem = size → bytes_ok mem → handle_ok g cfg size (it_packet tx) → egress_typed (it_egress tx) →
  ∃ mem' stats' r, prepare_ip_slot ifindex queue_id mtu mem stats (Ready tx) = Ret (mem', stats', Ready tx, r) ∧
    len mem' = size ∧ bytes_ok mem' ∧
    match r with
    | Ok d => desc_frame g d = haddr (it_packet tx) ∧
        valid_tx_datagram (packet_bytes mem (it_packet tx)) (eg_ethertype (it_egress tx)) = Ret true ∧
        xd_len d = len (eth_bytes (it_egress tx)) + buf_len (it_packet tx) ∧
        window mem' (xd_addr d) (xd_len d) = eth_bytes (it_egress tx) ++ packet_bytes mem (it_packet tx) ∧
        same_outside mem mem' (it_packet tx)
    | Err _ => mem' = mem
    end.
Proof.
  intros Hm Hb Htx He. pose proof (fs_pos g Hg). pose proof (fs_bound g Hg). unfold prepare_ip_slot.
  pose proof (handle_capacity g cfg Hcfg size _ Htx) as Hcap. destruct (Htx) as (pool & a & Hst & Hpool & Hctx & Harm & Hok).
  specialize (Hok mem Hm). pose proof (io_packet _ _ Hok) as Hpk. pose proof (io_end _ _ Hok) as Hend.
  assert (Hcap32 : bi_capacity (it_packet tx) ≤ U32_MAX) by (unfold U32_MAX; lia).
  destruct (validate_ip_ok mem ifindex queue_id mtu tx a Hok Hst Hb Hcap32) as ([[]|k] & -> & Hv); run.
  2:{ eexists _, _, _. split; [reflexivity|]. done. }
  destruct Hv as [Hv _]. destruct (Hv eq_refl) as (_ & _ & _ & _ & Hval & Hroom).
  destruct (ip_header_ok _ (et_macs _ He)) as [Hl Hh]. apply bind_ret_inv in Hh as (pre & -> & Hh). run. rewrite Hh. run.
  assert (0 < ethernet_header_len (it_egress tx)) by (unfold ethernet_header_len; by destruct (eg_vlan _)).
  pose proof (io_l2 _ _ Hok).
  destruct (prepare_tx_frame_ok mem (it_packet tx) (eth_bytes (it_egress tx)) a Hok Hst) as (mem' & Hrun & _ & Hout & _ & Hw);
    [lia|unfold U32_MAX in *; lia|].
  rewrite Hrun. run. pose proof (prepare_frame_keeps _ _ _ _ _ _ a Hst Hrun) as [_ Hb'].
  eexists _, _, _. split; [by destruct tx|]. split; [by rewrite (proj1 Hout)|]. split; [by apply Hb', eth_bytes_ok|].
  split; [|done]. unfold desc_frame, haddr. cbn [xd_addr tf_desc_addr]. rewrite Hst, <- Z.add_sub_assoc.
  apply frame_of_offset; [|lia]. by destruct (pool_frame_in g Hg pool a Hpool).
Qed.

(** ** A batch *)
Lemma prepare_ip_slots_ok size ifindex queue_id mtu : ∀ limit mem stats batch,
  len mem = size → bytes_ok mem → Forall (handle_ok g cfg size) (slot_handles it_packet batch) → Forall ip_slot_ok batch →
  ∃ mem' stats' batch' descs e,
    prepare_ip_slots ifindex queue_id mtu limit mem stats batch = Ret (mem', stats', batch', descs, e) ∧
    len mem' = size ∧ bytes_ok mem' ∧ (length descs ≤ limit)%nat ∧ prepared g cfg it_packet size batch batch' descs.
Proof.
  induction limit as [|limit IH]; intros mem stats batch Hm Hb Hh Hs; cbn [prepare_ip_slots].
  { eexists _, _, _, _, _. split; [done|]. split_and!; try done. by apply prepared_nil. }
  destruct batch as [|[tx|] batch].
  { eexists _, _, _, _, _. split; [done|]. split_and!; try done; [cbn; lia|]. by apply prepared_nil. }
  2:{ cbn [prepare_ip_slot]. run. eexists _, _, _, _, _. split; [done|]. split_and!; try done; [cbn; lia|]. by apply prepared_nil. }
  apply Forall_cons in Hs as [He Hs]. unfold slot_handles in Hh. cbn in Hh. apply Forall_cons in Hh as [Htx Hh].
  fold (slot_handles it_packet batch) in Hh.
  destruct (prepare_ip_slot_ok size ifindex queue_id mtu mem stats tx Hm Hb Htx He) as (mem1 & stats1 & r & -> & Hm1 & Hb1 & Hr). run.
  destruct r as [d|e].
  - destruct (IH mem1 stats1 batch Hm1 Hb1 Hh Hs) as (mem2 & stats2 & batch2 & descs & e & -> & Hm2 & Hb2 & Hl2 & Hp2). run.
    eexists _, _, _, _, _. split; [done|]. split_and!; try done; [cbn; lia|]. apply prepared_cons; [done|done|apply Hr].
  - eexists _, _, _, _, _. split; [done|]. split_and!; try done; [cbn; lia|]. by apply prepared_stop.
Qed.
End Slots.

Section IpSocket.
Context (g : Geometry) (cfg : XdpConfig) (Hg : geometry_ok g) (Hcfg : config_ok g cfg) (debug : bool).
Context {Q : Type} `{Hq : ArrayQueue Q Z, !ArrayQueueLaws Q Z}.
Implicit Types (w : World (Q := Q)).

(** Taking the slots one by one takes them all, and only counts. *)
Lemma submit_ip_same k : ∀ stats (batch batch' : list (TxSlot ip_transmit)),
  submit_slots k batch = Ret batch' → ∃ stats', submit_ip_slots k stats batch = (stats', batch', Ok tt).
Proof.
  induction k as [|k IH]; intros stats batch batch' Hs; [by destruct batch; simplify_eq/=; eexists|].
  destruct batch as [|[tx|] batch]; simplify_eq/=; [by eexists|]. apply bind_ret_inv in Hs as (b & Hs & [= <-]).
  destruct (IH (stats_sent stats 1 (buf_len (it_packet tx))) _ _ Hs) as [stats' ->]. by eexists.
Qed.

(** The tail of an IP send is that of a UDP send, up to the counters. *)
Lemma finish_ip_same wake (s s' : XdpSocket Q) (batch batch' : list (TxSlot ip_transmit)) descs e r :
  finish_send cfg wake s batch descs 0 e = Ret (s', batch', r) →
  ∃ stats, finish_send_ip cfg wake s batch descs e = Ret (set_stats s' stats, batch', r).
Proof.
  unfold finish_send, finish_send_ip. destruct (len descs =? 0).
  { intros [= <- <- <-]. exists (xs_stats s). by destruct s. }
  intros Hf. apply bind_ret_inv in Hf as ([[k p] m] & -> & Hf). run. destruct (k =? len descs) eqn:Hk; [|done].
  set (s1 := if 0 <? k then set_flight _ _ _ else _) in *. apply bind_ret_inv in Hf as (b & Hsub & Hf).
  destruct (submit_ip_same _ (xs_stats s1) _ _ Hsub) as [st ->]. exists st. clearbody s1. cbn [set_stats xs_wake_pending xs_raw].
  destruct (_ || _); [destruct wake as [[]|err]|]; destruct (0 <? k); injection Hf as <- <- <-; done.
Qed.

Lemma send_ip_ok wake q w (batch : list (TxSlot ip_transmit)) others :
  winv g cfg q w → Permutation (w_app w) (slot_handles it_packet batch ++ others) → Forall ip_slot_ok batch →
  ∃ s batch' r q', send_inner debug cfg wake (w_sock w) batch = Ret (s, batch', r) ∧
    sent g cfg it_packet q' w others s batch batch' r.
Proof.
  intros Hw0 Hp He. apply (winv_perm g cfg _ _ _ Hw0) in Hp as Hw. clear Hp. unfold send_inner.
  destruct (reserve_tx_ok g cfg Hg Hcfg debug q _ Hw) as (s1 & q1 & Hr & Hw1 & Htx). cbn [with_app w_sock] in Hr.
  rewrite Hr. run. set (room := sz_tx (cf_rings cfg) - len (q_tx q)) in *.
  destruct (Z.eqb_spec room 0).
  { run. eexists _, _, _, q1. split; [done|]. by apply sent_nothing. }
  pose proof (app_split g cfg _ _ _ others Hw1 eq_refl) as Hh.
  destruct (prepare_ip_slots_ok g cfg Hg Hcfg _ (cf_ifindex cfg) (cf_queue cfg) (cf_mtu cfg)
    (Z.to_nat (Z.min (len batch) room)) _ (xs_stats s1) batch eq_refl (wi_bytes _ _ _ _ Hw1) Hh He)
    as (mem & stats & batch1 & descs & e & Hprep & Hm & Hb & Hl & Hpr).
  cbn [with_sock with_app w_sock] in Hprep. rewrite Hprep. run.
  pose proof (winv_count g cfg q1 _ stats (winv_mem g cfg q1 _ mem Hw1 Hm Hb)) as Hw2.
  destruct (finish_sent g cfg Hg it_packet wake q1 _ others batch batch1 descs 0 e Hw2 eq_refl) as (s2 & batch2 & r & q2 & Hf & Hs).
  { unfold mem_size. cbn. by rewrite Hm. }
  { rewrite Htx. fold room. pose proof (pring_size _ _ _ _ (wi_tx _ _ _ _ Hw)) as [_ ?]. unfold len in *. lia. }
  cbn [with_sock with_app w_sock] in Hf. destruct (finish_ip_same _ _ _ _ _ _ _ _ Hf) as [st Hf']. rewrite Hf'.
  eexists _, _, _, q2. split; [done|]. destruct Hs as [Hw3 Hs]. split; [|exact Hs]. exact (winv_count g cfg q2 _ st Hw3).
Qed.

(** ** Receiving *)
Lemma recv_ip_loop_ok q descs : ∀ w out delivered krx,
  winv g cfg q w → w_krx w = (desc_frame g <$> descs) ++ krx → Forall (desc_ok g) descs →
  len (rb_items out) + len descs ≤ rb_capacity out →
  ∃ s items, recv_ip_loop cfg (w_sock w) descs out delivered
    = Ret (s, mkRecvBatch (rb_items out ++ items) (rb_capacity out), Ok (delivered + len items)) ∧
    len items ≤ len descs ∧ winv g cfg q (with_krx w s (w_app w ++ (ir_packet <$> items)) krx).
Proof.
  induction descs as [|d descs IH]; intros w out delivered krx Hw Hk Hd Hcap; cbn [recv_ip_loop].
  { exists (w_sock w), []. rewrite app_nil_r, Z.add_0_r. destruct out. cbn. rewrite app_nil_r. split_and!; try done.
    cbn in Hk. rewrite <- Hk. by destruct w. }
  apply Forall_cons in Hd as [Hdd Hd]. cbn in Hk. rewrite len_cons in Hcap |- *.
  assert (Hskip : ∀ stats, ∃ s items,
    (s ← push_rx (set_stats (w_sock w) stats) (desc_frame g d); recv_ip_loop cfg s descs out delivered)
    = Ret (s, mkRecvBatch (rb_items out ++ items) (rb_capacity out), Ok (delivered + len items)) ∧
    len items ≤ len descs + 1 ∧ winv g cfg q (with_krx w s (w_app w ++ (ir_packet <$> items)) krx)).
  { intros stats. destruct (recv_drop_ok g cfg Hg q w stats _ _ Hw Hk) as (s1 & -> & Hw1). run.
    destruct (IH _ out delivered krx Hw1 eq_refl Hd ltac:(lia)) as (s2 & items & E & Hl & Hw2).
    exists s2, items. split_and!; [exact E|lia|exact Hw2]. }
  assert (Hskip0 := Hskip (xs_stats (w_sock w))).
  replace (set_stats (w_sock w) (xs_stats (w_sock w))) with (w_sock w) in Hskip0 by (by destruct (w_sock w)).
  destruct (desc_slice_ok g cfg Hg q w d _ Hw Hk Hdd) as (frame & -> & Hb & Hlen).
  pose proof (fs_bound g Hg). destruct Hdd as (Ha & Hl0 & Hle). pose proof (Z.mod_pos_bound (xd_addr d) (g_size g) (fs_pos g Hg)).
  destruct (parse_ethernet_total frame Hb ltac:(lia)) as ([parsed|] & -> & Hr); run; [|apply Hskip0].
  destruct (pi_is_fragment _); [apply Hskip|]. destruct Hr as (Hl2 & Hip & _).
  destruct (wrap_rx_frame _ _ _ _ _) as [p|] eqn:Hwrap; [|apply Hskip].
  unfold rb_push, rb_len. pose proof (len_nonneg descs).
  destruct (Z.leb_spec (rb_capacity out) (len (rb_items out))); [lia|].
  pose proof (wrap_rx_ok g cfg Hg Hcfg q w d _ (pe_l2_len parsed) (pi_len (pe_ip parsed)) p Hw Hk (conj Ha (conj Hl0 Hle))
    ltac:(lia) ltac:(lia) Hwrap) as Hw1.
  apply (winv_count g cfg q _ (stats_received (xs_stats (w_sock w)) (pi_len (pe_ip parsed)))) in Hw1.
  set (item := mkIpPacketReceive p (ip_recv_meta (pe_ip parsed))).
  destruct (IH _ (mkRecvBatch (rb_items out ++ [item]) (rb_capacity out)) (delivered + 1) krx Hw1 eq_refl Hd)
    as (s2 & items & E & Hl & Hw2); [cbn; rewrite len_app; change (len [item]) with 1; lia|].
  exists s2, (item :: items). split_and!.
  - cbn [with_krx with_sock w_sock rb_items rb_capacity] in E. rewrite E. rewrite <- app_assoc, len_cons. do 3 f_equal. lia.
  - rewrite len_cons. lia.
  - cbn [with_krx with_sock w_app] in Hw2. rewrite <- app_assoc in Hw2. exact Hw2.
Qed.

Lemma recv_ip_ok wake1 wake2 q w out : winv g cfg q w → len (rb_items out) ≤ rb_capacity out →
  received g cfg ir_packet wake1 wake2 w out (recv_inner cfg wake1 wake2 (w_sock w) out).
Proof.
  intros Hw Hcap.
  apply (recv_with_ok g cfg Hg ir_packet (λ s descs out, recv_ip_loop cfg s descs out 0) wake1 wake2 q w out); [|done|done].
  intros q1 w1 descs out1 krx Hw1 Hk Hd Hc1. exact (recv_ip_loop_ok q1 descs w1 out1 0 krx Hw1 Hk Hd Hc1).
Qed.
End IpSocket.
