(* ===== verification/Direct.v ===== *)
(** * Direct endpoint batches: [buffer.rs] and [socket.rs] of the AF_XDP crate

    The endpoint batch of a live socket builds its packets in free transmit
    frames: the callback writes the payload where it will be sent from, the
    cached header is copied before it and its lengths and checksum patched,
    and the frames leave the free list only once every packet is ready. Raw
    pointers are positions in the packet memory; an access outside it is
    undefined behaviour. *)
From S2P Require Import Prelude Bits Core Buffer Umem PacketBuf Ring Wire XdpUdp Reclaim Live.
Open Scope Z_scope.

(** ** Raw memory *)
Definition ptr_read (mem : list Z) (at_ n : Z) : outcome (list Z) :=
  match slice mem at_ (at_ + n) with
  | Some bytes => Ret bytes
  | None => UB
  end.
Definition ptr_write (mem : list Z) (at_ : Z) (bytes : list Z) : outcome (list Z) :=
  if (0 <=? at_) && (at_ + len bytes <=? len mem) then Ret (write_at mem at_ bytes) else UB.

(** [u16] addition: an overflow is an arithmetic panic. *)
Definition add_u16 (a b : Z) : outcome Z := if a + b <? 2 ^ 16 then Ret (a + b) else Panic.
Definition add_u32 (a b : Z) : outcome Z := if a + b <? 2 ^ 32 then Ret (a + b) else Panic.

(** ** The header patch *)
Record XdpPreparedTxBatch := mkPreparedBatch {
  pb_prepared : Z;
  pb_tx_bytes : Z;
}.

Record XdpEndpointHeaderPatch := mkPatch {
  hp_total_len_offset : Z;
  hp_checksum_offset : Z;
  hp_transport_len_offset : Z;
  hp_total_len_base : Z;
  hp_transport_len_base : Z;
  hp_old_total_len : Z;
  hp_old_checksum : Z;
}.

Definition read_be_u16_from_slice (bytes : list Z) (offset : Z) : option Z :=
  stop ← checked_add 64 offset 2;
  bytes ← slice bytes offset stop;
  match bytes with
  | [hi; lo] => Some (from_be16 hi lo)
  | _ => None
  end.

Definition u16_try_from (x : Z) : option Z := if x <=? U16_MAX then Some x else None.

Definition required_header_len (p : XdpEndpointHeaderPatch) : option Z :=
  checked_add 64 (Z.max (Z.max (hp_total_len_offset p) (hp_checksum_offset p)) (hp_transport_len_offset p)) 2.

Definition patch_new (header : list Z) (total_len_offset checksum_offset transport_len_offset total_len_base
    transport_len_base : Z) : option XdpEndpointHeaderPatch :=
  t ← u16_try_from total_len_offset;
  c ← u16_try_from checksum_offset;
  l ← u16_try_from transport_len_offset;
  old_total_len ← read_be_u16_from_slice header total_len_offset;
  old_checksum ← read_be_u16_from_slice header checksum_offset;
  let patch := mkPatch t c l total_len_base transport_len_base old_total_len old_checksum in
  required ← required_header_len patch;
  if len header <? required then None else Some patch.

(** [write_be_u16] through a pointer. *)
Definition ptr_write_be_u16 (mem : list Z) (ptr value : Z) : outcome (list Z) :=
  mem ← ptr_write mem ptr [Z.shiftr value 8];
  ptr_write mem (ptr + 1) [Z.land value 255].

(** [XdpEndpointHeaderPatch::patch]; [header] is where the copied header is. *)
Definition patch (p : XdpEndpointHeaderPatch) (mem : list Z) (header payload_len : Z) : outcome (list Z) :=
  total_len ← add_u16 (hp_total_len_base p) (u16 payload_len);
  transport_len ← add_u16 (hp_transport_len_base p) (u16 payload_len);
  let checksum := ipv4_checksum_replace_word (hp_old_checksum p) (hp_old_total_len p) total_len in
  mem ← ptr_write_be_u16 mem (header + hp_total_len_offset p) total_len;
  mem ← ptr_write_be_u16 mem (header + hp_checksum_offset p) checksum;
  ptr_write_be_u16 mem (header + hp_transport_len_offset p) transport_len.

(** ** Copying the header *)
Definition copy_endpoint_header_word (src : list Z) (mem : list Z) (dst offset : Z) : outcome (list Z) :=
  word ← ptr_read src offset 8;
  ptr_write mem (dst + offset) word.

(** The Ethernet, IPv4 and UDP header of 42 bytes goes word by word. *)
Definition copy_endpoint_header (src : list Z) (mem : list Z) (dst n : Z) : outcome (list Z) :=
  if n =? 42 then
    mem ← copy_endpoint_header_word src mem dst 0;
    mem ← copy_endpoint_header_word src mem dst 8;
    mem ← copy_endpoint_header_word src mem dst 16;
    mem ← copy_endpoint_header_word src mem dst 24;
    mem ← copy_endpoint_header_word src mem dst 32;
    tail ← ptr_read src 40 2;
    ptr_write mem (dst + 40) tail
  else
    bytes ← ptr_read src 0 n;
    ptr_write mem dst bytes.

Section Batch.
Context {Cb : Type} (fill_payload : Cb → Z → list Z → outcome (Cb * list Z * Z)).

(** The packet loop of [prepare_endpoint_batch] over the frames popped, from
    packet [written] on: the descriptors and the bytes counted, or the error
    that ends it. *)
Fixpoint packet_loop (header : list Z) (header_start payload_start l3_header_len payload_capacity payload_len_limit : Z)
    (expected_payload_len : option Z) (header_patch : XdpEndpointHeaderPatch) (frames : list Z) (written : Z)
    (tx_bytes : Z) (mem : list Z) (cb : Cb) : outcome (list Z * Cb * result (list XdpDesc * Z) Error) :=
  match frames with
  | [] => Ret (mem, cb, Ok ([], tx_bytes))
  | frame :: frames =>
      payload ← ptr_read mem (frame + payload_start) payload_capacity;
      '(cb, payload, payload_len) ← fill_payload cb written payload;
      mem ← ptr_write mem (frame + payload_start) payload;
      if match expected_payload_len with Some expected => negb (payload_len =? expected) | None => false end then
        Ret (mem, cb, Err InvalidPacket)
      else if payload_len_limit <? payload_len then Ret (mem, cb, Err OversizeForMtu)
      else
        mem ← copy_endpoint_header header mem (frame + header_start) (len header);
        mem ← patch header_patch mem (frame + header_start) payload_len;
        desc_len ← add_u32 (len header) (u32 payload_len);
        tx_bytes ← add_usize tx_bytes (l3_header_len + payload_len);
        '(mem, cb, r) ← packet_loop header header_start payload_start l3_header_len payload_capacity payload_len_limit
                          expected_payload_len header_patch frames (written + 1) tx_bytes mem cb;
        Ret (mem, cb,
             match r with
             | Err e => Err e
             | Ok (descs, tx_bytes) => Ok (mkXdpDesc (frame + header_start) desc_len 0 :: descs, tx_bytes)
             end)
  end.

Section Pool.
Context {Q : Type} `{ArrayQueue Q Z} (debug : bool) (cfg : XdpConfig).

(** [XdpTxPool::prepare_endpoint_batch] of a live pool. [out] is extended, and
    the free list shortened, only when every packet was prepared. *)
Definition prepare_endpoint_batch (s : XdpSocket Q) (out : list XdpDesc) (header : list Z) (l2_len payload_capacity : Z)
    (expected_payload_len : option Z) (header_patch : XdpEndpointHeaderPatch) (max : Z) (cb : Cb) :
    outcome (XdpSocket Q * list XdpDesc * Cb * result XdpPreparedTxBatch Error) :=
  if max =? 0 then Ret (s, out, cb, Ok (mkPreparedBatch 0 0))
  else
    let payload_start := data_offset (bc_layout (cf_tx_ctx cfg)) in
    let invalid := Ret (s, out, cb, Err InvalidPacket) in
    match checked_sub payload_start (len header), checked_add 64 (len header) payload_capacity with
    | Some header_start, Some max_frame_len =>
        match checked_add 64 header_start max_frame_len with
        | None => invalid
        | Some frame_end =>
            if (um_frame_size (xs_umem s) <? frame_end) || (len header <? l2_len) then invalid
            else
              match required_header_len header_patch with
              | None => invalid
              | Some required =>
                  if len header <? required then invalid
                  else if U32_MAX <? len header then invalid
                  else
                    match checked_sub U16_MAX (hp_total_len_base header_patch), checked_sub (len header) l2_len with
                    | Some room, Some l3_header_len =>
                        let payload_len_limit := Z.min payload_capacity room in
                        tx ← (if len (rc_free (xs_tx s)) <? max then reclaim_drain_remote (xs_tx s) else Ret (xs_tx s));
                        let s := set_pools s (xs_rx s) tx in
                        let free_len := len (rc_free tx) in
                        let count := Z.min max free_len in
                        let retain_len := free_len - count in
                        let frames := rev (drop (Z.to_nat retain_len) (rc_free tx)) in
                        '(mem, cb, r) ← packet_loop header header_start payload_start l3_header_len payload_capacity
                                          payload_len_limit expected_payload_len header_patch frames 0 0
                                          (um_backing (xs_umem s)) cb;
                        let s := set_mem s mem in
                        match r with
                        | Err e => Ret (s, out, cb, Err e)
                        | Ok (descs, tx_bytes) =>
                            let tx := mkReclaim (take (Z.to_nat retain_len) (rc_free tx)) (rc_cap tx) (rc_remote tx) in
                            Ret (set_pools s (xs_rx s) tx, out ++ descs, cb, Ok (mkPreparedBatch (len descs) tx_bytes))
                        end
                    | _, _ => invalid
                    end
              end
        end
    | _, _ => invalid
    end.

(** The submission of [send_udp_endpoint_direct_batch]. *)
Definition submit_direct (wake : result unit string) (s : XdpSocket Q) (descs : list XdpDesc) (b : XdpPreparedTxBatch) :
    outcome (XdpSocket Q * result Z SendError) :=
  if pb_prepared b =? 0 then Ret (s, Ok 0)
  else
    descs ← slice_or_panic descs 0 (pb_prepared b);
    '(accepted, p, m) ← enqueue_tx_batch (tx_prod (xs_raw s)) (tx_mmap (xs_raw s)) (sz_tx (cf_rings cfg)) descs;
    assert! accepted =? pb_prepared b;
    let s := set_tx_ring s p (commit p m) in
    let s := set_flight s (saturating_add 64 (xs_in_flight s) accepted) (saturating_add 64 (xs_since s) accepted) in
    let '(s, wake_error) :=
      if xs_wake_pending s || needs_wakeup (tx_mmap (xs_raw s)) then
        match wake with
        | Ok _ => (set_wake s false, None)
        | Err error => (set_wake s true, Some error)
        end
      else (s, None) in
    let s := set_stats s (stats_sent (xs_stats s) (pb_prepared b) (pb_tx_bytes b)) in
    Ret (s, match wake_error with
            | Some error => Err (mkSendError (pb_prepared b) (device_error error))
            | None => Ok (pb_prepared b)
            end).

Definition send_udp_endpoint_direct_batch {R} `{XdpUdpRouter R} (router : R) (local_ip local_port ttl : Z)
    (wake : result unit string) (s : XdpSocket Q) (endpoint : XdpUdpEndpoint) (max : Z) (cb : Cb) :
    outcome (XdpSocket Q * XdpUdpEndpoint * Cb * result Z SendError) :=
  let route_context := mkRouteContext (cf_ifindex cfg) (cf_queue cfg) (cf_mtu cfg) in
  if max =? 0 then Ret (s, endpoint, cb, Ok 0)
  else
    e ← refresh_udp_endpoint_cache router local_ip local_port ttl route_context endpoint;
    match e with
    | (endpoint, Err kind) => Ret (s, endpoint, cb, Err (mkSendError 0 kind))
    | (endpoint, Ok _) =>
        let info := xe_info endpoint in
        match xe_cached endpoint with
        | None => Panic
        | Some cache =>
            let l2_len := ec_l2_len cache in
            match patch_new (ec_header cache) (l2_len + 2) (l2_len + 10) (l2_len + IPV4_MIN_HEADER_LEN + 4)
                    (IPV4_MIN_HEADER_LEN + UDP_HEADER_LEN) UDP_HEADER_LEN with
            | None => Ret (s, endpoint, cb, Err (mkSendError 0 InvalidPacket))
            | Some header_patch =>
                a ← reserve_tx debug cfg s;
                match a with
                | (s, Err kind) => Ret (s, endpoint, cb, Err (mkSendError 0 kind))
                | (s, Ok tx_available) =>
                    if tx_available =? 0 then Ret (s, endpoint, cb, Ok 0)
                    else
                      let limit := Z.min max tx_available in
                      '(s, descs, cb, r) ← prepare_endpoint_batch s [] (ec_header cache) l2_len (ei_mtu info)
                                             (ei_payload_len info) header_patch limit cb;
                      match r with
                      | Err kind => Ret (s, endpoint, cb, Err (mkSendError 0 kind))
                      | Ok b =>
                          '(s, r) ← submit_direct wake s descs b;
                          Ret (s, endpoint, cb, r)
                      end
                end
            end
        end
    end.
End Pool.
End Batch.
