(* ===== verification/DirectProofs.v ===== *)
(** * Lemmas on direct endpoint batches

    The word-wise header copy is a copy, the patch of a copied header is the
    patch of the cached one, and the packet loop writes only the frames it was
    given. *)
From S2P Require Import Prelude Bits Core Buffer Umem Ring RingProofs Window PacketBuf PacketBufProofs.
From S2P Require Import PoptrieEmit Wire WireProofs WireMain XdpUdp XdpUdpMain Reclaim ReclaimProofs.
From S2P Require Import Live LiveRing LiveProofs LiveTx LiveSend LiveSteps Direct.
Open Scope Z_scope.

(** ** Memory *)
Lemma write_at_app {A} (mem xs ys : list A) p : 0 ≤ p → p + len xs + len ys ≤ len mem →
  write_at (write_at mem p xs) (p + len xs) ys = write_at mem p (xs ++ ys).
Proof.
  intros. pose proof (len_nonneg xs). pose proof (len_nonneg ys). apply nthZ_ext. intros i.
  rewrite !nthZ_write_at by (rewrite ?len_write_at, ?len_app; lia). rewrite nthZ_app, len_app.
  repeat case_decide; try done; try lia. f_equal. lia.
Qed.

Lemma write_at_insert {A} (mem xs : list A) p off x : 0 ≤ p → p + len xs ≤ len mem → 0 ≤ off < len xs →
  write_at (write_at mem p xs) (p + off) [x] = write_at mem p (<[Z.to_nat off := x]> xs).
Proof.
  intros Hp Hl Ho. assert (Hx : len [x] = 1) by done. apply nthZ_ext. intros i.
  rewrite !nthZ_write_at by (rewrite ?len_write_at, ?len_insert; lia). rewrite nthZ_insert by lia.
  rewrite len_insert, Hx. repeat case_decide; try lia; try done.
  replace (i - (p + off)) with 0 by lia. done.
Qed.

Lemma ptr_write_ok mem p xs : 0 ≤ p → p + len xs ≤ len mem → ptr_write mem p xs = Ret (write_at mem p xs).
Proof. intros. unfold ptr_write. destruct (Z.leb_spec 0 p), (Z.leb_spec (p + len xs) (len mem)); done || lia. Qed.
Lemma ptr_read_ok mem p n : 0 ≤ p → 0 ≤ n → p + n ≤ len mem → ptr_read mem p n = Ret (window mem p n).
Proof. intros. unfold ptr_read. by rewrite slice_window. Qed.

(** ** The header copy *)
Lemma copy_word_ok src mem dst off : 0 ≤ dst → dst + len src ≤ len mem → 0 ≤ off → off + 8 ≤ len src →
  copy_endpoint_header_word src (write_at mem dst (window src 0 off)) dst off
  = Ret (write_at mem dst (window src 0 (off + 8))).
Proof.
  intros. unfold copy_endpoint_header_word. rewrite ptr_read_ok by lia. run.
  assert (Hl : len (window src 0 off) = off) by (apply len_window; lia).
  assert (Hw : len (window src off 8) = 8) by (apply len_window; lia).
  rewrite ptr_write_ok by (rewrite ?len_write_at; lia). rewrite (window_app src 0 off 8), Z.add_0_l by lia.
  rewrite <- write_at_app by (rewrite ?Hl, ?Hw; lia). by rewrite Hl.
Qed.

Lemma write_at_nil {A} (mem : list A) p : write_at mem p [] = mem.
Proof. unfold write_at. cbn. rewrite Nat.add_0_r. apply take_drop. Qed.

Lemma copy_header_ok src mem dst : 0 ≤ dst → dst + len src ≤ len mem →
  copy_endpoint_header src mem dst (len src) = Ret (write_at mem dst src).
Proof.
  intros Hd Hl. unfold copy_endpoint_header. destruct (Z.eqb_spec (len src) 42) as [E|E].
  - rewrite <- (write_at_nil mem dst) at 1. change (@nil Z) with (window src 0 0).
    do 5 (rewrite copy_word_ok by lia; run). rewrite ptr_read_ok by lia. run.
    change (32 + 8) with 40.
    assert (H40 : len (window src 0 40) = 40) by (apply len_window; lia).
    assert (H2 : len (window src 40 2) = 2) by (apply len_window; lia).
    rewrite ptr_write_ok by (rewrite ?len_write_at; lia).
    pose proof (write_at_app mem (window src 0 40) (window src 40 2) dst) as Happ. rewrite H40, H2 in Happ.
    rewrite Happ by lia. change 40 with (0 + 40) at 2. rewrite <- (window_app src 0 40 2) by lia.
    change (40 + 2) with 42. rewrite <- E. by rewrite window_all.
  - pose proof (len_nonneg src). rewrite ptr_read_ok by lia. run. rewrite window_all, ptr_write_ok by lia. done.
Qed.

(** ** The patch *)
Lemma ptr_write_be_ok mem at_ h off v h' : 0 ≤ at_ → at_ + len h ≤ len mem → write_be_u16 h off v = Ret h' →
  ptr_write_be_u16 (write_at mem at_ h) (at_ + off) v = Ret (write_at mem at_ h') ∧ len h' = len h.
Proof.
  intros Ha Hl Hw. unfold write_be_u16 in Hw. apply bind_ret_inv in Hw as (h1 & H1 & H2).
  assert (Hset : ∀ (l l' : list Z) k x, set_index l k x = Ret l' → 0 ≤ k < len l ∧ l' = <[Z.to_nat k := x]> l).
  { intros l l' k x. unfold set_index. case_bool; cbn; try done. by intros [= <-]. }
  apply Hset in H1 as [R1 ->]. apply Hset in H2 as [R2 ->]. rewrite len_insert in R2. split; [|by rewrite !len_insert].
  assert (Hone : ∀ x : Z, len [x] = 1) by done.
  unfold ptr_write_be_u16. rewrite ptr_write_ok by (rewrite ?len_write_at, ?Hone; lia). run.
  rewrite write_at_insert by lia. rewrite ptr_write_ok by (rewrite ?len_write_at, ?len_insert, ?Hone; rewrite ?len_insert; lia).
  rewrite <- Z.add_assoc, write_at_insert by (rewrite ?len_insert; lia). done.
Qed.

Lemma read_slice_ok l k : 0 ≤ k → k + 2 ≤ len l → len l < 2 ^ 63 →
  ∃ v, read_be_u16_from_slice l k = Some v ∧ read_be_u16 l k = Ret v.
Proof.
  intros Hk Hl Hm. unfold read_be_u16_from_slice, checked_add. destruct (Z.ltb_spec (k + 2) (2 ^ 64)); [|lia]. cbn.
  rewrite slice_window by lia. cbn. assert (Hw := len_window l k 2 Hk ltac:(lia) Hl).
  destruct (window l k 2) as [|a [|b [|]]] eqn:E; try (unfold len in Hw; cbn in Hw; lia).
  exists (from_be16 a b). split; [done|].
  assert (H0 := nthZ_window l k 2 0 Hk ltac:(lia)). assert (H1 := nthZ_window l k 2 1 Hk ltac:(lia)).
  rewrite E, decide_True in H0 by lia. rewrite E, decide_True in H1 by lia. unfold read_be_u16, index. rewrite Z.add_0_r in H0.
  rewrite <- H0. run. by rewrite <- H1.
Qed.

(** The patch of a cached header. *)
Definition cache_patch (cache : XdpUdpEndpointCache) : option XdpEndpointHeaderPatch :=
  let l2_len := ec_l2_len cache in
  patch_new (ec_header cache) (l2_len + 2) (l2_len + 10) (l2_len + IPV4_MIN_HEADER_LEN + 4)
    (IPV4_MIN_HEADER_LEN + UDP_HEADER_LEN) UDP_HEADER_LEN.

Lemma cache_patch_inv cache p : cache_ok cache → cache_patch cache = Some p →
  ∃ t c, read_be_u16 (ec_header cache) (ec_l2_len cache + 2) = Ret t ∧ fits 16 t ∧
    read_be_u16 (ec_header cache) (ec_l2_len cache + 10) = Ret c ∧ fits 16 c ∧
    p = mkPatch (ec_l2_len cache + 2) (ec_l2_len cache + 10) (ec_l2_len cache + 24) 28 8 t c ∧
    ec_l2_len cache + 24 ≤ U16_MAX.
Proof.
  intros [Hl2 Hlen Hb] Hp. unfold cache_patch, patch_new, u16_try_from, IPV4_MIN_HEADER_LEN, UDP_HEADER_LEN in Hp.
  unfold U16_MAX in *. destruct (Z.leb_spec (ec_l2_len cache + 2) 65535); cbn in Hp; [|done].
  destruct (Z.leb_spec (ec_l2_len cache + 10) 65535); cbn in Hp; [|done].
  destruct (Z.leb_spec (ec_l2_len cache + 20 + 4) 65535); cbn in Hp; [|done].
  destruct (read_slice_ok (ec_header cache) (ec_l2_len cache + 2)) as (t & Et & Rt); [lia|lia|lia|].
  destruct (read_slice_ok (ec_header cache) (ec_l2_len cache + 10)) as (c & Ec & Rc); [lia|lia|lia|].
  rewrite Et, Ec in Hp. cbn in Hp. destruct (required_header_len _); cbn in Hp; [|done]. destruct (_ <? _); [done|].
  destruct (read_be_u16_total (ec_header cache) (ec_l2_len cache + 2)) as (t' & Et' & Ht); [done|lia|lia|].
  destruct (read_be_u16_total (ec_header cache) (ec_l2_len cache + 10)) as (c' & Ec' & Hc); [done|lia|lia|].
  exists t, c. simplify_eq. split_and!; try done; [congruence|congruence|f_equal; lia|lia].
Qed.
Lemma cache_patch_ok cache : cache_ok cache → ec_l2_len cache + 24 ≤ U16_MAX → ∃ p, cache_patch cache = Some p.
Proof.
  intros [Hl2 Hlen Hb] Hm. unfold cache_patch, patch_new, u16_try_from, required_header_len, checked_add, U16_MAX,
    IPV4_MIN_HEADER_LEN, UDP_HEADER_LEN in *.
  destruct (read_slice_ok (ec_header cache) (ec_l2_len cache + 2)) as (t & Et & Rt); [lia|lia|lia|].
  destruct (read_slice_ok (ec_header cache) (ec_l2_len cache + 10)) as (c & Ec & Rc); [lia|lia|lia|].
  rewrite Et, Ec. case_bool; try lia. cbn. case_bool; cbn; try lia. case_bool; try lia. eauto.
Qed.

(** The patched header of the slot path. *)
Lemma patch_lengths_total cache n : cache_ok cache → 0 ≤ n → n + 28 ≤ U16_MAX →
  ∃ h, patch_xdp_udp_endpoint_header_lengths (ec_header cache) (ec_l2_len cache) n = Ret (Ok h) ∧
    len h = len (ec_header cache) ∧ bytes_ok h.
Proof.
  intros Hc Hn Hm. destruct (update_header_ok cache (mkInfo n None None) n Hc Hn) as (r & Hu & Hr).
  unfold update_xdp_udp_endpoint_header, validate_xdp_udp_endpoint_payload in Hu. cbn [ei_payload_len ei_mtu] in Hu.
  unfold U16_MAX, IPV4_MIN_HEADER_LEN, UDP_HEADER_LEN in *.
  destruct (Z.ltb_spec n n); [lia|]. destruct (Z.ltb_spec (65535 - 20 - 8) n); [lia|].
  apply bind_ret_inv in Hu as (r1 & Hp & Hu). destruct r1 as [h|e].
  - exists h. cbn in Hu. injection Hu as <-. destruct Hr as [[H1 H2 H3] H4]. cbn in *. split; [done|]. split; [|done].
    rewrite H2. symmetry. apply Hc.
  - unfold patch_xdp_udp_endpoint_header_lengths, U16_MAX, IPV4_MIN_HEADER_LEN, UDP_HEADER_LEN in Hp.
    destruct (Z.ltb_spec 65535 (n + 8 + 20)); [lia|]. repeat (apply bind_ret_inv in Hp as (? & ? & Hp)). done.
Qed.

Lemma patch_ok cache p mem at_ n h : cache_ok cache → cache_patch cache = Some p → 0 ≤ n → n + 28 ≤ U16_MAX →
  patch_xdp_udp_endpoint_header_lengths (ec_header cache) (ec_l2_len cache) n = Ret (Ok h) →
  0 ≤ at_ → at_ + len (ec_header cache) ≤ len mem →
  patch p (write_at mem at_ (ec_header cache)) at_ n = Ret (write_at mem at_ h).
Proof.
  intros Hc Hp Hn Hm Hh Ha Hl. destruct (cache_patch_inv cache p Hc Hp) as (t & c & Rt & Ht & Rc & Hc16 & -> & Hm2).
  unfold patch_xdp_udp_endpoint_header_lengths, U16_MAX, IPV4_MIN_HEADER_LEN, UDP_HEADER_LEN in *.
  destruct (Z.ltb_spec 65535 (n + 8 + 20)); [lia|]. rewrite Rt, Rc in Hh. cbn in Hh.
  rewrite !wrap_small in Hh by (unfold fits; lia).
  apply bind_ret_inv in Hh as (h1 & W1 & Hh). apply bind_ret_inv in Hh as (h2 & W2 & Hh). apply bind_ret_inv in Hh as (h3 & W3 & [= <-]).
  unfold patch, add_u16. cbn [hp_total_len_base hp_transport_len_base hp_old_checksum hp_old_total_len hp_total_len_offset hp_checksum_offset hp_transport_len_offset].
  rewrite wrap_small by (unfold fits; lia). change (2 ^ 16) with 65536.
  destruct (Z.ltb_spec (28 + n) 65536); [|lia]. run. destruct (Z.ltb_spec (8 + n) 65536); [|lia]. run.
  replace (28 + n) with (n + 8 + 20) by lia. replace (8 + n) with (n + 8) by lia.
  destruct (ptr_write_be_ok mem at_ _ _ _ _ Ha Hl W1) as [-> L1]. run.
  destruct (ptr_write_be_ok mem at_ h1 _ _ _ Ha ltac:(lia) W2) as [-> L2]. run.
  by destruct (ptr_write_be_ok mem at_ h2 _ _ _ Ha ltac:(lia) W3) as [-> L3].
Qed.

(** ** The packet loop *)
Section Loop.
Context {Cb : Type} (fill_payload : Cb → Z → list Z → outcome (Cb * list Z * Z)).

(** What the type of the callback says of it: it returns, keeps the slice's
    length, writes bytes, and reports a count. *)
Definition callback_ok : Prop :=
  ∀ cb i p, bytes_ok p → ∃ cb' p' n, fill_payload cb i p = Ret (cb', p', n) ∧ len p' = len p ∧ bytes_ok p' ∧ 0 ≤ n.

Context (capacity limit : Z) (expected : option Z).

(** The answer to a payload of [n] bytes. *)
Definition payload_answer (n : Z) : result unit Error :=
  if match expected with Some e => negb (n =? e) | None => false end then Err InvalidPacket
  else if limit <? n then Err OversizeForMtu
  else Ok tt.

(** Called with the indices from [i] on, each time with a slice of the
    capacity, the callback writes the payloads [ps], all accepted, ... *)
Inductive direct_fills : Cb → Z → list (list Z) → Cb → Prop :=
  | df_nil cb i : direct_fills cb i [] cb
  | df_cons cb i p cb1 p1 n ps cb2 :
      len p = capacity → fill_payload cb i p = Ret (cb1, p1, n) → payload_answer n = Ok tt →
      direct_fills cb1 (i + 1) ps cb2 → direct_fills cb i (take (Z.to_nat n) p1 :: ps) cb2.

(** ... or, after some of them, one that is refused. *)
Definition direct_refuses (cb : Cb) (i : Z) (e : Error) (cb2 : Cb) : Prop :=
  ∃ ps cb1 p p1 n, direct_fills cb i ps cb1 ∧ len p = capacity ∧
    fill_payload cb1 (i + len ps) p = Ret (cb2, p1, n) ∧ payload_answer n = Err e.

Context (cache : XdpUdpEndpointCache) (p : XdpEndpointHeaderPatch).
Context (Hcache : cache_ok cache) (Hpatch : cache_patch cache = Some p).
Context (fs header_start payload_start : Z).
Context (Hstart : header_start = payload_start - len (ec_header cache)) (H0 : 0 ≤ header_start).
Context (Hcap : 0 ≤ capacity) (Hfs : payload_start + capacity ≤ fs) (Hlim : limit ≤ capacity) (Hmax : limit + 28 ≤ U16_MAX).

(** The descriptor of a packet, and the bytes it has in [mem]. *)
Definition direct_frame (mem : list Z) (d : XdpDesc) (payload : list Z) : Prop :=
  xd_len d = len (ec_header cache) + len payload ∧
  ∃ h, patch_xdp_udp_endpoint_header_lengths (ec_header cache) (ec_l2_len cache) (len payload) = Ret (Ok h) ∧
    window mem (xd_addr d) (xd_len d) = h ++ payload.

(** Memory outside some frames. *)
Definition kept (frames : list Z) (mem mem' : list Z) : Prop :=
  len mem' = len mem ∧ (bytes_ok mem → bytes_ok mem') ∧
  ∀ s n, 0 ≤ s → 0 ≤ n → s + n ≤ len mem → (∀ f, f ∈ frames → s + n ≤ f ∨ f + fs ≤ s) → window mem' s n = window mem s n.

Lemma kept_refl frames mem : kept frames mem mem.
Proof. by split_and!. Qed.
Lemma kept_trans f1 f2 m1 m2 m3 : kept f1 m1 m2 → kept f2 m2 m3 → kept (f1 ++ f2) m1 m3.
Proof.
  intros (L1 & B1 & W1) (L2 & B2 & W2). split; [congruence|]. split; [auto|]. intros s n Hs Hn Hl Hf.
  rewrite W2, W1; try done; [|by rewrite L1|]; intros f Hin; apply Hf, elem_of_app; auto.
Qed.
Lemma kept_write f mem at_ xs : 0 ≤ f → f ≤ at_ → at_ + len xs ≤ f + fs → f + fs ≤ len mem → bytes_ok xs →
  kept [f] mem (write_at mem at_ xs).
Proof.
  intros H1 H2 H3 H4 Hb. pose proof (len_nonneg xs). split; [apply len_write_at; lia|]. split; [by intros; apply bytes_write_at|].
  intros s n Hs Hn Hl Hf. destruct (Hf f); [by apply list_elem_of_singleton| |]; apply window_write_out; lia.
Qed.

Lemma kept_perm f1 f2 m1 m2 : (∀ f, f ∈ f1 → f ∈ f2) → kept f1 m1 m2 → kept f2 m1 m2.
Proof. intros Hsub (L & B & W). split_and!; try done. intros s n Hs Hn Hl Hf. apply W; try done. auto. Qed.

Lemma answer_ok n : payload_answer n = Ok tt → n ≤ limit.
Proof. unfold payload_answer. destruct (match expected with Some e => _ | None => _ end); [done|]. by destruct (Z.ltb_spec limit n). Qed.

(** One packet. *)
Lemma packet_ok f mem p1 n : 0 ≤ f → f + fs ≤ len mem → bytes_ok p1 → len p1 = capacity → 0 ≤ n → payload_answer n = Ok tt →
  let mem1 := write_at mem (f + payload_start) p1 in
  ptr_write mem (f + payload_start) p1 = Ret mem1 ∧
  ∃ mem2, copy_endpoint_header (ec_header cache) mem1 (f + header_start) (len (ec_header cache))
          = Ret (write_at mem1 (f + header_start) (ec_header cache)) ∧
    patch p (write_at mem1 (f + header_start) (ec_header cache)) (f + header_start) n = Ret mem2 ∧
    add_u32 (len (ec_header cache)) (u32 n) = Ret (len (ec_header cache) + n) ∧
    direct_frame mem2 (mkXdpDesc (f + header_start) (len (ec_header cache) + n) 0) (take (Z.to_nat n) p1) ∧
    kept [f] mem mem2.
Proof.
  intros Hf0 Hf Hb Hl Hn Ha mem1. apply answer_ok in Ha. pose proof (len_nonneg (ec_header cache)).
  assert (Hl1 : len mem1 = len mem) by (apply len_write_at; lia). split; [apply ptr_write_ok; lia|].
  destruct (patch_lengths_total cache n Hcache Hn) as (h & Hh & Hlh & Hbh); [unfold U16_MAX in *; lia|].
  destruct (cache_patch_inv cache p Hcache Hpatch) as (_ & _ & _ & _ & _ & _ & _ & Hl2). destruct (Hcache) as [Hl2n Hlen _].
  exists (write_at mem1 (f + header_start) h). split_and!.
  - apply copy_header_ok; lia.
  - apply (patch_ok cache p); try done; unfold U16_MAX in *; lia.
  - unfold add_u32, U16_MAX in *. rewrite wrap_small by (unfold fits; lia). destruct (Z.ltb_spec (len (ec_header cache) + n) (2 ^ 32)); [done|lia].
  - assert (Hln : len (take (Z.to_nat n) p1) = n) by (rewrite len_take by lia; lia).
    unfold direct_frame. rewrite Hln. split; [done|]. exists h. split; [done|]. cbn [xd_addr xd_len].
    rewrite <- Hlh, window_app by (rewrite ?len_write_at; lia). f_equal; [apply window_write_in; lia|].
    rewrite window_write_out by lia. replace (f + header_start + len h) with (f + payload_start) by lia.
    rewrite <- (window_take _ _ capacity) by lia. f_equal. rewrite <- Hl. apply window_write_in; lia.
  - apply (kept_perm ([f] ++ [f])); [set_solver|]. apply (kept_trans _ _ _ mem1); apply kept_write; try done; lia.
Qed.

Definition batch_bytes (l3 : Z) (ps : list (list Z)) : Z := foldr (λ q acc, l3 + len q + acc) 0 ps.

Lemma frames_apart a b : 0 < fs → a mod fs = 0 → b mod fs = 0 → a ≠ b → a + fs ≤ b ∨ b + fs ≤ a.
Proof.
  intros Hp Ha Hb Hne. apply Z.div_exact in Ha, Hb; [|lia|lia]. assert (a / fs ≠ b / fs) by (intros E; rewrite E in Ha; congruence). nia.
Qed.

Lemma direct_frame_kept mem mem' d q f frames : 0 < fs → 0 ≤ f → f + fs ≤ len mem → xd_addr d = f + header_start → len q ≤ capacity →
  Forall (λ f, f mod fs = 0) (f :: frames) → f ∉ frames → kept frames mem mem' → direct_frame mem d q → direct_frame mem' d q.
Proof.
  intros Hp Hf0 Hf Ha Hq [Hm Hms]%Forall_cons Hni (_ & _ & Hw) (Hl & h & Hh & Hwin). split; [done|]. exists h. split; [done|].
  rewrite <- Hwin. pose proof (len_nonneg q). pose proof (len_nonneg (ec_header cache)). apply Hw; try lia.
  intros f' Hf'. rewrite Forall_forall in Hms. destruct (frames_apart f f' Hp Hm (Hms f' Hf')); [congruence|lia|lia].
Qed.

Lemma packet_loop_ok l3 : callback_ok → 0 < fs → 0 ≤ l3 ≤ 28 → ∀ frames i bytes mem cb,
  bytes_ok mem → Forall (λ f, 0 ≤ f ∧ f + fs ≤ len mem) frames → Forall (λ f, f mod fs = 0) frames → NoDup frames →
  0 ≤ bytes → bytes + len frames * 65536 ≤ USIZE_MAX →
  ∃ mem' cb' r, packet_loop fill_payload (ec_header cache) header_start payload_start l3 capacity limit expected p
      frames i bytes mem cb = Ret (mem', cb', r) ∧ kept frames mem mem' ∧
    match r with
    | Ok (descs, bytes') => ∃ ps, direct_fills cb i ps cb' ∧ xd_addr <$> descs = (λ f, f + header_start) <$> frames ∧
        Forall2 (direct_frame mem') descs ps ∧ bytes' = bytes + batch_bytes l3 ps
    | Err e => direct_refuses cb i e cb'
    end.
Proof.
  intros Hcb Hp Hl3. induction frames as [|f frames IH]; intros i bytes mem cb Hb Hr Hm Hnd Hb0 Hbm; cbn [packet_loop].
  { eexists _, _, _. split; [done|]. split; [apply kept_refl|]. exists []. split; [constructor|]. split; [done|]. cbn. split; [done|lia]. }
  apply Forall_cons in Hr as [[Hf0 Hf] Hr]. apply NoDup_cons in Hnd as [Hni Hnd]. pose proof (proj1 (Forall_cons _ _ _) Hm) as [_ Hms].
  pose proof (len_nonneg (ec_header cache)). rewrite ptr_read_ok by lia. run.
  assert (Hlr : len (window mem (f + payload_start) capacity) = capacity) by (apply len_window; lia).
  destruct (Hcb cb i (window mem (f + payload_start) capacity)) as (cb1 & p1 & n & Hfill & Hl1 & Hb1 & Hn).
  { unfold bytes_ok, window. by apply Forall_take, Forall_drop. }
  rewrite Hfill. run. rewrite Hlr in Hl1.
  assert (Hw1 : ptr_write mem (f + payload_start) p1 = Ret (write_at mem (f + payload_start) p1)) by (apply ptr_write_ok; lia).
  rewrite Hw1. run.
  assert (Hrej : ∀ e, payload_answer n = Err e → kept (f :: frames) mem (write_at mem (f + payload_start) p1) ∧ direct_refuses cb i e cb1).
  { intros e He. split.
    - apply (kept_perm [f]); [set_solver|]. apply kept_write; try done; lia.
    - exists [], cb, (window mem (f + payload_start) capacity), p1, n. split; [constructor|]. change (len []) with 0.
      rewrite Z.add_0_r. done. }
  unfold payload_answer in Hrej. destruct (match expected with Some e => _ | None => _ end) eqn:Eexp.
  { eexists _, _, _. split; [done|]. by apply Hrej. }
  destruct (limit <? n) eqn:Elim.
  { eexists _, _, _. split; [done|]. by apply Hrej. }
  assert (Hans : payload_answer n = Ok tt) by (unfold payload_answer; by rewrite Eexp, Elim).
  destruct (packet_ok f mem p1 n Hf0 Hf Hb1 Hl1 Hn Hans) as (_ & mem2 & -> & Hpt & Hadd & Hdf & Hk). run. rewrite Hpt. run. rewrite Hadd. run.
  pose proof (answer_ok n Hans) as Hnl. unfold U16_MAX in Hmax. rewrite len_cons in Hbm. pose proof (len_nonneg frames).
  rewrite add_usize_ok by lia. run.
  destruct (IH (i + 1) (bytes + (l3 + n)) mem2 cb1) as (mem3 & cb3 & r & -> & Hk3 & Hres); try done; try lia; [by apply Hk|by rewrite (proj1 Hk)|].
  run. eexists _, _, _. split; [done|]. split; [exact (kept_trans [f] _ _ _ _ Hk Hk3)|].
  assert (Hln : len (take (Z.to_nat n) p1) = n) by (rewrite len_take by lia; lia).
  destruct r as [[descs bytes']|e].
  - destruct Hres as (ps & Hfs' & Ha & HF & ->). exists (take (Z.to_nat n) p1 :: ps). split_and!.
    + eapply df_cons; [exact Hlr|done|done|done].
    + cbn. by rewrite Ha.
    + constructor; [|done]. eapply (direct_frame_kept mem2 mem3 _ _ f frames); try done; try lia.
      by rewrite (proj1 Hk).
    + cbn [batch_bytes foldr]. fold (batch_bytes l3 ps). lia.
  - destruct Hres as (ps & cbk & q & q1 & m & Hfs' & Hlq & Hfq & Haq).
    exists (take (Z.to_nat n) p1 :: ps), cbk, q, q1, m. split; [eapply df_cons; [exact Hlr|done|done|done]|].
    rewrite len_cons. replace (i + (len ps + 1)) with (i + 1 + len ps) by lia. done.
Qed.
End Loop.

(** ** The batch of a socket *)
Section Socket.
Context (g : Geometry) (cfg : XdpConfig) (Hg : geometry_ok g) (Hcfg : config_ok g cfg) (debug : bool).
Context {Q : Type} `{Hq : ArrayQueue Q Z, !ArrayQueueLaws Q Z}.
Context {Cb : Type} (fill_payload : Cb → Z → list Z → outcome (Cb * list Z * Z)) (Hcb : callback_ok fill_payload).
Implicit Types (w : World (Q := Q)).

Definition tx_offset : Z := data_offset (bc_layout (cf_tx_ctx cfg)).
Definition direct_limit (capacity : Z) : Z := Z.min capacity (U16_MAX - 28).
(** Header and payload capacity fit in a frame around the data offset. *)
Definition direct_fits (cache : XdpUdpEndpointCache) (capacity : Z) : Prop :=
  len (ec_header cache) ≤ tx_offset ∧ tx_offset + capacity ≤ g_size g.

Lemma tx_frames_ok q w r xs : winv g cfg q w → Permutation (r ++ xs) (held (xs_tx (w_sock w))) →
  NoDup xs ∧ Forall (λ f, f mod g_size g = 0) xs ∧ Forall (λ f, 0 ≤ f ∧ f + g_size g ≤ len (um_backing (xs_umem (w_sock w)))) xs.
Proof.
  intros Hw Hp. pose proof (wi_txclass _ _ _ _ Hw) as Ht. rewrite <- Hp, Forall_app in Ht. destruct Ht as [_ Ht].
  pose proof (fs_pos g Hg). pose proof (go_rx g Hg). split_and!.
  - apply nodup_cnt. intros a. pose proof (winv_cnt g cfg Hg q w a Hw) as Hc. apply (proj1 (perm_cnt _ _)) with (a := a) in Hp.
    unfold places in Hc. autorewrite with cnt in *. 
    repeat match goal with H : context [cnt a ?l] |- _ => lazymatch goal with _ : 0 ≤ cnt a l |- _ => fail | _ => pose proof (cnt_nonneg a l) end end. lia.
  - eapply Forall_impl; [exact Ht|]. by intros f [Hm _].
  - eapply Forall_impl; [exact Ht|]. intros f [Hm Hf]. destruct (wi_umem _ _ _ _ Hw) as (_ & _ & Hu). unfold umem_len in Hu.
    rewrite (wi_fs _ _ _ _ Hw), (wi_count _ _ _ _ Hw) in Hu. split; [nia|].
    apply Z.div_exact in Hm; [|lia]. assert (f / g_size g < g_frames g) by (apply Z.div_lt_upper_bound; lia). nia.
Qed.

Lemma descs_frames cache capacity (descs : list XdpDesc) : 0 ≤ capacity → cache_ok cache → direct_fits cache capacity →
  ∀ frames, xd_addr <$> descs = (λ f, f + (tx_offset - len (ec_header cache))) <$> frames →
  Forall (λ f, f mod g_size g = 0) frames → desc_frame g <$> descs = frames.
Proof.
  intros Hcap [Hl2n Hlen _] [Hf1 Hf2]. induction descs as [|d descs IH]; intros [|f frames] Ha Hal; try done.
  injection Ha as Ha Has. apply Forall_cons in Hal as [Hf Hal].
  cbn. f_equal; [|by apply IH]. unfold desc_frame. rewrite Ha. apply frame_of_offset; [done|lia].
Qed.

(** What a prepared batch is: the frames of its descriptors are out of the
    free list, in buffers [hs] the application does not see, and hold what the
    callback wrote; or nothing has left the free list. *)
Definition prepared_direct q w cache (capacity : Z) (expected : option Z) (max : Z) (cb : Cb) (s : XdpSocket Q)
    (out : list XdpDesc) (cb' : Cb) (r : result XdpPreparedTxBatch Error) : Prop :=
  match r with
  | Err e => winv g cfg q (with_sock w s) ∧
      (¬ direct_fits cache capacity ∧ e = InvalidPacket ∧ cb' = cb ∨
       direct_fits cache capacity ∧ direct_refuses fill_payload capacity (direct_limit capacity) expected cb 0 e cb')
  | Ok b => ∃ hs ps, winv g cfg q (with_app w s (w_app w ++ hs)) ∧ desc_frame g <$> out = haddr <$> hs ∧
      direct_fits cache capacity ∧
      pb_prepared b = len out ∧ len out = Z.min max (len (held (xs_tx (w_sock w)))) ∧
      len (held (xs_tx s)) = len (held (xs_tx (w_sock w))) - len out ∧ pb_tx_bytes b = batch_bytes 28 ps ∧
      direct_fills fill_payload capacity (direct_limit capacity) expected cb 0 ps cb' ∧
      Forall2 (direct_frame cache (um_backing (xs_umem s))) out ps
  end.

(** The frames taken: the last ones of the free list, the last first. *)
Lemma popped (free : list Z) k : 0 ≤ k ≤ len free →
  let m := Z.to_nat (len free - k) in
  len (rev (drop m free)) = k ∧ Permutation (take m free ++ rev (drop m free)) free.
Proof.
  intros Hk m. unfold len in *. rewrite length_rev, length_drop. split; [lia|].
  rewrite <- Permutation_rev. by rewrite take_drop.
Qed.

Lemma prepare_endpoint_batch_ok q w cache p capacity expected max cb :
  winv g cfg q w → cache_ok cache → cache_patch cache = Some p → 0 ≤ capacity → 0 < max →
  ∃ s out cb' r, prepare_endpoint_batch fill_payload cfg (w_sock w) [] (ec_header cache) (ec_l2_len cache) capacity expected p max cb
      = Ret (s, out, cb', r) ∧ prepared_direct q w cache capacity expected max cb s out cb' r.
Proof.
  intros Hw Hc Hp Hcap Hmax. pose proof (fs_pos g Hg) as Hfs0. pose proof (fs_bound g Hg).
  destruct (cache_patch_inv cache p Hc Hp) as (t & c & _ & _ & _ & _ & Ep & Hl2). destruct (Hc) as [Hl2n Hlen _].
  unfold U16_MAX in Hl2. unfold prepare_endpoint_batch. destruct (Z.eqb_spec max 0); [lia|]. cbv zeta. fold tx_offset.
  assert (Hbad : ¬ direct_fits cache capacity → ∃ s out cb' r, Ret (w_sock w, [], cb, Err InvalidPacket) = Ret (s, out, cb', r) ∧
    prepared_direct q w cache capacity expected max cb s out cb' r).
  { intros Hn. eexists _, _, _, (Err InvalidPacket). split; [done|]. split; [by destruct w|]. by left. }
  unfold checked_sub at 1, checked_add at 1. destruct (Z.leb_spec (len (ec_header cache)) tx_offset).
  2:{ apply Hbad. unfold direct_fits. lia. }
  pose proof (co_offset g cfg Hcfg) as Hoff. fold tx_offset in Hoff.
  destruct (Z.ltb_spec (len (ec_header cache) + capacity) (2 ^ 64)); [|apply Hbad; unfold direct_fits; lia]. unfold checked_add at 1.
  destruct (Z.ltb_spec (tx_offset - len (ec_header cache) + (len (ec_header cache) + capacity)) (2 ^ 64)); [|apply Hbad; unfold direct_fits; lia].
  rewrite (wi_fs _ _ _ _ Hw).
  destruct (Z.ltb_spec (g_size g) (tx_offset - len (ec_header cache) + (len (ec_header cache) + capacity))).
  { apply Hbad. unfold direct_fits. lia. }
  assert (Hfit : direct_fits cache capacity) by (unfold direct_fits; lia).
  destruct (Z.ltb_spec (len (ec_header cache)) (ec_l2_len cache)); [lia|]. cbn [orb].
  assert (Hreq : required_header_len p = Some (ec_l2_len cache + 26)).
  { rewrite Ep. unfold required_header_len, checked_add. cbn [hp_total_len_offset hp_checksum_offset hp_transport_len_offset].
    destruct (Z.ltb_spec (Z.max (Z.max (ec_l2_len cache + 2) (ec_l2_len cache + 10)) (ec_l2_len cache + 24) + 2) (2 ^ 64)); [f_equal; lia|lia]. }
  rewrite Hreq. destruct (Z.ltb_spec (len (ec_header cache)) (ec_l2_len cache + 26)); [lia|].
  unfold U32_MAX. destruct (Z.ltb_spec 4294967295 (len (ec_header cache))); [lia|].
  assert (Hbase : checked_sub U16_MAX (hp_total_len_base p) = Some (U16_MAX - 28)) by (by rewrite Ep).
  rewrite Hbase. unfold checked_sub at 1. destruct (Z.leb_spec (ec_l2_len cache) (len (ec_header cache))); [|lia].
  replace (len (ec_header cache) - ec_l2_len cache) with 28 by lia. fold (direct_limit capacity).
  destruct (wi_txp _ _ _ _ Hw) as [Hok Hrc]. destruct (refill_ok _ _ max Hok) as (tx & -> & Hok1 & Hp1 & Hmin & Hc1). run.
  set (k := Z.min max (len (rc_free tx))) in *. pose proof (len_nonneg (rc_free tx)).
  destruct (popped (rc_free tx) k) as [Hpl Hpp]; [lia|]. cbv zeta in Hpl, Hpp. set (m := Z.to_nat (len (rc_free tx) - k)) in *.
  set (frames := rev (drop m (rc_free tx))) in *.
  assert (Hpf : Permutation (held (mkReclaim (take m (rc_free tx)) (rc_cap tx) (rc_remote tx)) ++ frames) (held (xs_tx (w_sock w)))).
  { rewrite <- Hp1. rewrite held_free. unfold held at 1, remote_items at 1. rewrite <- Hpp at 2.
    rewrite <- !app_assoc. apply Permutation_app_head, Permutation_app_comm. }
  destruct (tx_frames_ok q w _ frames Hw Hpf) as (Hnd & Hal & Hin).
  cbn [set_pools xs_umem].
  destruct (packet_loop_ok fill_payload capacity (direct_limit capacity) expected cache p Hc Hp (g_size g)
    (tx_offset - len (ec_header cache)) tx_offset eq_refl) with (l3 := 28) (frames := frames) (i := 0) (bytes := 0)
    (mem := um_backing (xs_umem (w_sock w))) (cb := cb) as (mem' & cb' & r & -> & (Hlm & Hbm & _) & Hr); try done; try lia.
  { unfold direct_limit. lia. }
  { unfold direct_limit, U16_MAX. lia. }
  { apply Hw. }
  { pose proof (winv_len g cfg Hg q w Hw) as Hl. pose proof (go_frames g Hg). unfold places, USIZE_MAX, U64_MAX, U32_MAX, len in *.
    rewrite !length_app in Hl. lia. }
  run. destruct r as [[descs bytes]|e].
  - destruct Hr as (ps & Hf & Ha & HF & ->). eexists _, _, _, _. split; [done|].
    set (tx' := mkReclaim _ _ _) in *.
    assert (Hok' : reclaim_ok (g_frames g - g_rx g) tx').
    { destruct Hok1 as [Hl1 Hb1 Hcp1 Hv1]. constructor; try done. cbn. unfold len in *. rewrite length_take. lia. }
    pose proof (winv_take_tx g cfg Hg Hcfg q w tx' frames Hw Hok' ltac:(cbn; lia) Hpf) as Hw1.
    pose proof (winv_mem g cfg q _ mem' Hw1 Hlm (Hbm (wi_bytes _ _ _ _ Hw))) as Hw2.
    eexists _, ps. split; [exact Hw2|]. rewrite haddr_fresh.
    assert (Hld : len descs = k). { rewrite <- Hpl. apply (f_equal length) in Ha. unfold len. rewrite !length_fmap in Ha. by rewrite Ha. }
    assert (Hlh : len (held tx') = len (held (xs_tx (w_sock w))) - k).
    { apply Permutation_length in Hpf. rewrite length_app in Hpf. unfold len in *. lia. }
    split_and!; try done; try (cbn in *; lia). by apply (descs_frames cache capacity).
  - eexists _, _, _, _. split; [done|]. split; [|by right].
    pose proof (winv_take_tx g cfg Hg Hcfg q w tx [] Hw Hok1 ltac:(lia) ltac:(by rewrite app_nil_r)) as Hw1.
    cbn [fmap list_fmap] in Hw1. rewrite app_nil_r in Hw1. exact (winv_mem g cfg q _ mem' Hw1 Hlm (Hbm (wi_bytes _ _ _ _ Hw))).
Qed.

Lemma submit_direct_ok wake q w hs others out b :
  winv g cfg q w → w_app w = hs ++ others → desc_frame g <$> out = haddr <$> hs → pb_prepared b = len out →
  len out ≤ sz_tx (cf_rings cfg) - len (q_tx q) →
  ∃ s r, submit_direct cfg wake (w_sock w) out b = Ret (s, r) ∧
    (r = Ok (len out) ∨ ∃ e, wake = Err e ∧ r = Err (mkSendError (len out) (device_error e))) ∧
    xs_umem s = xs_umem (w_sock w) ∧ xs_tx s = xs_tx (w_sock w) ∧
    winv g cfg (mkQueues (q_fill q) (q_tx q ++ out) (q_comp q) (q_rx q)) (with_app w s others).
Proof.
  intros Hw Happ Hd Hb Hroom. pose proof (len_nonneg out). pose proof (len_nonneg (q_tx q)).
  destruct (pring_size _ _ _ _ (wi_tx _ _ _ _ Hw)) as [Hs _]. pose proof (ring_size_pos _ Hs).
  destruct (pring_enqueue _ _ out _ _ (wi_tx _ _ _ _ Hw)) as (p & m & Henq & Hp); [unfold U32_MAX; lia|].
  rewrite Z.min_l in Henq, Hp by lia. rewrite take_ge in Hp by (unfold len; lia).
  unfold submit_direct. rewrite Hb. destruct (Z.eqb_spec (len out) 0) as [E0|E0].
  { assert (out = []) as -> by (apply nil_length_inv; unfold len in E0; lia). symmetry in Hd. apply fmap_nil_inv in Hd as ->.
    eexists _, _. split; [done|]. split; [by left|]. split; [done|]. split; [done|]. rewrite app_nil_r. cbn in Happ. destruct q, w. cbn in *. by subst. }
  assert (Hsl : slice_or_panic out 0 (len out) = Ret out).
  { unfold slice_or_panic. pose proof (slice_window out 0 (len out)) as Hw0. rewrite Z.add_0_l, window_all in Hw0. by rewrite Hw0 by lia. }
  rewrite Hsl. run.
  rewrite Henq. run. rewrite Z.eqb_refl. run.
  change (xs_in_flight (set_tx_ring (w_sock w) p (commit p m))) with (xs_in_flight (w_sock w)).
  rewrite (flight_bound g cfg Hg q w out Hw) by lia. destruct (Z.ltb_spec 0 (len out)); [|lia].
  pose proof (winv_submit g cfg q w hs [] others out p (commit p m) (saturating_add 64 (xs_since (w_sock w)) (len out)) Hw Happ
    ltac:(by rewrite Hd, app_nil_r) ltac:(constructor) Hp) as Hfin.
  destruct (_ || _); [destruct wake as [[]|err]|]; (eexists _, _; split; [done|]; split; [by eauto|]; split; [done|]; split; [done|]; constructor; apply Hfin).
Qed.

(** ** The whole send *)
Lemma refresh_info {R} `{XdpUdpRouter R} (router : R) local_ip local_port ttl context ep ep' r :
  refresh_udp_endpoint_cache router local_ip local_port ttl context ep = Ret (ep', r) →
  0 ≤ ei_mtu (xe_info ep) → 0 ≤ ei_mtu (xe_info ep').
Proof.
  unfold refresh_udp_endpoint_cache. intros Hr Hi. destruct (match xe_cached ep with Some c => _ | None => _ end); [by injection Hr as <- <-|].
  cbn [xe_spec xe_info] in Hr. apply bind_ret_inv in Hr as (b & Hb & Hr). destruct b as [[c i]|e]; [|by injection Hr as <- <-].
  injection Hr as <- <-. cbn [xe_info]. unfold build_xdp_udp_endpoint_cache in Hb.
  destruct (sp_destination (xe_spec ep)); [|done]. destruct (source_v4 _ _); [|done]. destruct (sp_gso_segment_size _); [done|].
  apply bind_ret_inv in Hb as (o & _ & Hb). destruct o as [res|]; [|done]. unfold checked_sub in Hb.
  destruct (Z.leb_spec (IPV4_MIN_HEADER_LEN + UDP_HEADER_LEN) (ip_mtu res)); [|done]. cbv zeta in Hb.
  destruct (validate_xdp_udp_endpoint_payload _ _); [|done]. destruct (U16_MAX <? _); [done|].
  apply bind_ret_inv in Hb as (l2 & _ & Hb). apply bind_ret_inv in Hb as (ih & _ & Hb). injection Hb as _ <-. cbn. lia.
Qed.

(** The packets of a batch through an endpoint: its callback filled them, and
    the memory holds them at the descriptors. *)
Definition direct_packets (ep : XdpUdpEndpoint) (cb : Cb) (descs : list XdpDesc) (mem : list Z) (cb' : Cb) : Prop :=
  let capacity := ei_mtu (xe_info ep) in
  ∃ cache ps, xe_cached ep = Some cache ∧
    direct_fills fill_payload capacity (direct_limit capacity) (ei_payload_len (xe_info ep)) cb 0 ps cb' ∧
    Forall2 (direct_frame cache mem) descs ps.

Section Send.
Context {R : Type} `{XdpUdpRouter R} (router : R).
Context (local_ip local_port ttl : Z) (Hsock : socket_ok local_ip local_port ttl).
Let context := mkRouteContext (cf_ifindex cfg) (cf_queue cfg) (cf_mtu cfg).

(** Why a send refuses: its endpoint has no route any more, its header does
    not fit a frame, or the callback returned a length it may not. *)
Definition direct_refusal (ep ep' : XdpUdpEndpoint) (cb : Cb) (e : Error) (cb' : Cb) : Prop :=
  let capacity := ei_mtu (xe_info ep') in
  refresh_udp_endpoint_cache router local_ip local_port ttl context ep = Ret (ep', Err e) ∧ cb' = cb ∨
  (∃ cache, xe_cached ep' = Some cache ∧ (cache_patch cache = None ∨ ¬ direct_fits cache capacity) ∧ e = InvalidPacket ∧ cb' = cb) ∨
  direct_refuses fill_payload capacity (direct_limit capacity) (ei_payload_len (xe_info ep')) cb 0 e cb'.

(** What a send does: [descs] enter the TX ring. Nothing is sent when it is
    refused, and everything prepared on an error of the wake-up; a shorter
    batch than asked for has filled the ring or used the last frame. *)
Definition direct_sent q w (ep ep' : XdpUdpEndpoint) (wake : result unit string) (max : Z) (cb : Cb) (s : XdpSocket Q) (cb' : Cb)
    (r : result Z SendError) : Prop :=
  ∃ descs q', winv g cfg q' (with_sock w s) ∧ q_tx q' = q_tx q ++ descs ∧ accepted_of r = len descs ∧ len descs ≤ max ∧
  match r with
  | Ok k => (k = 0 ∧ cb' = cb ∨ direct_packets ep' cb descs (um_backing (xs_umem s)) cb') ∧
      (k = max ∨ len (q_tx q') = sz_tx (cf_rings cfg) ∨ held (xs_tx s) = [])
  | Err (mkSendError k e) =>
      k = 0 ∧ direct_refusal ep ep' cb e cb' ∨
      direct_packets ep' cb descs (um_backing (xs_umem s)) cb' ∧ ∃ msg, wake = Err msg ∧ e = device_error msg
  end.

Lemma direct_none q q1 w ep ep' wake max cb s cb' r : winv g cfg q1 (with_sock w s) → q_tx q1 = q_tx q → 0 ≤ max →
  match r with
  | Ok k => k = 0 ∧ cb' = cb ∧ (max = 0 ∨ len (q_tx q) = sz_tx (cf_rings cfg))
  | Err (mkSendError k e) => k = 0 ∧ direct_refusal ep ep' cb e cb'
  end → direct_sent q w ep ep' wake max cb s cb' r.
Proof.
  intros Hw Hq' Hm Hr. exists [], q1. rewrite app_nil_r, Hq'. split; [done|]. split; [done|].
  destruct r as [k|[k e]]; cbn [accepted_of se_accepted]; change (len []) with 0.
  - destruct Hr as (-> & -> & Hr). split_and!; try done; [by left|]. destruct Hr as [->|Hr]; [by left|right; by left].
  - destruct Hr as [-> Hr]. split_and!; try done. by left.
Qed.

Context (Hrouter : router_ok router context) (Hbytes : router_bytes router context).

Lemma send_direct_ok wake q w ep max cb : winv g cfg q w → endpoint_ok ep → 0 ≤ ei_mtu (xe_info ep) → 0 ≤ max →
  ∃ s ep' cb' r,
    send_udp_endpoint_direct_batch fill_payload debug cfg router local_ip local_port ttl wake (w_sock w) ep max cb = Ret (s, ep', cb', r) ∧
    endpoint_ok ep' ∧ direct_sent q w ep ep' wake max cb s cb' r.
Proof.
  intros Hw Hep Hmtu Hmax. unfold send_udp_endpoint_direct_batch. cbv zeta. fold context. destruct (Z.eqb_spec max 0) as [->|].
  { eexists _, _, _, _. split; [done|]. split; [done|]. apply (direct_none q q); [by destruct w|done|done|by auto]. }
  destruct (refresh_ok router local_ip local_port ttl Hsock context Hrouter Hbytes ep Hep) as (ep1 & r1 & He & Hep1 & Hc).
  pose proof (refresh_info router local_ip local_port ttl context ep ep1 r1 He Hmtu) as Hmtu1.
  rewrite He. run. destruct r1 as [[]|err].
  2:{ eexists _, _, _, _. split; [done|]. split; [done|]. apply (direct_none q q); [by destruct w|done|done|]. split; [done|by left]. }
  destruct Hc as [c Hc]. rewrite Hc. fold (cache_patch c). destruct (cache_patch c) as [p|] eqn:Hp.
  2:{ eexists _, _, _, _. split; [done|]. split; [done|]. apply (direct_none q q); [by destruct w|done|done|].
      split; [done|]. right; left. exists c. eauto. }
  destruct (reserve_tx_ok g cfg Hg Hcfg debug q w Hw) as (s1 & q1 & -> & Hw1 & Htx). run.
  set (room := sz_tx (cf_rings cfg) - len (q_tx q)) in *.
  pose proof (pring_size _ _ _ _ (wi_tx _ _ _ _ Hw)) as [_ Hroom].
  destruct (Z.eqb_spec room 0) as [Hr0|Hr0].
  { run. eexists _, _, _, _. split; [done|]. split; [done|]. apply (direct_none q q1); [done|done|done|].
    split_and!; try done. right. lia. }
  assert (Hcache : cache_ok c). { destruct Hep1 as [_ Hcc]. by rewrite Hc in Hcc. }
  destruct (prepare_endpoint_batch_ok q1 _ c p (ei_mtu (xe_info ep1)) (ei_payload_len (xe_info ep1)) (Z.min max room) cb Hw1 Hcache Hp Hmtu1)
    as (s2 & out & cb2 & r & Hprep & Hpr); [lia|]. cbn [with_sock w_sock] in Hprep. rewrite Hprep. run.
  destruct r as [b|e].
  2:{ eexists _, _, _, _. split; [done|]. split; [done|]. destruct Hpr as [Hw2 Hre]. apply (direct_none q q1); [done|done|done|].
      split; [done|]. destruct Hre as [(Hn & -> & ->)|[_ Hre]]; right; [left; exists c; eauto|by right]. }
  destruct Hpr as (hs & ps & Hw2 & Hd & Hfit & Hb & Hlo & Hheld & _ & Hfill & HF).
  pose proof (winv_perm g cfg q1 _ (hs ++ w_app w) Hw2 ltac:(apply Permutation_app_comm)) as Hw3.
  destruct (submit_direct_ok wake q1 _ hs (w_app w) out b Hw3 eq_refl Hd Hb) as (s4 & r4 & Hsub & Hr4 & Hum & Htxe & Hw4).
  { rewrite Htx. fold room. lia. }
  cbn [with_app with_sock w_sock] in Hsub, Hum, Htxe. rewrite Hsub. run. eexists _, _, _, _. split; [done|]. split; [done|].
  exists out, (mkQueues (q_fill q1) (q_tx q1 ++ out) (q_comp q1) (q_rx q1)). split; [exact Hw4|]. cbn [q_tx]. rewrite Htx. split; [done|].
  assert (Hpk : direct_packets ep1 cb out (um_backing (xs_umem s4)) cb2) by (exists c, ps; by rewrite Hum).
  destruct Hr4 as [->|(msg & -> & ->)]; cbn [accepted_of se_accepted]; (split; [done|]; split; [lia|]).
  - split; [by right|]. rewrite Htxe, len_app. pose proof (len_nonneg out).
    destruct (decide (len out = max)); [by left|]. right. destruct (decide (len out = room)); [left; lia|]. right.
    apply nil_length_inv. cbn [with_sock w_sock] in Hlo, Hheld. unfold len in *. lia.
  - right. split; [done|]. by exists msg.
Qed.
End Send.
End Socket.
