(* ===== verification/LiveMain.v ===== *)
(** * Properties of the live AF_XDP socket

    Every interleaving of the socket's operations, of drops on other threads
    and of the kernel's steps, from the opening on; and IP packets from one
    socket to another: what the IP packet socket puts in a transmit frame, the
    receive loop of an IP packet socket that is handed the same bytes delivers
    unchanged. *)
From S2P Require Import Prelude Bits Core Buffer Umem Window PacketBuf PacketBufProofs Ring RingProofs RingMain.
From S2P Require Import PoptrieEmit Wire WireProofs WireMain XdpUdp XdpUdpMain Reclaim ReclaimProofs ReclaimMain.
From S2P Require Import Live LiveRing LiveProofs LiveTx LiveSend LiveRx LiveSteps LiveIp Direct DirectProofs.
Open Scope Z_scope.

Section Reach.
Context (g : Geometry) (cfg : XdpConfig) (debug : bool).
Context {Q : Type} `{Hq : ArrayQueue Q Z}.

Definition route_ctx : XdpRouteContext := mkRouteContext (cf_ifindex cfg) (cf_queue cfg) (cf_mtu cfg).

(** One step. The kernel takes FILL and TX entries, reports receptions and
    completions of frames it holds, and sets wake-up flags; packet memory may
    be rewritten at any time; the application moves the bounds of its
    buffers, drops them, and calls the socket. *)
Inductive lstep : World (Q := Q) → World (Q := Q) → Prop :=
  | l_kernel_fill w l :
      kernel_takes (sz_fill (cf_rings cfg)) (fill_mmap (xs_raw (w_sock w))) l →
      lstep w (mkWorld (set_fill (w_sock w) (fill_prod (xs_raw (w_sock w))) (ring_taken (fill_mmap (xs_raw (w_sock w))) l))
                 (w_app w) (w_krx w ++ l) (w_ktx w))
  | l_kernel_tx w l :
      kernel_takes (sz_tx (cf_rings cfg)) (tx_mmap (xs_raw (w_sock w))) l →
      lstep w (mkWorld (set_tx_ring (w_sock w) (tx_prod (xs_raw (w_sock w))) (ring_taken (tx_mmap (xs_raw (w_sock w))) l))
                 (w_app w) (w_krx w) (w_ktx w ++ (desc_frame g <$> l)))
  | l_kernel_rx w k1 k2 d m :
      w_krx w = k1 ++ desc_frame g d :: k2 → desc_ok g d →
      kernel_pushes (sz_rx (cf_rings cfg)) (rx_mmap (xs_raw (w_sock w))) m d →
      lstep w (mkWorld (set_rx_ring (w_sock w) (rx_cons (xs_raw (w_sock w))) m) (w_app w) (k1 ++ k2) (w_ktx w))
  | l_kernel_comp w k1 k2 a m :
      w_ktx w = k1 ++ frame_of (g_size g) a :: k2 →
      kernel_pushes (sz_completion (cf_rings cfg)) (comp_mmap (xs_raw (w_sock w))) m a →
      lstep w (mkWorld (set_comp (w_sock w) (comp_cons (xs_raw (w_sock w))) m) (w_app w) (w_krx w) (k1 ++ k2))
  | l_kernel_flags w f1 f2 :
      lstep w (with_sock w (set_fill (set_tx_ring (w_sock w) (tx_prod (xs_raw (w_sock w))) (set_flags (tx_mmap (xs_raw (w_sock w))) f1))
                 (fill_prod (xs_raw (w_sock w))) (set_flags (fill_mmap (xs_raw (w_sock w))) f2)))
  | l_memory w mem :
      len mem = mem_size w → bytes_ok mem → lstep w (with_sock w (set_mem (w_sock w) mem))
  | l_handles w app :
      Forall (handle_ok g cfg (mem_size w)) app → haddr <$> app = haddr <$> w_app w → lstep w (with_app w (w_sock w) app)
  | l_drop w owner l1 h l2 s :
      w_app w = l1 ++ h :: l2 → drop_packet owner (w_sock w) h = Ret s → lstep w (with_app w s (l1 ++ l2))
  | l_drain w s r :
      drain_tx_completions_inner debug cfg (w_sock w) = Ret (s, r) → lstep w (with_sock w s)
  | l_allocate w out max s hs r :
      0 ≤ max → allocate_tx_batch_inner debug cfg (w_sock w) out max = Ret (s, out ++ hs, r) →
      lstep w (with_app w s (w_app w ++ hs))
  | l_send {R} `{XdpUdpRouter R} (router : R) w local_ip local_port ttl wake batch others s batch' r :
      socket_ok local_ip local_port ttl → router_ok router route_ctx → router_bytes router route_ctx →
      Permutation (w_app w) (slot_handles ut_packet batch ++ others) → Forall udp_slot_ok batch →
      send_udp_inner debug cfg router local_ip local_port ttl wake (w_sock w) batch = Ret (s, batch', r) →
      lstep w (with_app w s (slot_handles ut_packet batch' ++ others))
  | l_send_endpoint {R} `{XdpUdpRouter R} (router : R) w local_ip local_port ttl wake ep batch others s ep' batch' r :
      socket_ok local_ip local_port ttl → router_ok router route_ctx → router_bytes router route_ctx → endpoint_ok ep →
      Permutation (w_app w) (slot_handles et_packet batch ++ others) →
      send_udp_endpoint_inner debug cfg router local_ip local_port ttl wake (w_sock w) ep batch = Ret (s, ep', batch', r) →
      lstep w (with_app w s (slot_handles et_packet batch' ++ others))
  | l_send_direct {R} `{XdpUdpRouter R} (router : R) {Cb} (fill : Cb → Z → list Z → outcome (Cb * list Z * Z))
      w local_ip local_port ttl wake ep max cb s ep' cb' r :
      callback_ok fill → socket_ok local_ip local_port ttl → router_ok router route_ctx → router_bytes router route_ctx →
      endpoint_ok ep → 0 ≤ ei_mtu (xe_info ep) → 0 ≤ max →
      send_udp_endpoint_direct_batch fill debug cfg router local_ip local_port ttl wake (w_sock w) ep max cb = Ret (s, ep', cb', r) →
      lstep w (with_sock w s)
  | l_notify w wake :
      lstep w (with_sock w (notify_tx wake (w_sock w)).1)
  | l_recv w local_ip ports wake1 wake2 out s items r :
      len (rb_items out) ≤ rb_capacity out →
      recv_udp cfg local_ip ports wake1 wake2 (w_sock w) out
      = Ret (s, mkRecvBatch (rb_items out ++ items) (rb_capacity out), r) →
      lstep w (with_app w s (w_app w ++ (ur_packet <$> items)))
  | l_send_ip w wake batch others s batch' r :
      Permutation (w_app w) (slot_handles it_packet batch ++ others) → Forall ip_slot_ok batch →
      send_inner debug cfg wake (w_sock w) batch = Ret (s, batch', r) →
      lstep w (with_app w s (slot_handles it_packet batch' ++ others))
  | l_recv_ip w wake1 wake2 out s items r :
      len (rb_items out) ≤ rb_capacity out →
      recv_inner cfg wake1 wake2 (w_sock w) out
      = Ret (s, mkRecvBatch (rb_items out ++ items) (rb_capacity out), r) →
      lstep w (with_app w s (w_app w ++ (ir_packet <$> items))).

Context `{!ArrayQueueLaws Q Z} (Hg : geometry_ok g) (Hcfg : config_ok g cfg).

Lemma lstep_winv w w' : lstep w w' → ∀ q, winv g cfg q w → ∃ q', winv g cfg q' w'.
Proof.
  intros [w0 l Hk|w0 l Hk|w0 k1 k2 d m Hk Hd Hp|w0 k1 k2 a m Hk Hp|w0 f1 f2|w0 mem Hl Hb|w0 app Ha He|w0 owner l1 h l2 s Ha Hrun
    |w0 s r Hrun|w0 out max s hs r Hmax Hrun|R HR router w0 lip lport ttl wake batch others s batch' r Hs Hr Hrb Hp Hm Hrun
    |R HR router w0 lip lport ttl wake ep batch others s ep' batch' r Hs Hr Hrb Hep Hp Hrun
    |R HR router Cb fill w0 lip lport ttl wake ep max cb s ep' cb' r Hcb Hs Hr Hrb Hep Hmtu Hmax Hrun|w0 wake
    |w0 lip ports wake1 wake2 out s items r Hcap Hrun|w0 wake batch others s batch' r Hp Hm Hrun
    |w0 wake1 wake2 out s items r Hcap Hrun] q Hw.
  - by apply (kernel_fill_ok g cfg q).
  - by apply (kernel_tx_ok g cfg q).
  - by apply (kernel_rx_ok g cfg q w0 k1 k2 d).
  - by apply (kernel_comp_ok g cfg q w0 k1 k2 a).
  - exists q. by apply kernel_flags_ok.
  - exists q. by apply winv_mem.
  - exists q. by apply handles_ok.
  - destruct (drop_ok g cfg Hg Hcfg owner q w0 l1 h l2 Hw Ha) as (s' & E & Hw'). rewrite E in Hrun. injection Hrun as <-. by exists q.
  - destruct (drain_ok g cfg Hg Hcfg debug q w0 Hw) as (s' & E & Hw' & _). rewrite E in Hrun. injection Hrun as <- <-. eauto.
  - destruct (allocate_tx_batch_ok g cfg Hg Hcfg debug q w0 out max Hw Hmax) as (s' & q' & hs' & E & _ & Hw' & _).
    rewrite E in Hrun. injection Hrun as <- E' <-. apply app_inv_head in E' as <-. by exists q'.
  - destruct (send_udp_ok g cfg Hg Hcfg debug router lip lport ttl Hs Hr Hrb wake q w0 batch others Hw Hp Hm)
      as (s' & b' & r' & q' & E & Hw' & _). rewrite E in Hrun. injection Hrun as <- <- <-. by exists q'.
  - destruct (send_udp_endpoint_ok g cfg Hg Hcfg debug router lip lport ttl Hs Hr Hrb wake q w0 ep batch others Hw Hp Hep)
      as (s' & e' & b' & r' & q' & E & _ & Hw' & _). rewrite E in Hrun. injection Hrun as <- <- <- <-. by exists q'.
  - destruct (send_direct_ok g cfg Hg Hcfg debug fill Hcb router lip lport ttl Hs Hr Hrb wake q w0 ep max cb Hw Hep Hmtu Hmax)
      as (s' & e' & c' & r' & E & _ & descs & q' & Hw' & _). rewrite E in Hrun. injection Hrun as <- <- <- <-. by exists q'.
  - exists q. destruct wake; constructor; apply Hw.
  - destruct (recv_udp_ok g cfg Hg Hcfg lip ports wake1 wake2 q w0 out Hw Hcap) as (s' & q' & it' & r' & E & _ & _ & Hw').
    rewrite E in Hrun. injection Hrun as <- E' <-. apply app_inv_head in E' as <-. by exists q'.
  - destruct (send_ip_ok g cfg Hg Hcfg debug wake q w0 batch others Hw Hp Hm) as (s' & b' & r' & q' & E & Hw' & _).
    rewrite E in Hrun. injection Hrun as <- <- <-. by exists q'.
  - destruct (recv_ip_ok g cfg Hg Hcfg wake1 wake2 q w0 out Hw Hcap) as (s' & q' & it' & r' & E & _ & _ & Hw').
    rewrite E in Hrun. injection Hrun as <- E' <-. apply app_inv_head in E' as <-. by exists q'.
Qed.

Lemma reach_winv w w' q : rtc lstep w w' → winv g cfg q w → ∃ q', winv g cfg q' w'.
Proof.
  intros Hr. revert q. induction Hr as [w|w1 w2 w3 Hs _ IH]; intros q Hw; [by exists q|].
  destruct (lstep_winv w1 w2 Hs q Hw) as [q' Hw']. by apply (IH q').
Qed.
End Reach.

(** ** Opened sockets

    [LiveXdpState::open] succeeded, over fresh ring mappings and a UMEM from
    the allocator. *)
Inductive opens {Q} `{ArrayQueue Q Z} : Geometry → XdpConfig → XdpSocket Q → Prop :=
  | opens_intro ifindex queue mtu rings rl tl fc sys h node fill comp rx tx cfg s :
      layout_ok rl → layout_ok tl → fc ≤ U32_MAX → rings_fresh rings fill comp rx tx →
      live_open ifindex queue mtu rings rl tl fc (λ fsz fc, umem_new_on_numa_node sys fsz fc h node) fill comp rx tx
      = Ret (Ok (cfg, s)) →
      opens (open_geometry fc (xs_umem s)) cfg s.

Lemma alloc_umem_ok sys h node : alloc_ok (λ fsz fc, umem_new_on_numa_node sys fsz fc h node).
Proof.
  intros fsz fc u Hu. apply umem_new_numa_inv in Hu as (Hok & Hs & Hc & Hz & _). split_and!; try done.
  eapply Forall_impl; [exact Hz|]. intros x <-. unfold fits. lia.
Qed.

Lemma opens_winv {Q} `{ArrayQueue Q Z, !ArrayQueueLaws Q Z} g cfg (s : XdpSocket Q) : opens g cfg s →
  geometry_ok g ∧ config_ok g cfg ∧ ∃ q, winv g cfg q (mkWorld s [] [] []).
Proof.
  intros [ifindex queue mtu rings rl tl fc sys h node fill comp rx tx cfg' s' Hrl Htl Hfc Hr Hrun].
  destruct (live_open_ok ifindex queue mtu rings rl tl fc _ fill comp rx tx Hrl Htl Hfc (alloc_umem_ok sys h node) Hr cfg' s' Hrun)
    as (Hg & Hc & _ & Hw). eauto.
Qed.

Section Properties.
Context {Q : Type} `{ArrayQueue Q Z, !ArrayQueueLaws Q Z} (debug : bool) (g : Geometry) (cfg : XdpConfig).

(** C2. No frame is ever lost, duplicated or shared: from the opening on, after
    any interleaving of sends, receives, allocations, completion drains,
    drops on the owner or another thread, and kernel steps, of the UDP and of
    the IP packet socket, every frame of
    the UMEM is in exactly one place: a free list, a ring, the kernel, or one
    packet buffer of the application; every buffer is within its frame; and
    [tx_in_flight] is exactly the number of frames submitted and not yet
    reclaimed. *)
Theorem live_frames_conserved (s : XdpSocket Q) (w : World) :
  opens g cfg s → rtc (lstep g cfg debug) (mkWorld s [] [] []) w →
  ∃ fill tx comp rx,
    pring (sz_fill (cf_rings cfg)) fill (fill_prod (xs_raw (w_sock w))) (fill_mmap (xs_raw (w_sock w))) ∧
    pring (sz_tx (cf_rings cfg)) tx (tx_prod (xs_raw (w_sock w))) (tx_mmap (xs_raw (w_sock w))) ∧
    cring (sz_completion (cf_rings cfg)) comp (comp_cons (xs_raw (w_sock w))) (comp_mmap (xs_raw (w_sock w))) ∧
    cring (sz_rx (cf_rings cfg)) rx (rx_cons (xs_raw (w_sock w))) (rx_mmap (xs_raw (w_sock w))) ∧
    Permutation
      (held (xs_rx (w_sock w)) ++ held (xs_tx (w_sock w)) ++ (haddr <$> w_app w) ++ fill ++ w_krx w ++
       (desc_frame g <$> rx) ++ (desc_frame g <$> tx) ++ w_ktx w ++ (frame_of (g_size g) <$> comp))
      ((λ i, i * g_size g) <$> seqZ 0 (g_frames g)) ∧
    xs_in_flight (w_sock w) = len tx + len (w_ktx w) + len comp ∧
    Forall (inner_ok (um_backing (xs_umem (w_sock w)))) (w_app w).
Proof.
  intros Ho Hr. destruct (opens_winv g cfg s Ho) as (Hg & Hc & q & Hw).
  destruct (reach_winv g cfg debug Hg Hc _ _ q Hr Hw) as [q' Hw'].
  exists (q_fill q'), (q_tx q'), (q_comp q'), (q_rx q'). split_and!; try apply Hw'.
  eapply Forall_impl; [apply Hw'|]. intros h (pool & a & _ & _ & _ & _ & Hin). by apply Hin.
Qed.


(** The receive frames are never more than their share. *)
Lemma rx_share q (w : World (Q := Q)) : geometry_ok g → winv g cfg q w →
  len (held (xs_rx (w_sock w))) + len (q_fill q) + len (w_krx w) + len (q_rx q) ≤ g_rx g.
Proof.
  intros Hg Hw. pose proof (go_rx g Hg).
  assert (Hl : len (held (xs_rx (w_sock w)) ++ q_fill q ++ w_krx w ++ (desc_frame g <$> q_rx q)) ≤ g_rx g - 0).
  { apply (frames_len (g_size g)); [by apply fs_pos|lia| |apply Hw]. apply nodup_cnt. intros a.
    pose proof (winv_cnt g cfg Hg q w a Hw) as Hc. unfold places in Hc. autorewrite with cnt in *. revert Hc. cnt_pos_facts. lia. }
  unfold len in *. rewrite !length_app, length_fmap in Hl. lia.
Qed.

End Properties.

(** ** A small socket

    Two frames of 128 bytes, one to receive and one to transmit; rings of two
    entries. *)
Definition small_layout : BufferLayout := mkLayout 64 28 0 128 46 1 128 1 18 true.
Definition small_rings : RingSizes := mkSizes 2 2 2 2.
Definition small_fill : RingMem Z := mkRing 0 0 0 [0; 0].
Definition small_descs : RingMem XdpDesc := mkRing 0 0 0 [mkXdpDesc 0 0 0; mkXdpDesc 0 0 0].
Definition small_sys : Sys := mkSys 16 (λ _ huge, negb huge) (λ _ _, Ok tt) (λ n, Ok (replicate (Z.to_nat n) 0)).
Definition small_open : outcome (result (XdpConfig * XdpSocket (list Z * Z)) OpenError) :=
  live_open 1 0 1500 small_rings small_layout small_layout 2
    (λ fsz fc, umem_new_on_numa_node small_sys fsz fc Size4K 0) small_fill small_fill small_descs small_descs.
Definition small_cfg : XdpConfig :=
  mkConfig 1 0 1500 small_rings (mkBufCtx small_layout (UmemCtx RxPool 128)) (mkBufCtx small_layout (UmemCtx TxPool 128))
    (LocalSplit 128) 1 1.
Definition small_sock : XdpSocket (list Z * Z) :=
  mkSocket (mkRaw (mkProducer 1 0 2) (mkRing 1 0 0 [0; 0]) consumer_new small_fill consumer_new small_descs (producer_new 2) small_descs)
    (mkUmem (replicate 256 0) 128 2) (mkReclaim [] 1 (mkMpsc ([], 1) 0)) (mkReclaim [128] 1 (mkMpsc ([], 1) 0))
    0 0 false stats_default.
Definition small_geometry : Geometry := mkGeometry 7 2 1.

Lemma small_layout_ok : layout_ok small_layout.
Proof. constructor; vm_compute; congruence. Qed.
Lemma small_opens : opens small_geometry small_cfg small_sock.
Proof.
  change small_geometry with (open_geometry 2 (xs_umem small_sock)).
  apply (opens_intro 1 0 1500 small_rings small_layout small_layout 2 small_sys Size4K 0 small_fill small_fill small_descs small_descs).
  - exact small_layout_ok.
  - exact small_layout_ok.
  - vm_compute. congruence.
  - vm_compute. repeat split; congruence.
  - vm_compute. reflexivity.
Qed.

(** One transmit buffer allocated. *)
Definition small_buf : XdpPacketBufInner := from_storage (UmemFrame 128) (mkBufCtx small_layout (UmemCtx TxPool 128)) 46 46.
Definition small_world : World (Q := list Z * Z) :=
  mkWorld (set_pools small_sock (mkReclaim [] 1 (mkMpsc ([], 1) 0)) (mkReclaim [] 1 (mkMpsc ([], 1) 0))) [small_buf] [] [].
Lemma small_reach : rtc (lstep small_geometry small_cfg true) (mkWorld small_sock [] [] []) small_world.
Proof.
  eapply rtc_l; [|apply rtc_refl].
  apply (l_allocate small_geometry small_cfg true (mkWorld small_sock [] [] []) [] 1 _ [small_buf] (Ok 1)); [lia|vm_compute; reflexivity].
Qed.

Lemma live_frames_conserved_witness :
  ∃ fill tx comp rx,
    Permutation
      (held (xs_rx (w_sock small_world)) ++ held (xs_tx (w_sock small_world)) ++ [128] ++ fill ++ [] ++
       (desc_frame small_geometry <$> rx) ++ (desc_frame small_geometry <$> tx) ++ [] ++ (frame_of 128 <$> comp)) [0; 128] ∧
    0 = len tx + 0 + len comp.
Proof.
  destruct (live_frames_conserved true small_geometry small_cfg small_sock small_world)
    as (fill & tx & comp & rx & _ & _ & _ & _ & Hp & Hf & _).
  - exact small_opens.
  - exact small_reach.
  - exists fill, tx, comp, rx. split; [exact Hp|exact Hf].
Defined.



(** ** IP packets from one socket to another *)

(** The bytes of a descriptor, and where they are. *)
Lemma descriptor_slice_inv u addr n fa bytes : um_ok u → 0 ≤ addr → 0 ≤ n → descriptor_slice u addr n = Some (fa, bytes) →
  fa = addr - addr mod um_frame_size u ∧ contains_frame_addr u fa = true ∧ bytes = window (um_backing u) addr n ∧
  addr + n ≤ len (um_backing u) ∧ addr mod um_frame_size u + n ≤ um_frame_size u.
Proof.
  intros Hu Ha Hn Hd. pose proof (um_frame_pos u Hu). unfold descriptor_slice in Hd.
  rewrite validated_range_eq, frame_addr_for_desc_eq in Hd by done. set (fs := um_frame_size u) in *.
  pose proof (Z.div_mod addr fs ltac:(lia)) as Hdm.
  destruct (Z.ltb_spec (addr / fs) (um_frame_count u)) as [Hlt|]; [|done]. cbn [mbind option_bind andb] in Hd.
  destruct (Z.leb_spec (addr + n) ((addr / fs + 1) * fs)); [|done]. cbn [mbind option_bind fst snd] in Hd.
  destruct (slice _ _ _) as [bs|] eqn:Hs; [|done]. apply slice_inv in Hs as (_ & Hs & ->). injection Hd as <- <-.
  replace (addr + n - addr) with n by lia. split_and!; try done; try lia.
  unfold contains_frame_addr. rewrite frame_addr_for_desc_eq by done. fold fs. rewrite Z.div_mul by lia.
  destruct (Z.ltb_spec (addr / fs) (um_frame_count u)); [|lia]. apply Z.eqb_refl.
Qed.

(** A descriptor's bytes from [off] on, wrapped as a packet. *)
Lemma wrap_rx_frame_ok u ctx addr n fa bytes off pool : um_ok u → um_frame_size u ≤ U32_MAX → 0 ≤ addr → 0 ≤ off ≤ n →
  descriptor_slice u addr n = Some (fa, bytes) → bc_reclaim ctx = UmemCtx pool (um_frame_size u) →
  l2_headroom (bc_layout ctx) ≤ addr mod um_frame_size u + off →
  ∃ p, wrap_rx_frame (Some u) ctx addr off (n - off) = Some p ∧ packet_bytes (um_backing u) p = drop (Z.to_nat off) bytes.
Proof.
  intros Hu Hfs Ha Hoff Hd Hctx Hl2. destruct (descriptor_slice_inv u addr n fa bytes Hu Ha ltac:(lia) Hd) as (-> & Hc & -> & Hin & Hle).
  pose proof (um_frame_pos u Hu). unfold wrap_rx_frame, checked_add. cbn [mbind option_bind]. rewrite Hc. cbn [negb].
  set (fs := um_frame_size u) in *. pose proof (Z.mod_pos_bound addr fs ltac:(lia)). unfold U32_MAX in Hfs.
  replace (addr - (addr - addr mod fs) + off) with (addr mod fs + off) by lia.
  destruct (Z.ltb_spec (addr mod fs + off) (2 ^ 64)); [|lia]. cbn [mbind option_bind].
  destruct (Z.ltb_spec (addr mod fs + off) (l2_headroom (bc_layout ctx))); [lia|].
  destruct (Z.ltb_spec (addr mod fs + off + (n - off)) (2 ^ 64)); [|lia]. cbn [mbind option_bind].
  destruct (Z.ltb_spec fs (addr mod fs + off + (n - off))); [lia|]. eexists. split; [done|].
  unfold packet_bytes, frame_bytes, buf_len. cbn. rewrite Hctx. unfold bi_capacity. cbn. rewrite ?Hctx.
  pose proof (Z.div_mod addr fs ltac:(lia)). assert (0 ≤ addr / fs) by (apply Z.div_pos; lia).
  rewrite window_window, window_drop by nia. f_equal; lia.
Qed.

Section RoundTrip.
Context {Q : Type} `{ArrayQueue Q Z} (g : Geometry) (cfg cfg' : XdpConfig).

(** C22. An IP packet socket delivers what another sent: when a slot is
    prepared for transmission, the descriptor covers the Ethernet header of
    its egress and the datagram; a receiving IP packet socket handed these
    bytes in one of its frames delivers exactly one packet with the same
    bytes, the IP version of the egress's ethertype and the datagram's length,
    for tagged and untagged frames. *)
Theorem ip_send_recv_roundtrip ifindex queue mtu mem stats (tx : ip_transmit) mem' stats' slot d
    (s : XdpSocket Q) fa d' out pool :
  geometry_ok g → config_ok g cfg → bytes_ok mem → handle_ok g cfg (len mem) (it_packet tx) → egress_typed (it_egress tx) →
  prepare_ip_slot ifindex queue mtu mem stats (Ready tx) = Ret (mem', stats', slot, Ok d) →
  um_ok (xs_umem s) → um_frame_size (xs_umem s) ≤ U32_MAX → bc_reclaim (cf_rx_ctx cfg') = UmemCtx pool (um_frame_size (xs_umem s)) →
  0 ≤ xd_addr d' → xd_len d' = xd_len d →
  descriptor_slice (xs_umem s) (xd_addr d') (xd_len d') = Some (fa, window mem' (xd_addr d) (xd_len d)) →
  l2_headroom (bc_layout (cf_rx_ctx cfg')) ≤ xd_addr d' mod um_frame_size (xs_umem s) + ethernet_header_len (it_egress tx) →
  len (rb_items out) < rb_capacity out →
  let n := buf_len (it_packet tx) in
  ∃ v p, eg_ethertype (it_egress tx) = (match v with V4 => ETHERTYPE_IPV4 | V6 => ETHERTYPE_IPV6 end) ∧
    recv_ip_loop cfg' s [d'] out 0
    = Ret (set_stats s (stats_received (xs_stats s) n),
           mkRecvBatch (rb_items out ++ [mkIpPacketReceive p (mkIpPacketRecvMeta v n NotChecked)]) (rb_capacity out), Ok 1) ∧
    packet_bytes (um_backing (xs_umem s)) p = packet_bytes mem (it_packet tx).
Proof.
  intros Hg Hcfg Hb Htx He Hrun Hu Hfs Hctx Ha Hdl Hd Hl2 Hcap.
  destruct (prepare_ip_slot_ok g cfg Hg Hcfg _ ifindex queue mtu mem stats tx eq_refl Hb Htx He)
    as (m1 & st1 & r & E & _ & _ & Hr). rewrite E in Hrun. injection Hrun as -> -> <- ->. destruct Hr as (_ & Hval & Hxd & Hw & _).
  assert (Hok : inner_ok mem (it_packet tx)) by (destruct Htx as (? & ? & _ & _ & _ & _ & Hin); by apply Hin).
  pose proof (len_packet_bytes _ _ Hok) as Hn. destruct (ip_header_ok _ (et_macs _ He)) as [Hhl _].
  destruct (ip_frame_parses _ _ (et_macs _ He) Hval) as (v & Hv & Hp). cbn zeta. rewrite <- Hn. rewrite Hw in Hd.
  set (hdr := eth_bytes (it_egress tx)) in *. set (pkt := packet_bytes mem (it_packet tx)) in *.
  pose proof (len_nonneg hdr). pose proof (len_nonneg pkt).
  assert (Hxl : xd_len d' = len hdr + len pkt) by lia.
  destruct (wrap_rx_frame_ok (xs_umem s) (cf_rx_ctx cfg') (xd_addr d') (xd_len d') fa _ (len hdr) pool Hu Hfs Ha ltac:(lia) Hd Hctx
    ltac:(lia)) as (p & Hwrap & Hpkt).
  exists v, p. split; [done|]. split.
  - cbn [recv_ip_loop]. rewrite Hd, Hp. run. cbn [pi_is_fragment pe_ip pe_l2_len pi_len]. rewrite <- Hhl.
    replace (len pkt) with (xd_len d' - len hdr) at 1 by lia. rewrite Hwrap. unfold rb_push, rb_len.
    destruct (Z.leb_spec (rb_capacity out) (len (rb_items out))); [lia|]. done.
  - rewrite Hpkt. unfold len. by rewrite Nat2Z.id, drop_app_length.
Qed.
End RoundTrip.

(** A bare IPv4 header of twenty bytes, in the transmit frame of the small
    socket; the same bytes as the kernel left them in the receive frame of
    another. *)
Definition ip_datagram : list Z := [69; 0; 0; 20] ++ replicate 16 0.
Definition ip_mem : list Z := write_at (replicate 256 0) 174 ip_datagram.
Definition ip_tx : ip_transmit :=
  IpPacketTransmit_new (with_bounds small_buf 46 66) (egress_ipv4 1 0 (replicate 6 1) (replicate 6 2) 1500).
Definition ip_frame : list Z := eth_bytes (it_egress ip_tx) ++ ip_datagram.
Definition ip_mem' : list Z := write_at (replicate 256 0) 160 ip_frame.
Definition ip_receiver : XdpSocket (list Z * Z) := set_mem small_sock (write_at (replicate 256 0) 46 ip_frame).

Lemma ip_tx_handle : handle_ok small_geometry small_cfg (len ip_mem) (it_packet ip_tx).
Proof.
  exists TxPool, 128. split_and!; try done.
  intros mem Hm. constructor; unfold bi_capacity; cbn; rewrite ?Hm; vm_compute; try split; congruence.
Qed.

Lemma ip_send_recv_roundtrip_witness :
  ∃ v p, ETHERTYPE_IPV4 = (match v with V4 => ETHERTYPE_IPV4 | V6 => ETHERTYPE_IPV6 end) ∧
    recv_ip_loop small_cfg ip_receiver [mkXdpDesc 46 34 0] (mkRecvBatch [] 1) 0
    = Ret (set_stats ip_receiver (stats_received stats_default 20),
           mkRecvBatch [mkIpPacketReceive p (mkIpPacketRecvMeta v 20 NotChecked)] 1, Ok 1) ∧
    packet_bytes (um_backing (xs_umem ip_receiver)) p = ip_datagram.
Proof.
  destruct (opens_winv small_geometry small_cfg small_sock small_opens) as (Hg & Hc & _).
  apply (ip_send_recv_roundtrip small_geometry small_cfg small_cfg 1 0 1500 ip_mem stats_default ip_tx ip_mem' stats_default
    (Ready ip_tx) (mkXdpDesc 160 34 0) ip_receiver 0 (mkXdpDesc 46 34 0) (mkRecvBatch [] 1) RxPool).
  - exact Hg.
  - exact Hc.
  - apply (bool_decide_unpack _). vm_compute. exact I.
  - exact ip_tx_handle.
  - constructor; vm_compute; repeat constructor; congruence.
  - vm_compute. reflexivity.
  - vm_compute. split_and!; congruence.
  - vm_compute. congruence.
  - reflexivity.
  - vm_compute. congruence.
  - reflexivity.
  - vm_compute. reflexivity.
  - vm_compute. congruence.
  - vm_compute. reflexivity.
Defined.
