(* ===== verification/DirectMain.v ===== *)
(** * Direct endpoint batches, from the callback to the wire

    What a batch through a freshly prepared endpoint puts on the wire. *)
From S2P Require Import Prelude Bits Core Buffer Umem Ring RingProofs Window PacketBuf PacketBufProofs.
From S2P Require Import PoptrieEmit Wire WireProofs WireMain XdpUdp XdpUdpMain Reclaim ReclaimProofs ReclaimMain.
From S2P Require Import Live LiveRing LiveProofs LiveTx LiveSend LiveRx LiveSteps LiveIp Direct DirectProofs LiveMain.
Open Scope Z_scope.

(** ** Prepared endpoints *)
Section Prepared.
Context {R : Type} `{XdpUdpRouter R} (router : R).
Context (local_ip local_port ttl : Z) (Hsock : socket_ok local_ip local_port ttl) (context : XdpRouteContext).

(** The cached header is the one written for the endpoint's packets. *)
Lemma build_cache_inv gen spec c info : spec_ok spec → 0 ≤ default 0 (sp_payload_len spec) →
  build_xdp_udp_endpoint_cache router local_ip local_port ttl context gen spec = Ret (Ok (c, info)) →
  ∃ ip port l2, sp_destination spec = SocketAddrV4 ip port ∧
    let n := default 0 (sp_payload_len spec) in
    let f := tx_fields local_ip local_port ttl ip port (sp_source_ip spec) (sp_source_port spec) (sp_ecn spec) n in
    c = mkCache gen (l2 ++ header f (header_checksum f)) (len l2) ∧ fields_ok f ∧ 0 ≤ ei_mtu info ∧
    ei_payload_len info = sp_payload_len spec.
Proof.
  intros Hspec Hn Hb. unfold build_xdp_udp_endpoint_cache, spec_ok in *.
  destruct (sp_destination spec) as [ip port|]; [|done].
  destruct (source_v4 local_ip (sp_source_ip spec)) as [sip|] eqn:Hs; [|done]. destruct (sp_gso_segment_size spec); [done|].
  apply bind_ret_inv in Hb as ([res|] & _ & Hb); [|done]. unfold checked_sub, IPV4_MIN_HEADER_LEN, UDP_HEADER_LEN in Hb.
  destruct (Z.leb_spec (20 + 8) (ip_mtu res)); [|done]. cbv zeta in Hb. destruct (validate_xdp_udp_endpoint_payload _ _); [|done].
  set (n := default 0 (sp_payload_len spec)) in *. destruct (Z.ltb_spec U16_MAX (n + 8 + 20)); [done|].
  apply bind_ret_inv in Hb as (l2 & _ & Hb).
  destruct (u16_lengths n) as [Ht Hu]; [exact Hn|lia|]. unfold IPV4_MIN_HEADER_LEN, UDP_HEADER_LEN in Ht, Hu. rewrite Ht, Hu in Hb.
  assert (Hsource : sip = match sp_source_ip spec with Some (IpAddrV4 a) => a | _ => local_ip end).
  { clear -Hs. destruct (sp_source_ip spec) as [[]|]; simplify_eq/=; done. }
  rewrite Hsource in Hb.
  assert (Hf : fields_ok (tx_fields local_ip local_port ttl ip port (sp_source_ip spec) (sp_source_port spec) (sp_ecn spec) n))
    by (apply tx_fields_ok; [exact Hsock|exact Hspec|exact Hn|lia]).
  pose proof (write_headers_ok _ Hf) as Hwr. unfold tx_fields in Hwr at 1. rewrite Hwr in Hb.
  cbn [mbind outcome_bind] in Hb. injection Hb as <- <-. exists ip, port, l2. split; [done|]. split; [done|]. split; [exact Hf|]. cbn. split; [lia|done].
Qed.

(** It is current, so that a send uses it as it is. *)
Lemma prepared_refresh spec ep : spec_ok spec → 0 ≤ default 0 (sp_payload_len spec) →
  prepare_xdp_udp_endpoint router local_ip local_port ttl context spec = Ret (Ok ep) →
  refresh_udp_endpoint_cache router local_ip local_port ttl context ep = Ret (ep, Ok tt) ∧ xe_spec ep = spec ∧
  ∃ c, xe_cached ep = Some c ∧
    build_xdp_udp_endpoint_cache router local_ip local_port ttl context (route_generation router) spec = Ret (Ok (c, xe_info ep)).
Proof.
  intros Hspec Hn Hp. unfold prepare_xdp_udp_endpoint in Hp. apply bind_ret_inv in Hp as (b & Hb & Hp).
  destruct b as [[c i]|]; [|done]. injection Hp as <-. split; [|split; [done|by exists c]].
  unfold refresh_udp_endpoint_cache. cbn [xe_cached xe_spec xe_info fst snd].
  by rewrite (build_cache_generation router local_ip local_port ttl context _ _ _ _ Hb), Z.eqb_refl.
Qed.
End Prepared.

(** ** On the wire *)

(** A frame of the header [f] with the lengths of [payload], before it. The
    parser reads back addresses, ports and payload; the IPv4 checksum is the
    right one exactly when the fold of the incremental update does not
    overflow. *)
Record direct_wire (l2 : list Z) (f : Ipv4UdpHeaderFields) (mem : list Z) (d : XdpDesc) (payload : list Z) : Prop := mkDirectWire {
  dw_len : xd_len d = len l2 + 28 + len payload;
  dw_bytes : ∃ c, window mem (xd_addr d) (xd_len d)
      = l2 ++ header (with_lengths f (len payload + 28) (len payload + 8)) c ++ payload ∧
    (c = header_checksum (with_lengths f (len payload + 28) (len payload + 8)) ↔
     (65535 - header_checksum f) + (65535 - hf_total_len f) + (len payload + 28) ≠ 131071);
  dw_parsed : parse_ipv4_udp_datagram (drop (length l2) (window mem (xd_addr d) (xd_len d)))
    = Ret (Udp (mkParsedUdp (hf_source f) (hf_destination f) (hf_source_port f) (hf_destination_port f)
                  (len payload + 28) 28 (len payload) (Some (default NotEct (hf_ecn f)))));
}.

Lemma patch_checksum (l2 : list Z) f n : fields_ok f → 0 ≤ n → n + 28 ≤ U16_MAX →
  ∃ c, patch_xdp_udp_endpoint_header_lengths (l2 ++ header f (header_checksum f)) (len l2) n
       = Ret (Ok (l2 ++ header (with_lengths f (n + 28) (n + 8)) c)) ∧
    (c = header_checksum (with_lengths f (n + 28) (n + 8)) ↔
     (65535 - header_checksum f) + (65535 - hf_total_len f) + (n + 28) ≠ 131071).
Proof.
  intros Hf Hn Hm. pose proof (patch_lengths_correct l2 f n Hf Hn) as Hp. cbv zeta in Hp.
  destruct (Z.ltb_spec U16_MAX (n + 28)); [lia|exact Hp].
Qed.

Lemma direct_frame_wire gen l2 f mem d payload : fields_ok f → len payload + 28 ≤ U16_MAX →
  direct_frame (mkCache gen (l2 ++ header f (header_checksum f)) (len l2)) mem d payload → direct_wire l2 f mem d payload.
Proof.
  intros Hf Hm (Hl & h & Hh & Hw). cbn [ec_header ec_l2_len] in *. rewrite len_app in Hl. change (len (header f _)) with 28 in Hl.
  pose proof (len_nonneg payload). destruct (patch_checksum l2 f (len payload) Hf ltac:(lia) Hm) as (c & Hc & Hiff).
  rewrite Hc in Hh. injection Hh as <-. set (f' := with_lengths f (len payload + 28) (len payload + 8)) in *. rewrite <- app_assoc in Hw.
  constructor; [exact Hl|by exists c|]. rewrite Hw, drop_app_length.
  assert (Hf' : fields_ok f').
  { destruct Hf as (H1 & H2 & H3 & H4 & H5 & H6 & H7). unfold fields_ok, f', U16_MAX, fits in *. cbn. split_and!; try tauto; lia. }
  rewrite parse_written; [|done|unfold f'; cbn [hf_total_len hf_udp_len with_lengths]; lia..].
  do 3 f_equal. unfold f'. cbn [hf_udp_len with_lengths]. lia.
Qed.

(** Accepted payloads are within the limit. *)
Lemma fills_limit {Cb} (fill : Cb → Z → list Z → outcome (Cb * list Z * Z)) capacity limit expected cb i ps cb' :
  0 ≤ limit → direct_fills fill capacity limit expected cb i ps cb' → Forall (λ q, len q ≤ limit) ps.
Proof.
  intros Hl. induction 1 as [|cb i p cb1 p1 n ps cb2 _ _ Ha _ IH]; constructor; [|done]. apply answer_ok in Ha.
  unfold len. rewrite length_take. lia.
Qed.

(** An endpoint that is current stays as it is. *)
Lemma send_direct_endpoint {Q} `{ArrayQueue Q Z} debug cfg {R} `{XdpUdpRouter R} (router : R) local_ip local_port ttl
    {Cb} (fill : Cb → Z → list Z → outcome (Cb * list Z * Z)) wake (s : XdpSocket Q) ep max cb s' ep' cb' r :
  refresh_udp_endpoint_cache router local_ip local_port ttl (route_ctx cfg) ep = Ret (ep, Ok tt) →
  send_udp_endpoint_direct_batch fill debug cfg router local_ip local_port ttl wake s ep max cb = Ret (s', ep', cb', r) → ep' = ep.
Proof.
  intros Hre. unfold send_udp_endpoint_direct_batch. cbv zeta. fold (route_ctx cfg). rewrite Hre. destruct (max =? 0); [congruence|].
  cbn [mbind outcome_bind]. destruct (xe_cached ep) as [c|]; [|done]. destruct (patch_new _ _ _ _ _ _) as [p|]; [|congruence]. intros E.
  apply bind_ret_inv in E as ([s1 [k|e]] & _ & E); [|congruence]. destruct (k =? 0); [congruence|].
  apply bind_ret_inv in E as ([[[s2 out] cb1] [b|e]] & _ & E); [|congruence]. apply bind_ret_inv in E as ([s3 r3] & _ & E). congruence.
Qed.

Section Properties.
Context {Q : Type} `{ArrayQueue Q Z, !ArrayQueueLaws Q Z} (debug : bool) (g : Geometry) (cfg : XdpConfig).
Context {R : Type} `{XdpUdpRouter R} (router : R) (local_ip local_port ttl : Z).
Context {Cb : Type} (fill : Cb → Z → list Z → outcome (Cb * list Z * Z)).

(** The headers of an endpoint's packets. *)
Definition endpoint_fields (spec : UdpEndpointSpec) (ip port : Z) : Ipv4UdpHeaderFields :=
  tx_fields local_ip local_port ttl ip port (sp_source_ip spec) (sp_source_port spec) (sp_ecn spec)
    (default 0 (sp_payload_len spec)).

(** C21. A direct endpoint batch, from the callback to the wire: in every
    reachable state of a live socket, a batch through an endpoint prepared
    from a specification returns. What it accepts it has appended to the TX
    ring, in order: for every call of the callback, a frame of the Ethernet
    header of the route, IPv4 and UDP headers that parse back to the
    endpoint's addresses, ports and mark, and the payload the callback wrote,
    with the right checksum outside the one case of the incremental update.
    It stops short of [max] only when the ring is full or no transmit frame is
    free. When the callback's length is refused or the header does not fit a
    frame, nothing is sent; when the doorbell fails, everything prepared has
    been. *)
Theorem direct_batch_exact (s0 : XdpSocket Q) (w : World) (spec : UdpEndpointSpec) ep wake max cb :
  opens g cfg s0 → rtc (lstep g cfg debug) (mkWorld s0 [] [] []) w →
  socket_ok local_ip local_port ttl → router_ok router (route_ctx cfg) → router_bytes router (route_ctx cfg) →
  spec_ok spec → 0 ≤ default 0 (sp_payload_len spec) →
  prepare_xdp_udp_endpoint router local_ip local_port ttl (route_ctx cfg) spec = Ret (Ok ep) →
  callback_ok fill → 0 ≤ max →
  let capacity := ei_mtu (xe_info ep) in
  ∃ ip port l2 s cb' r tx descs, sp_destination spec = SocketAddrV4 ip port ∧
    send_udp_endpoint_direct_batch fill debug cfg router local_ip local_port ttl wake (w_sock w) ep max cb = Ret (s, ep, cb', r) ∧
    pring (sz_tx (cf_rings cfg)) tx (tx_prod (xs_raw (w_sock w))) (tx_mmap (xs_raw (w_sock w))) ∧
    pring (sz_tx (cf_rings cfg)) (tx ++ descs) (tx_prod (xs_raw s)) (tx_mmap (xs_raw s)) ∧
    accepted_of r = len descs ∧ len descs ≤ max ∧
    let sent := ∃ ps, direct_fills fill capacity (direct_limit capacity) (sp_payload_len spec) cb 0 ps cb' ∧
      Forall2 (direct_wire l2 (endpoint_fields spec ip port) (um_backing (xs_umem s))) descs ps in
    match r with
    | Ok k => sent ∧ (k = max ∨ len (tx ++ descs) = sz_tx (cf_rings cfg) ∨ held (xs_tx s) = [])
    | Err (mkSendError k e) =>
        k = 0 ∧ (direct_refuses fill capacity (direct_limit capacity) (sp_payload_len spec) cb 0 e cb' ∨ e = InvalidPacket ∧ cb' = cb) ∨
        sent ∧ ∃ msg, wake = Err msg ∧ e = device_error msg
    end.
Proof.
  intros Ho Hreach Hsock Hro Hrb Hspec Hn Hep Hcb Hmax capacity. destruct (opens_winv g cfg s0 Ho) as (Hg & Hc & q0 & Hw0).
  destruct (reach_winv g cfg debug Hg Hc _ _ q0 Hreach Hw0) as [q Hw].
  destruct (prepared_refresh router local_ip local_port ttl _ spec ep Hspec Hn Hep) as (Hre & Hxs & c & Hcc & Hb).
  destruct (build_cache_inv router local_ip local_port ttl Hsock _ _ _ _ _ Hspec Hn Hb) as (ip & port & l2 & Hdst & Ec & Hf & Hmtu & Hpl).
  fold (endpoint_fields spec ip port) in Ec, Hf.
  assert (Hepok : endpoint_ok ep).
  { destruct (refresh_ok router local_ip local_port ttl Hsock (route_ctx cfg) Hro Hrb (mkXdpUdpEndpoint spec (xe_info ep) None)
      (conj Hspec I)) as (ep1 & r1 & E1 & Hok1 & _).
    unfold refresh_udp_endpoint_cache in E1. cbn [xe_cached xe_spec xe_info] in E1. rewrite Hb in E1. cbn in E1. injection E1 as <- <-.
    rewrite <- Hcc, <- Hxs in Hok1. by destruct ep. }
  destruct (send_direct_ok g cfg Hg Hc debug fill Hcb router local_ip local_port ttl Hsock Hro Hrb wake q w ep max cb Hw Hepok Hmtu Hmax)
    as (s & ep' & cb' & r & E & _ & descs & q' & Hw' & Htx & Hacc & Hle & Hr).
  assert (ep' = ep) as -> by exact (send_direct_endpoint debug cfg router _ _ _ fill _ _ _ _ _ _ _ _ _ Hre E).
  exists ip, port, l2, s, cb', r, (q_tx q), descs. rewrite <- Htx. split; [exact Hdst|]. split; [exact E|].
  split; [apply Hw|]. split; [apply Hw'|]. split; [exact Hacc|]. split; [exact Hle|].
  assert (Hsent : direct_packets fill ep cb descs (um_backing (xs_umem s)) cb' →
    ∃ ps, direct_fills fill capacity (direct_limit capacity) (sp_payload_len spec) cb 0 ps cb' ∧
      Forall2 (direct_wire l2 (endpoint_fields spec ip port) (um_backing (xs_umem s))) descs ps).
  { intros (c' & ps & Hc' & Hfill & HF). rewrite Hcc in Hc'. injection Hc' as <-. rewrite Hpl in Hfill. exists ps. split; [exact Hfill|].
    assert (Hlim : direct_limit capacity + 28 ≤ U16_MAX) by (unfold direct_limit; lia).
    assert (Hlim0 : 0 ≤ direct_limit capacity) by (unfold direct_limit, U16_MAX, capacity; lia).
    pose proof (fills_limit _ _ _ _ _ _ _ _ Hlim0 Hfill) as Hps. rewrite Ec in HF. clear -HF Hps Hf Hlim.
    induction HF as [|d payload descs ps Hd _ IH]; [constructor|]. apply Forall_cons in Hps as [Hp Hps].
    constructor; [|by apply IH]. eapply direct_frame_wire; [exact Hf|cbn in Hp; lia|exact Hd]. }
  destruct r as [k|[k e]]; cbv zeta.
  - destruct Hr as [[[-> ->]|Hp] Hfull]; (split; [|exact Hfull]); [|by apply Hsent].
    cbn in Hacc. assert (descs = []) as -> by (apply nil_length_inv; unfold len in Hacc; lia). exists []. split; constructor.
  - destruct Hr as [[-> Href]|[Hp Hmsg]]; [left; split; [done|]|right; split; [by apply Hsent|exact Hmsg]].
    destruct Href as [[Hbad _]|[(_ & _ & _ & -> & ->)|Href]]; [|by right|left; by rewrite <- Hpl].
    fold (route_ctx cfg) in Hbad. by rewrite Hre in Hbad.
Qed.
End Properties.

(** ** A small batch

    The small socket has one transmit frame of 128 bytes; an endpoint over a
    route with an MTU of 100 leaves room for 72 bytes, of which the callback
    writes three, the index and two marks. *)
#[local] Existing Instance static_router.
Definition short_egress : XdpEgress := egress_ipv4 1 0 (replicate 6 1) (replicate 6 2) 100.
Definition mark_fill (cb i : Z) (p : list Z) : outcome (Z * list Z * Z) :=
  if len p <? 3 then Ret (cb, p, 0) else Ret (cb + 1, write_at p 0 [i mod 256; 7; 9], 3).
Definition open_spec : UdpEndpointSpec := mkSpec demo_dst None None (Some Ect0) None None.
Definition short_endpoint : outcome (result XdpUdpEndpoint Error) :=
  prepare_xdp_udp_endpoint short_egress 167772161 5000 64 (route_ctx small_cfg) open_spec.
Definition the_endpoint : XdpUdpEndpoint :=
  match short_endpoint with Ret (Ok ep) => ep | _ => mkXdpUdpEndpoint open_spec (mkInfo 0 None None) None end.
Definition small_batch : outcome (XdpSocket (list Z * Z) * XdpUdpEndpoint * Z * result Z SendError) :=
  send_udp_endpoint_direct_batch mark_fill true small_cfg short_egress 167772161 5000 64 (Ok tt) small_sock the_endpoint 4 0.

Lemma mark_fill_ok : callback_ok mark_fill.
Proof.
  intros cb i p Hb. unfold mark_fill. destruct (Z.ltb_spec (len p) 3); (eexists _, _, _; split; [reflexivity|]).
  - split; [done|]. split; [done|]. lia.
  - split; [apply len_write_at; [lia|]; unfold len at 1; cbn; lia|]. split; [|lia]. apply bytes_write_at; [done|].
    pose proof (Z.mod_pos_bound i 256 ltac:(lia)). repeat constructor; unfold fits; lia.
Qed.
Lemma short_router_ok : router_ok short_egress (route_ctx small_cfg).
Proof. intros dst _. eexists. split; [vm_compute; reflexivity|]. eexists. vm_compute. reflexivity. Qed.
Lemma short_router_bytes : router_bytes short_egress (route_ctx small_cfg).
Proof.
  intros dst res l2 _ Hres Hl2. vm_compute in Hres. injection Hres as <-. vm_compute in Hl2. injection Hl2 as <-.
  apply (bool_decide_unpack _). vm_compute. exact I.
Qed.

Lemma direct_batch_exact_witness :
  match small_batch with
  | Ret (s, _, cb', Ok k) => k = 1 ∧ cb' = 1 ∧
      window (um_backing (xs_umem s)) 132 45 = eth_bytes short_egress ++ header
        (with_lengths (endpoint_fields 167772161 5000 64 open_spec 167772162 6000) 31 11) 26314 ++ [0; 7; 9]
  | _ => False
  end ∧
  ∃ ip port l2 s cb' r tx descs, sp_destination open_spec = SocketAddrV4 ip port ∧ small_batch = Ret (s, the_endpoint, cb', r) ∧
    pring 2 (tx ++ descs) (tx_prod (xs_raw s)) (tx_mmap (xs_raw s)) ∧ accepted_of r = len descs ∧
    match r with
    | Ok k => ∃ ps, direct_fills mark_fill 72 72 None 0 0 ps cb' ∧
        Forall2 (direct_wire l2 (endpoint_fields 167772161 5000 64 open_spec ip port) (um_backing (xs_umem s))) descs ps
    | Err _ => True
    end.
Proof.
  split; [vm_compute; repeat split; reflexivity|].
  destruct (direct_batch_exact true small_geometry small_cfg short_egress 167772161 5000 64 mark_fill small_sock (mkWorld small_sock [] [] [])
    open_spec the_endpoint (Ok tt) 4 0) as (ip & port & l2 & s & cb' & r & tx & descs & H1 & H2 & _ & H3 & H4 & _ & H5).
  - exact small_opens.
  - apply rtc_refl.
  - exact demo_socket.
  - exact short_router_ok.
  - exact short_router_bytes.
  - exact demo_meta.
  - vm_compute. congruence.
  - vm_compute. reflexivity.
  - exact mark_fill_ok.
  - lia.
  - exists ip, port, l2, s, cb', r, tx, descs. split; [exact H1|]. split; [exact H2|]. split; [exact H3|]. split; [exact H4|].
    destruct r as [k|e]; [exact (proj1 H5)|exact I].
Defined.
