(* ===== verification/Filter.v ===== *)
(** * The in-kernel filter: [fast-socket-xdp-ebpf]

    The two XDP programs: what they read of a packet, which array maps they
    consult, and the action they return. A packet is the byte list between
    [data] and [data_end]; the maps are the program's statics. The redirect
    helper is the kernel's: a class with its documented behaviour. *)
From S2P Require Import Prelude Core Wire.
Open Scope Z_scope.

(** ** The map contract ([lib.rs]) *)
Definition MAX_QUEUES : Z := 256.
Definition BOUND_PORTS_LEN : Z := 65536.
Definition BOUND_PORT_COUNT_LEN : Z := 1.
Definition BOUND_PORT_RANGE_LEN : Z := 2.
Definition BOUND_PORT_RANGE_START : Z := 0.
Definition BOUND_PORT_RANGE_END : Z := 1.
Definition DROP_COUNTERS_LEN : Z := 2.
Definition DROP_REASON_XSKMAP_MISS : Z := 0.

Definition XDP_DROP : Z := 1.
Definition XDP_PASS : Z := 2.
Definition XDP_REDIRECT : Z := 4.

(** [XSKMAP], [BOUND_PORTS], [BOUND_PORT_COUNT], [BOUND_PORT_RANGE] and
    [DROP_COUNTERS]. *)
Record FilterMaps := mkMaps {
  fm_xskmap : gmap Z Z;
  fm_bound_ports : list Z;
  fm_bound_port_count : list Z;
  fm_bound_port_range : list Z;
  fm_drop_counters : list Z;
}.

(** [XskMap::redirect] with no flags: the redirect action when the queue has
    a socket, an error otherwise. *)
Class XskRedirect := xsk_redirect : gmap Z Z → Z → result Z Z.
Class XskRedirectLaws `{XskRedirect} := {
  redirect_hit m q : is_Some (m !! q) → xsk_redirect m q = Ok XDP_REDIRECT;
  redirect_miss m q : m !! q = None → ∃ e, xsk_redirect m q = Err e;
}.

(** ** Packet access *)

(** [ptr_at] followed by the copy of [N] bytes. *)
Definition read_array (packet : list Z) (N offset : Z) : result (list Z) unit :=
  if len packet <? offset + N then Err tt
  else Ok (take (Z.to_nat N) (drop (Z.to_nat offset) packet)).

(** Constant-index access into an array of known length. *)
Definition at_ (bytes : list Z) (i : Z) : Z := default 0 (nthZ bytes i).

Definition read_u16_be (packet : list Z) (offset : Z) : result Z unit :=
  bytes <-? read_array packet 2 offset;
  Ok (from_be16 (at_ bytes 0) (at_ bytes 1)).

(** ** Packet classification *)
Definition ETHER_TYPE_OFFSET : Z := 12.
Definition VLAN_INNER_ETHER_TYPE_OFFSET : Z := 16.
Definition QINQ_INNER_ETHER_TYPE_OFFSET : Z := 20.
Definition ETHERTYPE_VLAN : Z := 33024.
Definition ETHERTYPE_QINQ : Z := 34984.
Definition IPV4_FRAGMENT_OFFSET : Z := 6.
Definition IPV4_PROTOCOL_OFFSET : Z := 9.
Definition UDP_DESTINATION_PORT_OFFSET : Z := 2.

Definition packet_ethertype (packet : list Z) : result (Z * Z) unit :=
  ethertype <-? read_u16_be packet ETHER_TYPE_OFFSET;
  if ethertype =? ETHERTYPE_VLAN then
    ethertype <-? read_u16_be packet VLAN_INNER_ETHER_TYPE_OFFSET;
    Ok (ethertype, 18)
  else if ethertype =? ETHERTYPE_QINQ then
    inner_tpid <-? read_u16_be packet VLAN_INNER_ETHER_TYPE_OFFSET;
    if negb (inner_tpid =? ETHERTYPE_VLAN) then Ok (inner_tpid, 18)
    else
      ethertype <-? read_u16_be packet QINQ_INNER_ETHER_TYPE_OFFSET;
      Ok (ethertype, 22)
  else Ok (ethertype, 14).

Definition ipv4_udp_destination_port (packet : list Z) (l2_len : Z) : result (option Z) unit :=
  ipv4_header <-? read_array packet IPV4_MIN_HEADER_LEN l2_len;
  let version_ihl := at_ ipv4_header 0 in
  if negb (Z.shiftr version_ihl 4 =? 4) then Ok None
  else
    let ihl := Z.land version_ihl 15 * 4 in
    if ihl <? IPV4_MIN_HEADER_LEN then Ok None
    else
      let fragment := from_be16 (at_ ipv4_header IPV4_FRAGMENT_OFFSET) (at_ ipv4_header (IPV4_FRAGMENT_OFFSET + 1)) in
      if negb (Z.land fragment IPV4_FRAGMENT_MASK =? 0) then Ok None
      else if negb (at_ ipv4_header IPV4_PROTOCOL_OFFSET =? UDP_PROTOCOL) then Ok None
      else
        udp_header <-? read_array packet UDP_HEADER_LEN (l2_len + ihl);
        Ok (Some (from_be16 (at_ udp_header UDP_DESTINATION_PORT_OFFSET) (at_ udp_header (UDP_DESTINATION_PORT_OFFSET + 1)))).

Definition packet_udp_destination_port (packet : list Z) : result (option Z) unit :=
  l2 <-? packet_ethertype packet;
  if negb (l2.1 =? ETHERTYPE_IPV4) then Ok None
  else ipv4_udp_destination_port packet l2.2.

(** ** Map access *)
Definition has_bound_ports (m : FilterMaps) : bool :=
  match nthZ (fm_bound_port_count m) 0 with
  | Some count => negb (count =? 0)
  | None => false
  end.

Definition is_bound_port (m : FilterMaps) (port : Z) : bool :=
  match nthZ (fm_bound_ports m) port with
  | Some enabled => negb (enabled =? 0)
  | None => false
  end.

Definition bound_port_range (m : FilterMaps) : option (Z * Z) :=
  match nthZ (fm_bound_port_range m) BOUND_PORT_RANGE_START with
  | None => None
  | Some start =>
      match nthZ (fm_bound_port_range m) BOUND_PORT_RANGE_END with
      | None => None
      | Some stop =>
          if (start =? 0) && (stop =? 0) then None
          else if stop <? start then None
          else Some (start, stop)
      end
  end.

Definition increment_drop_counter (m : FilterMaps) (reason : Z) : FilterMaps :=
  match nthZ (fm_drop_counters m) reason with
  | Some counter =>
      mkMaps (fm_xskmap m) (fm_bound_ports m) (fm_bound_port_count m) (fm_bound_port_range m)
        (<[Z.to_nat reason := wrapping_add 64 counter 1]> (fm_drop_counters m))
  | None => m
  end.

(** ** The programs

    Each returns the maps with the drop counter it may have bumped, and the
    action. *)
Section Programs.
Context `{XskRedirect}.

Definition redirect_to_xskmap (m : FilterMaps) (rx_queue_index : Z) : FilterMaps * result Z unit :=
  match xsk_redirect (fm_xskmap m) rx_queue_index with
  | Ok action => (m, Ok action)
  | Err _ => (increment_drop_counter m DROP_REASON_XSKMAP_MISS, Ok XDP_DROP)
  end.

Definition try_redirect_bound_ports (m : FilterMaps) (rx_queue_index : Z) (packet : list Z) :
    FilterMaps * result Z unit :=
  match packet_udp_destination_port packet with
  | Err e => (m, Err e)
  | Ok None => (m, Ok XDP_PASS)
  | Ok (Some destination_port) =>
      if negb (has_bound_ports m) then (m, Ok XDP_PASS)
      else if negb (is_bound_port m destination_port) then (m, Ok XDP_PASS)
      else redirect_to_xskmap m rx_queue_index
  end.

Definition try_redirect_port_range (m : FilterMaps) (rx_queue_index : Z) (packet : list Z) :
    FilterMaps * result Z unit :=
  match packet_udp_destination_port packet with
  | Err e => (m, Err e)
  | Ok None => (m, Ok XDP_PASS)
  | Ok (Some destination_port) =>
      match bound_port_range m with
      | None => (m, Ok XDP_PASS)
      | Some (start, stop) =>
          if (destination_port <? start) || (stop <? destination_port) then (m, Ok XDP_PASS)
          else redirect_to_xskmap m rx_queue_index
      end
  end.

Definition or_pass (r : FilterMaps * result Z unit) : FilterMaps * Z :=
  (r.1, match r.2 with Ok action => action | Err _ => XDP_PASS end).

Definition fast_socket_xdp (m : FilterMaps) (rx_queue_index : Z) (packet : list Z) : FilterMaps * Z :=
  or_pass (try_redirect_bound_ports m rx_queue_index packet).

Definition fast_socket_xdp_port_range (m : FilterMaps) (rx_queue_index : Z) (packet : list Z) : FilterMaps * Z :=
  or_pass (try_redirect_port_range m rx_queue_index packet).
End Programs.
