(* ===== verification/FilterProofs.v ===== *)
(** * Lemmas on the in-kernel filter

    What the filter and the userspace parser each read of a frame, as
    conditions on the frame's bytes. *)
From S2P Require Import Prelude Bits Core Wire WireProofs Filter.
Open Scope Z_scope.

(** ** Bytes by position *)
Lemma index_at l k : 0 ≤ k < len l → index l k = Ret (at_ l k).
Proof. intros Hk. unfold index, at_. destruct (nthZ_is_Some l k Hk) as [x ->]. done. Qed.

Lemma at_window l k n i : 0 ≤ k → 0 ≤ i < n → k + n ≤ len l →
  at_ (take (Z.to_nat n) (drop (Z.to_nat k) l)) i = at_ l (k + i).
Proof.
  intros Hk Hi Hl. unfold at_, nthZ. case_bool; try lia.
  rewrite lookup_take_lt, lookup_drop by lia. do 2 f_equal. lia.
Qed.

Lemma at_byte l k : bytes_ok l → fits 8 (at_ l k).
Proof.
  intros Hl. unfold at_, nthZ. destruct (k <? 0); [cbn; unfold fits; lia|].
  destruct (l !! Z.to_nat k) as [x|] eqn:E; cbn; [|unfold fits; lia].
  by apply (Forall_lookup_1 _ _ _ _ Hl E).
Qed.

(** The big-endian word at a position. *)
Definition word (l : list Z) (k : Z) : Z := from_be16 (at_ l k) (at_ l (k + 1)).

Lemma read_be_u16_at l k : 0 ≤ k → k + 1 < len l → read_be_u16 l k = Ret (word l k).
Proof. intros Hk Hl. unfold read_be_u16. by rewrite !index_at by lia. Qed.

Lemma read_u16_be_at l k : 0 ≤ k →
  read_u16_be l k = if len l <? k + 2 then Err tt else Ok (word l k).
Proof.
  intros Hk. unfold read_u16_be, read_array. destruct (Z.ltb_spec (len l) (k + 2)); [done|].
  cbn [result_bind]. rewrite !at_window by lia. unfold word. by rewrite Z.add_0_r.
Qed.

Lemma slice_or_panic_window {A} (l : list A) a b : 0 ≤ a ≤ b → b ≤ len l →
  slice_or_panic l a b = Ret (take (Z.to_nat (b - a)) (drop (Z.to_nat a) l)).
Proof. intros. unfold slice_or_panic, slice. case_bool; try lia. done. Qed.

Lemma len_take_drop {A} (l : list A) k n : 0 ≤ k → 0 ≤ n → k + n ≤ len l →
  len (take (Z.to_nat n) (drop (Z.to_nat k) l)) = n.
Proof. intros. rewrite len_take, len_drop; lia. Qed.

Lemma word_window l k n i : 0 ≤ k → 0 ≤ i → i + 1 < n → k + n ≤ len l →
  word (take (Z.to_nat n) (drop (Z.to_nat k) l)) i = word l (k + i).
Proof. intros. unfold word. rewrite !at_window by lia. by rewrite Z.add_assoc. Qed.

(** The packet after [l2] bytes of a frame. *)
Definition packet_at (frame : list Z) (l2 : Z) : list Z :=
  take (Z.to_nat (len frame - l2)) (drop (Z.to_nat l2) frame).
Lemma packet_len frame l2 : 0 ≤ l2 ≤ len frame → len (packet_at frame l2) = len frame - l2.
Proof. intros. apply len_take_drop; lia. Qed.
Lemma packet_index frame l2 i : 0 ≤ l2 → 0 ≤ i < len frame - l2 → index (packet_at frame l2) i = Ret (at_ frame (l2 + i)).
Proof. intros. rewrite index_at by (rewrite packet_len; lia). f_equal. apply at_window; lia. Qed.
Lemma packet_word frame l2 i : 0 ≤ l2 → 0 ≤ i → i + 1 < len frame - l2 →
  read_be_u16 (packet_at frame l2) i = Ret (word frame (l2 + i)).
Proof. intros. rewrite read_be_u16_at by (rewrite ?packet_len; lia). f_equal. apply word_window; lia. Qed.

(** ** UDP headers in a frame *)
Definition ihl_at (frame : list Z) (l2 : Z) : Z := Z.land (at_ frame l2) 15 * 4.

(** An unfragmented IPv4 packet after [l2] bytes, with a UDP header to port
    [d]: what the filter looks for. *)
Record udp_header_at (frame : list Z) (l2 d : Z) : Prop := mkUdpHeader {
  uh_ip : l2 + 20 ≤ len frame;
  uh_version : Z.shiftr (at_ frame l2) 4 = 4;
  uh_ihl : 20 ≤ ihl_at frame l2;
  uh_whole : Z.land (word frame (l2 + 6)) IPV4_FRAGMENT_MASK = 0;
  uh_protocol : at_ frame (l2 + 9) = UDP_PROTOCOL;
  uh_udp : l2 + ihl_at frame l2 + 8 ≤ len frame;
  uh_port : word frame (l2 + ihl_at frame l2 + 2) = d;
}.

(** The length fields, which only userspace checks. *)
Definition lengths_ok (frame : list Z) (l2 : Z) : Prop :=
  let total := word frame (l2 + 2) in
  let udp_len := word frame (l2 + ihl_at frame l2 + 4) in
  ihl_at frame l2 + 8 ≤ total ∧ l2 + total ≤ len frame ∧ 8 ≤ udp_len ∧ ihl_at frame l2 + udp_len ≤ total.

Lemma filter_port_iff frame l2 d : 0 ≤ l2 →
  ipv4_udp_destination_port frame l2 = Ok (Some d) ↔ udp_header_at frame l2 d.
Proof.
  intros Hl2. unfold ipv4_udp_destination_port, read_array, IPV4_MIN_HEADER_LEN, UDP_HEADER_LEN,
    IPV4_FRAGMENT_OFFSET, IPV4_PROTOCOL_OFFSET, UDP_DESTINATION_PORT_OFFSET.
  destruct (Z.ltb_spec (len frame) (l2 + 20)); cbn [result_bind].
  { split; [done|]. intros []. lia. }
  rewrite !at_window, Z.add_0_r by lia.
  change (from_be16 (at_ frame (l2 + 6)) (at_ frame (l2 + (6 + 1)))) with
    (from_be16 (at_ frame (l2 + 6)) (at_ frame (l2 + 7))).
  replace (from_be16 (at_ frame (l2 + 6)) (at_ frame (l2 + 7))) with (word frame (l2 + 6))
    by (unfold word; by rewrite <-Z.add_assoc).
  fold (ihl_at frame l2). destruct (Z.eqb_spec (Z.shiftr (at_ frame l2) 4) 4); cbn [negb]; [|split; [done|by intros []]].
  destruct (Z.ltb_spec (ihl_at frame l2) 20); [split; [done|intros []; lia]|].
  destruct (Z.eqb_spec (Z.land (word frame (l2 + 6)) IPV4_FRAGMENT_MASK) 0); cbn [negb]; [|split; [done|by intros []]].
  destruct (Z.eqb_spec (at_ frame (l2 + 9)) UDP_PROTOCOL); cbn [negb]; [|split; [done|by intros []]].
  destruct (Z.ltb_spec (len frame) (l2 + ihl_at frame l2 + 8)); cbn [result_bind]; [split; [done|intros []; lia]|].
  rewrite !at_window by lia. rewrite Z.add_assoc. fold (word frame (l2 + ihl_at frame l2 + 2)).
  split; [intros [= <-]; by constructor|intros []; congruence].
Qed.

(** The userspace parser on the bytes after [l2]. *)
Lemma parse_port_iff frame l2 d : bytes_ok frame → 0 ≤ l2 ≤ len frame →
  (∃ p, parse_ipv4_udp_datagram (packet_at frame l2) = Ret (Udp p) ∧ pu_destination_port p = d) ↔ udp_header_at frame l2 d ∧ lengths_ok frame l2.
Proof.
  intros Hb Hl2. pose proof (packet_len frame l2 Hl2) as Hlen.
  assert (Hat : ∀ i, 0 ≤ i < len (packet_at frame l2) → index (packet_at frame l2) i = Ret (at_ frame (l2 + i)))
    by (intros; apply packet_index; lia).
  assert (Hw : ∀ i, 0 ≤ i → i + 1 < len (packet_at frame l2) → read_be_u16 (packet_at frame l2) i = Ret (word frame (l2 + i)))
    by (intros; apply packet_word; lia).
  set (packet := packet_at frame l2) in *.
  unfold parse_ipv4_udp_datagram, IPV4_MIN_HEADER_LEN, UDP_HEADER_LEN, lengths_ok.
  destruct (Z.ltb_spec (len packet) 20); [split; [by intros (? & ? & _)|intros [[] _]; lia]|].
  rewrite (Hat 0), Z.add_0_r by lia. run. fold (ihl_at frame l2).
  destruct (Z.eqb_spec (Z.shiftr (at_ frame l2) 4) 4); cbn [negb]; [|split; [by intros (? & ? & _)|by intros [[] _]]].
  destruct (Z.ltb_spec (ihl_at frame l2) 20); cbn [orb]; [split; [by intros (? & ? & _)|intros [[] _]; lia]|].
  destruct (Z.ltb_spec (len packet) (ihl_at frame l2)); [split; [by intros (? & ? & _)|intros [[] _]; lia]|].
  rewrite (Hw 2) by lia. run. set (total := word frame (l2 + 2)).
  destruct (Z.ltb_spec total (ihl_at frame l2)); cbn [orb]; [split; [by intros (? & ? & _)|intros [_ (? & _)]; lia]|].
  destruct (Z.ltb_spec (len packet) total); [split; [by intros (? & ? & _)|intros [_ (_ & ? & _)]; lia]|].
  rewrite (Hw 6) by lia. run.
  destruct (Z.eqb_spec (Z.land (word frame (l2 + 6)) IPV4_FRAGMENT_MASK) 0); cbn [negb]; [|split; [by intros (? & ? & _)|by intros [[] _]]].
  rewrite (Hat 9) by lia. run.
  destruct (Z.eqb_spec (at_ frame (l2 + 9)) UDP_PROTOCOL); cbn [negb orb]; [|split; [by intros (? & ? & _)|by intros [[] _]]].
  destruct (Z.ltb_spec total (ihl_at frame l2 + 8)); [split; [by intros (? & ? & _)|intros [_ (? & _)]; lia]|].
  rewrite slice_or_panic_window by lia. run. set (udp := take _ _).
  assert (Hu : ∀ i, 0 ≤ i < 7 → read_be_u16 udp i = Ret (word frame (l2 + ihl_at frame l2 + i))).
  { intros i Hi. rewrite read_be_u16_at by (unfold udp; rewrite ?len_take_drop; lia). f_equal.
    unfold udp. rewrite word_window by lia. unfold packet, packet_at. rewrite word_window by lia. f_equal. lia. }
  rewrite (Hu 4) by lia. run. set (udp_len := word frame (l2 + ihl_at frame l2 + 4)).
  destruct (Z.ltb_spec udp_len 8); cbn [orb]; [split; [by intros (? & ? & _)|intros [_ (_ & _ & ? & _)]; lia]|].
  destruct (Z.ltb_spec total (ihl_at frame l2 + udp_len)); [split; [by intros (? & ? & _)|intros [_ (_ & _ & _ & ?)]; lia]|].
  rewrite !Hat by lia. run. rewrite !Hu by lia. run.
  destruct (ecn_total (at_ frame (l2 + 1))) as [ecn ->]; [apply (at_byte frame _ Hb)|]. run. split.
  - intros (p & [= <-] & <-). split; [constructor; try done; lia|]. split_and!; lia.
  - intros [[] _]. eexists. split; [done|]. done.
Qed.

(** ** Whole frames *)
Definition outer_ethertype (frame : list Z) : Z := word frame ETHER_TYPE_OFFSET.

(** The Ethernet header length both sides use, outside QinQ. *)
Definition l2_of (frame : list Z) : Z := if outer_ethertype frame =? ETHERTYPE_VLAN then 18 else 14.

(** An IPv4 ethertype after at most one VLAN tag. *)
Definition ipv4_frame (frame : list Z) : Prop :=
  l2_of frame ≤ len frame ∧ word frame (l2_of frame - 2) = ETHERTYPE_IPV4.

Lemma filter_frame_iff frame d : outer_ethertype frame ≠ ETHERTYPE_QINQ →
  packet_udp_destination_port frame = Ok (Some d) ↔ ipv4_frame frame ∧ udp_header_at frame (l2_of frame) d.
Proof.
  intros Hq. unfold packet_udp_destination_port, packet_ethertype, ipv4_frame, l2_of, outer_ethertype in *.
  rewrite !read_u16_be_at by (unfold ETHER_TYPE_OFFSET, VLAN_INNER_ETHER_TYPE_OFFSET; lia).
  unfold VLAN_INNER_ETHER_TYPE_OFFSET, ETHER_TYPE_OFFSET in *.
  destruct (Z.ltb_spec (len frame) (12 + 2)); cbn [result_bind].
  { split; [done|]. intros [[Hl _] _]. case_bool_in Hl; lia. }
  destruct (Z.eqb_spec (word frame 12) ETHERTYPE_VLAN) as [Hv|Hv].
  - destruct (Z.ltb_spec (len frame) (16 + 2)); cbn [result_bind]; [split; [done|intros [_ []]; lia]|]. cbn [fst snd].
    destruct (Z.eqb_spec (word frame 16) ETHERTYPE_IPV4); cbn [negb]; [|split; [done|by intros [[_ ?] _]]].
    rewrite filter_port_iff by lia. split; [intros; split; [split; [lia|done]|done]|by intros [_ ?]].
  - destruct (Z.eqb_spec (word frame 12) ETHERTYPE_QINQ); [done|]. cbn [result_bind fst snd].
    destruct (Z.eqb_spec (word frame 12) ETHERTYPE_IPV4); cbn [negb]; [|split; [done|by intros [[_ ?] _]]].
    rewrite filter_port_iff by lia. split; [intros; split; [split; [lia|done]|done]|by intros [_ ?]].
Qed.

Lemma parse_frame_iff frame d : bytes_ok frame →
  (∃ p, parse_ethernet_ipv4_udp frame = Ret (Udp p) ∧ pu_destination_port p = d) ↔
  ipv4_frame frame ∧ udp_header_at frame (l2_of frame) d ∧ lengths_ok frame (l2_of frame).
Proof.
  intros Hb. pose proof (parse_port_iff frame (l2_of frame) d Hb) as Hp. revert Hp.
  unfold parse_ethernet_ipv4_udp, parse_l2, ipv4_frame, l2_of, outer_ethertype, ETHERNET_HEADER_LEN, VLAN_HEADER_LEN,
    ETHER_TYPE_OFFSET, ETHERTYPE_VLAN, VLAN_ETHERTYPE.
  assert (Hmap : ∀ l2 o, (∃ p, (r ← o; Ret match r with
          | Udp p => Udp (mkParsedUdp (pu_source p) (pu_destination p) (pu_source_port p) (pu_destination_port p)
                           (pu_ip_len p) (l2 + pu_payload_offset p) (pu_payload_len p) (pu_ecn p))
          | Fragment => Fragment
          | Drop => Drop end) = Ret (Udp p) ∧ pu_destination_port p = d) ↔ ∃ p, o = Ret (Udp p) ∧ pu_destination_port p = d).
  { intros l2 [[p| |]| | |]; cbn; split; try (by intros (? & ? & _)).
    - intros (? & [= <-] & <-). by eexists.
    - intros (? & [= ->] & <-). by eexists. }
  destruct (Z.ltb_spec (len frame) 14).
  { intros _. split; [by intros (? & ? & _)|]. intros [[Hl _] _]. case_bool_in Hl; lia. }
  rewrite (read_be_u16_at _ 12) by lia. run. destruct (Z.eqb_spec (word frame 12) 33024) as [Hv|Hv].
  - destruct (Z.ltb_spec (len frame) 18); [intros _; split; [by intros (? & ? & _)|intros [[? _] _]; lia]|].
    rewrite (read_be_u16_at _ 16) by lia. run. change (18 - 2) with 16.
    destruct (Z.eqb_spec (word frame 16) ETHERTYPE_IPV4); cbn [negb]; [|intros _; split; [by intros (? & ? & _)|by intros [[_ ?] _]]].
    rewrite slice_or_panic_window by lia. run. intros Hp. rewrite Hmap, Hp by lia. tauto.
  - run. change (14 - 2) with 12.
    destruct (Z.eqb_spec (word frame 12) ETHERTYPE_IPV4); cbn [negb]; [|intros _; split; [by intros (? & ? & _)|by intros [[_ ?] _]]].
    rewrite slice_or_panic_window by lia. run. intros Hp. rewrite Hmap, Hp by lia. tauto.
Qed.

Lemma filter_no_fragment frame d : bytes_ok frame → outer_ethertype frame ≠ ETHERTYPE_QINQ →
  packet_udp_destination_port frame = Ok (Some d) → parse_ethernet_ipv4_udp frame ≠ Ret Fragment.
Proof.
  intros Hb Hq [[Hl He] Hu]%filter_frame_iff; [|done]. destruct Hu as [Hip _ _ Hw _ _ _].
  unfold parse_ethernet_ipv4_udp, parse_l2, l2_of, outer_ethertype, ETHERNET_HEADER_LEN, VLAN_HEADER_LEN, ETHER_TYPE_OFFSET,
    ETHERTYPE_VLAN, VLAN_ETHERTYPE in *.
  set (l2 := if word frame 12 =? 33024 then 18 else 14) in *.
  assert (Hl2 : 14 ≤ l2 ≤ 18) by (unfold l2; case_bool; lia).
  destruct (Z.ltb_spec (len frame) 14); [lia|]. rewrite (read_be_u16_at _ 12) by lia. run.
  assert (Hdatagram : (packet ← slice_or_panic frame l2 (len frame);
     r ← parse_ipv4_udp_datagram packet; Ret (match r with Fragment => true | _ => false end)) ≠ Ret true).
  { rewrite slice_or_panic_window by lia. fold (packet_at frame l2). run. pose proof (packet_len frame l2) as Hlen.
    unfold parse_ipv4_udp_datagram, IPV4_MIN_HEADER_LEN. destruct (Z.ltb_spec (len (packet_at frame l2)) 20); [done|].
    rewrite (packet_index _ _ 0) by lia. run. destruct (negb _); [done|]. destruct (_ || _); [done|].
    rewrite (packet_word _ _ 2) by lia. run. destruct (_ || _); [done|]. rewrite (packet_word _ _ 6) by lia. run.
    rewrite Hw. cbn [Z.eqb negb]. intros Habs. apply bind_ret_inv in Habs as (r & Hr & Hret).
    destruct r; try done. clear -Hr.
    repeat (apply bind_ret_inv in Hr as (? & _ & Hr) || (destruct (_ || _) in Hr; [done|])). done. }
  intros Habs. apply Hdatagram. clear Hdatagram. fold l2 in Habs.
  destruct (Z.eqb_spec (word frame 12) 33024) as [Hv|Hv]; subst l2.
  - destruct (Z.ltb_spec (len frame) 18); [lia|]. rewrite (read_be_u16_at _ 16) in Habs by lia. revert Habs. run.
    change (18 - 2) with 16 in He. rewrite He. cbn [Z.eqb negb]. change (ETHERTYPE_IPV4 =? ETHERTYPE_IPV4) with true. cbn [negb].
    intros (packet & -> & Hr)%bind_ret_inv. run. apply bind_ret_inv in Hr as (r & -> & Hr). run. by destruct r.
  - revert Habs. run. change (14 - 2) with 12 in He. rewrite He. change (ETHERTYPE_IPV4 =? ETHERTYPE_IPV4) with true. cbn [negb].
    intros (packet & -> & Hr)%bind_ret_inv. run. apply bind_ret_inv in Hr as (r & -> & Hr). run. by destruct r.
Qed.

(** Every port the parser reports was seen by the filter. *)
Lemma parser_port_seen frame d : bytes_ok frame →
  (∃ p, parse_ethernet_ipv4_udp frame = Ret (Udp p) ∧ pu_destination_port p = d) →
  packet_udp_destination_port frame = Ok (Some d).
Proof.
  intros Hb. rewrite (parse_frame_iff frame d Hb). intros (Hi & Hu & _). apply filter_frame_iff; [|done]. intros Hq.
  destruct Hi as [_ Hi]. unfold l2_of, outer_ethertype in *. rewrite Hq in Hi.
  change (word frame ETHER_TYPE_OFFSET = ETHERTYPE_IPV4) in Hi. rewrite Hq in Hi. done.
Qed.
