(* ===== verification/Program.v ===== *)
(** * XDP program loading: [program.rs]

    The configuration of the filter, the loader's checks of the object's maps,
    the reference-counted port bindings, socket registration, and the
    process-wide registry of attached programs. The BPF object and its maps
    belong to a third-party library and the kernel: a class with the
    documented behaviour of their updates. *)
From stdpp Require Import strings.
From S2P Require Import Prelude Core Wire Filter.
Open Scope Z_scope.

Inductive AttachMode := AttachDefault | AttachSkb | AttachDrv | AttachHw.
#[export] Instance AttachMode_eq_dec : EqDecision AttachMode.
Proof. solve_decision. Defined.

Inductive XdpProgramConfig := BoundPorts | PortRange (start stop : Z).
#[export] Instance XdpProgramConfig_eq_dec : EqDecision XdpProgramConfig.
Proof. solve_decision. Defined.

(** The [io::Error]s of the module, by the check that raises them. *)
Inductive ProgramError :=
  | InvertedRange | DisabledRange
  | NoMap (name : string) | MapError (message : string) | WrongLength (name : string) (got : Z)
  | CountWithoutPorts | PortsWithoutCount
  | NoProgram (name : string) | LoadError (message : string) | AttachError (message : string)
  | NotBoundPortsProgram | ProgramMismatch | OsError (errno : Z).

Definition BOUND_PORTS_PROGRAM : string := "fast_socket_xdp".
Definition PORT_RANGE_PROGRAM : string := "fast_socket_xdp_port_range".
Definition program_name (c : XdpProgramConfig) : string :=
  match c with BoundPorts => BOUND_PORTS_PROGRAM | PortRange _ _ => PORT_RANGE_PROGRAM end.

(** [XdpProgramConfig::validate]. *)
Definition config_validate (c : XdpProgramConfig) : result XdpProgramConfig ProgramError :=
  match c with
  | PortRange start stop =>
      if stop <? start then Err InvertedRange
      else if (start =? 0) && (stop =? 0) then Err DisabledRange
      else Ok c
  | BoundPorts => Ok c
  end.

Definition ENOENT : Z := 2.

(** ** The BPF object

    [aya_array e name w] is [map_mut(name)] viewed as an array of [w]-byte
    elements: absent, of another type, or its contents. *)
Class Aya (E : Type) := {
  aya_array : E → string → Z → option (result (list Z) string);
  aya_array_set : E → string → Z → Z → Z → E * result unit string;
  aya_xskmap : E → option (result (gmap Z Z) string);
  aya_xskmap_set : E → Z → Z → E * result unit string;
  bpf_map_delete : E → Z → E * result unit Z;
  aya_program : E → string → option (result unit string);
  aya_program_load : E → string → E * result unit string;
  aya_program_attach : E → string → Z → AttachMode → E * result unit string;
}.

(** An update takes effect entirely or not at all, and touches one entry of
    one map; loading and attaching touch no map. *)
Class AyaLaws (E : Type) `{Aya E} := {
  array_set_ok e n w i v e' l : aya_array_set e n w i v = (e', Ok tt) → aya_array e n w = Some (Ok l) →
    0 ≤ i < len l ∧ aya_array e' n w = Some (Ok (<[Z.to_nat i := v]> l));
  array_set_err e n w i v e' m : aya_array_set e n w i v = (e', Err m) → ∀ n w, aya_array e' n w = aya_array e n w;
  array_set_other e n w i v n' w' : n' ≠ n → aya_array (aya_array_set e n w i v).1 n' w' = aya_array e n' w';
  array_set_xskmap e n w i v : aya_xskmap (aya_array_set e n w i v).1 = aya_xskmap e;
  xskmap_set_ok e q fd e' m : aya_xskmap_set e q fd = (e', Ok tt) → aya_xskmap e = Some (Ok m) →
    aya_xskmap e' = Some (Ok (<[q := fd]> m));
  xskmap_set_err e q fd e' x : aya_xskmap_set e q fd = (e', Err x) → aya_xskmap e' = aya_xskmap e;
  xskmap_set_array e q fd n w : aya_array (aya_xskmap_set e q fd).1 n w = aya_array e n w;
  delete_ok e q e' m : bpf_map_delete e q = (e', Ok tt) → aya_xskmap e = Some (Ok m) →
    aya_xskmap e' = Some (Ok (delete q m));
  delete_err e q e' x : bpf_map_delete e q = (e', Err x) → aya_xskmap e' = aya_xskmap e;
  delete_missing e q e' m : bpf_map_delete e q = (e', Err ENOENT) → aya_xskmap e = Some (Ok m) → m !! q = None;
  delete_array e q n w : aya_array (bpf_map_delete e q).1 n w = aya_array e n w;
  load_maps e n m w : aya_array (aya_program_load e n).1 m w = aya_array e m w;
  load_xskmap e n : aya_xskmap (aya_program_load e n).1 = aya_xskmap e;
  attach_maps e n i a m w : aya_array (aya_program_attach e n i a).1 m w = aya_array e m w;
  attach_xskmap e n i a : aya_xskmap (aya_program_attach e n i a).1 = aya_xskmap e;
}.

(** ** A state and error monad over the object *)
Definition PM (S A : Type) : Type := S → S * result A ProgramError.
Definition pm_ret {S A} (a : A) : PM S A := λ s, (s, Ok a).
Definition pm_err {S A} (e : ProgramError) : PM S A := λ s, (s, Err e).
Definition pm_bind {S A B} (m : PM S A) (k : A → PM S B) : PM S B := λ s,
  match m s with
  | (s, Ok a) => k a s
  | (s, Err e) => (s, Err e)
  end.
Notation "x <-! c ; k" := (pm_bind c (λ x, k))
  (at level 100, c at next level, right associativity) : rust_scope.

Definition map_err {A E F} (f : E → F) (r : result A E) : result A F :=
  match r with Ok a => Ok a | Err e => Err (f e) end.

Section Objects.
Context {E : Type} `{Aya E}.

(** [map_mut(name).ok_or(..)?] and [AyaArray::try_from(map)?]. *)
Definition open_array (name : string) (w : Z) : PM E (list Z) := λ e,
  match aya_array e name w with
  | None => (e, Err (NoMap name))
  | Some r => (e, map_err MapError r)
  end.
Definition array_set (name : string) (w i v : Z) : PM E unit := λ e,
  let '(e, r) := aya_array_set e name w i v in (e, map_err MapError r).

Definition check_len (name : string) (expected : Z) (l : list Z) : PM E unit :=
  if negb (len l =? expected) then pm_err (WrongLength name (len l)) else pm_ret tt.

Record BoundPortMaps := mkBoundPortMaps {
  ports_available : bool;
  count_available : bool;
}.

Definition validate_bound_port_maps : PM E BoundPortMaps := λ e,
  match aya_array e "BOUND_PORTS" 1 with
  | None =>
      match aya_array e "BOUND_PORT_COUNT" 4 with
      | Some _ => (e, Err CountWithoutPorts)
      | None => (e, Ok (mkBoundPortMaps false false))
      end
  | Some _ =>
      (ports <-! open_array "BOUND_PORTS" 1;
       _ <-! check_len "BOUND_PORTS" BOUND_PORTS_LEN ports;
       _ <-! (λ e, match aya_array e "BOUND_PORT_COUNT" 4 with
                   | None => (e, Err PortsWithoutCount)
                   | Some _ => (e, Ok tt)
                   end);
       counts <-! open_array "BOUND_PORT_COUNT" 4;
       _ <-! check_len "BOUND_PORT_COUNT" BOUND_PORT_COUNT_LEN counts;
       pm_ret (mkBoundPortMaps true true)) e
  end.

Definition configure_bound_port_range (start stop : Z) : PM E unit :=
  range <-! open_array "BOUND_PORT_RANGE" 2;
  _ <-! check_len "BOUND_PORT_RANGE" BOUND_PORT_RANGE_LEN range;
  _ <-! array_set "BOUND_PORT_RANGE" 2 BOUND_PORT_RANGE_START start;
  array_set "BOUND_PORT_RANGE" 2 BOUND_PORT_RANGE_END stop.

Definition validate_xskmap : PM E unit := λ e,
  match aya_xskmap e with
  | None => (e, Err (NoMap "XSKMAP"))
  | Some (Err m) => (e, Err (MapError m))
  | Some (Ok _) => (e, Ok tt)
  end.

Definition validate_drop_counters : PM E unit := λ e,
  match aya_array e "DROP_COUNTERS" 8 with
  | None => (e, Ok tt)
  | Some (Err m) => (e, Err (MapError m))
  | Some (Ok l) => check_len "DROP_COUNTERS" DROP_COUNTERS_LEN l e
  end.

(** ** Loaded programs *)
Record XdpProgram := mkProgram {
  pg_ebpf : E;
  pg_if_index : Z;
  pg_hash : Z;
  pg_mode : AttachMode;
  pg_config : XdpProgramConfig;
  pg_bound_ports_available : bool;
  pg_bound_port_count_available : bool;
  pg_bound_ports : gmap Z Z;
  pg_registered_queues : gset Z;
}.

(** [XdpProgram::load_and_attach]; [loaded] is what [Ebpf::load] made of the
    object's bytes. *)
Definition load_and_attach (if_index : Z) (mode : AttachMode) (config : XdpProgramConfig)
    (loaded : result E string) (program_hash : Z) : result XdpProgram ProgramError :=
  config <-? config_validate config;
  e <-? map_err LoadError loaded;
  let name := program_name config in
  let '(e, r) :=
    (maps <-! match config with
              | BoundPorts => validate_bound_port_maps
              | PortRange start stop =>
                  _ <-! configure_bound_port_range start stop; pm_ret (mkBoundPortMaps false false)
              end;
     _ <-! validate_xskmap;
     _ <-! validate_drop_counters;
     _ <-! (λ e, match aya_program e name with
                 | None => (e, Err (NoProgram name))
                 | Some r => (e, map_err LoadError r)
                 end);
     _ <-! (λ e, let '(e, r) := aya_program_load e name in (e, map_err LoadError r));
     _ <-! (λ e, let '(e, r) := aya_program_attach e name if_index mode in (e, map_err AttachError r));
     pm_ret maps) e in
  maps <-? r;
  Ok (mkProgram e if_index program_hash mode config (ports_available maps) (count_available maps) ∅ ∅).
End Objects.
Arguments XdpProgram : clear implicits.

Section Programs.
Context {E : Type} `{Aya E}.
Implicit Types p : XdpProgram E.

Definition with_ebpf p (e : E) : XdpProgram E :=
  mkProgram e (pg_if_index p) (pg_hash p) (pg_mode p) (pg_config p) (pg_bound_ports_available p)
    (pg_bound_port_count_available p) (pg_bound_ports p) (pg_registered_queues p).
Definition with_ports p (ports : gmap Z Z) : XdpProgram E :=
  mkProgram (pg_ebpf p) (pg_if_index p) (pg_hash p) (pg_mode p) (pg_config p) (pg_bound_ports_available p)
    (pg_bound_port_count_available p) ports (pg_registered_queues p).
Definition with_queues p (queues : gset Z) : XdpProgram E :=
  mkProgram (pg_ebpf p) (pg_if_index p) (pg_hash p) (pg_mode p) (pg_config p) (pg_bound_ports_available p)
    (pg_bound_port_count_available p) (pg_bound_ports p) queues.

(** An operation of the object run on [self.ebpf]. *)
Definition on_ebpf {A} (m : PM E A) : PM (XdpProgram E) A := λ p,
  let '(e, r) := m (pg_ebpf p) in (with_ebpf p e, r).
Definition update_ports (f : gmap Z Z → gmap Z Z) : PM (XdpProgram E) unit := λ p,
  (with_ports p (f (pg_bound_ports p)), Ok tt).

(** [self.bound_ports.len()]. *)
Definition ports_len p : Z := Z.of_nat (size (pg_bound_ports p)).

Definition set_bound_port_count (count : Z) : PM (XdpProgram E) unit := λ p,
  if negb (pg_bound_port_count_available p) then (p, Ok tt)
  else on_ebpf (_ <-! open_array "BOUND_PORT_COUNT" 4; array_set "BOUND_PORT_COUNT" 4 0 count) p.

Definition set_bound_port (port enabled : Z) : PM (XdpProgram E) unit :=
  on_ebpf (_ <-! open_array "BOUND_PORTS" 1; array_set "BOUND_PORTS" 1 port enabled).

Definition bind_port (port : Z) : PM (XdpProgram E) unit := λ p,
  if bool_decide (pg_config p ≠ BoundPorts) then (p, Err NotBoundPortsProgram)
  else if negb (pg_bound_ports_available p) then (p, Ok tt)
  else
    let refcount := default 0 (pg_bound_ports p !! port) in
    (_ <-! (if refcount =? 0 then
              _ <-! set_bound_port port 1;
              (λ p, match set_bound_port_count (u32 (ports_len p) + 1) p with
                    | (p, Ok _) => (p, Ok tt)
                    | (p, Err error) =>
                        (_ <-! on_ebpf (open_array "BOUND_PORTS" 1);
                         (λ p, let '(p, _) := on_ebpf (array_set "BOUND_PORTS" 1 port 0) p in (p, Err error))) p
                    end)
            else pm_ret tt);
     update_ports (<[port := refcount + 1]>)) p.

Definition unbind_port (port : Z) : PM (XdpProgram E) unit := λ p,
  if bool_decide (pg_config p ≠ BoundPorts) then (p, Err NotBoundPortsProgram)
  else if negb (pg_bound_ports_available p) then (p, Ok tt)
  else
    match pg_bound_ports p !! port with
    | None => (p, Ok tt)
    | Some refcount =>
        if 1 <? refcount then update_ports (<[port := refcount - 1]>) p
        else
          (_ <-! set_bound_port port 0;
           _ <-! update_ports (delete port);
           (λ p, set_bound_port_count (u32 (ports_len p)) p)) p
    end.

Definition register_socket (queue_id socket_fd : Z) : PM (XdpProgram E) unit := λ p,
  (_ <-! on_ebpf validate_xskmap;
   _ <-! on_ebpf (λ e, let '(e, r) := aya_xskmap_set e queue_id socket_fd in (e, map_err MapError r));
   (λ p, (with_queues p (pg_registered_queues p ∪ {[queue_id]}), Ok tt))) p.

(** [bpf_map_delete_elem]: a missing key is not an error. *)
Definition bpf_map_delete_elem (key : Z) : PM E unit := λ e,
  let '(e, r) := bpf_map_delete e key in
  match r with
  | Ok _ => (e, Ok tt)
  | Err errno => if errno =? ENOENT then (e, Ok tt) else (e, Err (OsError errno))
  end.

Definition unregister_socket (queue_id : Z) : PM (XdpProgram E) unit := λ p,
  (_ <-! on_ebpf validate_xskmap;
   on_ebpf (bpf_map_delete_elem queue_id)) (with_queues p (pg_registered_queues p ∖ {[queue_id]})).

(** ** The registry of attached programs

    [PROGRAMS], a map from interface to a shared program; the heap holds each
    [Arc]'s strong count and program. Every access runs under the registry's
    mutex. *)
Record Registry := mkRegistry {
  rg_map : gmap Z Z;
  rg_heap : gmap Z (Z * XdpProgram E);
}.

Definition arc_clone (g : Registry) (id : Z) : Registry :=
  match rg_heap g !! id with
  | Some (n, p) => mkRegistry (rg_map g) (<[id := (n + 1, p)]> (rg_heap g))
  | None => g
  end.
(** Dropping the last reference drops the program, which detaches it. *)
Definition arc_drop (g : Registry) (id : Z) : Registry :=
  match rg_heap g !! id with
  | Some (n, p) =>
      mkRegistry (rg_map g) (if n =? 1 then delete id (rg_heap g) else <[id := (n - 1, p)]> (rg_heap g))
  | None => g
  end.

(** A fresh allocation. *)
Definition fresh_id (g : Registry) : Z := fresh (dom (rg_heap g)).

(** [get_or_load_with_config]; the object's bytes enter by their fingerprint
    and by what [Ebpf::load] makes of them. *)
Definition get_or_load_with_config (g : Registry) (if_index : Z) (mode : AttachMode) (config : XdpProgramConfig)
    (loaded : result E string) (new_hash : Z) : Registry * result Z ProgramError :=
  match config_validate config with
  | Err e => (g, Err e)
  | Ok config =>
      match rg_map g !! if_index ≫= λ id, (λ np, (id, np.2)) <$> rg_heap g !! id with
      | Some (id, existing) =>
          if negb (pg_hash existing =? new_hash) || bool_decide (pg_mode existing ≠ mode)
             || bool_decide (pg_config existing ≠ config)
          then (g, Err ProgramMismatch)
          else (arc_clone g id, Ok id)
      | None =>
          match load_and_attach if_index mode config loaded new_hash with
          | Err e => (g, Err e)
          | Ok program =>
              let id := fresh_id g in
              (arc_clone (mkRegistry (<[if_index := id]> (rg_map g)) (<[id := (1, program)]> (rg_heap g))) id, Ok id)
          end
      end
  end.

Definition strong_count (g : Registry) (id : Z) : Z := default 0 (fst <$> rg_heap g !! id).

(** [release]: when only the caller and the registry hold the program, the
    registry's reference goes first, then the caller's. *)
Definition release (g : Registry) (if_index id : Z) : Registry :=
  let g :=
    if strong_count g id =? 2 then
      match rg_map g !! if_index with
      | Some removed => arc_drop (mkRegistry (delete if_index (rg_map g)) (rg_heap g)) removed
      | None => g
      end
    else g in
  arc_drop g id.

(** [XdpProgramHandle]: a reference with its interface; its clone runs under
    the registry's mutex, its drop releases. *)
Record XdpProgramHandle := mkHandle {
  ph_if_index : Z;
  ph_program : Z;
}.
Definition load_with_config (g : Registry) (if_index : Z) (mode : AttachMode) (config : XdpProgramConfig)
    (loaded : result E string) (new_hash : Z) : Registry * result XdpProgramHandle ProgramError :=
  let '(g, r) := get_or_load_with_config g if_index mode config loaded new_hash in
  (g, program <-? r; Ok (mkHandle if_index program)).
Definition handle_clone (g : Registry) (h : XdpProgramHandle) : Registry * XdpProgramHandle :=
  (arc_clone g (ph_program h), mkHandle (ph_if_index h) (ph_program h)).
Definition handle_drop (g : Registry) (h : XdpProgramHandle) : Registry :=
  release g (ph_if_index h) (ph_program h).
End Programs.
Arguments Registry : clear implicits.
