(* ===== verification/ProgramProofs.v ===== *)
(** * Lemmas on program loading and port bindings

    The invariant that ties the userspace reference counts to the maps the
    in-kernel filter reads, and the reference counts of the registry. *)
From stdpp Require Import strings.
From S2P Require Import Prelude Core Wire Filter FilterProofs Program.
Open Scope Z_scope.

Section Maps.
Context {E : Type} `{AyaLaws E}.

(** What the object holds for the bound-ports program. *)
Definition maps_are (e : E) (ports : list Z) (count : Z) (xsk : gmap Z Z) : Prop :=
  aya_array e "BOUND_PORTS" 1 = Some (Ok ports) ∧ aya_array e "BOUND_PORT_COUNT" 4 = Some (Ok [count]) ∧
  aya_xskmap e = Some (Ok xsk).

Lemma set_port_cases e ports count xsk port v e' r : maps_are e ports count xsk →
  (_ <-! open_array "BOUND_PORTS" 1; array_set "BOUND_PORTS" 1 port v) e = (e', r) →
  match r with
  | Ok _ => maps_are e' (<[Z.to_nat port := v]> ports) count xsk
  | Err _ => maps_are e' ports count xsk
  end.
Proof.
  intros (Hp & Hc & Hx). unfold pm_bind, open_array, array_set. rewrite Hp. cbn [map_err].
  pose proof (array_set_other e "BOUND_PORTS" 1 port v "BOUND_PORT_COUNT" 4 ltac:(done)) as Ho.
  pose proof (array_set_xskmap e "BOUND_PORTS" 1 port v) as Hxs.
  destruct (aya_array_set e "BOUND_PORTS" 1 port v) as [e1 [[]|m]] eqn:Es; cbn in *; intros [= <- <-].
  - destruct (array_set_ok _ _ _ _ _ _ _ Es Hp) as [_ Hp']. split_and!; congruence.
  - pose proof (array_set_err _ _ _ _ _ _ _ Es) as Hr. rewrite <- (Hr "BOUND_PORTS" 1) in Hp. split_and!; congruence.
Qed.

Lemma set_count_cases e ports count xsk v e' r : maps_are e ports count xsk →
  (_ <-! open_array "BOUND_PORT_COUNT" 4; array_set "BOUND_PORT_COUNT" 4 0 v) e = (e', r) →
  match r with
  | Ok _ => maps_are e' ports v xsk
  | Err _ => maps_are e' ports count xsk
  end.
Proof.
  intros (Hp & Hc & Hx). unfold pm_bind, open_array, array_set. rewrite Hc. cbn [map_err].
  pose proof (array_set_other e "BOUND_PORT_COUNT" 4 0 v "BOUND_PORTS" 1 ltac:(done)) as Ho.
  pose proof (array_set_xskmap e "BOUND_PORT_COUNT" 4 0 v) as Hxs.
  destruct (aya_array_set e "BOUND_PORT_COUNT" 4 0 v) as [e1 [[]|m]] eqn:Es; cbn in *; intros [= <- <-].
  - destruct (array_set_ok _ _ _ _ _ _ _ Es Hc) as [_ Hc']. change (<[Z.to_nat 0 := v]> [count]) with [v] in Hc'. split_and!; congruence.
  - pose proof (array_set_err _ _ _ _ _ _ _ Es) as Hr. rewrite <- (Hr "BOUND_PORT_COUNT" 4) in Hc. split_and!; congruence.
Qed.

Lemma set_xsk_cases e ports count xsk q fd e' r : maps_are e ports count xsk →
  aya_xskmap_set e q fd = (e', r) →
  match r with
  | Ok _ => maps_are e' ports count (<[q := fd]> xsk)
  | Err _ => maps_are e' ports count xsk
  end.
Proof.
  intros (Hp & Hc & Hx) Es. pose proof (xskmap_set_array e q fd) as Ha. rewrite Es in Ha. cbn in Ha.
  destruct r as [[]|m].
  - pose proof (xskmap_set_ok _ _ _ _ _ Es Hx). split_and!; [by rewrite Ha|by rewrite Ha|done].
  - pose proof (xskmap_set_err _ _ _ _ _ Es). split_and!; [by rewrite Ha|by rewrite Ha|congruence].
Qed.

Lemma delete_xsk_cases e ports count xsk q e' r : maps_are e ports count xsk →
  bpf_map_delete_elem q e = (e', r) →
  match r with
  | Ok _ => maps_are e' ports count (delete q xsk)
  | Err _ => maps_are e' ports count xsk
  end.
Proof.
  intros (Hp & Hc & Hx). unfold bpf_map_delete_elem. pose proof (delete_array e q) as Ha.
  destruct (bpf_map_delete e q) as [e1 [[]|errno]] eqn:Es; cbn in Ha.
  - intros [= <- <-]. pose proof (delete_ok _ _ _ _ Es Hx). split_and!; [by rewrite Ha|by rewrite Ha|done].
  - destruct (Z.eqb_spec errno ENOENT) as [->|]; intros [= <- <-].
    + pose proof (delete_missing _ _ _ _ Es Hx) as Hm. rewrite delete_id by done.
      pose proof (delete_err _ _ _ _ Es). split_and!; [by rewrite Ha|by rewrite Ha|congruence].
    + pose proof (delete_err _ _ _ _ Es). split_and!; [by rewrite Ha|by rewrite Ha|congruence].
Qed.

Lemma open_xskmap_ok e ports count xsk : maps_are e ports count xsk → validate_xskmap e = (e, Ok tt).
Proof. intros (_ & _ & Hx). unfold validate_xskmap. by rewrite Hx. Qed.
End Maps.

(** ** Port bindings *)
Inductive PortOp :=
  | Bind (port : Z) | Unbind (port : Z)
  | RegisterQueue (queue fd : Z) | UnregisterQueue (queue : Z).

Definition op_ok (op : PortOp) : Prop :=
  match op with Bind port | Unbind port => fits 16 port | _ => True end.

(** What the users of one port, and of one queue, asked for. *)
Definition users_step (port : Z) (n : Z) (op : PortOp) : Z :=
  match op with
  | Bind q => if q =? port then n + 1 else n
  | Unbind q => if q =? port then Z.max 0 (n - 1) else n
  | _ => n
  end.
Definition users (port : Z) (ops : list PortOp) : Z := foldl (users_step port) 0 ops.

Definition queue_step (queue : Z) (b : bool) (op : PortOp) : bool :=
  match op with
  | RegisterQueue q _ => if q =? queue then true else b
  | UnregisterQueue q => if q =? queue then false else b
  | _ => b
  end.
Definition queue_open (queue : Z) (ops : list PortOp) : bool := foldl (queue_step queue) false ops.

Section Bindings.
Context {E : Type} `{AyaLaws E}.

Definition run_op (op : PortOp) : PM (XdpProgram E) unit :=
  match op with
  | Bind port => bind_port port
  | Unbind port => unbind_port port
  | RegisterQueue queue fd => register_socket queue fd
  | UnregisterQueue queue => unregister_socket queue
  end.

Fixpoint run_ops (ops : list PortOp) (p : XdpProgram E) : XdpProgram E * list (result unit ProgramError) :=
  match ops with
  | [] => (p, [])
  | op :: ops => let '(p, r) := run_op op p in let '(p, rs) := run_ops ops p in (p, r :: rs)
  end.

(** Bound ports are enabled and the gate is open; an enabled port is bound or
    belongs to a binding that failed. *)
Record bindings_ok (failed : gset Z) (p : XdpProgram E) (ports : list Z) (count : Z) (xsk : gmap Z Z) : Prop := mkBindings {
  bk_config : pg_config p = BoundPorts;
  bk_ports_available : pg_bound_ports_available p = true;
  bk_count_available : pg_bound_port_count_available p = true;
  bk_maps : maps_are (pg_ebpf p) ports count xsk;
  bk_len : len ports = BOUND_PORTS_LEN;
  bk_bound k r : pg_bound_ports p !! k = Some r → 1 ≤ r ∧ fits 16 k ∧ at_ ports k ≠ 0;
  bk_gate : pg_bound_ports p ≠ ∅ → count ≠ 0;
  bk_enabled k : fits 16 k → at_ ports k ≠ 0 → is_Some (pg_bound_ports p !! k) ∨ k ∈ failed;
  bk_queues : pg_registered_queues p ⊆ dom xsk;
}.

Lemma at_insert (l : list Z) i j v : 0 ≤ i < len l → 0 ≤ j →
  at_ (<[Z.to_nat i := v]> l) j = if i =? j then v else at_ l j.
Proof.
  intros Hi Hj. unfold at_, nthZ, len in *. destruct (Z.ltb_spec j 0); [lia|].
  destruct (Z.eqb_spec i j) as [->|]; [by rewrite list_lookup_insert_eq by lia|].
  by rewrite list_lookup_insert_ne by lia.
Qed.

Lemma at_negative l k : k < 0 → at_ l k = 0.
Proof. intros. unfold at_, nthZ. by destruct (Z.ltb_spec k 0); [|lia]. Qed.

Lemma ports_len_u32 failed p ports count xsk : bindings_ok failed p ports count xsk → 0 ≤ ports_len p ≤ 65536.
Proof.
  intros Hb. unfold ports_len. rewrite <- size_dom.
  assert (Hsub : dom (pg_bound_ports p) ⊆ list_to_set (seqZ 0 65536)).
  { intros k (r & Hk)%elem_of_dom. apply (bk_bound _ _ _ _ _ Hb) in Hk as (_ & Hf & _).
    apply elem_of_list_to_set, elem_of_seqZ. unfold fits in Hf. lia. }
  apply subseteq_size in Hsub. rewrite size_list_to_set in Hsub by apply NoDup_seqZ.
  rewrite length_seqZ in Hsub. lia.
Qed.

Lemma set_bound_port_ok p ports count xsk port v : maps_are (pg_ebpf p) ports count xsk →
  ∃ e r, set_bound_port port v p = (with_ebpf p e, r) ∧
    maps_are e (match r with Ok _ => <[Z.to_nat port := v]> ports | Err _ => ports end) count xsk.
Proof.
  intros Hm. unfold set_bound_port, on_ebpf.
  destruct ((_ <-! open_array "BOUND_PORTS" 1; array_set "BOUND_PORTS" 1 port v) (pg_ebpf p)) as [e r] eqn:Hr.
  pose proof (set_port_cases _ _ _ _ _ _ _ _ Hm Hr). exists e, r. split; [done|]. by destruct r.
Qed.

Lemma set_bound_port_count_ok p ports count xsk n : pg_bound_port_count_available p = true →
  maps_are (pg_ebpf p) ports count xsk →
  ∃ e r, set_bound_port_count n p = (with_ebpf p e, r) ∧
    maps_are e ports (match r with Ok _ => n | Err _ => count end) xsk.
Proof.
  intros Ha Hm. unfold set_bound_port_count. rewrite Ha. cbn [negb]. unfold on_ebpf.
  destruct ((_ <-! open_array "BOUND_PORT_COUNT" 4; array_set "BOUND_PORT_COUNT" 4 0 n) (pg_ebpf p)) as [e r] eqn:Hr.
  pose proof (set_count_cases _ _ _ _ _ _ _ Hm Hr). exists e, r. split; [done|]. by destruct r.
Qed.

(** The state after an operation on [port]: its reference count and flag. *)
Lemma bindings_update failed failed' p ports count xsk port n v e count' bound' :
  bindings_ok failed p ports count xsk → fits 16 port → failed ⊆ failed' →
  maps_are e (<[Z.to_nat port := v]> ports) count' xsk →
  (∀ k, k ≠ port → bound' !! k = pg_bound_ports p !! k) → bound' !! port = n →
  match n with Some r => 1 ≤ r ∧ v ≠ 0 | None => v = 0 ∨ port ∈ failed' end →
  (bound' ≠ ∅ → count' ≠ 0) →
  bindings_ok failed' (with_ports (with_ebpf p e) bound') (<[Z.to_nat port := v]> ports) count' xsk.
Proof.
  intros [] Hport Hf Hm Hother Hn Hv Hg. unfold fits, BOUND_PORTS_LEN in *.
  constructor; cbn [pg_config pg_bound_ports_available pg_bound_port_count_available pg_ebpf pg_bound_ports
    pg_registered_queues with_ports with_ebpf]; try done.
  - unfold len in *. by rewrite length_insert.
  - intros k r Hk. destruct (decide (k = port)) as [->|Hne].
    + rewrite Hn in Hk. rewrite Hk in Hv. rewrite at_insert, Z.eqb_refl by lia. destruct Hv. split_and!; unfold fits; lia || done.
    + rewrite Hother in Hk by done. destruct (bk_bound0 k r Hk) as (? & ? & ?). unfold fits in *.
      rewrite at_insert by lia. by destruct (Z.eqb_spec port k); [congruence|].
  - intros k Hk. rewrite at_insert by (unfold fits in Hk; lia). destruct (Z.eqb_spec port k) as [<-|Hne].
    + rewrite Hn. intros ?. destruct n; [left; by eexists|]. destruct Hv; [done|by right].
    + rewrite Hother by done. intros Ha. destruct (bk_enabled0 k Hk Ha); [by left|right; set_solver].
Qed.

Lemma bindings_same_flag failed p ports count xsk port :
  bindings_ok failed p ports count xsk → fits 16 port → ports = <[Z.to_nat port := at_ ports port]> ports.
Proof.
  intros Hb Hport. symmetry. apply list_insert_id. pose proof (bk_len _ _ _ _ _ Hb) as Hl. unfold fits, BOUND_PORTS_LEN in *.
  unfold at_, nthZ. destruct (Z.ltb_spec port 0); [lia|].
  destruct (lookup_lt_is_Some_2 ports (Z.to_nat port)) as [x Hx]; [unfold len in Hl; lia|]. by rewrite Hx.
Qed.

Lemma bind_port_ok failed p ports count xsk port p' r :
  bindings_ok failed p ports count xsk → fits 16 port → bind_port port p = (p', r) →
  ∃ ports' count', bindings_ok (match r with Ok _ => failed | Err _ => failed ∪ {[port]} end) p' ports' count' xsk ∧
    (r = Ok tt → ∀ k, default 0 (pg_bound_ports p' !! k) = users_step k (default 0 (pg_bound_ports p !! k)) (Bind port)).
Proof.
  intros Hb Hport. pose proof (ports_len_u32 _ _ _ _ _ Hb) as Hlen. unfold bind_port.
  rewrite bool_decide_false by (rewrite (bk_config _ _ _ _ _ Hb); tauto).
  rewrite (bk_ports_available _ _ _ _ _ Hb). cbn [negb].
  assert (Husers : ∀ (m : gmap Z Z) n, default 0 (m !! port) = n → ∀ k,
    default 0 (<[port := n + 1]> m !! k) = users_step k (default 0 (m !! k)) (Bind port)).
  { intros m n Hn k. cbn [users_step]. destruct (Z.eqb_spec port k) as [->|]; [by rewrite lookup_insert_eq, Hn|by rewrite lookup_insert_ne]. }
  destruct (pg_bound_ports p !! port) as [n|] eqn:Hn; cbn [from_option]; unfold id.
  - destruct (bk_bound _ _ _ _ _ Hb port n Hn) as (Hn1 & _ & Hflag). destruct (Z.eqb_spec n 0); [lia|].
    unfold pm_bind, pm_ret, update_ports. intros [= <- <-]. exists ports, count. split; [|intros _; apply Husers; by rewrite Hn].
    pose proof (bindings_same_flag _ _ _ _ _ _ Hb Hport) as Hsame. rewrite Hsame.
    apply (bindings_update failed failed p ports count xsk port (Some (n + 1)) _ (pg_ebpf p)); try done.
    + rewrite <- Hsame. apply Hb.
    + intros k Hk. by rewrite lookup_insert_ne.
    + by rewrite lookup_insert_eq.
    + split; [lia|done].
    + intros _. apply Hb. intros He. by rewrite He in Hn.
  - cbn [Z.eqb]. unfold pm_bind. destruct (set_bound_port_ok p ports count xsk port 1 (bk_maps _ _ _ _ _ Hb)) as (e1 & [[]|x1] & -> & Hm1).
    2:{ intros [= <- <-]. exists ports, count. split; [|done].
        rewrite (bindings_same_flag _ _ _ _ _ _ Hb Hport).
        apply (bindings_update failed _ p ports count xsk port None); try done.
        - set_solver.
        - by rewrite <- (bindings_same_flag _ _ _ _ _ _ Hb Hport).
        - right. set_solver.
        - apply Hb. }
    set (p1 := with_ebpf p e1). change (ports_len p1) with (ports_len p).
    destruct (set_bound_port_count_ok p1 _ count xsk (u32 (ports_len p) + 1) (bk_count_available _ _ _ _ _ Hb) Hm1) as (e2 & [[]|x2] & -> & Hm2).
    + intros [= <- <-]. exists (<[Z.to_nat port := 1]> ports), (u32 (ports_len p) + 1). split; [|intros _; by apply Husers; rewrite Hn].
      apply (bindings_update failed failed p ports count xsk port (Some 1)); try done.
      * intros k Hk. by rewrite lookup_insert_ne.
      * by rewrite lookup_insert_eq.
      * intros _. pose proof (wrap_fits 32 (ports_len p)). unfold fits in *. lia.
    + destruct Hm2 as (Hp2 & Hc2 & Hx2). unfold on_ebpf, open_array. cbn [pg_ebpf with_ebpf]. rewrite Hp2. cbn [map_err].
      unfold array_set. destruct (aya_array_set e2 "BOUND_PORTS" 1 port 0) as [e3 r3] eqn:Hset.
      cbn [pg_ebpf with_ebpf]. rewrite Hset. cbn [map_err]. intros [= <- <-]. pose proof (set_port_cases e2 (<[Z.to_nat port := 1]> ports) count xsk port 0 e3 (map_err MapError r3) ltac:(done)) as Hm3.
      unfold pm_bind, open_array, array_set in Hm3. rewrite Hp2, Hset in Hm3. cbn [map_err] in Hm3. specialize (Hm3 eq_refl).
      assert (∃ v, maps_are e3 (<[Z.to_nat port := v]> ports) count xsk) as [v Hm].
      { destruct r3; cbn in Hm3; [exists 0; by rewrite list_insert_insert_eq in Hm3|by exists 1]. }
      exists (<[Z.to_nat port := v]> ports), count. split; [|done].
      apply (bindings_update failed _ p ports count xsk port None); try done; [set_solver|right; set_solver|apply Hb].
Qed.

Lemma unbind_port_ok failed p ports count xsk port p' r :
  bindings_ok failed p ports count xsk → fits 16 port → unbind_port port p = (p', r) →
  ∃ ports' count', bindings_ok failed p' ports' count' xsk ∧
    (r = Ok tt → ∀ k, default 0 (pg_bound_ports p' !! k) = users_step k (default 0 (pg_bound_ports p !! k)) (Unbind port)).
Proof.
  intros Hb Hport. pose proof (ports_len_u32 _ _ _ _ _ Hb) as Hlen. unfold unbind_port.
  rewrite bool_decide_false by (rewrite (bk_config _ _ _ _ _ Hb); tauto).
  rewrite (bk_ports_available _ _ _ _ _ Hb). cbn [negb].
  destruct (pg_bound_ports p !! port) as [n|] eqn:Hn.
  2:{ intros [= <- <-]. exists ports, count. split; [done|]. intros _ k. cbn [users_step].
      destruct (Z.eqb_spec port k) as [->|]; [by rewrite Hn|done]. }
  destruct (bk_bound _ _ _ _ _ Hb port n Hn) as (Hn1 & _ & Hflag).
  assert (Hne : pg_bound_ports p ≠ ∅) by (intros He; by rewrite He in Hn).
  destruct (Z.ltb_spec 1 n).
  - unfold update_ports. intros [= <- <-]. exists ports, count. split.
    + pose proof (bindings_same_flag _ _ _ _ _ _ Hb Hport) as Hsame. rewrite Hsame.
      apply (bindings_update failed failed p ports count xsk port (Some (n - 1)) _ (pg_ebpf p)); try done.
      * rewrite <- Hsame. apply Hb.
      * intros k Hk. by rewrite lookup_insert_ne.
      * by rewrite lookup_insert_eq.
      * split; [lia|done].
      * intros _. by apply Hb.
    + intros _ k. cbn [users_step pg_bound_ports with_ports]. destruct (Z.eqb_spec port k) as [->|].
      * rewrite lookup_insert_eq, Hn. cbn. unfold id. lia.
      * by rewrite lookup_insert_ne.
  - unfold pm_bind. destruct (set_bound_port_ok p ports count xsk port 0 (bk_maps _ _ _ _ _ Hb)) as (e1 & [[]|x1] & -> & Hm1).
    2:{ intros [= <- <-]. exists ports, count. split; [|done]. destruct Hb. by constructor. }
    unfold update_ports. set (p1 := with_ports (with_ebpf p e1) _).
    destruct (set_bound_port_count_ok p1 (<[Z.to_nat port := 0]> ports) count xsk (u32 (ports_len p1))
                (bk_count_available _ _ _ _ _ Hb) Hm1) as (e2 & r2 & -> & Hm2).
    intros [= <- <-]. eexists (<[Z.to_nat port := 0]> ports), _. split.
    + apply (bindings_update failed failed p ports count xsk port None 0 e2 _ (delete port (pg_bound_ports p)) Hb Hport); try done.
      * intros k Hk. by rewrite lookup_delete_ne.
      * by rewrite lookup_delete_eq.
      * by left.
      * intros Hd. destruct r2; [|by apply Hb]. unfold ports_len, p1. cbn [pg_bound_ports with_ports with_ebpf].
        assert (size (delete port (pg_bound_ports p)) ≠ 0%nat) by (by apply map_size_non_empty_iff).
        unfold ports_len in Hlen. pose proof (map_size_delete_Some port (pg_bound_ports p) (ex_intro _ n Hn)) as Hsz.
        rewrite wrap_small; unfold fits; lia.
    + intros _ k. cbn [users_step pg_bound_ports with_ports with_ebpf p1]. destruct (Z.eqb_spec port k) as [->|].
      * rewrite lookup_delete_eq, Hn. cbn. unfold id. lia.
      * by rewrite lookup_delete_ne.
Qed.

Lemma bindings_xsk failed p ports count xsk e xsk' queues :
  bindings_ok failed p ports count xsk → maps_are e ports count xsk' → queues ⊆ dom xsk' →
  bindings_ok failed (with_queues (with_ebpf p e) queues) ports count xsk'.
Proof. intros [] Hm Hq. by constructor. Qed.

Lemma register_socket_ok failed p ports count xsk q fd p' r :
  bindings_ok failed p ports count xsk → register_socket q fd p = (p', r) →
  ∃ xsk', bindings_ok failed p' ports count xsk' ∧ pg_bound_ports p' = pg_bound_ports p ∧
    (r = Ok tt → xsk' = <[q := fd]> xsk).
Proof.
  intros Hb. unfold register_socket, pm_bind, on_ebpf. rewrite (open_xskmap_ok _ _ _ _ (bk_maps _ _ _ _ _ Hb)).
  cbn [pg_ebpf with_ebpf]. destruct (aya_xskmap_set (pg_ebpf p) q fd) as [e [[]|x]] eqn:Hs; cbn [map_err]; intros [= <- <-];
    pose proof (set_xsk_cases _ _ _ _ _ _ _ _ (bk_maps _ _ _ _ _ Hb) Hs) as Hm; cbn in Hm; pose proof (bk_queues _ _ _ _ _ Hb).
  - exists (<[q := fd]> xsk). split_and!; [|done|done]. apply (bindings_xsk _ p _ _ xsk); [done|done|]. cbn. set_solver.
  - exists xsk. split_and!; [|done|done]. by apply (bindings_xsk failed p ports count xsk e xsk (pg_registered_queues p)).
Qed.

Lemma unregister_socket_ok failed p ports count xsk q p' r :
  bindings_ok failed p ports count xsk → unregister_socket q p = (p', r) →
  ∃ xsk', bindings_ok failed p' ports count xsk' ∧ pg_bound_ports p' = pg_bound_ports p ∧
    (r = Ok tt → xsk' = delete q xsk).
Proof.
  intros Hb. unfold unregister_socket, pm_bind, on_ebpf. cbn [pg_ebpf with_ebpf with_queues].
  rewrite (open_xskmap_ok _ _ _ _ (bk_maps _ _ _ _ _ Hb)). cbn [pg_ebpf with_ebpf with_queues].
  destruct (bpf_map_delete_elem q (pg_ebpf p)) as [e [[]|x]] eqn:Hs; intros [= <- <-];
    pose proof (delete_xsk_cases _ _ _ _ _ _ _ (bk_maps _ _ _ _ _ Hb) Hs) as Hm; cbn in Hm; pose proof (bk_queues _ _ _ _ _ Hb).
  - exists (delete q xsk). split_and!; [|done|done]. apply (bindings_xsk _ p _ _ xsk); [done|done|]. cbn. set_solver.
  - exists xsk. split_and!; [|done|done]. apply (bindings_xsk _ p _ _ xsk); [done|done|]. cbn. set_solver.
Qed.

(** The ports whose binding was refused. *)
Definition failed_binds (ops : list PortOp) (rs : list (result unit ProgramError)) : gset Z :=
  list_to_set (omap (λ x, match x with (Bind port, Err _) => Some port | _ => None end) (zip ops rs)).

Lemma failed_binds_ok ops rs : Forall (λ r, r = Ok tt) rs → failed_binds ops rs = ∅.
Proof.
  intros Hrs. unfold failed_binds. revert ops. induction Hrs as [|r rs -> _ IH]; intros [|[] ops]; try done; cbn; apply IH.
Qed.

Lemma run_ops_ok ops : ∀ failed p ports count xsk p' rs,
  bindings_ok failed p ports count xsk → Forall op_ok ops → run_ops ops p = (p', rs) →
  ∃ ports' count' xsk', bindings_ok (failed ∪ failed_binds ops rs) p' ports' count' xsk' ∧
    (Forall (λ r, r = Ok tt) rs →
       (∀ k, default 0 (pg_bound_ports p' !! k) = foldl (users_step k) (default 0 (pg_bound_ports p !! k)) ops) ∧
       (∀ q, bool_decide (is_Some (xsk' !! q)) = foldl (queue_step q) (bool_decide (is_Some (xsk !! q))) ops)).
Proof.
  induction ops as [|op ops IH]; intros failed p ports count xsk p' rs Hb Hops; cbn [run_ops].
  { intros [= <- <-]. exists ports, count, xsk. split; [|done]. unfold failed_binds. cbn. by rewrite (right_id_L ∅ (∪)). }
  apply Forall_cons in Hops as [Hop Hops]. destruct (run_op op p) as [p1 r1] eqn:H1. destruct (run_ops ops p1) as [p2 rs2] eqn:H2.
  intros [= <- <-].
  assert (∃ ports1 count1 xsk1, bindings_ok (failed ∪ failed_binds [op] [r1]) p1 ports1 count1 xsk1 ∧
    (r1 = Ok tt → (∀ k, default 0 (pg_bound_ports p1 !! k) = users_step k (default 0 (pg_bound_ports p !! k)) op) ∧
       (∀ q, bool_decide (is_Some (xsk1 !! q)) = queue_step q (bool_decide (is_Some (xsk !! q))) op)))
    as (ports1 & count1 & xsk1 & Hb1 & Hs1).
  { unfold failed_binds. destruct op as [port|port|q fd|q]; cbn [run_op] in H1; cbn [zip zip_with omap list_omap list_to_set].
    - destruct (bind_port_ok _ _ _ _ _ _ _ _ Hb Hop H1) as (ports1 & count1 & Hb1 & Hu). exists ports1, count1, xsk.
      split; [|naive_solver]. destruct r1; cbn; [by rewrite (right_id_L ∅ (∪))|].
      by replace (failed ∪ ({[port]} ∪ ∅)) with (failed ∪ {[port]}) by set_solver.
    - destruct (unbind_port_ok _ _ _ _ _ _ _ _ Hb Hop H1) as (ports1 & count1 & Hb1 & Hu). exists ports1, count1, xsk.
      split; [|naive_solver]. cbn. by rewrite (right_id_L ∅ (∪)).
    - destruct (register_socket_ok _ _ _ _ _ _ _ _ _ Hb H1) as (xsk1 & Hb1 & Hp1 & Hx). exists ports, count, xsk1.
      split; [cbn; by rewrite (right_id_L ∅ (∪))|]. intros Hr. split; [intros k; by rewrite Hp1|].
      intros k. rewrite (Hx Hr). cbn [queue_step]. destruct (Z.eqb_spec q k) as [->|].
      + rewrite lookup_insert_eq. by apply bool_decide_true.
      + by rewrite lookup_insert_ne.
    - destruct (unregister_socket_ok _ _ _ _ _ _ _ _ Hb H1) as (xsk1 & Hb1 & Hp1 & Hx). exists ports, count, xsk1.
      split; [cbn; by rewrite (right_id_L ∅ (∪))|]. intros Hr. split; [intros k; by rewrite Hp1|].
      intros k. rewrite (Hx Hr). cbn [queue_step]. destruct (Z.eqb_spec q k) as [->|].
      + rewrite lookup_delete_eq. by apply bool_decide_false; intros [].
      + by rewrite lookup_delete_ne. }
  destruct (IH _ _ _ _ _ _ _ Hb1 Hops H2) as (ports2 & count2 & xsk2 & Hb2 & Hs2). exists ports2, count2, xsk2. split.
  - replace (failed ∪ failed_binds (op :: ops) (r1 :: rs2)) with (failed ∪ failed_binds [op] [r1] ∪ failed_binds ops rs2); [done|].
    rewrite <- (assoc_L (∪)). f_equal. unfold failed_binds. rewrite <- list_to_set_app_L. f_equal.
    destruct op, r1; done.
  - intros [Hr1 Hrs]%Forall_cons. destruct (Hs1 Hr1) as [Hu1 Hq1]. destruct (Hs2 Hrs) as [Hu2 Hq2].
    split; intros k; cbn [foldl]; [by rewrite Hu2, Hu1|by rewrite Hq2, Hq1].
Qed.
End Bindings.

(** ** The registry *)
Section Registry.
Context {E : Type} `{Aya E}.
Implicit Types g : Registry E.

(** One step of the process's threads, each under the registry's mutex. *)
Inductive rstep : Registry E * list XdpProgramHandle → Registry E * list XdpProgramHandle → Prop :=
  | r_load g hs if_index mode config loaded hash g' r :
      load_with_config g if_index mode config loaded hash = (g', r) →
      rstep (g, hs) (g', match r with Ok h => h :: hs | Err _ => hs end)
  | r_clone g hs h :
      h ∈ hs → rstep (g, hs) ((handle_clone g h).1, (handle_clone g h).2 :: hs)
  | r_drop g l1 h l2 :
      rstep (g, l1 ++ h :: l2) (handle_drop g h, l1 ++ l2).

Definition holders (id : Z) (hs : list XdpProgramHandle) : Z := len (filter (λ h, ph_program h = id) hs).

Lemma holders_cons id h hs : holders id (h :: hs) = (if decide (ph_program h = id) then 1 else 0) + holders id hs.
Proof. unfold holders. rewrite filter_cons. repeat case_decide; try done; rewrite ?len_cons; lia. Qed.
Lemma holders_middle id l1 h l2 :
  holders id (l1 ++ h :: l2) = (if decide (ph_program h = id) then 1 else 0) + holders id (l1 ++ l2).
Proof. unfold holders. rewrite !filter_app, filter_cons, !len_app. repeat case_decide; try done; rewrite ?len_cons; lia. Qed.
Lemma holders_nonneg id hs : 0 ≤ holders id hs.
Proof. apply len_nonneg. Qed.
Lemma holders_pos id hs : 0 < holders id hs → ∃ h, h ∈ hs ∧ ph_program h = id.
Proof.
  unfold holders. destruct (filter _ hs) as [|h l] eqn:Hf; [unfold len; cbn; lia|]. intros _. exists h.
  assert (Hin : h ∈ filter (λ h, ph_program h = id) hs) by (rewrite Hf; left). by apply list_elem_of_filter in Hin as [? ?].
Qed.
Lemma holders_elem h hs : h ∈ hs → 0 < holders (ph_program h) hs.
Proof.
  intros (l1 & l2 & ->)%list_elem_of_split. rewrite holders_middle. pose proof (holders_nonneg (ph_program h) (l1 ++ l2)).
  destruct (decide _); [lia|done].
Qed.

(** The registry holds one reference to each program in use, each handle
    another, and a program in use is the one registered for its interface. *)
Record registry_ok g (hs : list XdpProgramHandle) : Prop := mkRegOk {
  ro_heap id n p : rg_heap g !! id = Some (n, p) →
    n = 1 + holders id hs ∧ 0 < holders id hs ∧ rg_map g !! pg_if_index p = Some id;
  ro_map i id : rg_map g !! i = Some id → ∃ n p, rg_heap g !! id = Some (n, p) ∧ pg_if_index p = i;
  ro_handles h : h ∈ hs → ∃ n p, rg_heap g !! ph_program h = Some (n, p) ∧ pg_if_index p = ph_if_index h;
}.

Lemma load_if_index i mode config loaded hash (p : XdpProgram E) :
  load_and_attach i mode config loaded hash = Ok p → pg_if_index p = i.
Proof.
  unfold load_and_attach. destruct (config_validate config) as [c|]; [|done]. cbn [result_bind].
  destruct (map_err LoadError loaded) as [e|]; [|done]. cbn [result_bind].
  destruct (pm_bind _ _ e) as [e' [maps|]]; [|done]. cbn [result_bind]. by intros [= <-].
Qed.

Lemma arc_clone_ok g hs id n p i : registry_ok g hs → rg_heap g !! id = Some (n, p) → pg_if_index p = i →
  registry_ok (arc_clone g id) (mkHandle i id :: hs).
Proof.
  intros [Hh Hm Hhs] Hid Hi. unfold arc_clone. rewrite Hid. constructor; cbn [rg_heap rg_map].
  - intros id' n' p' [[<- [= <- <-]]|[Hne Hid']]%lookup_insert_Some.
    + destruct (Hh id n p Hid) as (-> & ? & ?). rewrite holders_cons. cbn [ph_program].
      destruct (decide (id = id)); [split_and!; try lia; done|done].
    + destruct (Hh id' n' p' Hid') as (-> & ? & ?). rewrite holders_cons. cbn [ph_program].
      destruct (decide (id = id')); [done|]. split_and!; try lia; done.
  - intros i' id' Hi'. destruct (Hm i' id' Hi') as (n' & p' & Hid' & Hp'). destruct (decide (id' = id)) as [->|].
    + rewrite lookup_insert_eq. simplify_eq. eauto.
    + rewrite lookup_insert_ne by done. eauto.
  - intros h [->|Hin]%elem_of_cons; cbn [ph_program ph_if_index].
    + rewrite lookup_insert_eq. eauto.
    + destruct (Hhs h Hin) as (n' & p' & Hid' & Hp'). destruct (decide (ph_program h = id)) as [Heq|].
      * rewrite Heq, lookup_insert_eq. rewrite Heq, Hid in Hid'. simplify_eq. eauto.
      * rewrite lookup_insert_ne by done. eauto.
Qed.

Lemma load_ok g hs i mode config loaded hash g' r : registry_ok g hs →
  load_with_config g i mode config loaded hash = (g', r) →
  registry_ok g' (match r with Ok h => h :: hs | Err _ => hs end).
Proof.
  intros Hok. unfold load_with_config, get_or_load_with_config.
  destruct (config_validate config) as [c|]; [|by intros [= <- <-]].
  destruct (rg_map g !! i) as [id|] eqn:Hi.
  - destruct (ro_map _ _ Hok i id Hi) as (n & p & Hid & Hp). change (Some id ≫= ?f) with (f id). cbn beta. rewrite Hid. cbn [fmap option_fmap option_map snd].
    destruct (_ || _); intros [= <- <-]; cbn [result_bind]; [done|]. by apply (arc_clone_ok g hs id n p i).
  - change (None ≫= ?f) with (None : option (Z * XdpProgram E)). cbn iota.
    destruct (load_and_attach i mode c loaded hash) as [p|] eqn:Hl; intros [= <- <-]; cbn [result_bind]; [|done].
    set (id := fresh_id g). pose proof (load_if_index _ _ _ _ _ _ Hl) as Hp.
    assert (Hfresh : rg_heap g !! id = None) by (apply not_elem_of_dom, is_fresh).
    unfold arc_clone. cbn [rg_heap rg_map]. rewrite lookup_insert_eq, insert_insert_eq. destruct Hok as [Hh Hm Hhs].
    assert (Hnone : holders id hs = 0).
    { pose proof (holders_nonneg id hs). destruct (decide (0 < holders id hs)) as [Hpos|]; [|lia].
      apply holders_pos in Hpos as (h & Hin & <-). destruct (Hhs h Hin) as (? & ? & ? & _). congruence. }
    constructor; cbn [rg_heap rg_map].
    + intros id' n' p' [[<- [= <- <-]]|[Hne Hid']]%lookup_insert_Some; rewrite holders_cons; cbn [ph_program].
      * destruct (decide (id = id)); [|done]. rewrite Hp, lookup_insert_eq. split_and!; [lia|lia|done].
      * destruct (Hh id' n' p' Hid') as (-> & ? & Hmap). destruct (decide (id = id')); [done|].
        split_and!; [lia|lia|]. rewrite lookup_insert_ne; [done|]. intros Heq. rewrite <- Heq in Hmap. congruence.
    + intros i' id' [[<- <-]|[Hne Hi']]%lookup_insert_Some; [rewrite lookup_insert_eq; eauto|].
      destruct (Hm i' id' Hi') as (n' & p' & Hid' & Hp'). rewrite lookup_insert_ne by congruence. eauto.
    + intros h [->|Hin]%elem_of_cons; cbn [ph_program ph_if_index]; [rewrite lookup_insert_eq; eauto|].
      destruct (Hhs h Hin) as (n' & p' & Hid' & Hp'). rewrite lookup_insert_ne by congruence. eauto.
Qed.

Lemma drop_handle_ok g l1 h l2 : registry_ok g (l1 ++ h :: l2) → registry_ok (handle_drop g h) (l1 ++ l2).
Proof.
  intros [Hh Hm Hhs]. destruct (Hhs h) as (n & p & Hid & Hp); [set_solver|].
  destruct (Hh _ _ _ Hid) as (Hn & _ & Hmap). unfold handle_drop, release, strong_count. rewrite Hid. cbn [fmap option_fmap option_map fst from_option id].
  rewrite holders_middle in Hn. destruct (decide (ph_program h = ph_program h)); [|done].
  pose proof (holders_nonneg (ph_program h) (l1 ++ l2)). unfold Datatypes.id. rewrite <- Hp, Hmap.
  destruct (Z.eqb_spec n 2) as [->|Hn2].
  - unfold arc_drop at 2. cbn [rg_heap rg_map]. rewrite Hid. change (2 =? 1) with false. cbn iota. change (2 - 1) with 1.
    unfold arc_drop. cbn [rg_heap rg_map]. rewrite lookup_insert_eq. change (1 =? 1) with true. cbn iota.
    rewrite delete_insert_eq. constructor; cbn [rg_heap rg_map].
    + intros id' n' p' [Hne Hid']%lookup_delete_Some. destruct (Hh id' n' p' Hid') as (Hn' & Hpos & Hmap').
      rewrite holders_middle in Hn', Hpos. destruct (decide (ph_program h = id')); [done|].
      split_and!; [lia|lia|]. rewrite lookup_delete_ne; [done|]. congruence.
    + intros i' id' [Hne Hi']%lookup_delete_Some. destruct (Hm i' id' Hi') as (n' & p' & Hid' & Hp').
      exists n', p'. split; [|done]. rewrite lookup_delete_ne; [done|]. intros Heq. rewrite <- Heq in Hid'. congruence.
    + intros h' Hin. destruct (Hhs h') as (n' & p' & Hid' & Hp'); [set_solver|]. exists n', p'. split; [|done].
      rewrite lookup_delete_ne; [done|]. intros Heq. pose proof (holders_elem h' (l1 ++ l2) Hin). rewrite <- Heq in *. lia.
  - unfold arc_drop. rewrite Hid. destruct (Z.eqb_spec n 1); [lia|]. constructor; cbn [rg_heap rg_map].
    + intros id' n' p' [[<- [= <- <-]]|[Hne Hid']]%lookup_insert_Some; [split_and!; [lia|lia|done]|].
      destruct (Hh id' n' p' Hid') as (Hn' & Hpos & Hmap'). rewrite holders_middle in Hn', Hpos.
      destruct (decide (ph_program h = id')); [done|]. split_and!; [lia|lia|done].
    + intros i' id' Hi'. destruct (Hm i' id' Hi') as (n' & p' & Hid' & Hp'). destruct (decide (id' = ph_program h)) as [->|].
      * rewrite lookup_insert_eq. simplify_eq. eauto.
      * rewrite lookup_insert_ne by done. eauto.
    + intros h' Hin. destruct (Hhs h') as (n' & p' & Hid' & Hp'); [set_solver|]. destruct (decide (ph_program h' = ph_program h)) as [Heq|].
      * rewrite Heq, lookup_insert_eq. rewrite Heq, Hid in Hid'. simplify_eq. eauto.
      * rewrite lookup_insert_ne by done. eauto.
Qed.

Lemma rstep_ok s s' : rstep s s' → registry_ok s.1 s.2 → registry_ok s'.1 s'.2.
Proof.
  intros [g hs i mode config loaded hash g' r Hl|g hs h Hin|g l1 h l2] Hok; cbn [fst snd] in *.
  - by apply (load_ok g hs i mode config loaded hash).
  - destruct (ro_handles _ _ Hok h Hin) as (n & p & Hid & Hp). by apply (arc_clone_ok g hs (ph_program h) n p).
  - by apply drop_handle_ok.
Qed.

Lemma reach_ok s : rtc rstep (mkRegistry ∅ ∅, []) s → registry_ok s.1 s.2.
Proof.
  intros Hr. apply (rtc_ind_r (λ s, registry_ok s.1 s.2) (mkRegistry ∅ ∅, [])) in Hr; [done| |].
  - constructor; cbn; intros; by simplify_map_eq; set_solver.
  - intros s1 s2 _ Hs Hok. by apply (rstep_ok s1).
Qed.
End Registry.

(** ** Loading *)
Section Loading.
Context {E : Type} `{AyaLaws E}.

Lemma pm_ok_inv {S A B} (m : PM S A) (k : A → PM S B) s s' b :
  pm_bind m k s = (s', Ok b) → ∃ s1 a, m s = (s1, Ok a) ∧ k a s1 = (s', Ok b).
Proof. unfold pm_bind. destruct (m s) as [s1 [a|e]] eqn:Hm; [|done]. eauto. Qed.

(** Checks only look. *)
Lemma open_array_inv name w e e' l : open_array name w e = (e', Ok l) → e' = e ∧ aya_array e name w = Some (Ok l).
Proof. unfold open_array. destruct (aya_array e name w) as [[l'|m]|]; cbn; intros [= <- ?]; by simplify_eq. Qed.
Lemma check_len_inv name n l (e e' : E) u : check_len name n l e = (e', Ok u) → e' = e ∧ len l = n.
Proof. unfold check_len. destruct (Z.eqb_spec (len l) n); cbn; by intros [= <- ?]. Qed.
Lemma validate_xskmap_inv (e e' : E) u : validate_xskmap e = (e', Ok u) → e' = e.
Proof. unfold validate_xskmap. destruct (aya_xskmap e) as [[?|?]|]; by intros [= <- ?]. Qed.
Lemma validate_drop_counters_inv (e e' : E) u : validate_drop_counters e = (e', Ok u) → e' = e.
Proof.
  unfold validate_drop_counters. destruct (aya_array e "DROP_COUNTERS" 8) as [[l|?]|]; try by intros [= <- ?].
  by intros [-> _]%check_len_inv.
Qed.

(** What [load_and_attach] did when it succeeded: the filter's maps were
    prepared and checked, and nothing later touches them. *)
Lemma load_and_attach_inv i mode config (e0 : E) hash p : load_and_attach i mode config (Ok e0) hash = Ok p →
  config_validate config = Ok config ∧ pg_config p = config ∧ pg_bound_ports p = ∅ ∧ pg_registered_queues p = ∅ ∧
  ∃ e maps, match config with
            | BoundPorts => validate_bound_port_maps
            | PortRange start stop => _ <-! configure_bound_port_range start stop; pm_ret (mkBoundPortMaps false false)
            end e0 = (e, Ok maps) ∧
    pg_bound_ports_available p = ports_available maps ∧ pg_bound_port_count_available p = count_available maps ∧
    (∀ n w, aya_array (pg_ebpf p) n w = aya_array e n w) ∧ aya_xskmap (pg_ebpf p) = aya_xskmap e.
Proof.
  unfold load_and_attach. assert (Hc : config_validate config = Ok config ∨ ∃ x, config_validate config = Err x).
  { unfold config_validate. destruct config; [by left|]. destruct (_ <? _); [by right; eexists|]. destruct (_ && _); [by right; eexists|by left]. }
  destruct Hc as [Hc|[x Hc]]; rewrite Hc; cbn [result_bind map_err]; [|done].
  match goal with |- context [let '(_, _) := ?m e0 in _] => destruct (m e0) as [e' r] eqn:Hrun end.
  destruct r as [maps|]; cbn [result_bind]; [|done]. intros [= <-].
  apply pm_ok_inv in Hrun as (e1 & maps1 & Hprep & Hrun). apply pm_ok_inv in Hrun as (e2 & [] & ->%validate_xskmap_inv & Hrun).
  apply pm_ok_inv in Hrun as (e3 & [] & ->%validate_drop_counters_inv & Hrun). apply pm_ok_inv in Hrun as (e4 & [] & Hprog & Hrun).
  assert (e4 = e1) as ->. { destruct (aya_program e1 (program_name config)) as [[?|?]|]; cbn in Hprog; by simplify_eq. }
  apply pm_ok_inv in Hrun as (e5 & [] & Hload & Hrun). apply pm_ok_inv in Hrun as (e6 & [] & Hatt & Hrun).
  injection Hrun as <- <-.
  pose proof (load_maps e1 (program_name config)) as Hlm. pose proof (load_xskmap e1 (program_name config)) as Hlx.
  destruct (aya_program_load e1 (program_name config)) as [e5' r5]. cbn in Hlm, Hlx. injection Hload as -> _.
  pose proof (attach_maps e5 (program_name config) i mode) as Ham. pose proof (attach_xskmap e5 (program_name config) i mode) as Hax.
  destruct (aya_program_attach e5 (program_name config) i mode) as [e6' r6]. cbn in Ham, Hax. injection Hatt as -> _.
  split_and!; try done. exists e1, maps1. split_and!; try done; cbn; [intros; by rewrite Ham, Hlm|by rewrite Hax, Hlx].
Qed.

(** The port array of a fresh object. *)
Definition no_ports : list Z := replicate (Z.to_nat BOUND_PORTS_LEN) 0.

Lemma len_no_ports : len no_ports = BOUND_PORTS_LEN.
Proof. unfold no_ports, len. rewrite length_replicate. unfold BOUND_PORTS_LEN. lia. Qed.

Lemma load_bound_ports i mode (e0 : E) hash p : load_and_attach i mode BoundPorts (Ok e0) hash = Ok p →
  maps_are e0 (no_ports) 0 ∅ → bindings_ok ∅ p (no_ports) 0 ∅.
Proof.
  intros (_ & Hc & Hb & Hq & e & maps & Hv & Hpa & Hca & Ha & Hx)%load_and_attach_inv (Hp & Hn & Hxs).
  unfold validate_bound_port_maps in Hv. rewrite Hp in Hv.
  apply pm_ok_inv in Hv as (e1 & l & [-> Hl]%open_array_inv & Hv).
  apply pm_ok_inv in Hv as (e2 & [] & [-> _]%check_len_inv & Hv). apply pm_ok_inv in Hv as (e3 & [] & He3 & Hv). rewrite Hn in He3. injection He3 as <-.
  apply pm_ok_inv in Hv as (e4 & l' & [-> _]%open_array_inv & Hv). apply pm_ok_inv in Hv as (e5 & [] & [-> _]%check_len_inv & Hv).
  injection Hv as <- <-. constructor; [done|by rewrite Hpa|by rewrite Hca|..].
  - split_and!; [by rewrite Ha|by rewrite Ha|by rewrite Hx].
  - apply len_no_ports.
  - rewrite Hb. intros k r. by rewrite lookup_empty.
  - by rewrite Hb.
  - intros k Hk Hat. exfalso. apply Hat. unfold at_, nthZ. destruct (k <? 0); [done|].
    destruct (no_ports !! Z.to_nat k) as [x|] eqn:Hx'; [|done]. unfold no_ports in Hx'. by apply lookup_replicate in Hx' as [-> _].
  - rewrite Hq. set_solver.
Qed.

(** The range program's maps after a successful load. *)
Lemma load_port_range i mode start stop (e0 : E) hash p :
  load_and_attach i mode (PortRange start stop) (Ok e0) hash = Ok p →
  start ≤ stop ∧ ¬ (start = 0 ∧ stop = 0) ∧ aya_array (pg_ebpf p) "BOUND_PORT_RANGE" 2 = Some (Ok [start; stop]) ∧
  aya_xskmap (pg_ebpf p) = aya_xskmap e0.
Proof.
  intros (Hval & Hc & Hb & Hq & e & maps & Hv & Hpa & Hca & Ha & Hx)%load_and_attach_inv.
  assert (start ≤ stop ∧ ¬ (start = 0 ∧ stop = 0)) as [Hle Hnz].
  { unfold config_validate in Hval. case_bool_in Hval; cbn in Hval; first [done|lia]. }
  split; [done|split; [done|]]. clear Hval.
  apply pm_ok_inv in Hv as (e1 & [] & Hr & [= <- <-]). unfold configure_bound_port_range in Hr.
  apply pm_ok_inv in Hr as (e2 & l & [-> Hl]%open_array_inv & Hr).
  apply pm_ok_inv in Hr as (e3 & [] & [-> Hlen]%check_len_inv & Hr). apply pm_ok_inv in Hr as (e4 & [] & Hs1 & Hs2).
  destruct l as [|a [|b [|c l]]]; unfold len, BOUND_PORT_RANGE_LEN in Hlen; cbn in Hlen; try lia.
  unfold array_set in Hs1, Hs2. pose proof (array_set_xskmap e0 "BOUND_PORT_RANGE" 2 BOUND_PORT_RANGE_START start) as Hx1.
  destruct (aya_array_set e0 "BOUND_PORT_RANGE" 2 BOUND_PORT_RANGE_START start) as [e4' [[]|]] eqn:Hr1; [|done]. injection Hs1 as ->.
  pose proof (array_set_xskmap e4 "BOUND_PORT_RANGE" 2 BOUND_PORT_RANGE_END stop) as Hx2.
  destruct (aya_array_set e4 "BOUND_PORT_RANGE" 2 BOUND_PORT_RANGE_END stop) as [e1' [[]|]] eqn:Hr2; [|done]. injection Hs2 as ->.
  destruct (array_set_ok _ _ _ _ _ _ _ Hr1 Hl) as [_ Hl1]. destruct (array_set_ok _ _ _ _ _ _ _ Hr2 Hl1) as [_ Hl2].
  cbn in Hx1, Hx2. split; [by rewrite Ha, Hl2|by rewrite Hx, Hx2, Hx1].
Qed.
End Loading.
