(* ===== verification/FilterMain.v ===== *)
(** * Properties of the in-kernel filter and its program loader *)
From stdpp Require Import strings.
From S2P Require Import Prelude Bits Core Wire WireProofs Filter FilterProofs Program ProgramProofs.
Open Scope Z_scope.

(** ** The filter and the userspace parser *)

(** C28. The in-kernel filter and the userspace receive parser read frames the
    same way: outside QinQ tagging, the parser accepts a frame as a UDP
    datagram to a port exactly when the filter finds that port and the frame's
    IP and UDP length fields are consistent, which only the parser checks; so
    whatever the socket would deliver is seen by the filter with the same
    destination port, and the filter never hands over a fragment. *)
Theorem filter_agrees_with_parser (frame : list Z) (port : Z) :
  bytes_ok frame →
  ((∃ p, parse_ethernet_ipv4_udp frame = Ret (Udp p) ∧ pu_destination_port p = port) →
     packet_udp_destination_port frame = Ok (Some port)) ∧
  (outer_ethertype frame ≠ ETHERTYPE_QINQ → packet_udp_destination_port frame = Ok (Some port) →
     parse_ethernet_ipv4_udp frame ≠ Ret Fragment ∧
     (lengths_ok frame (l2_of frame) ↔
      ∃ p, parse_ethernet_ipv4_udp frame = Ret (Udp p) ∧ pu_destination_port p = port)).
Proof.
  intros Hb. split; [by apply parser_port_seen|]. intros Hq Hf. split; [by apply filter_no_fragment with port|].
  rewrite (parse_frame_iff frame port Hb). apply filter_frame_iff in Hf as [Hi Hu]; [|done]. tauto.
Qed.

(** An untagged and an 802.1Q-tagged header, and the datagram after them: UDP
    from port 1024 to port 5000 with one payload byte. *)
Definition macs : list Z := [2; 0; 0; 0; 0; 2; 2; 0; 0; 0; 0; 1].
Definition sample_datagram : list Z :=
  [69; 0; 0; 29; 0; 0; 64; 0; 64; 17; 0; 0; 10; 0; 0; 1; 10; 0; 0; 2; 4; 0; 19; 136; 0; 9; 0; 0; 77].
Definition vlan_frame : list Z := macs ++ [129; 0; 0; 5; 8; 0] ++ sample_datagram.

Lemma filter_agrees_with_parser_witness :
  packet_udp_destination_port vlan_frame = Ok (Some 5000) ∧
  ∃ p, parse_ethernet_ipv4_udp vlan_frame = Ret (Udp p) ∧ pu_destination_port p = 5000.
Proof.
  destruct (filter_agrees_with_parser vlan_frame 5000) as [H1 H2].
  - repeat constructor; vm_compute; congruence.
  - assert (Hf : packet_udp_destination_port vlan_frame = Ok (Some 5000)) by reflexivity. split; [done|].
    apply H2; [vm_compute; congruence|done|]. vm_compute. split_and!; congruence.
Defined.

(** A QinQ frame the filter redirects is lost: the userspace parser drops
    every frame with an 802.1ad outer tag, but the filter finds the UDP port
    behind an 802.1ad tag, with or without the inner 802.1Q tag its comment
    requires. *)
Theorem qinq_redirected_and_lost :
  (∀ frame, bytes_ok frame → outer_ethertype frame = ETHERTYPE_QINQ → parse_ethernet_ipv4_udp frame = Ret Drop) ∧
  packet_udp_destination_port (macs ++ [136; 168; 0; 5; 129; 0; 0; 6; 8; 0] ++ sample_datagram) = Ok (Some 5000) ∧
  packet_udp_destination_port (macs ++ [136; 168; 0; 5; 8; 0] ++ sample_datagram) = Ok (Some 5000).
Proof.
  split; [|split; reflexivity]. intros frame Hb Hq. unfold parse_ethernet_ipv4_udp, parse_l2, ETHERNET_HEADER_LEN.
  destruct (Z.ltb_spec (len frame) 14); [done|]. rewrite (read_be_u16_at _ 12) by lia. run.
  unfold outer_ethertype, ETHER_TYPE_OFFSET in Hq. by rewrite Hq.
Qed.

(** ** The filter and the port bindings *)
Section Follow.
Context {E : Type} `{AyaLaws E} `{XskRedirectLaws}.

Definition array_or_empty (e : E) (name : string) (w : Z) : list Z :=
  match aya_array e name w with Some (Ok l) => l | _ => [] end.

(** The statics of the attached program are the maps of its object. *)
Definition filter_maps (e : E) : FilterMaps :=
  mkMaps (match aya_xskmap e with Some (Ok m) => m | _ => ∅ end) (array_or_empty e "BOUND_PORTS" 1)
    (array_or_empty e "BOUND_PORT_COUNT" 4) (array_or_empty e "BOUND_PORT_RANGE" 2) (array_or_empty e "DROP_COUNTERS" 8).

Lemma redirect_action m queue :
  (or_pass (redirect_to_xskmap m queue)).2
  = if bool_decide (is_Some (fm_xskmap m !! queue)) then XDP_REDIRECT else XDP_DROP.
Proof.
  unfold redirect_to_xskmap. destruct (fm_xskmap m !! queue) as [fd|] eqn:Hq.
  - rewrite (redirect_hit (fm_xskmap m) queue) by (rewrite Hq; by eexists). by rewrite bool_decide_true by (by eexists).
  - destruct (redirect_miss (fm_xskmap m) queue Hq) as [e ->]. by rewrite bool_decide_false by (by intros []).
Qed.

Lemma filter_bindings failed p ports count xsk queue frame port :
  bindings_ok failed p ports count xsk → fits 16 port → packet_udp_destination_port frame = Ok (Some port) →
  let action := (fast_socket_xdp (filter_maps (pg_ebpf p)) queue frame).2 in
  (is_Some (pg_bound_ports p !! port) →
     action = if bool_decide (is_Some (xsk !! queue)) then XDP_REDIRECT else XDP_DROP) ∧
  (action ≠ XDP_PASS → is_Some (pg_bound_ports p !! port) ∨ port ∈ failed).
Proof.
  intros [_ _ _ (Hp & Hc & Hx) Hlen Hbound Hgate Hen _] Hport Hf.
  unfold fast_socket_xdp, try_redirect_bound_ports, filter_maps, array_or_empty. rewrite Hf, Hp, Hc, Hx.
  unfold has_bound_ports, is_bound_port. cbn [fm_bound_port_count fm_bound_ports].
  change (nthZ [count] 0) with (Some count). cbn iota.
  assert (Hat : at_ ports port = default 0 (nthZ ports port)) by done. destruct (nthZ ports port) as [v|] eqn:Hv.
  2:{ destruct (nthZ_is_Some ports port) as [? ?]; [|congruence]. unfold fits, BOUND_PORTS_LEN in *. lia. }
  cbn in Hat. unfold id in Hat. split.
  - intros [n Hn]. destruct (Hbound port n Hn) as (_ & _ & Hne). rewrite Hat in Hne.
    destruct (Z.eqb_spec count 0) as [->|]; [exfalso; apply Hgate; [|done]; intros He; by rewrite He in Hn|].
    destruct (Z.eqb_spec v 0); [done|]. cbn [negb]. by rewrite redirect_action.
  - destruct (Z.eqb_spec count 0); [done|]. cbn [negb]. destruct (Z.eqb_spec v 0); [done|]. cbn [negb]. intros _.
    apply Hen; [done|congruence].
Qed.

(** C13. The attached filter does what the port bindings say: over a freshly
    loaded object, after any sequence of bindings, unbindings and socket
    registrations, a UDP datagram the socket would parse is redirected to its
    queue's socket while its port has users, dropped if that queue has no
    socket, and passed to the operating system otherwise. When map updates
    fail on the way, a port that is bound is still never passed on, and only a
    bound port, or one whose binding was refused, is ever withheld. *)
Theorem filter_follows_bindings (if_index hash queue : Z) (mode : AttachMode) (e0 : E) (p0 p : XdpProgram E)
    (ops : list PortOp) (rs : list (result unit ProgramError)) (frame : list Z) (u : ParsedIpv4Udp) :
  load_and_attach if_index mode BoundPorts (Ok e0) hash = Ok p0 → maps_are e0 no_ports 0 ∅ →
  Forall op_ok ops → run_ops ops p0 = (p, rs) →
  bytes_ok frame → parse_ethernet_ipv4_udp frame = Ret (Udp u) →
  let port := pu_destination_port u in
  let action := (fast_socket_xdp (filter_maps (pg_ebpf p)) queue frame).2 in
  (Forall (λ r, r = Ok tt) rs →
     action = if 0 <? users port ops then if queue_open queue ops then XDP_REDIRECT else XDP_DROP else XDP_PASS) ∧
  (is_Some (pg_bound_ports p !! port) → action ≠ XDP_PASS) ∧
  (action ≠ XDP_PASS → is_Some (pg_bound_ports p !! port) ∨ port ∈ failed_binds ops rs).
Proof.
  intros Hload Hm Hops Hrun Hb Hparse port action. pose proof (load_bound_ports _ _ _ _ _ Hload Hm) as Hb0.
  destruct (run_ops_ok ops _ _ _ _ _ _ _ Hb0 Hops Hrun) as (ports & count & xsk & Hbp & Hok).
  assert (Hf : packet_udp_destination_port frame = Ok (Some port)).
  { apply parser_port_seen; [done|]. by exists u. }
  destruct (parse_eth_udp_total frame Hb) as (r & Hr & Hrange). rewrite Hparse in Hr. injection Hr as <-.
  destruct (filter_bindings _ p ports count xsk queue frame port Hbp) as [Hbound Hpass]; [apply Hrange|done|].
  fold action in Hbound, Hpass. rewrite (left_id_L ∅ (∪)) in Hpass. split_and!; [|intros Hs Ha|done].
  - intros Hrs. destruct (Hok Hrs) as [Hu Hq]. specialize (Hu port). specialize (Hq queue).
    destruct (load_and_attach_inv _ _ _ _ _ _ Hload) as (_ & _ & Hempty & _). rewrite Hempty, lookup_empty in Hu.
    rewrite lookup_empty in Hq. change (bool_decide (is_Some None)) with false in Hq. fold (queue_open queue ops) in Hq.
    cbn in Hu. unfold id in Hu. change (foldl (users_step port) 0 ops) with (users port ops) in Hu.
    destruct (pg_bound_ports p !! port) as [n|] eqn:Hn.
    + destruct (bk_bound _ _ _ _ _ Hbp port n Hn) as (Hn1 & _). cbn in Hu. unfold id in Hu.
      destruct (Z.ltb_spec 0 (users port ops)); [|lia]. rewrite Hbound by (by eexists). by rewrite Hq.
    + cbn in Hu. destruct (Z.ltb_spec 0 (users port ops)); [lia|].
      destruct (decide (action = XDP_PASS)) as [|Ha]; [done|]. destruct (Hpass Ha) as [[]|Hfail]; [done|].
      rewrite failed_binds_ok in Hfail by done. set_solver.
  - rewrite (Hbound Hs) in Ha. by destruct (bool_decide _).
Qed.

(** The range program serves exactly its configured range: a load succeeds
    only for an ordered range other than the all-zero one the filter treats
    as disabled, and then a UDP datagram the socket would parse is redirected
    (or dropped, without a socket on its queue) when its port is in the range
    and passed on when it is not. *)
Theorem range_filter_exact (if_index hash queue start stop : Z) (mode : AttachMode) (e0 : E) (p : XdpProgram E)
    (xsk : gmap Z Z) (frame : list Z) (u : ParsedIpv4Udp) :
  load_and_attach if_index mode (PortRange start stop) (Ok e0) hash = Ok p → aya_xskmap e0 = Some (Ok xsk) →
  bytes_ok frame → parse_ethernet_ipv4_udp frame = Ret (Udp u) →
  start ≤ stop ∧ ¬ (start = 0 ∧ stop = 0) ∧
  (fast_socket_xdp_port_range (filter_maps (pg_ebpf p)) queue frame).2
  = if decide (start ≤ pu_destination_port u ≤ stop)
    then if decide (is_Some (xsk !! queue)) then XDP_REDIRECT else XDP_DROP else XDP_PASS.
Proof.
  intros Hload Hx Hb Hparse. destruct (load_port_range _ _ _ _ _ _ _ Hload) as (Hle & Hnz & Hr & Hxs). split_and!; [done|done|].
  assert (Hf : packet_udp_destination_port frame = Ok (Some (pu_destination_port u))) by (apply parser_port_seen; eauto).
  unfold fast_socket_xdp_port_range, try_redirect_port_range, bound_port_range, filter_maps, array_or_empty.
  rewrite Hf, Hr, Hxs, Hx. cbn [fm_bound_port_range].
  change (nthZ [start; stop] BOUND_PORT_RANGE_START) with (Some start). change (nthZ [start; stop] BOUND_PORT_RANGE_END) with (Some stop). cbn iota.
  destruct (Z.eqb_spec start 0), (Z.eqb_spec stop 0); cbn [andb]; try (by destruct Hnz);
    (destruct (Z.ltb_spec stop start); [lia|]);
    (destruct (Z.ltb_spec (pu_destination_port u) start); cbn [orb]; [by destruct (decide _); [lia|]|]);
    (destruct (Z.ltb_spec stop (pu_destination_port u)); [by destruct (decide _); [lia|]|]);
    (destruct (decide (start ≤ pu_destination_port u ≤ stop)); [|lia]); rewrite redirect_action; cbn [fm_xskmap];
    (destruct (decide (is_Some (xsk !! queue))) as [Hq|Hq]; [by rewrite (bool_decide_true _ Hq)|by rewrite (bool_decide_false _ Hq)]).
Qed.
End Follow.

(** ** The program registry *)

(** C33. Programs stay attached exactly while someone uses them: after any
    sequence of loads, clones and drops of program handles by any threads, an
    interface has an attached program iff a handle for it is alive, never two
    of them; all handles of an interface share its program, which is the
    registered one; and each program's reference count is its handles plus the
    registry's own. *)
Theorem program_registry_exact {E} `{Aya E} (g : Registry E) (hs : list XdpProgramHandle) :
  rtc rstep (mkRegistry ∅ ∅, []) (g, hs) →
  (∀ i, (∃ id n p, rg_heap g !! id = Some (n, p) ∧ pg_if_index p = i) ↔ ∃ h, h ∈ hs ∧ ph_if_index h = i) ∧
  (∀ id n p id' n' p', rg_heap g !! id = Some (n, p) → rg_heap g !! id' = Some (n', p') →
     pg_if_index p = pg_if_index p' → id = id') ∧
  (∀ h, h ∈ hs → rg_map g !! ph_if_index h = Some (ph_program h) ∧
     strong_count g (ph_program h) = 1 + holders (ph_program h) hs) ∧
  (∀ i, rg_map g !! i = None ↔ ∀ h, h ∈ hs → ph_if_index h ≠ i).
Proof.
  intros Hr. destruct (reach_ok _ Hr) as [Hh Hm Hhs]. cbn [fst snd] in *.
  assert (Hin : ∀ h, h ∈ hs → rg_map g !! ph_if_index h = Some (ph_program h) ∧
     strong_count g (ph_program h) = 1 + holders (ph_program h) hs).
  { intros h Hh'. destruct (Hhs h Hh') as (n & p & Hid & <-). destruct (Hh _ _ _ Hid) as (-> & _ & Hmap).
    split; [done|]. unfold strong_count. by rewrite Hid. }
  split_and!; [| |done|].
  - intros i. split.
    + intros (id & n & p & Hid & <-). destruct (Hh _ _ _ Hid) as (_ & (h & Hin' & <-)%holders_pos & _).
      exists h. split; [done|]. destruct (Hhs h Hin') as (n' & p' & Hid' & Hp'). congruence.
    + intros (h & Hin' & <-). destruct (Hhs h Hin') as (n & p & Hid & Hp). eauto.
  - intros id n p id' n' p' Hid Hid' He. destruct (Hh _ _ _ Hid) as (_ & _ & H1). destruct (Hh _ _ _ Hid') as (_ & _ & H2). congruence.
  - intros i. split.
    + intros Hi h Hin' <-. destruct (Hin h Hin'). congruence.
    + intros Hno. destruct (rg_map g !! i) as [id|] eqn:Hi; [|done]. destruct (Hm i id Hi) as (n & p & Hid & <-).
      destruct (Hh _ _ _ Hid) as (_ & (h & Hin' & <-)%holders_pos & _). destruct (Hhs h Hin') as (n' & p' & Hid' & Hp').
      exfalso. apply (Hno h Hin'). congruence.
Qed.

(** ** A concrete object *)
Record Object := mkObject {
  ob_ports : list Z;
  ob_count : list Z;
  ob_range : list Z;
  ob_drops : list Z;
  ob_xskmap : gmap Z Z;
}.
Inductive ArrayName := PortsArray | CountArray | RangeArray | DropsArray.
Definition array_name (name : string) : option (ArrayName * Z) :=
  if String.eqb name "BOUND_PORTS" then Some (PortsArray, 1)
  else if String.eqb name "BOUND_PORT_COUNT" then Some (CountArray, 4)
  else if String.eqb name "BOUND_PORT_RANGE" then Some (RangeArray, 2)
  else if String.eqb name "DROP_COUNTERS" then Some (DropsArray, 8)
  else None.
Definition ob_get (e : Object) (a : ArrayName) : list Z :=
  match a with PortsArray => ob_ports e | CountArray => ob_count e | RangeArray => ob_range e | DropsArray => ob_drops e end.
Definition ob_put (e : Object) (a : ArrayName) (l : list Z) : Object :=
  match a with
  | PortsArray => mkObject l (ob_count e) (ob_range e) (ob_drops e) (ob_xskmap e)
  | CountArray => mkObject (ob_ports e) l (ob_range e) (ob_drops e) (ob_xskmap e)
  | RangeArray => mkObject (ob_ports e) (ob_count e) l (ob_drops e) (ob_xskmap e)
  | DropsArray => mkObject (ob_ports e) (ob_count e) (ob_range e) l (ob_xskmap e)
  end.
Definition ob_with_xskmap (e : Object) (m : gmap Z Z) : Object :=
  mkObject (ob_ports e) (ob_count e) (ob_range e) (ob_drops e) m.

#[export] Instance object_aya : Aya Object := {
  aya_array e name w :=
    match array_name name with
    | Some (a, w') => Some (if w' =? w then Ok (ob_get e a) else Err "unexpected map type"%string)
    | None => None
    end;
  aya_array_set e name w i v :=
    match array_name name with
    | Some (a, w') =>
        if (w' =? w) && (0 <=? i) && (i <? len (ob_get e a)) then (ob_put e a (<[Z.to_nat i := v]> (ob_get e a)), Ok tt)
        else (e, Err "out of bounds"%string)
    | None => (e, Err "no map"%string)
    end;
  aya_xskmap e := Some (Ok (ob_xskmap e));
  aya_xskmap_set e q fd :=
    if (0 <=? q) && (q <? MAX_QUEUES) then (ob_with_xskmap e (<[q := fd]> (ob_xskmap e)), Ok tt)
    else (e, Err "out of bounds"%string);
  bpf_map_delete e q :=
    match ob_xskmap e !! q with
    | Some _ => (ob_with_xskmap e (delete q (ob_xskmap e)), Ok tt)
    | None => (e, Err ENOENT)
    end;
  aya_program e name := Some (Ok tt);
  aya_program_load e name := (e, Ok tt);
  aya_program_attach e name i mode := (e, Ok tt);
}.

Lemma array_name_inj n n' a w w' : array_name n = Some (a, w) → array_name n' = Some (a, w') → n = n'.
Proof.
  unfold array_name. repeat match goal with |- context [String.eqb ?x ?y] => destruct (String.eqb_spec x y) end;
    subst; try done; congruence.
Qed.

#[export] Instance object_laws : AyaLaws Object.
Proof.
  constructor; unfold aya_array, aya_array_set, aya_xskmap, aya_xskmap_set, bpf_map_delete, object_aya.
  - intros e n w i v e' l. destruct (array_name n) as [[a w']|]; [|done].
    destruct (Z.eqb_spec w' w), (Z.leb_spec 0 i), (Z.ltb_spec i (len (ob_get e a))); cbn [andb]; try done.
    intros [= <-] [= <-]. split; [lia|]. by destruct a.
  - intros e n w i v e' m. destruct (array_name n) as [[a w']|]; [destruct (_ && _)|]; by intros [= <- _].
  - intros e n w i v n' w' Hne. destruct (array_name n) as [[a w1]|] eqn:Hn; [|done]. destruct (_ && _); [|done].
    destruct (array_name n') as [[a' w2]|] eqn:Hn'; [|done]. cbn [fst]. destruct (_ =? _); [|done].
    destruct a, a'; try done; exfalso; by apply Hne; rewrite (array_name_inj n n' _ _ _ Hn Hn').
  - intros e n w i v. destruct (array_name n) as [[[] w']|]; [destruct (_ && _)..|]; done.
  - intros e q fd e' m. destruct (_ && _); [|done]. by intros [= <-] [= <-].
  - intros e q fd e' x. destruct (_ && _); [done|]. by intros [= <- _].
  - intros e q fd n w. by destruct (_ && _).
  - intros e q e' m. destruct (ob_xskmap e !! q); [|done]. by intros [= <-] [= <-].
  - intros e q e' x. destruct (ob_xskmap e !! q); [done|]. by intros [= <- _].
  - intros e q e' m. destruct (ob_xskmap e !! q) eqn:Hq; [done|]. by intros _ [= <-].
  - intros e q n w. by destruct (ob_xskmap e !! q).
  - done.
  - done.
  - done.
  - done.
Defined.

#[export] Instance lookup_redirect : XskRedirect :=
  λ m q, match m !! q with Some _ => Ok XDP_REDIRECT | None => Err 0 end.
#[export] Instance lookup_redirect_laws : XskRedirectLaws.
Proof. constructor; intros m q; unfold xsk_redirect, lookup_redirect; [by intros [? ->]|intros ->; by eexists]. Defined.

(** The embedded object, freshly loaded, and its program. *)
Definition fresh_object : Object := mkObject no_ports [0] [0; 0] [0; 0] ∅.
Definition program_of (config : XdpProgramConfig) (ports : bool) (e : Object) : XdpProgram Object :=
  mkProgram e 2 7 AttachDrv config ports ports ∅ ∅.

Lemma load_fresh : load_and_attach 2 AttachDrv BoundPorts (Ok fresh_object) 7 = Ok (program_of BoundPorts true fresh_object).
Proof. cbv -[no_ports len empty]. rewrite len_no_ports. reflexivity. Qed.

Lemma filter_follows_bindings_witness :
  let ops := [Bind 5000; Bind 5000; RegisterQueue 3 9; Unbind 5000; Bind 6000] in
  let p := (run_ops ops (program_of BoundPorts true fresh_object)).1 in
  (fast_socket_xdp (filter_maps (pg_ebpf p)) 3 vlan_frame).2 = XDP_REDIRECT.
Proof.
  intros ops p. destruct (parse_ethernet_ipv4_udp vlan_frame) as [[u| |]| | |] eqn:Hu; try (vm_compute in Hu; congruence).
  assert (Hport : pu_destination_port u = 5000) by (vm_compute in Hu; injection Hu as <-; reflexivity).
  destruct (filter_follows_bindings 2 7 3 AttachDrv fresh_object (program_of BoundPorts true fresh_object) p ops
              (run_ops ops (program_of BoundPorts true fresh_object)).2 vlan_frame u) as (Hok & _);
    [apply load_fresh|done|repeat constructor; vm_compute; congruence|apply surjective_pairing
    |repeat constructor; vm_compute; congruence|done|].
  rewrite Hok, Hport; [reflexivity|]. vm_compute. repeat constructor.
Defined.

Lemma range_filter_exact_witness :
  (fast_socket_xdp_port_range (filter_maps (mkObject no_ports [0] [4000; 5000] [0; 0] ∅)) 3 vlan_frame).2 = XDP_DROP.
Proof.
  destruct (parse_ethernet_ipv4_udp vlan_frame) as [[u| |]| | |] eqn:Hu; try (vm_compute in Hu; congruence).
  assert (Hport : pu_destination_port u = 5000) by (vm_compute in Hu; injection Hu as <-; reflexivity).
  destruct (range_filter_exact 2 7 3 4000 5000 AttachDrv fresh_object
    (program_of (PortRange 4000 5000) false (mkObject no_ports [0] [4000; 5000] [0; 0] ∅)) ∅ vlan_frame u) as (_ & _ & Ha);
    [reflexivity|done|repeat constructor; vm_compute; congruence|done|].
  cbn [pg_ebpf program_of] in Ha. rewrite Ha, Hport. reflexivity.
Defined.

Lemma program_registry_exact_witness :
  let g := (handle_clone (load_with_config (mkRegistry ∅ ∅) 2 AttachDrv BoundPorts (Ok fresh_object) 7).1 (mkHandle 2 0)).1 in
  strong_count g 0 = 3 ∧ rg_map g !! 2 = Some 0.
Proof.
  intros g. destruct (program_registry_exact (E := Object) g [mkHandle 2 0; mkHandle 2 0]) as (_ & _ & Hh & _).
  - eapply rtc_l; [apply (r_load (mkRegistry ∅ ∅) [] 2 AttachDrv BoundPorts (Ok fresh_object) 7), surjective_pairing|].
    assert (Hr : (load_with_config (mkRegistry ∅ ∅) 2 AttachDrv BoundPorts (Ok fresh_object) 7).2 = Ok (mkHandle 2 0)).
    { unfold load_with_config, get_or_load_with_config. cbn [config_validate rg_map]. rewrite lookup_empty.
      change (None ≫= ?f) with (None : option (Z * XdpProgram Object)). cbn iota. rewrite load_fresh. reflexivity. }
    rewrite Hr. eapply rtc_l; [apply (r_clone _ _ (mkHandle 2 0)); left|]. apply rtc_refl.
  - destruct (Hh (mkHandle 2 0)) as [Hm Hs]; [left|]. split; [exact Hs|exact Hm].
Defined.
