(* ===== verification/Netlink.v ===== *)
(** * Netlink: [netlink.rs]

    Requests for the kernel's link, neighbour and route tables, the reception
    of a dump, and the parsing of its messages and attributes. Bytes are read
    as the little-endian targets do; a raw read outside the buffer is
    undefined. The socket's system calls are arguments: the sequence of what
    [recv] returned is a function of the call's number. *)
From S2P Require Import Prelude Bits Core Wire.
Open Scope Z_scope.

(** ** Native integers *)
Definition le16 (x : Z) : list Z := [x mod 256; x / 256 mod 256].
Definition le32 (x : Z) : list Z := [x mod 256; x / 256 mod 256; x / 65536 mod 256; x / 16777216 mod 256].
Definition read_le16 (buf : list Z) (at_ : Z) : outcome Z :=
  a ← get_unchecked buf at_; b ← get_unchecked buf (at_ + 1); Ret (a + 256 * b).
Definition read_le32 (buf : list Z) (at_ : Z) : outcome Z :=
  a ← get_unchecked buf at_; b ← get_unchecked buf (at_ + 1);
  c ← get_unchecked buf (at_ + 2); d ← get_unchecked buf (at_ + 3);
  Ret (a + 256 * b + 65536 * c + 16777216 * d).
(** A [u32] read as an [i32]. *)
Definition as_i32 (x : Z) : Z := if x <? 2147483648 then x else x - 4294967296.

Definition align_to (value align : Z) : Z := Z.land (value + (align - 1)) (bnot 64 (align - 1)).

Definition NLMSG_ALIGNTO : Z := 4.
Definition NLA_ALIGNTO : Z := 4.
Definition NLA_HDR_LEN : Z := align_to 4 NLA_ALIGNTO.
Definition NLMSGHDR_SIZE : Z := 16.
Definition NLMSGERR_SIZE : Z := 20.
Definition NLMSG_ERROR : Z := 2.
Definition NLMSG_DONE : Z := 3.
Definition NLA_TYPE_MASK : Z := 16383.

Inductive NetlinkError :=
  | BufferSmaller | InvalidLength | MissingError | ShortAttribute | InvalidAttribute
  | NotTerminated | TimedOut | Closed | Truncated | RequestTooLong | Os (errno : Z).

(** ** Messages *)
Record nlmsghdr := mkHdr {
  nlmsg_len : Z;
  nlmsg_type : Z;
  nlmsg_flags : Z;
  nlmsg_seq : Z;
  nlmsg_pid : Z;
}.
Definition read_nlmsghdr (buf : list Z) : outcome nlmsghdr :=
  l ← read_le32 buf 0; t ← read_le16 buf 4; f ← read_le16 buf 6; s ← read_le32 buf 8; p ← read_le32 buf 12;
  Ret (mkHdr l t f s p).
Definition nlmsghdr_bytes (h : nlmsghdr) : list Z :=
  le32 (nlmsg_len h) ++ le16 (nlmsg_type h) ++ le16 (nlmsg_flags h) ++ le32 (nlmsg_seq h) ++ le32 (nlmsg_pid h).

(** [error] is the code of the [nlmsgerr]. *)
Record NetlinkMessage := mkMessage {
  nm_header : nlmsghdr;
  nm_data : list Z;
  nm_error : option Z;
}.

Definition message_read (buf : list Z) : outcome (result NetlinkMessage NetlinkError) :=
  if len buf <? NLMSGHDR_SIZE then Ret (Err BufferSmaller)
  else
    header ← read_nlmsghdr buf;
    let msg_len := nlmsg_len header in
    if (msg_len <? NLMSGHDR_SIZE) || (len buf <? msg_len) then Ret (Err InvalidLength)
    else
      let data_offset := align_to NLMSGHDR_SIZE NLMSG_ALIGNTO in
      if nlmsg_type header =? NLMSG_ERROR then
        if msg_len <? data_offset + NLMSGERR_SIZE then Ret (Err MissingError)
        else
          tail ← slice_or_panic buf data_offset (len buf);
          code ← read_le32 tail 0;
          Ret (Ok (mkMessage header [] (Some (as_i32 code))))
      else
        data ← slice_or_panic buf data_offset msg_len;
        Ret (Ok (mkMessage header data None)).

(** ** Receiving a dump *)

(** What one [recv] into the 32 KiB buffer returned: an error number, or a
    length, which [MSG_TRUNC] lets exceed the buffer, with the buffer. *)
Inductive SysRecv := RecvErr (errno : Z) | RecvLen (n : Z) (buf : list Z).

Definition EINTR : Z := 4.
Definition EAGAIN : Z := 11.
Definition RECV_BUFFER : Z := 32768.
Definition MAX_RECV_CALLS : Z := 1048576.

(** [-error.error] on [i32]. *)
Definition neg_i32 (x : Z) : outcome Z := if x =? -2147483648 then Panic else Ret (- x).

(** The loop over one datagram: [inl] the messages so far, [inr] the result. *)
Fixpoint datagram_loop (fuel : nat) (buf : list Z) (stop offset expected_seq : Z) (messages : list NetlinkMessage) :
    outcome (list NetlinkMessage + result (list NetlinkMessage) NetlinkError) :=
  if offset <? stop then
    match fuel with
    | O => Diverge
    | S fuel =>
        bytes ← slice_or_panic buf offset stop;
        r ← message_read bytes;
        match r with
        | Err e => Ret (inr (Err e))
        | Ok message =>
            let aligned_len := align_to (nlmsg_len (nm_header message)) NLMSG_ALIGNTO in
            let offset := saturating_add 64 offset aligned_len in
            if negb (nlmsg_seq (nm_header message) =? expected_seq) then
              datagram_loop fuel buf stop offset expected_seq messages
            else if nlmsg_type (nm_header message) =? NLMSG_DONE then Ret (inr (Ok messages))
            else if nlmsg_type (nm_header message) =? NLMSG_ERROR then
              match nm_error message with
              | Some code =>
                  if code =? 0 then Ret (inr (Ok messages))
                  else errno ← neg_i32 code; Ret (inr (Err (Os errno)))
              | None => datagram_loop fuel buf stop offset expected_seq messages
              end
            else datagram_loop fuel buf stop offset expected_seq (messages ++ [message])
        end
    end
  else Ret (inl messages).

(** The outer loop of [recv]; [calls k] answers its [k]-th [recv]. *)
Fixpoint recv_loop (fuel : nat) (calls : Z → SysRecv) (recv_calls expected_seq : Z) (messages : list NetlinkMessage) :
    outcome (result (list NetlinkMessage) NetlinkError) :=
  match fuel with
  | O => Diverge
  | S fuel =>
      let recv_calls := recv_calls + 1 in
      if MAX_RECV_CALLS <? recv_calls then Ret (Err NotTerminated)
      else
        match calls recv_calls with
        | RecvErr errno =>
            if errno =? EINTR then recv_loop fuel calls recv_calls expected_seq messages
            else if errno =? EAGAIN then Ret (Err TimedOut)
            else Ret (Err (Os errno))
        | RecvLen n buf =>
            if n =? 0 then Ret (Err Closed)
            else if RECV_BUFFER <? n then Ret (Err Truncated)
            else
              r ← datagram_loop (Z.to_nat n) buf n 0 expected_seq messages;
              match r with
              | inl messages => recv_loop fuel calls recv_calls expected_seq messages
              | inr result => Ret result
              end
        end
  end.

Definition netlink_recv (calls : Z → SysRecv) (expected_seq : Z) : outcome (result (list NetlinkMessage) NetlinkError) :=
  recv_loop (Z.to_nat (MAX_RECV_CALLS + 1)) calls 0 expected_seq [].

(** ** Attributes *)
Fixpoint attrs_loop (fuel : nat) (buf : list Z) (offset : Z) (attrs : gmap Z (list Z)) :
    outcome (result (gmap Z (list Z)) NetlinkError) :=
  if offset <? len buf then
    match fuel with
    | O => Diverge
    | S fuel =>
        if len buf - offset <? NLA_HDR_LEN then Ret (Err ShortAttribute)
        else
          tail ← slice_or_panic buf offset (len buf);
          n ← read_le16 tail 0; t ← read_le16 tail 2;
          if (n <? NLA_HDR_LEN) || (len buf <? offset + n) then Ret (Err InvalidAttribute)
          else
            data ← slice_or_panic buf (offset + NLA_HDR_LEN) (offset + n);
            attrs_loop fuel buf (saturating_add 64 offset (align_to n NLA_ALIGNTO))
              (<[Z.land t NLA_TYPE_MASK := data]> attrs)
    end
  else Ret (Ok attrs).
Definition parse_attrs (buf : list Z) : outcome (result (gmap Z (list Z)) NetlinkError) :=
  attrs_loop (length buf) buf 0 ∅.

Definition AF_INET : Z := 2.
Definition AF_INET6 : Z := 10.

(** A V6 address is its octets. *)
Inductive NlAddr := NlV4 (addr : Z) | NlV6 (octets : list Z).
Definition parse_ip_address (data : list Z) (family : Z) : option NlAddr :=
  match data with
  | [a; b; c; d] => if family =? AF_INET then Some (NlV4 (ipv4_new a b c d)) else None
  | _ => if (family =? AF_INET6) && (len data =? 16) then Some (NlV6 data) else None
  end.

Definition read_u32_ne (data : list Z) : option Z :=
  match data with
  | a :: b :: c :: d :: _ => Some (a + 256 * b + 65536 * c + 16777216 * d)
  | _ => None
  end.

(** [attr.data.get(..6)] copied into a link address. *)
Definition read_mac (data : list Z) : option (list Z) := slice data 0 6.

(** [IfIndex::try_new]. *)
Definition if_index_try_new (x : Z) : option Z := if x =? 0 then None else Some x.

(** ** Table entries *)
Record LinkEntry := mkLink {
  le_ifindex : Z;
  le_master_ifindex : option Z;
  le_mac : option (list Z);
  le_mtu : option Z;
}.
Record NeighborEntry := mkNeighbor {
  ne_destination : option NlAddr;
  ne_lladdr : option (list Z);
  ne_ifindex : Z;
  ne_state : Z;
}.
Record RouteEntry := mkRouteEntry {
  re_destination : option NlAddr;
  re_gateway : option NlAddr;
  re_out_ifindex : option Z;
  re_priority : option Z;
  re_table : option Z;
  re_family : Z;
  re_dst_len : Z;
}.

Definition IFINFOMSG_SIZE : Z := 16.
Definition NDMSG_SIZE : Z := 12.
Definition RTMSG_SIZE : Z := 12.
Definition IFLA_ADDRESS : Z := 1.
Definition IFLA_MTU : Z := 4.
Definition IFLA_MASTER : Z := 10.
Definition NDA_DST : Z := 1.
Definition NDA_LLADDR : Z := 2.
Definition RTA_DST : Z := 1.
Definition RTA_OIF : Z := 4.
Definition RTA_GATEWAY : Z := 5.
Definition RTA_PRIORITY : Z := 6.
Definition RTA_TABLE : Z := 15.

(** [parse_attrs(&message.data[size..]).ok()?]. *)
Definition message_attrs (message : NetlinkMessage) (size : Z) : outcome (option (gmap Z (list Z))) :=
  tail ← slice_or_panic (nm_data message) size (len (nm_data message));
  r ← parse_attrs tail;
  Ret (match r with Ok attrs => Some attrs | Err _ => None end).

(** [attrs.get(&t).and_then(f)]. *)
Definition attr {A} (attrs : gmap Z (list Z)) (t : Z) (f : list Z → option A) : option A :=
  match attrs !! t with Some data => f data | None => None end.
Definition read_index (data : list Z) : option Z :=
  match read_u32_ne data with Some x => if_index_try_new x | None => None end.

Definition parse_link (message : NetlinkMessage) : outcome (option LinkEntry) :=
  if len (nm_data message) <? IFINFOMSG_SIZE then Ret None
  else
    index ← read_le32 (nm_data message) 4;
    attrs ← message_attrs message IFINFOMSG_SIZE;
    Ret match attrs with
        | None => None
        | Some a =>
            let mac := attr a IFLA_ADDRESS read_mac in
            let mtu := attr a IFLA_MTU read_u32_ne in
            let master := attr a IFLA_MASTER read_index in
            match if_index_try_new index with
            | Some i => Some (mkLink i master mac mtu)
            | None => None
            end
        end.

Definition parse_neighbor (message : NetlinkMessage) (filter_ifindex : option Z) : outcome (option NeighborEntry) :=
  if len (nm_data message) <? NDMSG_SIZE then Ret None
  else
    family ← get_unchecked (nm_data message) 0;
    index ← read_le32 (nm_data message) 4;
    state ← read_le16 (nm_data message) 8;
    match if_index_try_new index with
    | None => Ret None
    | Some ifindex =>
        if match filter_ifindex with Some f => negb (f =? ifindex) | None => false end then Ret None
        else
          attrs ← message_attrs message NDMSG_SIZE;
          Ret match attrs with
              | None => None
              | Some a =>
                  let destination := attr a NDA_DST (λ data, parse_ip_address data family) in
                  let lladdr := attr a NDA_LLADDR read_mac in
                  Some (mkNeighbor destination lladdr ifindex state)
              end
    end.

Definition parse_route (message : NetlinkMessage) : outcome (option RouteEntry) :=
  if len (nm_data message) <? RTMSG_SIZE then Ret None
  else
    family ← get_unchecked (nm_data message) 0;
    dst_len ← get_unchecked (nm_data message) 1;
    rtm_table ← get_unchecked (nm_data message) 4;
    attrs ← message_attrs message RTMSG_SIZE;
    Ret match attrs with
        | None => None
        | Some a =>
            let destination := attr a RTA_DST (λ data, parse_ip_address data family) in
            let gateway := attr a RTA_GATEWAY (λ data, parse_ip_address data family) in
            let out_ifindex := attr a RTA_OIF read_index in
            let priority := attr a RTA_PRIORITY read_u32_ne in
            let table := match attr a RTA_TABLE read_u32_ne with Some t => Some t | None => Some rtm_table end in
            Some (mkRouteEntry destination gateway out_ifindex priority table family dst_len)
        end.

Definition route_table_from_attr (message : NetlinkMessage) : outcome bool :=
  if len (nm_data message) <? RTMSG_SIZE then Ret false
  else
    attrs ← message_attrs message RTMSG_SIZE;
    Ret (match attrs with Some a => bool_decide (is_Some (a !! RTA_TABLE)) | None => false end).

(** ** Requests *)
Definition RTM_NEWLINK : Z := 16.
Definition RTM_GETLINK : Z := 18.
Definition RTM_NEWROUTE : Z := 24.
Definition RTM_GETROUTE : Z := 26.
Definition RTM_NEWNEIGH : Z := 28.
Definition RTM_GETNEIGH : Z := 30.
(** [NLM_F_REQUEST | NLM_F_DUMP]. *)
Definition DUMP_FLAGS : Z := 769.

(** [push_nlattr] of a value with the given bytes. *)
Definition push_nlattr (buffer : list Z) (attr_type : Z) (value : list Z) : list Z :=
  let attr_len := NLA_HDR_LEN + len value in
  buffer ++ le16 (u16 attr_len) ++ le16 attr_type ++ value
    ++ replicate (Z.to_nat (align_to attr_len NLA_ALIGNTO - attr_len)) 0.

Definition refresh_nlmsg_len (buffer : list Z) : result (list Z) NetlinkError :=
  if U32_MAX <? len buffer then Err RequestTooLong
  else if len buffer <? 4 then Err BufferSmaller
  else Ok (write_at buffer 0 (le32 (len buffer))).

Definition link_request (family : Z) : list Z :=
  nlmsghdr_bytes (mkHdr (NLMSGHDR_SIZE + IFINFOMSG_SIZE) RTM_GETLINK DUMP_FLAGS 1 0) ++ family :: replicate 15 0.
Definition neighbor_request (ifindex : option Z) (family : Z) : list Z :=
  nlmsghdr_bytes (mkHdr (NLMSGHDR_SIZE + NDMSG_SIZE) RTM_GETNEIGH DUMP_FLAGS 1 0)
    ++ [family; 0; 0; 0] ++ le32 (default 0 ifindex) ++ replicate 4 0.
Definition route_request (family table : Z) : result (list Z) NetlinkError :=
  refresh_nlmsg_len
    (push_nlattr (nlmsghdr_bytes (mkHdr (NLMSGHDR_SIZE + RTMSG_SIZE) RTM_GETROUTE DUMP_FLAGS 1 0) ++ family :: replicate 11 0)
       RTA_TABLE (le32 table)).

(** ** Dumps

    A session is what [open], [send] and the [recv]s of one socket return. *)
Record Session := mkSession {
  ss_open : result unit NetlinkError;
  ss_send : list Z → result unit NetlinkError;
  ss_recv : Z → SysRecv;
}.

Definition exchange (s : Session) (request : list Z) : outcome (result (list NetlinkMessage) NetlinkError) :=
  match ss_open s, ss_send s request with
  | Err e, _ => Ret (Err e)
  | Ok _, Err e => Ret (Err e)
  | Ok _, Ok _ => netlink_recv (ss_recv s) 1
  end.

(** The loop that parses the messages of one type and keeps what parsed. *)
Fixpoint collect {A} (f : NetlinkMessage → outcome (option A)) (messages : list NetlinkMessage) : outcome (list A) :=
  match messages with
  | [] => Ret []
  | m :: messages =>
      x ← f m;
      l ← collect f messages;
      Ret (match x with Some a => a :: l | None => l end)
  end.

Definition dump {A} (s : Session) (request : list Z) (f : NetlinkMessage → outcome (option A)) :
    outcome (result (list A) NetlinkError) :=
  r ← exchange s request;
  match r with
  | Err e => Ret (Err e)
  | Ok messages => l ← collect f messages; Ret (Ok l)
  end.

Definition netlink_get_links (s : Session) (family : Z) : outcome (result (list LinkEntry) NetlinkError) :=
  dump s (link_request family) (λ m,
    if nlmsg_type (nm_header m) =? RTM_NEWLINK then parse_link m else Ret None).

Definition netlink_get_neighbors (s : Session) (ifindex : option Z) (family : Z) :
    outcome (result (list NeighborEntry) NetlinkError) :=
  dump s (neighbor_request ifindex family) (λ m,
    if nlmsg_type (nm_header m) =? RTM_NEWNEIGH then parse_neighbor m ifindex else Ret None).

Definition select_route (table : Z) (m : NetlinkMessage) : outcome (option RouteEntry) :=
  if negb (nlmsg_type (nm_header m) =? RTM_NEWROUTE) then Ret None
  else
    route ← parse_route m;
    match route with
    | None => Ret None
    | Some route =>
        has_attr ← (if 255 <? table then route_table_from_attr m else Ret true);
        Ret (if negb has_attr then None
             else if bool_decide (re_table route = Some table) then Some route else None)
    end.

Definition netlink_get_routes (s : Session) (family table : Z) : outcome (result (list RouteEntry) NetlinkError) :=
  match ss_open s, route_request family table with
  | Err e, _ => Ret (Err e)
  | Ok _, Err e => Ret (Err e)
  | Ok _, Ok request => dump s request (select_route table)
  end.
