(* ===== verification/NetlinkProofs.v ===== *)
(** * Lemmas on netlink

    Reading what was written, the totality of the parsers on any bytes, and
    the meaning of a well-formed dump. *)
From S2P Require Import Prelude Bits Core Wire WireProofs Window Netlink.
From Stdlib Require Import Zify.
Open Scope Z_scope.

#[local] Ltac Zify.zify_post_hook ::= Z.div_mod_to_equations.

(** ** Integers *)
Lemma align4 x : 0 ≤ x < 2 ^ 62 → align_to x 4 = (x + 3) / 4 * 4.
Proof.
  intros Hx. unfold align_to, bnot. change (2 ^ 64 - 1 - (4 - 1)) with (Z.ldiff (Z.ones 64) (Z.ones 2)).
  rewrite Z.land_comm, Z.ldiff_land, <- Z.land_assoc, (Z.land_comm (Z.lnot _)), Z.land_assoc.
  rewrite (Z.land_comm (Z.ones 64)), Z.land_ones, Z.mod_small by (change (2 ^ 64) with (4 * 2 ^ 62); lia).
  rewrite <- Z.ldiff_land, Z.ldiff_ones_r, Z.shiftl_mul_pow2, Z.shiftr_div_pow2 by lia. done.
Qed.

Lemma align4_bounds x : 0 ≤ x < 2 ^ 62 → x ≤ align_to x 4 < x + 4.
Proof. intros. rewrite align4 by done. lia. Qed.

Lemma get_unchecked_index {A} (l : list A) i x : nthZ l i = Some x → get_unchecked l i = Ret x.
Proof. intros H. unfold get_unchecked. by rewrite H. Qed.

Lemma get_byte l i : bytes_ok l → 0 ≤ i < len l → ∃ b, get_unchecked l i = Ret b ∧ fits 8 b.
Proof.
  intros Hl Hi. destruct (nthZ_is_Some l i Hi) as [b Hb]. exists b. split; [by apply get_unchecked_index|].
  unfold nthZ in Hb. destruct (i <? 0); [done|]. by apply (Forall_lookup_1 _ _ _ _ Hl Hb).
Qed.

Lemma read_le16_total l i : bytes_ok l → 0 ≤ i → i + 1 < len l → ∃ v, read_le16 l i = Ret v ∧ fits 16 v.
Proof.
  intros Hl Hi Hn. unfold read_le16. destruct (get_byte l i Hl) as (a & -> & Ha); [lia|]. run.
  destruct (get_byte l (i + 1) Hl) as (b & -> & Hb); [lia|]. run. eexists. split; [done|]. unfold fits in *. lia.
Qed.

Lemma read_le32_total l i : bytes_ok l → 0 ≤ i → i + 3 < len l → ∃ v, read_le32 l i = Ret v ∧ fits 32 v.
Proof.
  intros Hl Hi Hn. unfold read_le32. destruct (get_byte l i Hl) as (a & -> & Ha); [lia|]. run.
  destruct (get_byte l (i + 1) Hl) as (b & -> & Hb); [lia|]. run. destruct (get_byte l (i + 2) Hl) as (c & -> & Hc); [lia|]. run.
  destruct (get_byte l (i + 3) Hl) as (d & -> & Hd); [lia|]. run. eexists. split; [done|]. unfold fits in *. lia.
Qed.

Lemma slice_nthZ {A} (l s : list A) a b i : slice_or_panic l a b = Ret s → 0 ≤ i < b - a → nthZ s i = nthZ l (a + i).
Proof.
  unfold slice_or_panic, slice. destruct ((0 <=? a) && (a <=? b) && (b <=? len l)) eqn:E; [|done].
  apply andb_true_iff in E as [[E1 E2]%andb_true_iff E3]. apply Z.leb_le in E1, E2, E3. intros [= <-] Hi.
  unfold nthZ. case_bool; try lia. rewrite lookup_take_lt, lookup_drop by lia. f_equal. lia.
Qed.

Lemma slice_read_le32 l s a b i v : slice_or_panic l a b = Ret s → 0 ≤ i → i + 3 < b - a →
  read_le32 s i = Ret v → read_le32 l (a + i) = Ret v.
Proof.
  intros Hs Hi Hb. unfold read_le32, get_unchecked.
  rewrite !(slice_nthZ l s a b) by (done || lia). by rewrite <- !Z.add_assoc.
Qed.

Lemma le16_value x : fits 16 x → x mod 256 + 256 * (x / 256 mod 256) = x.
Proof. unfold fits. lia. Qed.
Lemma le32_value x : fits 32 x →
  x mod 256 + 256 * (x / 256 mod 256) + 65536 * (x / 65536 mod 256) + 16777216 * (x / 16777216 mod 256) = x.
Proof. unfold fits. lia. Qed.
Lemma le16_bytes x : bytes_ok (le16 x).
Proof. repeat constructor; unfold fits; lia. Qed.
Lemma le32_bytes x : bytes_ok (le32 x).
Proof. repeat constructor; unfold fits; lia. Qed.

(** ** Totality *)
Definition message_ok (m : NetlinkMessage) : Prop := bytes_ok (nm_data m) ∧ len (nm_data m) ≤ RECV_BUFFER.

Lemma read_nlmsghdr_total buf : bytes_ok buf → 16 ≤ len buf →
  ∃ h, read_nlmsghdr buf = Ret h ∧ fits 32 (nlmsg_len h) ∧ fits 16 (nlmsg_type h).
Proof.
  intros Hb Hl. unfold read_nlmsghdr.
  destruct (read_le32_total buf 0 Hb) as (a & -> & Ha); [lia|lia|]. run.
  destruct (read_le16_total buf 4 Hb) as (b & -> & Hb4); [lia|lia|]. run.
  destruct (read_le16_total buf 6 Hb) as (c & -> & Hc); [lia|lia|]. run.
  destruct (read_le32_total buf 8 Hb) as (d & -> & Hd); [lia|lia|]. run.
  destruct (read_le32_total buf 12 Hb) as (e & -> & He); [lia|lia|]. run. eauto.
Qed.

Lemma message_read_total buf : bytes_ok buf → len buf < 2 ^ 32 → ∃ r, message_read buf = Ret r ∧
  match r with
  | Ok m => 16 ≤ nlmsg_len (nm_header m) ≤ len buf ∧ bytes_ok (nm_data m) ∧ len (nm_data m) ≤ len buf ∧
      (nlmsg_type (nm_header m) = NLMSG_ERROR → ∃ v, nm_error m = Some (as_i32 v) ∧ read_le32 buf 16 = Ret v ∧ fits 32 v)
  | Err _ => True
  end.
Proof.
  intros Hb Hlen. unfold message_read, NLMSGHDR_SIZE, NLMSGERR_SIZE. destruct (Z.ltb_spec (len buf) 16); [by eexists|].
  destruct (read_nlmsghdr_total buf Hb) as (h & -> & Hl & Ht); [lia|]. run.
  destruct (Z.ltb_spec (nlmsg_len h) 16); cbn [orb]; [by eexists|]. destruct (Z.ltb_spec (len buf) (nlmsg_len h)); [by eexists|].
  change (align_to 16 NLMSG_ALIGNTO) with 16. destruct (Z.eqb_spec (nlmsg_type h) NLMSG_ERROR).
  - destruct (Z.ltb_spec (nlmsg_len h) (16 + 20)); [by eexists|].
    destruct (slice_total buf 16 (len buf)) as (tail & Htail & Htl & Hp); [lia|lia|]. rewrite Htail. run.
    destruct (read_le32_total tail 0) as (c & Hc & Hcf); [by apply Hp|lia|lia|]. rewrite Hc. run. eexists. split; [done|].
    cbn. split_and!; try lia; [constructor|unfold len; cbn; lia|]. intros _. exists c. split_and!; [done| |done].
    by apply (slice_read_le32 buf tail 16 (len buf) 0); [|lia|lia|].
  - destruct (slice_total buf 16 (nlmsg_len h)) as (data & -> & Hdl & Hp); [lia|lia|]. run. eexists. split; [done|].
    cbn. split_and!; try lia; by apply Hp.
Qed.

Lemma datagram_loop_total fuel buf stop seq : bytes_ok buf → 0 ≤ stop ≤ len buf → stop ≤ RECV_BUFFER →
  ∀ offset messages, 0 ≤ offset → stop - offset ≤ Z.of_nat fuel → Forall message_ok messages →
  (datagram_loop fuel buf stop offset seq messages = Panic ∧ ∃ off, read_le32 buf off = Ret 2147483648) ∨
  ∃ r, datagram_loop fuel buf stop offset seq messages = Ret r ∧
    match r with inl ms | inr (Ok ms) => Forall message_ok ms | inr (Err _) => True end.
Proof.
  intros Hb Hs Hs32. unfold RECV_BUFFER in Hs32. induction fuel as [|fuel IH]; intros offset ms Ho Hf Hms; cbn [datagram_loop].
  { destruct (Z.ltb_spec offset stop); [lia|]. right. by eexists. }
  destruct (Z.ltb_spec offset stop); [|right; by eexists].
  destruct (slice_total buf offset stop) as (bytes & Hbytes & Hl & Hp); [lia|lia|]. rewrite Hbytes. run.
  destruct (message_read_total bytes) as (r & -> & Hr); [by apply Hp|lia|]. run.
  destruct r as [m|e]; [|right; by eexists]. destruct Hr as (Hml & Hmb & Hmd & Hme).
  pose proof (align4_bounds (nlmsg_len (nm_header m))) as Hal. unfold NLMSG_ALIGNTO, saturating_add.
  set (off' := Z.min _ _). assert (Hoff : offset + 16 ≤ off') by (unfold off'; lia).
  destruct (negb _); [apply IH; [lia|lia|done]|]. destruct (_ =? NLMSG_DONE); [right; by eexists|].
  destruct (Z.eqb_spec (nlmsg_type (nm_header m)) NLMSG_ERROR) as [He|He].
  - destruct (Hme He) as (v & -> & Hv & Hvf). destruct (as_i32 v =? 0); [right; by eexists|]. unfold neg_i32.
    destruct (Z.eqb_spec (as_i32 v) (-2147483648)) as [Hmin|]; [left|right; run; by eexists]. split; [done|].
    exists (offset + 16). assert (v = 2147483648) as -> by (unfold as_i32, fits in *; case_bool_in Hmin; lia).
    destruct (decide (19 < stop - offset)); [by apply (slice_read_le32 buf bytes offset stop 16); [|lia|lia|]|].
    exfalso. unfold read_le32, get_unchecked in Hv. rewrite (nthZ_None bytes (16 + 3)) in Hv by lia.
    by destruct (nthZ bytes 16), (nthZ bytes (16 + 1)), (nthZ bytes (16 + 2)).
  - apply IH; [lia|lia|]. apply Forall_app. split; [done|]. constructor; [|done]. split; [done|]. unfold RECV_BUFFER. lia.
Qed.

(** Whatever the kernel sends, a dump ends: with a result, or with the
    arithmetic panic of negating the smallest error number. *)
Definition recv_ok (calls : Z → SysRecv) : Prop :=
  ∀ k n buf, calls k = RecvLen n buf → 0 ≤ n ∧ len buf = RECV_BUFFER ∧ bytes_ok buf.

Lemma recv_loop_total calls seq fuel : recv_ok calls → ∀ k ms, 0 ≤ k ≤ MAX_RECV_CALLS → MAX_RECV_CALLS - k < Z.of_nat fuel →
  Forall message_ok ms →
  (recv_loop fuel calls k seq ms = Panic ∧ ∃ k n buf off, calls k = RecvLen n buf ∧ read_le32 buf off = Ret 2147483648) ∨
  ∃ r, recv_loop fuel calls k seq ms = Ret r ∧ match r with Ok ms => Forall message_ok ms | Err _ => True end.
Proof.
  intros Hc. induction fuel as [|fuel IH]; intros k ms Hk Hf Hms; cbn [recv_loop].
  { lia. }
  destruct (Z.ltb_spec MAX_RECV_CALLS (k + 1)); [right; by eexists|].
  destruct (calls (k + 1)) as [errno|n buf] eqn:Hcall.
  - destruct (errno =? EINTR); [apply IH; [lia|lia|done]|]. destruct (errno =? EAGAIN); right; by eexists.
  - destruct (Hc _ _ _ Hcall) as (Hn & Hl & Hb). destruct (n =? 0); [right; by eexists|].
    destruct (Z.ltb_spec RECV_BUFFER n); [right; by eexists|].
    destruct (datagram_loop_total (Z.to_nat n) buf n seq Hb ltac:(lia) ltac:(lia) 0 ms) as [[-> Ho]|(r & -> & Hr)];
      [lia|lia|done|left; split; [done|]; destruct Ho as [off Ho]; eauto 10|]. run.
    destruct r as [ms'|[ms'|e]]; [apply IH; [lia|lia|done]|right; by eexists|right; by eexists].
Qed.

Lemma attrs_loop_total buf fuel : bytes_ok buf → len buf < 2 ^ 60 → ∀ offset attrs, 0 ≤ offset →
  len buf - offset ≤ Z.of_nat fuel → map_Forall (λ _, bytes_ok) attrs →
  ∃ r, attrs_loop fuel buf offset attrs = Ret r ∧ match r with Ok a => map_Forall (λ _, bytes_ok) a | Err _ => True end.
Proof.
  intros Hb Hl. induction fuel as [|fuel IH]; intros offset attrs Ho Hf Ha; cbn [attrs_loop].
  { destruct (Z.ltb_spec offset (len buf)); [lia|]. by eexists. }
  destruct (Z.ltb_spec offset (len buf)); [|by eexists]. change NLA_HDR_LEN with 4.
  destruct (Z.ltb_spec (len buf - offset) 4); [by eexists|].
  destruct (slice_total buf offset (len buf)) as (tail & -> & Htl & Hp); [lia|lia|]. run.
  destruct (read_le16_total tail 0) as (n & -> & Hn); [by apply Hp|lia|lia|]. run.
  destruct (read_le16_total tail 2) as (t & -> & Ht); [by apply Hp|lia|lia|]. run.
  destruct (Z.ltb_spec n 4); cbn [orb]; [by eexists|]. destruct (Z.ltb_spec (len buf) (offset + n)); [by eexists|].
  destruct (slice_total buf (offset + 4) (offset + n)) as (data & -> & Hdl & Hdp); [lia|lia|]. run.
  unfold fits in Hn. pose proof (align4_bounds n) as Hal. unfold NLA_ALIGNTO, saturating_add.
  apply IH; [lia|lia|]. apply map_Forall_insert_2; [by apply Hdp|done].
Qed.

Lemma message_attrs_total m size : bytes_ok (nm_data m) → 0 ≤ size ≤ len (nm_data m) → len (nm_data m) < 2 ^ 60 →
  ∃ a, message_attrs m size = Ret a ∧ match a with Some a => map_Forall (λ _, bytes_ok) a | None => True end.
Proof.
  intros Hb Hs Hl. unfold message_attrs. destruct (slice_total (nm_data m) size (len (nm_data m))) as (tail & -> & Htl & Hp); [lia|lia|]. run.
  unfold parse_attrs. destruct (attrs_loop_total tail (length tail)) with (offset := 0) (attrs := (∅ : gmap Z (list Z))) as (r & -> & Hr);
    [by apply Hp|lia|lia|unfold len; lia|apply map_Forall_empty|]. run. eexists. split; [done|]. by destruct r.
Qed.

Lemma parse_total m f : bytes_ok (nm_data m) → len (nm_data m) < 2 ^ 60 →
  (∃ r, parse_link m = Ret r) ∧ (∃ r, parse_neighbor m f = Ret r) ∧ (∃ r, parse_route m = Ret r) ∧ ∃ b, route_table_from_attr m = Ret b.
Proof.
  intros Hb Hl. unfold parse_link, parse_neighbor, parse_route, route_table_from_attr, IFINFOMSG_SIZE, NDMSG_SIZE, RTMSG_SIZE. split_and!.
  - destruct (Z.ltb_spec (len (nm_data m)) 16); [by eexists|]. destruct (read_le32_total (nm_data m) 4 Hb) as (i & -> & _); [lia|lia|]. run.
    destruct (message_attrs_total m 16 Hb) as (a & -> & _); [lia|lia|]. run. by eexists.
  - destruct (Z.ltb_spec (len (nm_data m)) 12); [by eexists|]. destruct (get_byte (nm_data m) 0 Hb) as (fa & -> & _); [lia|]. run.
    destruct (read_le32_total (nm_data m) 4 Hb) as (i & -> & _); [lia|lia|]. run.
    destruct (read_le16_total (nm_data m) 8 Hb) as (s & -> & _); [lia|lia|]. run. destruct (if_index_try_new i); [|by eexists].
    destruct (match f with Some _ => _ | None => _ end); [by eexists|].
    destruct (message_attrs_total m 12 Hb) as (a & -> & _); [lia|lia|]. run. by eexists.
  - destruct (Z.ltb_spec (len (nm_data m)) 12); [by eexists|]. destruct (get_byte (nm_data m) 0 Hb) as (fa & -> & _); [lia|]. run.
    destruct (get_byte (nm_data m) 1 Hb) as (dl & -> & _); [lia|]. run. destruct (get_byte (nm_data m) 4 Hb) as (ta & -> & _); [lia|]. run.
    destruct (message_attrs_total m 12 Hb) as (a & -> & _); [lia|lia|]. run. by eexists.
  - destruct (Z.ltb_spec (len (nm_data m)) 12); [by eexists|].
    destruct (message_attrs_total m 12 Hb) as (a & -> & _); [lia|lia|]. run. by eexists.
Qed.

(** ** Attributes that were written *)
Definition attrs_bytes (l : list (Z * list Z)) : list Z := concat ((λ a, push_nlattr [] a.1 a.2) <$> l).
Definition attr_ok (a : Z * list Z) : Prop := fits 16 a.1 ∧ bytes_ok a.2 ∧ len a.2 < 65000.

Lemma push_nlattr_app buf t v : push_nlattr buf t v = buf ++ push_nlattr [] t v.
Proof. done. Qed.

Lemma push_nlattr_len t v : len v < 65000 → len (push_nlattr [] t v) = align_to (4 + len v) 4.
Proof.
  intros Hv. pose proof (len_nonneg v). unfold push_nlattr. change NLA_HDR_LEN with 4. rewrite !len_app.
  change (len []) with 0. change (len (le16 (u16 (4 + len v)))) with 2. change (len (le16 t)) with 2.
  pose proof (align4_bounds (4 + len v)). unfold NLA_ALIGNTO. rewrite len_replicate; lia.
Qed.

Lemma push_nlattr_reads t v r : fits 16 t → len v < 65000 →
  read_le16 (push_nlattr [] t v ++ r) 0 = Ret (4 + len v) ∧ read_le16 (push_nlattr [] t v ++ r) 2 = Ret t.
Proof.
  intros Ht Hv. pose proof (len_nonneg v). unfold push_nlattr. change NLA_HDR_LEN with 4. set (n := 4 + len v).
  rewrite (wrap_small 16 n) by (unfold fits; lia). cbn [app le16]. set (r' := (v ++ _) ++ r).
  split; [rewrite <- (le16_value n) at 3 by (unfold fits; lia)|rewrite <- (le16_value t) at 3 by done]; reflexivity.
Qed.

Definition add_attr (m : gmap Z (list Z)) (a : Z * list Z) : gmap Z (list Z) := <[Z.land a.1 NLA_TYPE_MASK := a.2]> m.

Lemma attrs_loop_written l : ∀ pre fuel attrs, Forall attr_ok l → (length l ≤ fuel)%nat → len (pre ++ attrs_bytes l) < 2 ^ 60 →
  attrs_loop fuel (pre ++ attrs_bytes l) (len pre) attrs = Ret (Ok (foldl add_attr attrs l)).
Proof.
  induction l as [|[t v] l IH]; intros pre fuel attrs Hl Hf Hlen.
  { change (attrs_bytes []) with (@nil Z). rewrite app_nil_r. destruct fuel; cbn [attrs_loop]; destruct (Z.ltb_spec (len pre) (len pre)); try lia; done. }
  apply Forall_cons in Hl as [(Ht & Hv & Hvl) Hl]. cbn [fst snd] in *. destruct fuel as [|fuel]; [cbn in Hf; lia|].
  pose proof (len_nonneg v) as Hv0. pose proof (push_nlattr_len t v Hvl) as Hpl. pose proof (align4_bounds (4 + len v)) as Hal.
  specialize (IH (pre ++ push_nlattr [] t v) fuel (add_attr attrs (t, v)) Hl ltac:(cbn in Hf; lia)).
  change (attrs_bytes ((t, v) :: l)) with (push_nlattr [] t v ++ attrs_bytes l) in *. rewrite <- app_assoc in IH. specialize (IH Hlen).
  pose proof Hlen as Hlen'. rewrite !len_app in Hlen'. pose proof (len_nonneg (attrs_bytes l)). pose proof (len_nonneg pre).
  cbn [attrs_loop]. change NLA_HDR_LEN with 4. rewrite !len_app.
  destruct (Z.ltb_spec (len pre) (len pre + (len (push_nlattr [] t v) + len (attrs_bytes l)))); [|lia].
  destruct (Z.ltb_spec (len pre + (len (push_nlattr [] t v) + len (attrs_bytes l)) - len pre) 4); [lia|].
  rewrite <- !len_app, slice_suffix. run. destruct (push_nlattr_reads t v (attrs_bytes l) Ht Hvl) as [-> ->]. run.
  set (n := 4 + len v) in *. set (pad := replicate (Z.to_nat (align_to n NLA_ALIGNTO - n)) 0).
  destruct (Z.ltb_spec n 4); [lia|]. cbn [orb]. rewrite !len_app.
  destruct (Z.ltb_spec (len pre + (len (push_nlattr [] t v) + len (attrs_bytes l))) (len pre + n)); [lia|].
  replace (slice_or_panic (pre ++ push_nlattr [] t v ++ attrs_bytes l) (len pre + 4) (len pre + n)) with (Ret v).
  - run. unfold NLA_ALIGNTO, saturating_add. rewrite Z.min_r by lia. rewrite len_app, Hpl in IH. exact IH.
  - symmetry. replace (pre ++ push_nlattr [] t v ++ attrs_bytes l) with ((pre ++ le16 (u16 n) ++ le16 t) ++ v ++ (pad ++ attrs_bytes l)).
    + replace (len pre + 4) with (len (pre ++ le16 (u16 n) ++ le16 t)) by (rewrite !len_app; done).
      replace (len pre + n) with (len (pre ++ le16 (u16 n) ++ le16 t) + len v) by (rewrite !len_app; unfold n; change (len (le16 (u16 (4 + len v)))) with 2; change (len (le16 t)) with 2; lia).
      apply slice_middle.
    + unfold push_nlattr. change NLA_HDR_LEN with 4. fold n. fold pad. by rewrite <- !app_assoc.
Qed.

(** The value of an attribute type: the last one written. *)
Fixpoint last_attr (l : list (Z * list Z)) (t : Z) : option (list Z) :=
  match l with
  | [] => None
  | (k, v) :: l =>
      match last_attr l t with
      | Some v => Some v
      | None => if Z.land k NLA_TYPE_MASK =? t then Some v else None
      end
  end.

Lemma last_attr_app a b t : last_attr (a ++ b) t = match last_attr b t with Some v => Some v | None => last_attr a t end.
Proof.
  induction a as [|[k v] a IH]; cbn [app last_attr]; [by destruct (last_attr b t)|]. rewrite IH. by destruct (last_attr b t).
Qed.

Lemma foldl_add_attr l m t : foldl add_attr m l !! t = match last_attr l t with Some v => Some v | None => m !! t end.
Proof.
  revert m. induction l as [|[k v] l IH]; intros m; [done|]. cbn [foldl last_attr]. rewrite IH. destruct (last_attr l t); [done|].
  unfold add_attr. cbn [fst snd]. destruct (Z.eqb_spec (Z.land k NLA_TYPE_MASK) t) as [->|]; [by rewrite lookup_insert_eq|by rewrite lookup_insert_ne].
Qed.

(** An entry's fixed part and its attributes. *)
Lemma message_attrs_written h fixed l : Forall attr_ok l → len (attrs_bytes l) < 2 ^ 60 →
  ∃ a, message_attrs (mkMessage h (fixed ++ attrs_bytes l) None) (len fixed) = Ret (Some a) ∧ ∀ t, a !! t = last_attr l t.
Proof.
  intros Hl Hn. unfold message_attrs. cbn [nm_data]. rewrite slice_suffix. run. unfold parse_attrs.
  assert (Hc : (length l ≤ length (attrs_bytes l))%nat).
  { clear Hn. induction Hl as [|[t v] l (_ & _ & Hv) _ IH]; [done|]. change (attrs_bytes ((t, v) :: l)) with (push_nlattr [] t v ++ attrs_bytes l).
    rewrite length_app. pose proof (push_nlattr_len t v Hv) as Hp. pose proof (align4_bounds (4 + len v)) as Ha. pose proof (len_nonneg v).
    cbn [snd] in Hv. unfold len in *. cbn [length]. lia. }
  pose proof (attrs_loop_written l [] (length (attrs_bytes l)) ∅ Hl Hc Hn) as Hw. change (len []) with 0 in Hw. cbn [app] in Hw.
  rewrite Hw. run. eexists. split; [done|]. intros t. rewrite foldl_add_attr. by destruct (last_attr l t).
Qed.
