(* ===== verification/NetlinkSpec.v ===== *)
(** * Well-formed dumps

    The messages a kernel sends, as bytes and as what they mean, and the
    lemmas that reading the bytes gives the meaning back. *)
From S2P Require Import Prelude Bits Core Wire WireProofs Netlink NetlinkProofs.
From Stdlib Require Import Zify.
Open Scope Z_scope.

#[local] Ltac Zify.zify_post_hook ::= Z.div_mod_to_equations.

(** ** Messages *)
Record KernelMessage := mkKernel {
  km_type : Z;
  km_flags : Z;
  km_seq : Z;
  km_pid : Z;
  km_data : list Z;
}.
Definition km_header (m : KernelMessage) : nlmsghdr :=
  mkHdr (16 + len (km_data m)) (km_type m) (km_flags m) (km_seq m) (km_pid m).
Definition km_bytes (m : KernelMessage) : list Z :=
  nlmsghdr_bytes (km_header m) ++ km_data m
    ++ replicate (Z.to_nat (align_to (16 + len (km_data m)) 4 - (16 + len (km_data m)))) 0.
Definition km_message (m : KernelMessage) : NetlinkMessage := mkMessage (km_header m) (km_data m) None.
Definition km_ok (m : KernelMessage) : Prop :=
  fits 16 (km_type m) ∧ fits 16 (km_flags m) ∧ fits 32 (km_seq m) ∧ fits 32 (km_pid m) ∧
  km_type m ≠ NLMSG_ERROR ∧ len (km_data m) < 2 ^ 31.

Lemma km_bytes_len m : km_ok m → len (km_bytes m) = align_to (16 + len (km_data m)) 4.
Proof.
  intros (_ & _ & _ & _ & _ & Hl). pose proof (len_nonneg (km_data m)). pose proof (align4_bounds (16 + len (km_data m))).
  unfold km_bytes. rewrite !len_app, len_replicate by lia. change (len (nlmsghdr_bytes (km_header m))) with 16. lia.
Qed.

Lemma nlmsghdr_roundtrip h r : fits 32 (nlmsg_len h) → fits 16 (nlmsg_type h) → fits 16 (nlmsg_flags h) →
  fits 32 (nlmsg_seq h) → fits 32 (nlmsg_pid h) → read_nlmsghdr (nlmsghdr_bytes h ++ r) = Ret h.
Proof.
  destruct h as [l t f s p]. cbn [nlmsg_len nlmsg_type nlmsg_flags nlmsg_seq nlmsg_pid]. intros Hl Ht Hf Hs Hp.
  rewrite <- (le32_value l Hl) at 2. rewrite <- (le16_value t Ht) at 2. rewrite <- (le16_value f Hf) at 2.
  rewrite <- (le32_value s Hs) at 2. rewrite <- (le32_value p Hp) at 2. reflexivity.
Qed.

Lemma message_read_written m r : km_ok m → message_read (km_bytes m ++ r) = Ret (Ok (km_message m)).
Proof.
  intros Hm. pose proof (km_bytes_len m Hm) as Hkl. destruct Hm as (Ht & Hf & Hs & Hp & Hne & Hl).
  pose proof (len_nonneg (km_data m)). pose proof (align4_bounds (16 + len (km_data m))). pose proof (len_nonneg r).
  unfold message_read, NLMSGHDR_SIZE. rewrite len_app, Hkl.
  destruct (Z.ltb_spec (align_to (16 + len (km_data m)) 4 + len r) 16); [lia|].
  unfold km_bytes. rewrite <- !app_assoc.
  rewrite nlmsghdr_roundtrip by (cbn; unfold fits in *; lia || done). run. cbn [km_header nlmsg_len nlmsg_type].
  destruct (Z.ltb_spec (16 + len (km_data m)) 16); [lia|]. cbn [orb].
  destruct (Z.ltb_spec (align_to (16 + len (km_data m)) 4 + len r) (16 + len (km_data m))); [lia|].
  destruct (Z.eqb_spec (km_type m) NLMSG_ERROR); [done|]. change (align_to 16 NLMSG_ALIGNTO) with 16.
  change 16 with (len (nlmsghdr_bytes (mkHdr (16 + len (km_data m)) (km_type m) (km_flags m) (km_seq m) (km_pid m)))) at 1 2.
  unfold km_header. rewrite slice_middle. done.
Qed.

(** ** Datagrams *)
Definition datagram_bytes (ms : list KernelMessage) : list Z := concat (km_bytes <$> ms).

(** The messages of a dump in a list, and whether it ends there. *)
Fixpoint read_messages (seq : Z) (ms : list KernelMessage) : list NetlinkMessage * bool :=
  match ms with
  | [] => ([], false)
  | m :: ms =>
      if negb (km_seq m =? seq) then read_messages seq ms
      else if km_type m =? NLMSG_DONE then ([], true)
      else let '(l, done) := read_messages seq ms in (km_message m :: l, done)
  end.

Lemma datagram_loop_written seq ms : ∀ pre junk fuel acc, Forall km_ok ms → (length ms ≤ fuel)%nat →
  len (pre ++ datagram_bytes ms) < 2 ^ 60 →
  datagram_loop fuel ((pre ++ datagram_bytes ms) ++ junk) (len (pre ++ datagram_bytes ms)) (len pre) seq acc
  = Ret (let '(l, done) := read_messages seq ms in if done then inr (Ok (acc ++ l)) else inl (acc ++ l)).
Proof.
  induction ms as [|m ms IH]; intros pre junk fuel acc Hms Hf Hlen.
  { change (datagram_bytes []) with (@nil Z). rewrite !app_nil_r. destruct fuel; cbn [datagram_loop read_messages];
      destruct (Z.ltb_spec (len pre) (len pre)); try lia; by rewrite app_nil_r. }
  apply Forall_cons in Hms as [Hm Hms]. destruct fuel as [|fuel]; [cbn in Hf; lia|].
  pose proof (km_bytes_len m Hm) as Hkl. pose proof Hm as (_ & _ & _ & _ & Hne & Hl). pose proof (len_nonneg (km_data m)).
  pose proof (align4_bounds (16 + len (km_data m))) as Hal.
  change (datagram_bytes (m :: ms)) with (km_bytes m ++ datagram_bytes ms) in *.
  assert (IH' : ∀ acc, datagram_loop fuel ((pre ++ km_bytes m ++ datagram_bytes ms) ++ junk) (len (pre ++ km_bytes m ++ datagram_bytes ms))
      (len pre + len (km_bytes m)) seq acc
    = Ret (let '(l, done) := read_messages seq ms in if done then inr (Ok (acc ++ l)) else inl (acc ++ l))).
  { intros acc'. specialize (IH (pre ++ km_bytes m) junk fuel acc' Hms ltac:(cbn in Hf; lia)). rewrite <- app_assoc, (len_app pre (km_bytes m)) in IH.
    by apply IH. }
  cbn [datagram_loop]. pose proof Hlen as Hlen'. rewrite !len_app in Hlen'.
  pose proof (len_nonneg pre). pose proof (len_nonneg (datagram_bytes ms)).
  destruct (Z.ltb_spec (len pre) (len (pre ++ km_bytes m ++ datagram_bytes ms))) as [_|Hge]; [|rewrite !len_app in Hge; lia].
  assert (Hsl : slice_or_panic ((pre ++ km_bytes m ++ datagram_bytes ms) ++ junk) (len pre) (len (pre ++ km_bytes m ++ datagram_bytes ms))
    = Ret (km_bytes m ++ datagram_bytes ms)) by (rewrite <- app_assoc, len_app; apply slice_middle).
  rewrite Hsl. run. rewrite message_read_written by done. run. cbn [nm_header km_message nlmsg_len nlmsg_seq nlmsg_type km_header nm_error].
  unfold NLMSG_ALIGNTO, saturating_add. rewrite <- Hkl, Z.min_r by lia. cbn [read_messages].
  destruct (negb (km_seq m =? seq)); [apply IH'|].
  destruct (km_type m =? NLMSG_DONE); [by rewrite app_nil_r|]. destruct (Z.eqb_spec (km_type m) NLMSG_ERROR); [done|].
  rewrite IH'. destruct (read_messages seq ms) as [l []]; by rewrite <- app_assoc.
Qed.

(** ** Whole dumps *)
Inductive Event := Interrupted | Datagram (ms : list KernelMessage) (junk : list Z).
Definition event_recv (e : Event) : SysRecv :=
  match e with
  | Interrupted => RecvErr EINTR
  | Datagram ms junk => RecvLen (len (datagram_bytes ms)) (datagram_bytes ms ++ junk)
  end.
Definition event_ok (e : Event) : Prop :=
  match e with
  | Interrupted => True
  | Datagram ms _ => ms ≠ [] ∧ Forall km_ok ms ∧ len (datagram_bytes ms) ≤ RECV_BUFFER
  end.
Definition event_messages (e : Event) : list KernelMessage := match e with Interrupted => [] | Datagram ms _ => ms end.

Lemma datagram_bytes_count ms : Forall km_ok ms → 16 * Z.of_nat (length ms) ≤ len (datagram_bytes ms).
Proof.
  induction 1 as [|m ms Hm _ IH]; [done|]. change (datagram_bytes (m :: ms)) with (km_bytes m ++ datagram_bytes ms).
  rewrite len_app, km_bytes_len by done. destruct Hm as (_ & _ & _ & _ & _ & Hl). pose proof (len_nonneg (km_data m)).
  pose proof (align4_bounds (16 + len (km_data m))). cbn [length]. lia.
Qed.

Lemma read_messages_app seq a b : read_messages seq (a ++ b)
  = let '(l, done) := read_messages seq a in
    if done then (l, true) else let '(l', done) := read_messages seq b in (l ++ l', done).
Proof.
  induction a as [|m a IH]; cbn [app read_messages]; [by destruct (read_messages seq b)|].
  destruct (negb _); [done|]. destruct (_ =? NLMSG_DONE); [done|]. rewrite IH.
  destruct (read_messages seq a) as [l []]; [done|]. by destruct (read_messages seq b).
Qed.

Lemma recv_loop_written calls seq evs : ∀ k fuel acc,
  Forall event_ok evs → (∀ i e, evs !! i = Some e → calls (k + Z.of_nat i + 1) = event_recv e) →
  (read_messages seq (evs ≫= event_messages)).2 = true →
  0 ≤ k → k + Z.of_nat (length evs) ≤ MAX_RECV_CALLS → (length evs < fuel)%nat →
  recv_loop fuel calls k seq acc = Ret (Ok (acc ++ (read_messages seq (evs ≫= event_messages)).1)).
Proof.
  induction evs as [|e evs IH]; intros k fuel acc Hok Hcalls Hdone Hk Hmax Hfuel; [done|].
  apply Forall_cons in Hok as [He Hok]. destruct fuel as [|fuel]; [cbn in Hfuel; lia|]. cbn [recv_loop length] in *.
  destruct (Z.ltb_spec MAX_RECV_CALLS (k + 1)); [lia|].
  pose proof (Hcalls 0%nat e eq_refl) as H0. rewrite Z.add_0_r in H0. rewrite H0.
  assert (Hnext : ∀ i e, evs !! i = Some e → calls (k + 1 + Z.of_nat i + 1) = event_recv e).
  { intros i e' Hi. rewrite <- (Hcalls (S i) e' Hi). f_equal. lia. }
  rewrite bind_cons in Hdone |- *. rewrite read_messages_app in Hdone |- *.
  destruct e as [|ms junk]; cbn [event_recv event_messages] in *.
  - change (EINTR =? EINTR) with true. cbn iota. cbn [read_messages] in *.
    rewrite (IH (k + 1) fuel acc Hok Hnext); [| |lia|lia|lia]; by destruct (read_messages seq (evs ≫= event_messages)).
  - destruct He as (Hne & Hms & Hlen). pose proof (datagram_bytes_count ms Hms) as Hcount.
    assert (0 < Z.of_nat (length ms)) by (destruct ms; [done|cbn; lia]).
    destruct (Z.eqb_spec (len (datagram_bytes ms)) 0); [lia|]. destruct (Z.ltb_spec RECV_BUFFER (len (datagram_bytes ms))); [lia|].
    pose proof (datagram_loop_written seq ms [] junk (Z.to_nat (len (datagram_bytes ms))) acc Hms ltac:(lia)) as Hd.
    cbn [app] in Hd. change (len []) with 0 in Hd. rewrite Hd by (unfold RECV_BUFFER in *; lia). run.
    destruct (read_messages seq ms) as [l []]; [done|]. destruct (read_messages seq (evs ≫= event_messages)) as [l' d] eqn:Hr.
    cbn [fst snd] in *. rewrite (IH (k + 1) fuel (acc ++ l) Hok Hnext); [by rewrite <- app_assoc|done|lia|lia|lia].
Qed.

(** The messages [encs] of one dump, among others, up to its terminator. *)
Definition dump_of (seq : Z) (encs ms : list KernelMessage) : Prop :=
  ∃ pre fin post, ms = pre ++ fin :: post ∧ km_seq fin = seq ∧ km_type fin = NLMSG_DONE ∧
    filter (λ m, km_seq m = seq) pre = encs ∧ Forall (λ m, km_type m ≠ NLMSG_DONE) encs.

Lemma read_messages_dump seq encs ms : dump_of seq encs ms → read_messages seq ms = (km_message <$> encs, true).
Proof.
  intros (pre & fin & post & -> & Hs & Ht & Hf & Hd). rewrite read_messages_app. cbn [read_messages].
  rewrite Hs, Z.eqb_refl, Ht. cbn [negb]. change (NLMSG_DONE =? NLMSG_DONE) with true. cbn iota.
  assert (Hpre : read_messages seq pre = (km_message <$> encs, false)); [|by rewrite Hpre, app_nil_r].
  clear Hs Ht post fin. subst encs. induction pre as [|m pre IH]; [done|]. cbn [read_messages]. rewrite filter_cons in Hd |- *.
  destruct (Z.eqb_spec (km_seq m) seq); cbn [negb]; (destruct (decide (km_seq m = seq)); [|try done]); try done.
  - apply Forall_cons in Hd as [Hne Hd]. destruct (Z.eqb_spec (km_type m) NLMSG_DONE); [done|]. by rewrite IH.
  - by apply IH.
Qed.

(** A session that answers its one request with a dump. *)
Definition answers (s : Session) (encs : list KernelMessage) : Prop :=
  ss_open s = Ok tt ∧ (∀ request, ss_send s request = Ok tt) ∧
  ∃ evs, Forall event_ok evs ∧ Z.of_nat (length evs) ≤ MAX_RECV_CALLS ∧
    (∀ i e, evs !! i = Some e → ss_recv s (Z.of_nat i + 1) = event_recv e) ∧ dump_of 1 encs (evs ≫= event_messages).

Lemma exchange_answers s encs request : answers s encs → exchange s request = Ret (Ok (km_message <$> encs)).
Proof.
  intros (Ho & Hs & evs & Hev & Hn & Hr & Hd). unfold exchange. rewrite Ho, Hs. apply read_messages_dump in Hd.
  unfold netlink_recv. rewrite (recv_loop_written _ 1 evs 0); [by rewrite Hd|done| |by rewrite Hd|lia|lia|unfold MAX_RECV_CALLS in *; lia].
  intros i e He. rewrite <- (Hr i e He). f_equal.
Qed.

Lemma dump_answers {A} s encs request f (l : list A) : answers s encs →
  Forall2 (λ m x, f (km_message m) = Ret (Some x)) encs l → dump s request f = Ret (Ok l).
Proof.
  intros Ha Hf. unfold dump. rewrite (exchange_answers s encs) by done. run.
  assert (Hc : collect f (km_message <$> encs) = Ret l); [|by rewrite Hc]. clear Ha.
  induction Hf as [|m x encs l Hm _ IH]; [done|]. cbn [fmap list_fmap collect]. rewrite Hm. run. change (list_fmap _ _ km_message encs) with (km_message <$> encs).
  rewrite IH. done.
Qed.

(** ** Table entries *)
Definition addr_bytes (a : NlAddr) : list Z := match a with NlV4 x => ipv4_octets x | NlV6 o => o end.
Definition addr_ok (family : Z) (a : NlAddr) : Prop :=
  match a with
  | NlV4 x => family = AF_INET ∧ fits 32 x
  | NlV6 o => family = AF_INET6 ∧ bytes_ok o ∧ len o = 16
  end.
Definition opt_ok {A} (P : A → Prop) (o : option A) : Prop := match o with Some x => P x | None => True end.

Definition opt_attr {A} (t : Z) (f : A → list Z) (o : option A) : list (Z * list Z) :=
  match o with Some x => [(t, f x)] | None => [] end.

Lemma addr_roundtrip family a : addr_ok family a → parse_ip_address (addr_bytes a) family = Some a.
Proof.
  destruct a as [x|o]; cbn [addr_ok addr_bytes].
  - intros [-> Hx]. rewrite ipv4_octets_div. cbn. by rewrite ipv4_roundtrip.
  - intros (-> & _ & Hl). destruct o as [|a [|b [|c [|d [|e o]]]]]; try (unfold len in Hl; cbn in Hl; lia).
    cbn [parse_ip_address]. rewrite Hl. done.
Qed.
Lemma addr_bytes_ok family t a : addr_ok family a → fits 16 t → attr_ok (t, addr_bytes a).
Proof.
  destruct a as [x|o]; cbn [addr_ok addr_bytes].
  - intros [-> Hx] Ht. split; [done|]. rewrite ipv4_octets_div. cbn [fst snd]. split; [|done]. repeat constructor; unfold fits; lia.
  - intros (-> & Hb & Hl) Ht. split; [done|]. cbn [fst snd]. split; [done|lia].
Qed.
Lemma u32_roundtrip x : fits 32 x → read_u32_ne (le32 x) = Some x.
Proof. intros Hx. cbn. by rewrite le32_value. Qed.
Lemma u32_attr_ok t x : fits 16 t → attr_ok (t, le32 x).
Proof. intros Ht. split; [done|]. split; [apply le32_bytes|done]. Qed.
Lemma index_roundtrip x : fits 32 x → x ≠ 0 → read_index (le32 x) = Some x.
Proof. intros Hx Hn. unfold read_index. rewrite u32_roundtrip by done. unfold if_index_try_new. by destruct (Z.eqb_spec x 0). Qed.
Lemma mac_roundtrip m : len m = 6 → read_mac m = Some m.
Proof. intros Hm. unfold read_mac, slice. rewrite Hm. cbn. f_equal. apply take_ge. unfold len in Hm. lia. Qed.

(** Attributes the parsers do not read. *)
Definition extra_ok (used : list Z) (extra : list (Z * list Z)) : Prop :=
  Forall attr_ok extra ∧ Forall (λ t, last_attr extra t = None) used.

Lemma opt_attr_ok {A} t (f : A → list Z) o : opt_ok (λ x, attr_ok (t, f x)) o → Forall attr_ok (opt_attr t f o).
Proof. destruct o; cbn; [by apply Forall_singleton|by constructor]. Qed.

(** *** Routes *)
Definition route_attrs (r : RouteEntry) : list (Z * list Z) :=
  opt_attr RTA_DST addr_bytes (re_destination r) ++ opt_attr RTA_GATEWAY addr_bytes (re_gateway r) ++
  opt_attr RTA_OIF le32 (re_out_ifindex r) ++ opt_attr RTA_PRIORITY le32 (re_priority r) ++ opt_attr RTA_TABLE le32 (re_table r).
Definition route_data (r : RouteEntry) (table8 : Z) (extra : list (Z * list Z)) : list Z :=
  [re_family r; re_dst_len r; 0; 0; table8; 0; 0; 0; 0; 0; 0; 0] ++ attrs_bytes (route_attrs r ++ extra).
Definition route_entry_ok (r : RouteEntry) : Prop :=
  opt_ok (addr_ok (re_family r)) (re_destination r) ∧ opt_ok (addr_ok (re_family r)) (re_gateway r) ∧
  opt_ok (λ x, fits 32 x ∧ x ≠ 0) (re_out_ifindex r) ∧ opt_ok (fits 32) (re_priority r) ∧
  opt_ok (fits 32) (re_table r) ∧ is_Some (re_table r) ∧ fits 8 (re_dst_len r).
Definition route_types : list Z := [RTA_DST; RTA_GATEWAY; RTA_OIF; RTA_PRIORITY; RTA_TABLE].

Lemma route_attrs_ok r : route_entry_ok r → Forall attr_ok (route_attrs r).
Proof.
  intros (Hd & Hg & Ho & Hp & Ht & _ & _). unfold route_attrs. rewrite !Forall_app. split_and!; apply opt_attr_ok.
  - destruct (re_destination r); [|done]. by apply (addr_bytes_ok (re_family r)).
  - destruct (re_gateway r); [|done]. by apply (addr_bytes_ok (re_family r)).
  - destruct (re_out_ifindex r); [|done]. by apply u32_attr_ok.
  - destruct (re_priority r); [|done]. by apply u32_attr_ok.
  - destruct (re_table r); [|done]. by apply u32_attr_ok.
Qed.

Lemma parse_route_written h r table8 extra : route_entry_ok r → extra_ok route_types extra →
  len (attrs_bytes (route_attrs r ++ extra)) < 2 ^ 60 →
  parse_route (mkMessage h (route_data r table8 extra) None) = Ret (Some r) ∧
  route_table_from_attr (mkMessage h (route_data r table8 extra) None) = Ret true.
Proof.
  intros Hr [He Hex] Hlen. pose proof (route_attrs_ok r Hr) as Hra.
  destruct (message_attrs_written h [re_family r; re_dst_len r; 0; 0; table8; 0; 0; 0; 0; 0; 0; 0] (route_attrs r ++ extra))
    as (a & Ha & Hlook); [by apply Forall_app|done|].
  unfold parse_route, route_table_from_attr. cbn [nm_data]. fold (route_data r table8 extra) in Ha.
  change (len [re_family r; re_dst_len r; 0; 0; table8; 0; 0; 0; 0; 0; 0; 0]) with RTMSG_SIZE in Ha.
  assert (Hl : RTMSG_SIZE ≤ len (route_data r table8 extra)).
  { unfold route_data. rewrite len_app. pose proof (len_nonneg (attrs_bytes (route_attrs r ++ extra))). change (len [_; _; _; _; _; _; _; _; _; _; _; _]) with 12. unfold RTMSG_SIZE. lia. }
  destruct (Z.ltb_spec (len (route_data r table8 extra)) RTMSG_SIZE); [lia|].
  change (get_unchecked (route_data r table8 extra) 0) with (Ret (re_family r)).
  change (get_unchecked (route_data r table8 extra) 1) with (Ret (re_dst_len r)).
  change (get_unchecked (route_data r table8 extra) 4) with (Ret table8). run. rewrite Ha. run.
  unfold attr. rewrite !Hlook, !last_attr_app.
  unfold route_types in Hex. repeat (apply Forall_cons in Hex as [-> Hex]).
  destruct Hr as (Hd & Hg & Ho & Hp & Ht & [t Htab] & _). destruct r as [dst gw oif prio tab fam dl].
  cbn [re_destination re_gateway re_out_ifindex re_priority re_table re_family re_dst_len route_attrs] in *. subst tab. cbn in Ht.
  unfold route_attrs. cbn [re_destination re_gateway re_out_ifindex re_priority re_table]. rewrite !last_attr_app.
  split; [|destruct dst, gw, oif, prio; reflexivity]. do 2 f_equal. f_equal.
  - destruct dst as [d|], gw, oif, prio; cbn -[parse_ip_address addr_bytes le32]; try done; by apply addr_roundtrip.
  - destruct dst, gw as [g|], oif, prio; cbn -[parse_ip_address addr_bytes le32]; try done; by apply addr_roundtrip.
  - destruct dst, gw, oif as [o|], prio; cbn -[read_index addr_bytes le32]; try done; by apply index_roundtrip; apply Ho.
  - destruct dst, gw, oif, prio as [p|]; cbn -[read_u32_ne addr_bytes le32]; try done; by apply u32_roundtrip.
  - destruct dst, gw, oif, prio;
      exact (f_equal (λ o, match o with Some t => Some t | None => Some table8 end) (u32_roundtrip t Ht)).
Qed.

(** *** Links and neighbours *)
Definition mac_ok (m : list Z) : Prop := bytes_ok m ∧ len m = 6.
Lemma mac_attr_ok t m : mac_ok m → fits 16 t → attr_ok (t, m).
Proof. intros [Hb Hl] Ht. split; [done|]. split; [done|]. cbn [snd]. lia. Qed.

Definition link_attrs (l : LinkEntry) : list (Z * list Z) :=
  opt_attr IFLA_ADDRESS (λ m, m) (le_mac l) ++ opt_attr IFLA_MTU le32 (le_mtu l) ++ opt_attr IFLA_MASTER le32 (le_master_ifindex l).
Definition link_data (l : LinkEntry) (head tail : list Z) (extra : list (Z * list Z)) : list Z :=
  (head ++ le32 (le_ifindex l) ++ tail) ++ attrs_bytes (link_attrs l ++ extra).
Definition link_entry_ok (l : LinkEntry) : Prop :=
  fits 32 (le_ifindex l) ∧ le_ifindex l ≠ 0 ∧ opt_ok mac_ok (le_mac l) ∧ opt_ok (fits 32) (le_mtu l) ∧
  opt_ok (λ x, fits 32 x ∧ x ≠ 0) (le_master_ifindex l).
Definition link_types : list Z := [IFLA_ADDRESS; IFLA_MTU; IFLA_MASTER].

Lemma link_attrs_ok l : link_entry_ok l → Forall attr_ok (link_attrs l).
Proof.
  intros (_ & _ & Ha & Hm & Hi). unfold link_attrs. rewrite !Forall_app. split_and!; apply opt_attr_ok.
  - destruct (le_mac l); [|done]. by apply mac_attr_ok.
  - destruct (le_mtu l); [|done]. by apply u32_attr_ok.
  - destruct (le_master_ifindex l); [|done]. by apply u32_attr_ok.
Qed.

Lemma parse_link_written h l head tail extra : link_entry_ok l → length head = 4%nat → length tail = 8%nat →
  extra_ok link_types extra → len (attrs_bytes (link_attrs l ++ extra)) < 2 ^ 60 →
  parse_link (mkMessage h (link_data l head tail extra) None) = Ret (Some l).
Proof.
  intros Hl Hh Ht [He Hex] Hlen. pose proof (link_attrs_ok l Hl) as Hla.
  destruct head as [|h0 [|h1 [|h2 [|h3 [|]]]]]; try (cbn in Hh; lia).
  destruct tail as [|t0 [|t1 [|t2 [|t3 [|t4 [|t5 [|t6 [|t7 [|]]]]]]]]]; try (cbn in Ht; lia).
  destruct (message_attrs_written h ([h0; h1; h2; h3] ++ le32 (le_ifindex l) ++ [t0; t1; t2; t3; t4; t5; t6; t7]) (link_attrs l ++ extra))
    as (a & Ha & Hlook); [by apply Forall_app|done|]. fold (link_data l [h0; h1; h2; h3] [t0; t1; t2; t3; t4; t5; t6; t7] extra) in Ha.
  set (data := link_data _ _ _ _) in *. unfold parse_link. cbn [nm_data].
  change (len ([h0; h1; h2; h3] ++ le32 (le_ifindex l) ++ [t0; t1; t2; t3; t4; t5; t6; t7])) with IFINFOMSG_SIZE in Ha.
  assert (Hd : IFINFOMSG_SIZE ≤ len data).
  { unfold data, link_data. rewrite len_app. pose proof (len_nonneg (attrs_bytes (link_attrs l ++ extra))). change (len (_ ++ _ ++ _)) with IFINFOMSG_SIZE. lia. }
  destruct (Z.ltb_spec (len data) IFINFOMSG_SIZE); [lia|]. destruct Hl as (Hi & Hi0 & Hmac & Hmtu & Hmas).
  assert (Hidx : read_le32 data 4 = Ret (le_ifindex l)) by (rewrite <- (le32_value _ Hi) at 1; reflexivity).
  rewrite Hidx. run. rewrite Ha. run. unfold attr. rewrite !Hlook, !last_attr_app. clear Hidx Ha Hlook Hd.
  unfold link_types in Hex. repeat (apply Forall_cons in Hex as [-> Hex]).
  unfold if_index_try_new at 1. destruct (Z.eqb_spec (le_ifindex l) 0); [done|]. destruct l as [i master mac mtu].
  cbn [le_ifindex le_master_ifindex le_mac le_mtu] in *. unfold link_attrs. cbn [le_master_ifindex le_mac le_mtu]. rewrite !last_attr_app.
  do 2 f_equal. f_equal.
  - destruct mac, mtu, master as [m|]; cbn -[read_index le32]; try done; apply index_roundtrip; apply Hmas.
  - destruct mac as [m|], mtu, master; cbn -[read_mac le32]; try done; apply mac_roundtrip, Hmac.
  - destruct mac, mtu as [m|], master; cbn -[read_u32_ne le32]; try done; by apply u32_roundtrip.
Qed.

Definition neighbor_attrs (n : NeighborEntry) : list (Z * list Z) :=
  opt_attr NDA_DST addr_bytes (ne_destination n) ++ opt_attr NDA_LLADDR (λ m, m) (ne_lladdr n).
Definition neighbor_data (n : NeighborEntry) (family : Z) (pad tail : list Z) (extra : list (Z * list Z)) : list Z :=
  (family :: pad ++ le32 (ne_ifindex n) ++ le16 (ne_state n) ++ tail) ++ attrs_bytes (neighbor_attrs n ++ extra).
Definition neighbor_entry_ok (family : Z) (n : NeighborEntry) : Prop :=
  fits 32 (ne_ifindex n) ∧ ne_ifindex n ≠ 0 ∧ fits 16 (ne_state n) ∧ opt_ok (addr_ok family) (ne_destination n) ∧ opt_ok mac_ok (ne_lladdr n).
Definition neighbor_types : list Z := [NDA_DST; NDA_LLADDR].

Lemma neighbor_attrs_ok family n : neighbor_entry_ok family n → Forall attr_ok (neighbor_attrs n).
Proof.
  intros (_ & _ & _ & Hd & Hm). unfold neighbor_attrs. rewrite !Forall_app. split_and!; apply opt_attr_ok.
  - destruct (ne_destination n); [|done]. by apply (addr_bytes_ok family).
  - destruct (ne_lladdr n); [|done]. by apply mac_attr_ok.
Qed.

Lemma parse_neighbor_written h family n pad tail extra : neighbor_entry_ok family n → length pad = 3%nat → length tail = 2%nat →
  extra_ok neighbor_types extra → len (attrs_bytes (neighbor_attrs n ++ extra)) < 2 ^ 60 →
  parse_neighbor (mkMessage h (neighbor_data n family pad tail extra) None) None = Ret (Some n).
Proof.
  intros Hn Hp Ht [He Hex] Hlen. pose proof (neighbor_attrs_ok family n Hn) as Hna.
  destruct pad as [|p0 [|p1 [|p2 [|]]]]; try (cbn in Hp; lia). destruct tail as [|t0 [|t1 [|]]]; try (cbn in Ht; lia).
  destruct (message_attrs_written h (family :: [p0; p1; p2] ++ le32 (ne_ifindex n) ++ le16 (ne_state n) ++ [t0; t1]) (neighbor_attrs n ++ extra))
    as (a & Ha & Hlook); [by apply Forall_app|done|]. fold (neighbor_data n family [p0; p1; p2] [t0; t1] extra) in Ha.
  set (data := neighbor_data _ _ _ _ _) in *. unfold parse_neighbor. cbn [nm_data].
  change (len (family :: [p0; p1; p2] ++ le32 (ne_ifindex n) ++ le16 (ne_state n) ++ [t0; t1])) with NDMSG_SIZE in Ha.
  assert (Hd : NDMSG_SIZE ≤ len data).
  { unfold data, neighbor_data. rewrite len_app. pose proof (len_nonneg (attrs_bytes (neighbor_attrs n ++ extra))). change (len (_ :: _ ++ _)) with NDMSG_SIZE. lia. }
  destruct (Z.ltb_spec (len data) NDMSG_SIZE); [lia|]. destruct Hn as (Hi & Hi0 & Hs & Hdst & Hmac).
  change (get_unchecked data 0) with (Ret family).
  assert (Hidx : read_le32 data 4 = Ret (ne_ifindex n)) by (rewrite <- (le32_value _ Hi) at 1; reflexivity).
  assert (Hst : read_le16 data 8 = Ret (ne_state n)) by (rewrite <- (le16_value _ Hs) at 1; reflexivity).
  run. rewrite Hidx. run. rewrite Hst. run. unfold if_index_try_new. destruct (Z.eqb_spec (ne_ifindex n) 0); [done|].
  rewrite Ha. run. unfold attr. rewrite !Hlook, !last_attr_app. clear Hidx Hst Ha Hlook Hd.
  unfold neighbor_types in Hex. repeat (apply Forall_cons in Hex as [-> Hex]). destruct n as [dst mac i st].
  cbn [ne_destination ne_lladdr ne_ifindex ne_state] in *. unfold neighbor_attrs. cbn [ne_destination ne_lladdr]. rewrite !last_attr_app.
  do 2 f_equal. f_equal.
  - destruct dst as [d|], mac; cbn -[parse_ip_address addr_bytes]; try done; by apply addr_roundtrip.
  - destruct dst, mac as [m|]; cbn -[read_mac addr_bytes]; try done; apply mac_roundtrip, Hmac.
Qed.
