(* ===== verification/Snapshot.v ===== *)
(** * Route snapshots from the kernel: [route.rs] and [route_monitor.rs]

    The construction of a snapshot from the three netlink dumps, and the
    monitor that hands the latest snapshot to every queue. *)
From S2P Require Import Prelude Bits Core Wire XdpUdp Route Netlink.
Open Scope Z_scope.

(** ** [build_netlink_snapshot] *)
Definition link_interface (queue : Z) (l : LinkEntry) : option InterfaceInfo :=
  match le_mac l with
  | Some mac => Some (mkInterface (le_ifindex l) (le_master_ifindex l) mac (default 1500 (le_mtu l)) queue)
  | None => None
  end.

Fixpoint upsert_links (s : RouteSnapshot) (queue : Z) (links : list LinkEntry) : outcome RouteSnapshot :=
  match links with
  | [] => Ret s
  | link :: links =>
      s ← match link_interface queue link with Some i => upsert_interface s i | None => Ret s end;
      upsert_links s queue links
  end.

(** The closure of [filter_map]. *)
Definition entry_route (route : RouteEntry) : option Ipv4Route :=
  match re_out_ifindex route with
  | None => None
  | Some ifindex =>
      match re_destination route with
      | Some (NlV6 _) => None
      | destination =>
          let destination := match destination with Some (NlV4 d) => d | _ => IPV4_UNSPECIFIED end in
          match re_gateway route with
          | Some (NlV6 _) => None
          | gateway =>
              let gateway := match gateway with Some (NlV4 g) => Some g | _ => None end in
              Some (mkRoute destination (Z.min (re_dst_len route) 32) ifindex gateway
                      (default U32_MAX (re_priority route)) U32_MAX)
          end
      end
  end.

Fixpoint upsert_neighbors (s : RouteSnapshot) (neighbors : list NeighborEntry) : outcome RouteSnapshot :=
  match neighbors with
  | [] => Ret s
  | n :: neighbors =>
      s ← match ne_destination n, ne_lladdr n with
          | Some (NlV4 ip), Some mac => upsert_neighbor_v4 s (ne_ifindex n) ip mac
          | _, _ => Ret s
          end;
      upsert_neighbors s neighbors
  end.

Definition AF_UNSPEC : Z := 0.
Definition RT_TABLE_MAIN : Z := 254.

(** One session per dump. *)
Definition build_netlink_snapshot (link_session route_session neighbor_session : Session) (queue table : Z) :
    outcome (result RouteSnapshot NetlinkError) :=
  links ← netlink_get_links link_session AF_UNSPEC;
  match links with
  | Err e => Ret (Err e)
  | Ok links =>
      s ← upsert_links snapshot_new queue links;
      routes ← netlink_get_routes route_session AF_INET table;
      match routes with
      | Err e => Ret (Err e)
      | Ok routes =>
          s ← upsert_routes_v4 s (omap entry_route routes);
          neighbors ← netlink_get_neighbors neighbor_session None AF_INET;
          match neighbors with
          | Err e => Ret (Err e)
          | Ok neighbors => s ← upsert_neighbors s neighbors; Ret (Ok s)
          end
      end
  end.

Definition from_netlink_table (link_session route_session neighbor_session : Session) (table : Z) :
    outcome (result RouteSnapshot NetlinkError) :=
  build_netlink_snapshot link_session route_session neighbor_session 0 table.
Definition from_netlink (link_session route_session neighbor_session : Session) :
    outcome (result RouteSnapshot NetlinkError) :=
  from_netlink_table link_session route_session neighbor_session RT_TABLE_MAIN.

(** ** The route monitor *)
Record VersionedSnapshot := mkVersioned {
  vs_generation : Z;
  vs_snapshot : RouteSnapshot;
}.
(** The shared slot, the generation counter, and the number of handles that
    share the slot. *)
Record XdpRouteMonitor := mkMonitor {
  mo_shared : option VersionedSnapshot;
  mo_next_generation : Z;
  mo_handles : Z;
}.
Definition monitor_new : XdpRouteMonitor := mkMonitor None 0 0.

(** [XdpRouteMonitorHandle]: the generation it saw last. *)
Definition register_queue (m : XdpRouteMonitor) : XdpRouteMonitor * Z :=
  (mkMonitor (mo_shared m) (mo_next_generation m) (mo_handles m + 1), 0).

(** The two atomic steps of [publish]: the generation, then the store. *)
Definition publish_reserve (m : XdpRouteMonitor) : outcome (XdpRouteMonitor * Z) :=
  if mo_next_generation m =? U64_MAX then Panic
  else Ret (mkMonitor (mo_shared m) (mo_next_generation m + 1) (mo_handles m), mo_next_generation m + 1).
Definition publish_store (m : XdpRouteMonitor) (generation : Z) (snapshot : RouteSnapshot) : XdpRouteMonitor :=
  mkMonitor (Some (mkVersioned generation snapshot)) (mo_next_generation m) (mo_handles m).
Definition publish (m : XdpRouteMonitor) (snapshot : RouteSnapshot) : outcome (XdpRouteMonitor * Z) :=
  '(m, generation) ← publish_reserve m;
  Ret (publish_store m generation snapshot, mo_handles m).

(** [XdpRouteMonitorHandle::apply_updates]. *)
Definition handle_apply_updates (shared : option VersionedSnapshot) (last_seen : Z) (routes : XdpLocalRoutes) :
    Z * XdpLocalRoutes * Z :=
  match shared with
  | None => (last_seen, routes, 0)
  | Some versioned =>
      if last_seen =? vs_generation versioned then (last_seen, routes, 0)
      else
        let '(routes, applied) := apply_updates (push_update routes (vs_snapshot versioned)) in
        (vs_generation versioned, routes, applied)
  end.

(** [start_netlink]: one round of the thread's loop, between two sleeps. The
    count printed with the error, if it is logged, comes last. *)
Definition monitor_round (m : XdpRouteMonitor) (consecutive_failures : Z) (answer : result RouteSnapshot NetlinkError) :
    outcome (XdpRouteMonitor * Z * option Z) :=
  match answer with
  | Ok snapshot => '(m, _) ← publish m snapshot; Ret (m, 0, None)
  | Err _ =>
      let next := Z.min U32_MAX (consecutive_failures + 1) in
      let logged := is_power_of_two consecutive_failures || (consecutive_failures =? 0) in
      Ret (m, next, if logged then Some next else None)
  end.
(** The rounds of the thread, by what each [from_netlink] answered. *)
Fixpoint monitor_rounds (m : XdpRouteMonitor) (consecutive_failures : Z) (answers : list (result RouteSnapshot NetlinkError)) :
    outcome (XdpRouteMonitor * Z * list (option Z)) :=
  match answers with
  | [] => Ret (m, consecutive_failures, [])
  | answer :: answers =>
      '(m, consecutive_failures, log) ← monitor_round m consecutive_failures answer;
      '(m, consecutive_failures, logs) ← monitor_rounds m consecutive_failures answers;
      Ret (m, consecutive_failures, log :: logs)
  end.
Definition start_netlink (m : XdpRouteMonitor) (answers : list (result RouteSnapshot NetlinkError)) :
    outcome (XdpRouteMonitor * Z * list (option Z)) := monitor_rounds m 0 answers.
