(* ===== verification/NetlinkMain.v ===== *)
(** * Properties of netlink, of the snapshots built from it, and of the monitor *)
From S2P Require Import Prelude Bits Core Wire WireProofs XdpUdp Poptrie PoptrieEmit Route RouteProofs RouteMain.
From S2P Require Import Netlink NetlinkProofs NetlinkSpec Snapshot.
Open Scope Z_scope.

(** ** Any kernel *)

(** An operation on a session ends with a value, or with the panic of negating
    the smallest error number, which some datagram then holds. *)
Definition ends {A} (s : Session) (o : outcome A) : Prop :=
  (∃ r, o = Ret r) ∨
  (o = Panic ∧ ∃ k n buf off, ss_recv s k = RecvLen n buf ∧ read_le32 buf off = Ret 2147483648).

Lemma collect_total {A} (f : NetlinkMessage → outcome (option A)) ms :
  (∀ m, message_ok m → ∃ r, f m = Ret r) → Forall message_ok ms → ∃ l, collect f ms = Ret l.
Proof.
  intros Hf. induction 1 as [|m ms Hm _ [l IH]]; cbn [collect]; [by eexists|].
  destruct (Hf m Hm) as [r ->]. run. rewrite IH. run. by eexists.
Qed.

Lemma dump_ends {A} s request (f : NetlinkMessage → outcome (option A)) :
  recv_ok (ss_recv s) → (∀ m, message_ok m → ∃ r, f m = Ret r) → ends s (dump s request f).
Proof.
  intros Hs Hf. unfold dump, exchange, ends. destruct (ss_open s) as [[]|e]; [|left; by eexists].
  destruct (ss_send s request) as [[]|e]; [|left; by eexists]. unfold netlink_recv.
  destruct (recv_loop_total (ss_recv s) 1 (Z.to_nat (MAX_RECV_CALLS + 1)) Hs 0 []) as [[-> Hb]|(r & -> & Hr)];
    [unfold MAX_RECV_CALLS; lia|unfold MAX_RECV_CALLS; lia|constructor|right; split; [done|exact Hb]|]. run.
  destruct r as [ms|e]; [|left; by eexists]. destruct (collect_total f ms Hf Hr) as [l ->]. left. by eexists.
Qed.

Lemma message_parse_total m f : message_ok m →
  (∃ r, parse_link m = Ret r) ∧ (∃ r, parse_neighbor m f = Ret r) ∧ (∃ r, parse_route m = Ret r) ∧ ∃ b, route_table_from_attr m = Ret b.
Proof. intros [Hb Hl]. apply parse_total; [done|]. unfold RECV_BUFFER in Hl. lia. Qed.

(** C29. A netlink dump always ends and is memory-safe: whatever the kernel
    answers, each of the three dumps returns a table or an error after at most
    2^20 receptions, without reading outside a message; the only other end is
    the arithmetic panic of negating an error number of -2^31. *)
Theorem netlink_dump_total (s : Session) (ifindex : option Z) (family table : Z) :
  recv_ok (ss_recv s) →
  ends s (netlink_get_links s family) ∧ ends s (netlink_get_neighbors s ifindex family) ∧
  ends s (netlink_get_routes s family table).
Proof.
  intros Hs. split_and!.
  - apply dump_ends; [done|]. intros m Hm. destruct (_ =? _); [by apply (message_parse_total m None)|by eexists].
  - apply dump_ends; [done|]. intros m Hm. destruct (_ =? _); [by apply message_parse_total|by eexists].
  - unfold netlink_get_routes. destruct (ss_open s) as [[]|e]; [|left; by eexists].
    destruct (route_request family table) as [request|e]; [|left; by eexists]. apply dump_ends; [done|].
    intros m Hm. destruct (message_parse_total m None Hm) as (_ & _ & [r Hr] & [b Hb]). unfold select_route.
    destruct (negb _); [by eexists|]. rewrite Hr. run. destruct r as [r|]; [|by eexists].
    destruct (255 <? table); [rewrite Hb|]; run; by eexists.
Qed.

(** ** A kernel that answers *)
Definition encodes_link (m : KernelMessage) (l : LinkEntry) : Prop :=
  link_entry_ok l ∧ ∃ flags pid head tail extra, m = mkKernel RTM_NEWLINK flags 1 pid (link_data l head tail extra) ∧
    length head = 4%nat ∧ length tail = 8%nat ∧ extra_ok link_types extra ∧ len (attrs_bytes (link_attrs l ++ extra)) < 2 ^ 31.
Definition encodes_route (table : Z) (m : KernelMessage) (r : RouteEntry) : Prop :=
  route_entry_ok r ∧ re_table r = Some table ∧ ∃ flags pid table8 extra,
    m = mkKernel RTM_NEWROUTE flags 1 pid (route_data r table8 extra) ∧
    extra_ok route_types extra ∧ len (attrs_bytes (route_attrs r ++ extra)) < 2 ^ 31.
Definition encodes_neighbor (m : KernelMessage) (n : NeighborEntry) : Prop :=
  neighbor_entry_ok AF_INET n ∧ ∃ flags pid pad tail extra,
    m = mkKernel RTM_NEWNEIGH flags 1 pid (neighbor_data n AF_INET pad tail extra) ∧
    length pad = 3%nat ∧ length tail = 2%nat ∧ extra_ok neighbor_types extra ∧ len (attrs_bytes (neighbor_attrs n ++ extra)) < 2 ^ 31.

Lemma get_links_ok s family encs links : answers s encs → Forall2 encodes_link encs links →
  netlink_get_links s family = Ret (Ok links).
Proof.
  intros Ha Hf. apply (dump_answers s encs); [done|]. eapply Forall2_impl; [exact Hf|].
  intros m l (Hl & flags & pid & head & tail & extra & -> & Hh & Ht & He & Hn). cbn -[parse_link]. apply parse_link_written; try done. lia.
Qed.
Lemma get_routes_ok s encs routes family table : answers s encs → Forall2 (encodes_route table) encs routes → fits 8 family → fits 32 table →
  netlink_get_routes s family table = Ret (Ok routes).
Proof.
  intros Ha Hf Hfam Ht. unfold netlink_get_routes. pose proof Ha as (-> & _). change (route_request family table) with (Ok (E := NetlinkError) (write_at (push_nlattr (nlmsghdr_bytes (mkHdr (NLMSGHDR_SIZE + RTMSG_SIZE) RTM_GETROUTE DUMP_FLAGS 1 0) ++ family :: replicate 11 0) RTA_TABLE (le32 table)) 0 (le32 36))).
  apply (dump_answers s encs); [done|]. eapply Forall2_impl; [exact Hf|].
  intros m r (Hr & Htab & flags & pid & table8 & extra & -> & He & Hn).
  set (h := km_header (mkKernel RTM_NEWROUTE flags 1 pid (route_data r table8 extra))).
  destruct (parse_route_written h r table8 extra) as [Hp Hb]; try done; [lia|].
  change (km_message (mkKernel RTM_NEWROUTE flags 1 pid (route_data r table8 extra))) with (mkMessage h (route_data r table8 extra) None).
  unfold select_route. cbn [nm_header]. change (nlmsg_type h =? RTM_NEWROUTE) with true. cbn [negb]. rewrite Hp. run. rewrite Hb, Htab.
  rewrite bool_decide_true by done. by destruct (255 <? table).
Qed.
Lemma get_neighbors_ok s encs neighbors : answers s encs → Forall2 encodes_neighbor encs neighbors →
  netlink_get_neighbors s None AF_INET = Ret (Ok neighbors).
Proof.
  intros Ha Hf. apply (dump_answers s encs); [done|]. eapply Forall2_impl; [exact Hf|].
  intros m n (Hn & flags & pid & pad & tail & extra & -> & Hh & Ht & He & Hl). cbn -[parse_neighbor]. apply parse_neighbor_written; try done. lia.
Qed.

(** The updates the dumps amount to. *)
Definition link_op (queue : Z) (l : LinkEntry) : option snapshot_op := UpsertInterface <$> link_interface queue l.
Definition neighbor_op (n : NeighborEntry) : option snapshot_op :=
  match ne_destination n, ne_lladdr n with
  | Some (NlV4 ip), Some mac => Some (UpsertNeighbor (ne_ifindex n) ip mac)
  | _, _ => None
  end.
Definition snapshot_ops (queue : Z) (links : list LinkEntry) (routes : list RouteEntry) (neighbors : list NeighborEntry) : list snapshot_op :=
  omap (link_op queue) links ++ UpsertRoutes (omap entry_route routes) :: omap neighbor_op neighbors.

Lemma apply_ops_app s a b : apply_ops s (a ++ b) = (s ← apply_ops s a; apply_ops s b).
Proof. revert s. induction a as [|op a IH]; intros s; [done|]. cbn. destruct (apply_op s op); [apply IH|done..]. Qed.
Lemma upsert_links_ops s queue links : upsert_links s queue links = apply_ops s (omap (link_op queue) links).
Proof.
  revert s. induction links as [|l links IH]; intros s; [done|]. cbn [upsert_links omap list_omap]. unfold link_op at 1.
  destruct (link_interface queue l) as [i|]; cbn [fmap option_fmap option_map]; [|run; apply IH]. cbn [apply_ops apply_op].
  destruct (upsert_interface s i); run; [apply IH|done..].
Qed.
Lemma upsert_neighbors_ops s neighbors : upsert_neighbors s neighbors = apply_ops s (omap neighbor_op neighbors).
Proof.
  revert s. induction neighbors as [|n neighbors IH]; intros s; [done|]. cbn [upsert_neighbors omap list_omap]. unfold neighbor_op at 1.
  destruct (ne_destination n) as [[ip|o]|]; [|run; apply IH..]. destruct (ne_lladdr n) as [mac|]; [|run; apply IH].
  cbn [apply_ops apply_op]. destruct (upsert_neighbor_v4 s (ne_ifindex n) ip mac); run; [apply IH|done..].
Qed.

Lemma build_snapshot_ops ls rs ns queue table L R N : netlink_get_links ls AF_UNSPEC = Ret (Ok L) →
  netlink_get_routes rs AF_INET table = Ret (Ok R) → netlink_get_neighbors ns None AF_INET = Ret (Ok N) →
  build_netlink_snapshot ls rs ns queue table = (s ← apply_ops snapshot_new (snapshot_ops queue L R N); Ret (Ok s)).
Proof.
  intros Hl Hr Hn. unfold build_netlink_snapshot, snapshot_ops. rewrite Hl. run. rewrite upsert_links_ops, apply_ops_app.
  destruct (apply_ops snapshot_new _) as [s| | |]; run; [|done..]. rewrite Hr. run. cbn [apply_ops apply_op].
  destruct (upsert_routes_v4 s _) as [s1| | |]; run; [|done..]. rewrite Hn. run. by rewrite upsert_neighbors_ops.
Qed.

Lemma snapshot_ops_wf queue L R N : Forall link_entry_ok L → Forall route_entry_ok R → Forall (neighbor_entry_ok AF_INET) N →
  Forall snapshot_op_wf (snapshot_ops queue L R N) ∧ ops_routes (snapshot_ops queue L R N) ≤ len R.
Proof.
  intros HL HR HN. assert (Hlen : ∀ m : list Z, mac_ok m → length m = 6%nat) by (intros m [_ Hm]; unfold len in Hm; lia). split.
  - unfold snapshot_ops. apply Forall_app. split; [|constructor].
    + apply Forall_forall. intros op (l & Hl & Ho)%list_elem_of_omap. rewrite Forall_forall in HL. destruct (HL l Hl) as (_ & _ & Hm & _).
      unfold link_op, link_interface in Ho. destruct (le_mac l) as [mac|]; [|done]. injection Ho as <-. cbn. by apply Hlen.
    + cbn. apply Forall_forall. intros r (e & He & Ho)%list_elem_of_omap. rewrite Forall_forall in HR.
      destruct (HR e He) as (Hd & _ & _ & _ & _ & _ & Hl). unfold entry_route in Ho. destruct (re_out_ifindex e); [|done].
      assert (0 ≤ Z.min (re_dst_len e) 32) by (unfold fits in Hl; lia).
      destruct (re_destination e) as [[d|]|]; [|done|]; (destruct (re_gateway e) as [[g|]|]; [|done|]); injection Ho as <-; split; cbn; try done;
        try apply Hd; unfold fits, IPV4_UNSPECIFIED; lia.
    + apply Forall_forall. intros op (n & Hn & Ho)%list_elem_of_omap. rewrite Forall_forall in HN. destruct (HN n Hn) as (_ & _ & _ & _ & Hm).
      unfold neighbor_op in Ho. destruct (ne_destination n) as [[ip|]|]; [|done..]. destruct (ne_lladdr n) as [mac|]; [|done].
      injection Ho as <-. cbn. by apply Hlen.
  - unfold snapshot_ops. assert (Hz : ∀ l, Forall (λ op, op_routes op = 0) l → ∀ k, ops_routes (l ++ k) = ops_routes k).
    { induction 1 as [|op l Hop _ IH]; intros k; [done|]. cbn. rewrite Hop, IH. lia. }
    rewrite Hz.
    + cbn [ops_routes op_routes]. rewrite <- (app_nil_r (omap neighbor_op N)), Hz.
      * cbn [ops_routes]. assert (Ho : (length (omap entry_route R) ≤ length R)%nat); [|unfold len; lia].
        clear. induction R as [|r R IH]; cbn; [done|]. destruct (entry_route r); cbn; lia.
      * apply Forall_forall. intros op (n & _ & Ho)%list_elem_of_omap. unfold neighbor_op in Ho.
        destruct (ne_destination n) as [[ip|]|], (ne_lladdr n); try done. by injection Ho as <-.
    + apply Forall_forall. intros op (l & _ & Ho)%list_elem_of_omap. unfold link_op in Ho.
      destruct (link_interface queue l); [|done]. by injection Ho as <-.
Qed.


(** ** The monitor

    Any number of publishers and queues; the two atomic steps of a publication
    interleave with everything else. A queue's routes change only through its
    handle. *)
Record fanout := mkFanout {
  fo_monitor : XdpRouteMonitor;
  fo_reserved : list Z; (** generations between reservation and store *)
  fo_queues : list (Z * XdpLocalRoutes);
}.

Inductive freach : fanout → Prop :=
  | freach_init : freach (mkFanout monitor_new [] [])
  | freach_register f s g :
      freach f → freach (mkFanout (register_queue (fo_monitor f)).1 (fo_reserved f)
                           (((register_queue (fo_monitor f)).2, mkLocalRoutes s [] g) :: fo_queues f))
  | freach_reserve f m g :
      freach f → publish_reserve (fo_monitor f) = Ret (m, g) → freach (mkFanout m (g :: fo_reserved f) (fo_queues f))
  | freach_store f l1 g l2 s :
      freach f → fo_reserved f = l1 ++ g :: l2 → freach (mkFanout (publish_store (fo_monitor f) g s) (l1 ++ l2) (fo_queues f))
  | freach_apply f q1 seen routes q2 seen' routes' n :
      freach f → fo_queues f = q1 ++ (seen, routes) :: q2 →
      handle_apply_updates (mo_shared (fo_monitor f)) seen routes = (seen', routes', n) →
      freach (mkFanout (fo_monitor f) (fo_reserved f) (q1 ++ (seen', routes') :: q2)).

Definition slot_generation (m : XdpRouteMonitor) : Z := match mo_shared m with Some v => vs_generation v | None => 0 end.
Definition queue_ok (m : XdpRouteMonitor) (reserved : list Z) (q : Z * XdpLocalRoutes) : Prop :=
  lr_pending q.2 = [] ∧ 0 ≤ q.1 ≤ mo_next_generation m ∧ (q.1 ∉ reserved) ∧
  ∀ v, mo_shared m = Some v → q.1 = vs_generation v → lr_snapshot q.2 = vs_snapshot v.
Record fanout_ok (f : fanout) : Prop := mkFanoutOk {
  fk_next : 0 ≤ mo_next_generation (fo_monitor f);
  fk_slot : 0 ≤ slot_generation (fo_monitor f) ≤ mo_next_generation (fo_monitor f);
  fk_slot_pos v : mo_shared (fo_monitor f) = Some v → 0 < vs_generation v;
  fk_slot_fresh : slot_generation (fo_monitor f) ∉ fo_reserved f;
  fk_reserved : Forall (λ g, 0 < g ≤ mo_next_generation (fo_monitor f)) (fo_reserved f);
  fk_nodup : NoDup (fo_reserved f);
  fk_queues : Forall (queue_ok (fo_monitor f) (fo_reserved f)) (fo_queues f);
}.

Lemma handle_apply_spec shared seen routes : lr_pending routes = [] → (∀ v, shared = Some v → seen = vs_generation v → lr_snapshot routes = vs_snapshot v) →
  ∃ seen' routes' n, handle_apply_updates shared seen routes = (seen', routes', n) ∧ lr_pending routes' = [] ∧
    match shared with
    | None => seen' = seen ∧ routes' = routes ∧ n = 0
    | Some v => seen' = vs_generation v ∧ lr_snapshot routes' = vs_snapshot v ∧
        n = (if seen =? vs_generation v then 0 else 1) ∧
        lr_generation routes' = (if seen =? vs_generation v then lr_generation routes else wrapping_add 64 (lr_generation routes) 1)
    end.
Proof.
  intros Hp Hs. unfold handle_apply_updates. destruct shared as [v|]; [|by eexists _, _, _].
  destruct (Z.eqb_spec seen (vs_generation v)) as [He|He]; [by eexists _, _, _; split_and!; eauto|].
  unfold apply_updates, push_update. cbn [lr_pending lr_snapshot lr_generation]. rewrite Hp. cbn. by eexists _, _, _.
Qed.

Lemma queue_ok_mono m m' reserved reserved' q : queue_ok m reserved q → mo_shared m' = mo_shared m →
  mo_next_generation m ≤ mo_next_generation m' → (∀ g, g ∈ reserved' → g ∈ reserved ∨ mo_next_generation m < g) → queue_ok m' reserved' q.
Proof.
  intros (Hp & Hr & Hn & Hv) Hs Hm Hres. split_and!; [done|lia|lia| |by rewrite Hs].
  intros Hin. destruct (Hres _ Hin); [done|lia].
Qed.

Lemma freach_ok f : freach f → fanout_ok f.
Proof.
  induction 1 as [|f s g _ [Hn Hsl Hsp Hsf Hr Hd Hq]|f m g _ [Hn Hsl Hsp Hsf Hr Hd Hq] Hres|f l1 g l2 s _ [Hn Hsl Hsp Hsf Hr Hd Hq] Hl
    |f q1 seen routes q2 seen' routes' n _ [Hn Hsl Hsp Hsf Hr Hd Hq] Hl Ha].
  - constructor; cbn; try done; try lia; [apply not_elem_of_nil|constructor..].
  - constructor; cbn; try done. constructor; [|done]. split_and!; cbn; [done|lia|lia| |].
    + intros Hin. rewrite Forall_forall in Hr. apply Hr in Hin. lia.
    + intros v Hv He. pose proof (Hsp v Hv). lia.
  - unfold publish_reserve in Hres. destruct (_ =? _); [done|]. injection Hres as <- <-.
    constructor; cbn [fo_monitor fo_reserved fo_queues mo_next_generation mo_shared] in *; unfold slot_generation in *; cbn [mo_shared] in *; try done; try lia.
    + rewrite not_elem_of_cons. split; [lia|done].
    + constructor; [lia|]. eapply Forall_impl; [exact Hr|]. intros; cbn in *; lia.
    + constructor; [|done]. intros Hin. rewrite Forall_forall in Hr. apply Hr in Hin. lia.
    + eapply Forall_impl; [exact Hq|]. intros q Hqo. eapply queue_ok_mono; [exact Hqo|done|cbn; lia|].
      intros g' [->|Hg]%elem_of_cons; [right; lia|by left].
  - rewrite Hl in *. apply Forall_app in Hr as [Hr1 [Hg Hr2]%Forall_cons]. apply NoDup_app in Hd as (Hd1 & Hd12 & [Hgn Hd2]%NoDup_cons).
    assert (Hgf : g ∉ l1 ++ l2). { rewrite elem_of_app. intros [Hin|Hin]; [|done]. apply (Hd12 g Hin). left. }
    constructor; cbn [fo_monitor fo_reserved fo_queues publish_store mo_next_generation mo_shared slot_generation vs_generation] in *; try done; try lia.
    + intros v [= <-]. cbn. lia.
    + by apply Forall_app.
    + apply NoDup_app. split_and!; [done|set_solver|done].
    + eapply Forall_impl; [exact Hq|]. intros q (Hp & Hqr & Hqn & _). split_and!; [done|cbn; lia|cbn; lia|set_solver|].
      cbn. intros v [= <-] He. cbn in He. exfalso. apply Hqn. rewrite He, elem_of_app. right. left.
  - rewrite Hl in Hq. apply Forall_app in Hq as [Hq1 [(Hp & Hqr & Hqn & Hv)%id Hq2]%Forall_cons]. cbn [fst snd] in *.
    destruct (handle_apply_spec (mo_shared (fo_monitor f)) seen routes Hp Hv) as (s1 & r1 & n1 & E & Hp1 & Hm). rewrite E in Ha. injection Ha as <- <- <-.
    constructor; cbn [fo_monitor fo_reserved fo_queues] in *; try done. apply Forall_app. split; [done|]. constructor; [|done].
    assert (Hseen : s1 = seen ∨ s1 = slot_generation (fo_monitor f)).
    { unfold slot_generation. destruct (mo_shared (fo_monitor f)); [right|left]; by destruct Hm. }
    split_and!; cbn [fst snd]; [done|destruct Hseen; lia|destruct Hseen; lia|by destruct Hseen as [-> | ->]|].
    intros v Hsh _. rewrite Hsh in Hm. by destruct Hm as (_ & ? & _).
Qed.

(** C32. Every queue adopts the latest routes: under every interleaving of
    publications with the queues' polls, a poll leaves the queue with exactly
    the snapshot stored last, whichever earlier ones it missed; it reports an
    update exactly when that snapshot is new to it, and only then advances the
    generation that invalidates prepared headers. *)
Theorem monitor_delivers_latest (f : fanout) (seen : Z) (routes : XdpLocalRoutes) :
  freach f → (seen, routes) ∈ fo_queues f →
  ∃ seen' routes' n, handle_apply_updates (mo_shared (fo_monitor f)) seen routes = (seen', routes', n) ∧
    match mo_shared (fo_monitor f) with
    | None => routes' = routes ∧ n = 0
    | Some v => lr_snapshot routes' = vs_snapshot v ∧ lr_pending routes' = [] ∧
        n = (if seen =? vs_generation v then 0 else 1) ∧
        lr_generation routes' = (if n =? 0 then lr_generation routes else wrapping_add 64 (lr_generation routes) 1) ∧
        handle_apply_updates (Some v) seen' routes' = (seen', routes', 0)
    end.
Proof.
  intros Hf Hin. pose proof (fk_queues _ (freach_ok f Hf)) as Hq. rewrite Forall_forall in Hq. destruct (Hq _ Hin) as (Hp & _ & _ & Hv). cbn [fst snd] in *.
  destruct (handle_apply_spec _ _ _ Hp Hv) as (s1 & r1 & n1 & E & Hp1 & Hm). exists s1, r1, n1. split; [done|].
  destruct (mo_shared (fo_monitor f)) as [v|]; [|naive_solver]. destruct Hm as (-> & Hs & -> & Hg). split_and!; try done.
  - rewrite Hg. by destruct (seen =? vs_generation v).
  - unfold handle_apply_updates. by rewrite Z.eqb_refl.
Qed.

(** ** The thread of the monitor *)
Definition successes (answers : list (result RouteSnapshot NetlinkError)) : list RouteSnapshot :=
  omap (λ r, match r with Ok s => Some s | Err _ => None end) answers.
(** The length of the run of failures that ends the list, after one of [n]. *)
Fixpoint failing (n : Z) (answers : list (result RouteSnapshot NetlinkError)) : Z :=
  match answers with
  | [] => n
  | Ok _ :: answers => failing 0 answers
  | Err _ :: answers => failing (n + 1) answers
  end.
(** A failure is printed exactly when it is the first of its run or one more
    than a power of two of them came, with its place in the run. *)
Fixpoint logs_of (n : Z) (answers : list (result RouteSnapshot NetlinkError)) : list (option Z) :=
  match answers with
  | [] => []
  | Ok _ :: answers => None :: logs_of 0 answers
  | Err _ :: answers => (if is_power_of_two n || (n =? 0) then Some (n + 1) else None) :: logs_of (n + 1) answers
  end.
Lemma monitor_rounds_exact answers : ∀ m n, 0 ≤ n → n + len answers ≤ U32_MAX → mo_next_generation m + len answers < U64_MAX →
  ∃ m', monitor_rounds m n answers = Ret (m', failing n answers, logs_of n answers) ∧
    mo_next_generation m' = mo_next_generation m + len (successes answers) ∧ mo_handles m' = mo_handles m ∧
    mo_shared m' = match last (successes answers) with
                   | Some s => Some (mkVersioned (mo_next_generation m') s)
                   | None => mo_shared m
                   end.
Proof.
  induction answers as [|[s|e] answers IH]; intros m n Hn Hl Hg; cbn [monitor_rounds monitor_round failing logs_of].
  { exists m. split_and!; try done. unfold len. cbn. lia. }
  - rewrite len_cons in Hl, Hg. pose proof (len_nonneg answers). unfold publish, publish_reserve. destruct (Z.eqb_spec (mo_next_generation m) U64_MAX); [lia|]. run.
    destruct (IH (publish_store (mkMonitor (mo_shared m) (mo_next_generation m + 1) (mo_handles m)) (mo_next_generation m + 1) s) 0) as (m' & E & Hnext & Hh & Hs);
      [lia|lia|cbn; lia|]. rewrite E. run. cbn in Hnext, Hh, Hs. exists m'. change (successes (Ok s :: answers)) with (s :: successes answers).
    rewrite len_cons, last_cons. split_and!; [done|lia|done|]. rewrite Hs. destruct (last (successes answers)) eqn:Hlast; [done|].
    apply last_None in Hlast. rewrite Hlast in Hnext. change (len []) with 0 in Hnext. rewrite Hnext, Z.add_0_r. done.
  - rewrite len_cons in Hl, Hg. pose proof (len_nonneg answers). rewrite Z.min_r by lia. run.
    destruct (IH m (n + 1)) as (m' & E & Hnext & Hh & Hs); [lia|lia|lia|]. rewrite E. run. by exists m'.
Qed.

(** ** Witnesses *)

#[local] Ltac by_compute := hnf; lazymatch goal with
  | |- Forall _ _ => first [apply Forall_nil_2 | apply Forall_cons_2; by_compute]
  | |- _ ∧ _ => split; by_compute
  | |- _ => vm_compute; first [exact I | reflexivity | let H := fresh in intros H; discriminate H]
  end.

(** A session whose one datagram holds the given messages and the
    terminator. *)
Definition done_message : KernelMessage := mkKernel NLMSG_DONE 2 1 0 [0; 0; 0; 0].
Definition one_datagram (encs : list KernelMessage) : Session :=
  mkSession (Ok tt) (λ _, Ok tt) (λ k,
    if k =? 1 then RecvErr EINTR else
    let bytes := datagram_bytes (encs ++ [done_message]) in
    RecvLen (len bytes) (bytes ++ [])).

Lemma one_datagram_answers encs : Forall km_ok encs → Forall (λ m, km_seq m = 1 ∧ km_type m ≠ NLMSG_DONE) encs →
  len (datagram_bytes (encs ++ [done_message])) ≤ RECV_BUFFER → answers (one_datagram encs) encs.
Proof.
  intros Hok Hseq Hlen. split_and!; [done|done|].
  exists [Interrupted; Datagram (encs ++ [done_message]) []]. split_and!.
  - apply Forall_cons. split; [exact I|]. apply Forall_singleton. split; [|split; [|exact Hlen]].
    + intros Habs. apply app_eq_nil in Habs as [_ Habs]. discriminate.
    + apply Forall_app. split; [exact Hok|]. apply Forall_singleton. by_compute.
  - cbn. unfold MAX_RECV_CALLS. lia.
  - intros [|[|i]] e; cbn -[datagram_bytes]; [by intros [= <-]|by intros [= <-]|done].
  - cbn [mbind list_bind event_messages app]. rewrite app_nil_r. exists encs, done_message, []. split_and!; try done.
    + clear -Hseq. induction Hseq as [|m encs [Hm _] _ IH]; [done|]. rewrite filter_cons_True by done. by rewrite IH.
    + eapply Forall_impl; [exact Hseq|]. by intros m [].
Qed.

Definition sample_link : LinkEntry := mkLink 3 None (Some [2; 0; 0; 0; 0; 1]) (Some 9000).
Definition sample_route : RouteEntry := mkRouteEntry None (Some (NlV4 167772161)) (Some 3) (Some 100) (Some 254) 2 0.
Definition sample_neighbor : NeighborEntry := mkNeighbor (Some (NlV4 167772161)) (Some [2; 0; 0; 0; 0; 9]) 3 2.
Definition link_message : KernelMessage := mkKernel RTM_NEWLINK 2 1 0 (link_data sample_link [0; 0; 1; 0] (replicate 8 0) [(3, [101; 0])]).
Definition route_message : KernelMessage := mkKernel RTM_NEWROUTE 2 1 0 (route_data sample_route 254 []).
Definition neighbor_message : KernelMessage := mkKernel RTM_NEWNEIGH 2 1 0 (neighbor_data sample_neighbor 2 [0; 0; 0] [0; 1] []).


Lemma netlink_dump_total_witness : ∃ r, netlink_get_links (mkSession (Ok tt) (λ _, Ok tt) (λ _, RecvErr EAGAIN)) 0 = Ret r.
Proof.
  destruct (netlink_dump_total (mkSession (Ok tt) (λ _, Ok tt) (λ _, RecvErr EAGAIN)) None 0 254) as ([Hr|(_ & k & n & buf & off & Habs & _)] & _);
    [by intros k n buf Habs|exact Hr|by vm_compute in Habs].
Defined.

Lemma monitor_delivers_latest_witness :
  let v := mkVersioned 2 (mkSnapshot [] None ∅ ∅ {[3 := mkInterface 3 None [2; 0; 0; 0; 0; 1] 1500 0]}) in
  (handle_apply_updates (Some v) 0 (local_routes_new snapshot_new)).2 = 1.
Proof.
  intros v. set (m := mkMonitor (Some (mkVersioned 1 snapshot_new)) 1 1).
  assert (Hr : freach (mkFanout (publish_store (mkMonitor (mo_shared m) 2 1) 2 (vs_snapshot v)) [] [(0, local_routes_new snapshot_new)])).
  { apply (freach_store (mkFanout (mkMonitor (mo_shared m) 2 1) [2] [(0, local_routes_new snapshot_new)]) [] 2 [] (vs_snapshot v)); [|reflexivity].
    apply (freach_reserve (mkFanout m [] [(0, local_routes_new snapshot_new)]) _ 2); [|reflexivity].
    apply (freach_store (mkFanout (mkMonitor None 1 1) [1] [(0, local_routes_new snapshot_new)]) [] 1 [] snapshot_new); [|reflexivity].
    apply (freach_reserve (mkFanout (mkMonitor None 0 1) [] [(0, local_routes_new snapshot_new)]) _ 1); [|reflexivity].
    apply (freach_register (mkFanout monitor_new [] []) snapshot_new 0), freach_init. }
  destruct (monitor_delivers_latest _ 0 (local_routes_new snapshot_new) Hr) as (s' & r' & n & E & _ & _ & Hn & _); [left|].
  change (handle_apply_updates (Some v) 0 (local_routes_new snapshot_new) = (s', r', n)) in E. rewrite E. exact Hn.
Defined.
