(* ===== verification/OsBuffer.v ===== *)
(** * Buffers of the kernel-socket backend: [crates/fast-socket-os-rs/src/buffer.rs]

    A buffer owns its bytes and points back to the pool that issued it. Pools
    live in a heap: dropping a buffer gives its bytes to the pool its pointer
    names, and reaching a pool that is gone is undefined. The owner-generation
    guard of the checked builds is modelled, with its shared counters as cells
    of the heap. *)
From S2P Require Import Prelude Bits Core Buffer Reclaim Wire PacketBuf.
Open Scope Z_scope.

(** ** [owner_epoch] *)
Definition DEAD : Z := 0.
(** [OwnerEpoch] and [BufferEpoch]: the shared cell and the generation. *)
Record OwnerEpoch := mkEpoch {
  oe_shared : Z;
  oe_generation : Z;
}.
#[export] Instance OwnerEpoch_eq_dec : EqDecision OwnerEpoch.
Proof. solve_decision. Defined.

(** The cells and [NEXT_GENERATION]. *)
Record Cells := mkCells {
  ce_cells : gmap Z Z;
  ce_next : Z;
}.
Definition epoch_new (c : Cells) : Cells * OwnerEpoch :=
  let generation := ce_next c in
  let shared := fresh (dom (ce_cells c)) in
  (mkCells (<[shared := generation]> (ce_cells c)) (wrapping_add 64 generation 1), mkEpoch shared generation).
Definition epoch_token (e : OwnerEpoch) : OwnerEpoch := mkEpoch (oe_shared e) (oe_generation e).
Definition epoch_drop (c : Cells) (e : OwnerEpoch) : Cells :=
  mkCells (<[oe_shared e := DEAD]> (ce_cells c)) (ce_next c).
Definition assert_owner_alive (c : Cells) (e : OwnerEpoch) : outcome unit :=
  assert! bool_decide (ce_cells c !! oe_shared e = Some (oe_generation e));
  Ret tt.

(** ** Pools *)
Definition SLAB_SIZE : Z := 64.

(** [po_lists] holds [free] and [remote]; threads are numbers. *)
Record OsPoolInner (Q : Type) := mkOsPool {
  po_owner : Z;
  po_lists : FrameReclaim Q (list Z);
  po_allocated : Z;
  po_max_buffers : Z;
  po_epoch : OwnerEpoch;
}.
Arguments mkOsPool {Q} _ _ _ _ _.
Arguments po_owner {Q} _.
Arguments po_lists {Q} _.
Arguments po_allocated {Q} _.
Arguments po_max_buffers {Q} _.
Arguments po_epoch {Q} _.

(** The heap: the live pools by address. *)
Record OsHeap (Q : Type) := mkOsHeap {
  hp_pools : gmap Z (OsPoolInner Q);
  hp_cells : Cells;
}.
Arguments mkOsHeap {Q} _ _.
Arguments hp_pools {Q} _.
Arguments hp_cells {Q} _.

(** [OsBufferPool]; its context is the layout with the pool's address. *)
Record OsBufCtx := mkOsCtx {
  oc_layout : BufferLayout;
  oc_reclaim : Z;
}.

Record OsPacketBufInner := mkOsBuf {
  ob_storage : list Z;
  ob_ctx : OsBufCtx;
  ob_epoch : OwnerEpoch;
  ob_armed : bool;
  ob_start : Z;
  ob_end : Z;
}.
Definition os_with_bounds (b : OsPacketBufInner) (start stop : Z) : OsPacketBufInner :=
  mkOsBuf (ob_storage b) (ob_ctx b) (ob_epoch b) (ob_armed b) start stop.
Definition os_with_storage (b : OsPacketBufInner) (storage : list Z) : OsPacketBufInner :=
  mkOsBuf storage (ob_ctx b) (ob_epoch b) (ob_armed b) (ob_start b) (ob_end b).

(** [OsPacketBufInner::from_storage]. *)
Definition os_from_storage (storage : list Z) (ctx : OsBufCtx) (epoch : OwnerEpoch) (start stop : Z) :
    outcome OsPacketBufInner :=
  assert! stop <=? len storage;
  Ret (mkOsBuf storage ctx epoch true start stop).

Section Pools.
Context {Q : Type} `{ArrayQueue Q (list Z)}.
Implicit Types (h : OsHeap Q) (p : OsPoolInner Q).

Definition with_lists p (lists : FrameReclaim Q (list Z)) : OsPoolInner Q :=
  mkOsPool (po_owner p) lists (po_allocated p) (po_max_buffers p) (po_epoch p).

Definition os_pool_inner_new (thread : Z) (c : Cells) (max_buffers : Z) : Cells * OsPoolInner Q :=
  let '(c, epoch) := epoch_new c in
  (c, mkOsPool thread (mkReclaim [] 0 (mpsc_new max_buffers)) 0 max_buffers epoch).

Definition os_pool_pop (thread : Z) p : outcome (OsPoolInner Q * option (list Z)) :=
  assert! thread =? po_owner p;
  '(lists, storage) ← reclaim_pop (po_lists p);
  Ret (with_lists p lists, storage).

Definition os_pool_push (thread : Z) p (storage : list Z) : outcome (OsPoolInner Q) :=
  lists ← reclaim_push (thread =? po_owner p) (po_lists p) storage;
  Ret (with_lists p lists).

Definition os_pool_grow (thread : Z) p (layout : BufferLayout) : outcome (OsPoolInner Q * Z) :=
  assert! thread =? po_owner p;
  let allocated := po_allocated p in
  let remaining := saturating_sub (po_max_buffers p) allocated in
  if remaining =? 0 then Ret (p, 0)
  else
    let chunk := Z.min SLAB_SIZE remaining in
    let free := rc_free (po_lists p) ++ replicate (Z.to_nat chunk) (replicate (Z.to_nat (allocation_len layout)) 0) in
    allocated ← add_usize allocated chunk;
    Ret (mkOsPool (po_owner p) (with_free (po_lists p) free) allocated (po_max_buffers p) (po_epoch p), chunk).

(** [Vec::resize(n, 0)]. *)
Definition resize (l : list Z) (n : Z) : list Z :=
  take (Z.to_nat n) l ++ replicate (Z.to_nat n - length l) 0.

(** [OsBufferPool::with_max_buffers]. *)
Definition os_pool_with_max_buffers (thread : Z) h (layout : BufferLayout) (max_buffers : Z) :
    outcome (OsHeap Q * OsBufCtx) :=
  layout ← with_max_segments layout 1;
  let '(c, p) := os_pool_inner_new thread (hp_cells h) max_buffers in
  let at_ := fresh (dom (hp_pools h)) in
  Ret (mkOsHeap (<[at_ := p]> (hp_pools h)) c, mkOsCtx layout at_).

(** The drop of the last handle of a pool. *)
Definition os_pool_drop h (at_ : Z) : outcome (OsHeap Q) :=
  match hp_pools h !! at_ with
  | None => UB
  | Some p => Ret (mkOsHeap (delete at_ (hp_pools h)) (epoch_drop (hp_cells h) (po_epoch p)))
  end.

(** The part of [OsBufferPool::allocate] that finds the bytes. *)
Definition os_take_storage (thread : Z) p (layout : BufferLayout) : outcome (OsPoolInner Q * option (list Z)) :=
  '(p, storage) ← os_pool_pop thread p;
  match storage with
  | Some storage => Ret (p, Some storage)
  | None =>
      '(p, grown) ← os_pool_grow thread p layout;
      if grown =? 0 then Ret (p, None) else os_pool_pop thread p
  end.

Definition os_allocate (thread : Z) h (pool : OsBufCtx) : outcome (OsHeap Q * option OsPacketBufInner) :=
  match hp_pools h !! oc_reclaim pool with
  | None => UB
  | Some p =>
      let layout := oc_layout pool in
      '(p, storage) ← os_take_storage thread p layout;
      let h := mkOsHeap (<[oc_reclaim pool := p]> (hp_pools h)) (hp_cells h) in
      match storage with
      | None => Ret (h, None)
      | Some storage =>
          let storage := if negb (len storage =? allocation_len layout) then resize storage (allocation_len layout)
                         else storage in
          let data_offset := data_offset layout in
          b ← os_from_storage storage pool (epoch_token (po_epoch p)) data_offset data_offset;
          Ret (h, Some b)
      end
  end.

(** [reclaim], which [Drop] calls on an armed buffer. *)
Definition os_reclaim (thread : Z) h (b : OsPacketBufInner) : outcome (OsHeap Q * OsPacketBufInner) :=
  if negb (ob_armed b) then Ret (h, b)
  else
    _ ← assert_owner_alive (hp_cells h) (ob_epoch b);
    match hp_pools h !! oc_reclaim (ob_ctx b) with
    | None => UB
    | Some p =>
        p ← os_pool_push thread p (ob_storage b);
        Ret (mkOsHeap (<[oc_reclaim (ob_ctx b) := p]> (hp_pools h)) (hp_cells h),
             mkOsBuf [] (ob_ctx b) (ob_epoch b) false (ob_start b) (ob_end b))
    end.
Definition os_drop_buf (thread : Z) h (b : OsPacketBufInner) : outcome (OsHeap Q) :=
  if ob_armed b then '(h, _) ← os_reclaim thread h b; Ret h else Ret h.
End Pools.

(** ** Buffer operations

    Each access checks that the owner lives. *)
Section Access.
Variable cells : Cells.

Definition os_ctx (b : OsPacketBufInner) : outcome OsBufCtx :=
  _ ← assert_owner_alive cells (ob_epoch b); Ret (ob_ctx b).
Definition os_layout (b : OsPacketBufInner) : outcome BufferLayout := c ← os_ctx b; Ret (oc_layout c).
Definition os_storage (b : OsPacketBufInner) : outcome (list Z) :=
  _ ← assert_owner_alive cells (ob_epoch b); Ret (ob_storage b).

(** [self.storage_mut()[start..start + bytes.len()].copy_from_slice(bytes)]. *)
Definition os_write (b : OsPacketBufInner) (start : Z) (bytes : list Z) : outcome OsPacketBufInner :=
  storage ← os_storage b;
  if (0 <=? start) && (start + len bytes <=? len storage) then Ret (os_with_storage b (write_at storage start bytes))
  else Panic.

Definition os_as_slice (b : OsPacketBufInner) : outcome (list Z) :=
  storage ← os_storage b; slice_or_panic storage (ob_start b) (ob_end b).

Definition os_len (b : OsPacketBufInner) : Z := ob_end b - ob_start b.
Definition os_headroom (b : OsPacketBufInner) : outcome Z :=
  layout ← os_layout b;
  match checked_sub (ob_start b) (l2_headroom layout) with Some h => Ret h | None => Panic end.
Definition os_tailroom (b : OsPacketBufInner) : outcome Z :=
  storage ← os_storage b;
  match checked_sub (len storage) (ob_end b) with Some t => Ret t | None => Panic end.
(** [segments]: at most one. *)
Definition os_segments (b : OsPacketBufInner) : outcome (list (list Z)) :=
  if os_len b =? 0 then Ret [] else s ← os_as_slice b; Ret [s].
Definition os_read_contiguous (packet : list Z) (offset n : Z) : result (list Z) BufferAccessError :=
  match checked_add 64 offset n with
  | None => Err (OutOfBounds offset n (len packet))
  | Some stop => ok_or (slice packet offset stop) (OutOfBounds offset n (len packet))
  end.
Definition os_read_at_exact (b : OsPacketBufInner) (offset n : Z) : outcome (result (list Z) BufferAccessError) :=
  s ← os_as_slice b; Ret (os_read_contiguous s offset n).

Definition os_prepend (b : OsPacketBufInner) (bytes : list Z) : outcome (OsPacketBufInner * result unit ReserveError) :=
  headroom ← os_headroom b;
  if headroom <? len bytes then Ret (b, Err (InsufficientHeadroom headroom (len bytes)))
  else
    let new_start := ob_start b - len bytes in
    b ← os_write b new_start bytes;
    Ret (os_with_bounds b new_start (ob_end b), Ok tt).

Definition os_extend_from_slice (b : OsPacketBufInner) (bytes : list Z) :
    outcome (OsPacketBufInner * result unit BufferAccessError) :=
  tailroom ← os_tailroom b;
  if tailroom <? len bytes then Ret (b, Err (AppendInsufficientTailroom tailroom (len bytes)))
  else
    let stop := ob_end b in
    b ← os_write b stop bytes;
    Ret (os_with_bounds b (ob_start b) (stop + len bytes), Ok tt).

Definition os_trim_prefix (b : OsPacketBufInner) (n : Z) : OsPacketBufInner * result unit BufferAccessError :=
  if os_len b <? n then (b, Err (OutOfBounds 0 n (os_len b)))
  else (os_with_bounds b (ob_start b + n) (ob_end b), Ok tt).

Definition os_trim_suffix (b : OsPacketBufInner) (n : Z) : OsPacketBufInner * result unit BufferAccessError :=
  if os_len b <? n then (b, Err (OutOfBounds (saturating_sub (os_len b) n) n (os_len b)))
  else (os_with_bounds b (ob_start b) (ob_end b - n), Ok tt).

(** What the socket uses to receive: the destination of the bytes the kernel
    writes through [data_ptr], and the length it reports. *)
Definition data_capacity (b : OsPacketBufInner) : outcome Z :=
  layout ← os_layout b; Ret (payload_capacity layout).
Definition kernel_writes (b : OsPacketBufInner) (bytes : list Z) : outcome OsPacketBufInner :=
  layout ← os_layout b; storage ← os_storage b;
  storage ← mem_write storage (data_offset layout) bytes;
  Ret (os_with_storage b storage).
Definition set_received_len (b : OsPacketBufInner) (n : Z) :
    outcome (OsPacketBufInner * result unit BufferAccessError) :=
  layout ← os_layout b;
  let capacity := payload_capacity layout in
  if capacity <? n then Ret (b, Err (AppendInsufficientTailroom capacity n))
  else
    let start := data_offset layout in
    Ret (os_with_bounds b start (start + n), Ok tt).
End Access.

(** ** The trait instance

    A buffer with the cells its guard reads. *)
Record OsBuf := mkOsBufIn {
  oi_cells : Cells;
  oi_inner : OsPacketBufInner;
}.
Definition ret_or {A} (d : A) (o : outcome A) : A := match o with Ret a => a | _ => d end.

#[export] Instance os_packet_buffer : PacketBuffer OsBuf := {
  pb_len b := os_len (oi_inner b);
  pb_headroom b := os_headroom (oi_cells b) (oi_inner b);
  pb_tailroom b := ret_or 0 (os_tailroom (oi_cells b) (oi_inner b));
  pb_layout b := oc_layout (ob_ctx (oi_inner b));
  pb_segments b := ret_or [] (os_segments (oi_cells b) (oi_inner b));
  pb_read_at_exact b off n :=
    ret_or (Err (OutOfBounds off n 0)) (os_read_at_exact (oi_cells b) (oi_inner b) off n);
}.

#[export] Instance os_packet_buffer_mut : PacketBufferMut OsBuf OsBuf := {
  pb_prepend b xs := r ← os_prepend (oi_cells b) (oi_inner b) xs; Ret (mkOsBufIn (oi_cells b) r.1, r.2);
  pb_extend_from_slice b xs :=
    r ← os_extend_from_slice (oi_cells b) (oi_inner b) xs; Ret (mkOsBufIn (oi_cells b) r.1, r.2);
  pb_trim_prefix b n := let r := os_trim_prefix (oi_inner b) n in (mkOsBufIn (oi_cells b) r.1, r.2);
  pb_trim_suffix b n := let r := os_trim_suffix (oi_inner b) n in (mkOsBufIn (oi_cells b) r.1, r.2);
  pb_freeze b := b;
}.
