(* ===== verification/OsBufferProofs.v ===== *)
(** * Lemmas of the kernel-socket buffers and pools *)
From S2P Require Import Prelude Bits Core Buffer Window Reclaim ReclaimProofs Wire PacketBuf OsBuffer.
Open Scope Z_scope.

(** ** Buffers *)

(** The owner lives and the packet is inside the storage. *)
Record os_buf_ok (cells : Cells) (b : OsPacketBufInner) : Prop := mkOsBufOk {
  os_alive : ce_cells cells !! oe_shared (ob_epoch b) = Some (oe_generation (ob_epoch b));
  os_l2 : 0 ≤ l2_headroom (oc_layout (ob_ctx b)) ≤ ob_start b;
  os_order : ob_start b ≤ ob_end b;
  os_inside : ob_end b ≤ len (ob_storage b);
  os_size : len (ob_storage b) ≤ USIZE_MAX;
}.

(** The packet. *)
Definition os_packet (b : OsPacketBufInner) : list Z := window (ob_storage b) (ob_start b) (os_len b).

Section Ops.
Context (cells : Cells).

Lemma os_storage_ok b : os_buf_ok cells b → os_storage cells b = Ret (ob_storage b).
Proof. intros [Ha _ _ _ _]. unfold os_storage, assert_owner_alive. by rewrite bool_decide_true. Qed.

Lemma os_layout_ok b : os_buf_ok cells b → os_layout cells b = Ret (oc_layout (ob_ctx b)).
Proof. intros [Ha _ _ _ _]. unfold os_layout, os_ctx, assert_owner_alive. by rewrite bool_decide_true. Qed.

Lemma os_headroom_ok b : os_buf_ok cells b →
  os_headroom cells b = Ret (ob_start b - l2_headroom (oc_layout (ob_ctx b))).
Proof.
  intros Hok. unfold os_headroom, checked_sub. rewrite os_layout_ok by done. run. destruct Hok.
  by destruct (Z.leb_spec (l2_headroom (oc_layout (ob_ctx b))) (ob_start b)); [|lia].
Qed.

Lemma os_tailroom_ok b : os_buf_ok cells b → os_tailroom cells b = Ret (len (ob_storage b) - ob_end b).
Proof.
  intros Hok. unfold os_tailroom, checked_sub. rewrite os_storage_ok by done. run. destruct Hok.
  by destruct (Z.leb_spec (ob_end b) (len (ob_storage b))); [|lia].
Qed.

Lemma os_packet_len b : os_buf_ok cells b → len (os_packet b) = os_len b.
Proof. intros []. unfold os_packet, os_len. rewrite len_window; lia. Qed.

Lemma os_as_slice_ok b : os_buf_ok cells b → os_as_slice cells b = Ret (os_packet b).
Proof.
  intros Hok. unfold os_as_slice, slice_or_panic. rewrite os_storage_ok by done. run. destruct Hok.
  replace (ob_end b) with (ob_start b + os_len b) by (unfold os_len; lia).
  rewrite slice_window by (unfold os_len; lia). done.
Qed.

Lemma os_segments_ok b : os_buf_ok cells b →
  ∃ segs, os_segments cells b = Ret segs ∧ concat segs = os_packet b.
Proof.
  intros Hok. unfold os_segments. rewrite os_as_slice_ok by done. destruct (Z.eqb_spec (os_len b) 0) as [E|E].
  - eexists. split; [done|]. unfold os_packet. by rewrite E.
  - eexists. split; [reflexivity|]. cbn. by rewrite app_nil_r.
Qed.

Lemma os_write_ok b start bytes : os_buf_ok cells b → 0 ≤ start → start + len bytes ≤ len (ob_storage b) →
  os_write cells b start bytes = Ret (os_with_storage b (write_at (ob_storage b) start bytes)).
Proof.
  intros Hok H0 H1. unfold os_write. rewrite os_storage_ok by done. run.
  destruct (Z.leb_spec 0 start), (Z.leb_spec (start + len bytes) (len (ob_storage b))); try lia. done.
Qed.

(** Moving the bounds and writing inside the storage keep a buffer well
    formed. *)
Lemma os_rebound b storage start stop : os_buf_ok cells b → len storage = len (ob_storage b) →
  l2_headroom (oc_layout (ob_ctx b)) ≤ start → start ≤ stop → stop ≤ len storage →
  os_buf_ok cells (os_with_bounds (os_with_storage b storage) start stop).
Proof. intros [] HL ? ? ?. constructor; cbn; try done; lia. Qed.

Lemma os_prepend_ok b xs : os_buf_ok cells b →
  let h := ob_start b - l2_headroom (oc_layout (ob_ctx b)) in
  if len xs <=? h then
    ∃ b', os_prepend cells b xs = Ret (b', Ok tt) ∧ os_buf_ok cells b' ∧ os_packet b' = xs ++ os_packet b ∧
      ob_start b' = ob_start b - len xs ∧ ob_end b' = ob_end b ∧ ob_ctx b' = ob_ctx b ∧
      ob_epoch b' = ob_epoch b ∧ ob_armed b' = ob_armed b ∧ len (ob_storage b') = len (ob_storage b)
  else os_prepend cells b xs = Ret (b, Err (InsufficientHeadroom h (len xs))).
Proof.
  intros Hok h. unfold os_prepend. rewrite os_headroom_ok by done. run. fold h. pose proof (len_nonneg xs).
  destruct (Hok) as [Ha Hl2 Ho Hi Hz]. unfold h.
  destruct (Z.leb_spec (len xs) (ob_start b - l2_headroom (oc_layout (ob_ctx b)))) as [Hle|Hgt];
    destruct (Z.ltb_spec (ob_start b - l2_headroom (oc_layout (ob_ctx b))) (len xs)); try lia; [|done].
  rewrite os_write_ok by (done || lia). run. assert (HL : len (write_at (ob_storage b) (ob_start b - len xs) xs) = len (ob_storage b))
    by (apply len_write_at; lia).
  eexists. split; [reflexivity|]. split_and!; try done.
  - apply os_rebound; [done|done|cbn [ob_end ob_start os_with_storage]; lia..].
  - unfold os_packet, os_len. cbn [ob_storage ob_start ob_end os_with_bounds os_with_storage].
    replace (ob_end b - (ob_start b - len xs)) with (len xs + (ob_end b - ob_start b)) by lia.
    rewrite window_app by (rewrite ?HL; lia). rewrite window_write_in by lia. f_equal.
    replace (ob_start b - len xs + len xs) with (ob_start b) by lia. apply window_write_out; lia.
Qed.

Lemma os_extend_ok b xs : os_buf_ok cells b →
  let t := len (ob_storage b) - ob_end b in
  if len xs <=? t then
    ∃ b', os_extend_from_slice cells b xs = Ret (b', Ok tt) ∧ os_buf_ok cells b' ∧ os_packet b' = os_packet b ++ xs ∧
      ob_start b' = ob_start b ∧ ob_end b' = ob_end b + len xs ∧ ob_ctx b' = ob_ctx b ∧
      ob_epoch b' = ob_epoch b ∧ ob_armed b' = ob_armed b ∧ len (ob_storage b') = len (ob_storage b)
  else os_extend_from_slice cells b xs = Ret (b, Err (AppendInsufficientTailroom t (len xs))).
Proof.
  intros Hok t. unfold os_extend_from_slice. rewrite os_tailroom_ok by done. run. fold t. pose proof (len_nonneg xs).
  destruct (Hok) as [Ha Hl2 Ho Hi Hz]. unfold t.
  destruct (Z.leb_spec (len xs) (len (ob_storage b) - ob_end b)) as [Hle|Hgt];
    destruct (Z.ltb_spec (len (ob_storage b) - ob_end b) (len xs)); try lia; [|done].
  rewrite os_write_ok by (done || lia). run.
  assert (HL : len (write_at (ob_storage b) (ob_end b) xs) = len (ob_storage b)) by (apply len_write_at; lia).
  eexists. split; [reflexivity|]. split_and!; try done.
  - apply os_rebound; [done|done|cbn [ob_end ob_start os_with_storage]; lia..].
  - unfold os_packet, os_len. cbn [ob_storage ob_start ob_end os_with_bounds os_with_storage].
    replace (ob_end b + len xs - ob_start b) with (ob_end b - ob_start b + len xs) by lia.
    rewrite window_app by (rewrite ?HL; lia).
    replace (ob_start b + (ob_end b - ob_start b)) with (ob_end b) by lia.
    rewrite window_write_in by lia. f_equal. apply window_write_out; lia.
Qed.
End Ops.

(** The trait laws. *)
Definition oi_ok (b : OsBuf) : Prop := os_buf_ok (oi_cells b) (oi_inner b).

Lemma oi_bytes b : oi_ok b → bytes_of b = os_packet (oi_inner b).
Proof. intros Hb. unfold bytes_of. cbn. by destruct (os_segments_ok _ _ Hb) as (segs & -> & <-). Qed.

Lemma oi_headroom b : oi_ok b →
  pb_headroom b = Ret (ob_start (oi_inner b) - l2_headroom (oc_layout (ob_ctx (oi_inner b)))).
Proof. intros Hb. cbn. by apply os_headroom_ok. Qed.

Lemma oi_tailroom b : oi_ok b → pb_tailroom b = len (ob_storage (oi_inner b)) - ob_end (oi_inner b).
Proof. intros Hb. cbn. by rewrite os_tailroom_ok. Qed.

Lemma os_read_ok packet off n : 0 ≤ off → 0 ≤ n → len packet ≤ USIZE_MAX →
  os_read_contiguous packet off n
  = match slice packet off (off + n) with Some s => Ok s | None => Err (OutOfBounds off n (len packet)) end.
Proof.
  intros Ho Hn HL. unfold os_read_contiguous, checked_add. destruct (Z.ltb_spec (off + n) (2 ^ 64)); [done|].
  destruct (slice packet off (off + n)) eqn:E; [|done]. apply slice_inv in E as (_ & ? & _). unfold USIZE_MAX, U64_MAX in HL. lia.
Qed.

#[export] Instance os_buffer_laws : PacketBufferLaws OsBuf OsBuf oi_ok.
Proof.
  split.
  - intros b Hb. rewrite oi_bytes by done. by rewrite (os_packet_len _ _ Hb).
  - intros b Hb. rewrite oi_headroom by done. destruct Hb. eexists. split; [done|lia].
  - intros b off n Hb Hoff Hn. rewrite oi_bytes by done. cbn. unfold os_read_at_exact.
    rewrite os_as_slice_ok by done. run. pose proof (os_packet_len _ _ Hb) as HL. rewrite <- HL. cbn [ret_or].
    apply os_read_ok; [done|done|]. destruct Hb. unfold os_len in HL. lia.
  - intros b xs h Hb Hh. rewrite oi_headroom in Hh by done. injection Hh as <-.
    pose proof (os_prepend_ok _ _ xs Hb) as Hp. cbn zeta in Hp. cbn [pb_prepend os_packet_buffer_mut].
    destruct (Z.leb_spec (len xs) (ob_start (oi_inner b) - l2_headroom (oc_layout (ob_ctx (oi_inner b))))).
    + destruct Hp as (b' & -> & Hok & Hpk & Hs & He & Hc & _ & _ & HL). run. eexists (mkOsBufIn (oi_cells b) b'), _.
      split; [reflexivity|]. assert (Hb' : oi_ok (mkOsBufIn (oi_cells b) b')) by done.
      rewrite !oi_bytes, oi_headroom, !oi_tailroom by done. cbn [oi_inner pb_layout os_packet_buffer].
      rewrite Hs, He, Hc, HL. split_and!; try done. f_equal. lia.
    + rewrite Hp. run. eexists _, _. split; [reflexivity|]. by destruct b.
  - intros b xs Hb. rewrite (oi_tailroom b Hb), (oi_bytes b Hb), (oi_headroom b Hb).
    pose proof (os_extend_ok _ _ xs Hb) as Hp. cbn zeta in Hp. cbn [pb_extend_from_slice os_packet_buffer_mut].
    destruct (Z.leb_spec (len xs) (len (ob_storage (oi_inner b)) - ob_end (oi_inner b))).
    + destruct Hp as (b' & -> & Hok & Hpk & Hs & He & Hc & _ & _ & HL). run. eexists (mkOsBufIn (oi_cells b) b'), _.
      split; [reflexivity|]. assert (Hb' : oi_ok (mkOsBufIn (oi_cells b) b')) by done.
      rewrite oi_bytes, oi_headroom, oi_tailroom by done. cbn [oi_inner pb_layout os_packet_buffer].
      rewrite Hs, He, Hc, HL. split_and!; try done. lia.
    + rewrite Hp. run. eexists _, _. split; [reflexivity|]. by destruct b.
  - intros b n h Hb Hn Hh. rewrite oi_headroom in Hh by done. injection Hh as <-.
    rewrite (oi_tailroom b Hb), (oi_bytes b Hb). cbn [pb_trim_prefix os_packet_buffer_mut pb_len os_packet_buffer]. unfold os_trim_prefix.
    destruct (Z.ltb_spec (os_len (oi_inner b)) n), (Z.leb_spec n (os_len (oi_inner b))); try lia; [by destruct b|].
    destruct (Hb). unfold os_len in *. cbn [fst snd].
    assert (Hb' : oi_ok (mkOsBufIn (oi_cells b) (os_with_bounds (oi_inner b) (ob_start (oi_inner b) + n) (ob_end (oi_inner b))))).
    { constructor; cbn; try done; lia. }
    split; [done|]. rewrite oi_bytes, (oi_tailroom _ Hb'), (oi_headroom _ Hb') by done.
    cbn [oi_inner ob_storage ob_start ob_end ob_ctx os_with_bounds]. unfold os_packet, os_len. cbn [ob_storage ob_start ob_end os_with_bounds].
    rewrite window_drop by lia. split_and!; try done; f_equal; lia.
  - intros b n Hb Hn. rewrite (oi_headroom b Hb), (oi_tailroom b Hb), (oi_bytes b Hb).
    cbn [pb_trim_suffix os_packet_buffer_mut pb_len os_packet_buffer]. unfold os_trim_suffix.
    destruct (Z.ltb_spec (os_len (oi_inner b)) n), (Z.leb_spec n (os_len (oi_inner b))); try lia; [by destruct b|].
    destruct (Hb). unfold os_len in *. cbn [fst snd].
    assert (Hb' : oi_ok (mkOsBufIn (oi_cells b) (os_with_bounds (oi_inner b) (ob_start (oi_inner b)) (ob_end (oi_inner b) - n)))).
    { constructor; cbn; try done; lia. }
    split; [done|]. rewrite oi_bytes, (oi_tailroom _ Hb'), (oi_headroom _ Hb') by done.
    cbn [oi_inner ob_storage ob_start ob_end ob_ctx os_with_bounds]. unfold os_packet, os_len. cbn [ob_storage ob_start ob_end os_with_bounds].
    rewrite window_take by lia. split_and!; try done; [f_equal; lia|lia].
  - done.
Qed.

(** ** Pools *)
Section PoolProofs.
Context {Q : Type} `{!ArrayQueue Q (list Z), !ArrayQueueLaws Q (list Z)}.
Implicit Types (p : OsPoolInner Q) (h : OsHeap Q).

Lemma reclaim_pop_ok {T : Type} `{!ArrayQueue Q T, !ArrayQueueLaws Q T} cap (r : FrameReclaim Q T) : reclaim_ok cap r →
  ∃ r' o, reclaim_pop r = Ret (r', o) ∧ reclaim_ok cap r' ∧
    match o with
    | Some x => Permutation (held r) (x :: held r')
    | None => held r = [] ∧ held r' = []
    end.
Proof.
  intros Hok. unfold reclaim_pop.
  assert (Hd : ∃ r1, (if len (rc_free r) =? 0 then reclaim_drain_remote r else Ret r) = Ret r1 ∧ reclaim_ok cap r1 ∧
    held r1 = held r ∧ (rc_free r1 = [] → held r = [])).
  { destruct (Z.eqb_spec (len (rc_free r)) 0) as [E|E].
    - destruct (drain_remote_ok cap r Hok) as (r1 & -> & H1 & H2 & H3 & _). exists r1. unfold held at 1. rewrite H3, app_nil_r, H2. naive_solver.
    - exists r. split_and!; try done. intros Hn. rewrite Hn in E. done. }
  destruct Hd as (r1 & -> & [Hl Hb Hc Hv] & Hh & Hn). run. unfold vec_pop. rewrite <- Hh.
  destruct (rc_free r1) as [|x l _] eqn:Hf using rev_ind.
  - eexists _, None. split; [reflexivity|]. rewrite Hh, Hn by done. split_and!; [|done|].
    + constructor; cbn; try done.
    + pose proof (Hn eq_refl) as Hz. rewrite <- Hh in Hz. unfold held in Hz |- *. rewrite Hf in Hz. exact Hz.
  - rewrite last_snoc, removelast_last. eexists _, (Some x). split; [reflexivity|]. split.
    + constructor; cbn; try done. rewrite len_snoc in Hv. lia.
    + unfold held. rewrite Hf. cbn. change (remote_items {| rc_free := l; rc_cap := rc_cap r1; rc_remote := rc_remote r1 |}) with (remote_items r1).
      rewrite <- app_assoc. symmetry. apply Permutation_middle.
Qed.

(** [out] buffers of the pool are in use. *)
Record pool_ok (layout : BufferLayout) (out : Z) p : Prop := mkPoolOk {
  pk_lists : reclaim_ok (Z.max (po_max_buffers p) 1) (po_lists p);
  pk_sizes : Forall (λ s, len s = allocation_len layout) (held (po_lists p));
  pk_out : 0 ≤ out;
  pk_count : po_allocated p = len (held (po_lists p)) + out;
  pk_max : po_allocated p ≤ po_max_buffers p ≤ 2 ^ 63;
}.

(** What no operation changes. *)
Definition pool_same p p' : Prop :=
  po_owner p' = po_owner p ∧ po_max_buffers p' = po_max_buffers p ∧ po_epoch p' = po_epoch p.

Lemma len_perm {A} (l k : list A) : Permutation l k → len l = len k.
Proof. intros Hp. unfold len. by rewrite Hp. Qed.

Lemma pool_pop_ok layout out p : pool_ok layout out p →
  ∃ p' o, os_pool_pop (po_owner p) p = Ret (p', o) ∧ pool_same p p' ∧ po_allocated p' = po_allocated p ∧
    match o with
    | Some s => len s = allocation_len layout ∧ pool_ok layout (out + 1) p'
    | None => po_allocated p = out ∧ pool_ok layout out p'
    end.
Proof.
  intros [Hl Hs Ho Hc Hm]. unfold os_pool_pop. rewrite Z.eqb_refl.
  destruct (reclaim_pop_ok _ _ Hl) as (r' & o & -> & Hr & Hp). run. eexists _, o. split; [reflexivity|].
  split; [done|]. split; [done|]. destruct o as [s|].
  - rewrite Hp, Forall_cons in Hs. destruct Hs as [Hs1 Hs2]. split; [done|]. constructor; cbn; try done; [lia|].
    rewrite Hc, (len_perm _ _ Hp), len_cons. lia.
  - destruct Hp as [Hp1 Hp2]. rewrite Hp1 in Hc. split; [done|]. constructor; cbn; try done; rewrite Hp2; [constructor|done].
Qed.

Lemma pool_grow_ok layout out p : 0 ≤ allocation_len layout → pool_ok layout out p →
  ∃ p' n, os_pool_grow (po_owner p) p layout = Ret (p', n) ∧ pool_same p p' ∧ pool_ok layout out p' ∧
    po_allocated p' = po_allocated p + n ∧
    (if po_allocated p =? po_max_buffers p then n = 0 ∧ p' = p else 0 < n).
Proof.
  intros Ha [Hl Hs Ho Hc Hm]. unfold os_pool_grow, saturating_sub. rewrite Z.eqb_refl.
  pose proof (len_nonneg (held (po_lists p))).
  destruct (Z.eqb_spec (po_allocated p) (po_max_buffers p)) as [E|E].
  - replace (Z.max 0 (po_max_buffers p - po_allocated p)) with 0 by lia. cbn. eexists _, _. split; [reflexivity|].
    split_and!; try done. lia.
  - replace (Z.max 0 (po_max_buffers p - po_allocated p)) with (po_max_buffers p - po_allocated p) by lia.
    destruct (Z.eqb_spec (po_max_buffers p - po_allocated p) 0); [lia|].
    set (chunk := Z.min SLAB_SIZE (po_max_buffers p - po_allocated p)).
    assert (Hch : 0 < chunk ≤ po_max_buffers p - po_allocated p) by (unfold chunk, SLAB_SIZE; lia).
    rewrite add_usize_ok by (unfold USIZE_MAX, U64_MAX; lia). run. eexists _, _. split; [reflexivity|].
    split; [done|]. split; [|split; [done|lia]]. destruct Hl as [Hl Hb Hr Hv].
    assert (Hh : held (with_free (po_lists p) (rc_free (po_lists p) ++
        replicate (Z.to_nat chunk) (replicate (Z.to_nat (allocation_len layout)) 0)))
      = rc_free (po_lists p) ++ replicate (Z.to_nat chunk) (replicate (Z.to_nat (allocation_len layout)) 0) ++ remote_items (po_lists p)).
    { unfold held. cbn. by rewrite <- app_assoc. }
    unfold held in Hs, Hc. rewrite Forall_app in Hs. destruct Hs as [Hs1 Hs2]. rewrite len_app in Hc.
    constructor; cbn [po_lists po_allocated po_max_buffers]; try done.
    + constructor; cbn; try done. lia.
    + rewrite Hh, !Forall_app. split_and!; [done| |done]. apply Forall_replicate. by rewrite len_replicate by lia.
    + rewrite Hh, !len_app, len_replicate by lia. lia.
    + lia.
Qed.

Lemma take_storage_ok layout out p : 0 ≤ allocation_len layout → pool_ok layout out p →
  ∃ p' o, os_take_storage (po_owner p) p layout = Ret (p', o) ∧ pool_same p p' ∧
    match o with
    | Some s => out < po_max_buffers p ∧ len s = allocation_len layout ∧ pool_ok layout (out + 1) p'
    | None => out = po_max_buffers p ∧ pool_ok layout out p'
    end.
Proof.
  intros Ha Hok. unfold os_take_storage. destruct (pool_pop_ok _ _ _ Hok) as (p1 & o & -> & (Ho1 & Hm1 & He1) & Hal & Hp). run.
  destruct o as [s|].
  { eexists _, _. split; [reflexivity|]. split; [done|]. destruct Hp as [Hs Hp]. destruct Hp as [? ? ? Hc Hm].
    split_and!; try done. pose proof (len_nonneg (held (po_lists p1))). lia. }
  destruct Hp as [Hout Hok1]. rewrite <- Ho1. destruct (pool_grow_ok layout out p1 Ha Hok1) as (p2 & n & -> & (Ho2 & Hm2 & He2) & Hok2 & Hal2 & Hg). run.
  destruct (Z.eqb_spec (po_allocated p1) (po_max_buffers p1)) as [E|E].
  - destruct Hg as [-> ->]. cbn. eexists _, _. split; [reflexivity|]. split; [done|]. split; [lia|done].
  - destruct (Z.eqb_spec n 0); [lia|]. rewrite <- Ho2. destruct (pool_pop_ok _ _ _ Hok2) as (p3 & o & -> & (Ho3 & Hm3 & He3) & Hal3 & Hp).
    eexists _, _. split; [reflexivity|]. split; [unfold pool_same; by rewrite Ho3, Hm3, He3, Ho2, Hm2, He2|].
    destruct o as [s|]; [|destruct Hp; lia]. destruct Hp as [Hs Hp]. split_and!; try done. destruct Hok1. lia.
Qed.

Lemma pool_push_ok layout out thread p s : pool_ok layout out p → 0 < out → len s = allocation_len layout →
  ∃ p', os_pool_push thread p s = Ret p' ∧ pool_same p p' ∧ pool_ok layout (out - 1) p'.
Proof.
  intros [Hl Hs Ho Hc Hm] H0 Hlen. unfold os_pool_push.
  destruct (reclaim_push_ok _ (thread =? po_owner p) (po_lists p) s Hl) as (r' & -> & Hr & Hp & _); [lia|]. run.
  eexists. split; [reflexivity|]. split; [done|]. constructor; cbn; try done.
  - by rewrite Hp, Forall_cons.
  - lia.
  - rewrite Hc, (len_perm _ _ Hp), len_cons. lia.
Qed.
End PoolProofs.
