(* ===== verification/OsPools.v ===== *)
(** * Pools and buffers of the kernel-socket backend over time

    Any number of pools, with buffers allocated, edited and dropped on any
    thread, and pools dropped before or after their buffers. *)
From S2P Require Import Prelude Bits Core Buffer BufferSpec Window Reclaim ReclaimProofs ReclaimMain PacketBuf OsBuffer OsBufferProofs.
Open Scope Z_scope.

Section Time.
Context {Q : Type} `{!ArrayQueue Q (list Z), !ArrayQueueLaws Q (list Z)}.

Record ostate := mkO {
  o_heap : OsHeap Q;
  o_live : list OsBufCtx; (** the pools that exist *)
  o_bufs : list OsPacketBufInner; (** the buffers that exist *)
}.
Definition o_cells (s : ostate) : Cells := hp_cells (o_heap s).
Definition o_pools (s : ostate) : gmap Z (OsPoolInner Q) := hp_pools (o_heap s).

Inductive oreach : ostate → Prop :=
  | oreach_init : oreach (mkO (mkOsHeap ∅ (mkCells ∅ 1)) [] [])
  | oreach_new s thread layout max h c :
      oreach s → layout_ok layout → chunk_size layout ≤ USIZE_MAX → 0 ≤ max ≤ 2 ^ 63 →
      ce_next (o_cells s) < U64_MAX →
      os_pool_with_max_buffers thread (o_heap s) layout max = Ret (h, c) →
      oreach (mkO h (c :: o_live s) (o_bufs s))
  | oreach_allocate s thread c h o :
      oreach s → c ∈ o_live s → os_allocate thread (o_heap s) c = Ret (h, o) →
      oreach (mkO h (o_live s) (option_list o ++ o_bufs s))
  | oreach_edit s l1 b l2 op b' r :
      oreach s → o_bufs s = l1 ++ b :: l2 → op_wf op → run_op (mkOsBufIn (o_cells s) b) op = Ret (b', r) →
      oreach (mkO (o_heap s) (o_live s) (l1 ++ oi_inner b' :: l2))
  | oreach_drop s thread l1 b l2 h :
      oreach s → o_bufs s = l1 ++ b :: l2 → os_drop_buf thread (o_heap s) b = Ret h →
      oreach (mkO h (o_live s) (l1 ++ l2))
  | oreach_drop_pool s l1 c l2 h :
      oreach s → o_live s = l1 ++ c :: l2 → os_pool_drop (o_heap s) (oc_reclaim c) = Ret h →
      oreach (mkO h (l1 ++ l2) (o_bufs s)).

Definition alive (c : Cells) (e : OwnerEpoch) : Prop := ce_cells c !! oe_shared e = Some (oe_generation e).
#[export] Instance alive_dec c e : Decision (alive c e).
Proof. unfold alive. apply _. Defined.

(** The buffers a pool has issued that still exist. *)
Definition issued (p : OsPoolInner Q) (bs : list OsPacketBufInner) : Z := len (filter (λ b, ob_epoch b = po_epoch p) bs).

(** A buffer whose pool lives: what ties it to the pool. *)
Definition buf_of (s : ostate) (b : OsPacketBufInner) : Prop :=
  ∃ p, o_pools s !! oc_reclaim (ob_ctx b) = Some p ∧ ob_ctx b ∈ o_live s ∧ ob_epoch b = po_epoch p ∧
    len (ob_storage b) = allocation_len (oc_layout (ob_ctx b)) ∧ os_buf_ok (o_cells s) b.

Definition pool_of (s : ostate) (c : OsBufCtx) : Prop :=
  layout_ok (oc_layout c) ∧ chunk_size (oc_layout c) ≤ USIZE_MAX ∧
  ∃ p, o_pools s !! oc_reclaim c = Some p ∧ pool_ok (oc_layout c) (issued p (o_bufs s)) p ∧
    alive (o_cells s) (po_epoch p) ∧ oe_generation (po_epoch p) ≠ DEAD.

Record os_inv (s : ostate) : Prop := mkOsInv {
  iv_pools : Forall (pool_of s) (o_live s);
  iv_addrs : NoDup (oc_reclaim <$> o_live s);
  iv_dom a p : o_pools s !! a = Some p → a ∈ oc_reclaim <$> o_live s;
  iv_epochs a1 a2 p1 p2 : o_pools s !! a1 = Some p1 → o_pools s !! a2 = Some p2 →
    oe_shared (po_epoch p1) = oe_shared (po_epoch p2) → a1 = a2;
  iv_bufs : Forall (λ b, ob_armed b = true ∧ oe_generation (ob_epoch b) ≠ DEAD ∧
    is_Some (ce_cells (o_cells s) !! oe_shared (ob_epoch b)) ∧ (alive (o_cells s) (ob_epoch b) → buf_of s b)) (o_bufs s);
  iv_next : 1 ≤ ce_next (o_cells s);
}.

Lemma issued_cons p b bs : issued p (b :: bs) = issued p bs + (if decide (ob_epoch b = po_epoch p) then 1 else 0).
Proof. unfold issued. rewrite filter_cons. case_decide; [rewrite len_cons|]; lia. Qed.

Lemma issued_none p bs : (∀ b, b ∈ bs → ob_epoch b ≠ po_epoch p) → issued p bs = 0.
Proof.
  induction bs as [|b bs IH]; intros Hn; [done|]. rewrite issued_cons, decide_False, IH; [done| |apply Hn; left]. intros b' Hb. apply Hn. by right.
Qed.

Lemma issued_middle p l1 b l2 : issued p (l1 ++ b :: l2) = issued p (b :: l1 ++ l2).
Proof. unfold issued. apply len_perm. by rewrite Permutation_middle. Qed.

Lemma issued_perm p bs bs' : Permutation bs bs' → issued p bs = issued p bs'.
Proof. intros Hp. unfold issued. apply len_perm. by rewrite Hp. Qed.

Lemma issued_epoch p p' bs : po_epoch p' = po_epoch p → issued p' bs = issued p bs.
Proof. intros E. unfold issued. f_equal. apply list_filter_iff. intros b. by rewrite E. Qed.

(** Editing changes the bytes and the bounds only. *)
Lemma os_write_frame cells b start bytes b' : os_write cells b start bytes = Ret b' →
  ∃ storage, b' = os_with_storage b storage ∧ len storage = len (ob_storage b).
Proof.
  unfold os_write, os_storage, assert_owner_alive. destruct (bool_decide _); cbn; [|done].
  destruct (Z.leb_spec 0 start), (Z.leb_spec (start + len bytes) (len (ob_storage b))); cbn; try done.
  intros [= <-]. eexists. split; [done|]. apply len_write_at; lia.
Qed.

Lemma run_op_frame cells b op b' r : run_op (mkOsBufIn cells b) op = Ret (b', r) →
  oi_cells b' = cells ∧ ob_ctx (oi_inner b') = ob_ctx b ∧ ob_epoch (oi_inner b') = ob_epoch b ∧
  ob_armed (oi_inner b') = ob_armed b ∧ len (ob_storage (oi_inner b')) = len (ob_storage b).
Proof.
  destruct op as [xs|xs|n|n]; cbn -[len]; intros E.
  - apply bind_ret_inv in E as ([b1 r1] & E1 & [= <- <-]). apply bind_ret_inv in E1 as ([b2 r2] & E1 & [= <- <-]).
    unfold os_prepend in E1. apply bind_ret_inv in E1 as (hd & _ & E1). destruct (hd <? len xs); [by injection E1 as <- <-|].
    apply bind_ret_inv in E1 as (b3 & E3 & [= <- <-]). by apply os_write_frame in E3 as (st & -> & HL).
  - apply bind_ret_inv in E as ([b1 r1] & E1 & [= <- <-]). apply bind_ret_inv in E1 as ([b2 r2] & E1 & [= <- <-]).
    unfold os_extend_from_slice in E1. apply bind_ret_inv in E1 as (hd & _ & E1). destruct (hd <? len xs); [by injection E1 as <- <-|].
    apply bind_ret_inv in E1 as (b3 & E3 & [= <- <-]). by apply os_write_frame in E3 as (st & -> & HL).
  - injection E as <- _. unfold os_trim_prefix. by destruct (_ <? n).
  - injection E as <- _. unfold os_trim_suffix. by destruct (_ <? n).
Qed.

Lemma run_op_keeps cells b op b' r : os_buf_ok cells b → op_wf op → run_op (mkOsBufIn cells b) op = Ret (b', r) →
  os_buf_ok cells (oi_inner b').
Proof.
  intros Hok Hop E. destruct (run_op_frame _ _ _ _ _ E) as (<- & _).
  destruct (run_op_refines oi_ok (mkOsBufIn (oi_cells b') b) op) as (b2 & r2 & E2 & Hb2 & _); [done|done|].
  rewrite E in E2. by injection E2 as <- <-.
Qed.

(** ** The invariant *)
Definition buf_good (s : ostate) (b : OsPacketBufInner) : Prop :=
  ob_armed b = true ∧ oe_generation (ob_epoch b) ≠ DEAD ∧
  is_Some (ce_cells (o_cells s) !! oe_shared (ob_epoch b)) ∧ (alive (o_cells s) (ob_epoch b) → buf_of s b).

Lemma live_pool s c : os_inv s → c ∈ o_live s →
  ∃ p, o_pools s !! oc_reclaim c = Some p ∧ pool_ok (oc_layout c) (issued p (o_bufs s)) p ∧
    alive (o_cells s) (po_epoch p) ∧ oe_generation (po_epoch p) ≠ DEAD ∧ layout_ok (oc_layout c) ∧ chunk_size (oc_layout c) ≤ USIZE_MAX.
Proof.
  intros Hi Hc. pose proof (iv_pools _ Hi) as Hp. rewrite Forall_forall in Hp. destruct (Hp c Hc) as (Hl & Hs & p & H1 & H2 & H3 & H4). eauto 10.
Qed.

Lemma live_unique s c c' : os_inv s → c ∈ o_live s → c' ∈ o_live s → oc_reclaim c = oc_reclaim c' → c = c'.
Proof.
  intros Hi Hc Hc' E. apply list_elem_of_lookup in Hc as [i Hc]. apply list_elem_of_lookup in Hc' as [j Hc'].
  pose proof (iv_addrs _ Hi) as Hn. rewrite NoDup_alt in Hn. assert (i = j) as ->; [|congruence].
  apply (Hn i j (oc_reclaim c)); rewrite list_lookup_fmap; [by rewrite Hc|rewrite Hc'; cbn; by rewrite E].
Qed.

(** A pool changes while the cells stay. *)
Lemma inv_update s c p p' bs : os_inv s → c ∈ o_live s → o_pools s !! oc_reclaim c = Some p → pool_same p p' →
  pool_ok (oc_layout c) (issued p bs) p' →
  (∀ a p2, o_pools s !! a = Some p2 → a ≠ oc_reclaim c → issued p2 bs = issued p2 (o_bufs s)) →
  Forall (buf_good s) bs →
  os_inv (mkO (mkOsHeap (<[oc_reclaim c := p']> (o_pools s)) (o_cells s)) (o_live s) bs).
Proof.
  intros Hi Hc Hp (Ho & Hm & He) Hok Hoth Hbs. set (s' := mkO _ _ _).
  assert (Hlook : ∀ a p2, o_pools s' !! a = Some p2 → ∃ p1, o_pools s !! a = Some p1 ∧ po_epoch p2 = po_epoch p1).
  { intros a p2. unfold o_pools. cbn. destruct (decide (a = oc_reclaim c)) as [->|Hne].
    - rewrite lookup_insert_eq. intros [= <-]. by exists p.
    - rewrite lookup_insert_ne by done. eauto. }
  constructor; cbn [o_live].
  - pose proof (iv_pools _ Hi) as Hf. rewrite Forall_forall in Hf |- *. intros c2 Hc2.
    destruct (Hf c2 Hc2) as (Hl & Hs & p2 & H1 & H2 & H3 & H4). split; [done|]. split; [done|].
    destruct (decide (oc_reclaim c2 = oc_reclaim c)) as [E|Hne].
    + assert (c2 = c) as -> by (by apply (live_unique s)). exists p'. unfold o_pools. cbn. rewrite lookup_insert_eq.
      rewrite Hp in H1. injection H1 as ->. rewrite He, (issued_epoch p2 p') by done. done.
    + exists p2. unfold o_pools. cbn. rewrite lookup_insert_ne by done. rewrite (Hoth (oc_reclaim c2) p2) by done. done.
  - apply (iv_addrs _ Hi).
  - intros a p2 H2. destruct (Hlook a p2 H2) as (p1 & H1 & _). by apply (iv_dom _ Hi a p1).
  - intros a1 a2 p1 p2 H1 H2 Heq. destruct (Hlook _ _ H1) as (q1 & K1 & E1), (Hlook _ _ H2) as (q2 & K2 & E2).
    rewrite E1, E2 in Heq. by apply (iv_epochs _ Hi a1 a2 q1 q2).
  - eapply Forall_impl; [exact Hbs|]. intros b (H1 & H2 & H3 & H4). split_and!; try done. intros Ha. destruct (H4 Ha) as (pb & K1 & K2 & K3 & K4 & K5).
    destruct (decide (oc_reclaim (ob_ctx b) = oc_reclaim c)) as [E|Hne].
    + exists p'. unfold o_pools. cbn. rewrite E, lookup_insert_eq. rewrite E, Hp in K1. injection K1 as ->. rewrite He. done.
    + exists pb. unfold o_pools. cbn. rewrite lookup_insert_ne by done. done.
  - apply (iv_next _ Hi).
Qed.

(** The fresh buffer of an allocation. *)
Lemma fresh_buf_ok s c p storage : os_inv s → c ∈ o_live s → o_pools s !! oc_reclaim c = Some p → alive (o_cells s) (po_epoch p) →
  layout_ok (oc_layout c) → chunk_size (oc_layout c) ≤ USIZE_MAX → len storage = allocation_len (oc_layout c) →
  os_buf_ok (o_cells s) (mkOsBuf storage c (epoch_token (po_epoch p)) true (data_offset (oc_layout c)) (data_offset (oc_layout c))).
Proof.
  intros Hi Hc Hp Ha [] Hs Hl. unfold allocation_len in Hl. constructor; cbn; try done; lia.
Qed.

Lemma allocate_ok s c : os_inv s → c ∈ o_live s →
  ∃ p p' h o, o_pools s !! oc_reclaim c = Some p ∧ os_allocate (po_owner p) (o_heap s) c = Ret (h, o) ∧
    os_inv (mkO h (o_live s) (option_list o ++ o_bufs s)) ∧
    h = mkOsHeap (<[oc_reclaim c := p']> (o_pools s)) (o_cells s) ∧ pool_same p p' ∧
    match o with
    | Some b => issued p (o_bufs s) < po_max_buffers p ∧ ob_ctx b = c ∧ ob_epoch b = po_epoch p ∧ os_buf_ok (o_cells s) b ∧
        ob_start b = data_offset (oc_layout c) ∧ ob_end b = data_offset (oc_layout c) ∧
        len (ob_storage b) = chunk_size (oc_layout c)
    | None => issued p (o_bufs s) = po_max_buffers p
    end.
Proof.
  intros Hi Hc. destruct (live_pool s c Hi Hc) as (p & Hp & Hok & Ha & Hg & Hl & Hs). exists p.
  unfold os_allocate. change (hp_pools (o_heap s)) with (o_pools s). rewrite Hp.
  destruct (take_storage_ok (oc_layout c) (issued p (o_bufs s)) p) as (p' & o & -> & Hsame & Ho); [destruct Hl; unfold allocation_len; lia|exact Hok|]. run.
  destruct o as [storage|].
  - destruct Ho as (Hlt & HL & Hok'). rewrite HL, Z.eqb_refl. cbn [negb]. unfold os_from_storage. rewrite HL.
    destruct (Z.leb_spec (data_offset (oc_layout c)) (allocation_len (oc_layout c))); [|destruct Hl; unfold allocation_len in *; lia]. run.
    set (b := mkOsBuf _ _ _ _ _ _). assert (Hep : ob_epoch b = po_epoch p).
    { cbn. destruct Hsame as (_ & _ & ->). by destruct (po_epoch p). }
    assert (Hbok : os_buf_ok (o_cells s) b).
    { unfold b. destruct Hsame as (_ & _ & ->). by apply fresh_buf_ok. }
    exists p'. eexists _, _. split; [done|]. split; [reflexivity|]. split; [|split_and!; done].
    change (option_list (Some b) ++ o_bufs s) with (b :: o_bufs s).
    apply (inv_update s c p p'); [done..|rewrite issued_cons, decide_True by done; done| |].
    + intros a p2 H2 Hne. rewrite issued_cons, decide_False; [lia|]. rewrite Hep. intros E. apply Hne.
      apply (iv_epochs _ Hi a (oc_reclaim c) p2 p); [done|done|by rewrite E].
    + constructor; [|apply (iv_bufs _ Hi)]. split_and!; [done|by rewrite Hep|rewrite Hep; by eexists|].
      intros _. exists p. split_and!; try done.
  - destruct Ho as [Ho Hok']. exists p'. eexists _, None. split; [done|]. split; [reflexivity|]. split; [|done].
    apply (inv_update s c p p'); try done. apply (iv_bufs _ Hi).
Qed.

Lemma buf_in s l1 b l2 : os_inv s → o_bufs s = l1 ++ b :: l2 → buf_good s b ∧ Forall (buf_good s) (l1 ++ l2).
Proof.
  intros Hi Hb. pose proof (iv_bufs _ Hi) as Hf. rewrite Hb in Hf. apply Forall_app in Hf as [H1 [H2 H3]%Forall_cons].
  split; [done|]. by apply Forall_app.
Qed.

Lemma drop_buf_ok s thread l1 b l2 : os_inv s → o_bufs s = l1 ++ b :: l2 →
  if decide (alive (o_cells s) (ob_epoch b)) then
    ∃ h, os_drop_buf thread (o_heap s) b = Ret h ∧ os_inv (mkO h (o_live s) (l1 ++ l2))
  else os_drop_buf thread (o_heap s) b = Panic.
Proof.
  intros Hi Hb. destruct (buf_in s l1 b l2 Hi Hb) as [(Harm & Hg & Hc & Hbo) Hrest].
  unfold os_drop_buf, os_reclaim, assert_owner_alive. rewrite Harm. cbn [negb].
  change (ce_cells (hp_cells (o_heap s)) !! oe_shared (ob_epoch b) = Some (oe_generation (ob_epoch b))) with (alive (o_cells s) (ob_epoch b)).
  case_decide as Ha; [|by rewrite bool_decide_false].
  rewrite bool_decide_true by done. run. destruct (Hbo Ha) as (p & Hp & Hin & He & HL & Hok).
  change (hp_pools (o_heap s)) with (o_pools s). rewrite Hp.
  destruct (live_pool s _ Hi Hin) as (p1 & Hp1 & Hpk & _). rewrite Hp in Hp1. injection Hp1 as <-.
  assert (Hiss : issued p (o_bufs s) = issued p (l1 ++ l2) + 1) by (by rewrite Hb, issued_middle, issued_cons, decide_True).
  assert (Hn : 0 ≤ issued p (l1 ++ l2)) by apply len_nonneg.
  destruct (pool_push_ok (oc_layout (ob_ctx b)) (issued p (o_bufs s)) thread p (ob_storage b)) as (p' & -> & Hsame & Hpk'); [done|lia|done|]. run.
  eexists. split; [reflexivity|]. apply (inv_update s (ob_ctx b) p p'); try done.
  - replace (issued p (l1 ++ l2)) with (issued p (o_bufs s) - 1) by lia. done.
  - intros a p2 H2 Hne. rewrite Hb, issued_middle, issued_cons, decide_False; [lia|]. intros E. apply Hne.
    apply (iv_epochs _ Hi a _ p2 p); [done|done|]. by rewrite <- E, He.
Qed.

(** Replacing the buffers by others of the same epochs. *)
Lemma inv_bufs s bs : os_inv s → (∀ p, issued p bs = issued p (o_bufs s)) → Forall (buf_good s) bs →
  os_inv (mkO (o_heap s) (o_live s) bs).
Proof.
  intros Hi Hiss Hbs. constructor; cbn; try apply Hi; [|done].
  pose proof (iv_pools _ Hi) as Hf. eapply Forall_impl; [exact Hf|]. intros c (Hl & Hs & p & H1 & H2 & H3 & H4).
  split; [done|]. split; [done|]. exists p. rewrite Hiss. done.
Qed.

(** Reordering buffers, and editing several. *)
Lemma inv_perm h live bs bs' : Permutation bs bs' → os_inv (mkO h live bs) → os_inv (mkO h live bs').
Proof.
  intros Hp Hi. apply (inv_bufs (mkO h live bs)); [done| |].
  - intros p. unfold issued. apply len_perm. cbn. by rewrite Hp.
  - rewrite <- Hp. apply (iv_bufs _ Hi).
Qed.

Definition same_handle (cells : Cells) (b b' : OsPacketBufInner) : Prop :=
  ob_ctx b' = ob_ctx b ∧ ob_epoch b' = ob_epoch b ∧ ob_armed b' = ob_armed b ∧
  len (ob_storage b') = len (ob_storage b) ∧ (os_buf_ok cells b → os_buf_ok cells b').

#[export] Instance same_handle_preorder cells : PreOrder (same_handle cells).
Proof.
  split; [done|]. intros b1 b2 b3 (H1 & H2 & H3 & H4 & H5) (K1 & K2 & K3 & K4 & K5).
  split_and!; [congruence|congruence|congruence|congruence|auto].
Qed.

Lemma good_same s b b' : same_handle (o_cells s) b b' → buf_good s b → buf_good s b'.
Proof.
  intros (E1 & E2 & E3 & E4 & E5) (K1 & K2 & K3 & K4). split_and!; [by rewrite E3|by rewrite E2|by rewrite E2|]. rewrite E2. intros Ha.
  destruct (K4 Ha) as (p & M1 & M2 & M3 & M4 & M5). exists p. rewrite E1, E2, E4. split_and!; try done. by apply E5.
Qed.

Lemma issued_same cells (p : OsPoolInner Q) bs bs' more : Forall2 (same_handle cells) bs bs' → issued p (bs' ++ more) = issued p (bs ++ more).
Proof. induction 1 as [|b b' bs bs' (_ & He & _) _ IH]; [done|]. cbn. by rewrite !issued_cons, He, IH. Qed.

Lemma inv_edits h live bs bs' more : Forall2 (same_handle (hp_cells h)) bs bs' →
  os_inv (mkO h live (bs ++ more)) → os_inv (mkO h live (bs' ++ more)).
Proof.
  intros HF Hi. apply (inv_bufs (mkO h live (bs ++ more))); [done| |].
  - intros p. by apply (issued_same (hp_cells h)).
  - pose proof (iv_bufs _ Hi) as Hb. change (Forall (buf_good (mkO h live (bs ++ more))) (bs ++ more)) in Hb.
    remember (mkO h live (bs ++ more)) as s eqn:Es. assert (Hc : hp_cells h = o_cells s) by (by rewrite Es). rewrite Hc in HF. clear Es Hc Hi.
    apply Forall_app in Hb as [H1 H2]. apply Forall_app. split; [|done]. clear H2.
    induction HF as [|b b' bs bs' Hs _ IH]; [constructor|]. apply Forall_cons in H1 as [Hb H1]. constructor; [by eapply good_same|by apply IH].
Qed.


Lemma edit_ok s l1 b l2 op b' r : os_inv s → o_bufs s = l1 ++ b :: l2 → op_wf op →
  run_op (mkOsBufIn (o_cells s) b) op = Ret (b', r) → os_inv (mkO (o_heap s) (o_live s) (l1 ++ oi_inner b' :: l2)).
Proof.
  intros Hi Hb Hop E. destruct (buf_in s l1 b l2 Hi Hb) as [(Harm & Hg & Hc & Hbo) Hrest].
  destruct (run_op_frame _ _ _ _ _ E) as (_ & Hctx & Hep & Har & HL). apply inv_bufs; [done| |].
  - intros p. by rewrite Hb, !issued_middle, !issued_cons, Hep.
  - apply Forall_app in Hrest as [H1 H2]. apply Forall_app. split; [done|]. constructor; [|done].
    split_and!; [by rewrite Har|by rewrite Hep|by rewrite Hep|]. rewrite Hep. intros Ha.
    destruct (Hbo Ha) as (p & K1 & K2 & K3 & K4 & K5). exists p. rewrite Hctx, Hep, HL. split_and!; try done. by eapply run_op_keeps.
Qed.

Lemma new_pool_ok s thread layout max h c : os_inv s → layout_ok layout → chunk_size layout ≤ USIZE_MAX → 0 ≤ max ≤ 2 ^ 63 →
  ce_next (o_cells s) < U64_MAX → os_pool_with_max_buffers thread (o_heap s) layout max = Ret (h, c) →
  os_inv (mkO h (c :: o_live s) (o_bufs s)).
Proof.
  intros Hi Hl Hs Hmax Hnext E. unfold os_pool_with_max_buffers, with_max_segments in E. cbn [Z.leb] in E.
  apply bind_ret_inv in E as (layout1 & E1 & E). change (1 <=? 1) with true in E1. injection E1 as <-. unfold os_pool_inner_new, epoch_new in E.
  set (layout1 := mkLayout _ _ _ _ _ _ _ _ _ _) in E. set (shared := fresh (dom (ce_cells (hp_cells (o_heap s))))) in E.
  set (at_ := fresh (dom (hp_pools (o_heap s)))) in E. set (gen := ce_next (hp_cells (o_heap s))) in E.
  set (p := mkOsPool _ _ _ _ _) in E. injection E as <- <-.
  assert (Hsf : ce_cells (o_cells s) !! shared = None) by (apply not_elem_of_dom, is_fresh).
  assert (Haf : o_pools s !! at_ = None) by (apply not_elem_of_dom, is_fresh).
  assert (Hgen : 1 ≤ gen < U64_MAX) by (split; [apply (iv_next _ Hi)|done]).
  assert (Hold : ∀ e, is_Some (ce_cells (o_cells s) !! oe_shared e) → ce_cells (mkCells (<[shared := gen]> (ce_cells (o_cells s))) (wrapping_add 64 gen 1)) !! oe_shared e = ce_cells (o_cells s) !! oe_shared e).
  { intros e He. cbn. rewrite lookup_insert_ne; [done|]. intros E. rewrite <- E, Hsf in He. by destruct He. }
  assert (Hli : ∀ c2, c2 ∈ o_live s → oc_reclaim c2 ≠ at_).
  { intros c2 Hc2 E. destruct (live_pool s c2 Hi Hc2) as (p2 & H2 & _). rewrite E, Haf in H2. done. }
  constructor; cbn [o_live o_bufs].
  - constructor.
    + split; [destruct Hl; by constructor|]. split; [done|]. exists p. unfold o_pools. cbn. rewrite lookup_insert_eq.
      split; [done|]. split; [|unfold alive; cbn; rewrite lookup_insert_eq; split; [done|unfold DEAD; lia]].
      assert (Hz : issued p (o_bufs s) = 0).
      { apply issued_none. intros b Hb E. pose proof (iv_bufs _ Hi) as Hf. rewrite Forall_forall in Hf.
        destruct (Hf b Hb) as (_ & _ & [x Hx] & _). rewrite E in Hx. cbn in Hx. by rewrite Hsf in Hx. }
      rewrite Hz. destruct (aq_new_law (Z.max max 1)) as [Hn1 Hn2]; [lia|].
      constructor; cbn; try lia; [|unfold held, remote_items; cbn; by rewrite Hn1|unfold held, remote_items; cbn; rewrite Hn1; done].
      constructor; unfold remote_items; cbn; rewrite ?Hn1; done.
    + pose proof (iv_pools _ Hi) as Hf. rewrite Forall_forall in Hf |- *. intros c2 Hc2. destruct (Hf c2 Hc2) as (K1 & K2 & p2 & K3 & K4 & K5 & K6).
      split; [done|]. split; [done|]. exists p2. unfold o_pools. cbn. rewrite lookup_insert_ne by (symmetry; by apply Hli). split_and!; try done.
      unfold alive. etrans; [apply (Hold (po_epoch p2)); by eexists|exact K5].
  - cbn. constructor; [|apply (iv_addrs _ Hi)]. intros (c2 & E & Hc2)%list_elem_of_fmap. by eapply Hli.
  - intros a p2. unfold o_pools. cbn. destruct (decide (a = at_)) as [->|Hne]; [intros _; left|].
    rewrite lookup_insert_ne by done. intros H2. right. by apply (iv_dom _ Hi a p2).
  - assert (Hsh : ∀ a2 p2, o_pools s !! a2 = Some p2 → oe_shared (po_epoch p2) ≠ shared).
    { intros a2 p2 H2 E. pose proof (iv_dom _ Hi a2 p2 H2) as (c2 & -> & Hc2)%list_elem_of_fmap.
      destruct (live_pool s c2 Hi Hc2) as (p3 & H3 & _ & Ha & _). rewrite H2 in H3. injection H3 as <-. unfold alive in Ha. by rewrite E, Hsf in Ha. }
    intros a1 a2 p1 p2. unfold o_pools. cbn.
    destruct (decide (a1 = at_)) as [->|N1], (decide (a2 = at_)) as [->|N2]; rewrite ?lookup_insert_eq, ?lookup_insert_ne by done; [done| | |].
    + intros [= <-] H2 E. cbn in E. exfalso. by eapply Hsh.
    + intros H1 [= <-] E. cbn in E. exfalso. by eapply Hsh.
    + apply (iv_epochs _ Hi).
  - eapply Forall_impl; [apply (iv_bufs _ Hi)|]. intros b (K1 & K2 & K3 & K4).
    pose proof (Hold _ K3) as Hb. split_and!; try done; [change (is_Some (ce_cells (mkCells (<[shared := gen]> (ce_cells (o_cells s))) (wrapping_add 64 gen 1)) !! oe_shared (ob_epoch b))); by rewrite Hb|].
    intros Ha. assert (Ha' : alive (o_cells s) (ob_epoch b)) by (unfold alive; rewrite <- Hb; exact Ha). destruct (K4 Ha') as (pb & M1 & M2 & M3 & M4 & M5). exists pb. unfold o_pools. cbn.
    rewrite lookup_insert_ne by (symmetry; by apply Hli). split_and!; try done; [by right|]. destruct M5. by constructor.
  - unfold o_cells. cbn. unfold wrapping_add, U64_MAX in *. rewrite wrap_small; [lia|]. unfold fits. lia.
Qed.

Lemma drop_pool_ok s l1 c l2 h : os_inv s → o_live s = l1 ++ c :: l2 → os_pool_drop (o_heap s) (oc_reclaim c) = Ret h →
  os_inv (mkO h (l1 ++ l2) (o_bufs s)).
Proof.
  intros Hi Hl E. assert (Hc : c ∈ o_live s) by (rewrite Hl; set_solver).
  destruct (live_pool s c Hi Hc) as (p & Hp & _ & Hpa & Hg & _). unfold os_pool_drop in E. change (hp_pools (o_heap s)) with (o_pools s) in E.
  rewrite Hp in E. injection E as <-. pose proof (iv_addrs _ Hi) as Hn. rewrite Hl, fmap_app, fmap_cons in Hn.
  apply NoDup_app in Hn as (Hn1 & Hn2 & [Hn3 Hn4]%NoDup_cons).
  assert (Hne : ∀ c2, c2 ∈ l1 ++ l2 → oc_reclaim c2 ≠ oc_reclaim c).
  { intros c2 Hc2 E. apply elem_of_app in Hc2 as [H2|H2].
    - apply (Hn2 (oc_reclaim c2)); [by apply list_elem_of_fmap_2|]. rewrite E. left.
    - apply Hn3. rewrite <- E. by apply list_elem_of_fmap_2. }
  assert (Hin : ∀ c2, c2 ∈ l1 ++ l2 → c2 ∈ o_live s) by (intros c2; rewrite Hl; set_solver).
  assert (Hcell : ∀ e, oe_shared e ≠ oe_shared (po_epoch p) → alive (epoch_drop (o_cells s) (po_epoch p)) e ↔ alive (o_cells s) e).
  { intros e He. unfold alive, epoch_drop. cbn. by rewrite lookup_insert_ne. }
  assert (Hsh : ∀ a p2, o_pools s !! a = Some p2 → a ≠ oc_reclaim c → oe_shared (po_epoch p2) ≠ oe_shared (po_epoch p)).
  { intros a p2 H2 Ha E. by apply Ha, (iv_epochs _ Hi a (oc_reclaim c) p2 p). }
  constructor; cbn [o_live o_bufs].
  - rewrite Forall_forall. intros c2 Hc2. destruct (live_pool s c2 Hi (Hin _ Hc2)) as (p2 & H2 & Hpk & Ha & Hg2 & Hl2 & Hs2).
    split; [done|]. split; [done|]. exists p2. unfold o_pools. cbn. rewrite lookup_delete_ne by (symmetry; by apply Hne).
    split_and!; try done. apply Hcell; [|done]. apply (Hsh (oc_reclaim c2)); [done|by apply Hne].
  - rewrite fmap_app. apply NoDup_app. split_and!; [done| |done]. intros x Hx Hx2. apply (Hn2 x Hx). by right.
  - intros a p2. unfold o_pools. cbn. rewrite lookup_delete_Some. intros [Ha H2]. pose proof (iv_dom _ Hi a p2 H2) as Hd.
    rewrite Hl, fmap_app, fmap_cons in Hd. rewrite fmap_app. set_solver.
  - intros a1 a2 p1 p2. unfold o_pools. cbn. rewrite !lookup_delete_Some. intros [_ H1] [_ H2]. by apply (iv_epochs _ Hi).
  - eapply Forall_impl; [apply (iv_bufs _ Hi)|]. intros b (K1 & K2 & K3 & K4). split_and!; try done.
    { unfold o_cells. cbn. destruct (decide (oe_shared (po_epoch p) = oe_shared (ob_epoch b))) as [->|]; [rewrite lookup_insert_eq; by eexists|].
      by rewrite lookup_insert_ne. }
    unfold o_cells. cbn [o_heap hp_cells]. destruct (decide (oe_shared (ob_epoch b) = oe_shared (po_epoch p))) as [E|E].
    { unfold alive, epoch_drop. cbn. rewrite E, lookup_insert_eq. intros [= Hd]. by destruct K2. }
    intros Ha. assert (Ha' : alive (o_cells s) (ob_epoch b)) by (by apply Hcell). destruct (K4 Ha') as (pb & M1 & M2 & M3 & M4 & M5).
    assert (Hbc : oc_reclaim (ob_ctx b) ≠ oc_reclaim c). { intros Eq. rewrite Eq, Hp in M1. injection M1 as <-. by rewrite M3 in E. }
    exists pb. unfold o_pools. cbn. rewrite lookup_delete_ne by done. split_and!; try done.
    + rewrite Hl in M2. apply elem_of_app in M2 as [M2|[M2|M2]%elem_of_cons]; [set_solver|by rewrite M2 in Hbc|set_solver].
    + destruct M5. by constructor.
  - apply (iv_next _ Hi).
Qed.

Lemma oreach_inv s : oreach s → os_inv s.
Proof.
  induction 1 as [|s thread layout max h c _ IH|s thread c h o _ IH Hc E|s l1 b l2 op b' r _ IH|s thread l1 b l2 h _ IH Hb E|s l1 c l2 h _ IH].
  - constructor; cbn; try done; constructor.
  - by eapply new_pool_ok.
  - destruct (allocate_ok s c IH Hc) as (p & _ & h1 & o1 & Hp & E1 & Hinv & _).
    assert (thread = po_owner p) as ->; [|rewrite E1 in E; by injection E as <- <-].
    unfold os_allocate in E. change (hp_pools (o_heap s)) with (o_pools s) in E. rewrite Hp in E.
    apply bind_ret_inv in E as (x & E & _). apply bind_ret_inv in E as (y & E & _). unfold os_pool_pop in E.
    destruct (Z.eqb_spec thread (po_owner p)); done.
  - by eapply edit_ok.
  - pose proof (drop_buf_ok s thread l1 b l2 IH Hb) as Hd. case_decide; [|by rewrite Hd in E].
    destruct Hd as (h1 & E1 & Hinv). rewrite E in E1. by injection E1 as <-.
  - by eapply drop_pool_ok.
Qed.
End Time.
Arguments ostate : clear implicits.

Lemma drop_buf_cells {Q} `{!ArrayQueue Q (list Z)} thread (h h' : OsHeap Q) b : os_drop_buf thread h b = Ret h' → hp_cells h' = hp_cells h.
Proof.
  unfold os_drop_buf, os_reclaim. destruct (ob_armed b); [|by intros [= <-]]. cbn [negb]. intros E.
  apply bind_ret_inv in E as ([h1 b1] & E & [= <-]). apply bind_ret_inv in E as ([] & _ & E). destruct (hp_pools h !! _); [|done].
  apply bind_ret_inv in E as (p & _ & [= <- _]). done.
Qed.

