(* ===== verification/OsSocket.v ===== *)
(** * The kernel-socket backend: [crates/fast-socket-os-rs/src/lib.rs]

    Construction, transmit and receive of [OsUdpSocket] as on Linux. The
    system calls are a class over the kernel's state: a batched send takes the
    messages its headers describe, a batched receive the capacities of its
    buffers. Structures shared with the kernel are byte lists in the
    little-endian layout of Linux. *)
From S2P Require Import Prelude Bits Netlink Core Buffer Reclaim Wire PacketBuf Endpoint OsBuffer.
Open Scope Z_scope.

(** ** Errors of the operating system *)
Inductive IoErrorKind :=
  | IoWouldBlock | IoTimedOut | IoInterrupted | IoInvalidInput | IoAddrNotAvailable
  | IoNetworkUnreachable | IoHostUnreachable | IoConnectionRefused | IoConnectionReset | IoOther.
#[export] Instance IoErrorKind_eq_dec : EqDecision IoErrorKind.
Proof. solve_decision. Defined.
Record OsIoError := mkIoError {
  io_kind : IoErrorKind;
  io_text : string;
}.

Definition is_interrupted (e : OsIoError) : bool := bool_decide (io_kind e = IoInterrupted).
Definition is_transient (e : OsIoError) : bool :=
  match io_kind e with
  | IoWouldBlock | IoTimedOut | IoInterrupted => true
  | _ => false
  end.

Definition io_error_to_core (e : OsIoError) : Error :=
  match io_kind e with
  | IoWouldBlock | IoTimedOut | IoInterrupted => WouldBlock
  | IoInvalidInput => OversizeForMtu
  | IoAddrNotAvailable | IoNetworkUnreachable | IoHostUnreachable => NoEgressRoute
  | IoConnectionRefused | IoConnectionReset => Device (with_source FdClosed (io_text e))
  | IoOther => Device (with_source Backend (io_text e))
  end.

Definition is_some {A} (o : option A) : bool := match o with Some _ => true | None => false end.
Definition has_unsupported_tx_options {B} (tx : UdpTransmit B) : bool :=
  is_some (ut_source_ip tx) || is_some (ut_ecn tx) || is_some (ut_gso_segment_size tx).

(** ** Socket addresses in memory *)
Definition ipv6_octets (a : Z) : list Z := (λ i, a / 256 ^ (15 - Z.of_nat i) mod 256) <$> seq 0 16.
Definition ipv6_from (octets : list Z) : Z := foldl (λ acc b, 256 * acc + b) 0 octets.

Definition SOCKADDR_IN_LEN : Z := 16.
Definition SOCKADDR_IN6_LEN : Z := 28.
(** The bytes written to the storage; their number is the length returned. *)
Definition sockaddr_from_socketaddr (addr : SocketAddr) : list Z :=
  match addr with
  | SocketAddrV4 ip port => le16 AF_INET ++ to_be16 port ++ ipv4_octets ip ++ replicate 8 0
  | SocketAddrV6 ip port flowinfo scope_id =>
      le16 AF_INET6 ++ to_be16 port ++ le32 flowinfo ++ ipv6_octets ip ++ le32 scope_id
  end.

Definition read_be16 (buf : list Z) (at_ : Z) : outcome Z :=
  hi ← get_unchecked buf at_; lo ← get_unchecked buf (at_ + 1); Ret (from_be16 hi lo).
(** [sockaddr] points to the storage [buf], of which the kernel reported
    [n] bytes. *)
Definition socketaddr_from_raw (buf : list Z) (n : Z) : outcome (option SocketAddr) :=
  family ← read_le16 buf 0;
  if (family =? AF_INET) && (SOCKADDR_IN_LEN <=? n) then
    port ← read_be16 buf 2;
    octets ← mem_read buf 4 4;
    match octets with
    | [a; b; c; d] => Ret (Some (SocketAddrV4 (ipv4_new a b c d) port))
    | _ => UB
    end
  else if (family =? AF_INET6) && (SOCKADDR_IN6_LEN <=? n) then
    port ← read_be16 buf 2;
    flowinfo ← read_le32 buf 4;
    octets ← mem_read buf 8 16;
    scope_id ← read_le32 buf 24;
    Ret (Some (SocketAddrV6 (ipv6_from octets) port flowinfo scope_id))
  else Ret None.

(** ** Ancillary data

    [CMSG_FIRSTHDR] and [CMSG_NXTHDR] enumerate the control messages. *)
Record Cmsg := mkCmsg {
  cm_level : Z;
  cm_type : Z;
  cm_data : list Z;
}.
Definition IPPROTO_IP : Z := 0.
Definition IP_PKTINFO : Z := 8.
Definition IPPROTO_IPV6 : Z := 41.
Definition IPV6_PKTINFO : Z := 50.
Fixpoint parse_pktinfo_destination (control : list Cmsg) : outcome (option IpAddr) :=
  match control with
  | [] => Ret None
  | cmsg :: control =>
      if (cm_level cmsg =? IPPROTO_IP) && (cm_type cmsg =? IP_PKTINFO) then
        info ← mem_read (cm_data cmsg) 0 12;
        match drop 8 info with
        | [a; b; c; d] => Ret (Some (IpAddrV4 (ipv4_new a b c d)))
        | _ => UB
        end
      else if (cm_level cmsg =? IPPROTO_IPV6) && (cm_type cmsg =? IPV6_PKTINFO) then
        info ← mem_read (cm_data cmsg) 0 20;
        Ret (Some (IpAddrV6 (ipv6_from (take 16 info))))
      else parse_pktinfo_destination control
  end.

(** ** The kernel *)

(** What a transmit header describes: the name and the segments. *)
Record OsMessage := mkOsMessage {
  om_name : list Z;
  om_iov : list (list Z);
}.
(** What a receive header holds after the call. *)
Record OsDatagram := mkOsDatagram {
  od_addr : list Z; (** the address storage *)
  od_namelen : Z;
  od_payload : list Z; (** the bytes written to the buffer *)
  od_len : Z; (** [msg_len] *)
  od_trunc : bool; (** [MSG_TRUNC] in [msg_flags] *)
  od_control : list Cmsg;
}.
Class OsKernel (K : Type) := {
  k_sendmmsg : K → list OsMessage → K * result Z OsIoError;
  k_sendmsg : K → OsMessage → K * result Z OsIoError;
  k_recvmmsg : K → list Z → K * result (list OsDatagram) OsIoError;
  (** How many more transient refusals are to come. *)
  k_refusals : K → nat;
}.

(** ** The socket *)
Record OsUdpSocketConfig := mkOsConfig {
  oc_if_index : option Z;
  oc_queue_id : Z;
  oc_queue_affinity : QueueAffinity;
  oc_rx_buffer_layout : BufferLayout;
  oc_tx_buffer_layout : BufferLayout;
  oc_mtu : Z;
  oc_max_batch : Z;
  oc_rx_pool_max_buffers : Z;
  oc_tx_pool_max_buffers : Z;
}.
Record OsUdpSocket := mkOsSocket {
  so_rx_pool : OsBufCtx;
  so_tx_pool : OsBufCtx;
  so_if_index : option Z;
  so_queue_id : Z;
  so_queue_affinity : QueueAffinity;
  so_local_port : Z;
  so_mtu : Z;
  so_max_batch : Z;
  so_recv_buffers : list (option OsPacketBufInner);
}.
Definition with_recv_buffers (s : OsUdpSocket) (bs : list (option OsPacketBufInner)) : OsUdpSocket :=
  mkOsSocket (so_rx_pool s) (so_tx_pool s) (so_if_index s) (so_queue_id s) (so_queue_affinity s)
    (so_local_port s) (so_mtu s) (so_max_batch s) bs.

(** The socket, the heap its buffers live in and the kernel. *)
Record OsWorld (Q K : Type) := mkOsWorld {
  ow_heap : OsHeap Q;
  ow_kernel : K;
  ow_socket : OsUdpSocket;
}.
Arguments mkOsWorld {Q K} _ _ _.
Arguments ow_heap {Q K} _.
Arguments ow_kernel {Q K} _.
Arguments ow_socket {Q K} _.

Section Sockets.
Context {Q K : Type} `{!ArrayQueue Q (list Z)} `{!OsKernel K}.
(** The worker thread that owns the socket. *)
Variable thread : Z.
Implicit Types w : OsWorld Q K.
Abbreviation transmit := (UdpTransmit OsPacketBufInner).

Definition with_heap w (h : OsHeap Q) : OsWorld Q K := mkOsWorld h (ow_kernel w) (ow_socket w).
Definition with_kernel w (k : K) : OsWorld Q K := mkOsWorld (ow_heap w) k (ow_socket w).
Definition with_socket w (s : OsUdpSocket) : OsWorld Q K := mkOsWorld (ow_heap w) (ow_kernel w) s.
Definition ow_cells w : Cells := hp_cells (ow_heap w).

(** *** Transmit *)
Definition validate_slot (mtu : Z) (slot : TxSlot transmit) : result unit Error :=
  match slot_as_ref slot with
  | Some tx =>
      if mtu <? os_len (ut_packet tx) then Err OversizeForMtu
      else if has_unsupported_tx_options tx then Err InvalidPacket
      else Ok tt
  | None => Err InvalidBatch
  end.

(** The loop that finds the next chunk. *)
Fixpoint chunk_loop (mtu : Z) (n : nat) (chunk_len : Z) (batch : list (TxSlot transmit)) : result Z Error :=
  match n, batch with
  | S n, slot :: batch =>
      match validate_slot mtu slot with
      | Ok _ => chunk_loop mtu n (chunk_len + 1) batch
      | Err kind => if chunk_len =? 0 then Err kind else Ok chunk_len
      end
  | _, _ => Ok chunk_len
  end.

(** The segments of the chunk, and the range of each message in them. *)
Fixpoint fill_iovs (cells : Cells) (chunk : list (TxSlot transmit)) (tx_iovs : list (list Z)) (tx_iov_ranges : list (Z * Z)) :
    outcome (list (list Z) * list (Z * Z)) :=
  match chunk with
  | [] => Ret (tx_iovs, tx_iov_ranges)
  | slot :: chunk =>
      match slot_as_ref slot with
      | None => Panic
      | Some tx =>
          let start := len tx_iovs in
          segments ← os_segments cells (ut_packet tx);
          let tx_iovs := tx_iovs ++ segments in
          fill_iovs cells chunk tx_iovs (tx_iov_ranges ++ [(start, len tx_iovs - start)])
      end
  end.

(** The headers; the kernel reads the segments through raw pointers. *)
Fixpoint fill_hdrs (chunk : list (TxSlot transmit)) (index_ : Z) (tx_iovs : list (list Z)) (tx_iov_ranges : list (Z * Z)) :
    outcome (list OsMessage) :=
  match chunk with
  | [] => Ret []
  | slot :: chunk =>
      match slot_as_ref slot with
      | None => Panic
      | Some tx =>
          '(iov_start, iov_count) ← index tx_iov_ranges index_;
          match slice tx_iovs iov_start (iov_start + iov_count) with
          | None => UB
          | Some iov =>
              hdrs ← fill_hdrs chunk (index_ + 1) tx_iovs tx_iov_ranges;
              Ret (mkOsMessage (sockaddr_from_socketaddr (ut_destination tx)) iov :: hdrs)
          end
      end
  end.

(** A system call repeated while it is interrupted. *)
Fixpoint retry {A} (call : K → K * result A OsIoError) (fuel : nat) (k : K) : outcome (K * result A OsIoError) :=
  match fuel with
  | O => Diverge
  | S fuel =>
      match call k with
      | (k, Err e) => if is_interrupted e then retry call fuel k else Ret (k, Err e)
      | (k, Ok a) => Ret (k, Ok a)
      end
  end.
Definition retry_interrupted {A} (call : K → K * result A OsIoError) (k : K) : outcome (K * result A OsIoError) :=
  retry call (S (k_refusals k)) k.

(** [slot.take()], which drops the packet. *)
Definition take_slot (h : OsHeap Q) (slot : TxSlot transmit) : outcome (OsHeap Q * TxSlot transmit) :=
  match slot_take slot with
  | (slot, Some tx) => h ← os_drop_buf thread h (ut_packet tx); Ret (h, slot)
  | (slot, None) => Ret (h, slot)
  end.
Fixpoint take_slots (n : nat) (h : OsHeap Q) (slots : list (TxSlot transmit)) : outcome (OsHeap Q * list (TxSlot transmit)) :=
  match n, slots with
  | S n, slot :: slots =>
      '(h, slot) ← take_slot h slot;
      '(h, slots) ← take_slots n h slots;
      Ret (h, slot :: slots)
  | _, _ => Ret (h, slots)
  end.

Definition send_refused w (batch : list (TxSlot transmit)) (accepted : Z) (e : OsIoError) : send_result (OsWorld Q K) transmit :=
  if is_transient e then (w, batch, Ok accepted)
  else (w, batch, Err (mkSendError accepted (io_error_to_core e))).

Fixpoint send_loop (fuel : nat) w (batch : list (TxSlot transmit)) (accepted : Z) : outcome (send_result (OsWorld Q K) transmit) :=
  if accepted <? len batch then
    match fuel with
    | O => Diverge
    | S fuel =>
        let s := ow_socket w in
        let rest := drop (Z.to_nat accepted) batch in
        let max_chunk_len := Z.min (len batch - accepted) (so_max_batch s) in
        match chunk_loop (so_mtu s) (Z.to_nat max_chunk_len) 0 rest with
        | Err kind => Ret (w, batch, Err (mkSendError accepted kind))
        | Ok chunk_len =>
            let chunk := take (Z.to_nat chunk_len) rest in
            '(tx_iovs, tx_iov_ranges) ← fill_iovs (ow_cells w) chunk [] [];
            tx_hdrs ← fill_hdrs chunk 0 tx_iovs tx_iov_ranges;
            '(k, r) ← retry_interrupted (λ k, k_sendmmsg k tx_hdrs) (ow_kernel w);
            let w := with_kernel w k in
            match r with
            | Err e => Ret (send_refused w batch accepted e)
            | Ok sent =>
                '(h, chunk) ← take_slots (Z.to_nat sent) (ow_heap w) chunk;
                let w := with_heap w h in
                let batch := take (Z.to_nat accepted) batch ++ chunk ++ drop (Z.to_nat chunk_len) rest in
                let accepted := accepted + sent in
                if sent <? chunk_len then
                  hdr ← index tx_hdrs sent;
                  '(k, r) ← retry_interrupted (λ k, k_sendmsg k hdr) (ow_kernel w);
                  let w := with_kernel w k in
                  match r with
                  | Err e => Ret (send_refused w batch accepted e)
                  | Ok _ =>
                      slot ← index batch accepted;
                      '(h, slot) ← take_slot (ow_heap w) slot;
                      batch ← set_index batch accepted slot;
                      send_loop fuel (with_heap w h) batch (accepted + 1)
                  end
                else send_loop fuel w batch accepted
            end
        end
    end
  else Ret (w, batch, Ok accepted).

(** [send_impl]: every round accepts a slot or returns. *)
Definition send_impl w (batch : list (TxSlot transmit)) : outcome (send_result (OsWorld Q K) transmit) :=
  send_loop (length batch) w batch 0.

(** [drain_tx_completions]: the kernel copies on send. *)
Definition os_drain_tx_completions w : outcome (OsWorld Q K * result Z Error) := Ret (w, Ok 0).

(** [allocate_tx_batch]; each round but the last pushes a buffer. *)
Fixpoint os_allocate_loop (fuel : nat) w (out : list OsPacketBufInner) (start_len max : Z) (drained_after_empty : bool) :
    outcome (OsWorld Q K * list OsPacketBufInner * result Z Error) :=
  if len out - start_len <? max then
    match fuel with
    | O => Diverge
    | S fuel =>
        '(h, buffer) ← os_allocate thread (ow_heap w) (so_tx_pool (ow_socket w));
        let w := with_heap w h in
        match buffer with
        | Some buffer => os_allocate_loop fuel w (out ++ [buffer]) start_len max false
        | None =>
            if drained_after_empty then Ret (w, out, Ok (len out - start_len))
            else
              '(w, r) ← os_drain_tx_completions w;
              match r with
              | Err e => Ret (w, out, Err e)
              | Ok n => if n =? 0 then Ret (w, out, Ok (len out - start_len)) else os_allocate_loop fuel w out start_len max true
              end
        end
    end
  else Ret (w, out, Ok (len out - start_len)).
Definition os_allocate_tx_batch w (out : list OsPacketBufInner) (max : Z) :
    outcome (OsWorld Q K * list OsPacketBufInner * result Z Error) :=
  os_allocate_loop (S (Z.to_nat max)) w out (len out) max false.

(** *** Receive *)
Abbreviation receive := (OsPacketBufInner * UdpRecvMeta)%type.

(** The loop that fills the empty receive slots; the number of slots ready. *)
Fixpoint prepare_loop (n : nat) (h : OsHeap Q) (pool : OsBufCtx) (slots : list (option OsPacketBufInner)) :
    outcome (OsHeap Q * list (option OsPacketBufInner) * Z) :=
  match n with
  | O => Ret (h, slots, 0)
  | S n =>
      match slots with
      | [] => Panic
      | Some b :: slots =>
          '(h, slots, count) ← prepare_loop n h pool slots;
          Ret (h, Some b :: slots, count + 1)
      | None :: slots =>
          '(h, buffer) ← os_allocate thread h pool;
          match buffer with
          | None => Ret (h, None :: slots, 0)
          | Some b =>
              '(h, slots, count) ← prepare_loop n h pool slots;
              Ret (h, Some b :: slots, count + 1)
          end
      end
  end.

(** The capacities handed to the kernel. *)
Fixpoint recv_iovs (cells : Cells) (n : nat) (slots : list (option OsPacketBufInner)) : outcome (list Z) :=
  match n with
  | O => Ret []
  | S n =>
      match slots with
      | Some b :: slots => capacity ← data_capacity cells b; iovs ← recv_iovs cells n slots; Ret (capacity :: iovs)
      | _ => Panic
      end
  end.

(** The kernel's writes into the prepared buffers. *)
Fixpoint kernel_fills (cells : Cells) (received : list OsDatagram) (slots : list (option OsPacketBufInner)) :
    outcome (list (option OsPacketBufInner)) :=
  match received, slots with
  | [], _ => Ret slots
  | d :: received, Some b :: slots =>
      b ← kernel_writes cells b (od_payload d);
      slots ← kernel_fills cells received slots;
      Ret (Some b :: slots)
  | _ :: _, _ => UB
  end.

Definition recv_meta (local_port : Z) (source : SocketAddr) (destination : option IpAddr) (n : Z) : UdpRecvMeta :=
  mkUdpRecvMeta source destination (Some local_port) None n None.

(** The loop over the datagrams received: the slots, the batch, the number
    delivered and whether one was truncated; an error ends it early. *)
Fixpoint deliver_loop (local_port : Z) (received : list OsDatagram) (h : OsHeap Q) (slots : list (option OsPacketBufInner))
    (out : RecvBatch receive) (delivered : Z) (had_truncation : bool) :
    outcome (OsHeap Q * list (option OsPacketBufInner) * RecvBatch receive * result (Z * bool) Error) :=
  match received, slots with
  | [], _ => Ret (h, slots, out, Ok (delivered, had_truncation))
  | _ :: _, [] => Panic
  | d :: received, slot :: slots =>
      let skip had_truncation :=
        '(h, slots, out, r) ← deliver_loop local_port received h slots out delivered had_truncation;
        Ret (h, slot :: slots, out, r) in
      if od_trunc d then skip true
      else
        source ← socketaddr_from_raw (od_addr d) (od_namelen d);
        match source with
        | None => skip had_truncation
        | Some source =>
            destination ← parse_pktinfo_destination (od_control d);
            let n := od_len d in
            match slot with
            | None => Panic
            | Some packet =>
                '(packet, r) ← set_received_len (hp_cells h) packet n;
                match r with
                | Err _ => h ← os_drop_buf thread h packet; Ret (h, None :: slots, out, Err Truncated)
                | Ok _ =>
                    match rb_push out (packet, recv_meta local_port source destination n) with
                    | (_, Err _) => Panic
                    | (out, Ok _) =>
                        '(h, slots, out, r) ← deliver_loop local_port received h slots out (delivered + 1) had_truncation;
                        Ret (h, None :: slots, out, r)
                    end
                end
            end
        end
  end.

(** [recv_impl] from the call on, with [count] buffers prepared. *)
Definition recv_prepared w (out : RecvBatch receive) (count : Z) : outcome (OsWorld Q K * RecvBatch receive * result Z Error) :=
  let s := ow_socket w in
  iovs ← recv_iovs (ow_cells w) (Z.to_nat count) (so_recv_buffers s);
  '(k, r) ← retry_interrupted (λ k, k_recvmmsg k iovs) (ow_kernel w);
  let w := with_kernel w k in
  match r with
  | Err e => Ret (w, out, if is_transient e then Ok 0 else Err (io_error_to_core e))
  | Ok received =>
      slots ← kernel_fills (ow_cells w) received (so_recv_buffers s);
      '(h, slots, out, r) ← deliver_loop (so_local_port s) received (ow_heap w) slots out 0 false;
      let w := with_socket (with_heap w h) (with_recv_buffers s slots) in
      match r with
      | Err e => Ret (w, out, Err e)
      | Ok (delivered, had_truncation) =>
          if (delivered =? 0) && had_truncation then Ret (w, out, Err Truncated) else Ret (w, out, Ok delivered)
      end
  end.

Definition recv_impl w (out : RecvBatch receive) : outcome (OsWorld Q K * RecvBatch receive * result Z Error) :=
  let s := ow_socket w in
  let count := Z.min (remaining out) (so_max_batch s) in
  if count =? 0 then Ret (w, out, Ok 0)
  else
    '(h, slots, count) ← prepare_loop (Z.to_nat count) (ow_heap w) (so_rx_pool s) (so_recv_buffers s);
    let w := with_socket (with_heap w h) (with_recv_buffers s slots) in
    if count =? 0 then Ret (w, out, Ok 0) else recv_prepared w out count.

(** *** Systems without batched calls

    [send_impl] and [recv_impl] as on FreeBSD and macOS, a datagram at a time
    through the standard library's socket. *)
Section Portable.
Context (send_to : K → SocketAddr → list Z → K * result Z OsIoError).
(** With the capacity of the buffer: the bytes written to it and the source. *)
Context (recv_from : K → Z → K * result (list Z * SocketAddr) OsIoError).

Fixpoint portable_send_loop w (slots : list (TxSlot transmit)) (accepted : Z) : outcome (send_result (OsWorld Q K) transmit) :=
  match slots with
  | [] => Ret (w, [], Ok accepted)
  | slot :: slots =>
      match validate_slot (so_mtu (ow_socket w)) slot, slot_as_ref slot with
      | Err kind, _ => Ret (w, slot :: slots, Err (mkSendError accepted kind))
      | Ok _, None => Ret (w, slot :: slots, Err (mkSendError accepted InvalidBatch))
      | Ok _, Some tx =>
          data ← os_as_slice (ow_cells w) (ut_packet tx);
          let '(k, r) := send_to (ow_kernel w) (ut_destination tx) data in
          let w := with_kernel w k in
          match r with
          | Err e => Ret (send_refused w (slot :: slots) accepted e)
          | Ok _ =>
              '(h, slot) ← take_slot (ow_heap w) slot;
              '(w, slots, r) ← portable_send_loop (with_heap w h) slots (accepted + 1);
              Ret (w, slot :: slots, r)
          end
      end
  end.
Definition portable_send_impl w (batch : list (TxSlot transmit)) : outcome (send_result (OsWorld Q K) transmit) :=
  portable_send_loop w batch 0.

(** One round per place left in the batch. *)
Fixpoint portable_recv_loop (rounds : nat) w (out : RecvBatch receive) (delivered : Z) :
    outcome (OsWorld Q K * RecvBatch receive * result Z Error) :=
  match rounds with
  | O => Ret (w, out, Ok delivered)
  | S rounds =>
      '(h, buffer) ← os_allocate thread (ow_heap w) (so_rx_pool (ow_socket w));
      let w := with_heap w h in
      match buffer with
      | None => Ret (w, out, Ok delivered)
      | Some packet =>
          capacity ← data_capacity (ow_cells w) packet;
          let '(k, r) := recv_from (ow_kernel w) capacity in
          let w := with_kernel w k in
          match r with
          | Err e =>
              h ← os_drop_buf thread (ow_heap w) packet;
              Ret (with_heap w h, out, if is_transient e then Ok delivered else Err (io_error_to_core e))
          | Ok (payload, source) =>
              packet ← kernel_writes (ow_cells w) packet payload;
              let n := len payload in
              '(packet, r) ← set_received_len (ow_cells w) packet n;
              match r with
              | Err _ => h ← os_drop_buf thread (ow_heap w) packet; Ret (with_heap w h, out, Err Truncated)
              | Ok _ =>
                  match rb_push out (packet, recv_meta (so_local_port (ow_socket w)) source None n) with
                  | (out, Err _) => h ← os_drop_buf thread (ow_heap w) packet; Ret (with_heap w h, out, Err BatchFull)
                  | (out, Ok _) => portable_recv_loop rounds w out (delivered + 1)
                  end
              end
          end
      end
  end.
Definition portable_recv_impl w (out : RecvBatch receive) : outcome (OsWorld Q K * RecvBatch receive * result Z Error) :=
  portable_recv_loop (Z.to_nat (remaining out)) w out 0.
End Portable.

(** *** Construction and drop *)
Definition MAX_BATCH_HARD_CAP : Z := 4096.
Definition DEFAULT_MAX_BATCH : Z := 64.
Definition DEFAULT_POOL_BUFFER_MULTIPLIER : Z := 4.
Definition DEFAULT_POOL_MAX_BUFFERS : Z := DEFAULT_MAX_BATCH * DEFAULT_POOL_BUFFER_MULTIPLIER.
Definition saturating_mul (a b : Z) : Z := Z.min USIZE_MAX (a * b).
Definition default_pool_max_buffers (max_batch : Z) : Z := saturating_mul max_batch DEFAULT_POOL_BUFFER_MULTIPLIER.

Inductive FromStdError :=
  | BadMaxBatch | ZeroRxPool | ZeroTxPool | RxCapacityBelowMtu | AffinityDoesNotFit | FromStdIo (e : OsIoError).

(** The answers of the system calls made at construction. *)
Record OsSetup := mkOsSetup {
  su_incoming_cpu : Z → result unit OsIoError; (** [SO_INCOMING_CPU] *)
  su_pktinfo_v4 : option Z; (** the error number of a failed [IP_PKTINFO] *)
  su_pktinfo_v6 : option Z;
  su_set_nonblocking : result unit OsIoError;
  su_try_clone : result unit OsIoError;
  su_local_port : result Z OsIoError;
  su_os_error : Z → OsIoError; (** [io::Error::from_raw_os_error] *)
}.
Definition I32_MAX : Z := 2147483647.
Definition configure_queue_affinity (su : OsSetup) (affinity : QueueAffinity) : result unit FromStdError :=
  match affinity with
  | Core.Core cpu =>
      if I32_MAX <? cpu then Err AffinityDoesNotFit
      else match su_incoming_cpu su cpu with Ok _ => Ok tt | Err e => Err (FromStdIo e) end
  | _ => Ok tt
  end.

Definition ENOPROTOOPT : Z := 92.
Definition EINVAL : Z := 22.
(** [enable_pktinfo]: both options are set before either result is looked at,
    so that the error number read is the one the last failing call left. *)
Definition enable_pktinfo (su : OsSetup) : result unit FromStdError :=
  let errno := match su_pktinfo_v6 su with Some e => Some e | None => su_pktinfo_v4 su end in
  match errno with
  | None => Ok tt
  | Some e => if (e =? ENOPROTOOPT) || (e =? EINVAL) then Ok tt else Err (FromStdIo (su_os_error su e))
  end.

Definition io_result {A} (r : result A OsIoError) : result A FromStdError :=
  match r with Ok a => Ok a | Err e => Err (FromStdIo e) end.

(** What is refused before any call. *)
Definition check_config (config : OsUdpSocketConfig) : result unit FromStdError :=
  if (oc_max_batch config =? 0) || (MAX_BATCH_HARD_CAP <? oc_max_batch config) then Err BadMaxBatch
  else if oc_rx_pool_max_buffers config =? 0 then Err ZeroRxPool
  else if oc_tx_pool_max_buffers config =? 0 then Err ZeroTxPool
  else if payload_capacity (oc_rx_buffer_layout config) <? oc_mtu config then Err RxCapacityBelowMtu
  else Ok tt.
(** The value made once every call has succeeded. *)
Definition make_socket (h : OsHeap Q) (config : OsUdpSocketConfig) (local_port : Z) : outcome (OsHeap Q * OsUdpSocket) :=
  '(h, rx_pool) ← os_pool_with_max_buffers thread h (oc_rx_buffer_layout config) (oc_rx_pool_max_buffers config);
  '(h, tx_pool) ← os_pool_with_max_buffers thread h (oc_tx_buffer_layout config) (oc_tx_pool_max_buffers config);
  Ret (h, mkOsSocket rx_pool tx_pool (oc_if_index config) (oc_queue_id config) (oc_queue_affinity config)
            local_port (oc_mtu config) (oc_max_batch config)
            (replicate (Z.to_nat (oc_max_batch config)) None)).
Definition os_from_std (su : OsSetup) (h : OsHeap Q) (config : OsUdpSocketConfig) :
    outcome (OsHeap Q * result OsUdpSocket FromStdError) :=
  match check_config config with
  | Err e => Ret (h, Err e)
  | Ok _ =>
    match (_ <-? configure_queue_affinity su (oc_queue_affinity config);
           _ <-? enable_pktinfo su;
           _ <-? io_result (su_set_nonblocking su);
           _ <-? io_result (su_try_clone su);
           io_result (su_local_port su)) with
    | Err e => Ret (h, Err e)
    | Ok local_port =>
        '(h, s) ← make_socket h config local_port; Ret (h, Ok s)
    end
  end.

(** [Drop for OsUdpSocket]: the prepared buffers, then the pools. *)
Fixpoint drop_recv_buffers (h : OsHeap Q) (slots : list (option OsPacketBufInner)) : outcome (OsHeap Q) :=
  match slots with
  | [] => Ret h
  | None :: slots => drop_recv_buffers h slots
  | Some b :: slots => h ← os_drop_buf thread h b; drop_recv_buffers h slots
  end.
Definition os_drop_socket (h : OsHeap Q) (s : OsUdpSocket) : outcome (OsHeap Q) :=
  h ← drop_recv_buffers h (so_recv_buffers s);
  h ← os_pool_drop h (oc_reclaim (so_rx_pool s));
  os_pool_drop h (oc_reclaim (so_tx_pool s)).
End Sockets.

(** ** The driver *)

(** [timeout_to_poll_ms]; a duration is in nanoseconds. *)
Definition timeout_to_poll_ms (timeout : option Z) : Z :=
  match timeout with
  | None => -1
  | Some t =>
      if t =? 0 then 0
      else
        let ms := t / 1000000 in
        Z.max (if ms <=? I32_MAX then ms else I32_MAX) 1
  end.
(** [wait_for_readable]; [poll] gets the timeout and returns the number of
    ready descriptors or the error. *)
Definition wait_for_readable (poll : Z → result Z OsIoError) (timeout : option Z) : result WaitOutcome Error :=
  match poll (timeout_to_poll_ms timeout) with
  | Ok value => if 0 <? value then Ok WaitReady else Ok WaitTimeout
  | Err e => if is_interrupted e then Ok WaitSpurious else Err (io_error_to_core e)
  end.
