(* ===== verification/OsSend.v ===== *)
(** * Transmit of the kernel-socket backend *)
From S2P Require Import Prelude Bits Netlink Core Buffer Window Reclaim ReclaimProofs Wire WireProofs NetlinkProofs PacketBuf Endpoint EndpointProofs OsBuffer OsBufferProofs OsPools OsSocket.
Open Scope Z_scope.

(** ** What is assumed of the kernel

    The manual pages of [sendmmsg], [sendmsg] and [recvmmsg]: a successful
    batched send reports how many messages it took, in order; a failing call
    takes none; a batched receive fills at most the buffers given, each within
    its capacity, and reports the length written and a full address storage.
    [k_refusals] says that interruptions, and back-pressure on sending, end. *)
Definition datagram_ok (capacity : Z) (d : OsDatagram) : Prop :=
  bytes_ok (od_payload d) ∧ len (od_payload d) ≤ capacity ∧ od_len d = len (od_payload d) ∧
  bytes_ok (od_addr d) ∧ len (od_addr d) = 128 ∧
  Forall (λ c, bytes_ok (cm_data c) ∧ (cm_type c = IP_PKTINFO → 12 ≤ len (cm_data c)) ∧
               (cm_type c = IPV6_PKTINFO → 20 ≤ len (cm_data c))) (od_control d).

Definition refused {K} `{OsKernel K} (k k' : K) (e : OsIoError) : Prop :=
  if is_transient e then (k_refusals k' < k_refusals k)%nat else (k_refusals k' ≤ k_refusals k)%nat.
(** A receive may find nothing any number of times. *)
Definition interrupted {K} `{OsKernel K} (k k' : K) (e : OsIoError) : Prop :=
  if is_interrupted e then (k_refusals k' < k_refusals k)%nat else (k_refusals k' ≤ k_refusals k)%nat.

Class OsKernelLaws (K : Type) `{OsKernel K} := {
  k_wire : K → list OsMessage;
  k_sendmmsg_law k msgs k' r : msgs ≠ [] → k_sendmmsg k msgs = (k', r) →
    match r with
    | Ok n => 0 ≤ n ≤ len msgs ∧ k_wire k' = k_wire k ++ take (Z.to_nat n) msgs ∧ (k_refusals k' ≤ k_refusals k)%nat
    | Err e => k_wire k' = k_wire k ∧ refused k k' e
    end;
  k_sendmsg_law k msg k' r : k_sendmsg k msg = (k', r) →
    match r with
    | Ok _ => k_wire k' = k_wire k ++ [msg] ∧ (k_refusals k' ≤ k_refusals k)%nat
    | Err e => k_wire k' = k_wire k ∧ refused k k' e
    end;
  k_recvmmsg_law k capacities k' r : capacities ≠ [] → k_recvmmsg k capacities = (k', r) →
    k_wire k' = k_wire k ∧
    match r with
    | Ok ds => (length ds ≤ length capacities)%nat ∧ (k_refusals k' ≤ k_refusals k)%nat ∧
        Forall2 datagram_ok (take (length ds) capacities) ds
    | Err e => interrupted k k' e
    end;
}.

Lemma interrupted_transient e : is_interrupted e = true → is_transient e = true.
Proof. unfold is_interrupted, is_transient. intros ->%bool_decide_eq_true. done. Qed.

Lemma refused_interrupted {K} `{OsKernel K} (k k' : K) e : refused k k' e → interrupted k k' e.
Proof.
  unfold refused, interrupted. destruct (is_interrupted e) eqn:Hi; [by rewrite (interrupted_transient e Hi)|]. destruct (is_transient e); lia.
Qed.

(** ** Retried calls *)
Section Retry.
Context {K A : Type} `{!OsKernel K, !OsKernelLaws K} (call : K → K * result A OsIoError).
Context (Hlaw : ∀ k k' e, call k = (k', Err e) → k_wire k' = k_wire k ∧ interrupted k k' e).

Lemma retry_ok (fuel : nat) : ∀ k, (k_refusals k < fuel)%nat →
  ∃ k0 k' r, retry call fuel k = Ret (k', r) ∧ call k0 = (k', r) ∧ k_wire k0 = k_wire k ∧
    (k_refusals k0 ≤ k_refusals k)%nat ∧ (∀ e, r = Err e → is_interrupted e = false).
Proof.
  induction fuel as [|fuel IH]; intros k Hf; [lia|]. cbn [retry]. destruct (call k) as [k' [a|e]] eqn:E.
  - exists k, k', (Ok a). split_and!; done.
  - destruct (is_interrupted e) eqn:Hi.
    + destruct (Hlaw _ _ _ E) as [Hw Hr]. unfold interrupted in Hr. rewrite Hi in Hr.
      destruct (IH k') as (k0 & k2 & r & E0 & Hc & Hw0 & Hr0 & Hn); [lia|]. exists k0, k2, r. split_and!; try done; [congruence|lia].
    + exists k, k', (Err e). split_and!; try done. by intros e' [= <-].
Qed.

Lemma retry_interrupted_ok k : ∃ k0 k' r, retry_interrupted call k = Ret (k', r) ∧ call k0 = (k', r) ∧ k_wire k0 = k_wire k ∧
    (k_refusals k0 ≤ k_refusals k)%nat ∧ (∀ e, r = Err e → is_interrupted e = false).
Proof. apply retry_ok. lia. Qed.
End Retry.

Section Send.
Context {Q K : Type} `{!ArrayQueue Q (list Z)} `{!OsKernel K, !OsKernelLaws K}.
Variable thread : Z.
Variable cells : Cells.
Abbreviation transmit := (UdpTransmit OsPacketBufInner).
Implicit Types w : OsWorld Q K.

(** The segments of a packet and the message of a transmit request. *)
Definition segments_of (b : OsPacketBufInner) : list (list Z) := if os_len b =? 0 then [] else [os_packet b].
Definition message_of (tx : transmit) : OsMessage :=
  mkOsMessage (sockaddr_from_socketaddr (ut_destination tx)) (segments_of (ut_packet tx)).

(** ** One chunk *)
Lemma chunk_loop_ok mtu : ∀ n batch c, 0 ≤ c →
  match chunk_loop mtu n c batch with
  | Ok c' => c ≤ c' ≤ c + Z.min (Z.of_nat n) (len batch) ∧
      Forall (λ slot, validate_slot mtu slot = Ok tt) (take (Z.to_nat (c' - c)) batch) ∧
      (c = 0 → (0 < n)%nat → batch ≠ [] → 0 < c')
  | Err kind => c = 0 ∧ ∃ slot rest, batch = slot :: rest ∧ validate_slot mtu slot = Err kind
  end.
Proof.
  induction n as [|n IH]; intros batch c Hc0; cbn [chunk_loop].
  { pose proof (len_nonneg batch). rewrite Z.sub_diag. split_and!; [lia|lia|constructor|lia]. }
  destruct batch as [|slot batch]; [rewrite Z.sub_diag; split_and!; [lia|unfold len; cbn; lia|constructor|done]|].
  rewrite len_cons. pose proof (len_nonneg batch). destruct (validate_slot mtu slot) as [[]|kind] eqn:Hv.
  - specialize (IH batch (c + 1) ltac:(lia)). destruct (chunk_loop mtu n (c + 1) batch) as [c'|kind]; [|lia].
    destruct IH as (Hc & HF & _). split_and!; [lia|lia| |lia].
    replace (Z.to_nat (c' - c)) with (S (Z.to_nat (c' - (c + 1)))) by lia. by constructor.
  - destruct (Z.eqb_spec c 0); [split; [done|]; by eexists _, _|]. rewrite Z.sub_diag. split_and!; [lia|lia|constructor|done].
Qed.

Lemma validated_ready mtu (slots : list (TxSlot transmit)) : Forall (λ slot, validate_slot mtu slot = Ok tt) slots →
  slots = Ready <$> items slots.
Proof.
  induction 1 as [|[tx|] slots Hv _ IH]; [done| |done]. cbn. unfold items in *. cbn. by rewrite <- IH.
Qed.

Lemma validated_is_ready mtu (slots : list (TxSlot transmit)) : Forall (λ slot, validate_slot mtu slot = Ok tt) slots →
  Forall (λ slot, is_ready slot = true) slots.
Proof. intros HF. eapply Forall_impl; [exact HF|]. by intros [tx|]. Qed.

(** The chunk found at the head of a batch that is not empty. *)
Lemma chunk_cases mtu (n : Z) tail : 1 ≤ n → tail ≠ [] →
  match chunk_loop mtu (Z.to_nat (Z.min (len tail) n)) 0 tail with
  | Ok c => ∃ txs rest, tail = (Ready <$> txs) ++ rest ∧ len txs = c ∧ txs ≠ [] ∧ Forall (λ slot, validate_slot mtu slot = Ok tt) (Ready <$> txs)
  | Err kind => ∃ slot rest, tail = slot :: rest ∧ validate_slot mtu slot = Err kind
  end.
Proof.
  intros Hn Ht. assert (Hlt : 0 < len tail) by (destruct tail; [done|rewrite len_cons; pose proof (len_nonneg tail); lia]).
  pose proof (chunk_loop_ok mtu (Z.to_nat (Z.min (len tail) n)) tail 0 ltac:(lia)) as Hc. destruct (chunk_loop _ _ _ _) as [c|kind]; [|apply Hc].
  destruct Hc as (Hcr & Hcv & Hc0). specialize (Hc0 eq_refl ltac:(lia) Ht). rewrite Z.sub_0_r in Hcv.
  pose proof (validated_ready _ _ Hcv) as Hready. set (txs := items (take (Z.to_nat c) tail)) in *. exists txs, (drop (Z.to_nat c) tail).
  assert (Hlen : len txs = c).
  { unfold len. rewrite <- (length_fmap Ready), <- Hready, length_take. unfold len in *. lia. }
  rewrite <- Hready. split_and!; [by rewrite take_drop|done| |done]. intros Hn0. rewrite Hn0 in Hlen. change (len []) with 0 in Hlen. lia.
Qed.

Fixpoint ranges_of (start : Z) (txs : list transmit) : list (Z * Z) :=
  match txs with
  | [] => []
  | tx :: txs => let n := len (segments_of (ut_packet tx)) in (start, n) :: ranges_of (start + n) txs
  end.

Lemma os_segments_eq b : os_buf_ok cells b → os_segments cells b = Ret (segments_of b).
Proof.
  intros Hok. unfold os_segments, segments_of. rewrite (os_as_slice_ok cells) by done. by destruct (_ =? 0).
Qed.

Lemma fill_iovs_ok (txs : list transmit) : ∀ iovs ranges, Forall (λ tx, os_buf_ok cells (ut_packet tx)) txs →
  fill_iovs cells (Ready <$> txs) iovs ranges
  = Ret (iovs ++ concat ((λ tx, segments_of (ut_packet tx)) <$> txs), ranges ++ ranges_of (len iovs) txs).
Proof.
  induction txs as [|tx txs IH]; intros iovs ranges HF; cbn [fill_iovs fmap list_fmap]; [by rewrite !app_nil_r|].
  apply Forall_cons in HF as [Hb HF]. cbn [slot_as_ref]. rewrite os_segments_eq by done. run. rewrite IH by done.
  rewrite <- !app_assoc. cbn. rewrite !len_app. repeat f_equal. lia.
Qed.

Lemma fill_hdrs_ok (txs : list transmit) : ∀ iovs ranges,
  fill_hdrs (Ready <$> txs) (len ranges) (iovs ++ concat ((λ tx, segments_of (ut_packet tx)) <$> txs))
    (ranges ++ ranges_of (len iovs) txs) = Ret (message_of <$> txs).
Proof.
  induction txs as [|tx txs IH]; intros iovs ranges; cbn [fill_hdrs fmap list_fmap]; [done|].
  cbn [slot_as_ref ranges_of concat]. set (segs := segments_of (ut_packet tx)).
  rewrite (index_Some _ _ (len iovs, len segs)).
  2:{ rewrite nthZ_app_r by lia. by rewrite Z.sub_diag. }
  run. pose proof (len_nonneg iovs). pose proof (len_nonneg segs).
  rewrite slice_window by (rewrite ?len_app; pose proof (len_nonneg (concat ((λ tx, segments_of (ut_packet tx)) <$> txs))); lia).
  assert (Hw : window (iovs ++ segs ++ concat ((λ tx, segments_of (ut_packet tx)) <$> txs)) (len iovs) (len segs) = segs).
  { unfold window. rewrite drop_app_length' by (unfold len; lia). rewrite take_app_length'; [done|unfold len; lia]. }
  rewrite Hw. specialize (IH (iovs ++ segs) (ranges ++ [(len iovs, len segs)])). rewrite len_snoc, len_app in IH.
  rewrite <- !app_assoc in IH. cbn [app] in IH. rewrite IH. run. done.
Qed.

(** ** Dropping accepted packets

    [I h bs]: the buffers [bs] can be dropped in the heap [h]. *)
Context (I : OsHeap Q → list OsPacketBufInner → Prop).
Context (Idrop : ∀ h b bs, I h (b :: bs) → ∃ h', os_drop_buf thread h b = Ret h' ∧ I h' bs).
Context (Iok : ∀ h bs, I h bs → hp_cells h = cells ∧ Forall (os_buf_ok cells) bs).

Definition packets (txs : list transmit) : list OsPacketBufInner := ut_packet <$> txs.

Lemma take_slots_ok (n : nat) : ∀ h (txs : list transmit) more, (n ≤ length txs)%nat → I h (packets txs ++ more) →
  ∃ h', take_slots thread n h (Ready <$> txs) = Ret (h', replicate n Taken ++ drop n (Ready <$> txs)) ∧
    I h' (packets (drop n txs) ++ more).
Proof.
  induction n as [|n IH]; intros h txs more Hn HI; cbn [take_slots].
  { exists h. by rewrite !drop_0; destruct (Ready <$> txs). }
  destruct txs as [|tx txs]; [cbn in Hn; lia|]. cbn [fmap list_fmap take_slot slot_take].
  destruct (Idrop _ _ _ HI) as (h1 & E & HI1). unfold take_slot. cbn [slot_take]. rewrite E. run.
  destruct (IH h1 txs more) as (h2 & E2 & HI2); [cbn in Hn; lia|done|]. rewrite E2. run. by exists h2.
Qed.

(** ** The send loop *)

(** Why a send stops with an error: the slot after the accepted ones is not
    sendable, or the kernel refused it for good. *)
Definition send_error (mtu : Z) (slot : option (TxSlot transmit)) (kind : Error) : Prop :=
  (∃ s, slot = Some s ∧ validate_slot mtu s = Err kind) ∨
  (∃ e, is_transient e = false ∧ kind = io_error_to_core e).

Record send_post (msg : transmit → OsMessage) w (tail : list (TxSlot transmit)) (a : Z) w' (tail' : list (TxSlot transmit)) (r : result Z SendError) : Prop := mkSendPost {
  sp_socket : ow_socket w' = ow_socket w;
  sp_slots : slots_after (accepted_of r - a) tail tail';
  sp_heap : I (ow_heap w') (packets (items tail'));
  sp_wire : k_wire (ow_kernel w') = k_wire (ow_kernel w) ++ (msg <$> items (take (Z.to_nat (accepted_of r - a)) tail));
  sp_refusals : (k_refusals (ow_kernel w') ≤ k_refusals (ow_kernel w))%nat;
  sp_progress : r = Ok a → tail ≠ [] → (k_refusals (ow_kernel w') < k_refusals (ow_kernel w))%nat;
  sp_valid : Forall (λ s, validate_slot (so_mtu (ow_socket w)) s = Ok tt) (take (Z.to_nat (accepted_of r - a)) tail);
  sp_error e : r = Err e → send_error (so_mtu (ow_socket w)) (tail !! Z.to_nat (se_accepted e - a)) (se_kind e);
}.

Lemma send_post_step msg w w1 tail a m w' tail' r : 0 ≤ m ≤ len tail →
  Forall (λ s, validate_slot (so_mtu (ow_socket w)) s = Ok tt) (take (Z.to_nat m) tail) →
  ow_socket w1 = ow_socket w → k_wire (ow_kernel w1) = k_wire (ow_kernel w) ++ (msg <$> items (take (Z.to_nat m) tail)) →
  (k_refusals (ow_kernel w1) ≤ k_refusals (ow_kernel w))%nat →
  send_post msg w1 (drop (Z.to_nat m) tail) (a + m) w' tail' r →
  send_post msg w tail a w' (replicate (Z.to_nat m) Taken ++ tail') r.
Proof.
  intros Hm Hv Hs Hw Hr [P1 P2 P3 P4 P5 P6 Pv P7]. pose proof (validated_is_ready _ _ Hv) as Hf.
  assert (Hsum : m + (accepted_of r - (a + m)) = accepted_of r - a) by lia. destruct (P2) as ([Hn0 Hn1] & _).
  constructor.
  - congruence.
  - rewrite <- Hsum. apply slots_after_app; [|done]. split_and!; try done; lia.
  - rewrite items_app. replace (items (replicate (Z.to_nat m) Taken)) with ([] : list transmit); [done|].
    clear. induction (Z.to_nat m); cbn; done.
  - rewrite P4, Hw, <- app_assoc, <- fmap_app, <- Hsum, items_take_split by lia. done.
  - lia.
  - intros -> Ht. cbn in Hn0. assert (m = 0) as -> by lia. rewrite Z.add_0_r in P6. specialize (P6 eq_refl Ht). lia.
  - rewrite <- Hsum, Z2Nat.inj_add, <- take_take_drop by lia. apply Forall_app. split; [done|]. by rewrite <- Hs.
  - intros e ->. specialize (P7 e eq_refl). rewrite <- Hs. rewrite lookup_drop in P7. cbn in Hn0.
    replace (Z.to_nat (se_accepted e - a)) with (Z.to_nat m + Z.to_nat (se_accepted e - (a + m)))%nat by lia. done.
Qed.

Lemma send_post_stop msg w w1 tail a r : ow_socket w1 = ow_socket w → ow_heap w1 = ow_heap w → k_wire (ow_kernel w1) = k_wire (ow_kernel w) →
  accepted_of r = a → I (ow_heap w) (packets (items tail)) → (k_refusals (ow_kernel w1) ≤ k_refusals (ow_kernel w))%nat →
  (r = Ok a → tail ≠ [] → (k_refusals (ow_kernel w1) < k_refusals (ow_kernel w))%nat) →
  (∀ e, r = Err e → send_error (so_mtu (ow_socket w)) (head tail) (se_kind e)) → send_post msg w tail a w1 tail r.
Proof.
  intros Hs Hh Hw Ha HI Hr Hp He. constructor; try done; rewrite ?Ha, ?Z.sub_diag.
  - apply slots_after_zero.
  - by rewrite Hh.
  - cbn. by rewrite app_nil_r.
  - constructor.
  - intros e ->. cbn in Ha. rewrite Ha, Z.sub_diag. specialize (He e eq_refl). by destruct tail.
Qed.

Lemma send_refused_post msg w w1 tail a e pre : ow_socket w1 = ow_socket w → ow_heap w1 = ow_heap w → k_wire (ow_kernel w1) = k_wire (ow_kernel w) →
  I (ow_heap w) (packets (items tail)) → (∃ k0, (k_refusals k0 ≤ k_refusals (ow_kernel w))%nat ∧ refused k0 (ow_kernel w1) e) →
  ∃ r, send_refused w1 (pre ++ tail) a e = (w1, pre ++ tail, r) ∧ send_post msg w tail a w1 tail r.
Proof.
  intros Hs Hh Hw HI (k0 & Hk & He). unfold send_refused, refused in *. destruct (is_transient e) eqn:Ht.
  - exists (Ok a). split; [done|]. apply send_post_stop; try done; lia.
  - exists (Err (mkSendError a (io_error_to_core e))). split; [done|]. apply send_post_stop; try done; [lia|].
    intros e' [= <-]. right. by exists e.
Qed.

(** What follows a batched send that took the messages [done] of a chunk and
    left those of [txs]. *)
Lemma send_after (fuel : nat) w tail a (done : list OsMessage) (txs : list transmit) rest :
  (∀ w tail a, 0 ≤ a → (length tail ≤ fuel)%nat → 1 ≤ so_max_batch (ow_socket w) → I (ow_heap w) (packets (items tail)) →
     ∃ w' tail' r, send_loop thread fuel w (replicate (Z.to_nat a) Taken ++ tail) a
       = Ret (w', replicate (Z.to_nat a) Taken ++ tail', r) ∧ send_post message_of w tail a w' tail' r) →
  0 ≤ a → tail = (Ready <$> txs) ++ rest → Forall (λ s, validate_slot (so_mtu (ow_socket w)) s = Ok tt) (Ready <$> txs) →
  1 ≤ so_max_batch (ow_socket w) → I (ow_heap w) (packets (items tail)) →
  (length tail ≤ S fuel)%nat → (txs = [] → (length tail ≤ fuel)%nat) →
  let batch := replicate (Z.to_nat a) Taken ++ tail in
  ∃ w' tail' r,
    (if len done <? len done + len txs then
       hdr ← index (done ++ (message_of <$> txs)) (len done);
       '(k, r) ← retry_interrupted (λ k, k_sendmsg k hdr) (ow_kernel w);
       let w := with_kernel w k in
       match r with
       | Err e => Ret (send_refused w batch a e)
       | Ok _ =>
           slot ← index batch a;
           '(h, slot) ← take_slot thread (ow_heap w) slot;
           batch ← set_index batch a slot;
           send_loop thread fuel (with_heap w h) batch (a + 1)
       end
     else send_loop thread fuel w batch a) = Ret (w', replicate (Z.to_nat a) Taken ++ tail', r) ∧ send_post message_of w tail a w' tail' r.
Proof.
  intros IH Ha Et Hval Hmax HI Hf1 Hf2 batch. pose proof (len_nonneg txs). destruct (Z.ltb_spec (len done) (len done + len txs)) as [Hlt|Hge].
  2:{ apply IH; try done. apply Hf2. apply nil_length_inv. unfold len in *. lia. }
  destruct txs as [|tx txs]; [change (len []) with 0 in Hlt; lia|]. rewrite (index_Some _ _ (message_of tx)).
  2:{ rewrite nthZ_app_r, Z.sub_diag by lia. done. }
  run. destruct (retry_interrupted_ok (λ k, k_sendmsg k (message_of tx))
    ltac:(intros k k' e Ek; destruct (k_sendmsg_law _ _ _ _ Ek); split; [done|by apply refused_interrupted]) (ow_kernel w)) as (k0 & k1 & r & -> & Ecall & Hw0 & Hr0 & _). run.
  pose proof (k_sendmsg_law _ _ _ _ Ecall) as Hlaw. destruct r as [m|e].
  2:{ destruct Hlaw as [Hw1 Hr1]. destruct (send_refused_post message_of w (with_kernel w k1) tail a e (replicate (Z.to_nat a) Taken)) as (r & E & Hp); cbn; try done; try congruence.
      - by exists k0.
      - unfold batch. rewrite E. by eexists _, _, _. }
  destruct Hlaw as [Hw1 Hr1]. set (tail1 := (Ready <$> txs) ++ rest). assert (Et1 : tail = Ready tx :: tail1) by done.
  assert (Hla : len (replicate (Z.to_nat a) (@Taken transmit)) = a) by (by rewrite len_replicate).
  rewrite (index_Some _ _ (Ready tx)) by (unfold batch; rewrite Et1, nthZ_app_r, Hla, Z.sub_diag by lia; done). run.
  unfold take_slot. cbn [slot_take ow_heap with_kernel]. rewrite Et1 in HI. destruct (Idrop _ _ _ HI) as (h1 & -> & HI1). run.
  assert (Hset : set_index batch a Taken = Ret (replicate (Z.to_nat (a + 1)) Taken ++ tail1)).
  { rewrite set_index_ok by (unfold batch; rewrite Et1, len_app, len_cons, Hla; pose proof (len_nonneg tail1); lia).
    unfold batch. rewrite Et1, insert_app_r_alt by (rewrite length_replicate; lia). rewrite length_replicate, Nat.sub_diag. cbn.
    rewrite Z2Nat.inj_add, replicate_add, <- app_assoc by lia. done. }
  rewrite Hset. run. destruct (IH (with_heap (with_kernel w k1) h1) tail1 (a + 1)) as (w' & t' & r & E & Hp);
    [lia|rewrite Et1 in Hf1; cbn in Hf1; lia|done|done|]. rewrite E.
  exists w', (Taken :: t'), r. split; [by rewrite Z2Nat.inj_add, replicate_add, <- app_assoc by lia|].
  apply (send_post_step message_of w (with_heap (with_kernel w k1) h1) tail a 1 w' t' r); rewrite ?Et1; cbn; try done; try lia.
  - rewrite len_cons. pose proof (len_nonneg tail1). lia.
  - apply Forall_cons in Hval as [Hval _]. by constructor.
  - by rewrite Hw1, Hw0.
Qed.

Lemma send_loop_ok (fuel : nat) : ∀ w tail a, 0 ≤ a → (length tail ≤ fuel)%nat → 1 ≤ so_max_batch (ow_socket w) →
  I (ow_heap w) (packets (items tail)) →
  ∃ w' tail' r, send_loop thread fuel w (replicate (Z.to_nat a) Taken ++ tail) a
      = Ret (w', replicate (Z.to_nat a) Taken ++ tail', r) ∧ send_post message_of w tail a w' tail' r.
Proof.
  induction fuel as [|fuel IH]; intros w tail a Ha Hf Hmax HI; cbn [send_loop]; rewrite len_app, len_replicate by lia.
  { destruct tail; [|cbn in Hf; lia]. change (len []) with 0. rewrite Z.add_0_r, Z.ltb_irrefl. exists w, [], (Ok a). split; [done|].
    by apply send_post_stop. }
  destruct tail as [|slot0 tail0] eqn:Htail.
  { change (len []) with 0. rewrite Z.add_0_r, Z.ltb_irrefl. exists w, [], (Ok a). split; [done|]. by apply send_post_stop. }
  rewrite <- Htail in *. assert (Hlt : 0 < len tail) by (rewrite Htail, len_cons; pose proof (len_nonneg tail0); lia).
  destruct (Z.ltb_spec a (a + len tail)); [|lia]. rewrite drop_app_length', take_app_length' by (by rewrite length_replicate).
  replace (a + len tail - a) with (len tail) by lia.
  pose proof (chunk_cases (so_mtu (ow_socket w)) (so_max_batch (ow_socket w)) tail Hmax ltac:(by rewrite Htail)) as Hc.
  destruct (chunk_loop _ _ _ _) as [c|kind].
  2:{ destruct Hc as (s & rest & E & Hv). exists w, tail, (Err (mkSendError a kind)). split; [done|]. apply send_post_stop; try done.
      intros e [= <-]. left. exists s. by rewrite E. }
  destruct Hc as (txs & rest & Etail & Hc & Hne0 & Hcv). clear Htail. assert (Hlen : length txs = Z.to_nat c) by (unfold len in Hc; lia).
  replace (take (Z.to_nat c) tail) with (Ready <$> txs) by (rewrite Etail, take_app_length'; [done|by rewrite length_fmap]).
  replace (drop (Z.to_nat c) tail) with rest by (rewrite Etail, drop_app_length'; [done|by rewrite length_fmap]).
  destruct (Iok _ _ HI) as [Hcells Hbok]. unfold ow_cells. rewrite Hcells.
  rewrite Etail, items_app, items_ready in HI, Hbok. unfold packets in HI, Hbok. rewrite fmap_app in HI, Hbok.
  apply Forall_app in Hbok as [Hbok _]. rewrite fill_iovs_ok by (rewrite Forall_fmap in Hbok; exact Hbok). run.
  pose proof (fill_hdrs_ok txs [] []) as Hhdrs. cbn [app] in Hhdrs. change (len []) with 0 in Hhdrs |- *. cbn [app]. rewrite Hhdrs. run.
  assert (Hne : message_of <$> txs ≠ []) by (by destruct txs).
  destruct (retry_interrupted_ok (λ k, k_sendmmsg k (message_of <$> txs))
    ltac:(intros k k' e Ek; destruct (k_sendmmsg_law _ _ _ _ Hne Ek); split; [done|by apply refused_interrupted]) (ow_kernel w)) as (k0 & k1 & r & -> & Ecall & Hw0 & Hr0 & _). run.
  pose proof (k_sendmmsg_law _ _ _ _ Hne Ecall) as Hlaw. destruct r as [n|e].
  2:{ destruct Hlaw as [Hw1 Hr1].
      destruct (send_refused_post message_of w (with_kernel w k1) tail a e (replicate (Z.to_nat a) Taken)) as (r & -> & Hp); cbn; try done; try congruence.
      - unfold packets; by rewrite Etail, items_app, items_ready, fmap_app.
      - by exists k0.
      - by eexists _, _, _. }
  destruct Hlaw as (Hn & Hw1 & Hr1). unfold len in Hn. rewrite length_fmap, Hlen in Hn.
  destruct (take_slots_ok (Z.to_nat n) (ow_heap w) txs (packets (items rest))) as (h1 & E1 & HI1); [lia|done|].
  cbn [ow_heap with_kernel]. rewrite E1. run.
  set (w1 := with_heap (with_kernel w k1) h1).
  assert (Edrop : drop (Z.to_nat n) tail = drop (Z.to_nat n) (Ready <$> txs) ++ rest).
  { rewrite Etail. apply drop_app_le. rewrite length_fmap. lia. }
  assert (Etake : take (Z.to_nat n) tail = Ready <$> take (Z.to_nat n) txs).
  { rewrite Etail, take_app_le by (rewrite length_fmap; lia). by rewrite fmap_take. }
  rewrite <- (take_drop (Z.to_nat n) txs), fmap_app, Forall_app in Hcv. destruct Hcv as [Hcv1 Hcv2]. rewrite <- Etake in Hcv1.
  assert (Hwire1 : k_wire (ow_kernel w1) = k_wire (ow_kernel w) ++ (message_of <$> items (take (Z.to_nat n) tail))).
  { cbn. rewrite Hw1, Hw0, Etake, items_ready, fmap_take. done. }
  assert (HI1' : I (ow_heap w1) (packets (items (drop (Z.to_nat n) tail)))).
  { rewrite Edrop, items_app, <- fmap_drop, items_ready. unfold packets in *. rewrite fmap_app. done. }
  assert (Hnl : 0 ≤ n ≤ len tail) by (rewrite Etail, len_app; unfold len; rewrite length_fmap; lia).
  rewrite <- !app_assoc, <- Edrop, app_assoc, <- replicate_add, <- Z2Nat.inj_add by lia.
  assert (Hmsg : message_of <$> txs = (message_of <$> take (Z.to_nat n) txs) ++ (message_of <$> drop (Z.to_nat n) txs))
    by (by rewrite <- fmap_app, take_drop).
  assert (Hdone : len (message_of <$> take (Z.to_nat n) txs) = n) by (unfold len; rewrite length_fmap, length_take; lia).
  destruct (send_after fuel w1 (drop (Z.to_nat n) tail) (a + n) (message_of <$> take (Z.to_nat n) txs) (drop (Z.to_nat n) txs) rest IH)
    as (w' & t' & r & E & Hp); try done; [lia|by rewrite fmap_drop|rewrite length_drop; lia| |].
  { intros Hnil. assert (0 < length txs)%nat by (destruct txs; [done|cbn; lia]). apply (f_equal length) in Hnil. revert Hnil. rewrite !length_drop. cbn [length]. lia. }
  rewrite <- Hmsg, Hdone in E. replace (n + len (drop (Z.to_nat n) txs)) with c in E by (rewrite <- Hc; unfold len; rewrite length_drop; lia).
  exists w', (replicate (Z.to_nat n) Taken ++ t'), r. split; [etrans; [exact E|]; by rewrite app_assoc, <- replicate_add, <- Z2Nat.inj_add by lia|].
  apply (send_post_step message_of w w1); try done. cbn. lia.
Qed.

(** ** One datagram at a time *)
Section Portable.
Context (send_to : K → SocketAddr → list Z → K * result Z OsIoError).
Definition portable_message (tx : transmit) : OsMessage :=
  mkOsMessage (sockaddr_from_socketaddr (ut_destination tx)) [os_packet (ut_packet tx)].
Context (send_to_law : ∀ k addr data k' r, send_to k addr data = (k', r) →
  match r with
  | Ok _ => k_wire k' = k_wire k ++ [mkOsMessage (sockaddr_from_socketaddr addr) [data]] ∧ (k_refusals k' ≤ k_refusals k)%nat
  | Err e => k_wire k' = k_wire k ∧ refused k k' e
  end).

(** The same promise as the batched send's, for the same batches. *)
Lemma portable_send_loop_ok : ∀ tail w a, I (ow_heap w) (packets (items tail)) →
  ∃ w' tail' r, portable_send_loop thread send_to w tail a = Ret (w', tail', r) ∧ send_post portable_message w tail a w' tail' r.
Proof.
  induction tail as [|slot tail IH]; intros w a HI; cbn [portable_send_loop].
  { exists w, [], (Ok a). split; [done|]. by apply send_post_stop. }
  destruct (validate_slot (so_mtu (ow_socket w)) slot) as [[]|kind] eqn:Hv.
  2:{ exists w, (slot :: tail), (Err (mkSendError a kind)). split; [done|]. apply send_post_stop; try done. intros e [= <-]. left. by exists slot. }
  destruct slot as [tx|]; [|done]. cbn [slot_as_ref]. destruct (Iok _ _ HI) as [Hcells Hb]. apply Forall_cons in Hb as [Hb _].
  unfold ow_cells. rewrite Hcells, os_as_slice_ok by done. run. destruct (send_to (ow_kernel w) (ut_destination tx) (os_packet (ut_packet tx))) as [k r] eqn:E.
  pose proof (send_to_law _ _ _ _ _ E) as Hlaw. destruct r as [n|e].
  2:{ destruct Hlaw as [Hw He]. destruct (send_refused_post portable_message w (with_kernel w k) (Ready tx :: tail) a e []) as (r & Er & Hp); try done.
      - by exists (ow_kernel w).
      - cbn [app] in Er. rewrite Er. by exists (with_kernel w k), (Ready tx :: tail), r. }
  destruct Hlaw as [Hw Hr]. unfold take_slot. cbn [slot_take ow_heap with_kernel]. destruct (Idrop _ _ _ HI) as (h1 & -> & HI1). run.
  destruct (IH (with_heap (with_kernel w k) h1) (a + 1) HI1) as (w' & t' & r & -> & Hp). run. exists w', (Taken :: t'), r. split; [done|].
  apply (send_post_step portable_message w (with_heap (with_kernel w k) h1) (Ready tx :: tail) a 1 w' t' r); try done.
  - rewrite len_cons. pose proof (len_nonneg tail). lia.
  - by constructor.
Qed.
End Portable.
End Send.

(** * The trait and its contracts

    [OsUdpSocket] as an implementation of the [UdpSocket] trait: its sends
    satisfy the contract the generic endpoint code and the send-to-completion
    loops are proved against. *)
(** ** The trait *)

(** Frozen and mutable buffers are the same handle; the cells are those of
    the heap the buffer lives in. *)
Definition os_buffer_in (cells : Cells) : PacketBuffer OsPacketBufInner := {|
  pb_len := os_len;
  pb_headroom := os_headroom cells;
  pb_tailroom b := ret_or 0 (os_tailroom cells b);
  pb_layout b := oc_layout (ob_ctx b);
  pb_segments b := ret_or [] (os_segments cells b);
  pb_read_at_exact b off n := ret_or (Err (OutOfBounds off n 0)) (os_read_at_exact cells b off n);
|}.

Section Contract.
Context {Q K : Type} `{!ArrayQueue Q (list Z), !ArrayQueueLaws Q (list Z)} `{!OsKernel K, !OsKernelLaws K}.
Variable thread : Z.
Variable cells : Cells.

(** The methods the generic code calls; [send_to] is the one it defines. *)
Definition os_udp_socket_with (send_to : OsWorld Q K * GenericUdpEndpoint → list (TxSlot (UdpEndpointTransmit OsPacketBufInner)) →
    outcome (send_result (OsWorld Q K * GenericUdpEndpoint) (UdpEndpointTransmit OsPacketBufInner))) :
    UdpSocket (OsWorld Q K) OsPacketBufInner OsPacketBufInner GenericUdpEndpoint := {|
  udp_mtu w := so_mtu (ow_socket w);
  udp_capabilities _ := UdpCapabilities_default;
  allocate_tx_batch := os_allocate_tx_batch thread;
  udp_send := send_impl thread;
  udp_endpoint_info _ endpoint := ge_info endpoint;
  send_to_udp_endpoint := send_to;
  drain_tx_completions := os_drain_tx_completions;
|}.
Definition os_send_to_udp_endpoint (endpoint : GenericUdpEndpoint) (w : OsWorld Q K)
    (batch : list (TxSlot (UdpEndpointTransmit OsPacketBufInner))) : outcome (send_result (OsWorld Q K) (UdpEndpointTransmit OsPacketBufInner)) :=
  send_generic_udp_endpoint (H := os_buffer_in cells) (H0 := os_udp_socket_with (λ _ _, Diverge)) endpoint w batch.
#[export] Instance os_udp_socket : UdpSocket (OsWorld Q K) OsPacketBufInner OsPacketBufInner GenericUdpEndpoint :=
  os_udp_socket_with (λ we batch, '(w, batch, r) ← os_send_to_udp_endpoint we.2 we.1 batch; Ret (w, we.2, batch, r)).
Definition os_prepare_udp_endpoint (w : OsWorld Q K) (spec : UdpEndpointSpec) : result GenericUdpEndpoint Error :=
  prepare_generic_udp_endpoint (H0 := os_udp_socket) w spec.

(** ** The contract

    [owned] are the pools of the thread. *)
Variable owned : gset Z.

Definition thread_pools (h : OsHeap Q) : Prop :=
  hp_cells h = cells ∧ ∀ a, a ∈ owned → ∃ p, hp_pools h !! a = Some p ∧ po_owner p = thread.
Definition os_sendable (b : OsPacketBufInner) : Prop :=
  os_buf_ok cells b ∧ ob_armed b = true ∧ oc_reclaim (ob_ctx b) ∈ owned.
Definition os_socket_ok (w : OsWorld Q K) : Prop := 1 ≤ so_max_batch (ow_socket w) ∧ thread_pools (ow_heap w).

Lemma thread_drop h b bs : thread_pools h ∧ Forall os_sendable (b :: bs) →
  ∃ h', os_drop_buf thread h b = Ret h' ∧ thread_pools h' ∧ Forall os_sendable bs.
Proof.
  intros [[Hc Hp] [(Hok & Harm & Hin) HF]%Forall_cons]. unfold os_drop_buf, os_reclaim, assert_owner_alive. rewrite Harm, Hc. cbn [negb].
  rewrite bool_decide_true by apply Hok. run. destruct (Hp _ Hin) as (p & E & Ho). rewrite E. unfold os_pool_push, reclaim_push.
  rewrite Ho, Z.eqb_refl. run. eexists. split; [reflexivity|]. split; [|done]. split; [done|]. intros a Ha. cbn.
  destruct (decide (a = oc_reclaim (ob_ctx b))) as [->|Hne]; [rewrite lookup_insert_eq; by eexists|]. rewrite lookup_insert_ne by done. by apply Hp.
Qed.

Lemma os_send_spec w batch : os_socket_ok w → Forall (os_sendable ∘ ut_packet) (items batch) →
  ∃ w' batch' r, send_impl thread w batch = Ret (w', batch', r) ∧
    send_post (λ h bs, thread_pools h ∧ Forall os_sendable bs) message_of w batch 0 w' batch' r.
Proof.
  intros [Hmax Hp] HF. unfold send_impl.
  destruct (send_loop_ok thread cells (λ h bs, thread_pools h ∧ Forall os_sendable bs) thread_drop) with
    (fuel := length batch) (w := w) (tail := batch) (a := 0) as (w' & t' & r & E & Hpost); try done.
  - intros h bs [[Hc _] Hbs]. split; [done|]. eapply Forall_impl; [exact Hbs|]. by intros b [].
  - split; [done|]. unfold packets. rewrite Forall_fmap. done.
  - exists w', t', r. done.
Qed.

Definition sent_messages (w : OsWorld Q K) : list OsMessage := k_wire (ow_kernel w).

#[export] Instance os_send_contract :
  SendContract os_socket_ok (os_sendable ∘ ut_packet) sent_messages message_of (send_impl thread).
Proof.
  intros w b Hw HF. destruct (os_send_spec w b Hw HF) as (w' & b' & r & E & [P1 P2 P3 P4 _ _ _ _]). exists w', b', r.
  rewrite Z.sub_0_r in *. split_and!; try done. destruct Hw. split; [by rewrite P1|]. apply P3.
Qed.

#[export] Instance os_drain_contract : DrainContract os_socket_ok sent_messages os_drain_tx_completions.
Proof. intros w Hw. by exists w, (Ok 0). Qed.

(** Back-pressure ends because the kernel's refusals do. *)
#[export] Instance os_send_progress :
  SendProgress os_socket_ok (os_sendable ∘ ut_packet) (send_impl thread) os_drain_tx_completions (λ w, k_refusals (ow_kernel w)).
Proof.
  intros w b w1 b1 w2 k Hw HF Hb Hs Hd. injection Hd as <- _. destruct (os_send_spec w b Hw HF) as (w' & b' & r & E & [_ _ _ _ _ P6 _ _]).
  rewrite E in Hs. injection Hs as <- <- ->. by apply P6.
Qed.
End Contract.
