(* ===== verification/OsRecv.v ===== *)
(** * Receive of the kernel-socket backend *)
From S2P Require Import Prelude Bits Netlink Core Buffer Window Reclaim ReclaimProofs Wire WireProofs NetlinkProofs PacketBuf Endpoint OsBuffer OsBufferProofs OsPools OsSocket OsSend.
Open Scope Z_scope.

(** ** Metadata *)
Lemma mem_read_ok (l : list Z) off n : 0 ≤ off → 0 ≤ n → off + n ≤ len l → mem_read l off n = Ret (window l off n).
Proof. intros. unfold mem_read. by rewrite slice_window. Qed.

Lemma read_be16_total buf at_ : 0 ≤ at_ → at_ + 2 ≤ len buf → ∃ x, read_be16 buf at_ = Ret x.
Proof.
  intros H0 H1. unfold read_be16. destruct (nthZ_is_Some buf at_) as [a Ha]; [lia|]. destruct (nthZ_is_Some buf (at_ + 1)) as [b Hb]; [lia|].
  rewrite (get_unchecked_Some _ _ _ Ha). run. rewrite (get_unchecked_Some _ _ _ Hb). run. by eexists.
Qed.

Lemma list_of_four (l : list Z) : len l = 4 → ∃ a b c d, l = [a; b; c; d].
Proof. intros H. destruct l as [|a [|b [|c [|d [|]]]]]; unfold len in H; cbn in H; try lia. by eexists _, _, _, _. Qed.

Lemma socketaddr_total buf n : bytes_ok buf → len buf = 128 → ∃ o, socketaddr_from_raw buf n = Ret o.
Proof.
  intros Hb HL. unfold socketaddr_from_raw. destruct (read_le16_total buf 0 Hb) as (f & -> & _); [lia|lia|]. run.
  destruct (read_be16_total buf 2) as [port Hp]; [lia|lia|]. destruct (_ && _).
  - rewrite Hp. run. rewrite mem_read_ok by lia. run. destruct (list_of_four (window buf 4 4)) as (a & b & c & d & ->); [rewrite len_window; lia|]. by eexists.
  - destruct (_ && _); [|by eexists]. rewrite Hp. run. destruct (read_le32_total buf 4 Hb) as (x & -> & _); [lia|lia|]. run.
    rewrite mem_read_ok by lia. run. destruct (read_le32_total buf 24 Hb) as (y & -> & _); [lia|lia|]. run. by eexists.
Qed.

Lemma pktinfo_total control :
  Forall (λ c, bytes_ok (cm_data c) ∧ (cm_type c = IP_PKTINFO → 12 ≤ len (cm_data c)) ∧
               (cm_type c = IPV6_PKTINFO → 20 ≤ len (cm_data c))) control →
  ∃ o, parse_pktinfo_destination control = Ret o.
Proof.
  induction 1 as [|c control (_ & H4 & H6) _ IH]; cbn [parse_pktinfo_destination]; [by eexists|].
  destruct (Z.eqb_spec (cm_type c) IP_PKTINFO) as [E4|], (Z.eqb_spec (cm_type c) IPV6_PKTINFO) as [E6|]; rewrite ?andb_false_r, ?andb_true_r.
  - rewrite E4 in E6. done.
  - destruct (cm_level c =? IPPROTO_IP); [|done]. specialize (H4 E4). rewrite mem_read_ok by lia. run.
    destruct (list_of_four (drop 8 (window (cm_data c) 0 12))) as (a & b & d & e & ->); [|by eexists].
    change 8%nat with (Z.to_nat 8). rewrite len_drop, len_window by lia. lia.
  - destruct (cm_level c =? IPPROTO_IPV6); [|done]. specialize (H6 E6). rewrite mem_read_ok by lia. run. by eexists.
  - done.
Qed.

(** What a datagram is delivered as. *)
Definition datagram_meta (port : Z) (d : OsDatagram) : option UdpRecvMeta :=
  if od_trunc d then None
  else match socketaddr_from_raw (od_addr d) (od_namelen d) with
       | Ret (Some source) => Some (recv_meta port source (ret_or None (parse_pktinfo_destination (od_control d))) (od_len d))
       | _ => None
       end.
Definition delivered_of (port : Z) (ds : list OsDatagram) : list (list Z * UdpRecvMeta) :=
  omap (λ d, (λ m, (od_payload d, m)) <$> datagram_meta port d) ds.

Section Recv.
Context {Q K : Type} `{!ArrayQueue Q (list Z), !ArrayQueueLaws Q (list Z)} `{!OsKernel K, !OsKernelLaws K}.
Variable thread : Z.
Abbreviation receive := (OsPacketBufInner * UdpRecvMeta)%type.
Implicit Types (h : OsHeap Q) (w : OsWorld Q K).

(** A buffer of the pool [c] whose owner lives. *)
Definition prepared (cells : Cells) (c : OsBufCtx) (b : OsPacketBufInner) : Prop :=
  ob_ctx b = c ∧ os_buf_ok cells b ∧ len (ob_storage b) = allocation_len (oc_layout c).

(** ** Preparing buffers *)
Lemma prepare_loop_ok c live (n : nat) : ∀ h slots more,
  (n ≤ length slots)%nat → os_inv (mkO h live (omap id slots ++ more)) → c ∈ live →
  (∀ p, hp_pools h !! oc_reclaim c = Some p → po_owner p = thread) → Forall (prepared (hp_cells h) c) (omap id slots) →
  ∃ h' bs rest, prepare_loop thread n h c slots = Ret (h', (Some <$> bs) ++ rest, len bs) ∧
    (length bs ≤ n)%nat ∧ length slots = (length bs + length rest)%nat ∧ hp_cells h' = hp_cells h ∧
    os_inv (mkO h' live (bs ++ omap id rest ++ more)) ∧ Forall (prepared (hp_cells h) c) (bs ++ omap id rest) ∧
    (∀ p, hp_pools h' !! oc_reclaim c = Some p → po_owner p = thread ∧
       ((length bs < n)%nat → issued p (bs ++ omap id rest ++ more) = po_max_buffers p)).
Proof.
  induction n as [|n IH]; intros h slots more Hn Hi Hc Ho HF; cbn [prepare_loop].
  { exists h, [], slots. split_and!; try done. intros p Hp. split; [by apply Ho|]. cbn. lia. }
  assert (Hrec : ∀ h1 b slots, os_inv (mkO h1 live ((b :: omap id slots) ++ more)) → (n ≤ length slots)%nat → hp_cells h1 = hp_cells h →
    (∀ p, hp_pools h1 !! oc_reclaim c = Some p → po_owner p = thread) → Forall (prepared (hp_cells h) c) (b :: omap id slots) →
    ∃ h' bs rest, ('(h, slots, count) ← prepare_loop thread n h1 c slots; Ret (h, Some b :: slots, count + 1))
        = Ret (h', (Some <$> bs) ++ rest, len bs) ∧
      (length bs ≤ S n)%nat ∧ S (length slots) = (length bs + length rest)%nat ∧ hp_cells h' = hp_cells h ∧
      os_inv (mkO h' live (bs ++ omap id rest ++ more)) ∧ Forall (prepared (hp_cells h) c) (bs ++ omap id rest) ∧
      (∀ p, hp_pools h' !! oc_reclaim c = Some p → po_owner p = thread ∧
         ((length bs < S n)%nat → issued p (bs ++ omap id rest ++ more) = po_max_buffers p))).
  { intros h1 b slots1 Hi1 Hn1 Hcells Ho1 [Hb HF1]%Forall_cons.
    assert (Hmv : ∀ l, Permutation (l ++ b :: more) ((b :: l) ++ more)) by (intros l; by rewrite <- Permutation_middle).
    destruct (IH h1 slots1 (b :: more)) as (h2 & bs & rest & E & Hle & Hlen & Hc2 & Hi2 & HF2 & Ho2); try done.
    { eapply inv_perm; [|exact Hi1]. symmetry. apply Hmv. }
    { by rewrite Hcells. }
    rewrite E. run. exists h2, (b :: bs), rest. rewrite len_cons. split_and!; try done; cbn [length]; try lia; [congruence| | |].
    - eapply inv_perm; [|exact Hi2]. rewrite !app_assoc. apply Hmv.
    - rewrite Hcells in HF2. by constructor.
    - intros p Hp. destruct (Ho2 p Hp) as [? Hfull]. split; [done|]. intros Hlt. rewrite <- Hfull by lia. apply issued_perm.
      rewrite !app_assoc. symmetry. apply Hmv. }
  destruct slots as [|[b|] slots]; [cbn in Hn; lia| |].
  - apply Hrec; try done. cbn in Hn. lia.
  - destruct (allocate_ok (mkO h live (omap id (None :: slots) ++ more)) c Hi Hc) as (p & p' & h1 & o & Hp & E & Hi1 & Eh & (Ho1 & Hm1 & He1) & Ho').
    rewrite (Ho p Hp) in E. cbn [o_heap] in E. rewrite E. run.
    assert (Hown1 : ∀ q, hp_pools h1 !! oc_reclaim c = Some q → po_owner q = thread).
    { intros q. rewrite Eh. cbn. rewrite lookup_insert_eq. intros [= <-]. rewrite Ho1. by apply Ho. }
    assert (Hcells : hp_cells h1 = hp_cells h) by (by rewrite Eh). destruct o as [b|].
    + destruct Ho' as (_ & Hb1 & Hb2 & Hb3 & _ & _ & Hb4). apply Hrec; try done; [cbn in Hn; lia|]. constructor; [|done].
      split; [done|]. split; [done|]. by rewrite Hb4.
    + exists h1, [], (None :: slots). split_and!; try done; [cbn; lia|]. intros q Hq. split; [by apply Hown1|]. intros _.
      rewrite Eh in Hq. cbn in Hq. rewrite lookup_insert_eq in Hq. injection Hq as <-. cbn [o_bufs] in Ho'.
      rewrite Hm1, <- Ho'. by apply issued_epoch.
Qed.

(** ** The kernel's writes *)
Section Pool.
Context (cells : Cells) (c : OsBufCtx) (Hl : layout_ok (oc_layout c)).
Let capacity : Z := payload_capacity (oc_layout c).

Lemma recv_iovs_ok bs rest : Forall (prepared cells c) bs →
  recv_iovs cells (length bs) ((Some <$> bs) ++ rest) = Ret (replicate (length bs) capacity).
Proof.
  induction 1 as [|b bs (Hc & Hok & _) _ IH]; [done|]. cbn [recv_iovs length fmap list_fmap app]. unfold data_capacity.
  rewrite os_layout_ok by done. run. rewrite IH. run. by rewrite Hc.
Qed.

(** The buffer after the kernel wrote a datagram into it. *)
Definition fill_buf (b : OsPacketBufInner) (d : OsDatagram) : OsPacketBufInner :=
  os_with_storage b (write_at (ob_storage b) (data_offset (oc_layout c)) (od_payload d)).

Lemma room b d : prepared cells c b → datagram_ok capacity d →
  0 ≤ data_offset (oc_layout c) ∧ data_offset (oc_layout c) + len (od_payload d) ≤ len (ob_storage b).
Proof.
  intros (_ & _ & Hs) (_ & Hp & _). destruct Hl. unfold capacity, allocation_len in *. rewrite Hs. lia.
Qed.

Lemma fill_buf_ok b d : prepared cells c b → datagram_ok capacity d →
  kernel_writes cells b (od_payload d) = Ret (fill_buf b d) ∧ prepared cells c (fill_buf b d) ∧ same_handle cells b (fill_buf b d) ∧
  window (ob_storage (fill_buf b d)) (data_offset (oc_layout c)) (od_len d) = od_payload d.
Proof.
  intros Hb Hd. destruct (room b d Hb Hd) as [R0 R1]. destruct (Hb) as (Hc & Hok & Hs). destruct (Hd) as (_ & _ & Hn & _).
  assert (HL : len (write_at (ob_storage b) (data_offset (oc_layout c)) (od_payload d)) = len (ob_storage b)) by (apply len_write_at; lia).
  assert (Hok' : os_buf_ok cells (fill_buf b d)) by (destruct Hok; constructor; cbn; rewrite ?HL; done).
  split_and!.
  - unfold kernel_writes, mem_write. rewrite os_layout_ok by done. run. rewrite os_storage_ok by done. run. rewrite Hc.
    destruct (Z.leb_spec 0 (data_offset (oc_layout c))), (Z.leb_spec (data_offset (oc_layout c) + len (od_payload d)) (len (ob_storage b))); try lia. done.
  - split; [done|]. split; [done|]. cbn. by rewrite HL.
  - unfold same_handle. split_and!; try done; cbn; by rewrite HL.
  - cbn. rewrite Hn. by apply window_write_in.
Qed.

Lemma kernel_fills_ok ds : ∀ bs rest, (length ds ≤ length bs)%nat → Forall (prepared cells c) bs → Forall (datagram_ok capacity) ds →
  kernel_fills cells ds ((Some <$> bs) ++ rest)
  = Ret ((Some <$> (zip_with fill_buf bs ds ++ drop (length ds) bs)) ++ rest).
Proof.
  induction ds as [|d ds IH]; intros bs rest Hlen Hbs Hds.
  { cbn [kernel_fills length]. rewrite drop_0. by destruct bs. }
  destruct bs as [|b bs]; [cbn in Hlen; lia|]. apply Forall_cons in Hbs as [Hb Hbs]. apply Forall_cons in Hds as [Hd Hds].
  cbn [kernel_fills fmap list_fmap app zip_with drop length]. destruct (fill_buf_ok b d Hb Hd) as [-> _]. run.
  rewrite IH by (done || (cbn in Hlen; lia)). done.
Qed.

(** ** Delivery *)

(** Filled buffers, with what they hold. *)
Definition holds (b : OsPacketBufInner) (d : OsDatagram) : Prop :=
  prepared cells c b ∧ datagram_ok capacity d ∧ window (ob_storage b) (data_offset (oc_layout c)) (od_len d) = od_payload d.

(** The buffer handed to the application. *)
Definition received_buf (b : OsPacketBufInner) (d : OsDatagram) : OsPacketBufInner :=
  os_with_bounds b (data_offset (oc_layout c)) (data_offset (oc_layout c) + od_len d).

Lemma received_buf_ok b d : holds b d →
  set_received_len cells b (od_len d) = Ret (received_buf b d, Ok tt) ∧ same_handle cells b (received_buf b d) ∧
  os_packet (received_buf b d) = od_payload d ∧ prepared cells c (received_buf b d).
Proof.
  intros (Hb & Hd & Hw). destruct (room b d Hb Hd) as [R0 R1]. destruct Hb as (Hc & Hok & Hs). destruct Hd as (_ & Hp & Hn & _).
  assert (Hok' : os_buf_ok cells (received_buf b d)).
  { destruct Hok. destruct Hl. pose proof (len_nonneg (od_payload d)). constructor; cbn; try done; [rewrite Hc; lia|lia|lia]. }
  split_and!; try done.
  - unfold set_received_len. rewrite os_layout_ok by done. run. rewrite Hc. destruct (Z.ltb_spec (payload_capacity (oc_layout c)) (od_len d)); [|done].
    unfold capacity in Hp. lia.
  - unfold os_packet, os_len. cbn. by rewrite Z.add_simpl_l.
Qed.

Lemma deliver_loop_ok h port ds : hp_cells h = cells → ∀ bs rest (out : RecvBatch receive) delivered tr,
  Forall2 holds bs ds → rb_len out + len ds ≤ rb_capacity out →
  ∃ slots new bs', deliver_loop thread port ds h ((Some <$> bs) ++ rest) out delivered tr
      = Ret (h, slots ++ rest, mkRecvBatch (rb_items out ++ new) (rb_capacity out), Ok (delivered + len new, tr || existsb od_trunc ds)) ∧
    length slots = length bs ∧ Forall2 (same_handle cells) bs bs' ∧ Permutation ((fst <$> new) ++ omap id slots) bs' ∧
    Forall (prepared cells c) bs' ∧ ((λ x, (os_packet x.1, x.2)) <$> new) = delivered_of port ds.
Proof.
  intros Hcells. induction ds as [|d ds IH]; intros bs rest out delivered tr HF Hcap.
  { apply Forall2_nil_inv_r in HF as ->. exists [], [], []. cbn. rewrite app_nil_r, orb_false_r, Z.add_0_r. by destruct out. }
  apply Forall2_cons_inv_r in HF as (b & bs2 & Hb & HF & ->). rewrite len_cons in Hcap. cbn [deliver_loop fmap list_fmap app].
  assert (Hskip : ∀ tr', datagram_meta port d = None →
    ∃ slots new bs', ('(h, slots, out, r) ← deliver_loop thread port ds h ((Some <$> bs2) ++ rest) out delivered tr';
        Ret (h, Some b :: slots, out, r))
      = Ret (h, slots ++ rest, mkRecvBatch (rb_items out ++ new) (rb_capacity out), Ok (delivered + len new, tr' || existsb od_trunc ds)) ∧
    length slots = S (length bs2) ∧ Forall2 (same_handle cells) (b :: bs2) bs' ∧ Permutation ((fst <$> new) ++ omap id slots) bs' ∧
    Forall (prepared cells c) bs' ∧ ((λ x, (os_packet x.1, x.2)) <$> new) = delivered_of port (d :: ds)).
  { intros tr' Hm. destruct (IH bs2 rest out delivered tr' HF ltac:(lia)) as (slots & new & bs' & E & H1 & H2 & H3 & H4 & H5). rewrite E. run.
    exists (Some b :: slots), new, (b :: bs'). split_and!; try done; [cbn; lia|by constructor| |constructor; [apply Hb|done]|].
    - cbn. rewrite <- Permutation_middle. by constructor.
    - unfold delivered_of. cbn. by rewrite Hm. }
  unfold datagram_meta in Hskip. destruct (od_trunc d) eqn:Htr.
  { destruct (Hskip true eq_refl) as (slots & new & bs' & E & H). exists slots, new, bs'. split; [|exact H]. rewrite E. cbn [existsb]. by rewrite Htr, orb_true_r. }
  destruct (Hb) as (Hp & (_ & _ & _ & Ha & HaL & Hctl) & _). destruct (socketaddr_total _ (od_namelen d) Ha HaL) as (o & Eo). rewrite Eo in Hskip |- *. run.
  destruct o as [source|].
  2:{ destruct (Hskip tr eq_refl) as (slots & new & bs' & E & H). exists slots, new, bs'. split; [|exact H]. rewrite E. cbn [existsb]. by rewrite Htr. }
  destruct (pktinfo_total _ Hctl) as (dst & Ed). rewrite Ed. run. rewrite Hcells. destruct (received_buf_ok b d Hb) as (-> & Hs & Hpk & Hpr). run.
  unfold rb_push. unfold rb_len in Hcap. pose proof (len_nonneg ds). destruct (Z.leb_spec (rb_capacity out) (rb_len out)) as [Habs|_]; [unfold rb_len in Habs; lia|]. run.
  set (item := (received_buf b d, _)). destruct (IH bs2 rest (mkRecvBatch (rb_items out ++ [item]) (rb_capacity out)) (delivered + 1) tr HF)
    as (slots & new & bs' & E & H1 & H2 & H3 & H4 & H5); [unfold rb_len; cbn; rewrite len_snoc; lia|]. rewrite E. run.
  exists (None :: slots), (item :: new), (received_buf b d :: bs'). rewrite len_cons. cbn [rb_items rb_capacity existsb]. rewrite Htr, <- app_assoc.
  split_and!; [do 2 f_equal; [..|do 2 f_equal; lia]; done|cbn; lia|by constructor|by cbn; constructor|by constructor|].
  unfold delivered_of. cbn. unfold datagram_meta. rewrite Htr, Eo, Ed. cbn. rewrite Hpk. f_equal. exact H5.
Qed.

(** The buffers the kernel filled. *)
Lemma filled_ok bs : ∀ ds, (length ds ≤ length bs)%nat → Forall (prepared cells c) bs → Forall (datagram_ok capacity) ds →
  Forall2 holds (zip_with fill_buf bs ds) ds ∧ length (zip_with fill_buf bs ds) = length ds ∧
  Forall2 (same_handle cells) bs (zip_with fill_buf bs ds ++ drop (length ds) bs).
Proof.
  induction bs as [|b bs IH]; intros [|d ds] Hlen Hbs Hds; try (cbn in Hlen; lia).
  - cbn. split_and!; constructor.
  - cbn. split_and!; [constructor|done|]. cbn. reflexivity.
  - apply Forall_cons in Hbs as [Hb Hbs]. apply Forall_cons in Hds as [Hd Hds]. destruct (IH ds) as (H1 & H2 & H3); [cbn in Hlen; lia|done|done|].
    destruct (fill_buf_ok b d Hb Hd) as (_ & K1 & K2 & K3). cbn. split_and!; [by constructor|by rewrite H2|by constructor].
Qed.

Lemma Forall2_replicate_take {A B} (R : A → B → Prop) a l : ∀ m k, Forall2 R (take k (replicate m a)) l → Forall (R a) l.
Proof.
  induction l as [|b l IH]; intros m k HF; [constructor|]. destruct k as [|k], m as [|m]; cbn in HF; try (by inversion HF).
  apply Forall2_cons in HF as [Hb HF]. constructor; [done|]. by eapply IH.
Qed.

Lemma omap_id_Some {A} (l : list A) : omap id (Some <$> l) = l.
Proof. induction l as [|x l IH]; cbn; [done|]. by rewrite IH. Qed.

(** One call of the kernel, from the prepared buffers to the batch. *)
Lemma fill_deliver_ok h port ds bs rest (out : RecvBatch receive) : hp_cells h = cells → (length ds ≤ length bs)%nat →
  Forall (prepared cells c) bs → Forall (datagram_ok capacity) ds → rb_len out + len ds ≤ rb_capacity out →
  ∃ mid slots new bs', kernel_fills cells ds ((Some <$> bs) ++ rest) = Ret mid ∧
    deliver_loop thread port ds h mid out 0 false
      = Ret (h, slots, mkRecvBatch (rb_items out ++ new) (rb_capacity out), Ok (len new, existsb od_trunc ds)) ∧
    length slots = (length bs + length rest)%nat ∧ Forall2 (same_handle cells) bs bs' ∧
    Permutation ((fst <$> new) ++ omap id slots) (bs' ++ omap id rest) ∧ Forall (prepared cells c) bs' ∧
    ((λ x, (os_packet x.1, x.2)) <$> new) = delivered_of port ds.
Proof.
  intros Hcells Hlen Hbs Hds Hcap. destruct (filled_ok bs ds Hlen Hbs Hds) as (F1 & F2 & F3).
  eexists. rewrite kernel_fills_ok by done. rewrite fmap_app, <- app_assoc.
  destruct (deliver_loop_ok h port ds Hcells (zip_with fill_buf bs ds) ((Some <$> drop (length ds) bs) ++ rest) out 0 false F1 Hcap)
    as (slots & new & bs' & E & H1 & H2 & H3 & H4 & H5).
  exists (slots ++ (Some <$> drop (length ds) bs) ++ rest), new, (bs' ++ drop (length ds) bs). split; [done|]. split; [exact E|].
  split_and!; [| | | |done].
  - rewrite !length_app, length_fmap, length_drop, H1, F2. lia.
  - etrans; [exact F3|]. apply Forall2_app; [done|]. reflexivity.
  - rewrite !omap_app, omap_id_Some, !app_assoc. by rewrite H3.
  - apply Forall_app. split; [done|]. by apply Forall_drop.
Qed.
End Pool.

(** ** [recv_impl] *)

(** [live] are the pools, [more] the buffers the socket does not hold. *)
Record recv_inv (live : list OsBufCtx) (more : list OsPacketBufInner) w : Prop := mkRecvInv {
  ri_heap : os_inv (mkO (ow_heap w) live (omap id (so_recv_buffers (ow_socket w)) ++ more));
  ri_pool : so_rx_pool (ow_socket w) ∈ live;
  ri_owner p : hp_pools (ow_heap w) !! oc_reclaim (so_rx_pool (ow_socket w)) = Some p → po_owner p = thread;
  ri_slots : Forall (prepared (ow_cells w) (so_rx_pool (ow_socket w))) (omap id (so_recv_buffers (ow_socket w)));
  ri_batch : 1 ≤ so_max_batch (ow_socket w) ∧ len (so_recv_buffers (ow_socket w)) = so_max_batch (ow_socket w);
}.

(** The pool can issue no more buffers. *)
Definition exhausted w (more : list OsPacketBufInner) : Prop :=
  ∃ p, hp_pools (ow_heap w) !! oc_reclaim (so_rx_pool (ow_socket w)) = Some p ∧
    issued p (omap id (so_recv_buffers (ow_socket w)) ++ more) = po_max_buffers p.

(** What a call delivers and returns, by what the kernel answered to the
    capacities of the [n] prepared buffers. *)
Definition recv_post w (n : Z) w' (new : list receive) (r : result Z Error) : Prop :=
  if n =? 0 then new = [] ∧ r = Ok 0 ∧ ow_kernel w' = ow_kernel w
  else ∃ k0 answer, k_wire k0 = k_wire (ow_kernel w) ∧
    k_recvmmsg k0 (replicate (Z.to_nat n) (payload_capacity (oc_layout (so_rx_pool (ow_socket w))))) = (ow_kernel w', answer) ∧
    match answer with
    | Err e => new = [] ∧ is_interrupted e = false ∧ r = if is_transient e then Ok 0 else Err (io_error_to_core e)
    | Ok ds => ((λ x, (os_packet x.1, x.2)) <$> new) = delivered_of (so_local_port (ow_socket w)) ds ∧
        r = if (len new =? 0) && existsb od_trunc ds then Err Truncated else Ok (len new)
    end.

Lemma with_recv_buffers_same s : with_recv_buffers s (so_recv_buffers s) = s.
Proof. by destruct s. Qed.

Lemma exhausted_perm w w' more more' : ow_heap w' = ow_heap w → so_rx_pool (ow_socket w') = so_rx_pool (ow_socket w) →
  (∀ p : OsPoolInner Q, issued p (omap id (so_recv_buffers (ow_socket w')) ++ more') = issued p (omap id (so_recv_buffers (ow_socket w)) ++ more)) →
  exhausted w more → exhausted w' more'.
Proof. intros E1 E2 Hp (p & H1 & H2). exists p. rewrite E1, E2, Hp. done. Qed.

(** From the call of the kernel on. *)
Lemma recv_prepared_ok live more w (out : RecvBatch receive) bs rest : recv_inv live more w →
  so_recv_buffers (ow_socket w) = (Some <$> bs) ++ rest → bs ≠ [] → rb_len out + len bs ≤ rb_capacity out →
  ∃ w' new r, recv_prepared thread w out (len bs) = Ret (w', mkRecvBatch (rb_items out ++ new) (rb_capacity out), r) ∧
    recv_inv live ((fst <$> new) ++ more) w' ∧
    ow_socket w' = with_recv_buffers (ow_socket w) (so_recv_buffers (ow_socket w')) ∧ ow_heap w' = ow_heap w ∧
    k_wire (ow_kernel w') = k_wire (ow_kernel w) ∧ recv_post w (len bs) w' new r ∧
    (exhausted w more → exhausted w' ((fst <$> new) ++ more)).
Proof.
  intros Hinv Hsl Hne Hcap. destruct (Hinv) as [Hi Hc Ho HF Hb]. unfold recv_prepared. set (s := ow_socket w) in *. rewrite Hsl in *.
  destruct (live_pool _ _ Hi Hc) as (p & Hp & _ & _ & _ & Hl & _). rewrite omap_app, omap_id_Some in HF, Hi. apply Forall_app in HF as [HF1 HF2].
  unfold len. rewrite Nat2Z.id, (recv_iovs_ok (ow_cells w) (so_rx_pool s)) by done. run. set (caps := replicate _ _).
  assert (Hcaps : caps ≠ []) by (destruct bs; done).
  destruct (retry_interrupted_ok (λ k, k_recvmmsg k caps)) with (k := ow_kernel w) as (k0 & k' & r & E & Hcall & Hw0 & _ & Hint).
  { intros k k' e Hk. destruct (k_recvmmsg_law k caps k' _ Hcaps Hk). done. }
  rewrite E. run. cbn beta in Hcall. destruct (k_recvmmsg_law k0 caps k' _ Hcaps Hcall) as [Hw Hres].
  assert (Hpost0 : Z.of_nat (length bs) ≠ 0) by (destruct bs; cbn; [done|lia]).
  destruct r as [ds|e].
  - destruct Hres as (Hle & _ & Hds). unfold caps in Hle, Hds. rewrite length_replicate in Hle.
    apply Forall2_replicate_take in Hds.
    destruct (fill_deliver_ok (ow_cells w) (so_rx_pool s) Hl (ow_heap w) (so_local_port s) ds bs rest out) as (mid & slots & new & bs' & Ef & Ed & D1 & D2 & D3 & D4 & D5);
      try done; [unfold len in *; lia|].
    unfold ow_cells in Ef |- *. cbn [with_kernel ow_heap]. rewrite Ef. run. rewrite Ed. run.
    assert (Hperm : Permutation (omap id slots ++ (fst <$> new) ++ more) (bs' ++ omap id rest ++ more)).
    { rewrite !app_assoc. apply Permutation_app_tail. by rewrite (Permutation_app_comm (omap id slots)). }
    assert (Hpr : Forall (prepared (ow_cells w) (so_rx_pool s)) (omap id slots)).
    { assert (Forall (prepared (ow_cells w) (so_rx_pool s)) ((fst <$> new) ++ omap id slots)) as [_ ?]%Forall_app; [|done].
      rewrite D3. by apply Forall_app. }
    set (w' := mkOsWorld (ow_heap w) k' (with_recv_buffers s slots)). exists w', new, (if (len new =? 0) && existsb od_trunc ds then Err Truncated else Ok (len new)).
    split; [by destruct (_ && _)|]. split; [|split; [done|]; split; [done|]; split; [cbn; congruence|]; split].
    + constructor; try done; [|split; [apply Hb|]; destruct Hb as [_ Hb2]; unfold len in *; cbn; fold s; rewrite <- Hb2, D1; by rewrite length_app, length_fmap].
      cbn. eapply inv_perm; [symmetry; exact Hperm|]. eapply inv_edits; [exact D2|]. by rewrite app_assoc.
    + unfold recv_post. destruct (Z.eqb_spec (Z.of_nat (length bs)) 0); [done|]. exists k0, (Ok ds). by rewrite Nat2Z.id.
    + apply exhausted_perm; [done|done|]. intros q. cbn. fold s. rewrite Hsl, omap_app, omap_id_Some, <- app_assoc. rewrite (issued_perm _ _ _ Hperm). by apply (issued_same (ow_cells w)).
  - exists (with_kernel w k'), [], (if is_transient e then Ok 0 else Err (io_error_to_core e)). rewrite app_nil_r.
    split; [by destruct out|]. split; [by destruct Hinv|]. split; [cbn; fold s; by rewrite with_recv_buffers_same|].
    split; [done|]. split; [cbn; congruence|]. split; [|done].
    unfold recv_post. destruct (Z.eqb_spec (Z.of_nat (length bs)) 0); [done|]. exists k0, (Err e). rewrite Nat2Z.id. split_and!; try done. by apply Hint.
Qed.

Lemma recv_impl_ok live more w (out : RecvBatch receive) : recv_inv live more w → rb_len out ≤ rb_capacity out →
  ∃ w' new r n, recv_impl thread w out = Ret (w', mkRecvBatch (rb_items out ++ new) (rb_capacity out), r) ∧
    recv_inv live ((fst <$> new) ++ more) w' ∧
    ow_socket w' = with_recv_buffers (ow_socket w) (so_recv_buffers (ow_socket w')) ∧ ow_cells w' = ow_cells w ∧
    k_wire (ow_kernel w') = k_wire (ow_kernel w) ∧ recv_post w n w' new r ∧
    n ≤ Z.min (remaining out) (so_max_batch (ow_socket w)) ∧
    (n < Z.min (remaining out) (so_max_batch (ow_socket w)) → exhausted w' ((fst <$> new) ++ more)).
Proof.
  intros [Hi Hc Ho HF [Hb1 Hb2]] Hout. unfold recv_impl. set (s := ow_socket w) in *. set (want := Z.min (remaining out) (so_max_batch s)).
  assert (Hrem : remaining out = rb_capacity out - rb_len out) by (unfold remaining, saturating_sub; lia).
  destruct (Z.eqb_spec want 0) as [E0|E0].
  { exists w, [], (Ok 0), 0. rewrite app_nil_r. split_and!; [by destruct out|done|by rewrite with_recv_buffers_same|done|done|done|lia|lia]. }
  destruct (prepare_loop_ok (so_rx_pool s) live (Z.to_nat want) (ow_heap w) (so_recv_buffers s) more)
    as (h & bs & rest & E & Hle & Hlen & Hcells & Hi1 & HF1 & Hfull); try done; [unfold len in *; lia|].
  rewrite E. run. destruct (live_pool _ _ Hi1 Hc) as (p & Hp & _). destruct (Hfull p Hp) as [Hown Hmax].
  set (w1 := with_socket _ _). assert (Hsl : omap id ((Some <$> bs) ++ rest) = bs ++ omap id rest) by (by rewrite omap_app, omap_id_Some).
  assert (Hw1 : recv_inv live more w1).
  { constructor; cbn; fold s; try done; [by rewrite Hsl, <- app_assoc|intros q Hq; by apply Hfull|unfold ow_cells; cbn; by rewrite Hsl, Hcells|].
    split; [done|]. unfold len in *. rewrite length_app, length_fmap. lia. }
  assert (Hx1 : len bs < want → exhausted w1 more).
  { intros Hlt. exists p. split; [done|]. cbn. rewrite Hsl, <- app_assoc. apply Hmax. unfold len in Hlt. lia. }
  assert (Hn : len bs ≤ want) by (unfold len; lia). destruct (Z.eqb_spec (len bs) 0) as [Eb|Eb].
  { exists w1, [], (Ok 0), 0. rewrite app_nil_r. split_and!; [by destruct out|done|done|done|done|done|lia|]. intros Hlt. apply Hx1. lia. }
  destruct (recv_prepared_ok live more w1 out bs rest Hw1) as (w' & new & r & E' & H1 & H2 & H3 & H4 & H5 & H6); [done|by destruct bs|lia|].
  exists w', new, r, (len bs). split_and!; try done; [unfold ow_cells; rewrite H3; done|]. auto.
Qed.

(** ** One datagram at a time *)
Section Portable.
Context (recv_from : K → Z → K * result (list Z * SocketAddr) OsIoError).
Context (recv_from_law : ∀ k n k' payload source, recv_from k n = (k', Ok (payload, source)) → bytes_ok payload ∧ len payload ≤ n).

(** The answers [ds] of consecutive calls, and the state they lead to. *)
Fixpoint answered (n : Z) (k : K) (ds : list (list Z * SocketAddr)) (k' : K) : Prop :=
  match ds with
  | [] => k' = k
  | d :: ds => ∃ k1, recv_from k n = (k1, Ok d) ∧ answered n k1 ds k'
  end.
Definition portable_datagram (payload : list Z) : OsDatagram := mkOsDatagram (replicate 128 0) 0 payload (len payload) false [].
Definition portable_item (local_port : Z) (d : list Z * SocketAddr) : list Z * UdpRecvMeta :=
  (d.1, recv_meta local_port d.2 None (len d.1)).

(** A buffer with a datagram written into it. *)
Lemma portable_fill cells c b payload : layout_ok (oc_layout c) → prepared cells c b → bytes_ok payload → len payload ≤ payload_capacity (oc_layout c) →
  ∃ b1 b2, kernel_writes cells b payload = Ret b1 ∧ set_received_len cells b1 (len payload) = Ret (b2, Ok tt) ∧
    same_handle cells b b2 ∧ os_packet b2 = payload.
Proof.
  intros Hl Hb Hp Hn. assert (Hd : datagram_ok (payload_capacity (oc_layout c)) (portable_datagram payload)).
  { unfold datagram_ok. cbn -[len bytes_ok]. split_and!; try done. apply (Forall_replicate (fits 8) 128 0). unfold fits. lia. }
  destruct (fill_buf_ok cells c Hl b _ Hb Hd) as (E1 & Hb1 & Hs1 & Hw). destruct (received_buf_ok cells c Hl (fill_buf c b (portable_datagram payload)) _ (conj Hb1 (conj Hd Hw))) as (E2 & Hs2 & Hpk & _).
  exists (fill_buf c b (portable_datagram payload)), (received_buf c (fill_buf c b (portable_datagram payload)) (portable_datagram payload)).
  split_and!; try done. by etrans.
Qed.

(** A receive returns with the answers of the calls it made, in order, until
    the batch is full, the pool is empty or a call fails. *)
Lemma portable_recv_loop_ok live (rounds : nat) : ∀ w (out : RecvBatch receive) delivered more,
  let c := so_rx_pool (ow_socket w) in
  os_inv (mkO (ow_heap w) live more) → c ∈ live → (∀ p, hp_pools (ow_heap w) !! oc_reclaim c = Some p → po_owner p = thread) →
  rb_len out + Z.of_nat rounds ≤ rb_capacity out →
  ∃ w' new r k1, portable_recv_loop thread recv_from rounds w out delivered = Ret (w', mkRecvBatch (rb_items out ++ new) (rb_capacity out), r) ∧
    os_inv (mkO (ow_heap w') live ((fst <$> new) ++ more)) ∧ ow_socket w' = ow_socket w ∧ (length new ≤ rounds)%nat ∧
    ∃ ds, answered (payload_capacity (oc_layout c)) (ow_kernel w) ds k1 ∧
      ((λ x, (os_packet x.1, x.2)) <$> new) = portable_item (so_local_port (ow_socket w)) <$> ds ∧
      ((ow_kernel w' = k1 ∧ r = Ok (delivered + len new)) ∨
       ∃ e, recv_from k1 (payload_capacity (oc_layout c)) = (ow_kernel w', Err e) ∧
         r = if is_transient e then Ok (delivered + len new) else Err (io_error_to_core e)).
Proof.
  induction rounds as [|rounds IH]; intros w out delivered more c Hi Hc Ho Hcap; cbn [portable_recv_loop].
  { exists w, [], (Ok delivered), (ow_kernel w). rewrite app_nil_r. split_and!; [by destruct out|done..|]. exists []. split_and!; [done..|]. left. split; [done|]. f_equal. unfold len. cbn. lia. }
  destruct (allocate_ok (mkO (ow_heap w) live more) c Hi Hc) as (p & p' & h1 & o & Hp & E & Hi1 & Eh & (Ho1 & _) & Ho').
  rewrite (Ho p Hp) in E. cbn [o_heap] in E. unfold c in E. rewrite E. run. fold c. destruct o as [b|].
  2:{ exists (with_heap w h1), [], (Ok delivered), (ow_kernel w). rewrite app_nil_r. split_and!; [by destruct out|done|done|cbn; lia|].
      exists []. split_and!; [done..|]. left. split; [done|]. f_equal. unfold len. cbn. lia. }
  destruct Ho' as (_ & Hb1 & _ & Hb3 & _ & _ & Hb4). destruct (live_pool _ _ Hi Hc) as (q & _ & _ & _ & _ & Hl & _).
  assert (Hcells : hp_cells h1 = hp_cells (ow_heap w)) by (by rewrite Eh). unfold ow_cells. cbn [ow_heap with_heap with_kernel]. rewrite Hcells.
  unfold o_cells in Hb3. cbn [o_heap] in Hb3. unfold data_capacity. rewrite os_layout_ok by done. run. rewrite Hb1. cbn [ow_kernel with_heap].
  destruct (recv_from (ow_kernel w) (payload_capacity (oc_layout c))) as [k [[payload source]|e]] eqn:Ek.
  2:{ pose proof (drop_buf_ok _ thread [] b _ Hi1 eq_refl) as Hd. rewrite decide_True in Hd by (unfold o_cells; cbn [o_heap]; rewrite Hcells; apply Hb3).
      destruct Hd as (h2 & Ed & Hi2). cbn [o_heap with_kernel with_heap ow_heap] in Ed |- *. rewrite Ed. run.
      eexists _, [], _, (ow_kernel w). rewrite app_nil_r. split; [by destruct out|]. split_and!; [done|done|cbn; lia|].
      exists []. split_and!; [done..|]. right. exists e. split; [exact Ek|]. by rewrite Z.add_0_r. }
  destruct (recv_from_law _ _ _ _ _ Ek) as [Hby Hlen]. assert (Hpr : prepared (hp_cells (ow_heap w)) c b) by (split; [done|]; split; [done|]; by rewrite Hb4).
  destruct (portable_fill _ c b payload Hl Hpr Hby Hlen) as (b1 & b2 & E1 & E2 & Hs & Hpk). rewrite E1. run. rewrite E2. run.
  unfold rb_push. destruct (Z.leb_spec (rb_capacity out) (rb_len out)); [lia|]. cbn [so_local_port ow_socket with_kernel with_heap].
  set (item := (b2, recv_meta (so_local_port (ow_socket w)) source None (len payload))). run.
  destruct (IH (with_kernel (with_heap w h1) k) (mkRecvBatch (rb_items out ++ [item]) (rb_capacity out)) (delivered + 1) (b2 :: more))
    as (w' & new & r & k1 & E' & Hi' & Hs' & Hlen' & ds & Ha & Hm & Hr).
  - cbn. change (b2 :: more) with ([b2] ++ more). apply (inv_edits h1 live [b] [b2] more); [|exact Hi1]. rewrite Hcells. apply Forall2_cons. split; [exact Hs|constructor].
  - done.
  - cbn. intros q'. rewrite Eh. cbn. fold c. rewrite lookup_insert_eq. intros [= <-]. rewrite Ho1. by apply Ho.
  - unfold rb_len in *. cbn [rb_items rb_capacity]. rewrite len_snoc. lia.
  - rewrite E'. exists w', (item :: new), r, k1. rewrite len_cons. cbn [rb_items rb_capacity]. rewrite <- app_assoc.
    split_and!; [done| |done|cbn; lia|].
    + eapply inv_perm; [|exact Hi']. cbn. by rewrite <- Permutation_middle.
    + exists ((payload, source) :: ds). split; [by exists k|]. split; [cbn; rewrite Hm, Hpk; done|].
      replace (delivered + (len new + 1)) with (delivered + 1 + len new) by lia. exact Hr.
Qed.
End Portable.

(** ** Construction and drop *)
Definition one_segment (l : BufferLayout) : BufferLayout :=
  mkLayout (payload_capacity l) (headroom l) (tailroom l) (chunk_size l) (data_offset l) (align l) (stride l) 1 (l2_headroom l) (chunk_fixed l).

Lemma new_pool_returns h layout max : 1 ≤ ce_next (hp_cells h) < U64_MAX →
  ∃ h' c, os_pool_with_max_buffers thread h layout max = Ret (h', c) ∧ oc_layout c = one_segment layout ∧
    (∃ p, hp_pools h' !! oc_reclaim c = Some p ∧ po_owner p = thread ∧ po_max_buffers p = max) ∧ hp_pools h !! oc_reclaim c = None ∧
    (∀ a, a ≠ oc_reclaim c → hp_pools h' !! a = hp_pools h !! a) ∧ ce_next (hp_cells h') = ce_next (hp_cells h) + 1.
Proof.
  intros Hn. unfold os_pool_with_max_buffers. change (with_max_segments layout 1) with (Ret (one_segment layout)). run.
  eexists _, _. split; [reflexivity|]. split; [done|]. cbn -[wrapping_add]. rewrite lookup_insert_eq. split_and!; [by eexists|by apply not_elem_of_dom, is_fresh| |].
  - intros a Ha. by rewrite lookup_insert_ne.
  - unfold wrapping_add, wrap. rewrite Z.mod_small; [done|]. unfold U64_MAX in Hn. lia.
Qed.

(** What the configuration must be for a socket to be made. *)
Definition config_ok (config : OsUdpSocketConfig) : Prop :=
  1 ≤ oc_max_batch config ≤ MAX_BATCH_HARD_CAP ∧ oc_rx_pool_max_buffers config ≠ 0 ∧ oc_tx_pool_max_buffers config ≠ 0 ∧
  oc_mtu config ≤ payload_capacity (oc_rx_buffer_layout config).
(** The widths and layouts of the type. *)
Definition config_wf (config : OsUdpSocketConfig) : Prop :=
  0 ≤ oc_max_batch config ∧ 0 ≤ oc_rx_pool_max_buffers config ≤ 2 ^ 63 ∧ 0 ≤ oc_tx_pool_max_buffers config ≤ 2 ^ 63 ∧
  layout_ok (oc_rx_buffer_layout config) ∧ chunk_size (oc_rx_buffer_layout config) ≤ USIZE_MAX ∧
  layout_ok (oc_tx_buffer_layout config) ∧ chunk_size (oc_tx_buffer_layout config) ≤ USIZE_MAX.
(** What the system calls answer. *)
Definition setup_answer (su : OsSetup) (config : OsUdpSocketConfig) : result Z FromStdError :=
  _ <-? configure_queue_affinity su (oc_queue_affinity config);
  _ <-? enable_pktinfo su;
  _ <-? io_result (su_set_nonblocking su);
  _ <-? io_result (su_try_clone su);
  io_result (su_local_port su).

Lemma pools_of_config (s : ostate Q) config : os_inv s → ce_next (o_cells s) + 1 < U64_MAX → config_wf config →
  ∃ h1 rx h2 tx, os_pool_with_max_buffers thread (o_heap s) (oc_rx_buffer_layout config) (oc_rx_pool_max_buffers config) = Ret (h1, rx) ∧
    os_pool_with_max_buffers thread h1 (oc_tx_buffer_layout config) (oc_tx_pool_max_buffers config) = Ret (h2, tx) ∧
    os_inv (mkO h2 (tx :: rx :: o_live s) (o_bufs s)) ∧ oc_layout rx = one_segment (oc_rx_buffer_layout config) ∧
    oc_layout tx = one_segment (oc_tx_buffer_layout config) ∧
    ∃ p q, hp_pools h2 !! oc_reclaim rx = Some p ∧ po_owner p = thread ∧ po_max_buffers p = oc_rx_pool_max_buffers config ∧
      hp_pools h2 !! oc_reclaim tx = Some q ∧ po_owner q = thread ∧ po_max_buffers q = oc_tx_pool_max_buffers config.
Proof.
  intros Hi Hn (_ & Hr & Ht & Hl1 & Hc1 & Hl2 & Hc2). pose proof (iv_next _ Hi) as Hn1. unfold o_cells in Hn, Hn1.
  destruct (new_pool_returns (o_heap s) (oc_rx_buffer_layout config) (oc_rx_pool_max_buffers config)) as (h1 & rx & E1 & Lr & (p & P1 & P2 & P3) & _ & _ & N1); [lia|].
  destruct (new_pool_returns h1 (oc_tx_buffer_layout config) (oc_tx_pool_max_buffers config)) as (h2 & tx & E2 & Lt & (q & Q1 & Q2 & Q3) & F2 & K2 & _); [lia|].
  exists h1, rx, h2, tx. split_and!; try done.
  - pose proof (new_pool_ok _ _ _ _ _ _ Hi Hl1 Hc1 Hr ltac:(unfold o_cells; lia) E1) as Hi1.
    exact (new_pool_ok _ _ _ _ _ _ Hi1 Hl2 Hc2 Ht ltac:(unfold o_cells; cbn; lia) E2).
  - exists p, q. rewrite K2; [done|]. intros E. rewrite E in P1. congruence.
Qed.

Lemma check_config_ok config : 0 ≤ oc_max_batch config →
  match check_config config with Ok _ => config_ok config | Err e => ¬ config_ok config ∧ e ∈ [BadMaxBatch; ZeroRxPool; ZeroTxPool; RxCapacityBelowMtu] end.
Proof.
  intros Hb. unfold check_config, config_ok.
  destruct (Z.eqb_spec (oc_max_batch config) 0), (Z.ltb_spec MAX_BATCH_HARD_CAP (oc_max_batch config)); cbn [orb]; try (split; [lia|set_solver]).
  destruct (Z.eqb_spec (oc_rx_pool_max_buffers config) 0); [split; [lia|set_solver]|].
  destruct (Z.eqb_spec (oc_tx_pool_max_buffers config) 0); [split; [lia|set_solver]|].
  destruct (Z.ltb_spec (payload_capacity (oc_rx_buffer_layout config)) (oc_mtu config)); [split; [lia|set_solver]|]. lia.
Qed.

(** What a new socket is. *)
Definition made (s : ostate Q) (k : K) config port h so : Prop :=
  recv_inv (so_tx_pool so :: so_rx_pool so :: o_live s) (o_bufs s) (mkOsWorld h k so) ∧ so_local_port so = port ∧
  so_mtu so = oc_mtu config ∧ so_max_batch so = oc_max_batch config ∧
  oc_layout (so_rx_pool so) = one_segment (oc_rx_buffer_layout config) ∧
  oc_layout (so_tx_pool so) = one_segment (oc_tx_buffer_layout config).
Lemma make_socket_ok (s : ostate Q) config port (k : K) :
  os_inv s → ce_next (o_cells s) + 1 < U64_MAX → config_wf config → config_ok config →
  ∃ h so, make_socket thread (o_heap s) config port = Ret (h, so) ∧ made s k config port h so.
Proof.
  intros Hi Hn Hwf (Hb & _). destruct (pools_of_config s config Hi Hn Hwf) as (h1 & rx & h2 & tx & E1 & E2 & Hi2 & L1 & L2 & p & q & P1 & P2 & _).
  unfold make_socket. rewrite E1. run. rewrite E2. run. eexists _, _. split; [reflexivity|]. unfold made. cbn -[len]. split_and!; try done.
  assert (Hnone : ∀ n, omap id (replicate n (@None OsPacketBufInner)) = []) by (intros m; induction m as [|m IHm]; [done|exact IHm]).
  constructor; cbn -[len]; rewrite ?Hnone; try done; [set_solver|intros p'; rewrite P1; by intros [= <-]|].
  split; [lia|]. rewrite len_replicate; lia.
Qed.

Lemma os_from_std_ok su (s : ostate Q) config (k : K) : os_inv s → ce_next (o_cells s) + 1 < U64_MAX → config_wf config →
  ∃ h r, os_from_std thread su (o_heap s) config = Ret (h, r) ∧
    match r with
    | Ok so => config_ok config ∧ setup_answer su config = Ok (so_local_port so) ∧ made s k config (so_local_port so) h so
    | Err e => h = o_heap s ∧ (¬ config_ok config ∨ setup_answer su config = Err e)
    end.
Proof.
  intros Hi Hn Hwf. unfold os_from_std. pose proof Hwf as (Hb0 & _). pose proof (check_config_ok config Hb0) as Hc.
  destruct (check_config config) as [u|e]; [|eexists _, _; split; [reflexivity|]; split; [done|]; left; by destruct Hc].
  fold (setup_answer su config). destruct (setup_answer su config) as [port|e]; [|eexists _, _; split; [reflexivity|]; split; [done|]; by right].
  destruct (make_socket_ok s config port k Hi Hn Hwf Hc) as (h & so & E & Hm). rewrite E. run. eexists _, _. split; [reflexivity|].
  pose proof Hm as (_ & -> & _). done.
Qed.

Lemma drop_recv_buffers_ok live more slots : ∀ h, os_inv (mkO h live (omap id slots ++ more)) →
  Forall (λ b, alive (hp_cells h) (ob_epoch b)) (omap id slots) →
  ∃ h', drop_recv_buffers thread h slots = Ret h' ∧ os_inv (mkO h' live more).
Proof.
  induction slots as [|[b|] slots IH]; intros h Hi HF; cbn [drop_recv_buffers]; [by exists h| |by apply IH].
  apply Forall_cons in HF as [Ha HF]. pose proof (drop_buf_ok _ thread [] b _ Hi eq_refl) as Hd.
  rewrite decide_True in Hd by done. destruct Hd as (h1 & E & Hi1). cbn [o_heap] in E. rewrite E. run. apply IH; [done|].
  by rewrite (drop_buf_cells _ _ _ _ E).
Qed.

Lemma pool_drop_returns h l1 c l2 more : os_inv (mkO h (l1 ++ c :: l2) more) →
  ∃ h', os_pool_drop h (oc_reclaim c) = Ret h' ∧ os_inv (mkO h' (l1 ++ l2) more).
Proof.
  intros Hi. destruct (live_pool _ c Hi ltac:(set_solver)) as (p & Hp & _). assert (∃ h', os_pool_drop h (oc_reclaim c) = Ret h') as [h' E].
  { unfold os_pool_drop. change (hp_pools h) with (o_pools (mkO h (l1 ++ c :: l2) more)). rewrite Hp. by eexists. }
  exists h'. split; [done|]. by apply (drop_pool_ok _ l1 c l2 h' Hi eq_refl).
Qed.

(** Dropping the socket at any later time. *)
Lemma os_drop_socket_ok live more w :
  recv_inv (so_tx_pool (ow_socket w) :: so_rx_pool (ow_socket w) :: live) more w →
  ∃ h, os_drop_socket thread (ow_heap w) (ow_socket w) = Ret h ∧ os_inv (mkO h live more).
Proof.
  intros [Hi _ _ HF _]. unfold os_drop_socket.
  destruct (drop_recv_buffers_ok _ more (so_recv_buffers (ow_socket w)) (ow_heap w) Hi) as (h1 & -> & H1).
  { eapply Forall_impl; [exact HF|]. intros b (_ & [Ha _ _ _ _] & _). exact Ha. }
  run. destruct (pool_drop_returns h1 [so_tx_pool (ow_socket w)] _ _ _ H1) as (h2 & -> & H2). run. apply (pool_drop_returns h2 [] _ _ _ H2).
Qed.
End Recv.
