(* ===== verification/OsMain.v ===== *)
(** * Properties of the kernel-socket backend *)
From S2P Require Import Prelude Bits Netlink Core Buffer BufferSpec Window Reclaim ReclaimProofs ReclaimMain Wire WireProofs NetlinkProofs PacketBuf Endpoint EndpointProofs OsBuffer OsBufferProofs OsPools OsSocket OsSend OsRecv.
Open Scope Z_scope.

(** ** Socket addresses *)
Definition address_ok (addr : SocketAddr) : Prop :=
  match addr with
  | SocketAddrV4 ip port => fits 32 ip ∧ fits 16 port
  | SocketAddrV6 ip port flowinfo scope_id => fits 128 ip ∧ fits 16 port ∧ fits 32 flowinfo ∧ fits 32 scope_id
  end.

Lemma ipv6_from_octets_n (n : nat) : ∀ a, 0 ≤ a < 256 ^ Z.of_nat n →
  foldl (λ acc b, 256 * acc + b) 0 ((λ i, a / 256 ^ (Z.of_nat n - 1 - Z.of_nat i) mod 256) <$> seq 0 n) = a.
Proof.
  induction n as [|n IH]; intros a Ha; [cbn in *; lia|]. rewrite seq_S, fmap_app, foldl_app. cbn [fmap list_fmap foldl Nat.add].
  rewrite Nat2Z.inj_succ, Z.pow_succ_r in Ha by lia.
  replace (Z.of_nat (S n) - 1 - Z.of_nat n) with 0 by lia. rewrite Z.pow_0_r, Z.div_1_r.
  replace ((λ i, a / 256 ^ (Z.of_nat (S n) - 1 - Z.of_nat i) mod 256) <$> seq 0 n)
    with ((λ i, (a / 256) / 256 ^ (Z.of_nat n - 1 - Z.of_nat i) mod 256) <$> seq 0 n).
  - rewrite IH by (split; [apply Z.div_pos|apply Z.div_lt_upper_bound]; lia). pose proof (Z.div_mod a 256). lia.
  - apply list_fmap_ext. intros i k Hk. apply lookup_seq in Hk as [-> Hi]. rewrite Z.div_div by lia. f_equal. f_equal.
    rewrite <- Z.pow_succ_r by lia. f_equal. lia.
Qed.

Lemma ipv6_roundtrip a : fits 128 a → ipv6_from (ipv6_octets a) = a.
Proof. apply (ipv6_from_octets_n 16). Qed.

Lemma read_le32_le32 x : fits 32 x → read_le32 (le32 x) 0 = Ret x.
Proof. intros Hx. rewrite <- (le32_value x Hx) at 2. reflexivity. Qed.

(** An address written to a socket-address structure is read back
    unchanged, whatever follows the structure in its storage, and the length
    returned is the one the reader asks for; with a shorter length the reader
    finds no address. *)
Theorem sockaddr_roundtrip addr rest n : address_ok addr →
  socketaddr_from_raw (sockaddr_from_socketaddr addr ++ rest) n
  = Ret (if len (sockaddr_from_socketaddr addr) <=? n then Some addr else None).
Proof.
  destruct addr as [ip port|ip port flowinfo scope_id]; cbn [address_ok].
  - intros [Hip Hport]. set (head := sockaddr_from_socketaddr _). change (len head) with SOCKADDR_IN_LEN. assert (HL : 16 ≤ len (head ++ rest)) by (rewrite len_app; change (len head) with 16; pose proof (len_nonneg rest); lia).
    unfold socketaddr_from_raw. change (read_le16 (head ++ rest) 0) with (Ret AF_INET). run.
    change (read_be16 (head ++ rest) 2) with (Ret (from_be16 (Z.shiftr port 8) (Z.land port 255))).
    rewrite Z.eqb_refl. change (AF_INET =? AF_INET6) with false. cbn [andb].
    destruct (SOCKADDR_IN_LEN <=? n); [|done]. run. rewrite be16_roundtrip, mem_read_ok by lia. run.
    change (window (head ++ rest) 4 4) with (ipv4_octets ip). rewrite ipv4_octets_div. cbn beta iota. by rewrite ipv4_roundtrip.
  - intros (Hip & Hport & Hflow & Hscope). set (head := sockaddr_from_socketaddr _). change (len head) with SOCKADDR_IN6_LEN. assert (HL : 28 ≤ len (head ++ rest)) by (rewrite len_app; change (len head) with 28; pose proof (len_nonneg rest); lia).
    unfold socketaddr_from_raw. change (read_le16 (head ++ rest) 0) with (Ret AF_INET6). run.
    change (read_be16 (head ++ rest) 2) with (Ret (from_be16 (Z.shiftr port 8) (Z.land port 255))).
    change (AF_INET6 =? AF_INET) with false. rewrite Z.eqb_refl. cbn [andb].
    destruct (SOCKADDR_IN6_LEN <=? n); [|done]. run. rewrite be16_roundtrip.
    change (read_le32 (head ++ rest) 4) with (read_le32 (le32 flowinfo) 0). rewrite read_le32_le32 by done. run.
    rewrite mem_read_ok by lia. run. change (read_le32 (head ++ rest) 24) with (read_le32 (le32 scope_id) 0). rewrite read_le32_le32 by done. run.
    change (window (head ++ rest) 8 16) with (ipv6_octets ip). by rewrite ipv6_roundtrip.
Qed.

Lemma sockaddr_roundtrip_witness :
  socketaddr_from_raw (sockaddr_from_socketaddr (SocketAddrV6 1 443 7 2) ++ replicate 100 0) 28 = Ret (Some (SocketAddrV6 1 443 7 2)).
Proof. rewrite sockaddr_roundtrip; [done|]. repeat split; done. Defined.

(** ** Pools and buffers *)
Section PoolsOverTime.
Context {Q : Type} `{!ArrayQueue Q (list Z), !ArrayQueueLaws Q (list Z)}.
Implicit Type s : ostate Q.

(** What holds of a pool that exists. *)
Definition pool_promise s (c : OsBufCtx) : Prop :=
  ∃ p h o, o_pools s !! oc_reclaim c = Some p ∧
    len (held (po_lists p)) + issued p (o_bufs s) = po_allocated p ∧ po_allocated p ≤ po_max_buffers p ∧
    os_allocate (po_owner p) (o_heap s) c = Ret (h, o) ∧
    match o with
    | Some b => issued p (o_bufs s) < po_max_buffers p ∧ ob_ctx b = c ∧ os_packet b = [] ∧ oi_ok (mkOsBufIn (o_cells s) b) ∧
        os_headroom (o_cells s) b = Ret (headroom (oc_layout c))
    | None => issued p (o_bufs s) = po_max_buffers p
    end.

(** What holds of a buffer that exists: its pool lives and it can be used and
    dropped on any thread, or the pool is gone and every access panics. *)
Definition buffer_promise s (b : OsPacketBufInner) : Prop :=
  if decide (alive (o_cells s) (ob_epoch b)) then
    ob_ctx b ∈ o_live s ∧ os_as_slice (o_cells s) b = Ret (os_packet b) ∧
    (∀ op, op_wf op → ∃ b' r, run_op (mkOsBufIn (o_cells s) b) op = Ret (b', r) ∧
       run_op (abs (mkOsBufIn (o_cells s) b)) op = Ret (abs b', r)) ∧
    (∀ thread, ∃ h, os_drop_buf thread (o_heap s) b = Ret h)
  else
    os_as_slice (o_cells s) b = Panic ∧ os_layout (o_cells s) b = Panic ∧ (∀ thread, os_drop_buf thread (o_heap s) b = Panic).

Lemma pool_promise_ok s c : os_inv s → c ∈ o_live s → pool_promise s c.
Proof.
  intros Hi Hc. destruct (live_pool s c Hi Hc) as (p1 & Hp1 & [_ _ _ Hcount Hmax] & _ & _ & Hl & _).
  destruct (allocate_ok s c Hi Hc) as (p & p' & h & o & Hp & E & _ & _ & _ & Ho). rewrite Hp in Hp1. injection Hp1 as <-.
  exists p, h, o. split_and!; try done; try lia. destruct o as [b|]; [|done]. destruct Ho as (H1 & H2 & H3 & H4 & H5 & H6 & _).
  split_and!; try done; [unfold os_packet, os_len; by rewrite H5, H6, Z.sub_diag|]. rewrite os_headroom_ok, H2, H5 by done. f_equal.
  destruct Hl. lia.
Qed.

Lemma buffer_promise_ok s b : os_inv s → b ∈ o_bufs s → buffer_promise s b.
Proof.
  intros Hi (l1 & l2 & Hb)%list_elem_of_split. destruct (buf_in s l1 b l2 Hi Hb) as [(_ & _ & _ & Halive) _].
  assert (Hdrop : ∀ thread, _) by exact (λ thread, drop_buf_ok s thread l1 b l2 Hi Hb). unfold buffer_promise. case_decide as Ha.
  - destruct (Halive Ha) as (p & _ & Hin & _ & _ & Hok). split_and!; [done|by apply os_as_slice_ok| |].
    + intros op Hop. destruct (run_op_refines oi_ok (mkOsBufIn (o_cells s) b) op) as (b' & r & E & _ & E'); [done|done|]. by exists b', r.
    + intros thread. destruct (Hdrop thread) as (h & E & _). by exists h.
  - unfold os_as_slice, os_storage, os_layout, os_ctx, assert_owner_alive. by rewrite bool_decide_false by done.
Qed.

(** C7. Whatever pools are created, buffers allocated, edited and dropped on
    any thread, and pools dropped in between: every pool that exists has its
    allocated buffers split into those it holds and those issued, at most its
    maximum, and gives its owner a fresh empty buffer with the layout's
    headroom unless the maximum is issued; every buffer whose pool exists can
    be read, edited as the specification edits a byte sequence, and dropped by
    any thread; and a buffer that outlived its pool panics on each access and
    on drop, so no dangling pool is reached. *)
Theorem os_pools_safe s : oreach s → Forall (pool_promise s) (o_live s) ∧ Forall (buffer_promise s) (o_bufs s).
Proof.
  intros Hi%oreach_inv. rewrite !Forall_forall. split; intros x Hx; [by apply pool_promise_ok|by apply buffer_promise_ok].
Qed.
End PoolsOverTime.

(** Two pools of thread 1 with a buffer each; the second pool is dropped. *)
Definition tiny_layout : BufferLayout := mkLayout 4 2 0 8 4 1 8 1 2 false.
Abbreviation tiny_queue := (list (list Z) * Z)%type.
Definition heap0 : OsHeap tiny_queue := mkOsHeap ∅ (mkCells ∅ 1).
Definition tiny_ctx at_ : OsBufCtx := mkOsCtx tiny_layout at_.
Definition tiny_os_buf at_ generation bytes : OsPacketBufInner :=
  mkOsBuf (write_at (replicate 8 0) 4 bytes) (tiny_ctx at_) (mkEpoch at_ generation) true 4 (4 + len bytes).
Definition heap1 : OsHeap tiny_queue := (ret_or (heap0, tiny_ctx 0) (os_pool_with_max_buffers 1 heap0 tiny_layout 3)).1.
Definition heap2 : OsHeap tiny_queue := (ret_or (heap1, tiny_ctx 0) (os_pool_with_max_buffers 1 heap1 tiny_layout 3)).1.
Definition heap3 : OsHeap tiny_queue := (ret_or (heap2, None) (os_allocate 1 heap2 (tiny_ctx 0))).1.
Definition heap4 : OsHeap tiny_queue := (ret_or (heap3, None) (os_allocate 1 heap3 (tiny_ctx 1))).1.
Definition heap5 : OsHeap tiny_queue := ret_or heap4 (os_pool_drop heap4 1).

Lemma tiny_layout_ok : layout_ok tiny_layout.
Proof. by constructor. Qed.

Lemma heap5_reach : oreach (mkO heap5 [tiny_ctx 0] [tiny_os_buf 1 2 []; tiny_os_buf 0 1 []]).
Proof.
  pose proof tiny_layout_ok as Hl.
  pose proof (oreach_new _ 1 tiny_layout 3 heap1 (tiny_ctx 0) (oreach_init (Q := tiny_queue)) Hl ltac:(done) ltac:(done) ltac:(done) ltac:(by vm_compute)) as H1.
  pose proof (oreach_new _ 1 tiny_layout 3 heap2 (tiny_ctx 1) H1 Hl ltac:(done) ltac:(done) ltac:(by vm_compute) ltac:(by vm_compute)) as H2.
  pose proof (oreach_allocate _ 1 (tiny_ctx 0) heap3 (Some (tiny_os_buf 0 1 [])) H2 ltac:(set_solver) ltac:(by vm_compute)) as H3.
  pose proof (oreach_allocate _ 1 (tiny_ctx 1) heap4 (Some (tiny_os_buf 1 2 [])) H3 ltac:(set_solver) ltac:(by vm_compute)) as H4.
  exact (oreach_drop_pool _ [] (tiny_ctx 1) [tiny_ctx 0] heap5 H4 eq_refl ltac:(by vm_compute)).
Qed.

Lemma os_pools_safe_witness :
  os_as_slice (hp_cells heap5) (tiny_os_buf 1 2 []) = Panic ∧ ∃ h, os_drop_buf 2 heap5 (tiny_os_buf 0 1 []) = Ret h.
Proof.
  destruct (os_pools_safe _ heap5_reach) as [_ HF]. apply Forall_cons in HF as [Hd HF]. apply Forall_cons in HF as [Ha _].
  unfold buffer_promise in Hd, Ha. destruct (decide _) as [Hx|_] in Hd; [exfalso; clear -Hx; by vm_compute in Hx|].
  destruct (decide _) as [_|Hx] in Ha; [|exfalso; apply Hx; by vm_compute].
  destruct Hd as [Hd _], Ha as (_ & _ & _ & Hdrop). split; [exact Hd|exact (Hdrop 2)].
Defined.

(** ** Transmit *)
Section Transmit.
Context {Q K : Type} `{!ArrayQueue Q (list Z), !ArrayQueueLaws Q (list Z)} `{!OsKernel K, !OsKernelLaws K}.
Variable thread : Z.
Variables (live : list OsBufCtx) (others : list OsPacketBufInner).
Implicit Type w : OsWorld Q K.

(** The buffers of a batch, of pools that live, beside other buffers. *)
Definition batch_inv (h : OsHeap Q) (bs : list OsPacketBufInner) : Prop :=
  os_inv (mkO h live (bs ++ others)) ∧ Forall (λ b, alive (hp_cells h) (ob_epoch b)) bs.

Lemma batch_drop h b bs : batch_inv h (b :: bs) →
  ∃ h', os_drop_buf thread h b = Ret h' ∧ batch_inv h' bs ∧ hp_cells h' = hp_cells h.
Proof.
  intros [Hi [Ha HF]%Forall_cons]. pose proof (drop_buf_ok _ thread [] b (bs ++ others) Hi eq_refl) as Hd.
  rewrite decide_True in Hd by done. destruct Hd as (h' & E & Hi'). pose proof (drop_buf_cells _ _ _ _ E) as Hc.
  exists h'. split; [done|]. split; [|done]. split; [done|]. by rewrite Hc.
Qed.

Lemma batch_ok h bs : batch_inv h bs → Forall (os_buf_ok (hp_cells h)) bs.
Proof.
  intros [Hi Ha]. pose proof (iv_bufs _ Hi) as HF. cbn in HF. apply Forall_app in HF as [HF _].
  rewrite Forall_forall in HF, Ha |- *. intros b Hb. destruct (HF b Hb) as (_ & _ & _ & Hok). destruct (Hok (Ha b Hb)) as (p & _ & _ & _ & _ & H). exact H.
Qed.

End Transmit.

(** A kernel that takes one message per batched send and has a number of
    refusals left; its queue holds the payloads to receive. *)
Record ToyKernel := mkToy {
  tk_wire : list OsMessage;
  tk_rx : list (list Z);
  tk_busy : nat;
}.
Definition toy_busy : OsIoError := mkIoError IoWouldBlock "try again".
Definition toy_refuse {A} (k : ToyKernel) (go : ToyKernel * result A OsIoError) : ToyKernel * result A OsIoError :=
  match tk_busy k with S n => (mkToy (tk_wire k) (tk_rx k) n, Err toy_busy) | O => go end.
Definition toy_source : list Z := sockaddr_from_socketaddr (SocketAddrV4 16909060 53) ++ replicate 112 0.
Definition toy_datagram (capacity : Z) (payload : list Z) : OsDatagram :=
  let taken := (λ x, x mod 256) <$> take (Z.to_nat capacity) payload in
  mkOsDatagram toy_source 16 taken (len taken) (capacity <? len payload) [].
#[export] Instance toy_kernel : OsKernel ToyKernel := {
  k_sendmmsg k msgs := toy_refuse k (mkToy (tk_wire k ++ take 1 msgs) (tk_rx k) 0, Ok (Z.min 1 (len msgs)));
  k_sendmsg k msg := toy_refuse k (mkToy (tk_wire k ++ [msg]) (tk_rx k) 0, Ok 0);
  k_recvmmsg k capacities :=
    if forallb (Z.leb 0) capacities then
      (mkToy (tk_wire k) (drop (length capacities) (tk_rx k)) (tk_busy k), Ok (zip_with toy_datagram capacities (tk_rx k)))
    else (k, Err (mkIoError IoOther "fault"));
  k_refusals := tk_busy;
}.

Lemma toy_datagram_ok capacity payload : 0 ≤ capacity → datagram_ok capacity (toy_datagram capacity payload).
Proof.
  intros Hc. unfold datagram_ok, toy_datagram. cbn [od_payload od_len od_addr od_control].
  split_and!; [|unfold len; rewrite length_fmap, length_take; lia|done| |done|constructor].
  - apply Forall_fmap, Forall_true. intros x. by apply Z.mod_pos_bound.
  - apply Forall_app. split; [repeat constructor|apply Forall_replicate]; done.
Qed.

#[export] Instance toy_kernel_laws : OsKernelLaws ToyKernel.
Proof.
  refine {| k_wire := tk_wire |}.
  - intros k msgs k' r Hne. cbn. unfold toy_refuse. destruct (tk_busy k) eqn:Hb; intros [= <- <-]; cbn; [|split; [done|]; unfold refused; cbn; rewrite Hb; lia].
    destruct msgs as [|m msgs]; [done|]. rewrite len_cons. pose proof (len_nonneg msgs). rewrite Z.min_l by lia. split_and!; [lia|lia|done|lia].
  - intros k msg k' r. cbn. unfold toy_refuse. destruct (tk_busy k) eqn:Hb; intros [= <- <-]; cbn; [|split; [done|]; unfold refused; cbn; rewrite Hb; lia]. split; [done|lia].
  - intros k caps k' r Hne. cbn. destruct (forallb _ caps) eqn:Hf; intros [= <- <-]; cbn; [|split; [done|]; exact (le_n (tk_busy k))].
    split; [done|]. split; [rewrite length_zip_with; lia|]. split; [lia|]. apply Is_true_eq_left, forallb_True in Hf. clear Hne.
    rewrite length_zip_with. generalize (tk_rx k). induction Hf as [|c caps Hc _ IH]; intros [|p ps]; cbn; try constructor; [|apply IH].
    apply toy_datagram_ok. apply Is_true_true in Hc. lia.
Defined.

(** One pool of thread 1 with two buffers, written to. *)
Definition heap6 : OsHeap tiny_queue := (ret_or (heap1, None) (os_allocate 1 heap1 (tiny_ctx 0))).1.
Definition heap7 : OsHeap tiny_queue := (ret_or (heap6, None) (os_allocate 1 heap6 (tiny_ctx 0))).1.
Definition buf_a : OsPacketBufInner := tiny_os_buf 0 1 [7; 8].
Definition buf_b : OsPacketBufInner := tiny_os_buf 0 1 [9].

Lemma heap1_reach : oreach (mkO heap1 [tiny_ctx 0] []).
Proof.
  exact (oreach_new _ 1 tiny_layout 3 heap1 (tiny_ctx 0) (oreach_init (Q := tiny_queue)) tiny_layout_ok ltac:(done) ltac:(done) ltac:(done) ltac:(by vm_compute)).
Qed.
Lemma heap7_reach : oreach (mkO heap7 [tiny_ctx 0] [buf_a; buf_b]).
Proof.
  pose proof (oreach_allocate _ 1 (tiny_ctx 0) heap6 (Some (tiny_os_buf 0 1 [])) heap1_reach ltac:(set_solver) ltac:(by vm_compute)) as H1.
  pose proof (oreach_allocate _ 1 (tiny_ctx 0) heap7 (Some (tiny_os_buf 0 1 [])) H1 ltac:(set_solver) ltac:(by vm_compute)) as H2.
  pose proof (oreach_edit _ [] (tiny_os_buf 0 1 []) [tiny_os_buf 0 1 []] (OpExtend [7; 8]) (mkOsBufIn (hp_cells heap7) buf_a) (Ok tt) H2 eq_refl ltac:(done) ltac:(by vm_compute)) as H3.
  exact (oreach_edit _ [buf_a] (tiny_os_buf 0 1 []) [] (OpExtend [9]) (mkOsBufIn (hp_cells heap7) buf_b) (Ok tt) H3 eq_refl ltac:(done) ltac:(by vm_compute)).
Qed.

Definition toy_socket : OsUdpSocket :=
  mkOsSocket (tiny_ctx 0) (tiny_ctx 0) None 0 Core.Any 53 1500 2 [None; None].
Definition toy_world (h : OsHeap tiny_queue) (k : ToyKernel) : OsWorld tiny_queue ToyKernel := mkOsWorld h k toy_socket.
Definition toy_tx (b : OsPacketBufInner) : UdpTransmit OsPacketBufInner :=
  mkUdpTransmit b (SocketAddrV4 16909060 9) None None None None.


(** ** Receive *)


Definition toy_rx : ToyKernel := mkToy [] [[1; 2; 3]; [1; 2; 3; 4; 5]; [6]] 0.

(** ** Construction and drop *)

(** Making a socket over an existing heap returns: with a socket exactly
    when the configuration is acceptable and every system call succeeds, and
    then with the pools, the MTU and the batch size configured and in the
    state receives start from; otherwise the heap is untouched. From any state
    such a socket reaches, dropping it returns its prepared buffers and frees
    both pools, and every other buffer and pool is as before. *)
Theorem os_socket_lifecycle {Q K} `{!ArrayQueue Q (list Z), !ArrayQueueLaws Q (list Z), !OsKernel K, !OsKernelLaws K} thread su (s : ostate Q) config (k : K) :
  os_inv s → ce_next (o_cells s) + 1 < U64_MAX → config_wf config →
  (∃ h r, os_from_std thread su (o_heap s) config = Ret (h, r) ∧
    match r with
    | Ok so => config_ok config ∧ setup_answer su config = Ok (so_local_port so) ∧ made thread s k config (so_local_port so) h so
    | Err e => h = o_heap s ∧ (¬ config_ok config ∨ setup_answer su config = Err e)
    end) ∧
  ∀ (w : OsWorld Q K) others,
    recv_inv thread (so_tx_pool (ow_socket w) :: so_rx_pool (ow_socket w) :: o_live s) others w →
    ∃ h, os_drop_socket thread (ow_heap w) (ow_socket w) = Ret h ∧ os_inv (mkO h (o_live s) others).
Proof. intros Hi Hn Hc. split; [by apply os_from_std_ok|]. intros w others. apply os_drop_socket_ok. Qed.

Definition toy_setup : OsSetup :=
  mkOsSetup (λ _, Ok tt) None (Some 92) (Ok tt) (Ok tt) (Ok 53) (λ _, mkIoError IoOther "setup").
Definition toy_config : OsUdpSocketConfig := mkOsConfig None 0 Core.Any tiny_layout tiny_layout 4 2 3 3.
Lemma os_socket_lifecycle_witness :
  ∃ h so, os_from_std 1 toy_setup heap7 toy_config = Ret (h, Ok so) ∧ so_local_port so = 53 ∧
    recv_inv (K := ToyKernel) 1 [so_tx_pool so; so_rx_pool so; tiny_ctx 0] [buf_a; buf_b] (mkOsWorld h toy_rx so).
Proof.
  destruct (os_socket_lifecycle 1 toy_setup (mkO heap7 [tiny_ctx 0] [buf_a; buf_b]) toy_config toy_rx) as [(h & r & E & H) _].
  - exact (oreach_inv _ heap7_reach).
  - by vm_compute.
  - pose proof tiny_layout_ok. unfold config_wf. split_and!; done.
  - destruct r as [so|e].
    + destruct H as (_ & Hp & Hi & _). exists h, so. split; [exact E|]. split; [|exact Hi]. change (Ok (E := FromStdError) 53 = Ok (so_local_port so)) in Hp. congruence.
    + exfalso. destruct H as (_ & [H|H]); [|done]. apply H. unfold config_ok. cbn. split_and!; done.
Defined.

(** ** Endpoints *)
Section Endpoints.
Context {Q K : Type} `{!ArrayQueue Q (list Z), !ArrayQueueLaws Q (list Z)} `{!OsKernel K, !OsKernelLaws K}.
Variables (thread : Z) (cells : Cells) (owned : gset Z).
Implicit Type w : OsWorld Q K.
Abbreviation socket := (os_udp_socket (Q := Q) (K := K) thread cells).
Abbreviation endpoint_transmit := (UdpEndpointTransmit OsPacketBufInner).

(** The socket paired with its endpoint, as the trait passes them. *)
Definition pair_ok (endpoint : GenericUdpEndpoint) (we : OsWorld Q K * GenericUdpEndpoint) : Prop :=
  os_socket_ok thread cells owned we.1 ∧ we.2 = endpoint.
Definition endpoint_sendable (tx : endpoint_transmit) : Prop := os_sendable cells owned (et_packet tx).

(** The socket the generic endpoint code runs on. *)
Abbreviation inner := (os_udp_socket_with (Q := Q) (K := K) thread (λ _ _, Diverge)).

#[local] Instance pair_contract endpoint :
  SendContract (pair_ok endpoint) endpoint_sendable (sent_messages ∘ fst) (message_of ∘ convert (ge_spec endpoint)) (send_to_udp_endpoint (UdpSocket := socket)).
Proof.
  intros [w e] b [Hw He] Hg. cbn in Hw, He. subst e.
  destruct (generic_endpoint_contract (PacketBuffer0 := os_buffer_in cells) (UdpSocket0 := inner) (SendContract0 := os_send_contract thread cells owned) _ _ _ _ endpoint w b Hw Hg)
    as (w' & b' & r & E & Hw' & Hsl & Hlog).
  exists (w', endpoint), b', r. split; [|done]. cbn. unfold os_send_to_udp_endpoint. by rewrite E.
Qed.

#[local] Instance pair_drain endpoint :
  DrainContract (pair_ok endpoint) (sent_messages ∘ fst)
    (λ we, d ← drain_tx_completions (UdpSocket := socket) we.1; Ret ((d.1, we.2), d.2)).
Proof. intros [w e] [Hw He]. by exists (w, e), (Ok 0). Qed.

#[local] Instance pair_progress endpoint :
  SendProgress (pair_ok endpoint) endpoint_sendable (send_to_udp_endpoint (UdpSocket := socket))
    (λ we, d ← drain_tx_completions (UdpSocket := socket) we.1; Ret ((d.1, we.2), d.2)) (λ we, k_refusals (ow_kernel we.1)).
Proof.
  intros [w e] b [w1 e1] b1 [w2 e2] k [Hw He] Hg Hb Hs [= <- <- _]. cbn in Hw, He. subst e. cbn in Hs.
  apply bind_ret_inv in Hs as ([[w0 b0] r] & E & [= <- <- <- ->]).
  by apply (generic_endpoint_progress (PacketBuffer0 := os_buffer_in cells) (UdpSocket0 := inner) (SendContract0 := os_send_contract thread cells owned)
    (SendProgress0 := os_send_progress thread cells owned) _ _ _ _ _ _ endpoint w b w0 b0 w0 0).
Qed.

(** C9. Sending a batch to an endpoint of a kernel socket until it is done
    ends, once the kernel's transient refusals have: the packets accepted are
    on the wire in batch order, once each, with the endpoint's destination,
    their slots are taken and the others untouched; a success means that the
    whole batch was sent. *)
Theorem os_endpoint_send_all w (endpoint : GenericUdpEndpoint) (batch : list (TxSlot endpoint_transmit)) :
  os_socket_ok thread cells owned w → Forall endpoint_sendable (items batch) →
  ∃ fuel0 w' batch' r,
    (∀ fuel, (fuel0 ≤ fuel)%nat → send_all_to_udp_endpoint (H := socket) fuel w endpoint batch = Ret (w', endpoint, batch', r)) ∧
    os_socket_ok thread cells owned w' ∧ slots_after (accepted_of r) batch batch' ∧
    sent_messages w' = sent_messages w ++ (message_of ∘ convert (ge_spec endpoint) <$> items (take (Z.to_nat (accepted_of r)) batch)) ∧
    (∀ n, r = Ok n → n = len batch ∧ sent_messages w' = sent_messages w ++ (message_of ∘ convert (ge_spec endpoint) <$> items batch)).
Proof.
  intros Hw Hg. destruct (send_all_loop_spec (pair_ok endpoint) endpoint_sendable (sent_messages ∘ fst) (message_of ∘ convert (ge_spec endpoint))
    (send_to_udp_endpoint (UdpSocket := socket)) _ _ 0 batch (w, endpoint) ltac:(done) ltac:(done) Hg) as (fuel0 & [w' e] & b' & r & Hrun & [Hw' He] & Hsl & Hlog & Htot).
  cbn in He, Hw'. subst e. rewrite Z.sub_0_r in *. exists fuel0, w', b', r. split_and!; try done.
  intros n Hr. specialize (Htot n Hr). rewrite Z.add_0_l in Htot. subst r n. cbn in Hlog. split; [done|].
  unfold len in Hlog. by rewrite Nat2Z.id, firstn_all in Hlog.
Qed.
End Endpoints.

Definition toy_endpoint : GenericUdpEndpoint :=
  mkGenericUdpEndpoint (UdpEndpointSpec_new (SocketAddrV4 16909060 9)) (mkInfo 1500 None None).
Lemma os_endpoint_send_all_witness :
  ∃ fuel0 w' batch' r, (∀ fuel, (fuel0 ≤ fuel)%nat →
      send_all_to_udp_endpoint (H := os_udp_socket 1 (hp_cells heap7)) fuel (toy_world heap7 (mkToy [] [] 2)) toy_endpoint
        [Ready (mkEndpointTransmit buf_a); Ready (mkEndpointTransmit buf_b)] = Ret (w', toy_endpoint, batch', r)) ∧
    os_socket_ok 1 (hp_cells heap7) {[ 0 ]} w'.
Proof.
  destruct (os_endpoint_send_all 1 (hp_cells heap7) {[ 0 ]} (toy_world heap7 (mkToy [] [] 2)) toy_endpoint
    [Ready (mkEndpointTransmit buf_a); Ready (mkEndpointTransmit buf_b)]) as (fuel0 & w' & batch' & r & Hrun & Hw & _).
  - split; [done|]. split; [done|]. intros a ->%elem_of_singleton. eexists. split; [by vm_compute|done].
  - pose proof (batch_ok [tiny_ctx 0] [] heap7 [buf_a; buf_b]) as Hok. apply Forall_cons in Hok as [Ha Hb].
    2:{ split; [exact (oreach_inv _ heap7_reach)|]. repeat constructor. }
    apply Forall_cons in Hb as [Hb _]. repeat constructor; try done; by apply elem_of_singleton.
  - exists fuel0, w', batch', r. split; [exact Hrun|exact Hw].
Defined.
