(* ===== verification/Aggregate.v ===== *)
(** * Aggregate sockets: [crates/fast-socket-xdp-rs/src/aggregate.rs]

    One logical socket over several single-queue sockets. Members may share
    packet memory, so their operations also take what they share. The
    theorems are about any members that meet the contract of a receive. *)
From S2P Require Import Prelude Core.
Open Scope Z_scope.

(** What the aggregates call of [XdpIpPacketSocket] and [XdpUdpSocket]; [W] is
    what the members share with each other and with the kernel. *)
Class AggregateMember (W M T : Type) := {
  member_recv : W → M → RecvBatch T → outcome (W * M * RecvBatch T * result Z Error);
  member_drain_tx_completions : W → M → outcome (W * M * result Z Error);
}.

(** [XdpUdpAggregate]; [XdpIpPacketAggregate] is the same without [tx_rr]. *)
Record XdpUdpAggregate (M : Type) := mkAggregate {
  ag_members : list M;
  ag_rx_rr : Z;
  ag_tx_rr : Z;
  ag_shared_umem : bool;
}.
Arguments mkAggregate {M} _ _ _ _.
Arguments ag_members {M} _.
Arguments ag_rx_rr {M} _.
Arguments ag_tx_rr {M} _.
Arguments ag_shared_umem {M} _.

(** [None] is the [InvalidInput] error. *)
Definition from_members {M} (members : list M) : option (XdpUdpAggregate M) :=
  match members with
  | [] => None
  | _ => Some (mkAggregate members 0 0 false)
  end.
Definition from_shared_umem_members {M} (members : list M) : option (XdpUdpAggregate M) :=
  (λ a, mkAggregate (ag_members a) (ag_rx_rr a) (ag_tx_rr a) true) <$> from_members members.

(** [a % b]. *)
Definition rem_usize (a b : Z) : outcome Z := if b =? 0 then Panic else Ret (a mod b).

(** The index of the member that [next_tx_member] returns. *)
Definition next_tx_member {M} (a : XdpUdpAggregate M) : outcome (XdpUdpAggregate M * Z) :=
  index_ ← rem_usize (ag_tx_rr a) (len (ag_members a));
  let a := mkAggregate (ag_members a) (ag_rx_rr a) (wrapping_add 64 (ag_tx_rr a) 1) (ag_shared_umem a) in
  _ ← index (ag_members a) index_;
  Ret (a, index_).

Section Sweep.
Context {W M T : Type} `{!AggregateMember W M T}.
Implicit Types (a : XdpUdpAggregate M) (ms : list M).

(** The loop of [recv]; the members, the cursor and the batch at its end. *)
Fixpoint recv_sweep (rounds : nat) (w : W) ms (cursor : Z) (out : RecvBatch T) (total : Z) :
    outcome (W * list M * Z * RecvBatch T * result Z Error) :=
  match rounds with
  | O => Ret (w, ms, cursor, out, Ok total)
  | S rounds =>
      if remaining out =? 0 then Ret (w, ms, cursor, out, Ok total)
      else
        i ← rem_usize cursor (len ms);
        m ← index ms i;
        '(w, m, out, r) ← member_recv w m out;
        ms ← set_index ms i m;
        match r with
        | Err e => Ret (w, ms, cursor, out, Err e)
        | Ok n =>
            total ← add_usize total n;
            cursor ← add_usize cursor 1;
            recv_sweep rounds w ms cursor out total
        end
  end.

Definition with_rx (a : XdpUdpAggregate M) ms (rx_rr : Z) : XdpUdpAggregate M :=
  mkAggregate ms rx_rr (ag_tx_rr a) (ag_shared_umem a).
Definition aggregate_recv (w : W) a (out : RecvBatch T) : outcome (W * XdpUdpAggregate M * RecvBatch T * result Z Error) :=
  let n := len (ag_members a) in
  '(w, ms, cursor, out, r) ← recv_sweep (Z.to_nat n) w (ag_members a) (ag_rx_rr a) out 0;
  match r with
  | Err e => Ret (w, with_rx a ms (ag_rx_rr a), out, Err e)
  | Ok total => rx_rr ← rem_usize cursor n; Ret (w, with_rx a ms rx_rr, out, Ok total)
  end.

(** The loop of [drain_tx_completions]. *)
Fixpoint drain_members (w : W) ms (total : Z) : outcome (W * list M * result Z Error) :=
  match ms with
  | [] => Ret (w, [], Ok total)
  | m :: ms =>
      '(w, m, r) ← member_drain_tx_completions w m;
      match r with
      | Err e => Ret (w, m :: ms, Err e)
      | Ok n =>
          total ← add_usize total n;
          '(w, ms, r) ← drain_members w ms total;
          Ret (w, m :: ms, r)
      end
  end.
Definition aggregate_drain_tx_completions (w : W) a : outcome (W * XdpUdpAggregate M * result Z Error) :=
  '(w, ms, r) ← drain_members w (ag_members a) 0; Ret (w, with_rx a ms (ag_rx_rr a), r).
End Sweep.

(** ** The contract of a member

    A receive appends to the batch, within its capacity, and reports how many
    it appended. *)
Section Fair.
Context {W M T : Type} `{!AggregateMember W M T} (Inv : W → list M → Prop).

Class MemberContract := member_contract w ms i m (out : RecvBatch T) :
  Inv w ms → nthZ ms i = Some m → rb_len out ≤ rb_capacity out →
  ∃ w' m' new r, member_recv w m out = Ret (w', m', mkRecvBatch (rb_items out ++ new) (rb_capacity out), r) ∧
    Inv w' (<[Z.to_nat i := m']> ms) ∧ rb_len out + len new ≤ rb_capacity out ∧ (∀ n, r = Ok n → n = len new).
Context `{!MemberContract}.

(** The receive calls an aggregate makes: the member, what it delivered and
    what it returned. *)
Inductive calls : W → list M → RecvBatch T → list (Z * list T * result Z Error) → W → list M → RecvBatch T → Prop :=
  | calls_nil w ms out : calls w ms out [] w ms out
  | calls_cons w ms out i m w1 m1 new r cs w' ms' out' :
      nthZ ms i = Some m →
      member_recv w m out = Ret (w1, m1, mkRecvBatch (rb_items out ++ new) (rb_capacity out), r) →
      calls w1 (<[Z.to_nat i := m1]> ms) (mkRecvBatch (rb_items out ++ new) (rb_capacity out)) cs w' ms' out' →
      calls w ms out ((i, new, r) :: cs) w' ms' out'.

Definition called (cs : list (Z * list T * result Z Error)) : list Z := fst ∘ fst <$> cs.
Definition delivered (cs : list (Z * list T * result Z Error)) : list T := concat (snd ∘ fst <$> cs).
(** [k] members in turn, from [cursor]. *)
Definition turns (n cursor : Z) (k : nat) : list Z := (λ i, (cursor + Z.of_nat i) mod n) <$> seq 0 k.

Lemma turns_S n cursor k : turns n cursor (S k) = cursor mod n :: turns n (cursor + 1) k.
Proof.
  unfold turns. cbn. rewrite Z.add_0_r. f_equal. rewrite <- fmap_S_seq, <- list_fmap_compose. apply list_fmap_ext.
  intros i x _. cbn. f_equal. lia.
Qed.

Lemma turns_app n cursor k j : turns n cursor (k + j) = turns n cursor k ++ turns n (cursor + Z.of_nat k) j.
Proof.
  revert cursor. induction k as [|k IH]; intros cursor; [by rewrite Z.add_0_r|]. cbn [Nat.add]. rewrite !turns_S, IH. cbn. do 3 f_equal. lia.
Qed.

Lemma turns_mod n cursor k : 0 < n → turns n (cursor mod n) k = turns n cursor k.
Proof. intros Hn. unfold turns. apply list_fmap_ext. intros i x _. by rewrite Z.add_mod_idemp_l by lia. Qed.

Lemma turns_all n cursor k i : 0 ≤ cursor → n ≤ Z.of_nat k → 0 ≤ i < n → i ∈ turns n cursor k.
Proof.
  intros Hc Hk Hi. unfold turns. apply list_elem_of_fmap. exists (Z.to_nat ((i - cursor) mod n)).
  pose proof (Z.mod_pos_bound (i - cursor) n ltac:(lia)). split; [|apply elem_of_seq; lia].
  rewrite Z2Nat.id, Z.add_mod_idemp_r, Zplus_minus, Z.mod_small by lia. done.
Qed.

(** ** One sweep *)
Record sweep_post (rounds : nat) (w : W) (ms : list M) (cursor : Z) (out : RecvBatch T) (total : Z)
    (w' : W) (ms' : list M) (cursor' : Z) (out' : RecvBatch T) (r : result Z Error) (cs : list (Z * list T * result Z Error)) : Prop := mkSweepPost {
  sw_calls : calls w ms out cs w' ms' out';
  sw_inv : Inv w' ms';
  sw_len : len ms' = len ms;
  sw_turns : called cs = turns (len ms) cursor (length cs);
  sw_rounds : (length cs ≤ rounds)%nat;
  sw_out : out' = mkRecvBatch (rb_items out ++ delivered cs) (rb_capacity out);
  sw_room : rb_len out' ≤ rb_capacity out;
  sw_result : match r with
    | Ok n => n = total + len (delivered cs) ∧ cursor' = cursor + len cs ∧ (length cs = rounds ∨ remaining out' = 0)
    | Err e => ∃ cs' c, cs = cs' ++ [c] ∧ c.2 = Err e
    end;
}.

Lemma sweep_stop rounds w ms cursor out total : Inv w ms → rb_len out ≤ rb_capacity out → (rounds = O ∨ remaining out = 0) →
  sweep_post rounds w ms cursor out total w ms cursor out (Ok total) [].
Proof.
  intros HI Hout Hstop. constructor; try done; [apply calls_nil|cbn; lia|destruct out; cbn; by rewrite app_nil_r|].
  cbn. change (len (delivered [])) with 0. change (len []) with 0. split_and!; [lia|lia|]. destruct Hstop; [by left|by right].
Qed.

Lemma recv_sweep_ok (rounds : nat) : ∀ w ms cursor (out : RecvBatch T) total,
  Inv w ms → 0 < len ms → 0 ≤ cursor → cursor + Z.of_nat rounds ≤ USIZE_MAX → 0 ≤ total → total + remaining out ≤ USIZE_MAX →
  rb_len out ≤ rb_capacity out →
  ∃ w' ms' cursor' out' r cs, recv_sweep rounds w ms cursor out total = Ret (w', ms', cursor', out', r) ∧
    sweep_post rounds w ms cursor out total w' ms' cursor' out' r cs ∧ (0 < remaining out → (0 < rounds)%nat → cs ≠ []).
Proof.
  induction rounds as [|rounds IH]; intros w ms cursor out total HI Hn Hc Hcb Ht Htb Hout; cbn [recv_sweep].
  { eexists _, _, _, _, _, []. split; [reflexivity|]. split; [apply sweep_stop; auto|lia]. }
  destruct (Z.eqb_spec (remaining out) 0) as [E0|E0].
  { eexists _, _, _, _, _, []. split; [reflexivity|]. split; [apply sweep_stop; auto|lia]. }
  unfold rem_usize. destruct (Z.eqb_spec (len ms) 0); [lia|]. run. pose proof (Z.mod_pos_bound cursor (len ms) Hn) as Hi.
  destruct (nthZ_is_Some ms (cursor mod len ms) Hi) as [m Hm]. rewrite (index_Some _ _ _ Hm). run.
  destruct (member_contract w ms _ m out HI Hm Hout) as (w1 & m1 & new & r & E & HI1 & Hcap & Hr). rewrite E. run. rewrite set_index_ok by done. run.
  set (out1 := mkRecvBatch (rb_items out ++ new) (rb_capacity out)) in *. assert (Hl1 : rb_len out1 = rb_len out + len new) by apply len_app.
  assert (Hlen : len (<[Z.to_nat (cursor mod len ms):=m1]> ms) = len ms) by (unfold len; by rewrite length_insert).
  destruct r as [k|e].
  2:{ eexists _, _, _, _, _, [_]. split; [reflexivity|]. split; [|done]. constructor; try done; [econstructor; [exact Hm|exact E|constructor]|..].
      - cbn. by rewrite Z.add_0_r.
      - cbn. lia.
      - cbn. by rewrite app_nil_r.
      - cbn. lia.
      - by exists [], (cursor mod len ms, new, Err e). }
  rewrite (Hr k eq_refl) in E |- *. clear Hr k. unfold remaining, saturating_sub in Htb. pose proof (len_nonneg new). unfold add_usize.
  destruct (Z.leb_spec (total + len new) USIZE_MAX); [|lia]. destruct (Z.leb_spec (cursor + 1) USIZE_MAX); [|lia]. run.
  destruct (IH w1 (<[Z.to_nat (cursor mod len ms):=m1]> ms) (cursor + 1) out1 (total + len new)) as (w' & ms' & c' & out' & r & cs & E' & [S1 S2 S3 S4 S5 S6 S7 S8] & _);
    try done; try lia; [unfold remaining, saturating_sub; change (rb_capacity out1) with (rb_capacity out); lia|change (rb_capacity out1) with (rb_capacity out); lia|].
  rewrite Hlen in *. exists w', ms', c', out', r, ((cursor mod len ms, new, Ok (len new)) :: cs). rewrite E'. split; [done|].
  split; [|done]. constructor; try done.
  - econstructor; [exact Hm|exact E|exact S1].
  - cbn [length]. rewrite turns_S. cbn. f_equal. exact S4.
  - cbn. lia.
  - rewrite S6. cbn. by rewrite <- app_assoc.
  - destruct r as [n1|e].
    + destruct S8 as (-> & -> & S8). change (delivered ((cursor mod len ms, new, Ok (len new)) :: cs)) with (new ++ delivered cs).
      rewrite len_cons, len_app. cbn. split_and!; [lia|lia|]. destruct S8; [left; lia|by right].
    + destruct S8 as (cs' & c & -> & Hc'). exists ((cursor mod len ms, new, Ok (len new)) :: cs'), c. done.
Qed.

(** ** Receives of an aggregate *)
Definition aggregate_ok (w : W) (a : XdpUdpAggregate M) : Prop :=
  Inv w (ag_members a) ∧ 0 ≤ ag_rx_rr a < len (ag_members a) ∧ 2 * len (ag_members a) ≤ USIZE_MAX.

(** One receive: the calls it makes, and the aggregate after it. *)
Definition recv_post (w : W) (a : XdpUdpAggregate M) (out : RecvBatch T) (w' : W) (a' : XdpUdpAggregate M) (out' : RecvBatch T)
    (r : result Z Error) (cs : list (Z * list T * result Z Error)) : Prop :=
  calls w (ag_members a) out cs w' (ag_members a') out' ∧
  called cs = turns (len (ag_members a)) (ag_rx_rr a) (length cs) ∧ len cs ≤ len (ag_members a) ∧ (0 < remaining out → cs ≠ []) ∧
  rb_items out' = rb_items out ++ delivered cs ∧ rb_len out' ≤ rb_capacity out' ∧
  match r with
  | Ok n => n = len (delivered cs) ∧ (len cs = len (ag_members a) ∨ remaining out' = 0) ∧
      ag_rx_rr a' = (ag_rx_rr a + len cs) mod len (ag_members a)
  | Err e => ag_rx_rr a' = ag_rx_rr a ∧ ∃ cs' c, cs = cs' ++ [c] ∧ c.2 = Err e
  end.

Lemma aggregate_recv_ok w a (out : RecvBatch T) : aggregate_ok w a → rb_len out ≤ rb_capacity out ≤ USIZE_MAX →
  ∃ w' a' out' r cs, aggregate_recv w a out = Ret (w', a', out', r) ∧ recv_post w a out w' a' out' r cs ∧
    aggregate_ok w' a' ∧ len (ag_members a') = len (ag_members a) ∧ rb_capacity out' = rb_capacity out.
Proof.
  intros (HI & Hrr & Hlen) [Hout Hcap]. pose proof (len_nonneg (rb_items out)). unfold aggregate_recv.
  destruct (recv_sweep_ok (Z.to_nat (len (ag_members a))) w (ag_members a) (ag_rx_rr a) out 0) as (w' & ms' & c' & out' & r & cs & E & [S1 S2 S3 S4 S5 S6 S7 S8] & S9);
    try done; try lia; [unfold remaining, saturating_sub, rb_len; lia|].
  rewrite E. run. assert (Hcs : len cs ≤ len (ag_members a)) by (unfold len in *; lia).
  assert (Hne : 0 < remaining out → cs ≠ []) by (intros ?; apply S9; [done|lia]).
  destruct r as [n|e].
  - destruct S8 as (-> & -> & S8). unfold rem_usize. destruct (Z.eqb_spec (len (ag_members a)) 0); [lia|]. run.
    eexists _, _, _, _, cs. split; [reflexivity|]. unfold recv_post, aggregate_ok. cbn [ag_members ag_rx_rr with_rx]. rewrite S3.
    split; [|split; [split_and!; try done; apply Z.mod_pos_bound; lia|by rewrite S6]].
    split_and!; try done; [by rewrite S6|by rewrite S6 in S7 |- *|]. destruct S8 as [S8|S8]; [left; unfold len in *; lia|by right].
  - eexists _, _, _, _, cs. split; [reflexivity|]. unfold recv_post, aggregate_ok. cbn [ag_members ag_rx_rr with_rx]. rewrite S3.
    split; [|by rewrite S6]. split_and!; try done; [by rewrite S6|by rewrite S6 in S7 |- *].
Qed.

(** Successive successful receives, each on a batch with room; the members
    called. *)
Inductive recv_run : W → XdpUdpAggregate M → list Z → nat → W → XdpUdpAggregate M → Prop :=
  | recv_run_nil w a : recv_run w a [] 0 w a
  | recv_run_cons w a out w1 a1 out1 n cs idxs k w' a' :
      aggregate_recv w a out = Ret (w1, a1, out1, Ok n) → recv_post w a out w1 a1 out1 (Ok n) cs →
      0 < remaining out → len (ag_members a1) = len (ag_members a) → recv_run w1 a1 idxs k w' a' →
      recv_run w a (called cs ++ idxs) (S k) w' a'.

Lemma recv_run_turns w a idxs k w' a' : recv_run w a idxs k w' a' → 0 < len (ag_members a) →
  idxs = turns (len (ag_members a)) (ag_rx_rr a) (length idxs) ∧ (k ≤ length idxs)%nat.
Proof.
  induction 1 as [|w a out w1 a1 out1 n cs idxs k w' a' _ (_ & Hturns & _ & Hne & _ & _ & _ & _ & Hrr) Hroom Hlen _ IH]; intros Hn; [done|].
  destruct IH as [IH1 IH2]; [lia|]. specialize (Hne Hroom). assert (Hcl : length (called cs) = length cs) by apply length_fmap.
  rewrite length_app, Hcl. split; [|destruct cs; [done|cbn; lia]]. rewrite turns_app, Hturns at 1. f_equal.
  rewrite IH1 at 1. rewrite Hlen, Hrr. by apply turns_mod.
Qed.
End Fair.

(** ** Properties *)

(** C38. A receive of an aggregate returns. It calls the receive of its members
    in turn from where the last one stopped, each at most once and at least
    one when the batch has room; the batch grows by exactly what they
    delivered, in that order and within its capacity; a success counts it, and
    means that the batch is full or every member was called. So while receives
    succeed, any run of as many as there are members calls every member. *)
Theorem aggregate_fair {W M T} `{!AggregateMember W M T} (Inv : W → list M → Prop) `{!MemberContract Inv} w a (out : RecvBatch T) :
  aggregate_ok Inv w a → rb_len out ≤ rb_capacity out ≤ USIZE_MAX →
  (∃ w' a' out' r cs, aggregate_recv w a out = Ret (w', a', out', r) ∧ recv_post w a out w' a' out' r cs ∧ aggregate_ok Inv w' a') ∧
  (∀ idxs k w' a', recv_run w a idxs k w' a' → len (ag_members a) ≤ Z.of_nat k →
     ∀ i, 0 ≤ i < len (ag_members a) → i ∈ idxs).
Proof.
  intros Hok Hout. split.
  - destruct (aggregate_recv_ok Inv w a out Hok Hout) as (w' & a' & out' & r & cs & H1 & H2 & H3 & _). by exists w', a', out', r, cs.
  - intros idxs k w' a' Hrun Hk i Hi. destruct Hok as (_ & Hrr & _). destruct (recv_run_turns _ _ _ _ _ _ Hrun) as [Ht Hle]; [lia|]. rewrite Ht.
    apply turns_all; lia.
Qed.

(** Members that hold the packets to receive; a broken one fails. *)
#[export] Instance toy_member : AggregateMember unit (option (list Z)) Z := {
  member_recv w m out :=
    match m with
    | None => Ret (w, None, out, Err WouldBlock)
    | Some q =>
        let n := Z.to_nat (Z.min (remaining out) (len q)) in
        Ret (w, Some (drop n q), mkRecvBatch (rb_items out ++ take n q) (rb_capacity out), Ok (Z.of_nat n))
    end;
  member_drain_tx_completions w m := Ret (w, m, Ok 0);
}.
#[export] Instance toy_contract : MemberContract (λ (_ : unit) (_ : list (option (list Z))), True).
Proof.
  intros w ms i [q|] out _ _ Hout; cbn [member_recv toy_member].
  - eexists _, _, _, _. split; [reflexivity|]. pose proof (len_nonneg q). unfold remaining, saturating_sub. split_and!; [done| |].
    + unfold rb_len, len in *. rewrite length_take. lia.
    + intros n [= <-]. unfold rb_len, len in *. rewrite length_take. lia.
  - exists w, None, [], (Err WouldBlock). rewrite app_nil_r. split_and!; [by destruct out|done| |done]. change (len []) with 0. lia.
Qed.

Lemma aggregate_fair_witness :
  let a := mkAggregate [Some [1; 2]; Some [3]; Some [4]] 2 0 false in
  ∃ w' a' out' r, aggregate_recv tt a (mkRecvBatch [] 3) = Ret (w', a', out', r) ∧
    rb_items out' = [4; 1; 2] ∧ r = Ok 3 ∧ ag_rx_rr a' = 1.
Proof.
  intros a. destruct (aggregate_fair (λ _ _, True) tt a (mkRecvBatch [] 3)) as [(w' & a' & out' & r & cs & E & _) _].
  - split_and!; [done|vm_compute..]; done.
  - done.
  - exists w', a', out', r. split; [exact E|]. vm_compute in E. injection E as <- <- <- <-. done.
Defined.

(** Receives on one batch after the other. *)
Fixpoint recv_each {W M T} `{!AggregateMember W M T} (w : W) (a : XdpUdpAggregate M) (outs : list (RecvBatch T)) :
    outcome (W * XdpUdpAggregate M * list (RecvBatch T * result Z Error)) :=
  match outs with
  | [] => Ret (w, a, [])
  | out :: outs =>
      '(w, a, out, r) ← aggregate_recv w a out;
      '(w, a, rs) ← recv_each w a outs;
      Ret (w, a, (out, r) :: rs)
  end.

(** A receive that fails leaves the cursor where it was. So when the member
    whose turn it is fails each time it is called, every receive fails at it,
    however many are made: nothing is delivered, and no other member is called
    even when it holds packets. *)
Theorem aggregate_error_starves {W M T} `{!AggregateMember W M T} (broken : W → M → Prop) w (a : XdpUdpAggregate M) m (outs : list (RecvBatch T)) :
  (∀ w m out, broken w m → ∃ w' m' e, member_recv w m out = Ret (w', m', out, Err e) ∧ broken w' m') →
  0 ≤ ag_rx_rr a < len (ag_members a) → nthZ (ag_members a) (ag_rx_rr a) = Some m → broken w m → Forall (λ out, 0 < remaining out) outs →
  ∃ w' a' rs, recv_each w a outs = Ret (w', a', rs) ∧ fst <$> rs = outs ∧ Forall (λ x, ∃ e, x.2 = Err e) rs ∧
    ag_rx_rr a' = ag_rx_rr a ∧ ∀ j, j ≠ ag_rx_rr a → nthZ (ag_members a') j = nthZ (ag_members a) j.
Proof.
  intros Hbr. revert w a m. induction outs as [|out outs IH]; intros w a m Hrr Hm Hb HF; cbn [recv_each]; [by exists w, a, []|].
  apply Forall_cons in HF as [Hroom HF]. unfold aggregate_recv. assert (Hn : Z.to_nat (len (ag_members a)) = S (Z.to_nat (len (ag_members a) - 1))) by lia.
  rewrite Hn. cbn [recv_sweep]. destruct (Z.eqb_spec (remaining out) 0); [lia|]. unfold rem_usize. destruct (Z.eqb_spec (len (ag_members a)) 0); [lia|].
  rewrite Z.mod_small by done. run. rewrite (index_Some _ _ _ Hm). run. destruct (Hbr w m out Hb) as (w1 & m1 & e & E & Hb1). rewrite E. run.
  rewrite set_index_ok by done. run. set (a1 := with_rx a _ _).
  assert (Hl1 : len (ag_members a1) = len (ag_members a)) by (unfold len; cbn; by rewrite length_insert).
  destruct (IH w1 a1 m1) as (w' & a' & rs & E' & H1 & H2 & H3 & H4); [by rewrite Hl1| |done|done|].
  { unfold nthZ. cbn. destruct (Z.ltb_spec (ag_rx_rr a) 0); [lia|]. apply list_lookup_insert_eq. unfold len in Hrr. lia. }
  rewrite E'. run. exists w', a', ((out, Err e) :: rs). split_and!; try done; [cbn; by rewrite H1|constructor; [by eexists|done]|].
  intros j Hj. rewrite H4 by done. unfold nthZ. cbn. destruct (Z.ltb_spec j 0); [done|]. apply list_lookup_insert_ne. lia.
Qed.

Lemma aggregate_error_starves_witness :
  let a := mkAggregate [Some [1; 2]; None; Some [4]] 1 0 false in
  ∃ w' a' rs, recv_each tt a [mkRecvBatch [] 3; mkRecvBatch [] 3] = Ret (w', a', rs) ∧ nthZ (ag_members a') 0 = Some (Some [1; 2]).
Proof.
  intros a. destruct (aggregate_error_starves (λ _ m, m = None) tt a None [mkRecvBatch [] 3; mkRecvBatch [] 3]) as (w' & a' & rs & E & _ & _ & _ & H).
  - intros w m out ->. by exists w, None, WouldBlock.
  - done.
  - done.
  - done.
  - repeat constructor.
  - exists w', a', rs. split; [exact E|]. rewrite H; done.
Defined.

(** Back-to-back calls; the members returned. *)
Fixpoint tx_members {M} (k : nat) (a : XdpUdpAggregate M) : outcome (XdpUdpAggregate M * list Z) :=
  match k with
  | O => Ret (a, [])
  | S k => '(a, idxs) ← tx_members k a; '(a, i) ← next_tx_member a; Ret (a, idxs ++ [i])
  end.

(** Back-to-back calls of [next_tx_member] return the members in rotation:
    the [k]-th call from any state returns the member [k] places after the
    cursor, until the 64-bit cursor wraps around. *)
Theorem next_tx_rotates {M} (a : XdpUdpAggregate M) (k : nat) : 0 < len (ag_members a) → 0 ≤ ag_tx_rr a → ag_tx_rr a + Z.of_nat k < 2 ^ 64 →
  ∃ a', tx_members k a = Ret (a', turns (len (ag_members a)) (ag_tx_rr a) k) ∧
    ag_members a' = ag_members a ∧ ag_tx_rr a' = ag_tx_rr a + Z.of_nat k ∧ ag_rx_rr a' = ag_rx_rr a.
Proof.
  intros Hn Hc. induction k as [|k IH]; intros Hb; [exists a; split_and!; try done; lia|]. destruct IH as (a1 & E & H1 & H2 & H3); [lia|].
  cbn [tx_members]. rewrite E. run. unfold next_tx_member, rem_usize. rewrite H1, H2. destruct (Z.eqb_spec (len (ag_members a)) 0); [lia|]. run.
  set (i := (ag_tx_rr a + Z.of_nat k) mod len (ag_members a)). destruct (nthZ_is_Some (ag_members a) i) as [m Hm]; [by apply Z.mod_pos_bound|].
  cbn [ag_members]. rewrite (index_Some _ _ _ Hm). run. eexists. split.
  { rewrite <- Nat.add_1_r, turns_app. unfold turns at 3. cbn [seq fmap list_fmap Z.of_nat]. rewrite Z.add_0_r. reflexivity. }
  cbn. split_and!; [done| |done]. unfold wrapping_add, wrap. rewrite Z.mod_small; lia.
Qed.

Lemma next_tx_rotates_witness :
  ∃ a', tx_members 4 (mkAggregate [tt; tt; tt] 0 1 false) = Ret (a', [1; 2; 0; 1]).
Proof.
  destruct (next_tx_rotates (mkAggregate [tt; tt; tt] 0 1 false) 4) as (a' & E & _); [done|done|done|]. exists a'. exact E.
Defined.

(** Draining sums the counts of the members. *)
Lemma drain_members_sum {W M T} `{!AggregateMember W M T} (count : M → Z) (ms : list M) : ∀ (w : W) total,
  (∀ w m, ∃ w' m', member_drain_tx_completions w m = Ret (w', m', Ok (count m))) → (∀ m, 0 ≤ count m) → 0 ≤ total →
  total + foldr (λ m acc, count m + acc) 0 ms ≤ USIZE_MAX →
  ∃ w' ms', drain_members w ms total = Ret (w', ms', Ok (total + foldr (λ m acc, count m + acc) 0 ms)).
Proof.
  induction ms as [|m ms IH]; intros w total Hd Hc Ht Hb; cbn [drain_members foldr] in *.
  { exists w, []. by rewrite Z.add_0_r. }
  assert (0 ≤ foldr (λ m acc, count m + acc) 0 ms) by (clear -Hc; induction ms as [|m ms IH]; cbn; [done|specialize (Hc m); lia]).
  destruct (Hd w m) as (w1 & m1 & ->). run. specialize (Hc m) as Hm. unfold add_usize. destruct (Z.leb_spec (total + count m) USIZE_MAX); [|lia]. run.
  destruct (IH w1 (total + count m)) as (w' & ms' & E); [done|done|lia|lia|]. rewrite E. run. exists w', (m1 :: ms'). by rewrite Z.add_assoc.
Qed.
