(* ===== verification/Actor.v ===== *)
(** * The asynchronous actor: [crates/fast-socket-async-rs/src/unix.rs]

    A task owns a socket and lends its buffers to the application through
    wrappers that hold a lease; the task ends only when no lease is left. The
    channels, the readiness of the file descriptor and the notification are
    a third-party runtime's: what they answer is an argument of the functions
    that call them. *)
From S2P Require Import Prelude Core Buffer Endpoint.
Open Scope Z_scope.

(** ** Configuration and errors *)
Record ActorConfig := mkActorConfig {
  recv_batch_size : Z;
  command_queue_capacity : Z;
  rx_queue_capacity : Z;
  pending_tx_capacity : Z;
}.
Definition ActorConfig_default : ActorConfig := mkActorConfig 64 1024 1024 1024.
Definition normalize (c : ActorConfig) : ActorConfig :=
  mkActorConfig (Z.max (recv_batch_size c) 1) (Z.max (command_queue_capacity c) 1)
    (Z.max (rx_queue_capacity c) 1) (Z.max (pending_tx_capacity c) 1).

Inductive AsyncUdpError :=
  | MissingWakeHandle | AsyncIo (e : string) | AsyncClosed | AsyncSocket (e : Error) | AsyncSend (e : SendError) | AsyncJoin.

(** ** Leases *)

(** [ActorState::lease]: the count of [outstanding_buffers] after it. *)
Definition lease (count : Z) : Z * bool := (wrapping_add 64 count 1, true).
(** [ActorBufferLease::release] on a lease that is held or not: the count, and
    whether [notify_waiters] is called. *)
Definition release (count : Z) (held : bool) : Z * bool :=
  if held then (wrapping_sub 64 count 1, count =? 1) else (count, false).

(** ** Wrappers *)
Record ActorTxMeta := mkTxMeta {
  tm_destination : SocketAddr;
  tm_source_ip : option IpAddr;
  tm_source_port : option Z;
  tm_ecn : option EcnCodepoint;
  tm_gso_segment_size : option Z;
}.
Definition ActorTxMeta_new (destination : SocketAddr) : ActorTxMeta := mkTxMeta destination None None None None.

(** The methods of the [UdpSocket] trait the actor calls, with the drops of
    the socket's buffers. [M], [F] and [B] are its mutable, frozen and received
    buffers. *)
Class ActorSocket (Sk M F B Meta : Type) := {
  as_allocate_tx_batch : Sk → list M → Z → outcome (Sk * list M * result Z Error);
  as_send : Sk → list (TxSlot (UdpTransmit F)) → outcome (send_result Sk (UdpTransmit F));
  as_recv : Sk → RecvBatch (B * Meta) → outcome (Sk * RecvBatch (B * Meta) * result Z Error);
  as_drain_tx_completions : Sk → outcome (Sk * result Z Error);
  as_notify_tx : Sk → outcome (Sk * result unit Error);
  as_freeze : M → F;
  as_freeze_rx : B → F;
  as_drop : Sk → M + F + B → outcome Sk;
}.

Section Actor.
Context {Sk M F B Meta : Type} `{!ActorSocket Sk M F B Meta}.
Abbreviation transmit := (UdpTransmit F).

Record ActorTxBuffer := mkTxBuffer {
  xb_buffer : option M;
  xb_lease : bool;
}.
Record ActorTxPacket := mkTxPacket {
  xp_packet : option F;
  xp_meta : ActorTxMeta;
  xp_lease : bool;
}.
Record ActorRxPacket := mkRxPacket {
  xr_packet : option B;
  xr_meta : Meta;
  xr_lease : bool;
}.

(** [expect("... was already consumed")]. *)
Definition consume {A} (o : option A) : outcome A := match o with Some a => Ret a | None => Panic end.

Definition tx_buffer_freeze (b : ActorTxBuffer) (destination : SocketAddr) : outcome ActorTxPacket :=
  packet ← consume (xb_buffer b);
  Ret (mkTxPacket (Some (as_freeze packet)) (ActorTxMeta_new destination) (xb_lease b)).
Definition rx_packet_into_transmit (p : ActorRxPacket) (destination : SocketAddr) : outcome ActorTxPacket :=
  packet ← consume (xr_packet p);
  Ret (mkTxPacket (Some (as_freeze_rx packet)) (ActorTxMeta_new destination) (xr_lease p)).

Definition transmit_of (packet : F) (meta : ActorTxMeta) : transmit :=
  mkUdpTransmit packet (tm_destination meta) (tm_source_ip meta) (tm_source_port meta) (tm_ecn meta) (tm_gso_segment_size meta).
(** [ActorTxBuffer::into_transmit] and [ActorTxPacket::into_transmit]: the
    count after the release of the lease, and the request. *)
Definition tx_buffer_into_transmit (count : Z) (b : ActorTxBuffer) (meta : ActorTxMeta) : outcome (Z * transmit) :=
  packet ← consume (xb_buffer b);
  Ret ((release count (xb_lease b)).1, transmit_of (as_freeze packet) meta).
Definition tx_packet_into_transmit (count : Z) (p : ActorTxPacket) : outcome (Z * transmit) :=
  packet ← consume (xp_packet p);
  Ret ((release count (xp_lease p)).1, transmit_of packet (xp_meta p)).

(** A wrapper outside the actor, and its drop: the buffer's, then the lease's. *)
Inductive Wrapper :=
  | WrapTxBuffer (b : ActorTxBuffer) | WrapTxPacket (p : ActorTxPacket) | WrapRxPacket (p : ActorRxPacket).
Definition wrapper_lease (w : Wrapper) : bool :=
  match w with WrapTxBuffer b => xb_lease b | WrapTxPacket p => xp_lease p | WrapRxPacket p => xr_lease p end.
Definition wrapper_buffer (w : Wrapper) : option (M + F + B) :=
  match w with
  | WrapTxBuffer b => inl ∘ inl <$> xb_buffer b
  | WrapTxPacket p => inl ∘ inr <$> xp_packet p
  | WrapRxPacket p => inr <$> xr_packet p
  end.
Definition drop_buffer (s : Sk) (w : Wrapper) : outcome Sk :=
  match wrapper_buffer w with Some b => as_drop s b | None => Ret s end.
(** Dropping wrappers inside the actor's task. *)
Fixpoint drop_wrappers (s : Sk) (count : Z) (ws : list Wrapper) : outcome (Sk * Z) :=
  match ws with
  | [] => Ret (s, count)
  | w :: ws => s ← drop_buffer s w; drop_wrappers s (release count (wrapper_lease w)).1 ws
  end.
Fixpoint drop_buffers (s : Sk) (bs : list (M + F + B)) : outcome Sk :=
  match bs with
  | [] => Ret s
  | b :: bs => s ← as_drop s b; drop_buffers s bs
  end.

(** ** Commands *)

(** [alive] says whether the receiver of the reply still is. *)
Inductive ActorCommand :=
  | Allocate (max : Z) (alive : bool)
  | SendBuffers (buffers : list ActorTxBuffer) (meta : ActorTxMeta)
  | SendPackets (packets : list ActorTxPacket)
  | Shutdown.

Fixpoint lease_all (count : Z) (buffers : list M) : Z * list ActorTxBuffer :=
  match buffers with
  | [] => (count, [])
  | b :: bs =>
      let '(count, l) := lease count in
      let '(count, ws) := lease_all count bs in
      (count, mkTxBuffer (Some b) l :: ws)
  end.
Fixpoint buffers_into_transmit (count : Z) (bs : list ActorTxBuffer) (meta : ActorTxMeta) : outcome (Z * list (TxSlot transmit)) :=
  match bs with
  | [] => Ret (count, [])
  | b :: bs =>
      '(count, tx) ← tx_buffer_into_transmit count b meta;
      '(count, txs) ← buffers_into_transmit count bs meta;
      Ret (count, Ready tx :: txs)
  end.
Fixpoint packets_into_transmit (count : Z) (ps : list ActorTxPacket) : outcome (Z * list (TxSlot transmit)) :=
  match ps with
  | [] => Ret (count, [])
  | p :: ps =>
      '(count, tx) ← tx_packet_into_transmit count p;
      '(count, txs) ← packets_into_transmit count ps;
      Ret (count, Ready tx :: txs)
  end.

(** What leaves the actor is the last component but one; the last says whether
    to shut down. *)
Definition handle_command (s : Sk) (count : Z) (command : ActorCommand) (pending_tx : list (TxSlot transmit)) :
    outcome (Sk * Z * list (TxSlot transmit) * list Wrapper * bool) :=
  match command with
  | Allocate max alive =>
      '(s, buffers, r) ← as_allocate_tx_batch s [] max;
      match r with
      | Err _ => s ← drop_buffers s (inl ∘ inl <$> buffers); Ret (s, count, pending_tx, [], false)
      | Ok _ =>
          let '(count, wrapped) := lease_all count buffers in
          if alive then Ret (s, count, pending_tx, WrapTxBuffer <$> wrapped, false)
          else '(s, count) ← drop_wrappers s count (WrapTxBuffer <$> wrapped); Ret (s, count, pending_tx, [], false)
      end
  | SendBuffers buffers meta =>
      '(count, txs) ← buffers_into_transmit count buffers meta;
      Ret (s, count, pending_tx ++ txs, [], false)
  | SendPackets packets =>
      '(count, txs) ← packets_into_transmit count packets;
      Ret (s, count, pending_tx ++ txs, [], false)
  | Shutdown => Ret (s, count, pending_tx, [], true)
  end.

(** [wrap_rx_batch]. *)
Fixpoint wrap_rx_batch (count : Z) (items : list (B * Meta)) : Z * list ActorRxPacket :=
  match items with
  | [] => (count, [])
  | (b, meta) :: items =>
      let '(count, l) := lease count in
      let '(count, ps) := wrap_rx_batch count items in
      (count, mkRxPacket (Some b) meta l :: ps)
  end.

(** ** Transmit

    [layout n] is the length of the front slice of the deque when [n] rounds
    are left; an empty one is made contiguous first. *)
Definition front_slice (k : nat) (pending_tx : list (TxSlot transmit)) : list (TxSlot transmit) :=
  match take k pending_tx with [] => pending_tx | front => front end.

(** [pending_tx.drain(..n)], which drops the slots. *)
Definition drain_front (s : Sk) (n : Z) (pending_tx : list (TxSlot transmit)) : outcome (Sk * list (TxSlot transmit)) :=
  assert! n <=? len pending_tx;
  s ← drop_buffers s (inl ∘ inr ∘ ut_packet <$> omap slot_as_ref (take (Z.to_nat n) pending_tx));
  Ret (s, drop (Z.to_nat n) pending_tx).

Fixpoint flush_loop (fuel : nat) (layout : nat → nat) (s : Sk) (pending_tx : list (TxSlot transmit)) (progressed : bool) :
    outcome (Sk * list (TxSlot transmit) * result bool AsyncUdpError) :=
  match pending_tx with
  | [] => Ret (s, [], Ok progressed)
  | _ =>
      match fuel with
      | O => Diverge
      | S fuel =>
          let front := front_slice (layout fuel) pending_tx in
          '(s, front', r) ← as_send s front;
          let pending_tx := front' ++ drop (length front) pending_tx in
          match r with
          | Ok accepted =>
              if accepted =? 0 then Ret (s, pending_tx, Ok progressed)
              else '(s, pending_tx) ← drain_front s accepted pending_tx; flush_loop fuel layout s pending_tx true
          | Err error =>
              if negb (se_accepted error =? 0) then
                '(s, pending_tx) ← drain_front s (se_accepted error) pending_tx; Ret (s, pending_tx, Err (AsyncSend error))
              else Ret (s, pending_tx, Err (AsyncSend error))
          end
      end
  end.
Definition flush_pending_tx (layout : nat → nat) (s : Sk) (pending_tx : list (TxSlot transmit)) :
    outcome (Sk * list (TxSlot transmit) * result bool AsyncUdpError) :=
  '(s, pending_tx, r) ← flush_loop (length pending_tx) layout s pending_tx false;
  match r with
  | Err e => Ret (s, pending_tx, Err e)
  | Ok true =>
      '(s, n) ← as_notify_tx s;
      match n with Err e => Ret (s, pending_tx, Err (AsyncSocket e)) | Ok _ => Ret (s, pending_tx, Ok true) end
  | Ok false => Ret (s, pending_tx, Ok false)
  end.

(** ** The actor's loop *)
Record ActorVars := mkActor {
  ac_socket : Sk;
  ac_pending : list (TxSlot transmit);
  ac_recv : list (B * Meta); (** [recv_batch] *)
  ac_rx_open : bool;
  ac_commands_open : bool;
  ac_shutdown : bool;
}.
Definition actor_start (s : Sk) : ActorVars := mkActor s [] [] true true false.

(** What the runtime answers during one round. *)
Inductive TryRecv := TryCommand (c : ActorCommand) | TryEmpty | TryDisconnected.
Inductive WaitAnswer :=
  | WaitCommand (c : option ActorCommand) (** the branch of the command queue *)
  | WaitReadable (r : result unit string).
Record RoundInput := mkRound {
  ri_tries : list TryRecv; (** the answers to [try_recv]; no more means empty *)
  ri_layout1 : nat → nat;
  ri_layout2 : nat → nat;
  ri_rx_accepted : bool; (** whether the receiving end takes the batch *)
  ri_select : WaitAnswer; (** of the [select!] *)
  ri_readable : result unit string; (** of [readable] alone *)
}.

(** The loop over [try_recv]: the variables, the count, what left the actor,
    the commands handled and whether there was progress. *)
Fixpoint command_loop (config : ActorConfig) (tries : list TryRecv) (a : ActorVars) (count : Z) (progressed : bool) :
    outcome (ActorVars * Z * list Wrapper * list ActorCommand * bool) :=
  if ac_commands_open a && negb (ac_shutdown a) && (len (ac_pending a) <? pending_tx_capacity config) then
    match tries with
    | [] | TryEmpty :: _ => Ret (a, count, [], [], progressed)
    | TryDisconnected :: _ =>
        Ret (mkActor (ac_socket a) (ac_pending a) (ac_recv a) (ac_rx_open a) false (ac_shutdown a), count, [], [], progressed)
    | TryCommand c :: tries =>
        '(s, count, pending, out, stop) ← handle_command (ac_socket a) count c (ac_pending a);
        if stop : bool then Ret (mkActor s pending (ac_recv a) (ac_rx_open a) false true, count, out, [c], true)
        else
          '(a, count, out', cs, progressed) ←
            command_loop config tries (mkActor s pending (ac_recv a) (ac_rx_open a) (ac_commands_open a) (ac_shutdown a)) count true;
          Ret (a, count, out ++ out', c :: cs, progressed)
    end
  else Ret (a, count, [], [], progressed).

Definition with_socket_pending (a : ActorVars) (s : Sk) (pending : list (TxSlot transmit)) : ActorVars :=
  mkActor s pending (ac_recv a) (ac_rx_open a) (ac_commands_open a) (ac_shutdown a).

(** The two flushes and the drain between them; an error ends the actor. *)
Definition transmit_phase (inp : RoundInput) (a : ActorVars) : outcome (ActorVars * result bool AsyncUdpError) :=
  '(s, pending, r1) ← flush_pending_tx (ri_layout1 inp) (ac_socket a) (ac_pending a);
  match r1 with
  | Err e => Ret (with_socket_pending a s pending, Err e)
  | Ok p1 =>
      '(s, d) ← as_drain_tx_completions s;
      match d with
      | Err e => Ret (with_socket_pending a s pending, Err (AsyncSocket e))
      | Ok n =>
          '(s, pending, r2) ← flush_pending_tx (ri_layout2 inp) s pending;
          match r2 with
          | Err e => Ret (with_socket_pending a s pending, Err e)
          | Ok p2 => Ret (with_socket_pending a s pending, Ok (p1 || negb (n =? 0) || p2))
          end
      end
  end.

(** The receive of a round; the batch goes to the receiving end or is dropped. *)
Definition receive_phase (config : ActorConfig) (inp : RoundInput) (a : ActorVars) (count : Z) :
    outcome (ActorVars * Z * list Wrapper * result bool AsyncUdpError) :=
  if ac_rx_open a && negb (ac_shutdown a) then
    s ← drop_buffers (ac_socket a) (inr ∘ fst <$> ac_recv a);
    '(s, batch, r) ← as_recv s (mkRecvBatch [] (recv_batch_size config));
    let with_recv items := mkActor s (ac_pending a) items (ac_rx_open a) (ac_commands_open a) (ac_shutdown a) in
    match r with
    | Ok n =>
        if n =? 0 then Ret (with_recv (rb_items batch), count, [], Ok false)
        else
          let '(count, ps) := wrap_rx_batch count (rb_items batch) in
          if ri_rx_accepted inp then Ret (with_recv [], count, WrapRxPacket <$> ps, Ok true)
          else
            '(s, count) ← drop_wrappers s count (WrapRxPacket <$> ps);
            Ret (mkActor s (ac_pending a) [] false (ac_commands_open a) (ac_shutdown a), count, [], Ok true)
    | Err WouldBlock => Ret (with_recv (rb_items batch), count, [], Ok false)
    | Err e => Ret (with_recv (rb_items batch), count, [], Err (AsyncSocket e))
    end
  else Ret (a, count, [], Ok false).

(** The wait at the end of a round without progress. *)
Definition wait_phase (inp : RoundInput) (a : ActorVars) (count : Z) :
    outcome (ActorVars * Z * list Wrapper * list ActorCommand * result unit AsyncUdpError) :=
  let readable r := match r with Ok _ => Ret (a, count, [], [], Ok tt) | Err e => Ret (a, count, [], [], Err (AsyncIo e)) end in
  if ac_commands_open a && negb (ac_shutdown a) then
    match ri_select inp with
    | WaitCommand (Some c) =>
        '(s, count, pending, out, stop) ← handle_command (ac_socket a) count c (ac_pending a);
        let a := if stop : bool then mkActor s pending (ac_recv a) (ac_rx_open a) false true
                 else with_socket_pending a s pending in
        Ret (a, count, out, [c], Ok tt)
    | WaitCommand None =>
        Ret (mkActor (ac_socket a) (ac_pending a) (ac_recv a) (ac_rx_open a) false (ac_shutdown a), count, [], [], Ok tt)
    | WaitReadable r => readable r
    end
  else readable (ri_readable inp).

(** One round of the loop of [run_actor_inner]: [None] goes round again. *)
Definition actor_round (config : ActorConfig) (inp : RoundInput) (a : ActorVars) (count : Z) :
    outcome (ActorVars * Z * list Wrapper * list ActorCommand * option (result unit AsyncUdpError)) :=
  '(a, count, out1, cs1, p1) ← command_loop config (ri_tries inp) a count false;
  '(a, r) ← transmit_phase inp a;
  match r with
  | Err e => Ret (a, count, out1, cs1, Some (Err e))
  | Ok p2 =>
      '(a, count, out2, r) ← receive_phase config inp a count;
      match r with
      | Err e => Ret (a, count, out1 ++ out2, cs1, Some (Err e))
      | Ok p3 =>
          if (ac_shutdown a || (negb (ac_commands_open a) && negb (ac_rx_open a))) && (len (ac_pending a) =? 0)
          then Ret (a, count, out1 ++ out2, cs1, Some (Ok tt))
          else if p1 || p2 || p3 then Ret (a, count, out1 ++ out2, cs1, None)
          else
            '(a, count, out3, cs2, r) ← wait_phase inp a count;
            Ret (a, count, out1 ++ out2 ++ out3, cs1 ++ cs2, match r with Ok _ => None | Err e => Some (Err e) end)
      end
  end.

(** The end of [run_actor_inner]: its batch and its queue are dropped. *)
Definition actor_finish (a : ActorVars) : outcome ActorVars :=
  s ← drop_buffers (ac_socket a) ((inr ∘ fst <$> ac_recv a) ++ (inl ∘ inr ∘ ut_packet <$> omap slot_as_ref (ac_pending a)));
  Ret (mkActor s [] [] (ac_rx_open a) (ac_commands_open a) (ac_shutdown a)).

(** ** The handle

    [sent] says whether the command queue took the command: what is queued,
    what is left with the caller and the result. *)
Definition send_tx_buffers (sent : bool) (buffers : list ActorTxBuffer) (meta : ActorTxMeta) :
    option ActorCommand * list ActorTxBuffer * result Z unit :=
  let count := len buffers in
  if count =? 0 then (None, buffers, Ok 0)
  else if sent then (Some (SendBuffers buffers meta), [], Ok count)
  else (None, [] ++ buffers, Err tt).
Definition send_tx_packets (sent : bool) (packets : list ActorTxPacket) : option ActorCommand * list ActorTxPacket * result Z unit :=
  let count := len packets in
  if count =? 0 then (None, packets, Ok 0)
  else if sent then (Some (SendPackets packets), [], Ok count)
  else (None, [] ++ packets, Err tt).
(** [alloc_tx_batch]; [reply] is [None] when the actor closed first. *)
Definition alloc_tx_batch (sent : bool) (reply : option (result (list ActorTxBuffer) Error)) (max : Z) (out : list ActorTxBuffer) :
    list ActorTxBuffer * result Z AsyncUdpError :=
  if max =? 0 then (out, Ok 0)
  else if negb sent then (out, Err AsyncClosed)
  else
    match reply with
    | None => (out, Err AsyncClosed)
    | Some (Err e) => (out, Err (AsyncSocket e))
    | Some (Ok buffers) => (out ++ buffers, Ok (len buffers))
    end.
End Actor.
Arguments ActorTxBuffer : clear implicits.
Arguments ActorTxPacket : clear implicits.
Arguments ActorRxPacket : clear implicits.
Arguments Wrapper : clear implicits.
Arguments ActorCommand : clear implicits.
Arguments ActorVars : clear implicits.
Arguments RoundInput : clear implicits.
Arguments TryRecv : clear implicits.
Arguments WaitAnswer : clear implicits.

(** ** Starting *)

(** [socket_wait_fd]; the answers of duplicating and registering the
    descriptor. *)
Definition socket_wait_fd (wake_handle : option Z) (clone register : result Z string) : result Z AsyncUdpError :=
  match wake_handle with
  | None => Err MissingWakeHandle
  | Some _ =>
      match clone with
      | Err e => Err (AsyncIo e)
      | Ok _ => match register with Err e => Err (AsyncIo e) | Ok fd => Ok fd end
      end
  end.
(** [spawn_udp_actor]: the configuration and the variables the task starts
    with. *)
Definition spawn_udp_actor {Sk F B Meta} (socket : Sk) (config : ActorConfig) (wake_handle : option Z) (clone register : result Z string) :
    result (ActorConfig * ActorVars Sk F B Meta) AsyncUdpError :=
  let config := normalize config in
  _ <-? socket_wait_fd wake_handle clone register;
  Ok (config, actor_start socket).
