(* ===== verification/ActorProofs.v ===== *)
(** * Lemmas of the asynchronous actor

    What the actor assumes of its socket, and what one round does. *)
From S2P Require Import Prelude Core Buffer Endpoint EndpointProofs Actor.
Open Scope Z_scope.

Lemma len_fmap {A C} (f : A → C) (l : list A) : len (f <$> l) = len l.
Proof. unfold len. by rewrite length_fmap. Qed.
Lemma lease_wrap x : lease (wrap 64 x) = (wrap 64 (x + 1), true).
Proof. unfold lease, wrapping_add, wrap. by rewrite Zplus_mod_idemp_l. Qed.
Lemma release_wrap x : (release (wrap 64 x) true).1 = wrap 64 (x - 1).
Proof. cbn. unfold wrapping_sub, wrap. by rewrite Zminus_mod_idemp_l. Qed.

Section Socket.
Context {Sk M F B Meta L : Type} `{!ActorSocket Sk M F B Meta}.
Abbreviation transmit := (UdpTransmit F).
Abbreviation buffer := (M + F + B)%type.
Variables (Inv : Sk → Prop) (fine : buffer → Prop) (log : Sk → list L) (emb : transmit → L).

(** What holds of the requests a fine buffer makes. *)
Definition fine_tx (tx : transmit) : Prop := fine (inl (inr (ut_packet tx))).
Definition returns {A} (o : outcome (Sk * A)) (s : Sk) (P : A → Prop) : Prop :=
  ∃ s' a, o = Ret (s', a) ∧ Inv s' ∧ log s' = log s ∧ P a.

(** The contract of the socket: [Inv] is its invariant, [log] what it has
    sent, and its buffers stay fine until they are dropped. *)
Class ActorContract := {
  ct_send :: SendContract Inv fine_tx log emb (as_send (B := B) (Meta := Meta) (M := M));
  ct_drain s : Inv s → returns (as_drain_tx_completions s) s (λ _, True);
  ct_notify s : Inv s → returns (as_notify_tx s) s (λ _, True);
  ct_allocate s max : Inv s → ∃ s' bs r, as_allocate_tx_batch s [] max = Ret (s', bs, r) ∧ Inv s' ∧ log s' = log s ∧
    Forall (fine ∘ inl ∘ inl) bs;
  ct_recv s capacity : Inv s → 1 ≤ capacity → ∃ s' items r, as_recv s (mkRecvBatch [] capacity) = Ret (s', mkRecvBatch items capacity, r) ∧
    Inv s' ∧ log s' = log s ∧ Forall (fine ∘ inr ∘ fst) items;
  ct_drop s b : Inv s → fine b → ∃ s', as_drop s b = Ret s' ∧ Inv s' ∧ log s' = log s;
  ct_freeze b : fine (inl (inl b)) → fine (inl (inr (as_freeze b)));
  ct_freeze_rx b : fine (inr b) → fine (inl (inr (as_freeze_rx b)));
}.
Context `{!ActorContract}.

(** ** Wrappers and commands *)

(** A wrapper outside the actor holds its lease and its buffer. *)
Definition wrapper_ok (w : Wrapper M F B Meta) : Prop :=
  wrapper_lease w = true ∧ ∃ b, wrapper_buffer w = Some b ∧ fine b.

Definition command_wrappers (c : ActorCommand M F) : list (Wrapper M F B Meta) :=
  match c with
  | SendBuffers bs _ => WrapTxBuffer <$> bs
  | SendPackets ps => WrapTxPacket <$> ps
  | _ => []
  end.
Definition buffer_transmit (meta : ActorTxMeta) (b : ActorTxBuffer M) : option transmit :=
  (λ m, transmit_of (as_freeze m) meta) <$> xb_buffer b.
Definition packet_transmit (p : ActorTxPacket F) : option transmit := (λ f, transmit_of f (xp_meta p)) <$> xp_packet p.
Definition is_shutdown (c : ActorCommand M F) : bool := match c with Shutdown => true | _ => false end.
(** The requests a command makes, in order. *)
Definition command_transmits (c : ActorCommand M F) : list transmit :=
  match c with
  | SendBuffers bs meta => omap (buffer_transmit meta) bs
  | SendPackets ps => omap packet_transmit ps
  | _ => []
  end.

Lemma drop_buffers_ok bs : ∀ s, Inv s → Forall fine bs → ∃ s', drop_buffers s bs = Ret s' ∧ Inv s' ∧ log s' = log s.
Proof.
  induction bs as [|b bs IH]; intros s Hs HF; cbn [drop_buffers]; [by exists s|]. apply Forall_cons in HF as [Hb HF].
  destruct (ct_drop s b Hs Hb) as (s1 & -> & Hs1 & Hl1). run. destruct (IH s1 Hs1 HF) as (s' & -> & Hs' & Hl'). exists s'. split_and!; try done. congruence.
Qed.

Lemma drop_wrappers_ok ws : ∀ s x, Inv s → Forall wrapper_ok ws →
  ∃ s', drop_wrappers s (wrap 64 x) ws = Ret (s', wrap 64 (x - len ws)) ∧ Inv s' ∧ log s' = log s.
Proof.
  induction ws as [|w ws IH]; intros s x Hs HF; cbn [drop_wrappers].
  { exists s. change (len []) with 0. by rewrite Z.sub_0_r. }
  apply Forall_cons in HF as [(Hl & b & Hb & Hf) HF]. unfold drop_buffer. rewrite Hb, Hl, release_wrap.
  destruct (ct_drop s b Hs Hf) as (s1 & -> & Hs1 & Hl1). run. destruct (IH s1 (x - 1) Hs1 HF) as (s' & E & Hs' & Hl').
  exists s'. rewrite E, len_cons. split_and!; [do 3 f_equal; lia|done|congruence].
Qed.

Lemma lease_all_ok (bs : list M) : ∀ x, ∃ ws, lease_all (wrap 64 x) bs = (wrap 64 (x + len bs), ws) ∧
  len ws = len bs ∧ (Forall (fine ∘ inl ∘ inl) bs → Forall wrapper_ok (WrapTxBuffer <$> ws)).
Proof.
  induction bs as [|b bs IH]; intros x; cbn [lease_all].
  { exists []. change (len []) with 0. by rewrite Z.add_0_r. }
  rewrite lease_wrap. destruct (IH (x + 1)) as (ws & -> & H1 & H2). exists (mkTxBuffer (Some b) true :: ws). rewrite !len_cons, H1.
  split; [do 2 f_equal; lia|]. split; [done|]. intros [Hb HF]%Forall_cons. constructor; [|by apply H2]. split; [done|]. by exists (inl (inl b)).
Qed.

Lemma rx_wrapped_ok (items : list (B * Meta)) : ∀ x, ∃ ps, wrap_rx_batch (wrap 64 x) items = (wrap 64 (x + len items), ps) ∧
  ((λ p, (xr_packet p, xr_meta p)) <$> ps) = ((λ i, (Some i.1, i.2)) <$> items) ∧
  len ps = len items ∧ (Forall (fine ∘ inr ∘ fst) items → Forall wrapper_ok (WrapRxPacket <$> ps)).
Proof.
  induction items as [|[b meta] items IH]; intros x; cbn [wrap_rx_batch].
  { exists []. change (len []) with 0. by rewrite Z.add_0_r. }
  rewrite lease_wrap. destruct (IH (x + 1)) as (ps & -> & H1 & H2 & H3). exists (mkRxPacket (Some b) meta true :: ps). rewrite !len_cons, H2.
  split; [do 2 f_equal; lia|]. split; [cbn; by rewrite H1|]. split; [done|]. intros [Hb HF]%Forall_cons. constructor; [|by apply H3]. split; [done|].
  by exists (inr b).
Qed.

Lemma buffers_transmit_ok meta bs : ∀ x, Forall wrapper_ok (WrapTxBuffer <$> bs) →
  ∃ txs, buffers_into_transmit (wrap 64 x) bs meta = Ret (wrap 64 (x - len bs), Ready <$> txs) ∧
    txs = omap (buffer_transmit meta) bs ∧ Forall fine_tx txs.
Proof.
  induction bs as [|b bs IH]; intros x HF; cbn [buffers_into_transmit].
  { exists []. change (len []) with 0. rewrite Z.sub_0_r. by split_and!. }
  apply Forall_cons in HF as [(Hl & b' & Hb & Hf) HF]. destruct b as [[m|] l]; [|done]. cbn in Hl, Hb. subst l. injection Hb as <-.
  unfold tx_buffer_into_transmit. cbn [xb_buffer xb_lease consume]. run. rewrite release_wrap. destruct (IH (x - 1) HF) as (txs & -> & H1 & H2). run.
  exists (transmit_of (as_freeze m) meta :: txs). rewrite len_cons. split; [do 3 f_equal; lia|]. split; [cbn; by rewrite H1|].
  constructor; [|done]. by apply ct_freeze.
Qed.

Lemma packets_transmit_ok ps : ∀ x, Forall wrapper_ok (WrapTxPacket <$> ps) →
  ∃ txs, packets_into_transmit (wrap 64 x) ps = Ret (wrap 64 (x - len ps), Ready <$> txs) ∧
    txs = omap packet_transmit ps ∧ Forall fine_tx txs.
Proof.
  induction ps as [|p ps IH]; intros x HF; cbn [packets_into_transmit].
  { exists []. change (len []) with 0. rewrite Z.sub_0_r. by split_and!. }
  apply Forall_cons in HF as [(Hl & b' & Hb & Hf) HF]. destruct p as [[f|] meta l]; [|done]. cbn in Hl, Hb. subst l. injection Hb as <-.
  unfold tx_packet_into_transmit. cbn [xp_packet xp_lease consume]. run. rewrite release_wrap. destruct (IH (x - 1) HF) as (txs & -> & H1 & H2). run.
  exists (transmit_of f meta :: txs). rewrite len_cons. split; [do 3 f_equal; lia|]. split; [cbn; by rewrite H1|]. by constructor.
Qed.

(** Handling a command returns. *)
Lemma handle_command_ok s x c pending : Inv s → Forall wrapper_ok (command_wrappers c) →
  ∃ s' out, handle_command s (wrap 64 x) c pending
      = Ret (s', wrap 64 (x - len (command_wrappers c) + len out), pending ++ (Ready <$> command_transmits c), out, is_shutdown c) ∧
    Inv s' ∧ log s' = log s ∧ Forall wrapper_ok out ∧ Forall fine_tx (command_transmits c).
Proof.
  intros Hs Hw. destruct c as [max alive|bs meta|ps|]; cbn [handle_command command_wrappers command_transmits is_shutdown] in *.
  - rewrite app_nil_r. change (len []) with 0. rewrite Z.sub_0_r. destruct (ct_allocate s max Hs) as (s1 & bs & r & -> & Hs1 & Hl1 & HF). run. destruct r as [n|e].
    + destruct (lease_all_ok bs x) as (ws & -> & Hlen & Hws). specialize (Hws HF). destruct alive.
      * exists s1, (WrapTxBuffer <$> ws). unfold len at 2. rewrite length_fmap. fold (len ws). rewrite Hlen. by split_and!.
      * destruct (drop_wrappers_ok (WrapTxBuffer <$> ws) s1 (x + len bs) Hs1 Hws) as (s2 & E & Hs2 & Hl2). rewrite E. run. exists s2, [].
        change (len []) with 0. unfold len at 2. rewrite length_fmap. fold (len ws). rewrite Hlen. replace (x + len bs - len bs) with (x + 0) by lia. split_and!; try done. congruence.
    + destruct (drop_buffers_ok (inl ∘ inl <$> bs) s1 Hs1) as (s2 & -> & Hs2 & Hl2); [by apply Forall_fmap|]. run. exists s2, [].
      change (len []) with 0. rewrite Z.add_0_r. split_and!; try done. congruence.
  - destruct (buffers_transmit_ok meta bs x Hw) as (txs & -> & -> & Htx). run. exists s, []. change (len []) with 0. rewrite Z.add_0_r.
    unfold len at 2. rewrite length_fmap. by split_and!.
  - destruct (packets_transmit_ok ps x Hw) as (txs & -> & -> & Htx). run. exists s, []. change (len []) with 0. rewrite Z.add_0_r.
    unfold len at 2. rewrite length_fmap. by split_and!.
  - exists s, []. change (len []) with 0. rewrite Z.sub_0_r, Z.add_0_r, app_nil_r. by split_and!.
Qed.

(** ** Flushing *)
Lemma front_slice_split k (txs : list transmit) : txs ≠ [] →
  ∃ tf tr, txs = tf ++ tr ∧ tf ≠ [] ∧ front_slice k (Ready <$> txs) = Ready <$> tf ∧ drop (length (front_slice k (Ready <$> txs))) (Ready <$> txs) = Ready <$> tr.
Proof.
  intros Hne. unfold front_slice. rewrite <- fmap_take. destruct (take k txs) as [|x l] eqn:E.
  - exists txs, []. cbn [fmap list_fmap]. by rewrite app_nil_r, drop_all.
  - exists (x :: l), (drop k txs). split; [by rewrite <- E, take_drop|]. split; [done|]. split; [done|]. cbn [fmap list_fmap length].
    rewrite length_fmap, <- fmap_drop. f_equal. apply (f_equal length) in E. rewrite length_take in E. cbn in E. rewrite <- E.
    destruct (decide (k ≤ length txs)%nat); [by rewrite Nat.min_l|]. rewrite Nat.min_r, !drop_ge by lia. done.
Qed.

Lemma drain_front_ok s n (txs : list transmit) : (n ≤ length txs)%nat →
  drain_front s (Z.of_nat n) (replicate n Taken ++ (Ready <$> drop n txs)) = Ret (s, Ready <$> drop n txs).
Proof.
  intros Hn. unfold drain_front. rewrite len_app. replace (len (replicate n (@Taken transmit))) with (Z.of_nat n) by (unfold len; by rewrite length_replicate). pose proof (len_nonneg (Ready <$> drop n txs)).
  destruct (Z.leb_spec (Z.of_nat n) (Z.of_nat n + len (Ready <$> drop n txs))); [|lia]. cbn [negb]. rewrite Nat2Z.id.
  rewrite take_app_length', drop_app_length' by (by rewrite length_replicate).
  replace (omap slot_as_ref (replicate n (@Taken transmit))) with ([] : list transmit); [done|]. clear. induction n; cbn; done.
Qed.

Lemma flush_loop_ok layout (fuel : nat) : ∀ s txs progressed, Inv s → (length txs ≤ fuel)%nat → Forall fine_tx txs →
  ∃ s' k r, flush_loop fuel layout s (Ready <$> txs) progressed = Ret (s', Ready <$> drop k txs, r) ∧ (k ≤ length txs)%nat ∧
    Inv s' ∧ log s' = log s ++ (emb <$> take k txs) ∧
    match r with Ok p => p = progressed || bool_decide (0 < k)%nat | Err e => ∃ se, e = AsyncSend se end.
Proof.
  induction fuel as [|fuel IH]; intros s txs progressed Hs Hlen HF; cbn [flush_loop].
  { destruct txs; [|cbn in Hlen; lia]. exists s, 0%nat, (Ok progressed). cbn. rewrite app_nil_r, orb_false_r. by split_and!. }
  destruct txs as [|tx0 txs0] eqn:Etxs.
  { exists s, 0%nat, (Ok progressed). cbn. rewrite app_nil_r, orb_false_r. by split_and!. }
  cbn [fmap list_fmap]. change (Ready tx0 :: (Ready <$> txs0)) with (Ready <$> (tx0 :: txs0)). rewrite <- Etxs in *.
  destruct (front_slice_split (layout fuel) txs) as (tf & tr & Hsplit & Hne & Hfront & Hback); [by rewrite Etxs|]. rewrite Hback, Hfront. clear Etxs tx0 txs0 Hback Hfront.
  rewrite Hsplit in HF. destruct (send_contract s (Ready <$> tf) Hs) as (s1 & f' & r & E & Hs1 & ([Ha0 Ha1] & _ & ->) & Hl1).
  { rewrite items_ready. apply Forall_app in HF. apply HF. }
  rewrite E. run. set (k := Z.to_nat (accepted_of r)) in *. assert (Hk : (k ≤ length tf)%nat) by (unfold len in Ha1; rewrite length_fmap in Ha1; lia).
  assert (Hkt : (k ≤ length txs)%nat) by (rewrite Hsplit, length_app; lia).
  assert (Hp : (replicate k Taken ++ drop k (Ready <$> tf)) ++ (Ready <$> tr) = replicate k Taken ++ (Ready <$> drop k txs)).
  { rewrite <- app_assoc, Hsplit, drop_app_le, fmap_app, <- fmap_drop by done. done. }
  assert (Hlog : log s1 = log s ++ (emb <$> take k txs)).
  { rewrite Hl1, <- fmap_take, items_ready, Hsplit, take_app_le by done. done. }
  rewrite Hp. destruct r as [n|e]; cbn [accepted_of] in *.
  - destruct (Z.eqb_spec n 0) as [->|Hn].
    + exists s1, 0%nat, (Ok progressed). cbn in Hlog |- *. rewrite drop_0, orb_false_r. by split_and!.
    + replace n with (Z.of_nat k) by lia. rewrite drain_front_ok by done. run.
      destruct (IH s1 (drop k txs) true Hs1) as (s' & j & r & E' & Hj & Hs' & Hl' & Hr).
      { rewrite length_drop. lia. } { rewrite Hsplit. by apply Forall_drop. }
      exists s', (k + j)%nat, r. rewrite E', drop_drop. rewrite length_drop in Hj. split_and!; [done|lia|done| |].
      * rewrite Hl', Hlog, <- app_assoc, <- fmap_app, take_take_drop. done.
      * destruct r as [p|e]; [|done]. rewrite Hr. cbn. rewrite bool_decide_true by lia. by rewrite orb_true_r.
  - destruct (Z.eqb_spec (se_accepted e) 0) as [E0|Hn]; cbn [negb].
    + exists s1, 0%nat, (Err (AsyncSend e)). unfold k in *. rewrite E0 in *. cbn in Hlog |- *. rewrite drop_0. split_and!; try done; try lia; by eexists.
    + replace (se_accepted e) with (Z.of_nat k) by lia. rewrite drain_front_ok by done. run. exists s1, k, (Err (AsyncSend e)). split_and!; try done. by eexists.
Qed.

Lemma flush_pending_ok layout s txs : Inv s → Forall fine_tx txs →
  ∃ s' k r, flush_pending_tx layout s (Ready <$> txs) = Ret (s', Ready <$> drop k txs, r) ∧ (k ≤ length txs)%nat ∧
    Inv s' ∧ log s' = log s ++ (emb <$> take k txs).
Proof.
  intros Hs HF. unfold flush_pending_tx. rewrite length_fmap.
  destruct (flush_loop_ok layout (length txs) s txs false Hs ltac:(done) HF) as (s1 & k & r & -> & Hk & Hs1 & Hl1 & _). run.
  destruct r as [[|]|e]; [|by exists s1, k, (Ok false)|by exists s1, k, (Err e)].
  destruct (ct_notify s1 Hs1) as (s2 & n & -> & Hs2 & Hl2 & _). run. rewrite <- Hl2 in Hl1. destruct n as [[]|e]; by eexists s2, k, _.
Qed.

(** ** Rounds *)
Abbreviation vars := (ActorVars Sk F B Meta).
Definition wrappers_of (cs : list (ActorCommand M F)) : list (Wrapper M F B Meta) := concat (command_wrappers <$> cs).
Definition transmits_of (cs : list (ActorCommand M F)) : list transmit := concat (command_transmits <$> cs).

Record actor_ok (a : vars) : Prop := mkActorOk {
  ao_inv : Inv (ac_socket a);
  ao_pending : ∃ txs, ac_pending a = Ready <$> txs ∧ Forall fine_tx txs;
  ao_recv : Forall (fine ∘ inr ∘ fst) (ac_recv a);
  ao_shutdown : ac_shutdown a = true → ac_commands_open a = false;
}.

(** Nothing is handled after a shutdown. *)
Definition shutdown_last (cs : list (ActorCommand M F)) : Prop := ∀ l c r, cs = l ++ c :: r → is_shutdown c = true → r = [].
Lemma shutdown_last_app cs1 cs2 : shutdown_last cs1 → shutdown_last cs2 → (existsb is_shutdown cs1 = true → cs2 = []) → shutdown_last (cs1 ++ cs2).
Proof.
  intros H1 H2 He l c r E Hc. apply app_eq_inv in E as [(k & E1 & E2)|(k & E1 & E2)]; [|by apply (H2 k c r)].
  destruct k as [|c' k]; [by apply (H2 [] c r)|]. cbn in E2. injection E2 as <- ->. rewrite He, app_nil_r; [by apply (H1 l c k)|].
  rewrite E1. apply existsb_exists. exists c. rewrite in_app_iff. cbn. auto.
Qed.

(** From [a] to [a'] the commands [cs] were handled and [out] left the actor;
    [x] and [x'] are the leases there are. *)
Record advance (a : vars) (x : Z) (a' : vars) (x' : Z) (out : list (Wrapper M F B Meta)) (cs : list (ActorCommand M F)) : Prop := mkAdvance {
  av_ok : actor_ok a';
  av_count : x' = x - len (wrappers_of cs) + len out;
  av_out : Forall wrapper_ok out;
  av_sent : ∃ sent, items (ac_pending a) ++ transmits_of cs = sent ++ items (ac_pending a') ∧
    log (ac_socket a') = log (ac_socket a) ++ (emb <$> sent);
  av_closed : ac_commands_open a = false → cs = [] ∧ ac_commands_open a' = false;
  av_shutdown : ac_shutdown a' = ac_shutdown a || existsb is_shutdown cs;
  av_last : shutdown_last cs;
  av_rx : ac_rx_open a = false → ac_rx_open a' = false;
}.

Lemma advance_refl a x : actor_ok a → advance a x a x [] [].
Proof.
  intros Ha. constructor; try done.
  - change (len (wrappers_of [])) with 0. change (len []) with 0. lia.
  - exists []. cbn. by rewrite !app_nil_r.
  - by rewrite orb_false_r.
  - intros [|] ? ?; done.
Qed.

Lemma advance_trans a x a1 x1 o1 cs1 a2 x2 o2 cs2 : advance a x a1 x1 o1 cs1 → advance a1 x1 a2 x2 o2 cs2 →
  advance a x a2 x2 (o1 ++ o2) (cs1 ++ cs2).
Proof.
  intros [A1 A2 A3 (s1 & A4 & A5) A6 A7 A8 A9] [B1 B2 B3 (s2 & B4 & B5) B6 B7 B8 B9]. constructor; try done.
  - unfold wrappers_of in *. rewrite fmap_app, concat_app, !len_app. lia.
  - by apply Forall_app.
  - exists (s1 ++ s2). unfold transmits_of in *. rewrite fmap_app, concat_app, app_assoc, A4, <- app_assoc, B4, B5, A5, fmap_app, !app_assoc. done.
  - intros Hc. destruct (A6 Hc) as [-> Hc1]. destruct (B6 Hc1) as [-> ?]. done.
  - by rewrite B7, A7, existsb_app, orb_assoc.
  - apply shutdown_last_app; [done|done|]. intros He. apply B6, (ao_shutdown _ A1). by rewrite A7, He, orb_true_r.
  - auto.
Qed.

Lemma items_ready_pending a : actor_ok a → ac_pending a = Ready <$> items (ac_pending a) ∧ Forall fine_tx (items (ac_pending a)).
Proof. intros [_ (txs & -> & HF) _ _]. by rewrite items_ready. Qed.

(** A change of socket that sends nothing, and of what waits in the batch. *)
Lemma advance_socket a x s recv rx : actor_ok a → Inv s → log s = log (ac_socket a) → Forall (fine ∘ inr ∘ fst) recv →
  (ac_rx_open a = false → rx = false) →
  advance a x (mkActor s (ac_pending a) recv rx (ac_commands_open a) (ac_shutdown a)) x [] [].
Proof.
  intros [H1 H2 H3 H4] Hs Hl Hr Hrx. constructor; try done.
  - change (len (wrappers_of [])) with 0. change (len []) with 0. lia.
  - exists []. cbn. by rewrite !app_nil_r.
  - by rewrite orb_false_r.
  - intros [|] ? ?; done.
Qed.

Lemma advance_out a x a' x' out : Forall wrapper_ok out → advance a x a' x' [] [] → advance a x a' (x' + len out) out [].
Proof. intros Ho [A1 A2 A3 A4 A5 A6 A7 A8]. constructor; try done. rewrite A2. change (len []) with 0. lia. Qed.

Lemma advance_close a x : actor_ok a →
  advance a x (mkActor (ac_socket a) (ac_pending a) (ac_recv a) (ac_rx_open a) false (ac_shutdown a)) x [] [].
Proof.
  intros [H1 H2 H3 H4]. constructor; try done.
  - change (len (wrappers_of [])) with 0. change (len []) with 0. lia.
  - exists []. cbn. by rewrite !app_nil_r.
  - by rewrite orb_false_r.
  - intros [|] ? ?; done.
Qed.

Lemma command_advance a x c : actor_ok a → ac_commands_open a = true → ac_shutdown a = false → Forall wrapper_ok (command_wrappers c) →
  ∃ s' pending' out x', handle_command (ac_socket a) (wrap 64 x) c (ac_pending a) = Ret (s', wrap 64 x', pending', out, is_shutdown c) ∧
    advance a x (if is_shutdown c then mkActor s' pending' (ac_recv a) (ac_rx_open a) false true else with_socket_pending a s' pending') x' out [c].
Proof.
  intros Ha Hop Hsh Hw. destruct (items_ready_pending a Ha) as [Hp HF]. destruct Ha as [H1 _ H3 H4].
  destruct (handle_command_ok (ac_socket a) x c (ac_pending a) H1 Hw) as (s' & out & E & Hs' & Hl' & Ho & Ht).
  exists s', (ac_pending a ++ (Ready <$> command_transmits c)), out. eexists. split; [exact E|].
  assert (Hok : ∃ txs, ac_pending a ++ (Ready <$> command_transmits c) = Ready <$> txs ∧ Forall fine_tx txs).
  { exists (items (ac_pending a) ++ command_transmits c). rewrite fmap_app, <- Hp. split; [done|]. by apply Forall_app. }
  constructor.
  - destruct (is_shutdown c); by constructor.
  - unfold wrappers_of. cbn. by rewrite app_nil_r.
  - done.
  - exists []. unfold transmits_of. cbn [fmap list_fmap concat app]. rewrite !app_nil_r, <- Hl'.
    destruct (is_shutdown c); cbn [ac_pending ac_socket with_socket_pending]; by rewrite items_app, items_ready.
  - congruence.
  - rewrite Hsh. cbn. rewrite orb_false_r. destruct (is_shutdown c); [done|]. exact Hsh.
  - intros [|? [|]] ? ? [=] ?; done.
  - destruct (is_shutdown c); done.
Qed.

Definition try_ok (t : TryRecv M F) : Prop := match t with TryCommand c => Forall wrapper_ok (command_wrappers c) | _ => True end.

Lemma command_loop_ok config tries : ∀ a x progressed, actor_ok a → Forall try_ok tries →
  ∃ a' x' out cs p, command_loop config tries a (wrap 64 x) progressed = Ret (a', wrap 64 x', out, cs, p) ∧ advance a x a' x' out cs.
Proof.
  induction tries as [|t tries IH]; intros a x progressed Ha HF; cbn [command_loop];
    destruct (ac_commands_open a && negb (ac_shutdown a) && _) eqn:Hgo; try (eexists a, x, [], [], progressed; split; [reflexivity|by apply advance_refl]).
  apply Forall_cons in HF as [Ht HF]. apply andb_prop in Hgo as [[Hop Hsh%negb_true_iff]%andb_prop _].
  destruct t as [c| |]; [|eexists a, x, [], [], progressed; split; [reflexivity|by apply advance_refl]|eexists _, x, [], [], progressed; split; [reflexivity|by apply advance_close]].
  destruct (command_advance a x c Ha Hop Hsh Ht) as (s' & pending' & out & x' & -> & Hadv). run. destruct (is_shutdown c).
  - eexists _, x', out, [c], true. by split.
  - destruct (IH (with_socket_pending a s' pending') x' true (av_ok _ _ _ _ _ _ Hadv) HF) as (a2 & x2 & out2 & cs & p & E & Hadv2). unfold with_socket_pending in E. rewrite E. run.
    eexists a2, x2, (out ++ out2), (c :: cs), p. split; [done|]. by apply (advance_trans _ _ _ _ _ [c] _ _ _ cs Hadv Hadv2).
Qed.

Lemma flush_advance layout a x : actor_ok a →
  ∃ s' pending' r, flush_pending_tx layout (ac_socket a) (ac_pending a) = Ret (s', pending', r) ∧
    advance a x (with_socket_pending a s' pending') x [] [].
Proof.
  intros Ha. destruct (items_ready_pending a Ha) as [Hp HF]. destruct Ha as [H1 _ H3 H4].
  destruct (flush_pending_ok layout (ac_socket a) (items (ac_pending a)) H1 HF) as (s' & k & r & E & Hk & Hs' & Hl').
  exists s', (Ready <$> drop k (items (ac_pending a))), r. split; [by rewrite <- Hp in E|]. constructor; try done.
  - constructor; try done. exists (drop k (items (ac_pending a))). split; [done|]. by apply Forall_drop.
  - change (len (wrappers_of [])) with 0. change (len []) with 0. lia.
  - exists (take k (items (ac_pending a))). cbn [ac_pending with_socket_pending]. rewrite items_ready, take_drop. change (transmits_of []) with (@nil transmit). by rewrite app_nil_r.
  - by rewrite orb_false_r.
  - intros [|] ? ?; done.
Qed.

Lemma transmit_phase_ok inp a x : actor_ok a →
  ∃ a' r, transmit_phase inp a = Ret (a', r) ∧ advance a x a' x [] [].
Proof.
  intros Ha. unfold transmit_phase. destruct (flush_advance (ri_layout1 inp) a x Ha) as (s1 & p1 & r1 & -> & H1). run.
  destruct r1 as [q1|e]; [|by eexists _, _]. set (a1 := with_socket_pending a s1 p1) in *. pose proof (av_ok _ _ _ _ _ _ H1) as Ha1.
  destruct (ct_drain s1 (ao_inv _ Ha1)) as (s2 & d & -> & Hs2 & Hl2 & _). run.
  assert (H2 : advance a x (with_socket_pending a s2 p1) x [] []).
  { apply (advance_trans _ _ _ _ [] [] _ _ [] [] H1). apply (advance_socket a1 x s2 (ac_recv a1) (ac_rx_open a1)); try done. apply (ao_recv _ Ha1). }
  destruct d as [n|e]; [|by eexists _, _]. set (a2 := with_socket_pending a s2 p1) in *.
  destruct (flush_advance (ri_layout2 inp) a2 x (av_ok _ _ _ _ _ _ H2)) as (s3 & p3 & r3 & E & H3). cbn [ac_socket ac_pending a2 with_socket_pending] in E. rewrite E. run.
  pose proof (advance_trans _ _ _ _ _ _ _ _ _ _ H2 H3) as H4. destruct r3; by eexists _, _.
Qed.

Lemma receive_phase_ok config inp a x : actor_ok a → 1 ≤ recv_batch_size config →
  ∃ a' x' out r, receive_phase config inp a (wrap 64 x) = Ret (a', wrap 64 x', out, r) ∧ advance a x a' x' out [].
Proof.
  intros Ha Hc. unfold receive_phase. destruct (ac_rx_open a && negb (ac_shutdown a)); [|eexists a, x, [], _; split; [reflexivity|by apply advance_refl]].
  destruct (drop_buffers_ok (inr ∘ fst <$> ac_recv a) (ac_socket a)) as (s1 & -> & Hs1 & Hl1); [apply Ha|apply Forall_fmap, Ha|]. run.
  destruct (ct_recv s1 (recv_batch_size config) Hs1 Hc) as (s2 & items & r & -> & Hs2 & Hl2 & HF). run. cbn [rb_items].
  assert (Hadv : ∀ recv, Forall (fine ∘ inr ∘ fst) recv → advance a x (mkActor s2 (ac_pending a) recv (ac_rx_open a) (ac_commands_open a) (ac_shutdown a)) x [] []).
  { intros recv Hr. apply advance_socket; try done. congruence. }
  destruct r as [n|e].
  2:{ destruct e; eexists _, x, [], _; (split; [reflexivity|by apply Hadv]). }
  destruct (n =? 0); [eexists _, x, [], _; split; [reflexivity|by apply Hadv]|].
  destruct (rx_wrapped_ok items x) as (ps & -> & _ & Hlen & Hps). specialize (Hps HF). destruct (ri_rx_accepted inp).
  - eexists _, (x + len items), (WrapRxPacket <$> ps), _. split; [reflexivity|]. rewrite <- Hlen, <- (len_fmap (WrapRxPacket (M := M) (F := F))). by apply advance_out, Hadv.
  - destruct (drop_wrappers_ok (WrapRxPacket <$> ps) s2 (x + len items) Hs2 Hps) as (s3 & -> & Hs3 & Hl3). run. eexists _, x, [], _. split.
    + rewrite len_fmap, Hlen, Z.add_simpl_r. reflexivity.
    + apply advance_socket; try done. congruence.
Qed.

Definition wait_ok (w : WaitAnswer M F) : Prop := match w with WaitCommand (Some c) => Forall wrapper_ok (command_wrappers c) | _ => True end.

Lemma wait_phase_ok inp a x : actor_ok a → wait_ok (ri_select inp) →
  ∃ a' x' out cs r, wait_phase inp a (wrap 64 x) = Ret (a', wrap 64 x', out, cs, r) ∧ advance a x a' x' out cs.
Proof.
  intros Ha Hw. unfold wait_phase. assert (Hread : ∀ rd : result unit string, ∃ a' x' out cs r,
    match rd with Ok _ => Ret (a, wrap 64 x, [], [], Ok tt) | Err e => Ret (a, wrap 64 x, [], [], Err (AsyncIo e)) end = Ret (a', wrap 64 x', out, cs, r) ∧ advance a x a' x' out cs).
  { intros [|]; eexists a, x, [], [], _; (split; [reflexivity|by apply advance_refl]). }
  destruct (ac_commands_open a && negb (ac_shutdown a)) eqn:Hgo; [|apply Hread]. apply andb_prop in Hgo as [Hop Hsh%negb_true_iff].
  destruct (ri_select inp) as [[c|]|rd]; [| |apply Hread].
  - destruct (command_advance a x c Ha Hop Hsh Hw) as (s' & pending' & out & x' & -> & Hadv). run. eexists _, x', out, [c], _. split; [reflexivity|exact Hadv].
  - eexists _, x, [], [], _. split; [reflexivity|by apply advance_close].
Qed.

(** What the runtime may answer: the commands it delivers hold wrappers that
    are outside the actor. *)
Definition round_ok (inp : RoundInput M F) : Prop := Forall try_ok (ri_tries inp) ∧ wait_ok (ri_select inp).

Lemma actor_round_ok config inp a x : actor_ok a → round_ok inp → 1 ≤ recv_batch_size config →
  ∃ a' x' out cs r, actor_round config inp a (wrap 64 x) = Ret (a', wrap 64 x', out, cs, r) ∧ advance a x a' x' out cs ∧
    (r = Some (Ok tt) → ac_pending a' = [] ∧ (ac_shutdown a' = true ∨ ac_commands_open a' = false ∧ ac_rx_open a' = false)).
Proof.
  intros Ha [Ht Hw] Hc. unfold actor_round.
  destruct (command_loop_ok config (ri_tries inp) a x false Ha Ht) as (a1 & x1 & o1 & cs1 & p1 & -> & H1). run.
  destruct (transmit_phase_ok inp a1 x1 (av_ok _ _ _ _ _ _ H1)) as (a2 & r2 & -> & H2). run.
  pose proof (advance_trans _ _ _ _ _ _ _ _ _ _ H1 H2) as H12. rewrite !app_nil_r in H12.
  destruct r2 as [p2|e]; [|eexists a2, x1, o1, cs1, _; by split_and!].
  destruct (receive_phase_ok config inp a2 x1 (av_ok _ _ _ _ _ _ H12) Hc) as (a3 & x3 & o3 & r3 & -> & H3). run.
  pose proof (advance_trans _ _ _ _ _ _ _ _ _ _ H12 H3) as H13. rewrite app_nil_r in H13.
  destruct r3 as [p3|e]; [|eexists a3, x3, (o1 ++ o3), cs1, _; by split_and!].
  destruct ((ac_shutdown a3 || _) && _) eqn:Hend.
  - eexists a3, x3, (o1 ++ o3), cs1, _. split_and!; [done|done|]. intros _. apply andb_prop in Hend as [Hc1 Hp%Z.eqb_eq]. split; [apply nil_length_inv; unfold len in Hp; lia|].
    apply orb_prop in Hc1 as [?|[?%negb_true_iff ?%negb_true_iff]%andb_prop]; auto.
  - destruct (p1 || p2 || p3); [eexists a3, x3, (o1 ++ o3), cs1, _; by split_and!|].
    destruct (wait_phase_ok inp a3 x3 (av_ok _ _ _ _ _ _ H13) Hw) as (a4 & x4 & o4 & cs4 & r4 & -> & H4). run.
    pose proof (advance_trans _ _ _ _ _ _ _ _ _ _ H13 H4) as H14. rewrite <- app_assoc in H14. eexists a4, x4, (o1 ++ o3 ++ o4), (cs1 ++ cs4), _.
    split_and!; [reflexivity|done|]. by destruct r4.
Qed.
End Socket.
