(* ===== verification/ActorMain.v ===== *)
(** * Properties of the asynchronous actor

    The actor's rounds, interleaved with what the application does with the
    wrappers it holds on other threads, down to the atomic steps of releasing
    a lease and of waiting for the last one. *)
From S2P Require Import Prelude Core Buffer Endpoint BufferSpec EndpointProofs EndpointMain Actor ActorProofs.
Open Scope Z_scope.

(** [run_actor]: the loop, then [wait_for_buffers] about to load the count,
    about to create the notification future, and waiting on it; then the
    socket is dropped. *)
Inductive Phase :=
  | Running
  | WaitCheck (r : result unit AsyncUdpError)
  | WaitArm (r : result unit AsyncUdpError)
  | WaitAsleep (r : result unit AsyncUdpError)
  | Gone (r : result unit AsyncUdpError).

Section System.
Context {Sk M F B Meta L : Type} `{!ActorSocket Sk M F B Meta}.
Variables (Inv : Sk → Prop) (fine : M + F + B → Prop) (log : Sk → list L) (emb : UdpTransmit F → L).
Abbreviation vars := (ActorVars Sk F B Meta).
Abbreviation wrapper := (Wrapper M F B Meta).
Abbreviation command := (ActorCommand M F).

Record Sys := mkSys {
  sy_actor : vars;
  sy_count : Z; (** [outstanding_buffers] *)
  sy_out : list wrapper; (** the wrappers outside the actor, also those in channels *)
  sy_notify : nat; (** releases that are about to call [notify_waiters] *)
  sy_phase : Phase;
  sy_handled : list command; (** the commands handled so far *)
}.

(** What the application does with a wrapper it keeps. *)
Inductive app_edit : wrapper → wrapper → Prop :=
  | edit_tx m m' l : fine (inl (inl m')) → app_edit (WrapTxBuffer (mkTxBuffer (Some m) l)) (WrapTxBuffer (mkTxBuffer (Some m') l))
  | edit_rx b b' meta l : fine (inr b') → app_edit (WrapRxPacket (mkRxPacket (Some b) meta l)) (WrapRxPacket (mkRxPacket (Some b') meta l))
  | edit_freeze b destination p : tx_buffer_freeze b destination = Ret p → app_edit (WrapTxBuffer b) (WrapTxPacket p)
  | edit_into p destination p' : rx_packet_into_transmit p destination = Ret p' → app_edit (WrapRxPacket p) (WrapTxPacket p')
  | edit_meta p meta : app_edit (WrapTxPacket p) (WrapTxPacket (mkTxPacket (xp_packet p) meta (xp_lease p))).

Definition woken (p : Phase) : Phase := match p with WaitAsleep r => WaitCheck r | _ => p end.

(** The commands the runtime delivers hold wrappers from outside. *)
Definition command_outside (out : list wrapper) (c : command) : Prop := command_wrappers c ⊆ out.
Definition inputs_outside (out : list wrapper) (inp : RoundInput M F) : Prop :=
  Forall (λ t, match t with TryCommand c => command_outside out c | _ => True end) (ri_tries inp) ∧
  match ri_select inp with WaitCommand (Some c) => command_outside out c | _ => True end.

Inductive sys_step (config : ActorConfig) : Sys → Sys → Prop :=
  | step_round a count out notify handled inp a' count' new cs rest :
      inputs_outside out inp → actor_round config inp a count = Ret (a', count', new, cs, None) → Permutation out (wrappers_of cs ++ rest) →
      len (rest ++ new) < 2 ^ 64 →
      sys_step config (mkSys a count out notify Running handled) (mkSys a' count' (rest ++ new) notify Running (handled ++ cs))
  | step_finish a count out notify handled inp a' count' new cs rest r a2 :
      inputs_outside out inp → actor_round config inp a count = Ret (a', count', new, cs, Some r) → Permutation out (wrappers_of cs ++ rest) →
      len (rest ++ new) < 2 ^ 64 → actor_finish a' = Ret a2 →
      sys_step config (mkSys a count out notify Running handled) (mkSys a2 count' (rest ++ new) notify (WaitCheck r) (handled ++ cs))
  | step_edit a count l1 w w' l2 notify phase handled :
      app_edit w w' →
      sys_step config (mkSys a count (l1 ++ w :: l2) notify phase handled) (mkSys a count (l1 ++ w' :: l2) notify phase handled)
  | step_drop a count l1 w l2 notify phase handled s' :
      drop_buffer (ac_socket a) w = Ret s' →
      sys_step config (mkSys a count (l1 ++ w :: l2) notify phase handled)
        (mkSys (with_socket_pending a s' (ac_pending a)) (release count (wrapper_lease w)).1 (l1 ++ l2)
           (if (release count (wrapper_lease w)).2 then S notify else notify) phase handled)
  | step_notify a count out notify phase handled :
      sys_step config (mkSys a count out (S notify) phase handled) (mkSys a count out notify (woken phase) handled)
  | step_check a count out notify r handled :
      sys_step config (mkSys a count out notify (WaitCheck r) handled)
        (mkSys a count out notify (if count =? 0 then Gone r else WaitArm r) handled)
  | step_arm a count out notify r handled :
      sys_step config (mkSys a count out notify (WaitArm r) handled) (mkSys a count out notify (WaitAsleep r) handled).

Inductive sys_reach (config : ActorConfig) (s0 : Sk) : Sys → Prop :=
  | reach_start : sys_reach config s0 (mkSys (actor_start s0) 0 [] 0 Running [])
  | reach_step s s' : sys_reach config s0 s → sys_step config s s' → sys_reach config s0 s'.

(** ** The invariant *)
Definition finished_ok (a : vars) : Prop := ac_shutdown a = true ∨ ac_commands_open a = false ∧ ac_rx_open a = false.
Definition phase_ok (a : vars) (p : Phase) (out : list wrapper) (lost : list (UdpTransmit F)) : Prop :=
  match p with
  | Running => lost = items (ac_pending a)
  | WaitCheck r | WaitArm r | WaitAsleep r => ac_pending a = [] ∧ (r = Ok tt → lost = [] ∧ finished_ok a)
  | Gone r => ac_pending a = [] ∧ (r = Ok tt → lost = [] ∧ finished_ok a) ∧ out = []
  end.

Record sys_inv (s0 : Sk) (s : Sys) : Prop := mkSysInv {
  si_actor : actor_ok Inv fine (sy_actor s);
  si_count : sy_count s = len (sy_out s) ∧ len (sy_out s) < 2 ^ 64;
  si_out : Forall (wrapper_ok fine) (sy_out s);
  si_sent : ∃ sent lost, transmits_of (sy_handled s) = sent ++ lost ∧ log (ac_socket (sy_actor s)) = log s0 ++ (emb <$> sent) ∧
    phase_ok (sy_actor s) (sy_phase s) (sy_out s) lost;
  si_shutdown : ac_shutdown (sy_actor s) = existsb is_shutdown (sy_handled s);
  si_last : shutdown_last (sy_handled s);
}.
Context `{!ActorContract Inv fine log emb}.

Lemma outside_ok out inp : Forall (wrapper_ok fine) out → inputs_outside out inp → round_ok (Meta := Meta) fine inp.
Proof.
  intros Ho [Ht Hs]. assert (Hc : ∀ c, command_outside out c → Forall (wrapper_ok (Meta := Meta) fine) (command_wrappers c)).
  { intros c Hc. rewrite Forall_forall in Ho |- *. auto. }
  split.
  - eapply Forall_impl; [exact Ht|]. intros [c| |]; cbn; auto.
  - destruct (ri_select inp) as [[c|]|]; cbn; auto.
Qed.

(** One round from a state of the invariant. *)
Lemma round_inv config s0 a count out notify handled inp : 1 ≤ recv_batch_size config →
  sys_inv s0 (mkSys a count out notify Running handled) → inputs_outside out inp →
  ∃ a' count' new cs r, actor_round config inp a count = Ret (a', count', new, cs, r) ∧
    ∀ rest, Permutation out (wrappers_of cs ++ rest) → len (rest ++ new) < 2 ^ 64 →
      sys_inv s0 (mkSys a' count' (rest ++ new) notify Running (handled ++ cs)) ∧ (r = Some (Ok tt) → ac_pending a' = [] ∧ finished_ok a').
Proof.
  intros Hc [Ha [Hn1 Hn2] Ho (sent & lost & Hs1 & Hs2 & Hs3) Hsh Hlast] Hin. cbn in Hn1, Hn2, Ho, Hs1, Hs2, Hs3, Hsh, Hlast.
  destruct (actor_round_ok Inv fine log emb config inp a (len out) Ha (outside_ok out inp Ho Hin) Hc) as (a' & x' & new & cs & r & E & [V1 V2 V3 (sent' & V4 & V5) V6 V7 V8 V9] & Hend).
  rewrite wrap_small in E by (pose proof (len_nonneg out); unfold fits; lia). rewrite Hn1. exists a', (wrap 64 x'), new, cs, r. split; [exact E|].
  intros rest Hp Hb. split; [|exact Hend]. assert (Hx : x' = len (rest ++ new)).
  { rewrite V2, len_app. assert (len out = len (wrappers_of (B := B) (Meta := Meta) cs) + len rest) as ->; [|lia]. unfold len. rewrite Hp, length_app. lia. }
  constructor; cbn; try done.
  - rewrite Hx. split; [|done]. apply wrap_small. split; [apply len_nonneg|done].
  - apply Forall_app. split; [|done]. rewrite Hp, Forall_app in Ho. apply Ho.
  - exists (sent ++ sent'), (items (ac_pending a')). unfold transmits_of in *. rewrite fmap_app, concat_app, Hs1, Hs3, <- app_assoc, V4, app_assoc. split; [done|].
    split; [|done]. rewrite V5, Hs2, fmap_app, app_assoc. done.
  - by rewrite V7, Hsh, existsb_app.
  - apply shutdown_last_app; [done|done|]. intros He. rewrite He in Hsh. apply V6, (ao_shutdown _ _ _ Ha Hsh).
Qed.

(** The end of the loop drops what is left in the batch and in the queue. *)
Lemma finish_inv s0 a count out notify handled r a2 :
  sys_inv s0 (mkSys a count out notify Running handled) → (r = Ok tt → ac_pending a = [] ∧ finished_ok a) → actor_finish a = Ret a2 →
  sys_inv s0 (mkSys a2 count out notify (WaitCheck r) handled).
Proof.
  intros [Ha Hn Ho (sent & lost & Hs1 & Hs2 & Hs3) Hsh Hlast] Hr Hf. cbn in *. destruct (items_ready_pending Inv fine a Ha) as [Hp HF].
  destruct (drop_buffers_ok Inv fine log emb ((inr ∘ fst <$> ac_recv a) ++ (inl ∘ inr ∘ ut_packet <$> items (ac_pending a))) (ac_socket a)) as (s' & E & Hs' & Hl').
  { apply Ha. } { apply Forall_app. split; apply Forall_fmap; [apply Ha|exact HF]. }
  unfold actor_finish in Hf. unfold items in E. rewrite E in Hf. injection Hf as <-.
  constructor; cbn; try done.
  - destruct Ha as [? ? ? ?]. constructor; cbn; try done. by exists [].
  - exists sent, lost. split; [done|]. split; [congruence|]. split; [done|]. intros Hok. destruct (Hr Hok) as [Hp0 Hfin]. split; [|exact Hfin].
    rewrite Hs3, Hp0. done.
Qed.

Lemma app_edit_ok w w' : wrapper_ok (Meta := Meta) fine w → app_edit w w' → wrapper_ok (Meta := Meta) fine w'.
Proof.
  intros (Hl & b & Hb & Hf) He. destruct He as [m m' l Hm|b0 b' meta l Hb'|[[m|] l] d p E|[[b0|] meta l] d p' E|[[f|] meta0 l] meta]; cbn in *; simplify_eq; split; try done;
    eexists; (split; [reflexivity|]); try done; cbn; [by apply (ct_freeze Inv fine log emb)|by apply (ct_freeze_rx Inv fine log emb)].
Qed.

Lemma drop_inv s0 a count l1 w l2 notify phase handled s' :
  sys_inv s0 (mkSys a count (l1 ++ w :: l2) notify phase handled) → drop_buffer (ac_socket a) w = Ret s' →
  sys_inv s0 (mkSys (with_socket_pending a s' (ac_pending a)) (release count (wrapper_lease w)).1 (l1 ++ l2)
           (if (release count (wrapper_lease w)).2 then S notify else notify) phase handled).
Proof.
  intros [Ha [Hn1 Hn2] Ho (sent & lost & Hs1 & Hs2 & Hs3) Hsh Hlast] Hd. cbn in *.
  apply Forall_app in Ho as [Ho1 [(Hl & b & Hb & Hf) Ho2]%Forall_cons]. unfold drop_buffer in Hd. rewrite Hb in Hd.
  destruct (ct_drop Inv fine log emb (ac_socket a) b (ao_inv _ _ _ Ha) Hf) as (s1 & E & Hs & Hlog). rewrite E in Hd. injection Hd as ->.
  rewrite len_app, len_cons in Hn1, Hn2. pose proof (len_nonneg l1). pose proof (len_nonneg l2). constructor; cbn; try done.
  - destruct Ha as [? ? ? ?]. by constructor.
  - rewrite Hl, len_app. split; [|lia]. cbn. unfold wrapping_sub. rewrite wrap_small; unfold fits; lia.
  - by apply Forall_app.
  - exists sent, lost. split; [done|]. split; [congruence|]. destruct phase; cbn in *; try done. destruct Hs3 as (_ & _ & E0). by destruct l1.
Qed.

Lemma phase_inv s0 a count out notify notify' p p' handled :
  sys_inv s0 (mkSys a count out notify p handled) → (∀ lost, phase_ok a p out lost → phase_ok a p' out lost) →
  sys_inv s0 (mkSys a count out notify' p' handled).
Proof. intros [H1 H2 H3 (sent & lost & H4 & H5 & H6) H7 H8] Hp. constructor; cbn in *; try done. exists sent, lost. split_and!; auto. Qed.

Lemma step_inv config s0 s s' : 1 ≤ recv_batch_size config → sys_inv s0 s → sys_step config s s' → sys_inv s0 s'.
Proof.
  intros Hc Hi Hst. destruct Hst as [a count out notify handled inp a' count' new cs rest Hin E Hp Hb
    |a count out notify handled inp a' count' new cs rest r a2 Hin E Hp Hb Hf|a count l1 w w' l2 notify phase handled He
    |a count l1 w l2 notify phase handled s' Hd|a count out notify phase handled|a count out notify r handled|a count out notify r handled].
  - destruct (round_inv config s0 a count out notify handled inp Hc Hi Hin) as (a1 & c1 & n1 & cs1 & r1 & E1 & H1). rewrite E in E1. injection E1 as <- <- <- <- <-. by apply H1.
  - destruct (round_inv config s0 a count out notify handled inp Hc Hi Hin) as (a1 & c1 & n1 & cs1 & r1 & E1 & H1). rewrite E in E1. injection E1 as <- <- <- <- <-.
    destruct (H1 rest Hp Hb) as [H2 H3]. apply (finish_inv s0 a' count' (rest ++ new) notify (handled ++ cs) r a2 H2); [|done]. intros ->. by apply H3.
  - destruct Hi as [H1 [H2 H2'] H3 H4 H5 H6]. cbn in *. rewrite len_app, len_cons in H2, H2'. apply Forall_app in H3 as [Ho1 [How Ho2]%Forall_cons]. constructor; cbn; try done.
    + by rewrite len_app, len_cons.
    + apply Forall_app. split; [done|]. constructor; [by apply (app_edit_ok w)|done].
    + destruct H4 as (sent & lost & ? & ? & Hph). exists sent, lost. split_and!; try done. destruct phase; cbn in *; try done. destruct Hph as (? & ? & E0). by destruct l1.
  - by apply drop_inv.
  - apply (phase_inv _ _ _ _ _ _ _ _ _ Hi). by destruct phase.
  - apply (phase_inv _ _ _ _ _ _ _ _ _ Hi). intros lost [H1 H2]. destruct (Z.eqb_spec count 0) as [->|_]; [|done]. split_and!; try done.
    destruct Hi as [_ [H3 _] _ _ _ _]. cbn in H3. destruct out; [done|]. rewrite len_cons in H3. pose proof (len_nonneg out). lia.
  - by apply (phase_inv _ _ _ _ _ _ _ _ _ Hi).
Qed.

Lemma reach_inv config s0 s : 1 ≤ recv_batch_size config → Inv s0 → sys_reach config s0 s → sys_inv s0 s.
Proof.
  intros Hc Hs0 Hr. induction Hr as [|s s' _ IH Hst]; [|by apply (step_inv config s0 s s')]. constructor; cbn; try done.
  - constructor; cbn; try done. by exists [].
  - exists [], []. cbn. by rewrite app_nil_r.
  - intros [|] ? ?; done.
Qed.

Lemma normalize_recv config : 1 ≤ recv_batch_size (normalize config).
Proof. cbn. lia. Qed.

Lemma round_returns config s0 a count out notify handled inp : sys_inv s0 (mkSys a count out notify Running handled) → inputs_outside out inp →
  ∃ a' count' new cs r, actor_round (normalize config) inp a count = Ret (a', count', new, cs, r) ∧ (r = Some (Ok tt) → ac_pending a' = [] ∧ finished_ok a').
Proof.
  intros [Ha [Hn1 Hn2] Ho _ _ _] Hin. cbn in *. pose proof (len_nonneg out).
  destruct (actor_round_ok Inv fine log emb (normalize config) inp a (len out) Ha (outside_ok out inp Ho Hin) (normalize_recv config)) as (a' & x' & new & cs & r & E & _ & Hend).
  rewrite wrap_small in E by (unfold fits; lia). rewrite Hn1. by exists a', (wrap 64 x'), new, cs, r.
Qed.

Lemma last_drop s0 a count w notify phase handled : sys_inv s0 (mkSys a count [w] notify phase handled) →
  count = 1 ∧ ∃ s', drop_buffer (ac_socket a) w = Ret s' ∧ release 1 (wrapper_lease w) = (0, true).
Proof.
  intros [Ha [Hn _] Ho _ _ _]. cbn in *. split; [done|]. apply Forall_cons in Ho as [(Hl & b & Hb & Hf) _].
  destruct (ct_drop Inv fine log emb _ b (ao_inv _ _ _ Ha) Hf) as (s' & E & _). exists s'. unfold drop_buffer. by rewrite Hb, Hl.
Qed.

(** ** Theorems *)

(** C10. At every point of a run of an actor, the commands it has handled hold
    nothing after a shutdown, and the requests of these commands, in the order
    they were queued, are the requests its socket has sent, in that order and
    each exactly once, followed by those that still wait; after the actor has
    ended without an error none is left. While it runs, a round returns for
    every answer of the runtime, and one that ends the actor without an error
    leaves nothing unsent and follows a shutdown or the close of both
    channels. *)
Theorem actor_sends_in_order config s0 s : Inv s0 → sys_reach (normalize config) s0 s →
  shutdown_last (sy_handled s) ∧
  (∃ sent rest, transmits_of (sy_handled s) = sent ++ rest ∧ log (ac_socket (sy_actor s)) = log s0 ++ (emb <$> sent) ∧
    match sy_phase s with
    | Running => rest = items (ac_pending (sy_actor s))
    | WaitCheck r | WaitArm r | WaitAsleep r | Gone r => r = Ok tt → rest = []
    end) ∧
  (sy_phase s = Running → ∀ inp, inputs_outside (sy_out s) inp →
    ∃ a' count' new cs r, actor_round (normalize config) inp (sy_actor s) (sy_count s) = Ret (a', count', new, cs, r) ∧
      (r = Some (Ok tt) → ac_pending a' = [] ∧ finished_ok a')).
Proof.
  intros Hs0 Hr. pose proof (reach_inv (normalize config) s0 s (normalize_recv config) Hs0 Hr) as Hi. split; [apply Hi|]. split.
  - destruct (si_sent _ _ Hi) as (sent & lost & H1 & H2 & H3). exists sent, lost. split; [done|]. split; [done|].
    destruct (sy_phase s); cbn in H3; [done| | | |]; intros Hok; by apply H3.
  - intros Hrun inp Hin. destruct s as [a count out notify phase handled]. cbn in *. subst phase. by apply (round_returns config s0 a count out notify handled).
Qed.

(** C35. The count of outstanding buffers is, at every point, the number of
    wrappers outside the actor: each of them holds its lease and a buffer whose
    drop returns. When the socket is dropped no wrapper is left. *)
Theorem actor_leases_safe config s0 s : Inv s0 → sys_reach (normalize config) s0 s →
  sy_count s = len (sy_out s) ∧
  (∀ w, w ∈ sy_out s → wrapper_lease w = true ∧ is_Some (wrapper_buffer w) ∧ ∃ sk, drop_buffer (ac_socket (sy_actor s)) w = Ret sk) ∧
  (∀ r, sy_phase s = Gone r → sy_out s = []).
Proof.
  intros Hs0 Hr. pose proof (reach_inv (normalize config) s0 s (normalize_recv config) Hs0 Hr) as Hi. split; [apply Hi|]. split.
  - intros w Hw. pose proof (si_out _ _ Hi) as Ho. rewrite Forall_forall in Ho. pose proof (Ho w Hw) as Hok. destruct (Hok) as (Hl & b & Hb & Hf). split; [done|]. split; [by exists b|].
    unfold drop_buffer. rewrite Hb. destruct (ct_drop Inv fine log emb _ b (ao_inv _ _ _ (si_actor _ _ Hi)) Hf) as (sk & E & _). by exists sk.
  - intros r Hg. destruct (si_sent _ _ Hi) as (sent & lost & _ & _ & H3). rewrite Hg in H3. apply H3.
Qed.

(** The wait for the last buffer can be lost: [wait_for_buffers] loads the
    count before it creates the future that the release of the last lease
    notifies, and that notification is not kept. From an actor that has ended
    while one wrapper is out, the drop of the wrapper between the two leaves
    the actor asleep with no wrapper outside, no lease counted and no step that
    anything could take, so that it never ends; the drop after the two wakes
    it, and it ends. *)
Theorem actor_lost_wakeup config s0 s r w : Inv s0 → sys_reach (normalize config) s0 s →
  sy_phase s = WaitCheck r → sy_out s = [w] → sy_notify s = 0%nat →
  (∃ s', rtc (sys_step (normalize config)) s s' ∧ sy_phase s' = WaitAsleep r ∧ sy_out s' = [] ∧ sy_count s' = 0 ∧
    ∀ s2, ¬ sys_step (normalize config) s' s2) ∧
  (∃ s', rtc (sys_step (normalize config)) s s' ∧ sy_phase s' = Gone r).
Proof.
  intros Hs0 Hr Hph Hout Hnot. pose proof (reach_inv (normalize config) s0 s (normalize_recv config) Hs0 Hr) as Hi.
  destruct s as [a count out notify phase handled]. cbn in Hph, Hout, Hnot. subst phase out notify.
  destruct (last_drop _ _ _ _ _ _ _ Hi) as (-> & s' & Hd & Hrel). split.
  - eexists. split.
    + eapply rtc_l; [apply step_check|]. cbn [Z.eqb]. eapply rtc_l; [apply (step_drop _ a 1 [] w [] _ _ _ s' Hd)|]. rewrite Hrel. cbn [fst snd app].
      eapply rtc_l; [apply step_notify|]. cbn [woken]. eapply rtc_l; [apply step_arm|]. apply rtc_refl.
    + cbn. split_and!; try done. intros s2 Hst. inversion Hst as [| |? ? l1|? ? l1| | |]; by destruct l1.
  - eexists. split.
    + eapply rtc_l; [apply step_check|]. cbn [Z.eqb]. eapply rtc_l; [apply step_arm|].
      eapply rtc_l; [apply (step_drop _ a 1 [] w [] _ _ _ s' Hd)|]. rewrite Hrel. cbn [fst snd app].
      eapply rtc_l; [apply step_notify|]. cbn [woken]. eapply rtc_l; [apply step_check|]. apply rtc_refl.
    + done.
Qed.
End System.

(** ** The loopback socket under an actor, for the examples *)
#[local] Instance lp_actor_socket : ActorSocket Loopback SpecBuffer SpecBuffer SpecBuffer unit := {
  as_allocate_tx_batch := allocate_tx_batch;
  as_send := udp_send;
  as_recv s batch := Ret (s, batch, Err WouldBlock);
  as_drain_tx_completions := lp_drain;
  as_notify_tx s := Ret (s, Ok tt);
  as_freeze m := m;
  as_freeze_rx b := b;
  as_drop s _ := Ret s;
}.
#[local] Instance lp_actor_contract :
  ActorContract (Sk := Loopback) lp_ok (λ _ : SpecBuffer + SpecBuffer + SpecBuffer, True) lp_sent (id : UdpTransmit SpecBuffer → UdpTransmit SpecBuffer).
Proof.
  constructor; try done.
  - apply (lp_send_contract id).
  - intros s Hs. destruct (lp_drain_contract s Hs) as (s' & r & H1 & H2 & H3). by exists s', r.
  - intros s Hs. by exists s, (Ok tt).
  - intros s max Hs. eexists _, _, _. split; [reflexivity|]. split_and!; try done. by apply Forall_true.
  - intros s c Hs _. eexists _, _, _. split; [reflexivity|]. by split_and!.
  - intros s b Hs _. by exists s.
Qed.

Definition lp_inputs (tries : list (TryRecv SpecBuffer SpecBuffer)) : RoundInput SpecBuffer SpecBuffer :=
  mkRound tries (λ _, 0%nat) (λ _, 0%nat) true (WaitReadable (Ok tt)) (Ok tt).
Definition lp_start : Loopback := mkLoopback 2 0 [].
Definition lp_wrapper : ActorTxBuffer SpecBuffer := mkTxBuffer (Some lp_buffer) true.
Definition lp_packet : ActorTxPacket SpecBuffer := mkTxPacket (Some lp_buffer) (ActorTxMeta_new (SocketAddrV4 1 9)) true.
Definition lp_request : UdpTransmit SpecBuffer := mkUdpTransmit lp_buffer (SocketAddrV4 1 9) None None None None.
Abbreviation lp_sys := (@Sys Loopback SpecBuffer SpecBuffer SpecBuffer unit).
Abbreviation lp_fine := (λ _ : SpecBuffer + SpecBuffer + SpecBuffer, True).

Lemma lp_outside (out : list (Wrapper SpecBuffer SpecBuffer SpecBuffer unit)) cs : Forall (command_outside out) cs → inputs_outside out (lp_inputs (TryCommand <$> cs)).
Proof. intros Hc. split; [|done]. cbn. by apply Forall_fmap. Qed.

(** A run that allocates a buffer. *)
Definition lp_allocated : lp_sys :=
  mkSys (actor_start lp_start) 1 [WrapTxBuffer lp_wrapper] 0 Running [Allocate 1 true].
Lemma lp_allocated_reach : sys_reach lp_fine (normalize ActorConfig_default) lp_start lp_allocated.
Proof.
  eapply reach_step; [apply reach_start|].
  apply (step_round lp_fine (normalize ActorConfig_default) _ 0 [] 0 [] (lp_inputs [TryCommand (Allocate 1 true)]) (actor_start lp_start) 1 [WrapTxBuffer lp_wrapper] [Allocate 1 true] []).
  - apply (lp_outside _ [Allocate 1 true]). repeat apply Forall_cons_2; try apply Forall_nil_2; first [apply list_subseteq_nil|intros w Hw; exact Hw].
  - vm_compute. reflexivity.
  - done.
  - done.
Qed.
(** It freezes and sends the buffer and shuts down. *)
Definition lp_finished : lp_sys :=
  mkSys (mkActor (mkLoopback 2 0 [lp_request]) [] [] true false true) 0 [] 0 (WaitCheck (Ok tt)) [Allocate 1 true; SendPackets [lp_packet]; Shutdown].
Lemma lp_finished_reach : sys_reach lp_fine (normalize ActorConfig_default) lp_start lp_finished.
Proof.
  assert (Hf : sys_reach lp_fine (normalize ActorConfig_default) lp_start (mkSys (actor_start lp_start) 1 [WrapTxPacket lp_packet] 0 Running [Allocate 1 true])).
  { eapply reach_step; [apply lp_allocated_reach|]. apply (step_edit lp_fine _ _ _ [] _ (WrapTxPacket lp_packet) []). by apply (edit_freeze _ _ (SocketAddrV4 1 9)). }
  eapply reach_step; [exact Hf|].
  eapply (step_finish lp_fine _ _ _ _ _ [Allocate 1 true] (lp_inputs [TryCommand (SendPackets [lp_packet]); TryCommand Shutdown]) _ _ [] [SendPackets [lp_packet]; Shutdown] []).
  - apply (lp_outside _ [SendPackets [lp_packet]; Shutdown]). repeat apply Forall_cons_2; try apply Forall_nil_2; first [apply list_subseteq_nil|intros w Hw; exact Hw].
  - vm_compute. reflexivity.
  - done.
  - done.
  - done.
Qed.
(** It shuts down while the buffer is out. *)
Definition lp_waiting : lp_sys :=
  mkSys (mkActor (mkLoopback 2 0 []) [] [] true false true) 1 [WrapTxBuffer lp_wrapper] 0 (WaitCheck (Ok tt)) [Allocate 1 true; Shutdown].
Lemma lp_waiting_reach : sys_reach lp_fine (normalize ActorConfig_default) lp_start lp_waiting.
Proof.
  eapply reach_step; [apply lp_allocated_reach|].
  eapply (step_finish lp_fine _ _ _ _ _ [Allocate 1 true] (lp_inputs [TryCommand Shutdown]) _ _ [] [Shutdown] [WrapTxBuffer lp_wrapper]).
  - apply (lp_outside _ [Shutdown]). repeat apply Forall_cons_2; try apply Forall_nil_2; first [apply list_subseteq_nil|intros w Hw; exact Hw].
  - vm_compute. reflexivity.
  - done.
  - done.
  - done.
Qed.

Lemma actor_sends_in_order_witness :
  transmits_of (sy_handled lp_finished) = [lp_request] ∧ lp_sent (ac_socket (sy_actor lp_finished)) = [lp_request] ∧
  ∃ sent rest, transmits_of (sy_handled lp_finished) = sent ++ rest ∧ rest = [].
Proof.
  split; [reflexivity|]. split; [reflexivity|].
  destruct (actor_sends_in_order lp_ok lp_fine lp_sent id ActorConfig_default lp_start lp_finished) as (_ & (sent & rest & H1 & _ & H3) & _).
  { split; cbn; lia. } { apply lp_finished_reach. }
  exists sent, rest. split; [exact H1|]. apply H3. reflexivity.
Defined.

Lemma actor_leases_safe_witness :
  sy_count lp_waiting = 1 ∧ ∀ w, w ∈ sy_out lp_waiting → wrapper_lease w = true.
Proof.
  destruct (actor_leases_safe lp_ok lp_fine lp_sent id ActorConfig_default lp_start lp_waiting) as (H1 & H2 & _).
  { split; cbn; lia. } { apply lp_waiting_reach. }
  split; [exact H1|]. intros w Hw. apply (H2 w Hw).
Defined.

Lemma actor_lost_wakeup_witness : ∃ s' : lp_sys,
  sys_reach lp_fine (normalize ActorConfig_default) lp_start lp_waiting ∧
  rtc (sys_step lp_fine (normalize ActorConfig_default)) lp_waiting s' ∧ sy_phase s' = WaitAsleep (Ok tt) ∧ sy_count s' = 0 ∧
  ∀ s2, ¬ sys_step lp_fine (normalize ActorConfig_default) s' s2.
Proof.
  destruct (actor_lost_wakeup lp_ok lp_fine lp_sent id ActorConfig_default lp_start lp_waiting (Ok tt) (WrapTxBuffer lp_wrapper))
    as [(s' & H1 & H2 & H3 & H4 & H5) _]; try reflexivity.
  { split; cbn; lia. } { apply lp_waiting_reach. }
  exists s'. split; [apply lp_waiting_reach|]. by split_and!.
Defined.
