(* ===== verification/Interface.v ===== *)
(** * Interface and queue discovery: [interface.rs]

    What the kernel publishes under [/sys] and [/proc] is an argument, as it
    stands while a discovery runs; an error is its kind. The string functions
    of the standard library the parsers call come first: text is a list of
    ASCII characters, which is what the kernel's files hold. *)
From Stdlib Require String.
From stdpp Require Import strings.
From S2P Require Import Prelude Core CoreMain.
Open Scope Z_scope.

(** ** Text *)
Abbreviation str := (list ascii).
Definition text (s : string) : str := String.list_ascii_of_string s.
Definition code (c : ascii) : Z := Z.of_nat (nat_of_ascii c).

(** [char::is_whitespace] and [char::is_ascii_alphabetic]. *)
Definition is_whitespace (c : ascii) : bool := ((9 <=? code c) && (code c <=? 13)) || (code c =? 32).
Definition is_alphabetic (c : ascii) : bool :=
  ((65 <=? code c) && (code c <=? 90)) || ((97 <=? code c) && (code c <=? 122)).

(** ** Splitting *)

(** [str::split] at the characters [p] holds of. *)
Fixpoint split_by (p : ascii → bool) (s : str) : list str :=
  match s with
  | [] => [[]]
  | x :: s =>
      if p x then [] :: split_by p s
      else match split_by p s with
           | part :: parts => (x :: part) :: parts
           | [] => [[x]]
           end
  end.
Definition is_empty (s : str) : bool := match s with [] => true | _ => false end.
Definition split_whitespace (s : str) : list str := filter (λ part, is_empty part = false) (split_by is_whitespace s).

(** [split_once(c)]: what comes before and after the first [c]. *)
Fixpoint split_once (c : ascii) (s : str) : option (str * str) :=
  match s with
  | [] => None
  | x :: s =>
      if decide (x = c) then Some ([], s)
      else match split_once c s with
           | Some (a, b) => Some (x :: a, b)
           | None => None
           end
  end.

Fixpoint trim_start (s : str) : str :=
  match s with
  | x :: s' => if is_whitespace x then trim_start s' else s
  | [] => []
  end.
Definition trim_end (s : str) : str := reverse (trim_start (reverse s)).
Definition trim (s : str) : str := trim_end (trim_start s).

Fixpoint strip_prefix (p s : str) : option str :=
  match p, s with
  | [], _ => Some s
  | x :: p, y :: s => if decide (x = y) then strip_prefix p s else None
  | _ :: _, [] => None
  end.
Definition strip_suffix (p s : str) : option str := reverse <$> strip_prefix (reverse p) (reverse s).

(** [str::lines]: a final newline ends the last line, and a carriage return
    before a newline belongs to it. *)
Definition newline : ascii := ascii_of_nat 10.
Definition carriage_return : ascii := ascii_of_nat 13.
Definition drop_final_empty (parts : list str) : list str :=
  match reverse parts with
  | [] :: rest => reverse rest
  | _ => parts
  end.
Definition lines (s : str) : list str :=
  (λ l, default l (strip_suffix [carriage_return] l)) <$> drop_final_empty (split_on newline s).

(** ** Numbers *)
Definition to_digit10 (c : ascii) : option Z :=
  if (48 <=? code c) && (code c <=? 57) then Some (code c - 48) else None.

(** The digit loop of [from_str] for an unsigned type of [w] bits. *)
Fixpoint radix10_digits (w acc : Z) (s : str) : option Z :=
  match s with
  | [] => Some acc
  | c :: s =>
      d ← to_digit10 c;
      acc ← checked_mul w acc 10;
      acc ← checked_add w acc d;
      radix10_digits w acc s
  end.
Definition parse_unsigned (w : Z) (s : str) : option Z :=
  match s with
  | [] => None
  | ["+"%char] | ["-"%char] => None
  | "+"%char :: s => radix10_digits w 0 s
  | _ => radix10_digits w 0 s
  end.
Definition parse_u32 : str → option Z := parse_unsigned 32.

(** [i32::from_str]: a minus sign makes the digits subtract. *)
Definition checked_i32 (x : Z) : option Z := if (- 2 ^ 31 <=? x) && (x <? 2 ^ 31) then Some x else None.
Fixpoint signed_digits (sign acc : Z) (s : str) : option Z :=
  match s with
  | [] => Some acc
  | c :: s =>
      d ← to_digit10 c;
      acc ← checked_i32 (acc * 10);
      acc ← checked_i32 (acc + sign * d);
      signed_digits sign acc s
  end.
Definition parse_i32 (s : str) : option Z :=
  match s with
  | [] => None
  | ["+"%char] | ["-"%char] => None
  | "+"%char :: s => signed_digits 1 0 s
  | "-"%char :: s => signed_digits (-1) 0 s
  | _ => signed_digits 1 0 s
  end.

(** [Display] of an unsigned integer of at most 64 bits. *)
Definition digit10 (d : Z) : ascii := ascii_of_nat (48 + Z.to_nat d).
Fixpoint decimal (fuel : nat) (n : Z) : str :=
  match fuel with
  | O => []
  | S fuel => if n <? 10 then [digit10 n] else decimal fuel (n / 10) ++ [digit10 (n mod 10)]
  end.
Definition to_string (n : Z) : str := decimal 20 n.

(** ** Lemmas *)
Lemma digit10_code d : 0 ≤ d < 10 → code (digit10 d) = 48 + d.
Proof. intros. unfold code, digit10. rewrite nat_ascii_embedding by lia. lia. Qed.
Lemma to_digit10_digit10 d : 0 ≤ d < 10 → to_digit10 (digit10 d) = Some d.
Proof. intros Hd. unfold to_digit10. rewrite digit10_code by done. destruct (Z.leb_spec 48 (48 + d)), (Z.leb_spec (48 + d) 57); try lia. cbn. f_equal. lia. Qed.

(** The value of digits, most significant first. *)
Definition digits_value (acc : Z) (ds : list Z) : Z := foldl (λ a d, 10 * a + d) acc ds.
Lemma digits_value_le ds : ∀ acc, 0 ≤ acc → Forall (λ d, 0 ≤ d < 10) ds → acc ≤ digits_value acc ds.
Proof. induction ds as [|d ds IH]; intros acc Ha HF; cbn; [lia|]. apply Forall_cons in HF as [? HF]. etrans; [|apply IH; [lia|done]]. lia. Qed.

Lemma radix10_value w ds : 0 ≤ w → ∀ acc, 0 ≤ acc → Forall (λ d, 0 ≤ d < 10) ds → digits_value acc ds < 2 ^ w →
  radix10_digits w acc (digit10 <$> ds) = Some (digits_value acc ds).
Proof.
  intros Hw. induction ds as [|d ds IH]; intros acc Ha HF Hv; cbn [fmap list_fmap radix10_digits]; [done|]. apply Forall_cons in HF as [Hd HF].
  rewrite to_digit10_digit10 by done. cbn [mbind option_bind]. cbn in Hv. pose proof (digits_value_le ds (10 * acc + d) ltac:(lia) HF) as Hle.
  unfold digits_value in *. unfold checked_mul, checked_add.
  destruct (Z.ltb_spec (acc * 10) (2 ^ w)); [|lia]. cbn [mbind option_bind]. destruct (Z.ltb_spec (acc * 10 + d) (2 ^ w)); [|lia]. cbn [mbind option_bind].
  replace (acc * 10 + d) with (10 * acc + d) by lia. by apply IH; [lia| |].
Qed.

Lemma decimal_digits (fuel : nat) : ∀ n, 0 ≤ n < 10 ^ Z.of_nat fuel → (0 < fuel)%nat →
  ∃ ds, decimal fuel n = digit10 <$> ds ∧ ds ≠ [] ∧ Forall (λ d, 0 ≤ d < 10) ds ∧ digits_value 0 ds = n.
Proof.
  induction fuel as [|fuel IH]; intros n Hn Hf; [lia|]. cbn [decimal]. destruct (Z.ltb_spec n 10).
  { exists [n]. split; [done|]. split; [done|]. split; [apply Forall_singleton; lia|]. cbn. lia. }
  rewrite Nat2Z.inj_succ, Z.pow_succ_r in Hn by lia. pose proof (Z.div_mod n 10 ltac:(lia)). pose proof (Z.mod_pos_bound n 10 ltac:(lia)).
  destruct (IH (n / 10)) as (ds & E & Hne & HF & Hv).
  { split; [apply Z.div_pos; lia|]. apply Z.div_lt_upper_bound; lia. } { destruct fuel; [cbn in Hn; lia|lia]. }
  exists (ds ++ [n mod 10]). split; [by rewrite fmap_app, E|]. split; [by destruct ds|]. split; [apply Forall_app; split; [done|apply Forall_singleton; lia]|].
  unfold digits_value in *. rewrite foldl_app, Hv. cbn. lia.
Qed.

(** A printed number is digits, and reads back. *)
Lemma to_string_digits n : 0 ≤ n < 2 ^ 64 →
  ∃ d ds, to_string n = digit10 <$> d :: ds ∧ Forall (λ d, 0 ≤ d < 10) (d :: ds) ∧ digits_value 0 (d :: ds) = n.
Proof.
  intros Hn. destruct (decimal_digits 20 n) as ([|d ds] & E & Hne & HF & Hv); [change (10 ^ Z.of_nat 20) with 100000000000000000000; lia|lia|done|].
  by exists d, ds.
Qed.
Lemma digit10_sign d s : 0 ≤ d < 10 → parse_unsigned 32 (digit10 d :: s) = radix10_digits 32 0 (digit10 d :: s).
Proof.
  intros Hd. assert (digit10 d ≠ "+"%char ∧ digit10 d ≠ "-"%char) as [H1 H2].
  { split; intros E%(f_equal code); rewrite digit10_code in E by done; [change (code "+") with 43 in E|change (code "-") with 45 in E]; lia. }
  unfold parse_unsigned. destruct (digit10 d) as [[] [] [] [] [] [] [] []]; try reflexivity; done.
Qed.
Lemma parse_to_string n : 0 ≤ n < 2 ^ 32 → parse_u32 (to_string n) = Some n.
Proof.
  intros Hn. destruct (to_string_digits n ltac:(lia)) as (d & ds & -> & HF & Hv). unfold parse_u32. cbn [fmap list_fmap].
  apply Forall_cons in HF as [Hd HF]. rewrite digit10_sign by done. change (digit10 d :: (digit10 <$> ds)) with (digit10 <$> d :: ds).
  rewrite radix10_value; [by rewrite Hv|lia|lia|by constructor|lia].
Qed.

Inductive IoKind := KindNotFound | KindInvalidInput | KindInvalidData | KindOther (os_code : Z).

Record Sysfs := mkSysfs {
  sf_exists : str → bool;
  sf_read : str → result str IoKind; (** [read_to_string] *)
  sf_dir : str → result (list (result str IoKind)) IoKind; (** [read_dir] and its entries' names *)
  sf_if_nametoindex : str → result Z IoKind;
  sf_if_indextoname : Z → result str IoKind;
}.

Record XdpQueueSlot := mkQueueSlot {
  qs_iface : str;
  qs_ifindex : Z;
  qs_queue : Z;
  qs_flat_index : Z;
}.
#[export] Instance XdpQueueSlot_eq_dec : EqDecision XdpQueueSlot.
Proof. solve_decision. Defined.

(** ** Lists of CPUs *)
Inductive CpuListError := BadRangeStart | BadRangeEnd | InvertedCpuRange | BadCpuId | EmptyCpuList | ManyCpus.

(** [list.split(',').map(str::trim).filter(|part| !part.is_empty())]. *)
Definition list_parts (l : str) : list str := filter (λ part, is_empty part = false) (trim <$> split_on ","%char l).
(** A part of a list: the ids of a range, or one id. *)
Definition parse_part (part : str) : result (list Z) CpuListError :=
  match split_once "-"%char part with
  | Some (start, stop) =>
      start <-? ok_or (parse_u32 start) BadRangeStart;
      stop <-? ok_or (parse_u32 stop) BadRangeEnd;
      if stop <? start then Err InvertedCpuRange else Ok (seqZ start (stop - start + 1))
  | None => cpu <-? ok_or (parse_u32 part) BadCpuId; Ok [cpu]
  end.

Fixpoint parse_cpu_parts (parts : list str) (cpus : list Z) : result (list Z) CpuListError :=
  match parts with
  | [] => Ok cpus
  | part :: parts => ids <-? parse_part part; parse_cpu_parts parts (cpus ++ ids)
  end.
Definition parse_cpu_list (l : str) : result (list Z) CpuListError :=
  cpus <-? parse_cpu_parts (list_parts l) [];
  match cpus with [] => Err EmptyCpuList | _ => Ok cpus end.

(** [cpu.replace(candidate)] for each candidate. *)
Fixpoint replace_each (cpu : option Z) (candidates : list Z) : result (option Z) CpuListError :=
  match candidates with
  | [] => Ok cpu
  | candidate :: candidates =>
      match cpu with
      | Some _ => Err ManyCpus
      | None => replace_each (Some candidate) candidates
      end
  end.
Fixpoint parse_single_parts (parts : list str) (cpu : option Z) : result (option Z) CpuListError :=
  match parts with
  | [] => Ok cpu
  | part :: parts =>
      ids <-? parse_part part;
      cpu <-? replace_each cpu ids;
      parse_single_parts parts cpu
  end.
Definition parse_single_cpu_affinity_list (l : str) : result Z CpuListError :=
  cpu <-? parse_single_parts (list_parts l) None;
  ok_or cpu EmptyCpuList.

Definition parse_numa_node (raw : str) : option Z :=
  match parse_i32 raw with
  | None => None
  | Some node => if node <? 0 then None else if U16_MAX <? node then None else Some node
  end.

(** ** Names of interrupts *)
Definition is_delimiter (c : ascii) : bool := bool_decide (c ∈ ["-"; "."; "@"; "_"]%char).
Definition names_queue (queue_str part : str) : bool :=
  if decide (part = queue_str) then true
  else match strip_suffix queue_str part with
       | None => false
       | Some prefix => negb (is_empty prefix) && forallb is_alphabetic prefix
       end.
Definition token_names_iface_queue (token iface queue_str : str) : bool :=
  if negb (existsb (λ part, bool_decide (part = iface)) (split_by is_delimiter token)) then false
  else existsb (names_queue queue_str) (split_by is_delimiter token).

Definition is_active_backup_bond_mode (mode : str) : bool :=
  existsb (λ token, bool_decide (token = text "active-backup" ∨ token = text "1")) (split_whitespace mode).

Section Discovery.
Variable fs : Sysfs.

(** [fs::read_to_string] of a file that may be missing. *)
Definition read_optional (path : str) : result (option str) IoKind :=
  match sf_read fs path with
  | Ok s => Ok (Some s)
  | Err KindNotFound => Ok None
  | Err k => Err k
  end.
Definition class_net (iface : str) : str := text "/sys/class/net/" ++ iface.

Definition if_name_to_index (name : str) : result Z IoKind :=
  if bool_decide (ascii_of_nat 0 ∈ name) then Err (KindOther 0) else sf_if_nametoindex fs name.
Definition if_index_to_name (ifindex : Z) : result str IoKind := sf_if_indextoname fs ifindex.

(** ** Queues *)
Definition bond_slaves (iface : str) : result (option (list str)) IoKind :=
  if negb (sf_exists fs (class_net iface)) then Err KindNotFound
  else
    slaves <-? read_optional (class_net iface ++ text "/bonding/slaves");
    Ok (split_whitespace <$> slaves).

Definition bond_mode_is_active_backup (iface : str) : result bool IoKind :=
  mode <-? sf_read fs (class_net iface ++ text "/bonding/mode");
  Ok (is_active_backup_bond_mode (trim mode)).
Definition bond_active_slave (iface : str) : result (option str) IoKind :=
  active <-? read_optional (class_net iface ++ text "/bonding/active_slave");
  Ok (match active with
      | None => None
      | Some active => if is_empty (trim active) then None else Some (trim active)
      end).
Definition interface_can_bind_xdp (iface : str) : result bool IoKind :=
  state <-? read_optional (class_net iface ++ text "/operstate");
  Ok (match state with
      | None => true
      | Some state => negb (bool_decide (trim state = text "down" ∨ trim state = text "lowerlayerdown"))
      end).

Fixpoint keep_bindable (selected : list str) : result (list str) IoKind :=
  match selected with
  | [] => Ok []
  | slave :: selected =>
      can <-? interface_can_bind_xdp slave;
      rest <-? keep_bindable selected;
      Ok (if can : bool then slave :: rest else rest)
  end.
Definition xdp_bindable_bond_slaves (iface : str) (slaves : list str) : result (list str) IoKind :=
  active_backup <-? bond_mode_is_active_backup iface;
  selected <-?
    (if active_backup : bool then
       active <-? bond_active_slave iface;
       match active with
       | None => Err KindNotFound
       | Some active => if bool_decide (active ∈ slaves) then Ok [active] else Err KindInvalidData
       end
     else Ok slaves);
  bindable <-? keep_bindable selected;
  match bindable with [] => Err KindNotFound | _ => Ok bindable end.

(** A directory has fewer than [2 ^ 32] entries. *)
Fixpoint count_rx (entries : list (result str IoKind)) (count : Z) : result Z IoKind :=
  match entries with
  | [] => Ok count
  | entry :: entries =>
      name <-? entry;
      count_rx entries
        (match strip_prefix (text "rx-") name with
         | Some suffix => match parse_u32 suffix with Some _ => count + 1 | None => count end
         | None => count
         end)
  end.
Definition rx_queue_count (iface : str) : result Z IoKind :=
  entries <-? sf_dir fs (class_net iface ++ text "/queues");
  count <-? count_rx entries 0;
  if count =? 0 then Err KindNotFound else Ok count.

Definition own_slots (iface : str) (ifindex count : Z) : list XdpQueueSlot :=
  (λ queue, mkQueueSlot iface ifindex queue 0) <$> seqZ 0 count.
(** The loop over a bond's slaves; [fill] is the recursive call. *)
Fixpoint fill_each (fill : str → list XdpQueueSlot → outcome (result (list XdpQueueSlot) IoKind)) (slaves : list str)
    (slots : list XdpQueueSlot) : outcome (result (list XdpQueueSlot) IoKind) :=
  match slaves with
  | [] => Ret (Ok slots)
  | slave :: slaves =>
      r ← fill slave slots;
      match r with
      | Err e => Ret (Err e)
      | Ok slots => fill_each fill slaves slots
      end
  end.
Fixpoint fill_queue_slots (fuel : nat) (iface : str) (slots : list XdpQueueSlot) : outcome (result (list XdpQueueSlot) IoKind) :=
  match fuel with
  | O => Diverge
  | S fuel =>
      match bond_slaves iface with
      | Err e => Ret (Err e)
      | Ok (Some slaves) =>
          match xdp_bindable_bond_slaves iface slaves with
          | Err e => Ret (Err e)
          | Ok bindable => fill_each (fill_queue_slots fuel) bindable slots
          end
      | Ok None =>
          Ret (count <-? rx_queue_count iface;
               ifindex <-? if_name_to_index iface;
               Ok (slots ++ own_slots iface ifindex count))
      end
  end.

Definition with_flat_index (slot : XdpQueueSlot) (i : Z) : XdpQueueSlot :=
  mkQueueSlot (qs_iface slot) (qs_ifindex slot) (qs_queue slot) i.
Definition xdp_queue_slots_for_interface (fuel : nat) (iface : str) : outcome (result (list XdpQueueSlot) IoKind) :=
  r ← fill_queue_slots fuel iface [];
  Ret (slots <-? r;
       let slots := imap (λ index slot, with_flat_index slot (u32 (Z.of_nat index))) slots in
       match slots with [] => Err KindNotFound | _ => Ok slots end).
Definition resolve_xdp_queue_slot (fuel : nat) (iface : str) (flat_queue : Z) : outcome (result XdpQueueSlot IoKind) :=
  r ← xdp_queue_slots_for_interface fuel iface;
  Ret (slots <-? r; ok_or (slots !! Z.to_nat flat_queue) KindInvalidInput).

(** ** Interrupts and CPUs *)
Fixpoint any_entry (p : str → bool) (entries : list (result str IoKind)) : result bool IoKind :=
  match entries with
  | [] => Ok false
  | entry :: entries => name <-? entry; if p name then Ok true else any_entry p entries
  end.
Definition proc_irq (irq : Z) : str := text "/proc/irq/" ++ to_string irq.
Definition irq_descriptor_names_queue (irq : Z) (iface queue_str : str) : result bool IoKind :=
  actions <-? read_optional (proc_irq irq ++ text "/actions");
  if match actions with
     | Some actions => existsb (λ token, token_names_iface_queue (trim token) iface queue_str) (split_on ","%char actions)
     | None => false
     end
  then Ok true
  else
    match sf_dir fs (proc_irq irq) with
    | Err KindNotFound => Ok false
    | Err k => Err k
    | Ok entries => any_entry (λ name, token_names_iface_queue name iface queue_str) entries
    end.

Fixpoint find_irq (iface queue_str : str) (entries : list (result str IoKind)) : result (option Z) IoKind :=
  match entries with
  | [] => Ok None
  | entry :: entries =>
      name <-? entry;
      match parse_u32 name with
      | None => find_irq iface queue_str entries
      | Some irq =>
          names <-? irq_descriptor_names_queue irq iface queue_str;
          if names : bool then Ok (Some irq) else find_irq iface queue_str entries
      end
  end.
Definition irq_from_sysfs (iface : str) (queue : Z) : result (option Z) IoKind :=
  match sf_dir fs (class_net iface ++ text "/device/msi_irqs") with
  | Err KindNotFound => Ok None
  | Err k => Err k
  | Ok entries => find_irq iface (to_string queue) entries
  end.

(** A line of [/proc/interrupts]: its interrupt when a token names the queue. *)
Definition interrupt_of_line (iface queue_string line : str) : option Z :=
  '(head, rest) ← split_once ":"%char (trim_start line);
  irq ← parse_u32 (trim head);
  if existsb (λ token, token_names_iface_queue token iface queue_string) (split_whitespace rest) then Some irq else None.
Definition irq_from_proc_interrupts (iface : str) (queue : Z) : result Z IoKind :=
  raw <-? sf_read fs (text "/proc/interrupts");
  ok_or (head (omap (interrupt_of_line iface (to_string queue)) (lines raw))) KindNotFound.
Definition irq_for_rx_queue (iface : str) (queue : Z) : result Z IoKind :=
  irq <-? irq_from_sysfs iface queue;
  match irq with
  | Some irq => Ok irq
  | None => irq_from_proc_interrupts iface queue
  end.

Definition invalid_data {A E} (r : result A E) : result A IoKind :=
  match r with Ok a => Ok a | Err _ => Err KindInvalidData end.
Definition cpu_for_rx_queue (iface : str) (queue : Z) : result Z IoKind :=
  irq <-? irq_for_rx_queue iface queue;
  raw <-? sf_read fs (proc_irq irq ++ text "/smp_affinity_list");
  invalid_data (parse_single_cpu_affinity_list (trim raw)).
Definition cpu_for_xdp_queue (slot : XdpQueueSlot) : result Z IoKind := cpu_for_rx_queue (qs_iface slot) (qs_queue slot).

(** ** NUMA nodes *)
Definition numa_node_for_interface (iface : str) : result Z IoKind :=
  raw <-? sf_read fs (class_net iface ++ text "/device/numa_node");
  ok_or (parse_numa_node (trim raw)) KindInvalidData.
Definition cpus_for_numa_node (node : Z) : result (list Z) IoKind :=
  raw <-? sf_read fs (text "/sys/devices/system/node/node" ++ to_string node ++ text "/cpulist");
  invalid_data (parse_cpu_list (trim raw)).
Fixpoint nodes_u16 (ids : list Z) : result (list Z) IoKind :=
  match ids with
  | [] => Ok []
  | id :: ids => if U16_MAX <? id then Err KindInvalidData else rest <-? nodes_u16 ids; Ok (id :: rest)
  end.
Definition online_numa_nodes : result (list Z) IoKind :=
  raw <-? sf_read fs (text "/sys/devices/system/node/online");
  ids <-? invalid_data (parse_cpu_list (trim raw));
  nodes_u16 ids.
Definition online_cpus : result (list Z) IoKind :=
  raw <-? sf_read fs (text "/sys/devices/system/cpu/online");
  invalid_data (parse_cpu_list (trim raw)).
End Discovery.
