(* ===== verification/InterfaceMain.v ===== *)
(** * Properties of interface and queue discovery *)
From stdpp Require Import strings.
From S2P Require Import Prelude Core CoreMain Interface.
Open Scope Z_scope.

(** ** Text lemmas *)
Lemma trim_start_nonspace c s : is_whitespace c = false → trim_start (c :: s) = c :: s.
Proof. intros Hc. cbn. by rewrite Hc. Qed.
Lemma trim_end_snoc s c : is_whitespace c = false → trim_end (s ++ [c]) = s ++ [c].
Proof. intros Hc. unfold trim_end. rewrite reverse_snoc, trim_start_nonspace by done. by rewrite reverse_cons, reverse_involutive. Qed.
Lemma trim_end_space s c : is_whitespace c = true → trim_end (s ++ [c]) = trim_end s.
Proof. intros Hc. unfold trim_end. rewrite reverse_snoc. cbn. by rewrite Hc. Qed.
(** Text without white space is its own trimming. *)
Lemma trim_plain s : Forall (λ c, is_whitespace c = false) s → trim s = s.
Proof.
  intros HF. unfold trim. assert (trim_start s = s) as ->; [by destruct HF; [|apply trim_start_nonspace]|].
  destruct s as [|c s] using rev_ind; [done|]. apply trim_end_snoc. rewrite Forall_app, Forall_singleton in HF. apply HF.
Qed.
Lemma trim_newline s : s ≠ [] → Forall (λ c, is_whitespace c = false) s → trim (s ++ [newline]) = s.
Proof.
  intros Hne HF. destruct s as [|c s]; [done|]. unfold trim. cbn [app]. apply Forall_cons in HF as [Hc HF].
  rewrite trim_start_nonspace by done. change (c :: s ++ [newline]) with ((c :: s) ++ [newline]). rewrite trim_end_space by done.
  destruct s as [|d s _] using rev_ind; [by apply (trim_end_snoc [])|]. rewrite app_comm_cons. apply trim_end_snoc.
  rewrite Forall_app, Forall_singleton in HF. apply HF.
Qed.

Definition is_digit (c : ascii) : Prop := ∃ d, 0 ≤ d < 10 ∧ c = digit10 d.
Lemma to_string_is_digit n : 0 ≤ n < 2 ^ 64 → to_string n ≠ [] ∧ Forall is_digit (to_string n).
Proof.
  intros Hn. destruct (to_string_digits n Hn) as (d & ds & -> & HF & _). split; [done|]. rewrite Forall_fmap.
  eapply Forall_impl; [exact HF|]. intros x Hx. by exists x.
Qed.
Lemma digit_code c : is_digit c → 48 ≤ code c ≤ 57.
Proof. intros (d & Hd & ->). rewrite digit10_code by done. lia. Qed.
(** A digit is none of the characters the parsers split at. *)
Ltac not_digit c Hc := intros ->; apply digit_code in Hc; vm_compute in Hc; destruct Hc; congruence.
Lemma digit_not_space c : is_digit c → is_whitespace c = false.
Proof. intros Hc%digit_code. unfold is_whitespace. destruct (Z.leb_spec (code c) 13), (Z.eqb_spec (code c) 32); lia. Qed.
Lemma digit_not_alpha c : is_digit c → is_alphabetic c = false.
Proof.
  intros Hc%digit_code. unfold is_alphabetic. destruct (Z.leb_spec 65 (code c)), (Z.leb_spec 97 (code c)); lia.
Qed.
Lemma not_in_digits x s : ¬ (48 ≤ code x ≤ 57) → Forall is_digit s → x ∉ s.
Proof. intros Hx HF Hin. rewrite Forall_forall in HF. by apply HF, digit_code in Hin. Qed.

Lemma to_string_inj n m : 0 ≤ n < 2 ^ 32 → 0 ≤ m < 2 ^ 32 → to_string n = to_string m → n = m.
Proof. intros Hn Hm E. apply (f_equal parse_u32) in E. rewrite !parse_to_string in E by done. by simplify_eq. Qed.

Lemma split_once_app c a b : c ∉ a → split_once c (a ++ c :: b) = Some (a, b).
Proof.
  induction a as [|x a IH]; intros Hc; cbn; [by rewrite decide_True|]. rewrite decide_False by set_solver. rewrite IH by set_solver. done.
Qed.
Lemma split_once_none c s : c ∉ s → split_once c s = None.
Proof. induction s as [|x s IH]; intros Hc; cbn; [done|]. rewrite decide_False by set_solver. by rewrite IH by set_solver. Qed.

(** ** CPU lists *)

(** The kernel's format: ranges, separated by commas. *)
Definition print_range (r : Z * Z) : str :=
  if r.1 =? r.2 then to_string r.1 else to_string r.1 ++ "-"%char :: to_string r.2.
Fixpoint print_ranges (r : Z * Z) (rs : list (Z * Z)) : str :=
  match rs with
  | [] => print_range r
  | r' :: rs => print_range r ++ ","%char :: print_ranges r' rs
  end.
Definition range_ok (r : Z * Z) : Prop := 0 ≤ r.1 ≤ r.2 ∧ r.2 < 2 ^ 32.
Definition range_ids (r : Z * Z) : list Z := seqZ r.1 (r.2 - r.1 + 1).

Lemma print_range_chars r : range_ok r → print_range r ≠ [] ∧ Forall (λ c, is_whitespace c = false ∧ c ≠ ","%char) (print_range r).
Proof.
  intros [H1 H2]. unfold print_range. assert (Hd : ∀ n, 0 ≤ n < 2 ^ 32 → to_string n ≠ [] ∧ Forall (λ c, is_whitespace c = false ∧ c ≠ ","%char) (to_string n)).
  { intros n Hn. destruct (to_string_is_digit n ltac:(lia)) as [Hne HF]. split; [done|]. eapply Forall_impl; [exact HF|]. intros c Hc. split; [by apply digit_not_space|]. not_digit c Hc. }
  destruct (Hd r.1 ltac:(lia)) as [Ha1 Ha2], (Hd r.2 ltac:(lia)) as [Hb1 Hb2]. destruct (r.1 =? r.2); [done|]. split; [by destruct (to_string r.1)|].
  apply Forall_app. split; [done|]. constructor; [done|]. done.
Qed.

Lemma parse_part_print r : range_ok r → parse_part (print_range r) = Ok (range_ids r).
Proof.
  intros [H1 H2]. unfold print_range, parse_part, range_ids. assert (Hd : ∀ n, 0 ≤ n < 2 ^ 32 → "-"%char ∉ to_string n).
  { intros n Hn. apply not_in_digits; [vm_compute; intros []; congruence|]. apply to_string_is_digit. lia. }
  destruct (Z.eqb_spec r.1 r.2) as [->|Hne].
  - rewrite split_once_none by (apply Hd; lia). rewrite parse_to_string by lia. cbn. by rewrite Z.sub_diag.
  - rewrite split_once_app by (apply Hd; lia). rewrite !parse_to_string by lia. cbn. destruct (Z.ltb_spec r.2 r.1); [lia|]. done.
Qed.

Lemma list_parts_print rs : ∀ r, range_ok r → Forall range_ok rs → list_parts (print_ranges r rs) = print_range <$> r :: rs.
Proof.
  unfold list_parts. induction rs as [|r' rs IH]; intros r Hr HF; destruct (print_range_chars r Hr) as [Hne Hc]; cbn [print_ranges].
  - assert (Hsp : ","%char ∉ print_range r) by (intros Hin; rewrite Forall_forall in Hc; by apply Hc in Hin as []).
    rewrite split_on_plain by done. cbn [fmap list_fmap]. rewrite trim_plain by (eapply Forall_impl; [exact Hc|]; by intros ? []).
    rewrite filter_cons_True; [done|]. by destruct (print_range r).
  - apply Forall_cons in HF as [Hr' HF]. assert (Hsp : ","%char ∉ print_range r) by (intros Hin; rewrite Forall_forall in Hc; by apply Hc in Hin as []).
    rewrite split_on_app by done. cbn [fmap list_fmap]. rewrite trim_plain by (eapply Forall_impl; [exact Hc|]; by intros ? []).
    rewrite filter_cons_True; [|by destruct (print_range r)]. f_equal. by apply IH.
Qed.

Lemma parse_cpu_parts_app parts : ∀ acc ids, Forall2 (λ p i, parse_part p = Ok i) parts ids → parse_cpu_parts parts acc = Ok (acc ++ concat ids).
Proof.
  induction parts as [|p parts IH]; intros acc ids HF; inversion HF as [|? i ? ids' Hp HF']; subst; cbn [parse_cpu_parts]; [by rewrite app_nil_r|].
  rewrite Hp. cbn [result_bind]. rewrite (IH _ ids') by done. cbn. by rewrite app_assoc.
Qed.
Lemma parse_cpu_parts_inv parts : ∀ acc l, parse_cpu_parts parts acc = Ok l → ∃ ids, Forall2 (λ p i, parse_part p = Ok i) parts ids ∧ l = acc ++ concat ids.
Proof.
  induction parts as [|p parts IH]; intros acc l Hp; cbn [parse_cpu_parts] in Hp; [exists []; simplify_eq; by rewrite app_nil_r|].
  destruct (parse_part p) as [i|] eqn:E; [|done]. cbn [result_bind] in Hp. apply IH in Hp as (ids & HF & ->). exists (i :: ids). split; [by constructor|]. cbn. by rewrite app_assoc.
Qed.

Lemma replace_each_list ids : ∀ cpu c, replace_each cpu ids = Ok c ↔ option_list c = option_list cpu ++ ids.
Proof.
  induction ids as [|i ids IH]; intros cpu c; cbn [replace_each].
  - rewrite app_nil_r. split; [by intros [= ->]|]. intros E. destruct cpu, c; by simplify_eq/=.
  - destruct cpu as [x|]; cbn.
    + split; [done|]. destruct c; done.
    + rewrite IH. done.
Qed.
Lemma parse_single_list parts : ∀ cpu c, parse_single_parts parts cpu = Ok c ↔
  ∃ ids, Forall2 (λ p i, parse_part p = Ok i) parts ids ∧ option_list c = option_list cpu ++ concat ids.
Proof.
  induction parts as [|p parts IH]; intros cpu c; cbn [parse_single_parts].
  - split.
    + intros [= ->]. exists []. split; [constructor|]. by rewrite app_nil_r.
    + intros (ids & HF & E). inversion HF; subst. rewrite app_nil_r in E. destruct cpu, c; by simplify_eq/=.
  - destruct (parse_part p) as [i|] eqn:Ep; cbn [result_bind].
    2:{ split; [done|]. intros (ids & HF & _). inversion HF; congruence. }
    split.
    + destruct (replace_each cpu i) as [c1|] eqn:Er; [|done]. cbn [result_bind]. intros (ids & HF & E)%IH. apply replace_each_list in Er.
      exists (i :: ids). split; [by constructor|]. cbn. by rewrite app_assoc, <- Er.
    + intros (ids & HF & E). inversion HF as [|? i' ? ids' Hi HF']; subst. assert (i' = i) as -> by congruence. cbn in E. rewrite app_assoc in E.
      assert (∃ c1, option_list c1 = option_list cpu ++ i) as (c1 & E1).
      { destruct (option_list cpu ++ i) as [|x [|y l]] eqn:El; [by exists None|by exists (Some x)|]. rewrite <- app_comm_cons in E. destruct c; done. }
      pose proof (proj2 (replace_each_list i cpu c1) E1) as ->. cbn [result_bind]. apply IH. exists ids'. by rewrite E1.
Qed.

(** The list of CPUs of an interrupt is taken for a single CPU exactly when
    reading it as a list of CPUs gives that one CPU and no other; and a list
    the kernel prints, ranges separated by commas and ended by a newline, reads
    back as the CPUs of its ranges in order. *)
Theorem cpu_lists_exact :
  (∀ l c, parse_single_cpu_affinity_list l = Ok c ↔ parse_cpu_list l = Ok [c]) ∧
  (∀ r rs, range_ok r → Forall range_ok rs →
    parse_cpu_list (trim (print_ranges r rs ++ [newline])) = Ok (concat (range_ids <$> r :: rs))).
Proof.
  split.
  - intros l c. unfold parse_single_cpu_affinity_list, parse_cpu_list. split.
    + destruct (parse_single_parts _ None) as [o|] eqn:E; [|done]. cbn [result_bind]. destruct o as [c'|]; [|done]. intros [= ->].
      apply parse_single_list in E as (ids & HF & E). rewrite (parse_cpu_parts_app _ [] ids HF). cbn in E. cbn [app result_bind]. by rewrite <- E.
    + destruct (parse_cpu_parts _ []) as [cpus|] eqn:E; [|done]. cbn [result_bind]. intros H. assert (cpus = [c]) as -> by (destruct cpus; by simplify_eq).
      apply parse_cpu_parts_inv in E as (ids & HF & E). cbn in E. assert (parse_single_parts (list_parts l) None = Ok (Some c)) as ->; [|done].
      apply parse_single_list. exists ids. split; [done|]. exact E.
  - intros r rs Hr HF. assert (Hchars : print_ranges r rs ≠ [] ∧ Forall (λ c, is_whitespace c = false) (print_ranges r rs)).
    { clear -Hr HF. revert r Hr. induction rs as [|r' rs IH]; intros r Hr; cbn [print_ranges]; destruct (print_range_chars r Hr) as [Hne Hc].
      - split; [done|]. eapply Forall_impl; [exact Hc|]. by intros ? [].
      - apply Forall_cons in HF as [Hr' HF]. destruct (IH HF r' Hr') as [_ Hw]. split; [by destruct (print_range r)|]. apply Forall_app. split; [eapply Forall_impl; [exact Hc|]; by intros ? []|]. by constructor. }
    destruct Hchars as [Hne Hw]. rewrite trim_newline by done. unfold parse_cpu_list. rewrite list_parts_print by done.
    rewrite (parse_cpu_parts_app _ [] (range_ids <$> r :: rs)). 2:{ apply Forall2_fmap, Forall_Forall2_diag. apply Forall_cons. split; [by apply parse_part_print|]. eapply Forall_impl; [exact HF|]. apply parse_part_print. }
    cbn [app result_bind]. destruct (concat (range_ids <$> r :: rs)) as [|x l] eqn:E; [|done]. cbn in E. destruct Hr as [Hr1 Hr2].
    apply app_eq_nil in E as [E _]. apply (f_equal length) in E. unfold range_ids in E. rewrite length_seqZ in E. cbn in E. lia.
Qed.

Lemma cpu_lists_exact_witness :
  parse_cpu_list (trim (print_ranges (0, 2) [(8, 8)] ++ [newline])) = Ok [0; 1; 2; 8].
Proof.
  destruct cpu_lists_exact as [_ H]. apply (H (0, 2) [(8, 8)]); [|apply Forall_singleton]; unfold range_ok; cbn; lia.
Defined.

(** ** Interrupt names *)
Lemma split_by_app p a d b : Forall (λ c, p c = false) a → p d = true → split_by p (a ++ d :: b) = a :: split_by p b.
Proof. induction a as [|x a IH]; intros HF Hd; cbn; [by rewrite Hd|]. apply Forall_cons in HF as [-> HF]. by rewrite IH. Qed.
Lemma split_by_plain p a : Forall (λ c, p c = false) a → split_by p a = [a].
Proof. induction a as [|x a IH]; intros HF; cbn; [done|]. apply Forall_cons in HF as [-> HF]. by rewrite IH. Qed.
Lemma strip_prefix_spec p : ∀ s r, strip_prefix p s = Some r ↔ s = p ++ r.
Proof.
  induction p as [|x p IH]; intros s r; cbn; [split; congruence|]. destruct s as [|y s]; [done|]. case_decide as E; [subst; rewrite IH; split; congruence|].
  split; congruence.
Qed.
Lemma strip_suffix_spec p s r : strip_suffix p s = Some r ↔ s = r ++ p.
Proof.
  unfold strip_suffix. split.
  - intros (r' & H%strip_prefix_spec & ->)%fmap_Some. apply (f_equal reverse) in H. by rewrite reverse_involutive, reverse_app, reverse_involutive in H.
  - intros ->. rewrite reverse_app. rewrite (proj2 (strip_prefix_spec _ _ (reverse r)) eq_refl). cbn. by rewrite reverse_involutive.
Qed.

Lemma names_queue_digits n q : 0 ≤ n < 2 ^ 32 → 0 ≤ q < 2 ^ 32 → names_queue (to_string q) (to_string n) = bool_decide (n = q).
Proof.
  intros Hn Hq. unfold names_queue. destruct (to_string_is_digit n ltac:(lia)) as [_ HF]. case_decide as E.
  { apply to_string_inj in E as ->; [|done|done]. by rewrite bool_decide_true. }
  rewrite bool_decide_false by congruence. destruct (strip_suffix _ _) as [[|c pre]|] eqn:Es; try done.
  apply strip_suffix_spec in Es. rewrite Es in HF. apply Forall_cons in HF as [Hc _]. cbn. by rewrite (digit_not_alpha _ Hc).
Qed.
Lemma names_queue_letters letters q : letters ≠ [] → forallb is_alphabetic letters = true → names_queue q (letters ++ q) = true.
Proof.
  intros Hne Hl. unfold names_queue. case_decide; [done|]. rewrite (proj2 (strip_suffix_spec q _ letters) eq_refl). rewrite Hl. by destruct letters.
Qed.

(** Names of interrupts as several drivers register them. *)
Definition queue_token (iface : str) (d : ascii) (n : Z) : str := iface ++ d :: to_string n.
Definition eth0 : str := text "eth0".
Definition interrupts : str :=
  text "  40: 7 PCI-MSI eth0-1" ++ newline :: text "  41: 9 PCI-MSI eth0-0" ++ [newline].

(** An interrupt named after an interface and a queue is matched with the
    interface it is named after and no other, and with its own queue; but when
    the interface's own name is letters followed by the queue's number, it is
    matched with that queue whatever queue it is named after, since the same
    part of the name counts for both. So the interrupt of queue 1 of eth0 is
    taken for that of queue 0 when it is listed first. *)
Theorem irq_names_exact iface other d n q :
  Forall (λ c, is_delimiter c = false) iface → is_delimiter d = true → 0 ≤ n < 2 ^ 32 → 0 ≤ q < 2 ^ 32 → other ≠ to_string n →
  token_names_iface_queue (queue_token iface d n) other (to_string q)
    = bool_decide (other = iface) && (bool_decide (n = q) || names_queue (to_string q) iface) ∧
  (∀ letters, letters ≠ [] → forallb is_alphabetic letters = true → iface = letters ++ to_string q →
    token_names_iface_queue (queue_token iface d n) iface (to_string q) = true) ∧
  (∀ fs, sf_dir fs (class_net eth0 ++ text "/device/msi_irqs") = Err KindNotFound → sf_read fs (text "/proc/interrupts") = Ok interrupts →
    irq_for_rx_queue fs eth0 0 = Ok 40 ∧ irq_for_rx_queue fs eth0 1 = Ok 40).
Proof.
  intros HF Hd Hn Hq Ho. assert (Hdig : Forall (λ c, is_delimiter c = false) (to_string n)).
  { destruct (to_string_is_digit n ltac:(lia)) as [_ Hf]. eapply Forall_impl; [exact Hf|]. intros c Hc. unfold is_delimiter. apply bool_decide_false.
    rewrite !elem_of_cons, elem_of_nil. intros Hin. destruct Hin as [->|[->|[->|[->|[]]]]]; apply digit_code in Hc; vm_compute in Hc; destruct Hc; congruence. }
  assert (Htok : ∀ o, o ≠ to_string n → token_names_iface_queue (queue_token iface d n) o (to_string q)
    = bool_decide (o = iface) && (bool_decide (n = q) || names_queue (to_string q) iface)).
  { intros o Hne. unfold token_names_iface_queue, queue_token. rewrite split_by_app, split_by_plain by done. cbn [existsb]. rewrite names_queue_digits by done.
    rewrite (bool_decide_false (to_string n = o)) by congruence. rewrite (bool_decide_ext (iface = o) (o = iface)) by (split; congruence).
    rewrite !orb_false_r. destruct (bool_decide (o = iface)); [|done]. cbn [negb andb]. apply orb_comm. }
  split; [by apply Htok|]. split.
  - intros letters Hne Hl Hi. unfold token_names_iface_queue, queue_token. rewrite split_by_app, split_by_plain by done. cbn [existsb]. rewrite bool_decide_true by done. cbn [orb negb].
    rewrite Hi at 1. by rewrite names_queue_letters.
  - intros fs Hm Hi. unfold irq_for_rx_queue, irq_from_sysfs. rewrite Hm. cbn [result_bind]. unfold irq_from_proc_interrupts. rewrite Hi. cbn [result_bind].
    split; vm_compute; reflexivity.
Qed.

Lemma irq_names_exact_witness :
  token_names_iface_queue (text "enp3s0-12") (text "enp3s0") (to_string 12) = true ∧
  token_names_iface_queue (text "enp3s0-12") (text "enp3s0") (to_string 2) = false ∧
  token_names_iface_queue (text "eth0-1") eth0 (to_string 0) = true.
Proof.
  destruct (irq_names_exact (text "enp3s0") (text "enp3s0") "-"%char 12 12) as [H1 _]; try (lia || reflexivity || discriminate); [repeat constructor|].
  destruct (irq_names_exact (text "enp3s0") (text "enp3s0") "-"%char 12 2) as [H2 _]; try (lia || reflexivity || discriminate); [repeat constructor|].
  destruct (irq_names_exact eth0 eth0 "-"%char 1 0) as (_ & H3 & _); try (lia || reflexivity || discriminate); [repeat constructor|].
  split; [exact H1|]. split; [exact H2|]. by apply (H3 (text "eth")).
Defined.

(** ** Queue discovery *)
Section Queues.
Variable fs : Sysfs.

(** The interfaces below a list of interfaces that are no bonds: a bond stands
    for the slaves it can be bound through. *)
Inductive leaves : list str → list str → Prop :=
  | leaves_nil : leaves [] []
  | leaves_own iface rest ls : bond_slaves fs iface = Ok None → leaves rest ls → leaves (iface :: rest) (iface :: ls)
  | leaves_bond iface slaves bindable ls rest ls' :
      bond_slaves fs iface = Ok (Some slaves) → xdp_bindable_bond_slaves fs iface slaves = Ok bindable → leaves bindable ls →
      leaves rest ls' → leaves (iface :: rest) (ls ++ ls').
(** The queues of a leaf. *)
Definition leaf_slots (iface : str) (slots : list XdpQueueSlot) : Prop :=
  ∃ count ifindex, rx_queue_count fs iface = Ok count ∧ if_name_to_index fs iface = Ok ifindex ∧ slots = own_slots iface ifindex count.

Lemma leaves_app l1 : ∀ l2 a b, leaves l1 a → leaves l2 b → leaves (l1 ++ l2) (a ++ b).
Proof.
  intros l2 a b H. induction H as [|iface rest ls Hb H IH|iface slaves bindable ls rest ls' Hb Hx H1 IH1 H2 IH2]; intros Hl2; cbn; [done| |].
  - constructor; auto.
  - rewrite <- app_assoc. econstructor; eauto.
Qed.

Lemma keep_bindable_sub selected : ∀ bindable, keep_bindable fs selected = Ok bindable → bindable ⊆ selected.
Proof.
  induction selected as [|s selected IH]; intros bindable Hk; cbn in Hk; [by simplify_eq|]. destruct (interface_can_bind_xdp fs s) as [can|]; [|done]. cbn [result_bind] in Hk.
  destruct (keep_bindable fs selected) as [rest|]; [|done]. cbn [result_bind] in Hk. specialize (IH rest eq_refl). destruct can; simplify_eq; set_solver.
Qed.
Lemma bindable_sub iface slaves bindable : xdp_bindable_bond_slaves fs iface slaves = Ok bindable → bindable ⊆ slaves.
Proof.
  unfold xdp_bindable_bond_slaves. destruct (bond_mode_is_active_backup fs iface) as [b|]; [|done]. cbn [result_bind].
  assert (Hgo : ∀ selected, selected ⊆ slaves → (bindable0 <-? keep_bindable fs selected; match bindable0 with [] => Err KindNotFound | _ :: _ => Ok bindable0 end) = Ok bindable → bindable ⊆ slaves).
  { intros selected Hs. destruct (keep_bindable fs selected) as [bs|] eqn:E; [|done]. cbn [result_bind]. apply keep_bindable_sub in E. destruct bs; [done|]. intros [= <-]. set_solver. }
  destruct b; [|by apply Hgo]. destruct (bond_active_slave fs iface) as [[a|]|]; try done. cbn [result_bind]. destruct (bool_decide (a ∈ slaves)) eqn:Ha; [|done]. cbn [result_bind].
  apply bool_decide_eq_true in Ha. apply Hgo. set_solver.
Qed.

(** The bonds are not circular: every slave has a smaller rank. *)
Variable rank : str → nat.
Hypothesis bonds_ranked : ∀ iface slaves, bond_slaves fs iface = Ok (Some slaves) → Forall (λ s, (rank s < rank iface)%nat) slaves.

Lemma fill_slots_ok (fuel : nat) : ∀ iface slots, (rank iface < fuel)%nat →
  ∃ r, fill_queue_slots fs fuel iface slots = Ret r ∧
    ∀ slots', r = Ok slots' → ∃ ls parts, leaves [iface] ls ∧ Forall2 leaf_slots ls parts ∧ slots' = slots ++ concat parts.
Proof.
  induction fuel as [|fuel IH]; intros iface slots Hr; [lia|]. cbn [fill_queue_slots].
  destruct (bond_slaves fs iface) as [[slaves|]|e] eqn:Hb; [| |by eexists].
  - destruct (xdp_bindable_bond_slaves fs iface slaves) as [bindable|e] eqn:Hx; [|by eexists].
    assert (Hrank : Forall (λ s, (rank s < fuel)%nat) bindable).
    { apply bonds_ranked in Hb. apply bindable_sub in Hx. rewrite Forall_forall in Hb |- *. intros s Hs%Hx%Hb. lia. }
    assert (Heach : ∀ bs slots, Forall (λ s, (rank s < fuel)%nat) bs → ∃ r, fill_each (fill_queue_slots fs fuel) bs slots = Ret r ∧
      ∀ slots', r = Ok slots' → ∃ ls parts, leaves bs ls ∧ Forall2 leaf_slots ls parts ∧ slots' = slots ++ concat parts).
    { clear -IH. induction bs as [|s bs IHb]; intros slots HF; cbn [fill_each].
      - eexists. split; [done|]. intros ? [= <-]. exists [], []. rewrite app_nil_r. split_and!; constructor.
      - apply Forall_cons in HF as [Hs HF]. destruct (IH s slots Hs) as (r & -> & Hr). run. destruct r as [slots1|e]; [|by eexists].
        destruct (Hr slots1 eq_refl) as (ls & parts & H1 & H2 & ->). destruct (IHb (slots ++ concat parts) HF) as (r & E & Hr'). exists r. split; [done|].
        intros slots' ->. destruct (Hr' slots' eq_refl) as (ls' & parts' & H3 & H4 & ->). exists (ls ++ ls'), (parts ++ parts').
        split; [by apply (leaves_app [s] bs)|]. split; [by apply Forall2_app|]. by rewrite concat_app, app_assoc. }
    destruct (Heach bindable slots Hrank) as (r & E & Hr'). exists r. split; [done|]. intros slots' Hs'. destruct (Hr' slots' Hs') as (ls & parts & H1 & H2 & H3).
    exists ls, parts. split; [|done]. rewrite <- (app_nil_r ls). econstructor; eauto using leaves_nil.
  - eexists. split; [done|]. intros slots'. destruct (rx_queue_count fs iface) as [count|] eqn:Hc; [|done]. cbn [result_bind].
    destruct (if_name_to_index fs iface) as [ifindex|] eqn:Hi; [|done]. cbn [result_bind]. intros [= <-]. exists [iface], [own_slots iface ifindex count].
    split; [constructor; [done|constructor]|]. split; [constructor; [by exists count, ifindex|constructor]|]. cbn. by rewrite app_nil_r.
Qed.

End Queues.

(** A bond of two interfaces, the second with two queues. *)
Definition bond_fs : Sysfs := mkSysfs (λ _, true)
  (λ path,
    if bool_decide (path = class_net (text "bond0") ++ text "/bonding/slaves") then Ok (text "eth1 eth2")
    else if bool_decide (path = class_net (text "bond0") ++ text "/bonding/mode") then Ok (text "802.3ad 4")
    else Err KindNotFound)
  (λ path,
    if bool_decide (path = class_net (text "eth1") ++ text "/queues") then Ok [Ok (text "rx-0"); Ok (text "tx-0")]
    else if bool_decide (path = class_net (text "eth2") ++ text "/queues") then Ok [Ok (text "rx-1"); Ok (text "rx-0")]
    else Err KindNotFound)
  (λ name, Ok (if bool_decide (name = text "eth1") then 3 else 4)) (λ _, Err KindNotFound).
Definition bond_rank (iface : str) : nat := if bool_decide (iface = text "bond0") then 1 else 0.

Lemma bond_ranked iface slaves : bond_slaves bond_fs iface = Ok (Some slaves) → Forall (λ s, (bond_rank s < bond_rank iface)%nat) slaves.
Proof.
  unfold bond_slaves, read_optional. cbn [sf_exists sf_read bond_fs negb]. case_bool_decide as E.
  - apply app_inv_tail, app_inv_head in E as ->. intros [= <-]. repeat constructor.
  - case_bool_decide as E'; [|done]. apply (f_equal reverse) in E'. unfold class_net in E'. rewrite !reverse_app in E'. discriminate.
Qed.

