(* ===== verification/Factory.v ===== *)
(** * The socket factory: [factory.rs], with the configuration it fills in
      ([config.rs]) and the check of the UMEM's node ([socket.rs])

    The first phase claims queues, attaches programs and partitions the queues
    into plans; the second opens a plan on its thread. Programs live in the
    registry of [program.rs]; the object's bytes are the built-in ones, so that
    what loading makes of them is an argument. *)
From stdpp Require Import strings.
From S2P Require Import Prelude Core Buffer Ring Wire Route Program Interface Aggregate.
Open Scope Z_scope.

(** ** Configuration *)
Inductive XdpMode := XdpAuto | ZeroCopy | XdpCopy.
Record QueueBufferConfig := mkQueueBuffers {
  qb_rx : BufferLayout;
  qb_tx : BufferLayout;
  qb_rx_depth : option Z;
  qb_tx_depth : option Z;
}.
Record XdpIpPacketSocketConfig := mkIpConfig {
  ic_ifindex : Z;
  ic_queue_id : Z;
  ic_numa_node : option Z;
  ic_huge_page_size : HugePageSize;
  ic_buffers : QueueBufferConfig;
  ic_rings : RingSizes;
  ic_mode : XdpMode;
  ic_mtu : Z;
  ic_frame_count : Z;
  ic_attach_mode : AttachMode;
  ic_program_bytes : option (list Z);
  ic_attached_program : option XdpProgramHandle;
  ic_bind_udp_port : option Z;
  ic_route_snapshot : RouteSnapshot;
}.
(** Updates of one field. *)
Definition with_queue_id (c : XdpIpPacketSocketConfig) (v : Z) : XdpIpPacketSocketConfig :=
  let '(mkIpConfig i _ n h b r m mtu f a pb ap p s) := c in mkIpConfig i v n h b r m mtu f a pb ap p s.
Definition with_numa_node (c : XdpIpPacketSocketConfig) (v : option Z) : XdpIpPacketSocketConfig :=
  let '(mkIpConfig i q _ h b r m mtu f a pb ap p s) := c in mkIpConfig i q v h b r m mtu f a pb ap p s.
Definition with_huge_page_size (c : XdpIpPacketSocketConfig) (v : HugePageSize) : XdpIpPacketSocketConfig :=
  let '(mkIpConfig i q n _ b r m mtu f a pb ap p s) := c in mkIpConfig i q n v b r m mtu f a pb ap p s.
Definition with_buffers (c : XdpIpPacketSocketConfig) (v : QueueBufferConfig) : XdpIpPacketSocketConfig :=
  let '(mkIpConfig i q n h _ r m mtu f a pb ap p s) := c in mkIpConfig i q n h v r m mtu f a pb ap p s.
Definition with_rings (c : XdpIpPacketSocketConfig) (v : RingSizes) : XdpIpPacketSocketConfig :=
  let '(mkIpConfig i q n h b _ m mtu f a pb ap p s) := c in mkIpConfig i q n h b v m mtu f a pb ap p s.
Definition with_mode (c : XdpIpPacketSocketConfig) (v : XdpMode) : XdpIpPacketSocketConfig :=
  let '(mkIpConfig i q n h b r _ mtu f a pb ap p s) := c in mkIpConfig i q n h b r v mtu f a pb ap p s.
Definition with_mtu (c : XdpIpPacketSocketConfig) (v : Z) : XdpIpPacketSocketConfig :=
  let '(mkIpConfig i q n h b r m _ f a pb ap p s) := c in mkIpConfig i q n h b r m v f a pb ap p s.
Definition with_frame_count (c : XdpIpPacketSocketConfig) (v : Z) : XdpIpPacketSocketConfig :=
  let '(mkIpConfig i q n h b r m mtu _ a pb ap p s) := c in mkIpConfig i q n h b r m mtu v a pb ap p s.
Definition with_attach_mode (c : XdpIpPacketSocketConfig) (v : AttachMode) : XdpIpPacketSocketConfig :=
  let '(mkIpConfig i q n h b r m mtu f _ pb ap p s) := c in mkIpConfig i q n h b r m mtu f v pb ap p s.
Definition with_program_bytes (c : XdpIpPacketSocketConfig) (v : option (list Z)) : XdpIpPacketSocketConfig :=
  let '(mkIpConfig i q n h b r m mtu f a _ ap p s) := c in mkIpConfig i q n h b r m mtu f a v ap p s.
Definition with_attached_program (c : XdpIpPacketSocketConfig) (v : option XdpProgramHandle) : XdpIpPacketSocketConfig :=
  let '(mkIpConfig i q n h b r m mtu f a pb _ p s) := c in mkIpConfig i q n h b r m mtu f a pb v p s.
Definition with_bind_udp_port (c : XdpIpPacketSocketConfig) (v : option Z) : XdpIpPacketSocketConfig :=
  let '(mkIpConfig i q n h b r m mtu f a pb ap _ s) := c in mkIpConfig i q n h b r m mtu f a pb ap v s.
Definition with_route_snapshot (c : XdpIpPacketSocketConfig) (v : RouteSnapshot) : XdpIpPacketSocketConfig :=
  let '(mkIpConfig i q n h b r m mtu f a pb ap p _) := c in mkIpConfig i q n h b r m mtu f a pb ap p v.

(** [XdpIpPacketSocketConfig::default]. *)
Definition default_layout (headroom : Z) : outcome BufferLayout :=
  l ← with_headroom_and_tailroom 2048 headroom 0;
  l ← with_l2_headroom l 64;
  l ← with_alignment l 2048;
  with_fixed_chunk l 4096 4096.
Definition config_default : outcome XdpIpPacketSocketConfig :=
  rx ← default_layout 0;
  tx ← default_layout 64;
  Ret (mkIpConfig 1 0 None HugeDefault (mkQueueBuffers rx tx (Some 2048) (Some 2048)) RingSizes_default ZeroCopy 1500 4096
         AttachDefault None None None snapshot_new).
Definition config_new (ifindex queue_id : Z) : outcome XdpIpPacketSocketConfig :=
  c ← config_default;
  let '(mkIpConfig _ _ n h b r m mtu f a pb ap p s) := c in
  Ret (mkIpConfig ifindex queue_id n h b r m mtu f a pb ap p s).

(** ** Builders

    Every method sets one field of the configuration; those of the UDP builder
    that concern the port also set what its parser accepts. *)
Module IpBuilder.
Record t := mk { config : XdpIpPacketSocketConfig }.
Definition new (ifindex queue_id : Z) : outcome t := c ← config_new ifindex queue_id; Ret (mk c).
Definition buffers (v : QueueBufferConfig) (b : t) : t := mk (with_buffers (config b) v).
Definition numa_node (v : Z) (b : t) : t := mk (with_numa_node (config b) (Some v)).
Definition huge_page_size (v : HugePageSize) (b : t) : t := mk (with_huge_page_size (config b) v).
Definition rings (v : RingSizes) (b : t) : t := mk (with_rings (config b) v).
Definition mode (v : XdpMode) (b : t) : t := mk (with_mode (config b) v).
Definition mtu (v : Z) (b : t) : t := mk (with_mtu (config b) v).
Definition frame_count (v : Z) (b : t) : t := mk (with_frame_count (config b) v).
Definition attach_mode (v : AttachMode) (b : t) : t := mk (with_attach_mode (config b) v).
Definition program_bytes (v : list Z) (b : t) : t := mk (with_program_bytes (config b) (Some v)).
Definition attached_program (v : XdpProgramHandle) (b : t) : t := mk (with_attached_program (config b) (Some v)).
Definition bind_udp_port (v : Z) (b : t) : t := mk (with_bind_udp_port (config b) (Some v)).
Definition route_snapshot (v : RouteSnapshot) (b : t) : t := mk (with_route_snapshot (config b) v).
Definition into_config (b : t) : XdpIpPacketSocketConfig := config b.
End IpBuilder.

Module UdpBuilder.
Record t (R : Type) := mk {
  config : XdpIpPacketSocketConfig;
  local_addr : SocketAddr;
  accepted : XdpUdpAcceptedPorts;
  router_of : R;
}.
Arguments mk {R} _ _ _ _.
Arguments config {R} _.
Arguments local_addr {R} _.
Arguments accepted {R} _.
Arguments router_of {R} _.
Definition new (ifindex queue_id ip port : Z) : outcome (t XdpQueueLocalRouter) :=
  c ← config_new ifindex queue_id;
  Ret (mk (with_bind_udp_port c (Some port)) (SocketAddrV4 ip port) (Single port) (mkQueueLocalRouter (local_routes_new snapshot_new))).
Definition route_snapshot (v : RouteSnapshot) (b : t XdpQueueLocalRouter) : t XdpQueueLocalRouter :=
  mk (with_route_snapshot (config b) v) (local_addr b) (accepted b) (mkQueueLocalRouter (local_routes_new v)).

Section Setters.
Context {R : Type}.
Definition on_config (f : XdpIpPacketSocketConfig → XdpIpPacketSocketConfig) (b : t R) : t R :=
  mk (f (config b)) (local_addr b) (accepted b) (router_of b).
Definition buffers (v : QueueBufferConfig) : t R → t R := on_config (λ c, with_buffers c v).
Definition numa_node (v : Z) : t R → t R := on_config (λ c, with_numa_node c (Some v)).
Definition huge_page_size (v : HugePageSize) : t R → t R := on_config (λ c, with_huge_page_size c v).
Definition rings (v : RingSizes) : t R → t R := on_config (λ c, with_rings c v).
Definition mode (v : XdpMode) : t R → t R := on_config (λ c, with_mode c v).
Definition mtu (v : Z) : t R → t R := on_config (λ c, with_mtu c v).
Definition frame_count (v : Z) : t R → t R := on_config (λ c, with_frame_count c v).
Definition attach_mode (v : AttachMode) : t R → t R := on_config (λ c, with_attach_mode c v).
Definition program_bytes (v : list Z) : t R → t R := on_config (λ c, with_program_bytes c (Some v)).
Definition attached_program (v : XdpProgramHandle) : t R → t R := on_config (λ c, with_attached_program c (Some v)).
Definition bind_udp_port (port : Z) (b : t R) : t R :=
  mk (with_bind_udp_port (config b) (Some port)) (local_addr b) (Single port) (router_of b).
Definition without_udp_port_filter : t R → t R := on_config (λ c, with_bind_udp_port c None).
Definition udp_ports (ports : list Z) (b : t R) : outcome (t R) :=
  accepted ← accepted_ports ports; Ret (mk (config b) (local_addr b) accepted (router_of b)).
Definition udp_port_range (start stop : Z) (b : t R) : outcome (t R) :=
  accepted ← accepted_range start stop; Ret (mk (config b) (local_addr b) accepted (router_of b)).
Definition router {N} (router : N) (b : t R) : t N := mk (config b) (local_addr b) (accepted b) router.
End Setters.
End UdpBuilder.

(** [resolve_umem_numa_node] of [socket.rs]. *)
Definition resolve_umem_numa_node (fs : Sysfs) (config : XdpIpPacketSocketConfig) : result Z IoKind :=
  iface <-? if_index_to_name fs (ic_ifindex config);
  match numa_node_for_interface fs iface with
  | Ok node =>
      match ic_numa_node config with
      | Some configured => if negb (configured =? node) then Err KindInvalidInput else Ok node
      | None => Ok node
      end
  | Err error => match ic_numa_node config with Some node => Ok node | None => Err error end
  end.

(** ** Selections *)
Inductive InterfaceSelector := ByName (name : str) | ByIndex (index : Z).
Inductive QueueClaim := ClaimAll | ClaimFirst (n : Z) | ClaimQueues (queues : list Z).
Inductive PortFilter := AllIp | UdpPorts (ports : list Z) | UdpPortRange (start stop : Z).

Inductive FactoryError :=
  | NoPorts | InvertedPorts | DisabledPorts | QueuesMissing (missing available : list Z) | NoQueues | NoThreads
  | FactoryProgram (e : ProgramError) | FactoryIo (k : IoKind)
  | ThreadsNotMultiple | QueuesNotMultiple (node : Z) | BlockSpansInterfaces (node : Z) | CoreNotOnNode (cpu : Z).

(** [PortFilter::validate] and [PortFilter::program_config]. *)
Definition port_filter_validate (f : PortFilter) : result unit FactoryError :=
  match f with
  | AllIp => Ok tt
  | UdpPorts ports => if len ports =? 0 then Err NoPorts else Ok tt
  | UdpPortRange start stop =>
      if stop <? start then Err InvertedPorts
      else if (start =? 0) && (stop =? 0) then Err DisabledPorts
      else Ok tt
  end.
Definition program_config (f : PortFilter) : XdpProgramConfig :=
  match f with
  | UdpPortRange start stop => PortRange start stop
  | AllIp | UdpPorts _ => BoundPorts
  end.

Record XdpFactoryBuilder := mkBuilder {
  fb_iface : str;
  fb_slots : list XdpQueueSlot;
  fb_claim : QueueClaim;
  fb_threads : option Z;
  fb_port_filter : PortFilter;
  fb_frame_count : Z;
  fb_huge_page_size : HugePageSize;
  fb_mtu : Z;
  fb_rings : RingSizes;
  fb_mode : XdpMode;
  fb_attach_mode : AttachMode;
  fb_buffers : QueueBufferConfig;
  fb_route_snapshot : RouteSnapshot;
  fb_core_assignment : option (Z → list Z → Z → Z);
}.

(** [XdpFactoryBuilder::new]. *)
Definition factory_builder_new (fs : Sysfs) (fuel : nat) (iface : InterfaceSelector) :
    outcome (result XdpFactoryBuilder IoKind) :=
  match match iface with ByName name => Ok name | ByIndex index => if_index_to_name fs index end with
  | Err k => Ret (Err k)
  | Ok iface =>
      r ← xdp_queue_slots_for_interface fs fuel iface;
      defaults ← config_default;
      Ret (slots <-? r;
           Ok (mkBuilder iface slots ClaimAll None AllIp (ic_frame_count defaults) (ic_huge_page_size defaults) (ic_mtu defaults)
                 (ic_rings defaults) (ic_mode defaults) (ic_attach_mode defaults) (ic_buffers defaults) snapshot_new None))
  end.

(** The builder's methods. *)
Module FactorySetters.
Definition claim (v : QueueClaim) (b : XdpFactoryBuilder) : XdpFactoryBuilder :=
  let '(mkBuilder ifc sl _ th pf f h mtu r m a bu s ca) := b in mkBuilder ifc sl v th pf f h mtu r m a bu s ca.
Definition threads (v : Z) (b : XdpFactoryBuilder) : XdpFactoryBuilder :=
  let '(mkBuilder ifc sl cl _ pf f h mtu r m a bu s ca) := b in mkBuilder ifc sl cl (Some v) pf f h mtu r m a bu s ca.
Definition port_filter (v : PortFilter) (b : XdpFactoryBuilder) : XdpFactoryBuilder :=
  let '(mkBuilder ifc sl cl th _ f h mtu r m a bu s ca) := b in mkBuilder ifc sl cl th v f h mtu r m a bu s ca.
Definition frame_count (v : Z) (b : XdpFactoryBuilder) : XdpFactoryBuilder :=
  let '(mkBuilder ifc sl cl th pf _ h mtu r m a bu s ca) := b in mkBuilder ifc sl cl th pf v h mtu r m a bu s ca.
Definition huge_page_size (v : HugePageSize) (b : XdpFactoryBuilder) : XdpFactoryBuilder :=
  let '(mkBuilder ifc sl cl th pf f _ mtu r m a bu s ca) := b in mkBuilder ifc sl cl th pf f v mtu r m a bu s ca.
Definition mtu (v : Z) (b : XdpFactoryBuilder) : XdpFactoryBuilder :=
  let '(mkBuilder ifc sl cl th pf f h _ r m a bu s ca) := b in mkBuilder ifc sl cl th pf f h v r m a bu s ca.
Definition rings (v : RingSizes) (b : XdpFactoryBuilder) : XdpFactoryBuilder :=
  let '(mkBuilder ifc sl cl th pf f h mtu _ m a bu s ca) := b in mkBuilder ifc sl cl th pf f h mtu v m a bu s ca.
Definition xdp_mode (v : XdpMode) (b : XdpFactoryBuilder) : XdpFactoryBuilder :=
  let '(mkBuilder ifc sl cl th pf f h mtu r _ a bu s ca) := b in mkBuilder ifc sl cl th pf f h mtu r v a bu s ca.
Definition attach_mode (v : AttachMode) (b : XdpFactoryBuilder) : XdpFactoryBuilder :=
  let '(mkBuilder ifc sl cl th pf f h mtu r m _ bu s ca) := b in mkBuilder ifc sl cl th pf f h mtu r m v bu s ca.
Definition buffers (v : QueueBufferConfig) (b : XdpFactoryBuilder) : XdpFactoryBuilder :=
  let '(mkBuilder ifc sl cl th pf f h mtu r m a _ s ca) := b in mkBuilder ifc sl cl th pf f h mtu r m a v s ca.
Definition route_snapshot (v : RouteSnapshot) (b : XdpFactoryBuilder) : XdpFactoryBuilder :=
  let '(mkBuilder ifc sl cl th pf f h mtu r m a bu _ ca) := b in mkBuilder ifc sl cl th pf f h mtu r m a bu v ca.
Definition core_assignment (v : Z → list Z → Z → Z) (b : XdpFactoryBuilder) : XdpFactoryBuilder :=
  let '(mkBuilder ifc sl cl th pf f h mtu r m a bu s _) := b in mkBuilder ifc sl cl th pf f h mtu r m a bu s (Some v).
Definition udp_ports (ports : list Z) : XdpFactoryBuilder → XdpFactoryBuilder := port_filter (UdpPorts ports).
Definition udp_port_range (start stop : Z) : XdpFactoryBuilder → XdpFactoryBuilder := port_filter (UdpPortRange start stop).
End FactorySetters.

Definition find_slot (slots : list XdpQueueSlot) (flat : Z) : option XdpQueueSlot :=
  snd <$> list_find (λ slot, qs_flat_index slot = flat) slots.
Definition claimed_slots (b : XdpFactoryBuilder) : list XdpQueueSlot :=
  match fb_claim b with
  | ClaimAll => fb_slots b
  | ClaimFirst n => take (Z.to_nat n) (fb_slots b)
  | ClaimQueues queues => omap (find_slot (fb_slots b)) queues
  end.
Definition claimed_queue_count (b : XdpFactoryBuilder) : Z :=
  match fb_claim b with
  | ClaimAll => u32 (len (fb_slots b))
  | ClaimFirst n => u32 (Z.min n (len (fb_slots b)))
  | ClaimQueues queues => u32 (len queues)
  end.
Definition claimed_slots_checked (b : XdpFactoryBuilder) : result (list XdpQueueSlot) FactoryError :=
  match fb_claim b with
  | ClaimQueues queues =>
      match filter (λ flat, find_slot (fb_slots b) flat = None) queues with
      | [] => Ok (omap (find_slot (fb_slots b)) queues)
      | missing => Err (QueuesMissing missing (qs_flat_index <$> fb_slots b))
      end
  | _ => Ok (claimed_slots b)
  end.
Definition io {A} (r : result A IoKind) : result A FactoryError := match r with Ok a => Ok a | Err k => Err (FactoryIo k) end.
(** The distinct CPUs of the claimed queues' interrupts. *)
Fixpoint irq_cpus (fs : Sysfs) (slots : list XdpQueueSlot) (cpus : gset Z) : result (gset Z) FactoryError :=
  match slots with
  | [] => Ok cpus
  | slot :: slots => cpu <-? io (cpu_for_xdp_queue fs slot); irq_cpus fs slots ({[cpu]} ∪ cpus)
  end.
Definition irq_cpu_count (fs : Sysfs) (b : XdpFactoryBuilder) : result Z FactoryError :=
  slots <-? claimed_slots_checked b;
  cpus <-? irq_cpus fs slots ∅;
  Ok (u32 (Z.of_nat (size cpus))).

(** ** [BTreeMap] with integer keys: an association list in key order *)
Section BTree.
Context {A : Type}.
Fixpoint bt_get (m : list (Z * A)) (k : Z) : option A :=
  match m with
  | [] => None
  | (k', v) :: m => if k' =? k then Some v else bt_get m k
  end.
(** [entry(k)] updated by [f], which gets what is there. *)
Fixpoint bt_alter (f : option A → A) (k : Z) (m : list (Z * A)) : list (Z * A) :=
  match m with
  | [] => [(k, f None)]
  | (k', v) :: m' => if k' =? k then (k, f (Some v)) :: m' else if k <? k' then (k, f None) :: m else (k', v) :: bt_alter f k m'
  end.
End BTree.

(** [sort_by_key], which is stable. *)
Fixpoint insert_by (key : XdpQueueSlot → Z) (x : XdpQueueSlot) (l : list XdpQueueSlot) : list XdpQueueSlot :=
  match l with
  | [] => [x]
  | y :: l' => if key x <=? key y then x :: l else y :: insert_by key x l'
  end.
Definition sort_by_key (key : XdpQueueSlot → Z) (l : list XdpQueueSlot) : list XdpQueueSlot := foldr (insert_by key) [] l.

(** [chunks(n)] of a slice. *)
Fixpoint chunks_loop {A} (fuel n : nat) (l : list A) : list (list A) :=
  match fuel, l with
  | S fuel, _ :: _ => take n l :: chunks_loop fuel n (drop n l)
  | _, _ => []
  end.
Definition chunks {A} (n : Z) (l : list A) : outcome (list (list A)) :=
  assert! negb (n =? 0);
  Ret (chunks_loop (length l) (Z.to_nat n) l).
Definition is_multiple_of (a b : Z) : bool := if b =? 0 then a =? 0 else a mod b =? 0.
Definition div_usize (a b : Z) : outcome Z := if b =? 0 then Panic else Ret (a / b).

(** ** Plans *)
Record XdpWorkerPlan := mkPlan {
  wp_cpu : Z;
  wp_numa : option Z;
  wp_ifindex : Z;
  wp_queues : list Z;
  wp_config : XdpIpPacketSocketConfig;
  wp_port_filter : PortFilter;
}.
(** [XdpWorkerPlan::new]. *)
Definition worker_plan_new (config : XdpIpPacketSocketConfig) (queues : list Z) (cpu : Z) (numa : option Z) : XdpWorkerPlan :=
  mkPlan cpu numa (ic_ifindex config) queues config AllIp.
Record XdpFactory := mkFactory {
  xf_plans : list XdpWorkerPlan;
  xf_programs : list (Z * XdpProgramHandle);
}.
Definition plan_handles (plans : list XdpWorkerPlan) : list XdpProgramHandle := omap (ic_attached_program ∘ wp_config) plans.

Section Nodes.
Variable fs : Sysfs.

Fixpoint node_maps (nodes : list Z) (m : gmap Z Z) : result (gmap Z Z) FactoryError :=
  match nodes with
  | [] => Ok m
  | node :: nodes =>
      cpus <-? io (cpus_for_numa_node fs node);
      node_maps nodes (foldl (λ m cpu, <[cpu := node]> m) m cpus)
  end.
Definition build_cpu_node_map : result (gmap Z Z) FactoryError :=
  nodes <-? io (online_numa_nodes fs);
  node_maps nodes ∅.
Definition queue_numa_node (slot : XdpQueueSlot) (cpu_node : gmap Z Z) : result Z FactoryError :=
  match (match cpu_for_xdp_queue fs slot with Ok cpu => cpu_node !! cpu | Err _ => None end) with
  | Some node => Ok node
  | None =>
      iface <-? io (if_index_to_name fs (qs_ifindex slot));
      io (numa_node_for_interface fs iface)
  end.
Fixpoint group_by_node (slots : list XdpQueueSlot) (cpu_node : gmap Z Z) (by_node : list (Z * list XdpQueueSlot)) :
    result (list (Z * list XdpQueueSlot)) FactoryError :=
  match slots with
  | [] => Ok by_node
  | slot :: slots =>
      node <-? queue_numa_node slot cpu_node;
      group_by_node slots cpu_node (bt_alter (λ o, default [] o ++ [slot]) node by_node)
  end.
End Nodes.

(** ** [factory_build] *)
Section Build.
Context {E : Type} `{Aya E}.
Variables (fs : Sysfs) (loaded : Z → result E string) (hash : Z).
(** The size of a plan in memory, which bounds the capacity of a vector. *)
Variable plan_size : Z.
Implicit Types (g : Registry E) (b : XdpFactoryBuilder).

Definition drop_handles g (hs : list XdpProgramHandle) : Registry E := foldl handle_drop g hs.

(** One program per interface. *)
Fixpoint load_programs b g (slots : list XdpQueueSlot) (programs : list (Z * XdpProgramHandle)) :
    Registry E * list (Z * XdpProgramHandle) * result unit FactoryError :=
  match slots with
  | [] => (g, programs, Ok tt)
  | slot :: slots =>
      match bt_get programs (qs_ifindex slot) with
      | Some _ => load_programs b g slots programs
      | None =>
          let '(g, r) := load_with_config g (qs_ifindex slot) (fb_attach_mode b) (program_config (fb_port_filter b)) (loaded (qs_ifindex slot)) hash in
          match r with
          | Err e => (g, programs, Err (FactoryProgram e))
          | Ok handle => load_programs b g slots (bt_alter (λ _, handle) (qs_ifindex slot) programs)
          end
      end
  end.

(** An operation on the program of a handle, under its lock. *)
Definition on_program {A} (m : PM (XdpProgram E) A) g (h : XdpProgramHandle) : outcome (Registry E * result A ProgramError) :=
  match rg_heap g !! ph_program h with
  | None => UB
  | Some (n, p) =>
      let '(p, r) := m p in
      Ret (mkRegistry (rg_map g) (<[ph_program h := (n, p)]> (rg_heap g)), r)
  end.
Fixpoint bind_ports g (h : XdpProgramHandle) (ports : list Z) : outcome (Registry E * result unit FactoryError) :=
  match ports with
  | [] => Ret (g, Ok tt)
  | port :: ports =>
      '(g, r) ← on_program (bind_port port) g h;
      match r with
      | Err e => Ret (g, Err (FactoryProgram e))
      | Ok _ => bind_ports g h ports
      end
  end.
Fixpoint bind_programs g (hs : list XdpProgramHandle) (ports : list Z) : outcome (Registry E * result unit FactoryError) :=
  match hs with
  | [] => Ret (g, Ok tt)
  | h :: hs =>
      '(g, r) ← bind_ports g h ports;
      match r with
      | Err e => Ret (g, Err e)
      | Ok _ => bind_programs g hs ports
      end
  end.

Definition choose_core b (node : Z) (cores : list Z) (i : Z) : outcome (result Z FactoryError) :=
  match fb_core_assignment b with
  | Some assign =>
      let chosen := assign node cores i in
      Ret (if bool_decide (chosen ∈ cores) then Ok chosen else Err (CoreNotOnNode chosen))
  | None => i ← rem_usize i (len cores); cpu ← index cores i; Ret (Ok cpu)
  end.
Definition plan_config b (ifindex queue node : Z) (program : XdpProgramHandle) : XdpIpPacketSocketConfig :=
  mkIpConfig ifindex queue (Some node) (fb_huge_page_size b) (fb_buffers b) (fb_rings b) (fb_mode b) (fb_mtu b) (fb_frame_count b)
    (fb_attach_mode b) None (Some program) None (fb_route_snapshot b).

Definition plan_block b (programs : list (Z * XdpProgramHandle)) (node : Z) (cores : list Z) g (i : Z) (block : list XdpQueueSlot) :
    outcome (Registry E * result XdpWorkerPlan FactoryError) :=
  first ← index block 0;
  let ifindex := qs_ifindex first in
  if existsb (λ slot, negb (qs_ifindex slot =? ifindex)) block then Ret (g, Err (BlockSpansInterfaces node))
  else
    r ← choose_core b node cores i;
    match r with
    | Err e => Ret (g, Err e)
    | Ok cpu =>
        let queues := qs_queue <$> block in
        queue ← index queues 0;
        match bt_get programs ifindex with
        | None => Panic
        | Some program =>
            let '(g, program) := handle_clone g program in
            Ret (g, Ok (mkPlan cpu (Some node) ifindex queues (plan_config b ifindex queue node program) (fb_port_filter b)))
        end
    end.
Fixpoint plan_blocks b (programs : list (Z * XdpProgramHandle)) (node : Z) (cores : list Z) g (i : Z) (blocks : list (list XdpQueueSlot))
    (plans : list XdpWorkerPlan) : outcome (Registry E * list XdpWorkerPlan * result unit FactoryError) :=
  match blocks with
  | [] => Ret (g, plans, Ok tt)
  | block :: blocks =>
      '(g, r) ← plan_block b programs node cores g i block;
      match r with
      | Err e => Ret (g, plans, Err e)
      | Ok plan => plan_blocks b programs node cores g (i + 1) blocks (plans ++ [plan])
      end
  end.
Fixpoint plan_nodes b (programs : list (Z * XdpProgramHandle)) (threads_per_node : Z) g (by_node : list (Z * list XdpQueueSlot))
    (plans : list XdpWorkerPlan) : outcome (Registry E * list XdpWorkerPlan * result unit FactoryError) :=
  match by_node with
  | [] => Ret (g, plans, Ok tt)
  | (node, slots) :: by_node =>
      let slots := sort_by_key qs_ifindex slots in
      let node_queue_count := len slots in
      if negb (is_multiple_of node_queue_count threads_per_node) then Ret (g, plans, Err (QueuesNotMultiple node))
      else
        per_block ← div_usize node_queue_count threads_per_node;
        match cpus_for_numa_node fs node with
        | Err k => Ret (g, plans, Err (FactoryIo k))
        | Ok cores =>
            blocks ← chunks per_block slots;
            '(g, plans, r) ← plan_blocks b programs node cores g 0 blocks plans;
            match r with
            | Err e => Ret (g, plans, Err e)
            | Ok _ => plan_nodes b programs threads_per_node g by_node plans
            end
        end
  end.

(** Everything behind the loading of the programs. *)
Definition partition b g (programs : list (Z * XdpProgramHandle)) (claimed : list XdpQueueSlot) (threads : Z) :
    outcome (Registry E * list XdpWorkerPlan * result unit FactoryError) :=
  match build_cpu_node_map fs with
  | Err e => Ret (g, [], Err e)
  | Ok cpu_node =>
      match group_by_node fs claimed cpu_node [] with
      | Err e => Ret (g, [], Err e)
      | Ok by_node =>
          let num_nodes := len by_node in
          if negb (is_multiple_of threads num_nodes) then Ret (g, [], Err ThreadsNotMultiple)
          else
            threads_per_node ← div_usize threads num_nodes;
            assert! threads * plan_size <=? 2 ^ 63 - 1;
            plan_nodes b programs threads_per_node g by_node []
      end
  end.
(** An error drops the plans made so far and the programs. *)
Definition fail_build g (plans : list XdpWorkerPlan) (programs : list (Z * XdpProgramHandle)) (e : FactoryError) :
    Registry E * result XdpFactory FactoryError :=
  (drop_handles (drop_handles g (plan_handles plans)) programs.*2, Err e).

Definition factory_build b g : outcome (Registry E * result XdpFactory FactoryError) :=
  match port_filter_validate (fb_port_filter b) with
  | Err e => Ret (g, Err e)
  | Ok _ =>
  match claimed_slots_checked b with
  | Err e => Ret (g, Err e)
  | Ok claimed =>
  if len claimed =? 0 then Ret (g, Err NoQueues)
  else
    let threads := default (len claimed) (fb_threads b) in
    if threads =? 0 then Ret (g, Err NoThreads)
    else
      let '(g, programs, r) := load_programs b g claimed [] in
      match r with
      | Err e => Ret (fail_build g [] programs e)
      | Ok _ =>
          '(g, r) ← match fb_port_filter b with
                    | UdpPorts ports => bind_programs g programs.*2 ports
                    | _ => Ret (g, Ok tt)
                    end;
          match r with
          | Err e => Ret (fail_build g [] programs e)
          | Ok _ =>
              '(g, plans, r) ← partition b g programs claimed threads;
              match r with
              | Err e => Ret (fail_build g plans programs e)
              | Ok _ => Ret (g, Ok (mkFactory plans programs))
              end
          end
      end
  end
  end.

(** ** The factory and its plans *)
Definition program_handle (f : XdpFactory) (ifindex : Z) : option XdpProgramHandle := bt_get (xf_programs f) ifindex.
(** [into_worker_plans]: the factory's own handles are dropped. *)
Definition into_worker_plans g (f : XdpFactory) : Registry E * list XdpWorkerPlan := (drop_handles g (xf_programs f).*2, xf_plans f).
End Build.

Definition resolve_interface_index (fs : Sysfs) (selector : InterfaceSelector) : result Z IoKind :=
  match selector with
  | ByName name => if_name_to_index fs name
  | ByIndex i => Ok i
  end.

(** ** Opening a plan

    What the members of a plan's aggregate are opened with. *)
Record UdpOpen := mkUdpOpen {
  uo_mode : PollMode;
  uo_config : XdpIpPacketSocketConfig;
  uo_queues : list Z;
  uo_local : SocketAddr;
  uo_accepted : XdpUdpAcceptedPorts;
}.
Definition open_udp_with (mode : PollMode) (plan : XdpWorkerPlan) (local : SocketAddr) (port : Z) : outcome UdpOpen :=
  match wp_port_filter plan with
  | AllIp => Ret (mkUdpOpen mode (with_bind_udp_port (wp_config plan) (Some port)) (wp_queues plan) local (Single port))
  | UdpPorts ports =>
      accepted ← accepted_ports ports;
      Ret (mkUdpOpen mode (with_bind_udp_port (wp_config plan) None) (wp_queues plan) local accepted)
  | UdpPortRange start stop =>
      accepted ← accepted_range start stop;
      Ret (mkUdpOpen mode (with_bind_udp_port (wp_config plan) None) (wp_queues plan) local accepted)
  end.
Definition open_udp_busy_poll_unpinned : XdpWorkerPlan → SocketAddr → Z → outcome UdpOpen := open_udp_with BusyPoll.
Definition open_udp_wait_driven_unpinned : XdpWorkerPlan → SocketAddr → Z → outcome UdpOpen := open_udp_with WaitDriven.

Section Pinned.
Variable sched_setaffinity : gset Z → result unit Z.
Definition pinned {A} (plan : XdpWorkerPlan) (k : outcome A) : outcome (result A IoError) :=
  match pin_current_thread_to_cpu sched_setaffinity (wp_cpu plan) with
  | Err e => Ret (Err e)
  | Ok _ => a ← k; Ret (Ok a)
  end.
Definition open_udp_busy_poll (plan : XdpWorkerPlan) (local : SocketAddr) (port : Z) : outcome (result UdpOpen IoError) :=
  pinned plan (open_udp_busy_poll_unpinned plan local port).
Definition open_udp_wait_driven (plan : XdpWorkerPlan) (local : SocketAddr) (port : Z) : outcome (result UdpOpen IoError) :=
  pinned plan (open_udp_wait_driven_unpinned plan local port).
End Pinned.
