(* ===== verification/FactoryProofs.v ===== *)
(** * Lemmas of the socket factory *)
From stdpp Require Import strings sorting.
From S2P Require Import Prelude Core Ring Wire Route Program ProgramProofs Interface Aggregate Factory.
Open Scope Z_scope.

Lemma index_lookup_at {A} (l : list A) i x : 0 ≤ i → l !! Z.to_nat i = Some x → index l i = Ret x.
Proof. intros Hi Hx. apply index_Some. unfold nthZ. destruct (Z.ltb_spec i 0); [lia|done]. Qed.

(** ** Ordered maps, sorting and chunks *)
Lemma bt_get_alter {A} (f : option A → A) k k' m : StronglySorted Z.lt m.*1 →
  bt_get (bt_alter f k m) k' = if decide (k' = k) then Some (f (bt_get m k)) else bt_get m k'.
Proof.
  induction m as [|[k1 v] m IH]; intros Hs; cbn [bt_alter bt_get].
  { destruct (Z.eqb_spec k k'), (decide (k' = k)); congruence. }
  cbn in Hs. apply StronglySorted_inv in Hs as [Hs Hk]. destruct (Z.eqb_spec k1 k) as [->|Hne].
  { cbn [bt_get]. destruct (Z.eqb_spec k k'), (decide (k' = k)); congruence. }
  destruct (Z.ltb_spec k k1).
  - cbn [bt_get]. assert (bt_get m k = None) as ->.
    { clear -Hk H. induction m as [|[k2 v2] m IH]; [done|]. apply Forall_cons in Hk as [H2 Hk]. cbn. destruct (Z.eqb_spec k2 k); [cbn in H2; lia|]. by apply IH. }
    destruct (Z.eqb_spec k k'), (decide (k' = k)); congruence.
  - cbn [bt_get]. destruct (Z.eqb_spec k1 k') as [<-|]; [by destruct (decide (k1 = k))|]. by apply IH.
Qed.

Lemma bt_alter_keys {A} (f : option A → A) k m x : x ∈ (bt_alter f k m).*1 → x = k ∨ x ∈ m.*1.
Proof.
  induction m as [|[k1 v] m IH]; cbn [bt_alter]; [set_solver|]. destruct (k1 =? k), (k <? k1); cbn; set_solver.
Qed.
Lemma bt_alter_sorted {A} (f : option A → A) k m : StronglySorted Z.lt m.*1 → StronglySorted Z.lt (bt_alter f k m).*1.
Proof.
  induction m as [|[k1 v] m IH]; intros Hs; cbn [bt_alter]; [repeat constructor|]. cbn in Hs. pose proof Hs as Hs0. apply StronglySorted_inv in Hs as [Hs Hk].
  destruct (Z.eqb_spec k1 k) as [->|]; [done|]. destruct (Z.ltb_spec k k1); cbn.
  - constructor; [done|]. constructor; [done|]. eapply Forall_impl; [exact Hk|]. cbn. lia.
  - constructor; [by apply IH|]. rewrite Forall_forall. intros x [->|Hx]%bt_alter_keys; [lia|]. rewrite Forall_forall in Hk. by apply Hk.
Qed.

(** A sorted map is known by its entries. *)
Lemma bt_get_elem {A} (m : list (Z * A)) k v : StronglySorted Z.lt m.*1 → bt_get m k = Some v ↔ (k, v) ∈ m.
Proof.
  induction m as [|[k1 v1] m IH]; intros Hs; cbn [bt_get]; [set_solver|]. cbn in Hs. apply StronglySorted_inv in Hs as [Hs Hk].
  rewrite elem_of_cons. destruct (Z.eqb_spec k1 k) as [->|Hne].
  - split; [intros [= ->]; by left|]. intros [[= ->]|Hin]; [done|]. rewrite Forall_forall in Hk. apply (list_elem_of_fmap_2 fst) in Hin. specialize (Hk _ Hin). cbn in Hk. lia.
  - rewrite IH by done. split; [by right|]. intros [[= -> ->]|?]; done.
Qed.

Lemma insert_by_filter key x l k : filter (λ s, key s = k) (insert_by key x l) = filter (λ s, key s = k) (x :: l).
Proof.
  induction l as [|y l IH]; cbn [insert_by]; [done|]. destruct (Z.leb_spec (key x) (key y)); [done|]. rewrite filter_cons, IH, !filter_cons.
  destruct (decide (key y = k)), (decide (key x = k)); try done. lia.
Qed.
Lemma sort_by_key_filter key l k : filter (λ s, key s = k) (sort_by_key key l) = filter (λ s, key s = k) l.
Proof. induction l as [|x l IH]; [done|]. cbn [sort_by_key foldr]. fold (sort_by_key key l). rewrite insert_by_filter, !filter_cons, IH. done. Qed.
Lemma insert_by_perm key x l : Permutation (insert_by key x l) (x :: l).
Proof. induction l as [|y l IH]; cbn [insert_by]; [done|]. destruct (_ <=? _); [done|]. rewrite IH. constructor. Qed.
Lemma sort_by_key_perm key l : Permutation (sort_by_key key l) l.
Proof. induction l as [|x l IH]; [done|]. cbn [sort_by_key foldr]. fold (sort_by_key key l). by rewrite insert_by_perm, IH. Qed.

Lemma chunks_loop_spec {A} n (k fuel : nat) : ∀ l : list A, (0 < n)%nat → length l = (k * n)%nat → (k ≤ fuel)%nat →
  concat (chunks_loop fuel n l) = l ∧ length (chunks_loop fuel n l) = k ∧ Forall (λ c, length c = n) (chunks_loop fuel n l).
Proof.
  revert fuel. induction k as [|k IH]; intros fuel l Hn Hl Hf.
  { destruct l; [|done]. destruct fuel; by split_and!. }
  destruct fuel as [|fuel]; [lia|]. destruct l as [|x l0] eqn:El; [cbn in Hl; lia|]. rewrite <- El in *. clear El x l0.
  assert (chunks_loop (S fuel) n l = take n l :: chunks_loop fuel n (drop n l)) as ->; [destruct l; [cbn in Hl; lia|done]|].
  destruct (IH fuel (drop n l)) as (H1 & H2 & H3); [done|rewrite length_drop; lia|lia|].
  cbn. rewrite H1, take_drop, H2. split_and!; [done|done|]. constructor; [|done]. rewrite length_take. lia.
Qed.
Lemma chunks_spec {A} (n k : Z) (l : list A) : 0 < n → 0 ≤ k → len l = k * n →
  ∃ cs, chunks n l = Ret cs ∧ concat cs = l ∧ len cs = k ∧ Forall (λ c, len c = n) cs.
Proof.
  intros Hn Hk Hl. unfold chunks. destruct (Z.eqb_spec n 0); [lia|]. cbn. eexists. split; [reflexivity|].
  destruct (chunks_loop_spec (Z.to_nat n) (Z.to_nat k) (length l) l) as (H1 & H2 & H3); [lia|rewrite <- Z2Nat.inj_mul by lia; unfold len in Hl; lia|assert (k ≤ k * n) by nia; unfold len in Hl; lia|].
  split; [done|]. split; [unfold len; lia|]. eapply Forall_impl; [exact H3|]. intros c Hc. cbv beta in *. unfold len. lia.
Qed.

Lemma multiple_of_inv a b : 0 ≤ a → 0 < b → is_multiple_of a b = true → ∃ k, div_usize a b = Ret k ∧ a = b * k ∧ 0 ≤ k.
Proof.
  intros Ha Hb. unfold is_multiple_of, div_usize. destruct (Z.eqb_spec b 0); [lia|]. intros Hm%Z.eqb_eq. exists (a / b). split; [done|].
  split; [by apply Z_div_exact_full_2; [lia|]|]. apply Z.div_pos; lia.
Qed.

Lemma bt_alter_new {A} (f : option A → A) k m : bt_get m k = None → Permutation (bt_alter f k m) ((k, f None) :: m).
Proof.
  induction m as [|[k1 v] m IH]; cbn [bt_get bt_alter]; [done|]. destruct (k1 =? k); [done|]. intros Hg. destruct (k <? k1); [done|].
  rewrite IH by done. constructor.
Qed.

(** ** Programs *)
Section Programs.
Context {E : Type} `{Aya E}.
Implicit Types (g : Registry E) (hs : list XdpProgramHandle).

Lemma holders_perm id hs hs' : Permutation hs hs' → holders id hs = holders id hs'.
Proof. intros Hp. unfold holders, len. by rewrite Hp. Qed.
Lemma registry_perm g hs hs' : Permutation hs hs' → registry_ok g hs → registry_ok g hs'.
Proof.
  intros Hp [H1 H2 H3]. constructor; [|done|].
  - intros id n p Hid. rewrite <- (holders_perm id _ _ Hp). by apply (H1 id n p).
  - intros h Hin. apply H3. by rewrite Hp.
Qed.

Lemma clone_handle_ok g hs h : registry_ok g hs → h ∈ hs → registry_ok (handle_clone g h).1 ((handle_clone g h).2 :: hs) ∧ (handle_clone g h).2 = h.
Proof.
  intros Hok Hin. destruct (ro_handles _ _ Hok h Hin) as (n & p & Hid & Hp). destruct h as [i id]. split; [|done]. by apply (arc_clone_ok g hs id n p).
Qed.
Lemma drop_handles_ok l : ∀ g hs, registry_ok g (l ++ hs) → registry_ok (drop_handles g l) hs.
Proof.
  induction l as [|h l IH]; intros g hs Hok; [done|]. cbn [drop_handles foldl]. apply (IH (handle_drop g h)). by apply (drop_handle_ok g [] h).
Qed.

Lemma on_ebpf_index {A} (m : PM E A) p : pg_if_index (on_ebpf m p).1 = pg_if_index p.
Proof. unfold on_ebpf. by destruct (m (pg_ebpf p)). Qed.
Lemma pm_bind_index {A B} (m : PM (XdpProgram E) A) (k : A → PM (XdpProgram E) B) p :
  (∀ p, pg_if_index (m p).1 = pg_if_index p) → (∀ a p, pg_if_index (k a p).1 = pg_if_index p) → pg_if_index (pm_bind m k p).1 = pg_if_index p.
Proof. intros Hm Hk. unfold pm_bind. specialize (Hm p). destruct (m p) as [p1 [a|]]; cbn in *; [|done]. by rewrite Hk. Qed.
Lemma bind_port_index port p : pg_if_index (bind_port port p).1 = pg_if_index p.
Proof.
  unfold bind_port. destruct (bool_decide _); [done|]. destruct (negb _); [done|]. cbv zeta. generalize (default 0 (pg_bound_ports p !! port)). intros rc. apply pm_bind_index; [|done]. clear p. intros p.
  destruct (_ =? 0); [|done]. apply pm_bind_index; [intros; apply on_ebpf_index|]. intros _ p1.
  assert (Hc : ∀ c p, pg_if_index (set_bound_port_count c p).1 = pg_if_index p).
  { intros c p2. unfold set_bound_port_count. destruct (negb _); [done|]. apply on_ebpf_index. }
  specialize (Hc (u32 (ports_len p1) + 1) p1). destruct (set_bound_port_count _ p1) as [p2 [|e]]; [done|]. cbn in Hc. rewrite <- Hc.
  apply pm_bind_index; [intros; apply on_ebpf_index|]. intros _ p3. pose proof (on_ebpf_index (array_set "BOUND_PORTS" 1 port 0) p3) as He.
  by destruct (on_ebpf (array_set "BOUND_PORTS" 1 port 0) p3).
Qed.

Lemma on_program_ok {A} (m : PM (XdpProgram E) A) g hs h : registry_ok g hs → h ∈ hs → (∀ p, pg_if_index (m p).1 = pg_if_index p) →
  ∃ g' r, on_program m g h = Ret (g', r) ∧ registry_ok g' hs.
Proof.
  intros [H1 H2 H3] Hin Hm. destruct (H3 h Hin) as (n & p & Hid & Hp). unfold on_program. rewrite Hid. specialize (Hm p). destruct (m p) as [p' r]. cbn in Hm.
  eexists _, r. split; [reflexivity|]. constructor; cbn [rg_heap rg_map].
  - intros id n' p2 [[<- [= <- <-]]|[Hne Hid']]%lookup_insert_Some; [rewrite Hm; by apply H1|]. by apply H1.
  - intros i id Hi. destruct (H2 i id Hi) as (n' & p2 & Hid' & Hp'). destruct (decide (id = ph_program h)) as [->|Hne].
    + rewrite lookup_insert_eq. exists n, p'. split; [done|]. rewrite Hid in Hid'. simplify_eq. congruence.
    + rewrite lookup_insert_ne by done. by exists n', p2.
  - intros h' Hin'. destruct (H3 h' Hin') as (n' & p2 & Hid' & Hp'). destruct (decide (ph_program h' = ph_program h)) as [Heq|Hne].
    + rewrite Heq, lookup_insert_eq. exists n, p'. split; [done|]. rewrite Heq, Hid in Hid'. simplify_eq. congruence.
    + rewrite lookup_insert_ne by done. by exists n', p2.
Qed.

Lemma bind_ports_ok ports h hs : h ∈ hs → ∀ g, registry_ok g hs → ∃ g' r, bind_ports g h ports = Ret (g', r) ∧ registry_ok g' hs.
Proof.
  intros Hin. induction ports as [|port ports IH]; intros g Hok; cbn [bind_ports]; [by eexists _, _|].
  destruct (on_program_ok (bind_port port) g hs h Hok Hin (bind_port_index port)) as (g1 & r & -> & Hok1). run. destruct r; [by apply IH|by eexists _, _].
Qed.
Lemma bind_programs_ok ports l hs : l ⊆ hs → ∀ g, registry_ok g hs → ∃ g' r, bind_programs g l ports = Ret (g', r) ∧ registry_ok g' hs.
Proof.
  induction l as [|h l IH]; intros Hsub g Hok; cbn [bind_programs]; [by eexists _, _|].
  destruct (bind_ports_ok ports h hs ltac:(set_solver) g Hok) as (g1 & r & -> & Hok1). run. destruct r; [apply IH; [set_solver|done]|by eexists _, _].
Qed.

(** The programs of a build: one handle per interface, in order. *)
Definition programs_ok (programs : list (Z * XdpProgramHandle)) : Prop :=
  StronglySorted Z.lt programs.*1 ∧ Forall (λ ih, ph_if_index ih.2 = ih.1) programs.

Lemma load_programs_ok loaded hash b slots hs : ∀ g programs, programs_ok programs → registry_ok g (programs.*2 ++ hs) →
  ∃ g' programs' r, load_programs loaded hash b g slots programs = (g', programs', r) ∧ programs_ok programs' ∧ registry_ok g' (programs'.*2 ++ hs) ∧
    (∀ i, is_Some (bt_get programs i) → is_Some (bt_get programs' i)) ∧
    (r = Ok tt → Forall (λ s, is_Some (bt_get programs' (qs_ifindex s))) slots).
Proof.
  induction slots as [|slot slots IH]; intros g programs Hp Hok; cbn [load_programs].
  { eexists _, _, _. split; [reflexivity|]. by split_and!. }
  destruct (bt_get programs (qs_ifindex slot)) as [h|] eqn:Hg.
  - destruct (IH g programs Hp Hok) as (g' & programs' & r & -> & H1 & H2 & H3 & H4). eexists _, _, _. split; [reflexivity|]. split_and!; try done.
    intros Hr. constructor; [|by apply H4]. apply H3. by rewrite Hg.
  - destruct (load_with_config g (qs_ifindex slot) _ _ _ hash) as [g1 r] eqn:Hl. pose proof (load_ok _ _ _ _ _ _ _ _ _ Hok Hl) as Hok1.
    destruct r as [h|e]; [|eexists _, _, _; split; [reflexivity|by split_and!]].
    assert (Hi : ph_if_index h = qs_ifindex slot).
    { unfold load_with_config in Hl. destruct (get_or_load_with_config _ _ _ _ _ _) as [g2 [id|]]; cbn in Hl; by simplify_eq. }
    destruct Hp as [Hs HF]. pose proof (bt_alter_new (λ _, h) (qs_ifindex slot) programs Hg) as Hperm.
    destruct (IH g1 (bt_alter (λ _, h) (qs_ifindex slot) programs)) as (g' & programs' & r & -> & H1 & H2 & H3 & H4).
    { split; [by apply bt_alter_sorted|]. rewrite Hperm. by constructor. }
    { eapply registry_perm; [|exact Hok1]. rewrite Hperm. done. }
    assert (Hmono : ∀ i, is_Some (bt_get programs i) → is_Some (bt_get (bt_alter (λ _, h) (qs_ifindex slot) programs) i)).
    { intros i Hi'. rewrite bt_get_alter by done. by destruct (decide _). }
    eexists _, _, _. split; [reflexivity|]. split_and!; try done; [intros i Hi'; by apply H3, Hmono|].
    intros Hr. constructor; [|by apply H4]. apply H3. rewrite bt_get_alter by done. by destruct (decide _).
Qed.
End Programs.

(** ** Grouping *)
Section Grouping.
Variable fs : Sysfs.
Variable cpu_node : gmap Z Z.

(** The queues a node is given: those that live on it, in the order claimed. *)
Definition lives_on (node : Z) (s : XdpQueueSlot) : bool :=
  match queue_numa_node fs s cpu_node with Ok n => n =? node | Err _ => false end.
Definition grouped (claimed : list XdpQueueSlot) (by_node : list (Z * list XdpQueueSlot)) : Prop :=
  StronglySorted Z.lt by_node.*1 ∧
  (∀ node, default [] (bt_get by_node node) = filter (λ s, lives_on node s = true) claimed) ∧
  (∀ node ss, bt_get by_node node = Some ss → ss ≠ []).

Lemma group_ok slots : ∀ done by_node by_node', grouped done by_node → group_by_node fs slots cpu_node by_node = Ok by_node' →
  grouped (done ++ slots) by_node' ∧ Forall (λ s, ∃ node, lives_on node s = true) slots.
Proof.
  induction slots as [|s slots IH]; intros done by_node by_node' Hg Hr; cbn [group_by_node] in Hr; [simplify_eq; by rewrite app_nil_r|].
  destruct (queue_numa_node fs s cpu_node) as [node|] eqn:Hn; [|done]. cbn [result_bind] in Hr.
  assert (Hlive : ∀ n, lives_on n s = bool_decide (n = node)).
  { intros n. unfold lives_on. rewrite Hn. case_bool_decide; subst; [apply Z.eqb_refl|]. apply Z.eqb_neq. congruence. }
  destruct Hg as (H1 & H2 & H3). apply IH with (done := done ++ [s]) in Hr as [Hg' HF].
  - split; [by rewrite <- app_assoc in Hg'|]. constructor; [|done]. exists node. rewrite Hlive. by apply bool_decide_true.
  - split; [by apply bt_alter_sorted|]. split.
    + intros n. rewrite filter_app, <- H2, bt_get_alter by done. change (filter (λ s, lives_on n s = true) [s]) with (if decide (lives_on n s = true) then [s] else []).
      rewrite Hlive. destruct (decide (n = node)) as [->|Hne]; [by rewrite bool_decide_true|]. rewrite bool_decide_false by done. by rewrite app_nil_r.
    + intros n ss. rewrite bt_get_alter by done. destruct (decide (n = node)); [intros [= <-]; by destruct (default [] _)|]. apply H3.
Qed.

Lemma grouped_elem claimed by_node node ss : grouped claimed by_node → (node, ss) ∈ by_node → ss = filter (λ s, lives_on node s = true) claimed ∧ ss ≠ [].
Proof. intros (H1 & H2 & H3) Hin. apply bt_get_elem in Hin; [|done]. rewrite <- H2, Hin. split; [done|]. by apply (H3 node). Qed.
End Grouping.

(** ** Plans *)
Lemma cpus_nonempty fs node cores : cpus_for_numa_node fs node = Ok cores → cores ≠ [].
Proof.
  unfold cpus_for_numa_node, parse_cpu_list. destruct (sf_read fs _) as [raw|]; [|done]. cbn [result_bind]. destruct (parse_cpu_parts _ _) as [cpus|]; [|done]. cbn [result_bind].
  destruct cpus; [done|]. by intros [= <-].
Qed.
Lemma choose_core_ok b node cores i : cores ≠ [] → 0 ≤ i → ∃ r, choose_core b node cores i = Ret r ∧ ∀ cpu, r = Ok cpu → cpu ∈ cores.
Proof.
  intros Hne Hi. unfold choose_core. destruct (fb_core_assignment b) as [assign|].
  - eexists. split; [done|]. intros cpu. case_bool_decide; [|done]. by intros [= <-].
  - assert (0 < len cores) by (destruct cores; [done|]; rewrite len_cons; pose proof (len_nonneg cores); lia). unfold rem_usize. destruct (Z.eqb_spec (len cores) 0); [lia|]. run.
    pose proof (Z.mod_pos_bound i (len cores) ltac:(lia)). destruct (lookup_lt_is_Some_2 cores (Z.to_nat (i mod len cores))) as [x Hx]; [unfold len in *; lia|].
    rewrite (index_lookup_at cores (i mod len cores) x) by (done || lia). run. eexists. split; [done|]. intros ? [= <-]. by apply list_elem_of_lookup_2 in Hx.
Qed.

(** What a plan made of a block is. *)
Record plan_ok (b : XdpFactoryBuilder) (programs : list (Z * XdpProgramHandle)) (node : Z) (cores : list Z) (i : Z) (block : list XdpQueueSlot) (plan : XdpWorkerPlan) : Prop := mkPlanOk {
  pk_numa : wp_numa plan = Some node;
  pk_iface : Forall (λ s, qs_ifindex s = wp_ifindex plan) block;
  pk_queues : wp_queues plan = qs_queue <$> block;
  pk_core : choose_core b node cores i = Ret (Ok (wp_cpu plan));
  pk_filter : wp_port_filter plan = fb_port_filter b;
  pk_config : ∃ q h, head (wp_queues plan) = Some q ∧ (wp_ifindex plan, h) ∈ programs ∧ wp_config plan = plan_config b (wp_ifindex plan) q node h;
}.
Inductive planned (b : XdpFactoryBuilder) (programs : list (Z * XdpProgramHandle)) (node : Z) (cores : list Z) : Z → list (list XdpQueueSlot) → list XdpWorkerPlan → Prop :=
  | planned_nil i : planned b programs node cores i [] []
  | planned_cons i block blocks plan plans : plan_ok b programs node cores i block plan → planned b programs node cores (i + 1) blocks plans →
      planned b programs node cores i (block :: blocks) (plan :: plans).

Section Plans.
Context {E : Type} `{Aya E}.
Variables (fs : Sysfs) (b : XdpFactoryBuilder) (programs : list (Z * XdpProgramHandle)) (hs : list XdpProgramHandle).
Hypothesis programs_fine : programs_ok programs.
Implicit Types g : Registry E.

Lemma plan_block_ok node cores g i block all : cores ≠ [] → 0 ≤ i → block ≠ [] → Forall (λ s, is_Some (bt_get programs (qs_ifindex s))) block →
  programs.*2 ⊆ all → registry_ok g all →
  ∃ g' r, plan_block b programs node cores g i block = Ret (g', r) ∧
    match r with
    | Ok plan => plan_ok b programs node cores i block plan ∧ registry_ok g' (plan_handles [plan] ++ all)
    | Err _ => registry_ok g' all
    end.
Proof.
  intros Hc Hi Hb Hp Hall Hok. destruct block as [|s block0] eqn:Eb; [done|]. rewrite <- Eb in *. unfold plan_block.
  assert (Hhead : block !! 0%nat = Some s) by (by rewrite Eb). rewrite (index_lookup_at block 0 s) by (done || lia). run.
  destruct (existsb _ block) eqn:Hex; [by eexists _, _|]. destruct (choose_core_ok b node cores i Hc Hi) as (r & Er & Hr). rewrite Er. run. destruct r as [cpu|e]; [|by eexists _, _].
  rewrite (index_lookup_at (qs_queue <$> block) 0 (qs_queue s)) by (lia || (rewrite list_lookup_fmap; change (Z.to_nat 0) with 0%nat; by rewrite Hhead)). run.
  assert (Hs : is_Some (bt_get programs (qs_ifindex s))) by (rewrite Eb in Hp; apply Forall_cons in Hp; apply Hp). destruct Hs as [h Hg]. rewrite Hg.
  apply bt_get_elem in Hg; [|apply programs_fine]. assert (Hin : h ∈ all) by (apply Hall; by apply (list_elem_of_fmap_2 snd) in Hg).
  destruct (clone_handle_ok g all h Hok Hin) as [Hok' Hh]. destruct (handle_clone g h) as [g1 h1]. cbn in Hok', Hh. subst h1. eexists _, _. split; [reflexivity|]. split; [|done].
  constructor; cbn; try done.
  - rewrite Forall_forall. intros x Hx. apply not_true_iff_false in Hex. destruct (Z.eqb_spec (qs_ifindex x) (qs_ifindex s)) as [|Hne]; [done|]. exfalso. apply Hex.
    apply existsb_exists. exists x. split; [by apply list_elem_of_In|]. apply negb_true_iff, Z.eqb_neq, Hne.
  - exists (qs_queue s), h. split_and!; try done. by rewrite Eb.
Qed.

Lemma plan_blocks_ok node cores blocks : cores ≠ [] → ∀ g i plans, 0 ≤ i → Forall (λ block, block ≠ [] ∧ Forall (λ s, is_Some (bt_get programs (qs_ifindex s))) block) blocks →
  registry_ok g (plan_handles plans ++ programs.*2 ++ hs) →
  ∃ g' new r, plan_blocks b programs node cores g i blocks plans = Ret (g', plans ++ new, r) ∧
    registry_ok g' (plan_handles (plans ++ new) ++ programs.*2 ++ hs) ∧ (r = Ok tt → planned b programs node cores i blocks new).
Proof.
  intros Hc. induction blocks as [|block blocks IH]; intros g i plans Hi HF Hok; cbn [plan_blocks].
  { eexists g, [], _. rewrite app_nil_r. split; [reflexivity|]. split; [done|]. constructor. }
  apply Forall_cons in HF as [[Hb Hp] HF]. destruct (plan_block_ok node cores g i block (plan_handles plans ++ programs.*2 ++ hs)) as (g1 & r & -> & Hr); try done; [set_solver|]. run.
  destruct r as [plan|e].
  2:{ eexists g1, [], _. rewrite app_nil_r. split; [reflexivity|]. by split. }
  destruct Hr as [Hplan Hok1]. destruct (IH g1 (i + 1) (plans ++ [plan])) as (g2 & new & r & E2 & Hok2 & Hr2); [lia|done| |].
  { eapply registry_perm; [|exact Hok1]. unfold plan_handles. rewrite omap_app. solve_Permutation. }
  exists g2, (plan :: new), r. rewrite E2, <- app_assoc in *. split; [done|]. split; [done|]. intros Hok3. constructor; auto.
Qed.

(** All nodes. *)
Inductive nodes_planned (per_node : Z) : list (Z * list XdpQueueSlot) → list XdpWorkerPlan → Prop :=
  | nodes_nil : nodes_planned per_node [] []
  | nodes_cons node slots cores blocks new by_node plans size :
      cpus_for_numa_node fs node = Ok cores → concat blocks = sort_by_key qs_ifindex slots → len blocks = per_node → Forall (λ block, len block = size) blocks →
      planned b programs node cores 0 blocks new → nodes_planned per_node by_node plans → nodes_planned per_node ((node, slots) :: by_node) (new ++ plans).

Lemma plan_nodes_ok per_node by_node : 0 < per_node → ∀ g plans,
  Forall (λ ns, ns.2 ≠ [] ∧ Forall (λ s, is_Some (bt_get programs (qs_ifindex s))) ns.2) by_node →
  registry_ok g (plan_handles plans ++ programs.*2 ++ hs) →
  ∃ g' new r, plan_nodes fs b programs per_node g by_node plans = Ret (g', plans ++ new, r) ∧
    registry_ok g' (plan_handles (plans ++ new) ++ programs.*2 ++ hs) ∧ (r = Ok tt → nodes_planned per_node by_node new).
Proof.
  intros Hper. induction by_node as [|[node slots] by_node IH]; intros g plans HF Hok; cbn [plan_nodes].
  { eexists g, [], _. rewrite app_nil_r. split; [reflexivity|]. split; [done|]. constructor. }
  assert (Hstop : ∀ e, ∃ g' new r, Ret (g, plans, Err e : result unit FactoryError) = Ret (g', plans ++ new, r) ∧ registry_ok g' (plan_handles (plans ++ new) ++ programs.*2 ++ hs) ∧
    (r = Ok tt → nodes_planned per_node ((node, slots) :: by_node) new)).
  { intros e. eexists g, [], _. rewrite app_nil_r. split; [reflexivity|]. by split. }
  apply Forall_cons in HF as [[Hne Hp] HF]. cbn [fst snd] in *. pose proof (sort_by_key_perm qs_ifindex slots) as Hperm. set (sorted := sort_by_key qs_ifindex slots) in *.
  destruct (is_multiple_of (len sorted) per_node) eqn:Hm; cbn [negb]; [|apply Hstop].
  assert (Hlen : 0 < len sorted) by (unfold len; rewrite Hperm; destruct slots; [done|]; cbn; lia).
  destruct (multiple_of_inv (len sorted) per_node) as (k & -> & Hk & Hk0); [lia|lia|done|]. run.
  destruct (cpus_for_numa_node fs node) as [cores|] eqn:Hcores; [|apply Hstop].
  destruct (chunks_spec k per_node sorted) as (blocks & -> & Hcat & Hcount & Hsize); [nia|lia|lia|]. run.
  destruct (plan_blocks_ok node cores blocks (cpus_nonempty _ _ _ Hcores) g 0 plans) as (g1 & new & r & -> & Hok1 & Hr); [lia| |done|].
  { rewrite Forall_forall in Hsize |- *. intros block Hin. split; [intros ->; specialize (Hsize [] Hin); change (len []) with 0 in Hsize; nia|].
    rewrite Forall_forall. intros s Hs. rewrite Forall_forall in Hp. apply Hp. rewrite <- Hperm, <- Hcat. apply list_elem_of_In, in_concat. exists block. by rewrite <- !list_elem_of_In. }
  run. destruct r as [[]|e].
  2:{ eexists g1, new, _. split; [reflexivity|]. by split. }
  destruct (IH g1 (plans ++ new) HF Hok1) as (g2 & new2 & r & E2 & Hok2 & Hr2). rewrite <- app_assoc in E2, Hok2. exists g2, (new ++ new2), r. split; [done|]. split; [done|].
  intros Hok3. econstructor; eauto.
Qed.
End Plans.
