(* ===== verification/FactoryMain.v ===== *)
(** * Properties of the socket factory *)
From stdpp Require Import strings sorting.
From S2P Require Import Prelude Core Buffer Ring Wire Route Program ProgramProofs Filter FilterMain Interface Aggregate Factory FactoryProofs.
Open Scope Z_scope.

Section Filter.
Context {A : Type} (P Q : A → Prop) `{!∀ x, Decision (P x), !∀ x, Decision (Q x)}.
Lemma filter_iff_in l : Forall (λ x, P x ↔ Q x) l → filter P l = filter Q l.
Proof. induction 1 as [|x l Hx _ IH]; [done|]. rewrite !filter_cons, IH. destruct (decide (P x)), (decide (Q x)); tauto || done. Qed.
Lemma filter_all_in l : Forall P l → filter P l = l.
Proof. induction 1 as [|x l Hx _ IH]; [done|]. by rewrite filter_cons_True, IH. Qed.
Lemma filter_none_in l : Forall (λ x, ¬ P x) l → filter P l = [].
Proof. induction 1 as [|x l Hx _ IH]; [done|]. by rewrite filter_cons_False, IH. Qed.
End Filter.

(** ** What the plans of all nodes are *)
Lemma planned_length b programs node cores i blocks plans : planned b programs node cores i blocks plans → len plans = len blocks.
Proof. induction 1; [done|]. rewrite !len_cons. lia. Qed.
Lemma planned_all b programs node cores i blocks plans : planned b programs node cores i blocks plans →
  Forall (λ p, ∃ k block, i ≤ k ∧ plan_ok b programs node cores k block p) plans.
Proof.
  induction 1 as [|i block blocks plan plans Hp _ IH]; constructor; [by exists i, block|]. eapply Forall_impl; [exact IH|]. intros p (k & bl & Hk & Hok). exists k, bl. split; [lia|done].
Qed.
(** The queues of an interface, in order. *)
Lemma planned_queues b programs node cores i blocks plans j : planned b programs node cores i blocks plans →
  concat (wp_queues <$> filter (λ p, wp_ifindex p = j) plans) = qs_queue <$> filter (λ s, qs_ifindex s = j) (concat blocks).
Proof.
  induction 1 as [|i block blocks plan plans [_ Hi Hq _ _ _] _ IH]; [done|]. cbn [concat]. rewrite filter_app, fmap_app, <- IH, filter_cons. destruct (decide (wp_ifindex plan = j)) as [<-|Hne].
  - cbn. rewrite Hq. f_equal. f_equal. by rewrite filter_all_in.
  - rewrite (filter_none_in _ block); [done|]. eapply Forall_impl; [exact Hi|]. cbn. congruence.
Qed.

Section Nodes.
Variables (fs : Sysfs) (b : XdpFactoryBuilder) (programs : list (Z * XdpProgramHandle)).

Lemma nodes_count per_node by_node plans : nodes_planned fs b programs per_node by_node plans → len plans = len by_node * per_node.
Proof. induction 1 as [|node slots cores blocks new by_node plans size _ _ Hl _ Hp _ IH]; [done|]. rewrite len_app, len_cons, IH, (planned_length _ _ _ _ _ _ _ Hp), Hl. lia. Qed.

Lemma nodes_all per_node by_node plans : nodes_planned fs b programs per_node by_node plans →
  Forall (λ p, ∃ node slots cores k block, (node, slots) ∈ by_node ∧ cpus_for_numa_node fs node = Ok cores ∧ 0 ≤ k ∧ plan_ok b programs node cores k block p) plans.
Proof.
  induction 1 as [|node slots cores blocks new by_node plans size Hc _ _ _ Hp _ IH]; [constructor|]. apply Forall_app. split.
  - eapply Forall_impl; [apply (planned_all _ _ _ _ _ _ _ Hp)|]. intros p (k & block & Hk & Hok). exists node, slots, cores, k, block. split_and!; try done. left.
  - eapply Forall_impl; [exact IH|]. intros p (n & s & c & k & block & Hin & Hrest). exists n, s, c, k, block. split; [by right|done].
Qed.

Lemma nodes_queues per_node by_node plans node j : StronglySorted Z.lt by_node.*1 → nodes_planned fs b programs per_node by_node plans →
  concat (wp_queues <$> filter (λ p, wp_numa p = Some node ∧ wp_ifindex p = j) plans)
    = qs_queue <$> filter (λ s, qs_ifindex s = j) (default [] (bt_get by_node node)).
Proof.
  intros Hs H. induction H as [|n slots cores blocks new by_node plans size _ Hcat _ _ Hp Hrest IH]; [done|]. cbn in Hs. apply StronglySorted_inv in Hs as [Hs Hk].
  rewrite filter_app, fmap_app, concat_app, (IH Hs). clear IH. pose proof (planned_all _ _ _ _ _ _ _ Hp) as Hall. cbn [bt_get]. destruct (Z.eqb_spec n node) as [->|Hne].
  - assert (bt_get by_node node = None) as ->.
    { destruct (bt_get by_node node) eqn:E; [|done]. apply bt_get_elem in E; [|done]. apply (list_elem_of_fmap_2 fst) in E. rewrite Forall_forall in Hk. specialize (Hk _ E). cbn in Hk. lia. }
    cbn [default from_option]. rewrite app_nil_r. rewrite (filter_iff_in _ (λ p, wp_ifindex p = j) new).
    + rewrite (planned_queues _ _ _ _ _ _ _ j Hp), Hcat. by rewrite sort_by_key_filter.
    + eapply Forall_impl; [exact Hall|]. intros p (k & block & _ & [Hn _ _ _ _ _]). rewrite Hn. naive_solver.
  - rewrite (filter_none_in _ new); [done|]. eapply Forall_impl; [exact Hall|]. intros p (k & block & _ & [Hn _ _ _ _ _]). rewrite Hn. naive_solver.
Qed.

Lemma planned_lookup node cores i blocks plans (k : nat) p : planned b programs node cores i blocks plans → plans !! k = Some p →
  ∃ block, plan_ok b programs node cores (i + Z.of_nat k) block p.
Proof.
  intros H. revert k. induction H as [|i block blocks plan plans Hp _ IH]; intros k Hk; [done|]. destruct k as [|k]; cbn in Hk.
  - simplify_eq. exists block. by rewrite Z.add_0_r.
  - destruct (IH k Hk) as (bl & Hbl). exists bl. by replace (i + Z.of_nat (S k)) with (i + 1 + Z.of_nat k) by lia.
Qed.
(** The plans of one node. *)
Lemma nodes_at per_node by_node plans node : StronglySorted Z.lt by_node.*1 → nodes_planned fs b programs per_node by_node plans →
  filter (λ p, wp_numa p = Some node) plans = [] ∨
  ∃ cores blocks, cpus_for_numa_node fs node = Ok cores ∧ planned b programs node cores 0 blocks (filter (λ p, wp_numa p = Some node) plans).
Proof.
  intros Hs H. induction H as [|n slots cores blocks new by_node plans size Hc _ _ _ Hp Hrest IH]; [by left|]. cbn in Hs. apply StronglySorted_inv in Hs as [Hs Hk].
  pose proof (planned_all _ _ _ _ _ _ _ Hp) as Hall. rewrite filter_app. destruct (decide (n = node)) as [->|Hne].
  - right. exists cores, blocks. rewrite (filter_all_in _ new) by (eapply Forall_impl; [exact Hall|]; by intros p (k & block & _ & [Hn _ _ _ _ _])).
    rewrite (filter_none_in _ plans), app_nil_r; [done|]. eapply Forall_impl; [apply (nodes_all _ _ _ Hrest)|]. cbn. intros p (n & s & c & k & block & Hin & _ & _ & [Hn _ _ _ _ _]) Hn'.
    rewrite Hn in Hn'. injection Hn' as ->. apply (list_elem_of_fmap_2 fst) in Hin. rewrite Forall_forall in Hk. specialize (Hk _ Hin). cbn in Hk. lia.
  - rewrite (filter_none_in _ new); [by apply IH|]. eapply Forall_impl; [exact Hall|]. cbn. intros p (k & block & _ & [Hn _ _ _ _ _]). congruence.
Qed.
End Nodes.

Lemma choose_default b node cores i cpu : fb_core_assignment b = None → choose_core b node cores (Z.of_nat i) = Ret (Ok cpu) → cores !! (i mod length cores)%nat = Some cpu.
Proof.
  intros Hn. unfold choose_core, rem_usize. rewrite Hn. destruct (Z.eqb_spec (len cores) 0) as [|Hne]; [done|]. run. unfold len. rewrite <- Nat2Z.inj_mod.
  unfold index. rewrite nthZ_of_nat. destruct (cores !! _) as [x|]; [|done]. run. by intros [= ->].
Qed.

(** ** Building *)
Section Build.
Context {E : Type} `{Aya E}.
Variables (fs : Sysfs) (loaded : Z → result E string) (hash plan_size : Z) (b : XdpFactoryBuilder) (hs : list XdpProgramHandle).
Implicit Types g : Registry E.

(** What the plans of a successful build are. *)
Definition partitioned (programs : list (Z * XdpProgramHandle)) (claimed : list XdpQueueSlot) (threads : Z) (plans : list XdpWorkerPlan) : Prop :=
  ∃ cpu_node by_node per_node, build_cpu_node_map fs = Ok cpu_node ∧ grouped fs cpu_node claimed by_node ∧ threads = len by_node * per_node ∧
    nodes_planned fs b programs per_node by_node plans.

Lemma partition_ok g programs claimed threads : claimed ≠ [] → 0 < threads → threads * plan_size ≤ 2 ^ 63 - 1 → programs_ok programs →
  Forall (λ s, is_Some (bt_get programs (qs_ifindex s))) claimed → registry_ok g (programs.*2 ++ hs) →
  ∃ g' plans r, partition fs plan_size b g programs claimed threads = Ret (g', plans, r) ∧ registry_ok g' (plan_handles plans ++ programs.*2 ++ hs) ∧
    (r = Ok tt → partitioned programs claimed threads plans).
Proof.
  intros Hne Ht Hcap Hp Hall Hok. unfold partition. destruct (build_cpu_node_map fs) as [cpu_node|e] eqn:Hmap; [|by eexists _, _, _].
  destruct (group_by_node fs claimed cpu_node []) as [by_node|e] eqn:Hg; [|by eexists _, _, _].
  destruct (group_ok fs cpu_node claimed [] [] by_node) as [Hgr Hlive]; [split_and!; [constructor|done|done]|done|]. cbn [app] in Hgr.
  destruct (is_multiple_of threads (len by_node)) eqn:Hm; cbn [negb]; [|by eexists _, _, _].
  assert (Hnodes : 0 < len by_node).
  { destruct by_node; [|rewrite len_cons; pose proof (len_nonneg by_node); lia]. destruct claimed as [|s claimed]; [done|]. apply Forall_cons in Hlive as [(node & Hn) _].
    destruct Hgr as (_ & Hgr & _). specialize (Hgr node). change (default [] _) with (@nil XdpQueueSlot) in Hgr. rewrite filter_cons_True in Hgr by done. done. }
  destruct (multiple_of_inv threads (len by_node)) as (k & -> & Hk & Hk0); [lia|lia|done|]. run. destruct (Z.leb_spec (threads * plan_size) (2 ^ 63 - 1)); [|lia]. cbn [negb].
  destruct (plan_nodes_ok fs b programs hs Hp k by_node ltac:(nia) g []) as (g' & new & r & E' & Hok' & Hr).
  - rewrite Forall_forall. intros [node ss] Hin. destruct (grouped_elem _ _ _ _ _ _ Hgr Hin) as [-> Hss]. split; [done|]. cbn. rewrite Forall_forall in Hall |- *. intros s Hs.
    apply list_elem_of_filter in Hs as [_ Hs]. by apply Hall.
  - done.
  - eexists g', new, r. split; [exact E'|]. split; [done|]. intros Hr'. exists cpu_node, by_node, k. split_and!; try done. by apply Hr.
Qed.

Hypothesis capacity_fits : ∀ claimed, claimed_slots_checked b = Ok claimed → default (len claimed) (fb_threads b) * plan_size ≤ 2 ^ 63 - 1.
Hypothesis threads_unsigned : ∀ t, fb_threads b = Some t → 0 ≤ t.

Definition build_post g' (r : result XdpFactory FactoryError) : Prop :=
  match r with
  | Err _ => registry_ok g' hs
  | Ok f => registry_ok g' (plan_handles (xf_plans f) ++ (xf_programs f).*2 ++ hs) ∧ programs_ok (xf_programs f) ∧
      ∃ claimed, claimed_slots_checked b = Ok claimed ∧ partitioned (xf_programs f) claimed (default (len claimed) (fb_threads b)) (xf_plans f)
  end.

Lemma fail_post g plans programs e : registry_ok g (plan_handles plans ++ programs.*2 ++ hs) →
  ∃ g' r, Ret (fail_build g plans programs e) = Ret (g', r) ∧ build_post g' r.
Proof. intros Hok. eexists _, _. split; [reflexivity|]. by apply drop_handles_ok, drop_handles_ok. Qed.

Lemma factory_build_ok g : registry_ok g hs → ∃ g' r, factory_build fs loaded hash plan_size b g = Ret (g', r) ∧ build_post g' r.
Proof.
  intros Hok. unfold factory_build. destruct (port_filter_validate _) as [[]|e]; [|by eexists _, _]. destruct (claimed_slots_checked b) as [claimed|e] eqn:Hc; [|by eexists _, _].
  destruct (Z.eqb_spec (len claimed) 0) as [|Hne]; [by eexists _, _|]. set (threads := default (len claimed) (fb_threads b)). destruct (Z.eqb_spec threads 0) as [|Ht0]; [by eexists _, _|].
  assert (Ht : 0 < threads).
  { assert (0 ≤ threads); [|lia]. unfold threads. destruct (fb_threads b) eqn:Et; cbn; [by apply threads_unsigned|apply len_nonneg]. }
  destruct (load_programs_ok loaded hash b claimed hs g []) as (g1 & programs & r & -> & Hp & Hok1 & _ & Hall); [split; constructor|done|].
  destruct r as [[]|e]; [|by apply fail_post].
  assert (Hbind : ∃ g2 r2, match fb_port_filter b with UdpPorts ports => bind_programs g1 programs.*2 ports | _ => Ret (g1, Ok tt) end = Ret (g2, r2) ∧ registry_ok g2 (programs.*2 ++ hs)).
  { destruct (fb_port_filter b); try (by eexists _, _). apply bind_programs_ok; [set_solver|done]. }
  destruct Hbind as (g2 & r2 & -> & Hok2). run. destruct r2 as [[]|e]; [|by apply fail_post].
  destruct (partition_ok g2 programs claimed threads) as (g3 & plans & r3 & -> & Hok3 & Hr3); try done; [by intros ->|by apply capacity_fits|by apply Hall|]. run.
  destruct r3 as [[]|e]; [|by apply fail_post]. eexists _, _. split; [reflexivity|]. split_and!; [done|done|]. exists claimed. split; [done|]. by apply Hr3.
Qed.


(** C34. The plans of a factory partition the claimed queues: there are as many
    as threads; the queues of the plans of a node and an interface are, in the
    order claimed, the claimed queues of that interface that live on that
    node; every plan has queues, one interface and its program, a node and a
    core of that node; and without a strategy of the caller the workers of a
    node get its cores in turn. *)
Theorem factory_partitions_queues g g' f : registry_ok g hs → factory_build fs loaded hash plan_size b g = Ret (g', Ok f) →
  ∃ claimed cpu_node, claimed_slots_checked b = Ok claimed ∧ build_cpu_node_map fs = Ok cpu_node ∧
    len (xf_plans f) = default (len claimed) (fb_threads b) ∧
    (∀ node i, concat (wp_queues <$> filter (λ p, wp_numa p = Some node ∧ wp_ifindex p = i) (xf_plans f))
      = qs_queue <$> filter (λ s, lives_on fs cpu_node node s = true ∧ qs_ifindex s = i) claimed) ∧
    Forall (λ p, ∃ node cores q h, wp_numa p = Some node ∧ cpus_for_numa_node fs node = Ok cores ∧ wp_cpu p ∈ cores ∧
      head (wp_queues p) = Some q ∧ program_handle f (wp_ifindex p) = Some h ∧ ph_if_index h = wp_ifindex p ∧
      wp_config p = plan_config b (wp_ifindex p) q node h ∧ wp_port_filter p = fb_port_filter b) (xf_plans f) ∧
    (fb_core_assignment b = None → ∀ node cores (k : nat) p, cpus_for_numa_node fs node = Ok cores →
      filter (λ p, wp_numa p = Some node) (xf_plans f) !! k = Some p → cores !! (k mod length cores)%nat = Some (wp_cpu p)).
Proof.
  intros Hok Hb. destruct (factory_build_ok g Hok) as (g1 & r & E' & Hr). rewrite Hb in E'. injection E' as <- <-. destruct Hr as (_ & Hprog & claimed & Hc & cpu_node & by_node & per_node & Hmap & Hgr & Ht & Hpl).
  pose proof Hgr as (Hs & Hfil & _). exists claimed, cpu_node. split; [done|]. split; [done|]. split; [rewrite Ht; by apply (nodes_count fs b (xf_programs f))|]. split_and!.
  - intros node i. rewrite (nodes_queues _ _ _ _ _ _ node i Hs Hpl), Hfil, list_filter_filter. f_equal. apply filter_iff_in. apply Forall_true. naive_solver.
  - eapply Forall_impl; [apply (nodes_all _ _ _ _ _ _ Hpl)|]. intros p (node & slots & cores & k & block & _ & Hco & Hk & [K1 K2 K3 K4 K5 (q & h & K6 & K7 & K8)]).
    exists node, cores, q, h. split; [done|]. split; [done|]. destruct (choose_core_ok b node cores k (cpus_nonempty _ _ _ Hco) Hk) as (r & Er & Hr). rewrite K4 in Er. injection Er as <-.
    split_and!; try done; [by apply Hr|by apply bt_get_elem; [apply Hprog|]|]. destruct Hprog as [_ HF]. rewrite Forall_forall in HF. by apply (HF _ K7).
  - intros Hn node cores k p Hco Hk. destruct (nodes_at _ _ _ _ _ _ node Hs Hpl) as [E0|(cores' & blocks & Hco' & Hpl')]; [by rewrite E0 in Hk|].
    assert (cores' = cores) as -> by congruence. destruct (planned_lookup _ _ _ _ _ _ _ _ _ Hpl' Hk) as (block & [_ _ _ K4 _ _]). by apply (choose_default b node).
Qed.

(** A plan can only be opened on the node of its interface's device: where
    that node is known, opening the memory of a plan succeeds exactly when the
    plan is for that node. So when two claimed queues of one interface live on
    different nodes, which the factory puts into different plans, one of the
    plans it makes can never be opened. *)
Theorem factory_plans_off_node g g' f ifindex iface device : registry_ok g hs → factory_build fs loaded hash plan_size b g = Ret (g', Ok f) →
  if_index_to_name fs ifindex = Ok iface → numa_node_for_interface fs iface = Ok device →
  (∀ p, p ∈ xf_plans f → wp_ifindex p = ifindex →
    resolve_umem_numa_node fs (wp_config p) = if decide (wp_numa p = Some device) then Ok device else Err KindInvalidInput) ∧
  (∀ claimed cpu_node s1 s2 n1 n2, claimed_slots_checked b = Ok claimed → build_cpu_node_map fs = Ok cpu_node → s1 ∈ claimed → s2 ∈ claimed →
    qs_ifindex s1 = ifindex → qs_ifindex s2 = ifindex → lives_on fs cpu_node n1 s1 = true → lives_on fs cpu_node n2 s2 = true → n1 ≠ n2 →
    ∃ p, p ∈ xf_plans f ∧ resolve_umem_numa_node fs (wp_config p) = Err KindInvalidInput).
Proof.
  intros Hok Hb Hname Hdev. destruct (factory_build_ok g Hok) as (g1 & r & E' & Hr). rewrite Hb in E'. injection E' as <- <-. destruct Hr as (_ & Hprog & claimed & Hc & cpu_node & by_node & per_node & Hmap & Hgr & Ht & Hpl).
  assert (Hres : ∀ p, p ∈ xf_plans f → wp_ifindex p = ifindex →
    resolve_umem_numa_node fs (wp_config p) = if decide (wp_numa p = Some device) then Ok device else Err KindInvalidInput).
  { intros p Hp Hi. pose proof (nodes_all _ _ _ _ _ _ Hpl) as Hall. rewrite Forall_forall in Hall. destruct (Hall p Hp) as (node & slots & cores & k & block & _ & _ & _ & [K1 _ _ _ _ (q & h & _ & _ & K8)]).
    unfold resolve_umem_numa_node. rewrite K8. cbn [plan_config ic_ifindex ic_numa_node]. rewrite Hi, Hname. cbn [result_bind]. rewrite Hdev, K1.
    destruct (Z.eqb_spec node device) as [->|Hne]; cbn [negb]; [by rewrite decide_True|]. by rewrite decide_False by congruence. }
  split; [done|]. intros claimed' cpu_node' s1 s2 n1 n2 Hc' Hm' Hs1 Hs2 Hi1 Hi2 Hl1 Hl2 Hne. assert (claimed' = claimed) as -> by congruence. assert (cpu_node' = cpu_node) as -> by congruence.
  assert (Hat : ∀ s n, s ∈ claimed → qs_ifindex s = ifindex → lives_on fs cpu_node n s = true → ∃ p, p ∈ xf_plans f ∧ wp_numa p = Some n ∧ wp_ifindex p = ifindex).
  { intros s n Hs Hi Hl. destruct Hgr as (Hsort & Hfil & _). pose proof (nodes_queues _ _ _ _ _ _ n ifindex Hsort Hpl) as Hq. rewrite Hfil in Hq.
    assert (Hin : qs_queue s ∈ (qs_queue <$> filter (λ s, qs_ifindex s = ifindex) (filter (λ s, lives_on fs cpu_node n s = true) claimed))) by (apply list_elem_of_fmap_2; by rewrite !list_elem_of_filter).
    rewrite <- Hq in Hin. apply list_elem_of_In, in_concat in Hin as (qs & Hqs%list_elem_of_In & _). apply list_elem_of_fmap in Hqs as (p & _ & Hp). apply list_elem_of_filter in Hp as [[? ?] ?]. by exists p. }
  destruct (Hat s1 n1 Hs1 Hi1 Hl1) as (p1 & Hp1 & Hn1 & Hx1), (Hat s2 n2 Hs2 Hi2 Hl2) as (p2 & Hp2 & Hn2 & Hx2). destruct (decide (n1 = device)) as [->|Hnd].
  - exists p2. split; [done|]. rewrite Hres by done. rewrite decide_False; [done|]. rewrite Hn2. congruence.
  - exists p1. split; [done|]. rewrite Hres by done. rewrite decide_False; [done|]. rewrite Hn1. congruence.
Qed.
End Build.

(** ** A card whose two queues are served on two nodes *)
Definition nic : str := text "nic".
Definition nic_files : list (str * str) := [
  (text "/sys/devices/system/node/online", text "0-1");
  (text "/sys/devices/system/node/node0/cpulist", text "0-1");
  (text "/sys/devices/system/node/node1/cpulist", text "2-3");
  (text "/sys/class/net/nic/device/numa_node", text "0");
  (text "/proc/interrupts", text " 40: 5 nic-0" ++ newline :: text " 41: 5 nic-1");
  (text "/proc/irq/40/smp_affinity_list", text "1");
  (text "/proc/irq/41/smp_affinity_list", text "2")].
Definition nic_fs : Sysfs := mkSysfs (λ _, true)
  (λ path, match list_find (λ f, f.1 = path) nic_files with Some (_, f) => Ok f.2 | None => Err KindNotFound end)
  (λ _, Err KindNotFound) (λ _, Ok 7) (λ _, Ok nic).
Definition nic_slots : list XdpQueueSlot := [mkQueueSlot nic 7 0 0; mkQueueSlot nic 7 1 1].
Definition nic_layout : BufferLayout := mkLayout 8 0 0 8 0 1 8 1 0 false.
Definition nic_builder (threads : option Z) (filter : PortFilter) : XdpFactoryBuilder :=
  mkBuilder nic nic_slots ClaimAll threads filter 64 HugeDefault 1500 RingSizes_default ZeroCopy AttachDefault
    (mkQueueBuffers nic_layout nic_layout None None) snapshot_new None.

(** An object without optional maps. *)
#[local] Instance bare_aya : Aya unit := {
  aya_array _ _ _ := None;
  aya_array_set e _ _ _ _ := (e, Err "no map"%string);
  aya_xskmap _ := Some (Ok ∅);
  aya_xskmap_set e _ _ := (e, Ok tt);
  bpf_map_delete e _ := (e, Ok tt);
  aya_program _ _ := Some (Ok tt);
  aya_program_load e _ := (e, Ok tt);
  aya_program_attach e _ _ _ := (e, Ok tt);
}.
Definition no_programs : Registry unit := mkRegistry ∅ ∅.
Lemma no_programs_ok {E} `{Aya E} : registry_ok (mkRegistry ∅ ∅ : Registry E) [].
Proof. by constructor; cbn; intros; simplify_map_eq; set_solver. Qed.
Definition nic_build := factory_build nic_fs (λ _, Ok tt) 9 400 (nic_builder None AllIp) no_programs.
Definition nic_result : Registry unit * result XdpFactory FactoryError := match nic_build with Ret x => x | _ => (no_programs, Err NoQueues) end.
Definition nic_factory : XdpFactory := match nic_result.2 with Ok f => f | Err _ => mkFactory [] [] end.
Lemma nic_build_ok : nic_build = Ret (nic_result.1, Ok nic_factory).
Proof. vm_compute. reflexivity. Qed.
Lemma nic_fits claimed : claimed_slots_checked (nic_builder None AllIp) = Ok claimed → default (len claimed) (fb_threads (nic_builder None AllIp)) * 400 ≤ 2 ^ 63 - 1.
Proof. intros [= <-]. vm_compute. congruence. Qed.


Lemma factory_partitions_queues_witness :
  len (xf_plans nic_factory) = 2 ∧ ((λ p, (wp_numa p, wp_cpu p, wp_queues p)) <$> xf_plans nic_factory) = [(Some 0, 0, [0]); (Some 1, 2, [1])] ∧
  ∃ claimed cpu_node, claimed_slots_checked (nic_builder None AllIp) = Ok claimed ∧
    concat (wp_queues <$> filter (λ p, wp_numa p = Some 1 ∧ wp_ifindex p = 7) (xf_plans nic_factory))
      = qs_queue <$> filter (λ s, lives_on nic_fs cpu_node 1 s = true ∧ qs_ifindex s = 7) claimed.
Proof.
  destruct (factory_partitions_queues nic_fs (λ _, Ok tt) 9 400 (nic_builder None AllIp) [] nic_fits ltac:(done) no_programs nic_result.1 nic_factory no_programs_ok nic_build_ok)
    as (claimed & cpu_node & H1 & _ & _ & H4 & _).
  split; [vm_compute; reflexivity|]. split; [vm_compute; reflexivity|]. exists claimed, cpu_node. split; [exact H1|]. apply (H4 1 7).
Defined.

Lemma factory_plans_off_node_witness :
  ∃ p, p ∈ xf_plans nic_factory ∧ resolve_umem_numa_node nic_fs (wp_config p) = Err KindInvalidInput.
Proof.
  destruct (factory_plans_off_node nic_fs (λ _, Ok tt) 9 400 (nic_builder None AllIp) [] nic_fits ltac:(done) no_programs nic_result.1 nic_factory 7 nic 0 no_programs_ok nic_build_ok)
    as [_ H]; [reflexivity|vm_compute; reflexivity|].
  apply (H nic_slots {[0 := 0; 1 := 0; 2 := 1; 3 := 1]} (mkQueueSlot nic 7 0 0) (mkQueueSlot nic 7 1 1) 0 1); try reflexivity; try (vm_compute; reflexivity); [left|right; left|done].
Defined.

(** ** A failed build on a shared program

    Another socket of the process holds the program of the interface; the
    build binds its ports in it, fails because three threads do not divide
    among two nodes, and leaves the port redirected. *)
Definition shared_registry : Registry Object := (load_with_config (mkRegistry ∅ ∅) 7 AttachDefault BoundPorts (Ok fresh_object) 9).1.
Definition port_entry (g : Registry Object) (port : Z) : list (option Z * option Z) :=
  (λ np, (pg_bound_ports np.2.2 !! port, ob_ports (pg_ebpf np.2.2) !! Z.to_nat port)) <$> map_to_list (rg_heap g).
Lemma failed_build_leaves_port :
  let '(g', failed) :=
    match factory_build nic_fs (λ _, Ok fresh_object) 9 400 (nic_builder (Some 3) (UdpPorts [53])) shared_registry with
    | Ret (g', Err ThreadsNotMultiple) => (g', true)
    | _ => (shared_registry, false)
    end in
  failed = true ∧ port_entry shared_registry 53 = [(None, Some 0)] ∧ port_entry g' 53 = [(Some 1, Some 1)].
Proof. vm_compute. done. Qed.
