(* ===== verification/RawOpen.v ===== *)
(** * Opening an AF_XDP socket: the system calls of [raw_socket.rs]

    [RawXdpSocket::new_inner], the busy-poll options and the two doorbells, as
    sequences of system calls. The kernel answers each call from the calls
    made so far; the answers are arguments. A value that owns a descriptor or
    a mapping gives it back when it goes out of scope, on every error path. *)
From S2P Require Import Factory.
From S2P Require Import Prelude Bits Umem Ring Live.

Open Scope Z_scope.

(** ** System calls *)
Definition AF_XDP : Z := 44.
Definition SOL_SOCKET : Z := 1.
Definition SOL_XDP : Z := 283.
Definition XDP_RX_RING : Z := 2.
Definition XDP_TX_RING : Z := 3.
Definition XDP_UMEM_REG : Z := 4.
Definition XDP_UMEM_FILL_RING : Z := 5.
Definition XDP_UMEM_COMPLETION_RING : Z := 6.
Definition XDP_SHARED_UMEM : Z := 1.
Definition XDP_COPY : Z := 2.
Definition XDP_ZEROCOPY : Z := 4.
Definition XDP_USE_NEED_WAKEUP : Z := 8.
Definition XDP_PGOFF_RX_RING : Z := 0.
Definition XDP_PGOFF_TX_RING : Z := 0x80000000.
Definition XDP_UMEM_PGOFF_FILL_RING : Z := 0x100000000.
Definition XDP_UMEM_PGOFF_COMPLETION_RING : Z := 0x180000000.
Definition SO_BUSY_POLL : Z := 46.
Definition SO_PREFER_BUSY_POLL : Z := 69.
Definition SO_BUSY_POLL_BUDGET : Z := 70.
Definition EAGAIN : Z := 11.
Definition EBUSY : Z := 16.
Definition ENETDOWN : Z := 100.

Record xdp_umem_reg := mkUmemReg {
  ur_addr : Z;
  ur_len : Z;
  ur_chunk_size : Z;
  ur_headroom : Z;
}.
Record sockaddr_xdp := mkSockaddrXdp {
  sxdp_flags : Z;
  sxdp_ifindex : Z;
  sxdp_queue_id : Z;
  sxdp_shared_umem_fd : Z;
}.
Record xdp_ring_offset := mkRingOffset {
  ro_producer : Z;
  ro_consumer : Z;
  ro_desc : Z;
  ro_flags : Z;
}.
Record xdp_mmap_offsets := mkMmapOffsets {
  mo_rx : xdp_ring_offset;
  mo_tx : xdp_ring_offset;
  mo_fr : xdp_ring_offset;
  mo_cr : xdp_ring_offset;
}.

Inductive OptValue := OptInt (v : Z) | OptUmemReg (reg : xdp_umem_reg) | OptBytes (bytes : list Z).
(** The calls of this crate and of the kernel-socket backend. *)
Inductive SysCall :=
  | SysSocket
  | SysUdpSocket (domain type : Z)
  | SysSetsockopt (fd level opt : Z) (value : OptValue)
  | SysMmapOffsets (fd : Z)
  | SysMmap (fd n offset : Z)
  | SysBind (fd : Z) (addr : sockaddr_xdp)
  | SysBindName (fd : Z) (name : list Z)
  | SysGetFd (fd : Z)
  | SysSetFd (fd flags : Z)
  | SysNonblocking (fd : Z)
  | SysSockPort (fd : Z)
  | SysIfIndex (name : list Z)
  | SysPoll (fd : Z)
  | SysDupFd (fd : Z)
  | SysSendto (fd : Z)
  | SysClose (fd : Z)
  | SysMunmap (ptr n : Z).

(** The calls made, oldest first, each with its answer: a value or [errno]. *)
Definition Trace : Type := list (SysCall * result Z Z).

Inductive RawError :=
  | RawRing (e : ring_error)
  | RawOs (errno : Z)
  | RawCInt (value : Z).

(** Code that makes system calls and may return early with an error. *)
Definition SysE (E A : Type) : Type := Trace → outcome (Trace * result A E).
Abbreviation SysM := (SysE RawError).
Definition sys_ret {E A} (a : A) : SysE E A := λ t, Ret (t, Ok a).
Definition sys_err {E A} (e : E) : SysE E A := λ t, Ret (t, Err e).
Definition sys_bind {E A B} (m : SysE E A) (k : A → SysE E B) : SysE E B := λ t,
  '(t, r) ← m t;
  match r with
  | Ok a => k a t
  | Err e => Ret (t, Err e)
  end.
Notation "'do' x <- m ; k" := (sys_bind m (λ x, k))
  (at level 100, x pattern, m at next level, right associativity) : rust_scope.

(** An owned value in scope: an error below it drops it. *)
Definition owning {E A} (release : SysM unit) (m : SysE E A) : SysE E A := λ t,
  '(t, r) ← m t;
  match r with
  | Ok a => Ret (t, Ok a)
  | Err e => '(t, _) ← release t; Ret (t, Err e)
  end.

Inductive UmemBinding :=
  | Owner (addr : Z) (umem : Umem) (umem_headroom : Z)
  | Shared (shared_fd : Z).

Definition mode_flag (mode : XdpMode) : Z :=
  match mode with
  | XdpAuto => 0
  | ZeroCopy => XDP_ZEROCOPY
  | XdpCopy => XDP_COPY
  end.

(** A mapping, and where its parts are. *)
Record RingMmap := mkRingMmap {
  rm_ptr : Z;
  rm_len : Z;
  rm_producer : Z;
  rm_consumer : Z;
  rm_desc : Z;
  rm_flags : Z;
}.

Record RawSocket := mkRawSocket {
  rs_fd : Z;
  rs_if_index : Z;
  rs_queue_id : Z;
  rs_sizes : RingSizes;
  rs_mode : XdpMode;
  rs_fill_map : RingMmap;
  rs_comp_map : RingMmap;
  rs_rx_map : RingMmap;
  rs_tx_map : RingMmap;
  rs_rings : RawXdpSocket;
}.

Section Sys.
Context (os : Trace → SysCall → result Z Z).
Context (offsets_of : Trace → Z → xdp_mmap_offsets).

Definition call (c : SysCall) : SysM Z := λ t,
  let r := os t c in
  Ret (t ++ [(c, r)], match r with Ok v => Ok v | Err errno => Err (RawOs errno) end).
(** A call whose failure is ignored. *)
Definition call_ (c : SysCall) : SysM unit := λ t, Ret (t ++ [(c, os t c)], Ok tt).

Definition setsockopt (fd level opt : Z) (value : OptValue) : SysM unit :=
  do _ <- call (SysSetsockopt fd level opt value); sys_ret tt.

(** [OwnedFd] and [RingMmap] going out of scope. *)
Definition close_fd (fd : Z) : SysM unit := call_ (SysClose fd).
Definition drop_map (m : RingMmap) : SysM unit := call_ (SysMunmap (rm_ptr m) (rm_len m)).

(** [mmap_ring]; a null mapping is a panic. *)
Definition mmap_ring (fd desc_len : Z) (offsets : xdp_ring_offset) (ring_offset : Z) : SysM RingMmap :=
  let n := mmap_ring_len (ro_producer offsets) (ro_consumer offsets) (ro_flags offsets) (ro_desc offsets) desc_len in
  do ptr <- call (SysMmap fd n ring_offset);
  if ptr =? 0 then λ _, Panic
  else
    sys_ret (mkRingMmap ptr n (ptr + ro_producer offsets) (ptr + ro_consumer offsets) (ptr + ro_desc offsets)
               (ptr + ro_flags offsets)).

Definition get_offsets (fd : Z) : SysM xdp_mmap_offsets := λ t,
  (do _ <- call (SysMmapOffsets fd); sys_ret (offsets_of t fd)) t.

Fixpoint set_rings (fd : Z) (opts : list (Z * Z)) : SysM unit :=
  match opts with
  | [] => sys_ret tt
  | (opt, size) :: opts => do _ <- setsockopt fd SOL_XDP opt (OptInt size); set_rings fd opts
  end.

(** The UMEM half of [new_inner]: the shared descriptor and the bind flags. *)
Definition attach_umem (fd : Z) (binding : UmemBinding) (mode : XdpMode) : SysM (Z * Z) :=
  match binding with
  | Owner addr umem umem_headroom =>
      let reg := mkUmemReg addr (umem_len umem) (um_frame_size umem) umem_headroom in
      do _ <- setsockopt fd SOL_XDP XDP_UMEM_REG (OptUmemReg reg);
      sys_ret (0, Z.lor XDP_USE_NEED_WAKEUP (mode_flag mode))
  | Shared shared_fd => sys_ret (u32 shared_fd, XDP_SHARED_UMEM)
  end.

Definition lift_prefill (r : outcome (result unit ring_error * RingProducer * RingMem Z)) :
    SysM (RingProducer * RingMem Z) := λ t,
  '(r, p, m) ← r;
  Ret (t, match r with Ok _ => Ok (p, m) | Err e => Err (RawRing e) end).

(** [RawXdpSocket::new_inner]. [fill], [comp], [rx] and [tx] are the contents
    of the four mappings. *)
Definition new_inner (if_index queue_id : Z) (binding : UmemBinding) (sizes : RingSizes) (mode : XdpMode)
    (pre_fill_frames : list Z) (fill comp : RingMem Z) (rx tx : RingMem XdpDesc) : SysM RawSocket :=
  match ring_sizes_validate sizes with
  | Err e => sys_err (RawRing e)
  | Ok _ =>
      do fd <- call SysSocket;
      owning (close_fd fd) (
      do (shared_umem_fd, bind_flags) <- attach_umem fd binding mode;
      do _ <- set_rings fd [(XDP_UMEM_COMPLETION_RING, sz_completion sizes); (XDP_UMEM_FILL_RING, sz_fill sizes);
                            (XDP_RX_RING, sz_rx sizes); (XDP_TX_RING, sz_tx sizes)];
      do offsets <- get_offsets fd;
      do fill_map <- mmap_ring fd (sz_fill sizes * 8) (mo_fr offsets) XDP_UMEM_PGOFF_FILL_RING;
      owning (drop_map fill_map) (
      do comp_map <- mmap_ring fd (sz_completion sizes * 8) (mo_cr offsets) XDP_UMEM_PGOFF_COMPLETION_RING;
      owning (drop_map comp_map) (
      do rx_map <- mmap_ring fd (sz_rx sizes * 16) (mo_rx offsets) XDP_PGOFF_RX_RING;
      owning (drop_map rx_map) (
      do tx_map <- mmap_ring fd (sz_tx sizes * 16) (mo_tx offsets) XDP_PGOFF_TX_RING;
      owning (drop_map tx_map) (
      do (fill_prod, fill) <- lift_prefill (prefill (producer_new (sz_fill sizes)) fill (sz_fill sizes) pre_fill_frames);
      do _ <- call (SysBind fd (mkSockaddrXdp bind_flags if_index queue_id shared_umem_fd));
      sys_ret (mkRawSocket fd if_index queue_id sizes mode fill_map comp_map rx_map tx_map
                 (mkRaw fill_prod fill consumer_new comp consumer_new rx (producer_new (sz_tx sizes)) tx)))))))
  end.

Definition new_with_umem_headroom (if_index queue_id : Z) (addr : Z) (umem : Umem) (sizes : RingSizes)
    (mode : XdpMode) (umem_headroom : Z) : list Z → RingMem Z → RingMem Z → RingMem XdpDesc → RingMem XdpDesc →
    SysM RawSocket :=
  new_inner if_index queue_id (Owner addr umem umem_headroom) sizes mode.
Definition new_shared_umem (if_index queue_id shared_fd : Z) (sizes : RingSizes) (mode : XdpMode) :
    list Z → RingMem Z → RingMem Z → RingMem XdpDesc → RingMem XdpDesc → SysM RawSocket :=
  new_inner if_index queue_id (Shared shared_fd) sizes mode.

(** [try_clone_fd]: a new descriptor of the same socket. *)
Definition try_clone_fd (s : RawSocket) : SysM Z := call (SysDupFd (rs_fd s)).

(** The fields of a socket are dropped in the order of its declaration. *)
Definition drop_raw (s : RawSocket) : SysM unit :=
  do _ <- close_fd (rs_fd s);
  do _ <- drop_map (rs_fill_map s);
  do _ <- drop_map (rs_comp_map s);
  do _ <- drop_map (rs_rx_map s);
  drop_map (rs_tx_map s).

(** ** Busy polling *)
Definition clamp_to_c_int (value : Z) : SysM Z :=
  if value <? 2 ^ 31 then sys_ret value else sys_err (RawCInt value).

Definition configure_busy_poll (s : RawSocket) (busy_poll_us budget : Z) : SysM unit :=
  do _ <- setsockopt (rs_fd s) SOL_SOCKET SO_PREFER_BUSY_POLL (OptInt 1);
  do busy_poll_us <- clamp_to_c_int busy_poll_us;
  do _ <- setsockopt (rs_fd s) SOL_SOCKET SO_BUSY_POLL (OptInt busy_poll_us);
  do budget <- clamp_to_c_int budget;
  setsockopt (rs_fd s) SOL_SOCKET SO_BUSY_POLL_BUDGET (OptInt budget).

(** ** Doorbells *)
Definition wake_rx (s : RawSocket) : SysM unit := do _ <- call (SysPoll (rs_fd s)); sys_ret tt.

Definition wake_tx (s : RawSocket) : SysM unit := λ t,
  '(t, r) ← call (SysSendto (rs_fd s)) t;
  Ret (t, match r with
          | Ok _ => Ok tt
          | Err (RawOs e) => if (e =? EAGAIN) || (e =? EBUSY) || (e =? ENETDOWN) then Ok tt else Err (RawOs e)
          | Err e => Err e
          end).
End Sys.
