(* ===== verification/RawOpenMain.v ===== *)
(** * Properties of opening an AF_XDP socket

    Whatever the kernel answers, nothing is leaked: every descriptor and every
    mapping taken is given back in the reverse order when the opening fails,
    and kept by the socket when it succeeds. *)
From S2P Require Import Factory.
From S2P Require Import Prelude Bits Umem Ring RingProofs Reclaim ReclaimProofs.
From S2P Require Import Live LiveRing LiveProofs LiveSteps RawOpen.
Open Scope Z_scope.

(** ** What the kernel hands out *)
Inductive Resource := RFd (fd : Z) | RMap (ptr n : Z).

Definition acquired_by (e : SysCall * result Z Z) : option Resource :=
  match e with
  | (SysSocket, Ok fd) | (SysUdpSocket _ _, Ok fd) | (SysDupFd _, Ok fd) => Some (RFd fd)
  | (SysMmap _ n _, Ok ptr) => Some (RMap ptr n)
  | _ => None
  end.
Definition released_by (e : SysCall * result Z Z) : option Resource :=
  match e.1 with
  | SysClose fd => Some (RFd fd)
  | SysMunmap ptr n => Some (RMap ptr n)
  | _ => None
  end.
Definition acquired (d : Trace) : list Resource := omap acquired_by d.
Definition released (d : Trace) : list Resource := omap released_by d.
Definition map_resource (m : RingMmap) : Resource := RMap (rm_ptr m) (rm_len m).
Definition resources (s : RawSocket) : list Resource :=
  RFd (rs_fd s) :: (map_resource <$> [rs_fill_map s; rs_comp_map s; rs_rx_map s; rs_tx_map s]).

Lemma acquired_app d d' : acquired (d ++ d') = acquired d ++ acquired d'.
Proof. apply omap_app. Qed.
Lemma released_app d d' : released (d ++ d') = released d ++ released d'.
Proof. apply omap_app. Qed.

(** ** Scoped code

    It returns; an error leaves nothing behind; a result [a] kept what it took,
    with calls [d] such that [P d a]. *)
Definition scoped {X A} (m : SysE X A) (P : Trace → A → Prop) : Prop :=
  ∀ t, ∃ d r, m t = Ret (t ++ d, r) ∧
    match r with
    | Ok a => released d = [] ∧ P d a
    | Err _ => released d = rev (acquired d)
    end.

Lemma scoped_ret {X A} (a : A) (P : Trace → A → Prop) : P [] a → scoped (sys_ret (E := X) a) P.
Proof. intros HP t. exists [], (Ok a). rewrite app_nil_r. done. Qed.
Lemma scoped_err {X A} (e : X) (P : Trace → A → Prop) : scoped (sys_err e) P.
Proof. intros t. exists [], (Err e). rewrite app_nil_r. done. Qed.

Lemma scoped_bind {X A B} (m : SysE X A) (k : A → SysE X B) P1 P : scoped m P1 →
  (∀ d1 a, P1 d1 a → acquired d1 = [] ∧ scoped (k a) (λ d2 b, P (d1 ++ d2) b)) → scoped (sys_bind m k) P.
Proof.
  intros Hm Hk t. destruct (Hm t) as (d1 & r1 & E & Hr). unfold sys_bind. rewrite E. run.
  destruct r1 as [a|e]; [|by exists d1, (Err e)]. destruct Hr as [Hrel HP1]. destruct (Hk _ _ HP1) as [Ha Hka].
  destruct (Hka (t ++ d1)) as (d2 & r2 & E2 & Hr2). rewrite E2, <- app_assoc. exists (d1 ++ d2), r2. split; [done|].
  rewrite acquired_app, released_app, Hrel, Ha. by destruct r2.
Qed.

(** Giving back one resource. *)
Definition releases (m : SysM unit) (res : Resource) : Prop :=
  ∀ t, ∃ e, m t = Ret (t ++ [e], Ok tt) ∧ released_by e = Some res ∧ acquired_by e = None.

Lemma scoped_owning {X A B} (m : SysE X A) (rel : A → SysM unit) (k : A → SysE X B) P1 res P : scoped m P1 →
  (∀ a, releases (rel a) (res a)) →
  (∀ d1 a, P1 d1 a → acquired d1 = [res a] ∧ scoped (k a) (λ d2 b, P (d1 ++ d2) b)) →
  scoped (sys_bind m (λ a, owning (rel a) (k a))) P.
Proof.
  intros Hm Hrel Hk t. destruct (Hm t) as (d1 & r1 & E & Hr). unfold sys_bind, owning. rewrite E. run.
  destruct r1 as [a|e]; [|by exists d1, (Err e)]. destruct Hr as [Hnone HP1]. destruct (Hk _ _ HP1) as [Ha Hka].
  destruct (Hka (t ++ d1)) as (d2 & r2 & E2 & Hr2). rewrite E2, <- app_assoc. run. destruct r2 as [b|e].
  - exists (d1 ++ d2), (Ok b). split; [done|]. by rewrite released_app, Hnone.
  - destruct (Hrel a (t ++ d1 ++ d2)) as (ev & Erel & Hev & Hacq). rewrite Erel. run.
    exists (d1 ++ d2 ++ [ev]), (Err e). split; [by rewrite <- !app_assoc|].
    rewrite !acquired_app, !released_app, Hnone, Hr2, Ha. cbn. rewrite Hev, Hacq, app_nil_r. done.
Qed.

Section Open.
Context (os : Trace → SysCall → result Z Z) (offsets_of : Trace → Z → xdp_mmap_offsets).

Lemma scoped_call c : (∀ r, released_by (c, r) = None) → scoped (call os c) (λ d v, d = [(c, Ok v)]).
Proof.
  intros Hc t. exists [(c, os t c)]. unfold call. unfold released, acquired. cbn. rewrite Hc.
  destruct (os t c) as [v|e]; (eexists; split; [done|]); [done|]. by destruct c.
Qed.
Lemma scoped_setsockopt fd level opt v : scoped (setsockopt os fd level opt v) (λ d _, ∃ k, d = [(SysSetsockopt fd level opt v, Ok k)]).
Proof.
  apply (scoped_bind _ _ _ _ (scoped_call (SysSetsockopt fd level opt v) (λ _, eq_refl))). intros d1 a ->. split; [done|]. apply scoped_ret. by exists a.
Qed.

(** Only the calls matter from here on. *)
Definition makes {X A} (m : SysE X A) (calls : A → list SysCall) : Prop :=
  scoped m (λ d a, d.*1 = calls a ∧ acquired d = []).

Lemma makes_bind {X A B} (m : SysE X A) (k : A → SysE X B) calls P : makes m calls →
  (∀ a d1, d1.*1 = calls a → scoped (k a) (λ d2 b, P (d1 ++ d2) b)) → scoped (sys_bind m k) P.
Proof. intros Hm Hk. apply (scoped_bind _ _ _ _ Hm). intros d1 a [Hc Ha]. split; [done|]. by apply Hk. Qed.

Lemma makes_setsockopt fd level opt v : makes (setsockopt os fd level opt v) (λ _, [SysSetsockopt fd level opt v]).
Proof.
  intros t. destruct (scoped_setsockopt fd level opt v t) as (d & r & E & Hr). exists d, r. split; [done|].
  destruct r; [|done]. destruct Hr as [Hr [k ->]]. done.
Qed.

Lemma makes_set_rings fd opts : makes (set_rings os fd opts) (λ _, (λ '(opt, size), SysSetsockopt fd SOL_XDP opt (OptInt size)) <$> opts).
Proof.
  induction opts as [|[opt size] opts IH]; cbn [set_rings]; [by apply scoped_ret|].
  apply (scoped_bind _ _ _ _ (makes_setsockopt fd SOL_XDP opt (OptInt size))). intros d1 [] [Hc Ha]. split; [done|].
  intros t. destruct (IH t) as (d & r & E & Hr). exists d, r. split; [done|]. destruct r; [|done].
  destruct Hr as (Hrel & Hd & Hacq). split; [done|]. rewrite fmap_app, acquired_app, Hc, Hd, Ha, Hacq. done.
Qed.

(** What the owner and the members do differently. *)
Definition umem_calls (fd : Z) (binding : UmemBinding) : list SysCall :=
  match binding with
  | Owner addr umem headroom =>
      [SysSetsockopt fd SOL_XDP XDP_UMEM_REG (OptUmemReg (mkUmemReg addr (umem_len umem) (um_frame_size umem) headroom))]
  | Shared _ => []
  end.
Definition bind_addr (if_index queue_id : Z) (binding : UmemBinding) (mode : XdpMode) : sockaddr_xdp :=
  match binding with
  | Owner _ _ _ => mkSockaddrXdp (Z.lor XDP_USE_NEED_WAKEUP (mode_flag mode)) if_index queue_id 0
  | Shared shared_fd => mkSockaddrXdp XDP_SHARED_UMEM if_index queue_id (u32 shared_fd)
  end.

Lemma scoped_attach fd binding mode : scoped (attach_umem os fd binding mode) (λ d r,
  d.*1 = umem_calls fd binding ∧ acquired d = [] ∧
  ∀ if_index queue_id, mkSockaddrXdp r.2 if_index queue_id r.1 = bind_addr if_index queue_id binding mode).
Proof.
  destruct binding as [addr u h|sfd]; cbn [attach_umem].
  - apply (scoped_bind _ _ _ _ (makes_setsockopt fd SOL_XDP XDP_UMEM_REG _)). intros d1 [] [Hc Ha]. split; [done|].
    apply scoped_ret. by rewrite app_nil_r.
  - by apply scoped_ret.
Qed.

(** Every part of a mapping is inside it. *)
Definition map_covers (m : RingMmap) (desc_len : Z) : Prop :=
  rm_producer m + 4 ≤ rm_ptr m + rm_len m ∧ rm_consumer m + 4 ≤ rm_ptr m + rm_len m ∧
  rm_flags m + 4 ≤ rm_ptr m + rm_len m ∧ rm_desc m + desc_len ≤ rm_ptr m + rm_len m.

Context (Hmmap : ∀ t fd n offset, os t (SysMmap fd n offset) ≠ Ok 0).

Lemma scoped_mmap fd desc_len offsets off : scoped (mmap_ring os fd desc_len offsets off) (λ d m,
  d.*1 = [SysMmap fd (rm_len m) off] ∧ acquired d = [map_resource m] ∧ map_covers m desc_len).
Proof.
  intros t. unfold mmap_ring, sys_bind, call. cbn [mbind outcome_bind]. set (n := mmap_ring_len _ _ _ _ _).
  pose proof (Hmmap t fd n off) as Hn. destruct (os t (SysMmap fd n off)) as [ptr|e] eqn:E.
  - destruct (Z.eqb_spec ptr 0) as [->|]; [done|]. eexists _, _. split; [reflexivity|]. split; [done|]. split; [done|]. split; [done|].
    unfold map_covers. cbn. unfold n, mmap_ring_len. lia.
  - eexists _, _. split; [reflexivity|]. done.
Qed.

Lemma releases_close fd : releases (close_fd os fd) (RFd fd).
Proof. intros t. by eexists. Qed.
Lemma releases_map m : releases (drop_map os m) (map_resource m).
Proof. intros t. by eexists. Qed.

(** The calls of a successful opening. *)
Definition open_calls (binding : UmemBinding) (s : RawSocket) : list SysCall :=
  let fd := rs_fd s in
  let sizes := rs_sizes s in
  [SysSocket] ++ umem_calls fd binding ++
  [SysSetsockopt fd SOL_XDP XDP_UMEM_COMPLETION_RING (OptInt (sz_completion sizes));
   SysSetsockopt fd SOL_XDP XDP_UMEM_FILL_RING (OptInt (sz_fill sizes));
   SysSetsockopt fd SOL_XDP XDP_RX_RING (OptInt (sz_rx sizes));
   SysSetsockopt fd SOL_XDP XDP_TX_RING (OptInt (sz_tx sizes));
   SysMmapOffsets fd;
   SysMmap fd (rm_len (rs_fill_map s)) XDP_UMEM_PGOFF_FILL_RING;
   SysMmap fd (rm_len (rs_comp_map s)) XDP_UMEM_PGOFF_COMPLETION_RING;
   SysMmap fd (rm_len (rs_rx_map s)) XDP_PGOFF_RX_RING;
   SysMmap fd (rm_len (rs_tx_map s)) XDP_PGOFF_TX_RING;
   SysBind fd (bind_addr (rs_if_index s) (rs_queue_id s) binding (rs_mode s))].

(** What a socket that opened is. *)
Record raw_opened (if_index queue_id : Z) (binding : UmemBinding) (sizes : RingSizes) (mode : XdpMode) (frames : list Z)
    (fill comp : RingMem Z) (rx tx : RingMem XdpDesc) (d : Trace) (s : RawSocket) : Prop := mkRawOpened {
  ro_if : rs_if_index s = if_index;
  ro_queue : rs_queue_id s = queue_id;
  ro_sizes : rs_sizes s = sizes;
  ro_mode : rs_mode s = mode;
  ro_valid : ring_sizes_validate sizes = Ok tt;
  ro_calls : d.*1 = open_calls binding s;
  ro_held : acquired d = resources s;
  ro_fill : map_covers (rs_fill_map s) (sz_fill sizes * 8);
  ro_comp : map_covers (rs_comp_map s) (sz_completion sizes * 8);
  ro_rx : map_covers (rs_rx_map s) (sz_rx sizes * 16);
  ro_tx : map_covers (rs_tx_map s) (sz_tx sizes * 16);
  ro_prefilled : ∃ p m, prefill (producer_new (sz_fill sizes)) fill (sz_fill sizes) frames = Ret (Ok tt, p, m) ∧
    rs_rings s = mkRaw p m consumer_new comp consumer_new rx (producer_new (sz_tx sizes)) tx;
}.

Lemma scoped_prefill size (fill : RingMem Z) frames : ring_size size → fresh_ring size fill →
  scoped (lift_prefill (prefill (producer_new size) fill size frames)) (λ d r,
    d = [] ∧ prefill (producer_new size) fill size frames = Ret (Ok tt, r.1, r.2)).
Proof.
  intros Hs Hf t. exists []. rewrite app_nil_r.
  destruct (prefill_ok size frames 0 [] _ _ (pinv_fresh size fill Hs Hf)) as [H1 H2]. unfold lift_prefill.
  destruct (Z.le_gt_cases (len (@nil Z) + len frames) size) as [Hle|Hgt].
  - destruct (H1 Hle) as (p & m & -> & _). run. by eexists.
  - destruct (H2 Hgt) as (p & m & ->). run. by eexists.
Qed.

Lemma new_inner_scoped if_index queue_id binding sizes mode frames fill comp rx tx :
  (ring_sizes_validate sizes = Ok tt → ring_size (sz_fill sizes)) → fresh_ring (sz_fill sizes) fill →
  scoped (new_inner os offsets_of if_index queue_id binding sizes mode frames fill comp rx tx)
    (raw_opened if_index queue_id binding sizes mode frames fill comp rx tx).
Proof.
  intros Hsz Hfresh. unfold new_inner. destruct (ring_sizes_validate sizes) as [[]|e] eqn:Hval; [|apply scoped_err].
  specialize (Hsz eq_refl).
  apply (scoped_owning _ _ _ _ RFd _ (scoped_call SysSocket (λ _, eq_refl)) (releases_close)). intros d1 fd ->. split; [done|].
  apply (scoped_bind _ _ _ _ (scoped_attach fd binding mode)). intros d2 [sfd bf] (Hc2 & Ha2 & Hbind). split; [done|].
  apply (scoped_bind _ _ _ _ (makes_set_rings fd _)). intros d3 [] [Hc3 Ha3]. split; [done|].
  assert (Hoff : scoped (get_offsets os offsets_of fd) (λ d _, d.*1 = [SysMmapOffsets fd] ∧ acquired d = [])).
  { intros t. apply (scoped_bind (call os (SysMmapOffsets fd)) _ _ _ (scoped_call (SysMmapOffsets fd) (λ _, eq_refl))).
    intros d k ->. split; [done|]. by apply scoped_ret. }
  apply (scoped_bind _ _ _ _ Hoff). intros d4 offs [Hc4 Ha4]. split; [done|].
  apply (scoped_owning _ _ _ _ _ _ (scoped_mmap _ _ _ _) (releases_map)). intros d5 fm (Hc5 & Ha5 & Hcov5). split; [done|].
  apply (scoped_owning _ _ _ _ _ _ (scoped_mmap _ _ _ _) (releases_map)). intros d6 cm (Hc6 & Ha6 & Hcov6). split; [done|].
  apply (scoped_owning _ _ _ _ _ _ (scoped_mmap _ _ _ _) (releases_map)). intros d7 rm (Hc7 & Ha7 & Hcov7). split; [done|].
  apply (scoped_owning _ _ _ _ _ _ (scoped_mmap _ _ _ _) (releases_map)). intros d8 tm (Hc8 & Ha8 & Hcov8). split; [done|].
  apply (scoped_bind _ _ _ _ (scoped_prefill _ fill frames Hsz Hfresh)). intros d9 [p m] [-> Hpre]. split; [done|].
  apply (scoped_bind _ _ _ _ (scoped_call (SysBind fd (mkSockaddrXdp bf if_index queue_id sfd)) (λ _, eq_refl))). intros d10 k ->. split; [done|].
  apply scoped_ret. constructor; try done; [| |by exists p, m].
  - cbn [app]. unfold Trace in *. rewrite fmap_cons, !fmap_app, Hc2, Hc3, Hc4, Hc5, Hc6, Hc7, Hc8. unfold open_calls. cbn. by rewrite <- Hbind.
  - rewrite !acquired_app, Ha2, Ha3, Ha4, Ha5, Ha6, Ha7, Ha8. done.
Qed.

(** The FILL ring of an opened socket holds the frames. *)
Lemma raw_opened_fill if_index queue_id binding sizes mode frames fill comp rx tx d s :
  ring_size (sz_fill sizes) → fresh_ring (sz_fill sizes) fill →
  raw_opened if_index queue_id binding sizes mode frames fill comp rx tx d s →
  pring (sz_fill sizes) frames (fill_prod (rs_rings s)) (fill_mmap (rs_rings s)).
Proof.
  intros Hs Hfresh Ho. destruct (ro_prefilled _ _ _ _ _ _ _ _ _ _ _ _ Ho) as (p & m & Hp & ->). cbn.
  destruct (prefill_ok _ frames 0 [] _ _ (pinv_fresh _ fill Hs Hfresh)) as [H1 H2].
  destruct (Z.le_gt_cases (len (@nil Z) + len frames) (sz_fill sizes)) as [Hle|Hgt].
  - destruct (H1 Hle) as (p' & m' & E1 & Hpr). rewrite E1 in Hp. by injection Hp as -> ->.
  - destruct (H2 Hgt) as (p' & m' & E1). by rewrite E1 in Hp.
Qed.

(** Dropping a socket gives back exactly what it holds. *)
Lemma drop_raw_ok s t : ∃ d, drop_raw os s t = Ret (t ++ d, Ok tt) ∧ released d = resources s ∧ acquired d = [].
Proof. eexists. unfold drop_raw, sys_bind, close_fd, drop_map, call_. run. rewrite <- !app_assoc. split; [done|]. done. Qed.
End Open.

(** Opening an AF_XDP socket leaks nothing and talks to the kernel in the
    one order it accepts, whatever the kernel answers. Bad ring sizes are
    refused before any call. On failure every descriptor and mapping taken is
    given back, last taken first. On success the calls are exactly the socket,
    the UMEM registration (of an owner only), the four ring sizes, the ring
    offsets, the four mappings and, last, the bind, with need-wakeup and the
    copy mode for an owner and with nothing but the shared-UMEM flag for a
    member; the FILL ring already holds the frames; every mapping covers its
    indices and entries; and dropping the socket gives back what it holds. *)
Theorem raw_open_exact os offsets_of if_index queue_id binding sizes mode frames fill comp rx tx t :
  (∀ t fd n offset, os t (SysMmap fd n offset) ≠ Ok 0) →
  0 ≤ sz_fill sizes ≤ U32_MAX → fresh_ring (sz_fill sizes) fill →
  ∃ d r, new_inner os offsets_of if_index queue_id binding sizes mode frames fill comp rx tx t = Ret (t ++ d, r) ∧
    (∀ e, ring_sizes_validate sizes = Err e → d = [] ∧ r = Err (RawRing e)) ∧
    match r with
    | Err _ => released d = rev (acquired d)
    | Ok s => released d = [] ∧ raw_opened if_index queue_id binding sizes mode frames fill comp rx tx d s ∧
        pring (sz_fill sizes) frames (fill_prod (rs_rings s)) (fill_mmap (rs_rings s)) ∧
        ∀ t', ∃ d', drop_raw os s t' = Ret (t' ++ d', Ok tt) ∧ released d' = acquired d
    end.
Proof.
  intros Hmmap Hsz Hfresh.
  assert (Hring : ring_sizes_validate sizes = Ok tt → ring_size (sz_fill sizes)).
  { intros Hv. unfold ring_sizes_validate in Hv. destruct (validate_ring_size _ (sz_fill sizes)) as [[]|] eqn:E; [|done].
    by apply validated_ring_size in E. }
  destruct (new_inner_scoped os offsets_of Hmmap if_index queue_id binding sizes mode frames fill comp rx tx Hring Hfresh t)
    as (d & r & E & Hr). exists d, r. split; [done|]. split.
  { intros e He. unfold new_inner in E. rewrite He in E. injection E as E <-. split; [|done].
    apply (app_inv_head t). by rewrite app_nil_r. }
  destruct r as [s|e]; [|done]. destruct Hr as [Hrel Ho]. split; [done|]. split; [done|]. split.
  - exact (raw_opened_fill _ _ _ _ _ _ _ _ _ _ _ _ (Hring (ro_valid _ _ _ _ _ _ _ _ _ _ _ _ Ho)) Hfresh Ho).
  - intros t'. destruct (drop_raw_ok os s t') as (d' & E' & Hd' & _). exists d'. rewrite (ro_held _ _ _ _ _ _ _ _ _ _ _ _ Ho). done.
Qed.

(** A kernel that hands out growing numbers and answers everything, and one
    whose bind fails. *)
Definition good_os (t : Trace) (c : SysCall) : result Z Z := Ok (Z.of_nat (length t) + 3).
Definition busy_os (t : Trace) (c : SysCall) : result Z Z :=
  match c with SysBind _ _ => Err EBUSY | _ => good_os t c end.
Definition flat_offsets (t : Trace) (fd : Z) : xdp_mmap_offsets :=
  let o := mkRingOffset 0 64 256 128 in mkMmapOffsets o o o o.

Definition two_slots : RingMem Z := mkRing 0 0 0 [0; 0].
Definition two_descs : RingMem XdpDesc := mkRing 0 0 0 [mkXdpDesc 0 0 0; mkXdpDesc 0 0 0].
Definition member_run (os : Trace → SysCall → result Z Z) : outcome (Trace * result RawSocket RawError) :=
  new_inner os flat_offsets 1 0 (Shared 7) (mkSizes 2 2 2 2) ZeroCopy [0; 128] two_slots two_slots two_descs two_descs [].

Lemma busy_never_null t fd n offset : busy_os t (SysMmap fd n offset) ≠ Ok 0.
Proof. intros [= H]. lia. Qed.

Lemma raw_open_exact_witness :
  match member_run good_os with
  | Ret (d, Ok _) => last d.*1 = Some (SysBind 3 (mkSockaddrXdp XDP_SHARED_UMEM 1 0 7))
  | _ => False
  end ∧
  match member_run busy_os with
  | Ret (d, Err (RawOs e)) => e = EBUSY ∧ released d = [RMap 12 288; RMap 11 288; RMap 10 272; RMap 9 272; RFd 3]
  | _ => False
  end ∧
  ∃ d r, member_run busy_os = Ret (d, r) ∧ match r with Err _ => released d = rev (acquired d) | Ok _ => released d = [] end.
Proof.
  split; [vm_compute; reflexivity|]. split; [vm_compute; split; reflexivity|].
  destruct (raw_open_exact busy_os flat_offsets 1 0 (Shared 7) (mkSizes 2 2 2 2) ZeroCopy [0; 128] two_slots two_slots
    two_descs two_descs [] busy_never_null) as (d & r & E & _ & Hr).
  - vm_compute. split; congruence.
  - vm_compute. repeat split; reflexivity.
  - exists d, r. split; [exact E|]. destruct r as [s|e]; [apply Hr|exact Hr].
Defined.
