(* ===== verification/OsOpen.v ===== *)
(** * Binding a kernel socket: the builder of [crates/fast-socket-os-rs/src/lib.rs]

    [OsUdpSocketBuilder], [bind_udp_socket] and [from_std] as the system calls
    they make, on the trace of [RawOpen]: what is set before the bind, what is
    closed on every error path, and what the socket keeps and its drop gives
    back. *)
From S2P Require Import RawOpen RawOpenMain.
From S2P Require Import Prelude Bits Netlink Core Buffer BufferSpec Reclaim ReclaimProofs ReclaimMain Wire PacketBuf Endpoint.
From S2P Require Import OsBuffer OsBufferProofs OsPools OsSocket OsSend OsRecv OsMain.
Open Scope Z_scope.

(** ** The builder *)
Module OsBuilder.
Record t := mk {
  bind_addr : SocketAddr;
  builder_if_index : option Z;
  builder_queue_id : Z;
  builder_affinity : QueueAffinity;
  builder_rx_layout : BufferLayout;
  builder_tx_layout : BufferLayout;
  builder_mtu : Z;
  builder_reuse_port : bool;
  bind_device : option (list Z);
  builder_max_batch : Z;
  builder_rx_max : option Z;
  builder_tx_max : option Z;
}.
Definition new (bind_addr : SocketAddr) : outcome t :=
  rx ← layout_new 2048; tx ← layout_new 2048;
  Ret (mk bind_addr None 0 Any rx tx 1472 false None DEFAULT_MAX_BATCH None None).
Definition if_index (v : Z) (b : t) : t :=
  let '(mk a _ q f rx tx m r d n rm tm) := b in mk a (Some v) q f rx tx m r d n rm tm.
Definition queue_id (v : Z) (b : t) : t :=
  let '(mk a i _ f rx tx m r d n rm tm) := b in mk a i v f rx tx m r d n rm tm.
Definition queue_affinity (v : QueueAffinity) (b : t) : t :=
  let '(mk a i q _ rx tx m r d n rm tm) := b in mk a i q v rx tx m r d n rm tm.
Definition rx_buffer_layout (v : BufferLayout) (b : t) : t :=
  let '(mk a i q f _ tx m r d n rm tm) := b in mk a i q f v tx m r d n rm tm.
Definition tx_buffer_layout (v : BufferLayout) (b : t) : t :=
  let '(mk a i q f rx _ m r d n rm tm) := b in mk a i q f rx v m r d n rm tm.
Definition buffer_layout (v : BufferLayout) (b : t) : t := tx_buffer_layout v (rx_buffer_layout v b).
Definition mtu (v : Z) (b : t) : t :=
  let '(mk a i q f rx tx _ r d n rm tm) := b in mk a i q f rx tx v r d n rm tm.
Definition reuse_port (v : bool) (b : t) : t :=
  let '(mk a i q f rx tx m _ d n rm tm) := b in mk a i q f rx tx m v d n rm tm.
Definition bind_to_device (v : list Z) (b : t) : t :=
  let '(mk a i q f rx tx m r _ n rm tm) := b in mk a i q f rx tx m r (Some v) n rm tm.
Definition max_batch (v : Z) (b : t) : t :=
  let '(mk a i q f rx tx m r d _ rm tm) := b in mk a i q f rx tx m r d v rm tm.
Definition rx_pool_max_buffers (v : Z) (b : t) : t :=
  let '(mk a i q f rx tx m r d n _ tm) := b in mk a i q f rx tx m r d n (Some v) tm.
Definition tx_pool_max_buffers (v : Z) (b : t) : t :=
  let '(mk a i q f rx tx m r d n rm _) := b in mk a i q f rx tx m r d n rm (Some v).
Definition pool_max_buffers (v : Z) (b : t) : t := tx_pool_max_buffers v (rx_pool_max_buffers v b).

(** The configuration [bind] makes, with the interface it found. *)
Definition config (b : t) (if_index : option Z) : OsUdpSocketConfig :=
  mkOsConfig if_index (builder_queue_id b) (builder_affinity b) (builder_rx_layout b) (builder_tx_layout b)
    (builder_mtu b) (builder_max_batch b)
    (default (default_pool_max_buffers (builder_max_batch b)) (builder_rx_max b))
    (default (default_pool_max_buffers (builder_max_batch b)) (builder_tx_max b)).
End OsBuilder.
Abbreviation OsUdpSocketBuilder := OsBuilder.t.

Definition os_config_default : outcome OsUdpSocketConfig :=
  rx ← layout_new 2048; tx ← layout_new 2048;
  Ret (mkOsConfig None 0 Any rx tx 1472 DEFAULT_MAX_BATCH DEFAULT_POOL_MAX_BUFFERS DEFAULT_POOL_MAX_BUFFERS).

(** ** System calls *)
Definition SOCK_DGRAM : Z := 2.
Definition SOCK_CLOEXEC : Z := 524288.
Definition FD_CLOEXEC : Z := 1.
Definition SO_REUSEADDR : Z := 2.
Definition SO_REUSEPORT : Z := 15.
Definition SO_BINDTODEVICE : Z := 25.
Definition SO_INCOMING_CPU : Z := 49.
Definition IPV6_RECVPKTINFO : Z := 49.

(** A NUL inside a device's name, or what [from_std] fails with. *)
Inductive OsOpenError := NulInName | FromStd (e : FromStdError).
Abbreviation OsE := (SysE OsOpenError).

(** A socket with its descriptor and the one its driver waits on. *)
Record OsLive := mkOsLive {
  ol_fd : Z;
  ol_wait_fd : Z;
  ol_socket : OsUdpSocket;
}.

Section Calls.
Context (os : Trace → SysCall → result Z Z).
(** [io::Error::from_raw_os_error]. *)
Context (os_error : Z → OsIoError).

Definition os_err (errno : Z) : OsOpenError := FromStd (FromStdIo (os_error errno)).
Definition os_call (c : SysCall) : OsE Z := λ t,
  let r := os t c in
  Ret (t ++ [(c, r)], match r with Ok v => Ok v | Err errno => Err (os_err errno) end).
Definition os_do (c : SysCall) : OsE unit := sys_bind (os_call c) (λ _, sys_ret tt).
Definition os_lift {A} (r : result A FromStdError) : OsE A :=
  match r with Ok a => sys_ret a | Err e => sys_err (FromStd e) end.
Definition os_close : Z → SysM unit := close_fd os.

(** [CString::new]; the bytes passed end in NUL. *)
Definition c_string (name : list Z) : OsE (list Z) :=
  if bool_decide (0 ∈ name) then sys_err NulInName else sys_ret (name ++ [0]).
(** [if_nametoindex] fails with an index of zero; the answer is then an error. *)
Definition os_if_name_to_index (device : list Z) : OsE Z :=
  do name <- c_string device; os_call (SysIfIndex name).

Definition set_close_on_exec (fd : Z) : OsE unit :=
  do flags <- os_call (SysGetFd fd); os_do (SysSetFd fd (Z.lor flags FD_CLOEXEC)).
Definition set_reuse_addr (fd : Z) : OsE unit := os_do (SysSetsockopt fd SOL_SOCKET SO_REUSEADDR (OptInt 1)).
Definition set_reuse_port (fd : Z) : OsE unit := os_do (SysSetsockopt fd SOL_SOCKET SO_REUSEPORT (OptInt 1)).
Definition set_bind_to_device (fd : Z) (device : list Z) : OsE unit :=
  do name <- c_string device; os_do (SysSetsockopt fd SOL_SOCKET SO_BINDTODEVICE (OptBytes name)).

Definition domain_of (addr : SocketAddr) : Z :=
  match addr with SocketAddrV4 _ _ => AF_INET | SocketAddrV6 _ _ _ _ => AF_INET6 end.
(** [StdUdpSocket::bind] on Linux. *)
Definition std_bind (addr : SocketAddr) : OsE Z :=
  do fd <- os_call (SysUdpSocket (domain_of addr) (Z.lor SOCK_DGRAM SOCK_CLOEXEC));
  owning (os_close fd) (do _ <- os_do (SysBindName fd (sockaddr_from_socketaddr addr)); sys_ret fd).

Definition bind_udp_socket (addr : SocketAddr) (reuse_port : bool) (bind_device : option (list Z)) : OsE Z :=
  if negb reuse_port && negb (is_some bind_device) then std_bind addr
  else
    do fd <- os_call (SysUdpSocket (domain_of addr) SOCK_DGRAM);
    owning (os_close fd) (
    do _ <- set_close_on_exec fd;
    do _ <- (if reuse_port then do _ <- set_reuse_addr fd; set_reuse_port fd else sys_ret tt);
    do _ <- (match bind_device with Some device => set_bind_to_device fd device | None => sys_ret tt end);
    do _ <- os_do (SysBindName fd (sockaddr_from_socketaddr addr));
    sys_ret fd).

Definition set_queue_affinity (fd : Z) (affinity : QueueAffinity) : OsE unit :=
  match affinity with
  | Core.Core cpu =>
      if I32_MAX <? cpu then sys_err (FromStd AffinityDoesNotFit)
      else os_do (SysSetsockopt fd SOL_SOCKET SO_INCOMING_CPU (OptInt cpu))
  | _ => sys_ret tt
  end.
(** Both options are set before either result is looked at; the error number
    is the one the last failing call left. *)
Definition set_pktinfo (fd : Z) : OsE unit := λ t,
  let c4 := SysSetsockopt fd IPPROTO_IP IP_PKTINFO (OptInt 1) in
  let v4 := os t c4 in
  let t := t ++ [(c4, v4)] in
  let c6 := SysSetsockopt fd IPPROTO_IPV6 IPV6_RECVPKTINFO (OptInt 1) in
  let v6 := os t c6 in
  let t := t ++ [(c6, v6)] in
  let errno := match v6, v4 with Err e, _ => Some e | Ok _, Err e => Some e | Ok _, Ok _ => None end in
  Ret (t, match errno with
          | None => Ok tt
          | Some e => if (e =? ENOPROTOOPT) || (e =? EINVAL) then Ok tt else Err (os_err e)
          end).

(** The calls of [from_std], which owns the descriptor it is given. *)
Definition std_setup (fd : Z) (config : OsUdpSocketConfig) : OsE (Z * Z) :=
  do _ <- os_lift (check_config config);
  do _ <- set_queue_affinity fd (oc_queue_affinity config);
  do _ <- set_pktinfo fd;
  do _ <- os_do (SysNonblocking fd);
  do wait_fd <- os_call (SysDupFd fd);
  owning (os_close wait_fd) (
  do local_port <- os_call (SysSockPort fd);
  sys_ret (wait_fd, local_port)).
Definition from_std_calls (fd : Z) (config : OsUdpSocketConfig) : OsE (Z * Z) := owning (os_close fd) (std_setup fd config).

Section Heap.
Context {Q : Type} `{!ArrayQueue Q (list Z)}.
Variable thread : Z.

Definition from_std (h : OsHeap Q) (t : Trace) (fd : Z) (config : OsUdpSocketConfig) :
    outcome (OsHeap Q * Trace * result OsLive OsOpenError) :=
  '(t, r) ← from_std_calls fd config t;
  match r with
  | Err e => Ret (h, t, Err e)
  | Ok (wait_fd, local_port) =>
      '(h, s) ← make_socket thread h config local_port;
      Ret (h, t, Ok (mkOsLive fd wait_fd s))
  end.

(** The interface: the one given, or that of the device. *)
Definition builder_interface (b : OsUdpSocketBuilder) : OsE (option Z) :=
  match OsBuilder.builder_if_index b, OsBuilder.bind_device b with
  | Some if_index, _ => sys_ret (Some if_index)
  | None, Some device => do i <- os_if_name_to_index device; sys_ret (Some i)
  | None, None => sys_ret None
  end.
Definition os_bind (b : OsUdpSocketBuilder) (h : OsHeap Q) (t : Trace) : outcome (OsHeap Q * Trace * result OsLive OsOpenError) :=
  '(t, r) ← (do if_index <- builder_interface b;
             do fd <- bind_udp_socket (OsBuilder.bind_addr b) (OsBuilder.builder_reuse_port b) (OsBuilder.bind_device b);
             sys_ret (if_index, fd)) t;
  match r with
  | Err e => Ret (h, t, Err e)
  | Ok (if_index, fd) => from_std h t fd (OsBuilder.config b if_index)
  end.

(** The drop of the socket: the prepared buffers, then the fields in the
    order of their declaration. *)
Definition os_drop_live (h : OsHeap Q) (t : Trace) (s : OsLive) : outcome (OsHeap Q * Trace) :=
  h ← drop_recv_buffers thread h (so_recv_buffers (ol_socket s));
  '(t, _) ← os_close (ol_fd s) t;
  h ← os_pool_drop h (oc_reclaim (so_rx_pool (ol_socket s)));
  h ← os_pool_drop h (oc_reclaim (so_tx_pool (ol_socket s)));
  '(t, _) ← os_close (ol_wait_fd s) t;
  Ret (h, t).
End Heap.
End Calls.

(** ** The calls of a bind, in order *)
Section Order.
Variable b : OsUdpSocketBuilder.
Abbreviation addr := (OsBuilder.bind_addr b).

Definition interface_calls : list SysCall :=
  match OsBuilder.builder_if_index b, OsBuilder.bind_device b with
  | None, Some device => [SysIfIndex (device ++ [0])]
  | _, _ => []
  end.
Definition reuse_calls (fd : Z) : list SysCall :=
  if OsBuilder.builder_reuse_port b
  then [SysSetsockopt fd SOL_SOCKET SO_REUSEADDR (OptInt 1); SysSetsockopt fd SOL_SOCKET SO_REUSEPORT (OptInt 1)] else [].
Definition device_calls (fd : Z) : list SysCall :=
  match OsBuilder.bind_device b with
  | Some device => [SysSetsockopt fd SOL_SOCKET SO_BINDTODEVICE (OptBytes (device ++ [0]))]
  | None => []
  end.
(** [flags] are the descriptor's flags before. *)
Definition socket_calls (flags fd : Z) : list SysCall :=
  (if negb (OsBuilder.builder_reuse_port b) && negb (is_some (OsBuilder.bind_device b))
   then [SysUdpSocket (domain_of addr) (Z.lor SOCK_DGRAM SOCK_CLOEXEC)]
   else [SysUdpSocket (domain_of addr) SOCK_DGRAM; SysGetFd fd; SysSetFd fd (Z.lor flags FD_CLOEXEC)] ++
        reuse_calls fd ++ device_calls fd) ++
  [SysBindName fd (sockaddr_from_socketaddr addr)].
Definition setup_calls (fd : Z) : list SysCall :=
  (match OsBuilder.builder_affinity b with
   | Core.Core cpu => [SysSetsockopt fd SOL_SOCKET SO_INCOMING_CPU (OptInt cpu)]
   | _ => []
   end) ++
  [SysSetsockopt fd IPPROTO_IP IP_PKTINFO (OptInt 1); SysSetsockopt fd IPPROTO_IPV6 IPV6_RECVPKTINFO (OptInt 1);
   SysNonblocking fd; SysDupFd fd; SysSockPort fd].
Definition bind_calls (flags fd : Z) : list SysCall := interface_calls ++ socket_calls flags fd ++ setup_calls fd.

(** Where the interface of the socket comes from. *)
Definition interface_of (d : Trace) (i : option Z) : Prop :=
  match OsBuilder.builder_if_index b, OsBuilder.bind_device b with
  | Some i0, _ => i = Some i0
  | None, Some device => ∃ x, (SysIfIndex (device ++ [0]), Ok x) ∈ d ∧ i = Some x
  | None, None => i = None
  end.

(** What a bind that made the calls [d] can fail with: a name or a
    configuration it does not accept, or the answer of one of the calls. *)
Definition cause (os_error : Z → OsIoError) (d : Trace) (e : OsOpenError) : Prop :=
  match e with
  | NulInName => ∃ device, OsBuilder.bind_device b = Some device ∧ 0 ∈ device
  | FromStd AffinityDoesNotFit => ∃ cpu, OsBuilder.builder_affinity b = Core.Core cpu ∧ I32_MAX < cpu
  | FromStd (FromStdIo x) => ∃ c errno, (c, Err errno) ∈ d ∧ x = os_error errno
  | FromStd _ => ¬ config_ok (OsBuilder.config b None)
  end.
Lemma cause_app os_error d d' e : cause os_error d e → cause os_error (d ++ d') e.
Proof. destruct e as [|[]]; try done. intros (c & errno & Hin & ->). exists c, errno. split; [set_solver|done]. Qed.
Lemma cause_app_r os_error d d' e : cause os_error d' e → cause os_error (d ++ d') e.
Proof. destruct e as [|[]]; try done. intros (c & errno & Hin & ->). exists c, errno. split; [set_solver|done]. Qed.
End Order.

(** ** Reasoning about the calls *)
Section Logic.
Context (os : Trace → SysCall → result Z Z) (os_error : Z → OsIoError).
Abbreviation os_call := (os_call os os_error).
Abbreviation os_do := (os_do os os_error).

Lemma scoped_os_call c : (∀ r, released_by (c, r) = None) → scoped (os_call c) (λ d v, d = [(c, Ok v)]).
Proof.
  intros Hc t. exists [(c, os t c)]. unfold OsOpen.os_call, released, acquired. cbn. rewrite Hc.
  destruct (os t c) as [v|e]; (eexists; split; [done|]); [done|]. by destruct c.
Qed.
Lemma makes_os_do c : (∀ r, released_by (c, r) = None) → (∀ r, acquired_by (c, r) = None) → makes (os_do c) (λ _, [c]).
Proof.
  intros Hc Ha. apply (scoped_bind _ _ _ _ (scoped_os_call c Hc)). intros d1 v ->.
  assert (acquired [(c, Ok v)] = []) as Hn by (change (match acquired_by (c, Ok v) with Some r => [r] | None => [] end = []); by rewrite Ha). split; [done|]. apply scoped_ret. by rewrite app_nil_r.
Qed.

(** Calls that take nothing, then calls that end with an answer. *)
Definition ends (calls : list SysCall) (res : list Resource) (l : option (SysCall * result Z Z)) (d : Trace) : Prop :=
  d.*1 = calls ∧ acquired d = res ∧ last d = l.
Lemma ends_app d1 d2 calls res l : acquired d1 = [] → ends calls res (Some l) d2 → ends (d1.*1 ++ calls) res (Some l) (d1 ++ d2).
Proof.
  intros Ha (<- & Hr & Hl). split_and!; [by rewrite fmap_app|by rewrite acquired_app, Ha|]. by rewrite last_app, Hl.
Qed.
Lemma makes_then {A B} (m : OsE A) (k : A → OsE B) c calls res (l : B → _) : makes m (λ _, c) →
  (∀ a, scoped (k a) (λ d b, ends (calls b) (res b) (Some (l b)) d)) → scoped (sys_bind m k) (λ d b, ends (c ++ calls b) (res b) (Some (l b)) d).
Proof.
  intros Hm Hk. apply (scoped_bind _ _ _ _ Hm). intros d1 a [<- Ha]. split; [done|].
  intros t. destruct (Hk a t) as (d & r & E & Hr). exists d, r. split; [done|]. destruct r; [|done]. destruct Hr as [Hrel He].
  split; [done|]. by apply ends_app.
Qed.
Lemma makes_ret : makes (sys_ret (E := OsOpenError) tt) (λ _, []).
Proof. by apply scoped_ret. Qed.
Lemma makes_two (m1 m2 : OsE unit) c1 c2 : makes m1 (λ _, c1) → makes m2 (λ _, c2) → makes (sys_bind m1 (λ _, m2)) (λ _, c1 ++ c2).
Proof.
  intros H1 H2. apply (scoped_bind _ _ _ _ H1). intros d1 [] [<- Ha]. split; [done|]. intros t. destruct (H2 t) as (d & r & E & Hr).
  exists d, r. split; [done|]. destruct r; [|done]. destruct Hr as (Hrel & <- & Hd). by rewrite fmap_app, acquired_app, Ha, Hd.
Qed.
Lemma makes_c_string (name : list Z) (k : list Z → OsE unit) c : makes (k (name ++ [0])) (λ _, c) → makes (sys_bind (c_string name) k) (λ _, c).
Proof.
  intros Hk. unfold c_string. case_bool_decide as H0; [|exact Hk]. intros t. exists [], (Err NulInName). by rewrite app_nil_r.
Qed.

Lemma makes_pktinfo fd : makes (set_pktinfo os os_error fd) (λ _,
  [SysSetsockopt fd IPPROTO_IP IP_PKTINFO (OptInt 1); SysSetsockopt fd IPPROTO_IPV6 IPV6_RECVPKTINFO (OptInt 1)]).
Proof.
  intros t. eexists [_; _], _. split; [unfold set_pktinfo; rewrite <- app_assoc; reflexivity|]. cbn [app].
  destruct (match _ with None => _ | Some _ => _ end); done.
Qed.
Lemma makes_affinity fd affinity : makes (set_queue_affinity os os_error fd affinity) (λ _,
  match affinity with Core.Core cpu => [SysSetsockopt fd SOL_SOCKET SO_INCOMING_CPU (OptInt cpu)] | _ => [] end).
Proof.
  destruct affinity as [|cpu|]; try apply makes_ret. cbn. destruct (I32_MAX <? cpu); [|by apply makes_os_do].
  intros t. eexists [], _. by rewrite app_nil_r.
Qed.
Lemma makes_lift (r : result unit FromStdError) : makes (os_lift r) (λ _, []).
Proof. destruct r as [[]|e]; [apply makes_ret|]. intros t. eexists [], _. by rewrite app_nil_r. Qed.

(** *** The socket *)
Lemma scoped_opens {A} domain type (k : Z → OsE A) (P : Trace → A → Prop) :
  (∀ fd, scoped (k fd) (λ d a, P ((SysUdpSocket domain type, Ok fd) :: d) a)) →
  scoped (sys_bind (os_call (SysUdpSocket domain type)) (λ fd, owning (os_close os fd) (k fd))) P.
Proof.
  intros Hk. apply (scoped_owning _ _ _ _ RFd _ (scoped_os_call (SysUdpSocket domain type) (λ _, eq_refl)) (releases_close os)).
  intros d1 fd ->. split; [done|]. apply Hk.
Qed.
Lemma scoped_close_on_exec fd : scoped (set_close_on_exec os os_error fd) (λ d _, ∃ flags,
  d.*1 = [SysGetFd fd; SysSetFd fd (Z.lor flags FD_CLOEXEC)] ∧ acquired d = []).
Proof.
  apply (scoped_bind _ _ _ _ (scoped_os_call (SysGetFd fd) (λ _, eq_refl))). intros d1 flags ->. split; [done|].
  intros t. destruct (makes_os_do (SysSetFd fd (Z.lor flags FD_CLOEXEC)) (λ _, eq_refl) (λ _, eq_refl) t) as (d & r & E & Hr).
  exists d, r. split; [done|]. destruct r; [|done]. destruct Hr as (Hrel & Hd & Ha). split; [done|]. exists flags. cbn. by rewrite Hd.
Qed.
(** The bind of the descriptor [fd], which is returned. *)
Lemma binds_name fd addr : scoped (do _ <- os_do (SysBindName fd (sockaddr_from_socketaddr addr)); sys_ret fd) (λ d x,
  x = fd ∧ d.*1 = [SysBindName fd (sockaddr_from_socketaddr addr)] ∧ acquired d = []).
Proof.
  apply (scoped_bind _ _ _ _ (makes_os_do (SysBindName fd (sockaddr_from_socketaddr addr)) (λ _, eq_refl) (λ _, eq_refl))).
  intros d1 [] [Hc Ha]. split; [done|]. apply scoped_ret. by rewrite app_nil_r.
Qed.
Lemma makes_before {A} (m : OsE unit) (k : OsE A) c P : makes m (λ _, c) →
  scoped k (λ d a, ∀ d1, d1.*1 = c → acquired d1 = [] → P (d1 ++ d) a) → scoped (sys_bind m (λ _, k)) P.
Proof.
  intros Hm Hk. apply (scoped_bind _ _ _ _ Hm). intros d1 [] [Hc Ha]. split; [done|]. intros t. destruct (Hk t) as (d & r & E & Hr).
  exists d, r. split; [done|]. destruct r; [|done]. destruct Hr as [Hrel HP]. split; [done|]. by apply HP.
Qed.

Section Builder.
Variable b : OsUdpSocketBuilder.
Abbreviation addr := (OsBuilder.bind_addr b).
Lemma scoped_bind_socket :
  scoped (bind_udp_socket os os_error addr (OsBuilder.builder_reuse_port b) (OsBuilder.bind_device b))
    (λ d fd, ∃ flags, d.*1 = socket_calls b flags fd ∧ acquired d = [RFd fd]).
Proof.
  unfold bind_udp_socket, socket_calls. destruct (negb _ && _).
  - apply scoped_opens. intros fd t. destruct (binds_name fd addr t) as (d & r & E & Hr). exists d, r. split; [done|].
    destruct r as [x|]; [|done]. destruct Hr as (Hrel & -> & Hd & Ha). split; [done|]. exists 0. rewrite fmap_cons, Hd.
    split; [done|]. change (RFd fd :: acquired d = [RFd fd]). by rewrite Ha.
  - apply scoped_opens. intros fd. apply (scoped_bind _ _ _ _ (scoped_close_on_exec fd)). intros d1 [] (flags & Hd1 & Ha1).
    split; [done|].
    assert (Hr : makes (if OsBuilder.builder_reuse_port b then do _ <- set_reuse_addr os os_error fd; set_reuse_port os os_error fd else sys_ret tt) (λ _, reuse_calls b fd)).
    { unfold reuse_calls. destruct (OsBuilder.builder_reuse_port b); [|apply makes_ret].
      apply (makes_two _ _ [SysSetsockopt fd SOL_SOCKET SO_REUSEADDR (OptInt 1)] [SysSetsockopt fd SOL_SOCKET SO_REUSEPORT (OptInt 1)]); by apply makes_os_do. }
    assert (Hdev : makes (match OsBuilder.bind_device b with Some device => set_bind_to_device os os_error fd device | None => sys_ret tt end) (λ _, device_calls b fd)).
    { unfold device_calls. destruct (OsBuilder.bind_device b); [|apply makes_ret]. apply makes_c_string. by apply makes_os_do. }
    apply (makes_before _ _ _ _ Hr). apply (makes_before _ _ _ _ Hdev). intros t.
    destruct (binds_name fd addr t) as (d & r & E & Hres). exists d, r. split; [done|].
    destruct r as [x|]; [|done]. destruct Hres as (Hrel & -> & Hd & Ha). split; [done|]. intros d3 H3 A3 d2 H2 A2. exists flags.
    cbn [fmap list_fmap]. rewrite !fmap_app, Hd1, H2, H3, Hd. split; [by rewrite <- !app_assoc|].
    change (RFd fd :: acquired (d1 ++ d2 ++ d3 ++ d) = [RFd fd]). by rewrite !acquired_app, Ha1, A2, A3, Ha.
Qed.

(** *** The set-up, and the whole bind *)
Lemma scoped_setup fd i : scoped (std_setup os os_error fd (OsBuilder.config b i)) (λ d r,
  check_config (OsBuilder.config b i) = Ok tt ∧ d.*1 = setup_calls b fd ∧ acquired d = [RFd r.1] ∧ (SysSockPort fd, Ok r.2) ∈ d).
Proof.
  unfold std_setup. destruct (check_config (OsBuilder.config b i)) as [[]|e] eqn:Hc.
  2:{ intros t. eexists [], _. by rewrite app_nil_r. }
  apply (makes_before _ _ _ _ (makes_lift (Ok tt))). apply (makes_before _ _ _ _ (makes_affinity fd (OsBuilder.builder_affinity b))).
  apply (makes_before _ _ _ _ (makes_pktinfo fd)). apply (makes_before _ _ _ _ (makes_os_do (SysNonblocking fd) (λ _, eq_refl) (λ _, eq_refl))).
  apply (scoped_owning _ _ _ _ RFd _ (scoped_os_call (SysDupFd fd) (λ _, eq_refl)) (releases_close os)). intros d1 w ->. split; [done|].
  apply (scoped_bind _ _ _ _ (scoped_os_call (SysSockPort fd) (λ _, eq_refl))). intros d2 port ->. split; [done|]. apply scoped_ret.
  intros d6 H6 A6 d5 H5 A5 d4 H4 A4 d3 H3 A3. split; [done|]. rewrite !fmap_app, H3, H4, H5, H6. split; [done|].
  rewrite !acquired_app, A3, A4, A5, A6. split; [done|]. set_solver.
Qed.
Lemma scoped_interface : scoped (builder_interface os os_error b) (λ d i,
  d.*1 = interface_calls b ∧ acquired d = [] ∧ interface_of b d i).
Proof.
  unfold builder_interface, interface_calls, interface_of. destruct (OsBuilder.builder_if_index b); [by apply scoped_ret|].
  destruct (OsBuilder.bind_device b) as [device|]; [|by apply scoped_ret]. unfold os_if_name_to_index, c_string.
  case_bool_decide; [intros t; eexists [], _; by rewrite app_nil_r|].
  change (scoped (do i <- os_call (SysIfIndex (device ++ [0])); sys_ret (Some i)) (λ d i, d.*1 = [SysIfIndex (device ++ [0])] ∧
    acquired d = [] ∧ ∃ x, (SysIfIndex (device ++ [0]), Ok x) ∈ d ∧ i = Some x)).
  apply (scoped_bind _ _ _ _ (scoped_os_call (SysIfIndex (device ++ [0])) (λ _, eq_refl))). intros d1 x ->. split; [done|].
  apply scoped_ret. split_and!; [done..|]. exists x. split; [set_solver|done].
Qed.

(** All the calls of a bind, in one piece. *)
Definition whole : OsE (option Z * Z * (Z * Z)) :=
  do i <- builder_interface os os_error b;
  do fd <- bind_udp_socket os os_error addr (OsBuilder.builder_reuse_port b) (OsBuilder.bind_device b);
  owning (os_close os fd) (do r <- std_setup os os_error fd (OsBuilder.config b i); sys_ret (i, fd, r)).
Definition bound (d : Trace) (x : option Z * Z * (Z * Z)) : Prop :=
  let '(i, fd, (wait_fd, port)) := x in
  check_config (OsBuilder.config b i) = Ok tt ∧ interface_of b d i ∧ (∃ flags, d.*1 = bind_calls b flags fd) ∧
  acquired d = [RFd fd; RFd wait_fd] ∧ (SysSockPort fd, Ok port) ∈ d.
Lemma scoped_whole : scoped whole bound.
Proof.
  apply (scoped_bind _ _ _ _ scoped_interface). intros d1 i (H1 & A1 & Hi). split; [done|].
  apply (scoped_owning _ _ _ _ RFd _ scoped_bind_socket (releases_close os)). intros d2 fd (flags & H2 & A2). split; [done|].
  intros t. destruct (scoped_setup fd i t) as (d & r & E & Hr). unfold sys_bind at 1. rewrite E. run. exists d.
  destruct r as [[w port]|e]; [|by exists (Err e)]. eexists. split; [reflexivity|]. destruct Hr as (Hrel & Hc & H3 & A3 & Hp). cbn in Hp, A3.
  split; [done|]. split_and!; [done| | | |set_solver].
  - unfold interface_of in *. repeat case_match; try done. destruct Hi as (x & Hx & ->). exists x. split; [set_solver|done].
  - exists flags. by rewrite !fmap_app, H1, H2, H3.
  - by rewrite !acquired_app, A1, A2, A3.
Qed.
End Builder.

(** *** What a failure comes from *)
Section Causes.
Variable b : OsUdpSocketBuilder.
Definition blames {A} (m : OsE A) : Prop := ∀ t t' r, m t = Ret (t', r) → ∃ d, t' = t ++ d ∧ ∀ e, r = Err e → cause b os_error d e.

Lemma blames_ret {A} (a : A) : blames (sys_ret a).
Proof. intros t t' r [= <- <-]. exists []. by rewrite app_nil_r. Qed.
Lemma blames_err {A} e : cause b os_error [] e → blames (sys_err (A := A) e).
Proof. intros He t t' r [= <- <-]. exists []. rewrite app_nil_r. split; [done|]. by intros ? [= <-]. Qed.
Lemma blames_call c : blames (os_call c).
Proof.
  intros t t' r [= <- <-]. eexists. split; [done|]. intros e. destruct (os t c) as [v|errno]; [done|]. intros [= <-].
  exists c, errno. split; [set_solver|done].
Qed.
Lemma blames_bind {A B} (m : OsE A) (k : A → OsE B) : blames m → (∀ a, blames (k a)) → blames (sys_bind m k).
Proof.
  intros Hm Hk t t' r. unfold sys_bind. destruct (m t) as [[t1 r1]| | |] eqn:E1; try done. run.
  destruct (Hm _ _ _ E1) as (d1 & -> & H1). destruct r1 as [a|e1].
  - intros E2. destruct (Hk a _ _ _ E2) as (d2 & -> & H2). exists (d1 ++ d2). split; [by rewrite app_assoc|].
    intros e He. by apply cause_app_r, H2.
  - intros [= <- <-]. exists d1. split; [done|]. intros e [= <-]. by apply H1.
Qed.
Lemma blames_do c : blames (os_do c).
Proof. apply blames_bind; [apply blames_call|]. intros. apply blames_ret. Qed.
Lemma blames_owning {A} fd (m : OsE A) : blames m → blames (owning (os_close os fd) m).
Proof.
  intros Hm t t' r. unfold owning. destruct (m t) as [[t1 r1]| | |] eqn:E1; try done. run.
  destruct (Hm _ _ _ E1) as (d1 & -> & H1). destruct r1 as [a|e1]; [intros [= <- <-]; by exists d1|].
  unfold os_close, close_fd, call_. run. intros [= <- <-]. exists (d1 ++ [(SysClose fd, os (t ++ d1) (SysClose fd))]).
  split; [by rewrite app_assoc|]. intros e [= <-]. by apply cause_app, H1.
Qed.
Lemma blames_c_string device : OsBuilder.bind_device b = Some device → blames (c_string device).
Proof. intros Hd. unfold c_string. case_bool_decide; [|apply blames_ret]. apply blames_err. by exists device. Qed.

Lemma blames_bind_socket : blames (bind_udp_socket os os_error (OsBuilder.bind_addr b) (OsBuilder.builder_reuse_port b) (OsBuilder.bind_device b)).
Proof.
  unfold bind_udp_socket, std_bind. destruct (negb _ && _); (apply blames_bind; [apply blames_call|]; intros fd; apply blames_owning).
  { apply blames_bind; [apply blames_do|]. intros. apply blames_ret. }
  apply blames_bind; [apply blames_bind; [apply blames_call|]; intros; apply blames_do|]. intros _. apply blames_bind.
  { destruct (OsBuilder.builder_reuse_port b); [|apply blames_ret]. apply blames_bind; [apply blames_do|]. intros. apply blames_do. }
  intros _. apply blames_bind.
  { destruct (OsBuilder.bind_device b) eqn:Hd; [|apply blames_ret]. apply blames_bind; [by apply blames_c_string|]. intros. apply blames_do. }
  intros _. apply blames_bind; [apply blames_do|]. intros. apply blames_ret.
Qed.
Lemma blames_setup fd i : 0 ≤ OsBuilder.builder_max_batch b → blames (std_setup os os_error fd (OsBuilder.config b i)).
Proof.
  intros Hb. unfold std_setup. apply blames_bind.
  { pose proof (check_config_ok (OsBuilder.config b i) Hb) as Hc. unfold os_lift. destruct (check_config _) as [u|e]; [apply blames_ret|].
    apply blames_err. destruct Hc as [Hc He]. repeat (apply elem_of_cons in He as [->|He]; [exact Hc|]). by apply not_elem_of_nil in He. }
  intros _. apply blames_bind.
  { unfold set_queue_affinity. cbn [oc_queue_affinity OsBuilder.config]. destruct (OsBuilder.builder_affinity b) as [|cpu|] eqn:Ha; try apply blames_ret.
    destruct (Z.ltb_spec I32_MAX cpu); [|apply blames_do]. apply blames_err. by exists cpu. }
  intros _. apply blames_bind.
  { intros t t' r [= <- <-]. rewrite <- app_assoc. eexists. split; [done|]. intros e He.
    set (c4 := SysSetsockopt fd IPPROTO_IP _ _) in *. set (c6 := SysSetsockopt fd IPPROTO_IPV6 _ _) in *.
    set (v4 := os t c4) in *. set (v6 := os (t ++ [(c4, v4)]) c6) in *.
    assert (∃ x, e = os_err os_error x ∧ (v6 = Err x ∨ v4 = Err x)) as (x & -> & Hx).
    { destruct v6, v4; try done; destruct (_ || _); try done; injection He as <-; eauto. }
    destruct Hx as [Hx|Hx]; [exists c6|exists c4]; exists x; (split; [rewrite Hx; set_solver|done]). }
  intros _. apply blames_bind; [apply blames_do|]. intros _. apply blames_bind; [apply blames_call|]. intros w. apply blames_owning.
  apply blames_bind; [apply blames_call|]. intros. apply blames_ret.
Qed.
Lemma blames_whole : 0 ≤ OsBuilder.builder_max_batch b → blames (whole b).
Proof.
  intros Hb. apply blames_bind.
  { unfold builder_interface. destruct (OsBuilder.builder_if_index b); [apply blames_ret|]. destruct (OsBuilder.bind_device b) as [device|] eqn:Hd; [|apply blames_ret].
    apply blames_bind; [|intros; apply blames_ret]. apply blames_bind; [by apply blames_c_string|]. intros. apply blames_call. }
  intros i. apply blames_bind; [apply blames_bind_socket|]. intros fd. apply blames_owning. apply blames_bind; [by apply blames_setup|].
  intros. apply blames_ret.
Qed.
End Causes.
End Logic.

(** ** The properties *)
(** The widths of the fields, and layouts as the layout builder makes them. *)
Record builder_wf (b : OsUdpSocketBuilder) : Prop := mkBuilderWf {
  bw_batch : 0 ≤ OsBuilder.builder_max_batch b;
  bw_rx_max n : OsBuilder.builder_rx_max b = Some n → 0 ≤ n ≤ 2 ^ 63;
  bw_tx_max n : OsBuilder.builder_tx_max b = Some n → 0 ≤ n ≤ 2 ^ 63;
  bw_rx : layout_ok (OsBuilder.builder_rx_layout b) ∧ chunk_size (OsBuilder.builder_rx_layout b) ≤ USIZE_MAX;
  bw_tx : layout_ok (OsBuilder.builder_tx_layout b) ∧ chunk_size (OsBuilder.builder_tx_layout b) ≤ USIZE_MAX;
}.
Lemma builder_config_wf b i : builder_wf b → config_ok (OsBuilder.config b i) → config_wf (OsBuilder.config b i).
Proof.
  intros [Hb Hr Ht [Hl1 Hc1] [Hl2 Hc2]] (Hbatch & _). cbn in Hbatch. unfold MAX_BATCH_HARD_CAP in Hbatch.
  assert (Hd : 0 ≤ default_pool_max_buffers (OsBuilder.builder_max_batch b) ≤ 2 ^ 63).
  { unfold default_pool_max_buffers, saturating_mul, DEFAULT_POOL_BUFFER_MULTIPLIER. change USIZE_MAX with 18446744073709551615. change (2 ^ 63) with 9223372036854775808. lia. }
  unfold config_wf. cbn. split_and!; try done.
  - destruct (OsBuilder.builder_rx_max b) as [n|]; cbn; [by apply Hr|apply Hd].
  - destruct (OsBuilder.builder_rx_max b) as [n|]; cbn; [by apply Hr|apply Hd].
  - destruct (OsBuilder.builder_tx_max b) as [n|]; cbn; [by apply Ht|apply Hd].
  - destruct (OsBuilder.builder_tx_max b) as [n|]; cbn; [by apply Ht|apply Hd].
Qed.

Section Main.
Context {Q K : Type} `{!ArrayQueue Q (list Z), !ArrayQueueLaws Q (list Z)} `{!OsKernel K, !OsKernelLaws K}.
Context (os : Trace → SysCall → result Z Z) (os_error : Z → OsIoError) (thread : Z).

Lemma os_bind_whole b (h : OsHeap Q) t : os_bind os os_error thread b h t =
  '(t, r) ← whole os os_error b t;
  match r with
  | Err e => Ret (h, t, Err e)
  | Ok (i, fd, (wait_fd, port)) =>
      '(h, s) ← make_socket thread h (OsBuilder.config b i) port; Ret (h, t, Ok (mkOsLive fd wait_fd s))
  end.
Proof.
  unfold os_bind, whole, from_std, from_std_calls, owning, sys_bind, sys_ret.
  destruct (builder_interface os os_error b t) as [[t1 [i|e]]| | |]; try done. run.
  destruct (bind_udp_socket _ _ _ _ _ t1) as [[t2 [fd|e]]| | |]; try done. run.
  destruct (std_setup os os_error fd (OsBuilder.config b i) t2) as [[t3 [[w port]|e]]| | |]; done.
Qed.

Lemma os_drop_live_ok live more w h (k : K) t s :
  recv_inv thread (so_tx_pool s :: so_rx_pool s :: live) more (mkOsWorld h k s) → ol_socket w = s →
  ∃ h' d, os_drop_live os thread h t w = Ret (h', t ++ d) ∧ d.*1 = [SysClose (ol_fd w); SysClose (ol_wait_fd w)] ∧ os_inv (mkO h' live more).
Proof.
  intros Hinv <-. destruct (os_drop_socket_ok thread live more (mkOsWorld h k (ol_socket w)) Hinv) as (h' & E & Hi). unfold os_drop_socket in E. cbn in E.
  unfold os_drop_live, os_close, close_fd, call_. destruct (drop_recv_buffers thread h (so_recv_buffers (ol_socket w))) as [h1| | |]; try done.
  cbn in E. run. destruct (os_pool_drop h1 _) as [h2| | |]; try done. cbn in E. run. rewrite E. run. exists h'. eexists. split; [by rewrite <- app_assoc|]. done.
Qed.

(** The construction of [OsSocket], whose calls are answers given in advance,
    is this one with the answers the calls get. *)
Definition after (t : Trace) (c : SysCall) : Trace := t ++ [(c, os t c)].
Definition answer (t : Trace) (c : SysCall) : result Z OsIoError :=
  match os t c with Ok v => Ok v | Err e => Err (os_error e) end.
Definition unit_answer (t : Trace) (c : SysCall) : result unit OsIoError :=
  match os t c with Ok _ => Ok tt | Err e => Err (os_error e) end.
Definition failed (t : Trace) (c : SysCall) : option Z := match os t c with Ok _ => None | Err e => Some e end.
Definition setup_of (t : Trace) (fd : Z) (affinity : QueueAffinity) : OsSetup :=
  let cpu_call cpu := SysSetsockopt fd SOL_SOCKET SO_INCOMING_CPU (OptInt cpu) in
  let t1 := match affinity with Core.Core cpu => after t (cpu_call cpu) | _ => t end in
  let t2 := after t1 (SysSetsockopt fd IPPROTO_IP IP_PKTINFO (OptInt 1)) in
  let t3 := after t2 (SysSetsockopt fd IPPROTO_IPV6 IPV6_RECVPKTINFO (OptInt 1)) in
  let t4 := after t3 (SysNonblocking fd) in
  let t5 := after t4 (SysDupFd fd) in
  mkOsSetup (λ cpu, unit_answer t (cpu_call cpu)) (failed t1 (SysSetsockopt fd IPPROTO_IP IP_PKTINFO (OptInt 1)))
    (failed t2 (SysSetsockopt fd IPPROTO_IPV6 IPV6_RECVPKTINFO (OptInt 1))) (unit_answer t3 (SysNonblocking fd))
    (unit_answer t4 (SysDupFd fd)) (answer t5 (SysSockPort fd)) os_error.
Definition std_error (e : OsOpenError) : FromStdError := match e with FromStd e => e | NulInName => BadMaxBatch end.
Lemma affinity_abstracts t fd config : ∃ t1 r,
  set_queue_affinity os os_error fd (oc_queue_affinity config) t = Ret (t1, r) ∧
  configure_queue_affinity (setup_of t fd (oc_queue_affinity config)) (oc_queue_affinity config) =
    match r with Ok _ => Ok tt | Err e => Err (std_error e) end ∧
  (r = Ok tt → t1 = match oc_queue_affinity config with Core.Core cpu => after t (SysSetsockopt fd SOL_SOCKET SO_INCOMING_CPU (OptInt cpu)) | _ => t end).
Proof.
  unfold set_queue_affinity, configure_queue_affinity. destruct (oc_queue_affinity config) as [|cpu|]; try (by eexists _, _).
  destruct (I32_MAX <? cpu); [by eexists _, _|].
  cbn [su_incoming_cpu setup_of]. unfold os_do, os_call, sys_bind, after, unit_answer. run. destruct (os t _); by eexists _, _.
Qed.
Lemma setup_abstracts t fd config : check_config config = Ok tt → ∃ t' r,
  std_setup os os_error fd config t = Ret (t', r) ∧
  setup_answer (setup_of t fd (oc_queue_affinity config)) config = match r with Ok (_, port) => Ok port | Err e => Err (std_error e) end.
Proof.
  intros Hc. unfold std_setup, setup_answer. rewrite Hc. destruct (affinity_abstracts t fd config) as (t1 & r & E & -> & Ht1).
  unfold sys_bind, os_lift, sys_ret. run. rewrite E. run. destruct r as [[]|e]; [|by eexists _, _].
  specialize (Ht1 eq_refl). unfold setup_of. rewrite <- Ht1. clear E Ht1. unfold enable_pktinfo, failed, unit_answer, answer.
  cbn [su_pktinfo_v4 su_pktinfo_v6 su_os_error su_set_nonblocking su_try_clone su_local_port].
  unfold set_pktinfo, os_do, os_call, owning, os_close, close_fd, call_, sys_bind, after, sys_ret, io_result. run.
  destruct (os t1 _) as [v4|e4].
  all: destruct (os (t1 ++ _) _) as [v6|e6]; run; try (destruct (_ || _); run; [|by eexists _, _]).
  all: destruct (os _ (SysNonblocking fd)) as [vn|en]; run; [|by eexists _, _].
  all: destruct (os _ (SysDupFd fd)) as [vd|ed]; run; [|by eexists _, _].
  all: destruct (os _ (SysSockPort fd)) as [vp|ep]; by eexists _, _.
Qed.
Lemma from_std_abstracts (h : OsHeap Q) t fd config :
  os_from_std thread (setup_of t fd (oc_queue_affinity config)) h config =
  '(h, _, r) ← from_std os os_error thread h t fd config;
  Ret (h, match r with Ok w => Ok (ol_socket w) | Err e => Err (std_error e) end).
Proof.
  unfold os_from_std, from_std, from_std_calls, owning, os_close, close_fd, call_. destruct (check_config config) as [[]|e] eqn:Hc.
  - destruct (setup_abstracts t fd config Hc) as (t' & r & -> & Hr). unfold setup_answer in Hr. rewrite Hr. run. destruct r as [[w port]|e]; [|done]. run.
    destruct (make_socket thread h config port) as [[h1 s]| | |]; done.
  - unfold std_setup. rewrite Hc. done.
Qed.

End Main.

(** A kernel that accepts everything, and two workers' sockets on one port. *)
Definition toy_os (t : Trace) (c : SysCall) : result Z Z :=
  match c with
  | SysUdpSocket _ _ => Ok 5
  | SysDupFd _ => Ok 6
  | SysSockPort _ => Ok 53
  | SysIfIndex _ => Ok 3
  | SysSetsockopt _ 41 49 _ => Err ENOPROTOOPT
  | _ => Ok 0
  end.
Definition toy_os_error (errno : Z) : OsIoError := mkIoError IoOther "os error".
Definition toy_builder : OsUdpSocketBuilder :=
  OsBuilder.mk (SocketAddrV4 0 53) None 0 (Core.Core 2) tiny_layout tiny_layout 4 true (Some [101; 116; 104; 48]) 2 None (Some 3).
