(* ===== verification/OpenLive.v ===== *)
(** * Opening and dropping live sockets: [LiveXdpState] of [socket.rs]

    The whole opening of one socket over a UMEM of its own and of several
    member sockets over one shared UMEM, with the program handle, the system
    calls, the registration in the XDP program and its roll-back, and the drop
    of a live socket. The memory of the UMEM is left to its allocator. *)
From S2P Require Import Core Buffer Wire Route Program Interface Aggregate Factory.
From S2P Require Import Prelude Bits Umem PacketBuf XdpUdp Ring Reclaim Live RawOpen.
Open Scope Z_scope.

Inductive LiveError :=
  | LiveNuma (k : IoKind)
  | LiveIfIndex
  | LiveProgram (e : ProgramError)
  | LiveOpen (e : OpenError)
  | LiveRaw (e : RawError)
  | LiveDuplicateQueue (queue : Z)
  | LiveFrameCount
  | LiveSlices (e : SliceError)
  | LiveNoMembers
  | LivePin (e : IoError).

(** The contents of the four mappings of a socket. *)
Record RingMaps := mkRingMaps {
  mp_fill : RingMem Z;
  mp_comp : RingMem Z;
  mp_rx : RingMem XdpDesc;
  mp_tx : RingMem XdpDesc;
}.

(** [OpenedLiveXdp]. *)
Record Opened (Q : Type) := mkOpened {
  op_config : XdpConfig;
  op_sock : XdpSocket Q;
  op_raw : RawSocket;
  op_program : XdpProgramHandle;
  op_bound_port : option Z;
  op_numa_node : Z;
}.
Arguments mkOpened {Q} _ _ _ _ _ _.
Arguments op_config {Q} _.
Arguments op_sock {Q} _.
Arguments op_raw {Q} _.
Arguments op_program {Q} _.
Arguments op_bound_port {Q} _.
Arguments op_numa_node {Q} _.

(** [u32::next_power_of_two]: without a representable result it panics with
    overflow checks and is zero without. *)
Definition next_power_of_two_u32 (checks : bool) (x : Z) : outcome Z :=
  let p := if x <=? 1 then 1 else 2 ^ Z.log2_up x in
  if p <? 2 ^ 32 then Ret p else if checks then Panic else Ret 0.

Section Open.
Context {E : Type} `{Aya E} {Q : Type} `{ArrayQueue Q Z}.
Variables (fs : Sysfs) (loaded : result E string) (hash : Z).
Variables (os : Trace → SysCall → result Z Z) (offsets_of : Trace → Z → xdp_mmap_offsets).
Variables (sys : Sys) (umem_addr : Z) (maps : Z → RingMaps) (checks : bool).
Implicit Types (g : Registry E) (c : XdpIpPacketSocketConfig).

(** Code over the program registry and the system calls. *)
Definition LM (A : Type) : Type := Registry E → Trace → outcome (Registry E * Trace * result A LiveError).
Definition lm_ret {A} (a : A) : LM A := λ g t, Ret (g, t, Ok a).
Definition lm_err {A} (e : LiveError) : LM A := λ g t, Ret (g, t, Err e).
Definition lm_bind {A B} (m : LM A) (k : A → LM B) : LM B := λ g t,
  '(g, t, r) ← m g t;
  match r with
  | Ok a => k a g t
  | Err e => Ret (g, t, Err e)
  end.
(** Code that cannot fail, with its effect. *)
Definition lm_step (f : Registry E → Trace → outcome (Registry E * Trace)) : LM unit := λ g t,
  '(g, t) ← f g t; Ret (g, t, Ok tt).
(** An owned value in scope, dropped when the code below it fails. *)
Definition lm_owning {A} (release : Registry E → Trace → outcome (Registry E * Trace)) (m : LM A) : LM A := λ g t,
  '(g, t, r) ← m g t;
  match r with
  | Ok a => Ret (g, t, Ok a)
  | Err e => '(g, t) ← release g t; Ret (g, t, Err e)
  end.
Definition lm_result {A X} (f : X → LiveError) (r : result A X) : LM A :=
  match r with Ok a => lm_ret a | Err e => lm_err (f e) end.
Definition lm_out {A} (m : outcome A) : LM A := λ g t, a ← m; Ret (g, t, Ok a).
Definition lm_sys {A} (m : SysM A) : LM A := λ g t,
  '(t, r) ← m t;
  Ret (g, t, match r with Ok a => Ok a | Err e => Err (LiveRaw e) end).
Definition lm_program {A} (h : XdpProgramHandle) (m : PM (XdpProgram E) A) : LM A := λ g t,
  '(g, r) ← on_program m g h;
  Ret (g, t, match r with Ok a => Ok a | Err e => Err (LiveProgram e) end).
Notation "'let!' x := m 'in' k" := (lm_bind m (λ x, k)) (at level 10, x pattern, m at level 200, k at level 200).

Definition drop_program (h : XdpProgramHandle) g (t : Trace) : outcome (Registry E * Trace) := Ret (handle_drop g h, t).
Definition drop_socket (s : RawSocket) g (t : Trace) : outcome (Registry E * Trace) :=
  '(t, _) ← drop_raw os s t; Ret (g, t).
Fixpoint drop_sockets (raws : list RawSocket) g (t : Trace) : outcome (Registry E * Trace) :=
  match raws with
  | [] => Ret (g, t)
  | s :: raws => '(g, t) ← drop_socket s g t; drop_sockets raws g t
  end.

(** The program: the attached one, cloned, or the default one, loaded. *)
Definition open_program c : LM XdpProgramHandle := λ g t,
  match ic_attached_program c with
  | Some program =>
      if negb (ph_if_index program =? ic_ifindex c) then Ret (g, t, Err LiveIfIndex)
      else let '(g, program) := handle_clone g program in Ret (g, t, Ok program)
  | None =>
      let '(g, r) := load_with_config g (ic_ifindex c) (ic_attach_mode c) BoundPorts loaded hash in
      Ret (g, t, match r with Ok program => Ok program | Err e => Err (LiveProgram e) end)
  end.

(** [register_socket] then, if asked for, [bind_port], which rolls the
    registration back. *)
Definition register_and_bind (queue fd : Z) (port : option Z) : PM (XdpProgram E) unit := λ p,
  let '(p, r) := register_socket queue fd p in
  match r with
  | Err e => (p, Err e)
  | Ok _ =>
      match port with
      | None => (p, Ok tt)
      | Some port =>
          let '(p, r) := bind_port port p in
          match r with
          | Ok _ => (p, Ok tt)
          | Err e => let '(p, _) := unregister_socket queue p in (p, Err e)
          end
      end
  end.

(** [LiveXdpState::open]. *)
Definition open c : LM (Opened Q) :=
  let rx_layout := qb_rx (ic_buffers c) in
  let tx_layout := qb_tx (ic_buffers c) in
  let! numa_node := lm_result LiveNuma (resolve_umem_numa_node fs c) in
  let! program := open_program c in
  lm_owning (drop_program program) (
  let! frame_size := lm_result LiveOpen (umem_frame_size rx_layout tx_layout) in
  let frame_count := ic_frame_count c in
  if (frame_count <? 2) || negb (is_power_of_two frame_count) then lm_err (LiveOpen (BadFrameCount frame_count))
  else
    let rx_frames := frame_count / 2 in
    let! umem := lm_result (λ e, LiveOpen (OpenUmem e))
                   (umem_new_on_numa_node sys frame_size frame_count (ic_huge_page_size c) numa_node) in
    let pre_fill := frame_offset umem <$> seqZ 0 rx_frames in
    if U32_MAX <? l2_headroom rx_layout then lm_err (LiveOpen HeadroomTooLarge)
    else
      let mp := maps (ic_queue_id c) in
      let! raw := lm_sys (new_with_umem_headroom os offsets_of (ic_ifindex c) (ic_queue_id c) umem_addr umem (ic_rings c)
                            (ic_mode c) (l2_headroom rx_layout) pre_fill (mp_fill mp) (mp_comp mp) (mp_rx mp) (mp_tx mp)) in
      lm_owning (drop_socket raw) (
      let! _ := lm_program program (register_and_bind (ic_queue_id c) (rs_fd raw) (ic_bind_udp_port c)) in
      let tx_frames := frame_offset umem <$> seqZ rx_frames (frame_count - rx_frames) in
      let '(threshold, interval) := tx_drain_hysteresis (sz_completion (ic_rings c)) frame_count in
      lm_ret (mkOpened
        (mkConfig (ic_ifindex c) (ic_queue_id c) (ic_mtu c) (ic_rings c)
           (mkBufCtx rx_layout (UmemCtx RxPool (um_frame_size umem))) (mkBufCtx tx_layout (UmemCtx TxPool (um_frame_size umem)))
           (LocalSplit (frame_offset umem rx_frames)) threshold interval)
        (mkSocket (rs_rings raw) umem (with_remote_capacity [] rx_frames None)
           (with_remote_capacity tx_frames (len tx_frames) None) 0 0 false stats_default)
        raw program (ic_bind_udp_port c) numa_node))).

(** ** Members over one UMEM *)
Fixpoint first_duplicate (seen queues : list Z) : option Z :=
  match queues with
  | [] => None
  | q :: queues => if bool_decide (q ∈ seen) then Some q else first_duplicate (seen ++ [q]) queues
  end.

(** The frames of member [index]: the first [per_rx] are received into. *)
Definition member_rx_frames (umem : Umem) (per_member index : Z) : list Z :=
  frame_offset umem <$> seqZ (index * per_member) (per_member / 2).
Definition member_tx_frames (umem : Umem) (per_member index : Z) : list Z :=
  frame_offset umem <$> seqZ (index * per_member + per_member / 2) (per_member - per_member / 2).

(** The members after the first; those already open are dropped on failure. *)
Fixpoint open_members c (umem : Umem) (owner_fd index : Z) (queues : list Z) (raws : list RawSocket) : LM (list RawSocket) :=
  match queues with
  | [] => lm_ret raws
  | queue :: queues =>
      let mp := maps queue in
      let! raw := lm_owning (drop_sockets raws)
                    (lm_sys (new_shared_umem os offsets_of (ic_ifindex c) queue owner_fd (ic_rings c) (ic_mode c)
                               (member_rx_frames umem (ic_frame_count c) index)
                               (mp_fill mp) (mp_comp mp) (mp_rx mp) (mp_tx mp))) in
      open_members c umem owner_fd (index + 1) queues (raws ++ [raw])
  end.

Fixpoint unregister_all (queues : list Z) (p : XdpProgram E) : XdpProgram E :=
  match queues with
  | [] => p
  | q :: queues => unregister_all queues (unregister_socket q p).1
  end.
Fixpoint register_members (members : list (RawSocket * Z)) (registered : list Z) : PM (XdpProgram E) (list Z) := λ p,
  match members with
  | [] => (p, Ok registered)
  | (raw, queue) :: members =>
      let '(p, r) := register_socket queue (rs_fd raw) p in
      match r with
      | Err e => (unregister_all registered p, Err e)
      | Ok _ => register_members members (registered ++ [queue]) p
      end
  end.
Definition register_all (members : list (RawSocket * Z)) (port : option Z) : PM (XdpProgram E) unit := λ p,
  let '(p, r) := register_members members [] p in
  match r with
  | Err e => (p, Err e)
  | Ok registered =>
      match port with
      | None => (p, Ok tt)
      | Some port =>
          let '(p, r) := bind_port port p in
          match r with
          | Ok _ => (p, Ok tt)
          | Err e => (unregister_all registered p, Err e)
          end
      end
  end.

(** The live state of each member, with its clone of the handle. *)
Fixpoint member_states c (umem : Umem) (completion : CompletionReclaim) (total threshold interval numa_node : Z)
    (program : XdpProgramHandle) (index : Z) (raws : list RawSocket) g : Registry E * list (Opened Q) :=
  match raws with
  | [] => (g, [])
  | raw :: raws =>
      let rx_layout := qb_rx (ic_buffers c) in
      let tx_layout := qb_tx (ic_buffers c) in
      let tx_frames := member_tx_frames umem (ic_frame_count c) index in
      let '(g, h) := handle_clone g program in
      let member := mkOpened
        (mkConfig (ic_ifindex c) (rs_queue_id raw) (ic_mtu c) (ic_rings c)
           (mkBufCtx rx_layout (UmemCtx RxPool (um_frame_size umem))) (mkBufCtx tx_layout (UmemCtx TxPool (um_frame_size umem)))
           completion threshold interval)
        (mkSocket (rs_rings raw) umem (with_remote_capacity [] (ic_frame_count c / 2) (Some total))
           (with_remote_capacity tx_frames (len tx_frames) (Some total)) 0 0 false stats_default)
        raw h (if index =? 0 then ic_bind_udp_port c else None) numa_node in
      let '(g, members) := member_states c umem completion total threshold interval numa_node program (index + 1) raws g in
      (g, member :: members)
  end.

Definition open_shared_members c (queues : list Z) : LM (list (Opened Q)) :=
  match queues with
  | [] => λ _ _, Panic
  | queue0 :: rest =>
  if first_duplicate [] queues is Some q then lm_err (LiveDuplicateQueue q)
  else
    let rx_layout := qb_rx (ic_buffers c) in
    let! numa_node := lm_result LiveNuma (resolve_umem_numa_node fs c) in
    let! program := open_program c in
    lm_owning (drop_program program) (
    let! frame_size := lm_result LiveOpen (umem_frame_size rx_layout (qb_tx (ic_buffers c))) in
    let per_member := ic_frame_count c in
    if (per_member <? 2) || negb (is_power_of_two per_member) then lm_err (LiveOpen (BadFrameCount per_member))
    else
      let total_frames := per_member * len queues in
      if negb (fitsb 32 total_frames) then lm_err LiveFrameCount
      else
        let! umem_frames := (λ g t, n ← next_power_of_two_u32 checks total_frames; Ret (g, t, Ok n)) in
        let per_rx := per_member / 2 in
        if U32_MAX <? l2_headroom rx_layout then lm_err (LiveOpen HeadroomTooLarge)
        else
          let! umem := lm_result (λ e, LiveOpen (OpenUmem e))
                         (umem_new_on_numa_node sys frame_size umem_frames (ic_huge_page_size c) numa_node) in
          let mp := maps queue0 in
          let! raw0 := lm_sys (new_with_umem_headroom os offsets_of (ic_ifindex c) queue0 umem_addr umem (ic_rings c) (ic_mode c)
                                 (l2_headroom rx_layout) (member_rx_frames umem per_member 0)
                                 (mp_fill mp) (mp_comp mp) (mp_rx mp) (mp_tx mp)) in
          let! raws := open_members c umem (rs_fd raw0) 1 rest [raw0] in
          lm_owning (drop_sockets raws) (
          let! _ := lm_program program (register_all (zip raws queues) (ic_bind_udp_port c)) in
          let '(threshold, interval) := tx_drain_hysteresis (sz_completion (ic_rings c)) per_member in
          let! completion := lm_result LiveSlices (shared_member_slices frame_size per_member per_rx total_frames) in
          λ g t,
            let '(g, members) :=
              member_states c umem completion total_frames threshold interval numa_node program 0 raws g in
            Ret (handle_drop g program, t, Ok members)))
  end.

(** ** Dropping a live socket

    [LiveXdpState::drop], which only reports failures, then its fields. *)
Definition live_drop (o : Opened Q) g (t : Trace) : outcome (Registry E * Trace) :=
  g ← (match op_bound_port o with
       | Some port => '(g, _) ← on_program (unbind_port port) g (op_program o); Ret g
       | None => Ret g
       end);
  '(g, _) ← on_program (unregister_socket (rs_queue_id (op_raw o))) g (op_program o);
  drop_socket (op_raw o) (handle_drop g (op_program o)) t.
(** A vector of them, in order. *)
Fixpoint drop_members (ms : list (Opened Q)) g (t : Trace) : outcome (Registry E * Trace) :=
  match ms with
  | [] => Ret (g, t)
  | o :: ms => '(g, t) ← live_drop o g t; drop_members ms g t
  end.
End Open.
