(* ===== verification/OpenLiveProofs.v ===== *)
(** * Proofs about opening live sockets

    A small logic for code that owns descriptors, mappings and program handles:
    what it gives back when it fails, and what its result keeps. *)
From S2P Require Import Core Buffer Wire WireProofs Route Program ProgramProofs Interface Aggregate Factory FactoryProofs.
From S2P Require Import Prelude Bits Umem PacketBuf XdpUdp Ring RingProofs Reclaim ReclaimProofs.
From S2P Require Import Live LiveRing LiveProofs LiveSteps RawOpen RawOpenMain OpenLive.
Open Scope Z_scope.

(** The map with the members' queues. *)
Definition xsk_add (m : gmap Z Z) (members : list (RawSocket * Z)) : gmap Z Z :=
  foldl (λ m '(raw, q), <[q := rs_fd raw]> m) m members.
Definition xsk_del (m : gmap Z Z) (queues : list Z) : gmap Z Z := foldl (λ m q, delete q m) m queues.

Lemma xsk_add_app m l l' : xsk_add m (l ++ l') = xsk_add (xsk_add m l) l'.
Proof. apply foldl_app. Qed.
Lemma xsk_del_app m l l' : xsk_del m (l ++ l') = xsk_del (xsk_del m l) l'.
Proof. apply foldl_app. Qed.
Lemma xsk_add_other members : ∀ m q, q ∉ members.*2 → xsk_add m members !! q = m !! q.
Proof.
  induction members as [|[raw q'] members IH]; intros m q Hq; [done|]. cbn in Hq. rewrite not_elem_of_cons in Hq. destruct Hq as [Hne Hq].
  change (xsk_add (<[q' := rs_fd raw]> m) members !! q = m !! q). rewrite IH by done. by rewrite lookup_insert_ne.
Qed.
Lemma xsk_del_lookup queues : ∀ m q, xsk_del m queues !! q = if bool_decide (q ∈ queues) then None else m !! q.
Proof.
  induction queues as [|q' queues IH]; intros m q; [done|]. change (xsk_del m (q' :: queues)) with (xsk_del (delete q' m) queues). rewrite IH.
  destruct (decide (q = q')) as [->|Hne].
  - rewrite lookup_delete_eq, (bool_decide_true (q' ∈ q' :: queues)) by left. by case_bool_decide.
  - rewrite lookup_delete_ne by done. do 2 case_bool_decide; try done; set_solver.
Qed.
(** Taking back the queues just added. *)
Lemma xsk_del_add m members : (∀ q, q ∈ members.*2 → m !! q = None) → xsk_del (xsk_add m members) members.*2 = m.
Proof.
  intros Hm. apply map_eq. intros q. rewrite xsk_del_lookup. case_bool_decide as Hq; [by rewrite Hm|]. by rewrite xsk_add_other.
Qed.

(** ** Registration *)
Section Register.
Context {E : Type} `{Aya E}.
Implicit Types p : XdpProgram E.

Lemma register_socket_index q fd p : pg_if_index (register_socket q fd p).1 = pg_if_index p.
Proof. unfold register_socket. repeat (apply pm_bind_index; intros; [apply on_ebpf_index|]). done. Qed.
Lemma unregister_socket_index q p : pg_if_index (unregister_socket q p).1 = pg_if_index p.
Proof.
  unfold unregister_socket. change (pg_if_index p) with (pg_if_index (with_queues p (pg_registered_queues p ∖ {[q]}))).
  apply pm_bind_index; intros; apply on_ebpf_index.
Qed.

Lemma unbind_port_index port p : pg_if_index (unbind_port port p).1 = pg_if_index p.
Proof.
  unfold unbind_port. destruct (bool_decide _); [done|]. destruct (negb _); [done|]. destruct (pg_bound_ports p !! port) as [n|]; [|done].
  destruct (1 <? n); [done|]. apply pm_bind_index; [intros; apply on_ebpf_index|]. intros _ p1. apply pm_bind_index; [done|].
  intros _ p2. unfold set_bound_port_count. destruct (negb _); [done|]. apply on_ebpf_index.
Qed.
Lemma register_and_bind_index queue fd port p : pg_if_index (register_and_bind queue fd port p).1 = pg_if_index p.
Proof.
  unfold register_and_bind. pose proof (register_socket_index queue fd p) as H1. destruct (register_socket queue fd p) as [p1 [[]|e]]; [|done].
  destruct port as [port|]; [|done]. pose proof (bind_port_index port p1) as H2. destruct (bind_port port p1) as [p2 [[]|e]]; cbn [fst] in *; [congruence|].
  pose proof (unregister_socket_index queue p2) as H3. destruct (unregister_socket queue p2). cbn [fst] in *. congruence.
Qed.
Lemma unregister_all_index queues : ∀ p, pg_if_index (unregister_all queues p) = pg_if_index p.
Proof. induction queues as [|q queues IH]; intros p; cbn [unregister_all]; [done|]. by rewrite IH, unregister_socket_index. Qed.
Lemma register_members_index members : ∀ registered p, pg_if_index (register_members members registered p).1 = pg_if_index p.
Proof.
  induction members as [|[raw queue] members IH]; intros registered p; cbn [register_members]; [done|].
  pose proof (register_socket_index queue (rs_fd raw) p) as H1. destruct (register_socket _ _ p) as [p1 [[]|e]]; cbn [fst] in *.
  - by rewrite IH.
  - by rewrite unregister_all_index.
Qed.
Lemma register_all_index members port p : pg_if_index (register_all members port p).1 = pg_if_index p.
Proof.
  unfold register_all. pose proof (register_members_index members [] p) as H1. destruct (register_members members [] p) as [p1 [regd|e]]; [|done].
  destruct port as [port|]; [|done]. pose proof (bind_port_index port p1) as H2. destruct (bind_port port p1) as [p2 [[]|e]]; cbn [fst] in *; [congruence|].
  rewrite unregister_all_index. congruence.
Qed.

(** ** The XSKMAP *)
Context `{!AyaLaws E}.
(** Deleting an entry only fails when there is none. *)
Context (Hdelete : ∀ (e : E) q e' x, bpf_map_delete e q = (e', Err x) → x = ENOENT).

Definition xsk_is p (m : gmap Z Z) : Prop := aya_xskmap (pg_ebpf p) = Some (Ok m).

Lemma validate_xskmap_is (e : E) m : aya_xskmap e = Some (Ok m) → validate_xskmap e = (e, Ok tt).
Proof. unfold validate_xskmap. by intros ->. Qed.

Lemma register_xsk q fd p m : xsk_is p m →
  match register_socket q fd p with (p', Ok _) => xsk_is p' (<[q := fd]> m) | (p', Err _) => xsk_is p' m end.
Proof.
  intros Hx. unfold register_socket, pm_bind, on_ebpf. rewrite (validate_xskmap_is _ _ Hx). cbn [pg_ebpf with_ebpf].
  destruct (aya_xskmap_set (pg_ebpf p) q fd) as [e [[]|x]] eqn:Hs; cbn [map_err].
  - exact (xskmap_set_ok _ _ _ _ _ Hs Hx).
  - unfold xsk_is. cbn. by rewrite (xskmap_set_err _ _ _ _ _ Hs).
Qed.

Lemma unregister_xsk q p m : xsk_is p m → xsk_is (unregister_socket q p).1 (delete q m).
Proof.
  intros Hx. unfold unregister_socket, pm_bind, on_ebpf. cbn [pg_ebpf with_queues with_ebpf]. rewrite (validate_xskmap_is _ _ Hx). cbn [pg_ebpf with_ebpf with_queues].
  unfold bpf_map_delete_elem. destruct (bpf_map_delete (pg_ebpf p) q) as [e [[]|x]] eqn:Hd.
  - exact (delete_ok _ _ _ _ Hd Hx).
  - pose proof (Hdelete _ _ _ _ Hd) as ->. change (ENOENT =? ENOENT) with true. unfold xsk_is. cbn.
    rewrite (delete_err _ _ _ _ Hd), delete_id; [exact Hx|]. exact (delete_missing _ _ _ _ Hd Hx).
Qed.

(** Code on the other maps. *)
Definition keeps_xsk {A} (f : PM (XdpProgram E) A) : Prop := ∀ p m, xsk_is p m → xsk_is (f p).1 m.
Lemma keeps_bind {A B} (f : PM (XdpProgram E) A) (k : A → PM (XdpProgram E) B) : keeps_xsk f → (∀ a, keeps_xsk (k a)) → keeps_xsk (pm_bind f k).
Proof. intros Hf Hk p m Hx. unfold pm_bind. specialize (Hf p m Hx). destruct (f p) as [p1 [a|e]]; [by apply Hk|done]. Qed.
Lemma keeps_array {A} name w (k : list Z → PM E A) : (∀ l e, aya_xskmap (k l e).1 = aya_xskmap e) → keeps_xsk (on_ebpf (pm_bind (open_array name w) k)).
Proof.
  intros Hk p m Hx. unfold on_ebpf, pm_bind, open_array. destruct (aya_array (pg_ebpf p) name w) as [[l|]|]; cbn [map_err]; try done.
  pose proof (Hk l (pg_ebpf p)) as He. destruct (k l (pg_ebpf p)) as [e r]. unfold xsk_is. cbn in *. by rewrite He.
Qed.
Lemma array_set_keeps name w i v (e : E) : aya_xskmap (array_set name w i v e).1 = aya_xskmap e.
Proof. unfold array_set. pose proof (array_set_xskmap e name w i v) as Hx. destruct (aya_array_set e name w i v). exact Hx. Qed.

Lemma count_keeps_xsk k : keeps_xsk (set_bound_port_count k).
Proof.
  intros p m Hx. unfold set_bound_port_count. destruct (negb _); [done|]. revert p m Hx. apply keeps_array. intros. apply array_set_keeps.
Qed.
Lemma bind_keeps_xsk port : keeps_xsk (bind_port port).
Proof.
  intros p m Hx. unfold bind_port. destruct (bool_decide _); [done|]. destruct (negb _); [done|]. cbv zeta. generalize (default 0 (pg_bound_ports p !! port)).
  intros rc. revert p m Hx. apply keeps_bind; [|by intros _ p m].
  destruct (rc =? 0); [|by intros p m]. apply keeps_bind; [apply keeps_array; intros; apply array_set_keeps|]. intros _ p m Hx.
  pose proof (count_keeps_xsk (u32 (ports_len p) + 1) p m Hx) as Hc. destruct (set_bound_port_count _ p) as [p1 [[]|error]]; [done|]. cbn [fst] in Hc.
  unfold pm_bind, on_ebpf, open_array. cbn. destruct (aya_array (pg_ebpf p1) "BOUND_PORTS" 1) as [[l|]|]; try done.
  cbn. pose proof (array_set_keeps "BOUND_PORTS" 1 port 0 (pg_ebpf p1)) as He.
  destruct (array_set "BOUND_PORTS" 1 port 0 (pg_ebpf p1)) as [e [[]|]]; unfold xsk_is; cbn in *; by rewrite He.
Qed.

Lemma unbind_keeps_xsk port : keeps_xsk (unbind_port port).
Proof.
  intros p m Hx. unfold unbind_port. destruct (bool_decide _); [done|]. destruct (negb _); [done|].
  destruct (pg_bound_ports p !! port) as [n|]; [|done]. destruct (1 <? n); [done|]. revert p m Hx.
  apply keeps_bind; [apply keeps_array; intros; apply array_set_keeps|]. intros _. apply keeps_bind; [by intros p m|]. intros _ p m Hx.
  by apply count_keeps_xsk.
Qed.

Lemma unregister_all_xsk queues : ∀ p m, xsk_is p m → xsk_is (unregister_all queues p) (xsk_del m queues).
Proof. induction queues as [|q queues IH]; intros p m Hx; [done|]. by apply IH, unregister_xsk. Qed.

Lemma register_members_xsk members : ∀ p m0 before, xsk_is p (xsk_add m0 before) → (∀ q, q ∈ (before ++ members).*2 → m0 !! q = None) →
  match register_members members before.*2 p with
  | (p', Ok registered) => registered = (before ++ members).*2 ∧ xsk_is p' (xsk_add m0 (before ++ members))
  | (p', Err _) => xsk_is p' m0
  end.
Proof.
  induction members as [|[raw q] members IH]; intros p m0 before Hx Hd; cbn [register_members]; [by rewrite app_nil_r|].
  pose proof (register_xsk q (rs_fd raw) p _ Hx) as Hr. destruct (register_socket q (rs_fd raw) p) as [p1 [[]|e]].
  - specialize (IH p1 m0 (before ++ [(raw, q)])). rewrite xsk_add_app, <- app_assoc in IH.
    change (before.*2 ++ [q]) with (before.*2 ++ [(raw, q)].*2). rewrite <- fmap_app. by apply IH.
  - apply (unregister_all_xsk before.*2) in Hr. rewrite xsk_del_add in Hr; [done|]. intros q' Hq'. apply Hd. rewrite fmap_app. set_solver.
Qed.

(** All the queues and the port, or nothing. *)
Lemma register_all_xsk members port p m : xsk_is p m → (∀ q, q ∈ members.*2 → m !! q = None) →
  match register_all members port p with
  | (p', Ok _) => xsk_is p' (xsk_add m members)
  | (p', Err _) => xsk_is p' m
  end.
Proof.
  intros Hx Hd. unfold register_all. pose proof (register_members_xsk members p m [] Hx Hd) as Hr. cbn [fmap list_fmap app] in Hr.
  destruct (register_members members [] p) as [p1 [regd|e]]; [|done]. destruct Hr as [-> Hr]. destruct port as [port|]; [|done].
  pose proof (bind_keeps_xsk port p1 _ Hr) as Hb. destruct (bind_port port p1) as [p2 [[]|e]]; cbn [fst] in Hb; [done|].
  apply (unregister_all_xsk members.*2) in Hb. by rewrite xsk_del_add in Hb.
Qed.
End Register.

(** ** Scoped code

    The registry is seen through the handles alive and, when the socket is
    opened on an attached program, through that program's XSKMAP, for as long
    as the program is loaded. *)
Section Scoped.
Context {E : Type} `{Aya E, !AyaLaws E} (attached : option XdpProgramHandle).
Implicit Types (g : Registry E) (rs : list Resource) (hs : list XdpProgramHandle).

Definition View : Type := list XdpProgramHandle * gmap Z Z.
Definition view (v : View) g : Prop :=
  registry_ok g v.1 ∧
  ∀ h n p, attached = Some h → rg_heap g !! ph_program h = Some (n, p) → xsk_is p v.2.

Lemma view_equiv hs hs' x g : hs ≡ₚ hs' → view (hs, x) g → view (hs', x) g.
Proof. intros Hp [Hok Hx]. split; [|exact Hx]. by eapply registry_perm. Qed.

(** A clone of a handle, and the drop of one. *)
Lemma view_clone hs x g h : view (hs, x) g → h ∈ hs → view (h :: hs, x) (handle_clone g h).1.
Proof.
  intros [Hok Hx] Hin. destruct (ro_handles _ _ Hok h Hin) as (n & p & Hid & Hp). split.
  - replace h with (mkHandle (ph_if_index h) (ph_program h)) at 2 by (by destruct h). by apply (arc_clone_ok g hs (ph_program h) n p).
  - intros h0 n0 p0 Ha. cbn [handle_clone fst]. unfold arc_clone. rewrite Hid. cbn [rg_heap].
    destruct (decide (ph_program h = ph_program h0)) as [Eq|].
    + rewrite Eq, lookup_insert_eq. intros [= _ <-]. rewrite Eq in Hid. eauto.
    + rewrite lookup_insert_ne by done. eauto.
Qed.

(** Dropping handles changes no program that stays. *)
Lemma arc_drop_heap g id id0 n p : rg_heap (arc_drop g id) !! id0 = Some (n, p) → ∃ n', rg_heap g !! id0 = Some (n', p).
Proof.
  unfold arc_drop. destruct (rg_heap g !! id) as [[n1 p1]|] eqn:Hid; [|eauto].
  destruct (decide (id = id0)) as [<-|Hne]; destruct (n1 =? 1); cbn [rg_heap];
    rewrite ?lookup_delete_eq, ?lookup_insert_eq, ?lookup_delete_ne, ?lookup_insert_ne by done; eauto; [done|].
  intros [= _ <-]. eauto.
Qed.
Lemma drop_heap g h id n p : rg_heap (handle_drop g h) !! id = Some (n, p) → ∃ n', rg_heap g !! id = Some (n', p).
Proof.
  unfold handle_drop, Program.release. intros Hg. apply arc_drop_heap in Hg as [n1 Hg]. revert Hg.
  repeat case_match; try (intros Hg; eauto; fail); intros Hg; by apply arc_drop_heap in Hg.
Qed.
Lemma view_drop hs x g h : view (h :: hs, x) g → view (hs, x) (handle_drop g h).
Proof.
  intros [Hok Hx]. split; [by apply (drop_handle_ok g [] h hs)|]. intros h0 n p Ha [n' Hid]%drop_heap. eauto.
Qed.

(** [m] starts with the resources [rs] and the view [v]. Failing, it has given
    back [rs] and all it took, and the view is [ve]; with a result [a], it has
    given nothing back and the view is [R a]. *)
Definition lscoped {A} rs (v ve : View) (m : LM (E := E) A) (R : A → View) (P : Trace → A → Prop) : Prop :=
  ∀ g t, view v g → ∃ g' d r, m g t = Ret (g', t ++ d, r) ∧
    match r with
    | Ok a => released d = [] ∧ view (R a) g' ∧ P d a
    | Err _ => Permutation (released d) (acquired d ++ rs) ∧ view ve g'
    end.

Lemma lscoped_ret {A} rs v ve (a : A) (P : Trace → A → Prop) : P [] a → lscoped rs v ve (lm_ret a) (λ _, v) P.
Proof. intros HP g t Hg. exists g, [], (Ok a). by rewrite app_nil_r. Qed.
Lemma lscoped_err {A} v e R (P : Trace → A → Prop) : lscoped [] v v (lm_err e) R P.
Proof. intros g t Hg. exists g, [], (Err e). by rewrite app_nil_r. Qed.
Lemma lscoped_result {A X} v (f : X → LiveError) (r : result A X) :
  lscoped [] v v (lm_result f r) (λ _, v) (λ d a, d = [] ∧ r = Ok a).
Proof. destruct r; [by apply lscoped_ret|apply lscoped_err]. Qed.

Lemma lscoped_bind {A B} rs v ve (m : LM (E := E) A) (k : A → LM (E := E) B) R1 P1 R P : lscoped rs v ve m R1 P1 →
  (∀ d1 a, P1 d1 a → ∃ rs2, Permutation rs2 (acquired d1 ++ rs) ∧ lscoped rs2 (R1 a) ve (k a) R (λ d2 b, P (d1 ++ d2) b)) →
  lscoped rs v ve (lm_bind m k) R P.
Proof.
  intros Hm Hk g t Hg. destruct (Hm g t Hg) as (g1 & d1 & r1 & E1 & Hr). unfold lm_bind. rewrite E1. run.
  destruct r1 as [a|e]; [|by exists g1, d1, (Err e)]. destruct Hr as (Hrel & Hg1 & HP1). destruct (Hk _ _ HP1) as (rs2 & Hrs & Hka).
  destruct (Hka g1 (t ++ d1) Hg1) as (g2 & d2 & r2 & E2 & Hr2). rewrite E2, <- app_assoc. exists g2, (d1 ++ d2), r2. split; [done|].
  rewrite acquired_app, released_app, Hrel. destruct r2; [done|]. destruct Hr2 as [Hp Hg2]. split; [|done]. cbn [app]. rewrite Hp, Hrs.
  rewrite !app_assoc. f_equiv. apply Permutation_app_comm.
Qed.
(** The usual case: nothing was taken. *)
Lemma lscoped_seq {A B} rs v ve (m : LM (E := E) A) (k : A → LM (E := E) B) R1 P1 R P : lscoped rs v ve m R1 P1 →
  (∀ d1 a, P1 d1 a → acquired d1 = [] ∧ lscoped rs (R1 a) ve (k a) R (λ d2 b, P (d1 ++ d2) b)) →
  lscoped rs v ve (lm_bind m k) R P.
Proof. intros Hm Hk. apply (lscoped_bind _ _ _ _ _ _ _ _ _ Hm). intros d1 a HP. destruct (Hk d1 a HP) as [Ha Hs]. exists rs. by rewrite Ha. Qed.

(** Code that cannot fail and takes nothing. *)
Lemma lscoped_total {A} rs v ve (m : LM (E := E) A) R P :
  (∀ g t, view v g → ∃ g' a, m g t = Ret (g', t, Ok a) ∧ view (R a) g' ∧ P [] a) → lscoped rs v ve m R P.
Proof. intros Hm g t Hg. destruct (Hm g t Hg) as (g' & a & E1 & Hv & HP). exists g', [], (Ok a). by rewrite app_nil_r. Qed.
Lemma lscoped_out {A} rs v ve (m : outcome A) (a : A) (P : Trace → A → Prop) : m = Ret a → P [] a → lscoped rs v ve (lm_out m) (λ _, v) P.
Proof. intros -> HP. apply lscoped_total. intros g t Hg. by exists g, a. Qed.
(** The order of the handles does not matter. *)
Lemma lscoped_view {A} rs hs hs' x ve (m : LM (E := E) A) R P : hs ≡ₚ hs' → lscoped rs (hs', x) ve m R P → lscoped rs (hs, x) ve m R P.
Proof. intros Hp Hm g t Hg. apply Hm. by eapply view_equiv. Qed.
Lemma lscoped_resources {A} rs rs' v ve (m : LM (E := E) A) R P : rs ≡ₚ rs' → lscoped rs' v ve m R P → lscoped rs v ve m R P.
Proof.
  intros Hp Hm g t Hg. destruct (Hm g t Hg) as (g' & d & r & E1 & Hr). exists g', d, r. split; [done|]. destruct r; [done|]. by rewrite Hp.
Qed.
Lemma lscoped_weaken {A} rs v ve (m : LM (E := E) A) R R' (P P' : Trace → A → Prop) : lscoped rs v ve m R P →
  (∀ d a, P d a → P' d a ∧ ∀ g, view (R a) g → view (R' a) g) → lscoped rs v ve m R' P'.
Proof.
  intros Hm HP g t Hg. destruct (Hm g t Hg) as (g' & d & r & E1 & Hr). exists g', d, r. split; [done|]. destruct r as [a|e]; [|done].
  destruct Hr as (H1 & H2 & H3). destruct (HP d a H3) as [H4 H5]. auto.
Qed.

(** The drop of something that holds [rs]: it always returns, and takes the
    view from [v] to [ve]. *)
Definition gives rs v ve (rel : Registry E → Trace → outcome (Registry E * Trace)) : Prop :=
  ∀ g t, view v g → ∃ g' d, rel g t = Ret (g', t ++ d) ∧ Permutation (released d) rs ∧ acquired d = [] ∧ view ve g'.
Definition gives_back (rel : Registry E → Trace → outcome (Registry E * Trace)) rs : Prop :=
  ∀ g t, ∃ d, rel g t = Ret (g, t ++ d) ∧ Permutation (released d) rs ∧ acquired d = [].

Lemma gives_seq rs1 rs2 v1 v2 v3 rel1 rel2 : gives rs1 v1 v2 rel1 → gives rs2 v2 v3 rel2 →
  gives (rs1 ++ rs2) v1 v3 (λ g t, '(g, t) ← rel1 g t; rel2 g t).
Proof.
  intros H1 H2 g t Hg. destruct (H1 g t Hg) as (g1 & d1 & -> & Hr1 & Ha1 & Hg1). run. destruct (H2 g1 (t ++ d1) Hg1) as (g2 & d2 & -> & Hr2 & Ha2 & Hg2).
  exists g2, (d1 ++ d2). rewrite <- app_assoc, released_app, acquired_app, Ha1, Ha2, Hr1, Hr2. done.
Qed.
Lemma gives_nothing v : gives [] v v (λ g t, Ret (g, t)).
Proof. intros g t Hg. exists g, []. by rewrite app_nil_r. Qed.
Lemma gives_back_gives rel rs v : gives_back rel rs → gives rs v v rel.
Proof. intros Hr g t Hg. destruct (Hr g t) as (d & -> & Hd). exists g, d. by destruct Hd. Qed.
Lemma gives_handle hs x h : gives [] (h :: hs, x) (hs, x) (drop_program h).
Proof. intros g t Hg. exists (handle_drop g h), []. rewrite app_nil_r. split_and!; try done. by apply view_drop. Qed.

(** What is owned is dropped when the code below fails. *)
Lemma lscoped_guard {A} rs v v' ve rel (m : LM (E := E) A) R P : gives rs v' ve rel → lscoped [] v v' m R P →
  lscoped rs v ve (lm_owning rel m) R P.
Proof.
  intros Hrel Hm g t Hg. destruct (Hm g t Hg) as (g1 & d1 & r1 & E1 & Hr). unfold lm_owning. rewrite E1. run.
  destruct r1 as [a|e]; [by exists g1, d1, (Ok a)|]. destruct Hr as [Hp Hg1].
  destruct (Hrel g1 (t ++ d1) Hg1) as (g2 & d2 & -> & Hd2 & Ha2 & Hg2). run. exists g2, (d1 ++ d2), (Err e). split; [by rewrite <- app_assoc|].
  split; [|done]. by rewrite acquired_app, released_app, Ha2, Hp, Hd2, !app_nil_r.
Qed.
Lemma lscoped_owning {A} rs v ve rel (m : LM (E := E) A) R P : gives_back rel rs → lscoped [] v ve m R P →
  lscoped rs v ve (lm_owning rel m) R P.
Proof. intros Hrel. by apply lscoped_guard, gives_back_gives. Qed.
Lemma lscoped_handle {A} hs x h (m : LM (E := E) A) R P :
  lscoped [] (h :: hs, x) (h :: hs, x) m R P → lscoped [] (h :: hs, x) (hs, x) (lm_owning (drop_program h) m) R P.
Proof. apply lscoped_guard, gives_handle. Qed.

Lemma lscoped_sys {A} v (m : SysM A) P : scoped m P → lscoped [] v v (lm_sys m) (λ _, v) P.
Proof.
  intros Hm g t Hg. destruct (Hm t) as (d & r & E1 & Hr). unfold lm_sys. rewrite E1. run. exists g, d.
  destruct r as [a|e]; (eexists; split; [done|]); [by destruct Hr|]. split; [|done]. rewrite Hr, app_nil_r. symmetry.
  apply Permutation_rev.
Qed.

(** An operation on the program, with its effect on the XSKMAP. *)
Lemma lscoped_program {A} hs x x' h (f : PM (XdpProgram E) A) :
  h ∈ hs → (∀ h0, attached = Some h0 → ph_program h0 = ph_program h) → (∀ p, pg_if_index (f p).1 = pg_if_index p) →
  (∀ p, xsk_is p x → match f p with (p', Ok _) => xsk_is p' x' | (p', Err _) => xsk_is p' x end) →
  lscoped [] (hs, x) (hs, x) (lm_program h f) (λ _, (hs, x')) (λ d _, d = []).
Proof.
  intros Hin Hsame Hf Hx g t [Hg Hv]. destruct (on_program_ok f g hs h Hg Hin Hf) as (g1 & r & E1 & Hg1). unfold lm_program. rewrite E1. run.
  exists g1, []. rewrite app_nil_r.
  assert (Hview : view (hs, match r with Ok _ => x' | Err _ => x end) g1).
  { split; [done|]. intros h0 n0 p0 Ha. rewrite (Hsame h0 Ha). unfold on_program in E1.
    destruct (rg_heap g !! ph_program h) as [[n p]|] eqn:Hid; [|done].
    assert (Hxp : xsk_is p x) by (apply (Hv h0 n p Ha); by rewrite (Hsame h0 Ha)). specialize (Hx p Hxp). destruct (f p) as [p' [a|e]];
      injection E1 as <- <-; cbn [rg_heap]; rewrite lookup_insert_eq; by intros [= _ <-]. }
  destruct r; (eexists; split; [done|]); done.
Qed.
End Scoped.
