(* ===== verification/OpenLiveMain.v ===== *)
(** * Properties of opening and dropping live sockets *)
From S2P Require Import Core Buffer Wire WireProofs Route Program ProgramProofs Interface Aggregate Factory FactoryProofs.
From S2P Require Import Prelude Bits Umem PacketBuf XdpUdp Ring RingProofs Reclaim ReclaimProofs ReclaimMain.
From S2P Require Import Live LiveRing LiveProofs LiveSteps LiveIp LiveMain FilterMain FactoryMain RawOpen RawOpenMain OpenLive OpenLiveProofs.
Open Scope Z_scope.

Section Opening.
Context {E : Type} `{Aya E, !AyaLaws E} {Q : Type} `{ArrayQueue Q Z}.
Context (fs : Sysfs) (loaded : result E string) (hash : Z).
Context (os : Trace → SysCall → result Z Z) (offsets_of : Trace → Z → xdp_mmap_offsets).
Context (sys : Sys) (umem_addr : Z) (maps : Z → RingMaps) (checks : bool).
Context (c : XdpIpPacketSocketConfig).
Abbreviation rings := (ic_rings c).

(** What the kernel promises: no mapping at address zero, fresh rings, and
    deleting an entry of the XSKMAP only fails when there is none. *)
Record kernel_ok : Prop := mkKernelOk {
  kn_mmap t fd n offset : os t (SysMmap fd n offset) ≠ Ok 0;
  kn_rings q : rings_fresh rings (mp_fill (maps q)) (mp_comp (maps q)) (mp_rx (maps q)) (mp_tx (maps q));
  kn_delete (e : E) q e' x : bpf_map_delete e q = (e', Err x) → x = ENOENT;
}.
Context (Hk : kernel_ok) (hs : list XdpProgramHandle) (x : gmap Z Z).
Context (Hin : ∀ h, ic_attached_program c = Some h → h ∈ hs).
Abbreviation scope := (lscoped (ic_attached_program c)).

Lemma open_program_ok : scope [] (hs, x) (hs, x) (open_program loaded hash c) (λ h, (h :: hs, x))
  (λ d h, d = [] ∧ ∀ h0, ic_attached_program c = Some h0 → ph_program h0 = ph_program h).
Proof.
  intros g t Hv. unfold open_program. destruct (ic_attached_program c) as [h|] eqn:Ha.
  - destruct (negb _); [exists g, [], (Err LiveIfIndex); by rewrite app_nil_r|].
    destruct (handle_clone g h) as [g' h'] eqn:Hc. exists g', [], (Ok h'). rewrite app_nil_r. split; [done|]. split; [done|].
    assert (h' = h) as -> by (unfold handle_clone in Hc; injection Hc as _ <-; by destruct h). split; [|split; [done|by intros h0 [= ->]]].
    pose proof (view_clone (Some h) hs x g h Hv (Hin h eq_refl)) as Hv'. by rewrite Hc in Hv'.
  - destruct Hv as [Hok _]. destruct (load_with_config _ _ _ _ _ _) as [g' r] eqn:Hl. pose proof (load_ok _ _ _ _ _ _ _ _ _ Hok Hl) as Hok'.
    exists g', []. rewrite app_nil_r. destruct r as [h|e]; (eexists; split; [done|]); done.
Qed.

Lemma raw_scoped queue binding frames :
  scoped (new_inner os offsets_of (ic_ifindex c) queue binding rings (ic_mode c) frames (mp_fill (maps queue)) (mp_comp (maps queue))
            (mp_rx (maps queue)) (mp_tx (maps queue)))
    (raw_opened (ic_ifindex c) queue binding rings (ic_mode c) frames (mp_fill (maps queue)) (mp_comp (maps queue))
       (mp_rx (maps queue)) (mp_tx (maps queue))).
Proof.
  destruct (kn_rings Hk queue) as (Hf & _ & _ & _ & Hs & Hs2 & Hs3 & Hs4). apply new_inner_scoped; [apply Hk| |done].
  intros Hv. by destruct (rings_validated _ Hv Hs Hs2 Hs3 Hs4).
Qed.

Lemma drop_socket_back s : gives_back (E := E) (drop_socket os s) (resources s).
Proof.
  intros g t. destruct (drop_raw_ok os s t) as (d & E1 & Hr & Ha). exists d. unfold drop_socket. rewrite E1. run. by rewrite Hr.
Qed.
Lemma drop_sockets_back raws : gives_back (E := E) (drop_sockets os raws) (raws ≫= resources).
Proof.
  induction raws as [|s raws IH]; intros g t; cbn [drop_sockets].
  - exists []. by rewrite app_nil_r.
  - destruct (drop_socket_back s g t) as (d1 & -> & H1 & A1). run. destruct (IH g (t ++ d1)) as (d2 & -> & H2 & A2).
    exists (d1 ++ d2). split; [by rewrite <- app_assoc|]. rewrite released_app, acquired_app, A1, A2. split; [|done].
    change ((s :: raws) ≫= resources) with (resources s ++ (raws ≫= resources)). by rewrite H1, H2.
Qed.

Lemma register_and_bind_xsk queue fd port p : x !! queue = None → xsk_is p x →
  match register_and_bind queue fd port p with (p', Ok _) => xsk_is p' (<[queue := fd]> x) | (p', Err _) => xsk_is p' x end.
Proof.
  intros Hq Hx. unfold register_and_bind. pose proof (register_xsk queue fd p x Hx) as Hr.
  destruct (register_socket queue fd p) as [p1 [[]|e]]; [|done]. destruct port as [port|]; [|done].
  pose proof (bind_keeps_xsk port p1 _ Hr) as Hb. destruct (bind_port port p1) as [p2 [[]|e]]; cbn [fst] in Hb; [done|].
  pose proof (unregister_xsk (kn_delete Hk) queue p2 _ Hb) as Hu. destruct (unregister_socket queue p2) as [p3 r3]. cbn [fst] in Hu.
  by rewrite delete_insert_id in Hu.
Qed.

(** ** One socket *)
Record opened_one (d : Trace) (o : Opened Q) : Prop := mkOpenedOne {
  oo_held : acquired d = resources (op_raw o);
  oo_queue : rs_queue_id (op_raw o) = ic_queue_id c;
  oo_port : op_bound_port o = ic_bind_udp_port c;
  oo_rings : xs_raw (op_sock o) = rs_rings (op_raw o);
  oo_live : live_open (ic_ifindex c) (ic_queue_id c) (ic_mtu c) rings (qb_rx (ic_buffers c)) (qb_tx (ic_buffers c)) (ic_frame_count c)
      (λ fsz fc, umem_new_on_numa_node sys fsz fc (ic_huge_page_size c) (op_numa_node o))
      (mp_fill (maps (ic_queue_id c))) (mp_comp (maps (ic_queue_id c))) (mp_rx (maps (ic_queue_id c))) (mp_tx (maps (ic_queue_id c)))
    = Ret (Ok (op_config o, op_sock o));
}.

Lemma open_scoped : x !! ic_queue_id c = None →
  scope [] (hs, x) (hs, x) (open fs loaded hash os offsets_of sys umem_addr maps c)
    (λ o, (op_program o :: hs, <[ic_queue_id c := rs_fd (op_raw o)]> x))
    (λ d o, opened_one d o ∧ ∀ h, ic_attached_program c = Some h → ph_program h = ph_program (op_program o)).
Proof.
  intros Hq. unfold open. cbv zeta.
  apply (lscoped_seq _ _ _ _ _ _ _ _ _ _ (lscoped_result _ _ _ _)). intros ? numa [-> Hnuma]. split; [done|].
  apply (lscoped_seq _ _ _ _ _ _ _ _ _ _ open_program_ok). intros ? h [-> Hsame]. split; [done|].
  apply lscoped_handle.
  apply (lscoped_seq _ _ _ _ _ _ _ _ _ _ (lscoped_result _ _ _ _)). intros ? fsz [-> Hfsz]. split; [done|].
  destruct (_ || _) eqn:Hfc; [apply lscoped_err|].
  apply (lscoped_seq _ _ _ _ _ _ _ _ _ _ (lscoped_result _ _ _ _)). intros ? u [-> Hu]. split; [done|].
  destruct (U32_MAX <? _) eqn:Hhead; [apply lscoped_err|].
  apply (lscoped_bind _ _ _ _ _ _ _ _ _ _ (lscoped_sys _ _ _ _ (raw_scoped (ic_queue_id c) (Owner umem_addr u (l2_headroom (qb_rx (ic_buffers c)))) _))).
  intros d raw Hraw. exists (resources raw). split; [by rewrite (ro_held _ _ _ _ _ _ _ _ _ _ _ _ Hraw), app_nil_r|].
  apply lscoped_owning; [apply drop_socket_back|].
  apply (lscoped_seq _ _ _ _ _ _ _ _ _ _ (lscoped_program _ _ x (<[ic_queue_id c := rs_fd raw]> x) h _ ltac:(by left) Hsame
    (register_and_bind_index _ _ _) (λ p Hx, register_and_bind_xsk _ _ _ p Hq Hx))). intros ? [] ->. split; [done|].
  destruct (tx_drain_hysteresis _ _) as [th iv] eqn:Hth. intros g t Hv. eexists g, [], (Ok _). rewrite app_nil_r. split; [reflexivity|].
  split; [done|]. split; [exact Hv|]. split; [|exact Hsame]. cbn [app]. constructor; cbn; rewrite ?app_nil_r.
  - apply Hraw.
  - apply Hraw.
  - done.
  - done.
  - destruct (ro_prefilled _ _ _ _ _ _ _ _ _ _ _ _ Hraw) as (p & m & Hpre & Hrr). unfold live_open. rewrite Hfsz, Hfc, Hu, Hhead.
    rewrite (ro_valid _ _ _ _ _ _ _ _ _ _ _ _ Hraw), Hpre. run. by rewrite Hth, Hrr.
Qed.

(** ** Members over one UMEM *)
Abbreviation per_member := (ic_frame_count c).

Definition raw_member (u : Umem) (i queue : Z) (s : RawSocket) : Prop :=
  rs_queue_id s = queue ∧
  pring (sz_fill rings) (member_rx_frames u per_member i) (fill_prod (rs_rings s)) (fill_mmap (rs_rings s)).

Lemma raw_opened_member u i queue binding d s :
  raw_opened (ic_ifindex c) queue binding rings (ic_mode c) (member_rx_frames u per_member i) (mp_fill (maps queue)) (mp_comp (maps queue))
    (mp_rx (maps queue)) (mp_tx (maps queue)) d s → raw_member u i queue s.
Proof.
  intros Ho. split; [apply Ho|]. destruct (kn_rings Hk queue) as (Hf & _ & _ & _ & Hs & Hs2 & Hs3 & Hs4).
  destruct (rings_validated _ (ro_valid _ _ _ _ _ _ _ _ _ _ _ _ Ho) Hs Hs2 Hs3 Hs4) as [Hsz _].
  exact (raw_opened_fill _ _ _ _ _ _ _ _ _ _ _ _ Hsz Hf Ho).
Qed.

(** The members of the queues [queues], the first of which is member [i]. *)
Fixpoint raws_from (u : Umem) (i : Z) (queues : list Z) (raws : list RawSocket) : Prop :=
  match queues, raws with
  | [], [] => True
  | q :: queues, s :: raws => raw_member u i q s ∧ raws_from u (i + 1) queues raws
  | _, _ => False
  end.

Lemma raws_from_length u : ∀ queues i raws, raws_from u i queues raws → length raws = length queues.
Proof.
  induction queues as [|q queues IH]; intros i [|s raws] Hr; try done. cbn. f_equal. by apply (IH (i + 1)), Hr.
Qed.

Lemma open_members_scoped v u owner_fd : ∀ queues i raws,
  scope (raws ≫= resources) v v (open_members os offsets_of maps c u owner_fd i queues raws) (λ _, v)
    (λ d raws', ∃ new, raws' = raws ++ new ∧ acquired d = new ≫= resources ∧ raws_from u i queues new).
Proof.
  induction queues as [|queue queues IH]; intros i raws; cbn [open_members].
  { apply lscoped_ret. exists []. by rewrite app_nil_r. }
  apply (lscoped_bind _ _ _ _ _ _ (λ _, v) (λ d raw, acquired d = resources raw ∧ raw_member u i queue raw)).
  - apply lscoped_owning; [apply drop_sockets_back|]. intros g t Hv.
    destruct (lscoped_sys _ v _ _ (raw_scoped queue (Shared owner_fd) (member_rx_frames u per_member i)) g t Hv) as (g' & d & r & E1 & Hr).
    exists g', d, r. split; [exact E1|]. destruct r as [s|e]; [|done]. destruct Hr as (H1 & H2 & H3). split; [done|]. split; [done|].
    split; [apply H3|by apply (raw_opened_member u i queue (Shared owner_fd) d)].
  - intros d1 raw [Ha Hm]. exists ((raws ++ [raw]) ≫= resources). split.
    { rewrite bind_app, Ha. change ([raw] ≫= resources) with (resources raw ++ []). rewrite app_nil_r. apply Permutation_app_comm. }
    intros g t Hv. destruct (IH (i + 1) (raws ++ [raw]) g t Hv) as (g' & d & r & E1 & Hr). exists g', d, r. split; [exact E1|].
    destruct r as [raws'|e]; [|done]. destruct Hr as (H1 & H2 & new & -> & Hacq & Hfrom). split; [done|]. split; [done|].
    exists (raw :: new). rewrite <- app_assoc. split; [done|]. rewrite acquired_app, Ha, Hacq. done.
Qed.

(** The state of one member. *)
Record member_ok (u : Umem) (i queue : Z) (o : Opened Q) : Prop := mkMemberOk {
  mb_raw : raw_member u i queue (op_raw o);
  mb_rings : xs_raw (op_sock o) = rs_rings (op_raw o);
  mb_umem : xs_umem (op_sock o) = u;
  mb_rx : rc_free (xs_rx (op_sock o)) = [];
  mb_tx : rc_free (xs_tx (op_sock o)) = member_tx_frames u per_member i;
  mb_rx_cap : rc_cap (xs_rx (op_sock o)) = per_member / 2;
  mb_tx_cap : rc_cap (xs_tx (op_sock o)) = len (member_tx_frames u per_member i);
  mb_flight : xs_in_flight (op_sock o) = 0;
  mb_port : op_bound_port o = if i =? 0 then ic_bind_udp_port c else None;
  mb_queue : cf_queue (op_config o) = queue;
}.
Fixpoint members_from (u : Umem) (i : Z) (queues : list Z) (ms : list (Opened Q)) : Prop :=
  match queues, ms with
  | [], [] => True
  | q :: queues, o :: ms => member_ok u i q o ∧ members_from u (i + 1) queues ms
  | _, _ => False
  end.

Lemma member_states_ok u completion total th iv numa program x' : ∀ raws queues i g hs',
  view (ic_attached_program c) (hs', x') g → program ∈ hs' → raws_from u i queues raws →
  match member_states c u completion total th iv numa program i raws g with
  | (g', ms) => view (ic_attached_program c) (replicate (length raws) program ++ hs', x') g' ∧ op_raw <$> ms = raws ∧
      op_program <$> ms = replicate (length raws) program ∧ members_from u i queues ms
  end.
Proof.
  induction raws as [|raw raws IH]; intros queues i g hs' Hv Hp Hr; cbn [member_states]; [by destruct queues|].
  destruct queues as [|q queues]; [done|]. destruct Hr as [Hraw Hr].
  pose proof (view_clone _ _ _ g program Hv Hp) as Hv1. destruct (handle_clone g program) as [g1 h1] eqn:Hc. cbn [fst] in Hv1.
  assert (h1 = program) as -> by (unfold handle_clone in Hc; injection Hc as _ <-; by destruct program).
  specialize (IH queues (i + 1) g1 (program :: hs') Hv1 ltac:(by left) Hr).
  destruct (member_states c u completion total th iv numa program (i + 1) raws g1) as [g2 ms]. destruct IH as (Hv2 & Hraws & Hprog & Hms).
  split.
  - cbn [length]. rewrite (replicate_S_end _ program : replicate (S (length raws)) program = _), <- app_assoc. exact Hv2.
  - cbn [length]. rewrite !fmap_cons, Hraws, Hprog. split; [done|]. split; [done|]. split; [|exact Hms].
    destruct Hraw as [Hrq Hpr]. constructor; try done; by split.
Qed.

Lemma first_duplicate_none queues : ∀ seen, first_duplicate seen queues = None → NoDup queues ∧ ∀ q, q ∈ queues → q ∉ seen.
Proof.
  induction queues as [|q queues IH]; intros seen Hd; cbn in Hd; [split; [constructor|set_solver]|].
  case_bool_decide as Hq; [done|]. destruct (IH _ Hd) as [Hn Hs]. split.
  - constructor; [|done]. intros Hin'. apply (Hs q Hin'). set_solver.
  - intros q' [->|Hq']%elem_of_cons; [done|]. specialize (Hs q' Hq'). set_solver.
Qed.

(** The slices of the members are the active frames, in order. *)
Lemma member_frames u i : 0 ≤ per_member →
  member_rx_frames u per_member i ++ member_tx_frames u per_member i = frame_offset u <$> seqZ (i * per_member) per_member.
Proof.
  intros Hp. unfold member_rx_frames, member_tx_frames. rewrite <- fmap_app. f_equal.
  assert (0 ≤ per_member / 2 ≤ per_member) by (split; [apply Z.div_pos; lia|apply Z.div_le_upper_bound; lia]).
  rewrite <- seqZ_app by lia. f_equal. lia.
Qed.
Lemma member_slices u n : 0 ≤ per_member → 0 ≤ n →
  (seqZ 0 n ≫= λ i, member_rx_frames u per_member i ++ member_tx_frames u per_member i) = frame_offset u <$> seqZ 0 (per_member * n).
Proof.
  intros Hp. revert n. apply (natlike_ind (λ n, _)); [by rewrite Z.mul_0_r|]. intros n Hn IH. rewrite <- Z.add_1_r, seqZ_app, bind_app, IH by lia.
  rewrite Z.mul_add_distr_l, (seqZ_app 0 (per_member * n)) by nia. rewrite fmap_app. f_equal. rewrite Z.add_0_l, Z.mul_1_r.
  change (seqZ n 1) with [n]. cbn [mbind list_bind]. rewrite app_nil_r, member_frames by done. f_equal. f_equal. lia.
Qed.

Lemma slices_ok fsz total : umem_frame_size (qb_rx (ic_buffers c)) (qb_tx (ic_buffers c)) = Ok fsz → 2 ≤ per_member →
  is_power_of_two per_member = true → ∃ s, shared_member_slices fsz per_member (per_member / 2) total = Ok s.
Proof.
  intros Hf Hp2 Hpow. apply umem_frame_size_ok in Hf as (k & Hk' & -> & _). apply is_power_of_two_spec in Hpow as (j & Hj & E1).
  assert (Hj1 : 1 ≤ j). { destruct (Z.le_gt_cases 1 j); [done|]. assert (j = 0) as -> by lia. rewrite E1 in Hp2. done. }
  assert (E2 : per_member / 2 = 2 ^ (j - 1)).
  { rewrite E1. replace j with (Z.succ (j - 1)) at 1 by lia. rewrite Z.pow_succ_r, Z.mul_comm by lia. apply Z.div_mul. lia. }
  assert (Hpw : ∀ k, 0 ≤ k → is_power_of_two (2 ^ k) = true) by (intros k' ?; apply is_power_of_two_spec; by exists k').
  unfold shared_member_slices. rewrite E2, E1, !Hpw by lia. cbn [negb orb].
  destruct (Z.eqb_spec (2 ^ j) 0); [lia|]. destruct (Z.eqb_spec (2 ^ (j - 1)) 0); [lia|]. cbn [orb].
  destruct (Z.ltb_spec (2 ^ j) (2 ^ (j - 1))); [|by eexists].
  assert (2 ^ (j - 1) ≤ 2 ^ j) by (apply Z.pow_le_mono_r; lia). lia.
Qed.

Record opened_members (queues : list Z) (d : Trace) (ms : list (Opened Q)) : Prop := mkOpenedMembers {
  om_held : acquired d = (op_raw <$> ms) ≫= resources;
  om_umem : ∃ u, um_ok u ∧ per_member * len queues ≤ um_frame_count u ∧ members_from u 0 queues ms ∧
    (seqZ 0 (len queues) ≫= λ i, member_rx_frames u per_member i ++ member_tx_frames u per_member i)
    = frame_offset u <$> seqZ 0 (per_member * len queues);
}.

Lemma next_power_ok total n : 0 ≤ total → next_power_of_two_u32 checks total = Ret n → n = 0 ∨ total ≤ n.
Proof.
  intros Ht. unfold next_power_of_two_u32. destruct (_ <? 2 ^ 32).
  - intros [= <-]. right. destruct (Z.leb_spec total 1); [lia|]. by apply Z.log2_up_spec.
  - destruct checks; [done|]. intros [= <-]. by left.
Qed.
Lemma next_power_total total : checks = false ∨ total ≤ 2 ^ 31 → ∃ n, next_power_of_two_u32 checks total = Ret n.
Proof.
  unfold next_power_of_two_u32. destruct (Z.ltb_spec (if total <=? 1 then 1 else 2 ^ Z.log2_up total) (2 ^ 32)) as [|Hge]; [eauto|].
  destruct checks; [|eauto]. intros [|Ht]; [done|]. exfalso. destruct (Z.leb_spec total 1); [lia|].
  assert (Z.log2_up total ≤ 31) by (apply Z.log2_up_le_pow2; lia). assert (2 ^ Z.log2_up total ≤ 2 ^ 31) by (apply Z.pow_le_mono_r; lia). lia.
Qed.

Lemma open_shared_scoped queues : queues ≠ [] → checks = false ∨ per_member * len queues ≤ 2 ^ 31 → (∀ q, q ∈ queues → x !! q = None) →
  scope [] (hs, x) (hs, x) (open_shared_members fs loaded hash os offsets_of sys umem_addr maps checks c queues)
    (λ ms, ((op_program <$> ms) ++ hs, xsk_add x (zip (op_raw <$> ms) queues)))
    (λ d ms, NoDup queues ∧ opened_members queues d ms ∧
       Forall (λ h, ∀ h0, ic_attached_program c = Some h0 → ph_program h0 = ph_program h) (op_program <$> ms)).
Proof.
  intros Hne Hchecks Hq. unfold open_shared_members. destruct queues as [|queue0 rest]; [done|]. set (queues := queue0 :: rest) in *.
  destruct (first_duplicate [] queues) as [dup|] eqn:Hdup; [apply lscoped_err|]. destruct (first_duplicate_none _ _ Hdup) as [Hnodup _].
  apply (lscoped_seq _ _ _ _ _ _ _ _ _ _ (lscoped_result _ _ _ _)). intros ? numa [-> Hnuma]. split; [done|].
  apply (lscoped_seq _ _ _ _ _ _ _ _ _ _ open_program_ok). intros ? h [-> Hsame]. split; [done|].
  apply lscoped_handle.
  apply (lscoped_seq _ _ _ _ _ _ _ _ _ _ (lscoped_result _ _ _ _)). intros ? fsz [-> Hfsz]. split; [done|].
  destruct (_ || _) eqn:Hfc; [apply lscoped_err|]. apply orb_false_iff in Hfc as [Hfc Hpow]. apply Z.ltb_ge in Hfc. apply negb_false_iff in Hpow.
  destruct (negb (fitsb 32 (per_member * len queues))); [apply lscoped_err|].
  destruct (next_power_total _ Hchecks) as (n & Hn).
  apply (lscoped_seq _ _ _ _ _ _ (λ _, (h :: hs, x)) (λ d m, d = [] ∧ m = n)).
  { intros g t Hv. rewrite Hn. run. exists g, [], (Ok n). by rewrite app_nil_r. }
  intros ? ? [-> ->]. split; [done|]. destruct (U32_MAX <? _) eqn:Hhead; [apply lscoped_err|].
  apply (lscoped_seq _ _ _ _ _ _ _ _ _ _ (lscoped_result _ _ _ _)). intros ? u [-> Hu]. split; [done|].
  apply umem_new_numa_inv in Hu as (Huok & _ & Hcount & _).
  apply (lscoped_bind _ _ _ _ _ _ _ _ _ _ (lscoped_sys _ _ _ _ (raw_scoped queue0 (Owner umem_addr u (l2_headroom (qb_rx (ic_buffers c)))) (member_rx_frames u per_member 0)))).
  intros d0 raw0 Hraw0. pose proof (raw_opened_member _ _ _ _ _ _ Hraw0) as Hm0. pose proof (ro_held _ _ _ _ _ _ _ _ _ _ _ _ Hraw0) as Ha0.
  exists ([raw0] ≫= resources). split; [by rewrite Ha0|].
  apply (lscoped_bind _ _ _ _ _ _ _ _ _ _ (open_members_scoped _ u (rs_fd raw0) rest 1 [raw0])). intros d1 raws (new & -> & Ha1 & Hfrom).
  exists (([raw0] ++ new) ≫= resources). split.
  { rewrite bind_app, Ha1. apply Permutation_app_comm. }
  set (raws := [raw0] ++ new). assert (Hraws : raws_from u 0 queues raws) by (by split).
  assert (Hzip : (zip raws queues).*2 = queues).
  { apply snd_zip. by rewrite (raws_from_length _ _ _ _ Hraws). }
  apply lscoped_owning; [apply drop_sockets_back|].
  apply (lscoped_seq _ _ _ _ _ _ _ _ _ _ (lscoped_program _ _ x (xsk_add x (zip raws queues)) h _ ltac:(by left) Hsame
    (register_all_index _ _) (λ p Hx, register_all_xsk (kn_delete Hk) _ _ p x Hx ltac:(by rewrite Hzip)))). intros ? [] ->. split; [done|].
  destruct (tx_drain_hysteresis _ _) as [th iv]. destruct (slices_ok fsz (per_member * len queues) Hfsz Hfc Hpow) as (slices & Hsl).
  rewrite Hsl. cbn [lm_result]. intros g t Hv. unfold lm_bind, lm_ret. run.
  pose proof (member_states_ok u slices (per_member * len queues) th iv numa h _ raws queues 0 g _ Hv ltac:(by left) Hraws) as Hms.
  destruct (member_states _ _ _ _ _ _ _ _ _ _ _) as [g1 ms]. destruct Hms as (Hv1 & Hr1 & Hp1 & Hms).
  exists (handle_drop g1 h), [], (Ok ms). rewrite app_nil_r. split; [done|]. split; [done|]. split.
  - rewrite Hr1, Hp1. apply view_drop.
    replace (h :: replicate (length raws) h ++ hs) with (replicate (length raws) h ++ h :: hs); [done|].
    rewrite app_comm_cons, cons_middle, app_assoc. f_equal. symmetry. apply replicate_S_end.
  - split; [done|]. split; [|rewrite Hp1; by apply Forall_replicate]. constructor.
    + cbn [app]. rewrite !app_nil_r, acquired_app, Ha0, Ha1, Hr1. done.
    + exists u. split; [done|]. pose proof (len_nonneg queues). split_and!; [|done|apply member_slices; lia].
      destruct (next_power_ok (per_member * len queues) n ltac:(nia) Hn) as [->|]; [|lia].
      destruct Huok as (_ & Hc2 & _). by rewrite Hcount in Hc2.
Qed.

(** ** Dropping *)
Lemma on_program_view {A} v x' h (f : PM (XdpProgram E) A) g : view (ic_attached_program c) v g → h ∈ v.1 →
  (∀ h0, ic_attached_program c = Some h0 → ph_program h0 = ph_program h) → (∀ p, pg_if_index (f p).1 = pg_if_index p) →
  (∀ p, xsk_is p v.2 → xsk_is (f p).1 x') → ∃ g' r, on_program f g h = Ret (g', r) ∧ view (ic_attached_program c) (v.1, x') g'.
Proof.
  intros Hv Hh Hsame Hf Hx. destruct v as [hs' x0].
  destruct (lscoped_program (ic_attached_program c) hs' x0 x' h (λ p, ((f p).1, Ok (f p).2)) Hh Hsame Hf Hx g [] Hv) as (g' & d & r & E1 & Hr).
  unfold lm_program, on_program in *. destruct (rg_heap g !! ph_program h) as [[n p]|]; [|done]. destruct (f p) as [p' r'] eqn:Hfp. cbn in E1.
  injection E1 as <- _ <-. destruct Hr as (_ & Hv' & _). eauto.
Qed.

Lemma live_drop_ok (o : Opened Q) g t hs' x' : view (ic_attached_program c) (op_program o :: hs', x') g →
  (∀ h0, ic_attached_program c = Some h0 → ph_program h0 = ph_program (op_program o)) →
  ∃ g' d, live_drop os o g t = Ret (g', t ++ d) ∧ Permutation (released d) (resources (op_raw o)) ∧ acquired d = [] ∧
    view (ic_attached_program c) (hs', delete (rs_queue_id (op_raw o)) x') g'.
Proof.
  intros Hv Hatt. unfold live_drop. set (v := (op_program o :: hs', x')) in *.
  assert (H1 : ∃ g1, (match op_bound_port o with
      | Some port => '(g, _) ← on_program (unbind_port port) g (op_program o); Ret g
      | None => Ret g end) = Ret g1 ∧ view (ic_attached_program c) v g1).
  { destruct (op_bound_port o) as [port|]; [|by exists g].
    destruct (on_program_view v x' (op_program o) (unbind_port port) g Hv ltac:(by left) Hatt (unbind_port_index port)
      (λ p Hx, unbind_keeps_xsk port p x' Hx)) as (g1 & r & -> & Hv1). run. by exists g1. }
  destruct H1 as (g1 & -> & Hv1). run.
  destruct (on_program_view v (delete (rs_queue_id (op_raw o)) x') (op_program o) (unregister_socket (rs_queue_id (op_raw o))) g1 Hv1 ltac:(by left)
    Hatt (unregister_socket_index _) (λ p Hx, unregister_xsk (kn_delete Hk) _ p x' Hx)) as (g2 & r & -> & Hv2). run.
  apply view_drop in Hv2.
  destruct (drop_socket_back (op_raw o) (handle_drop g2 (op_program o)) t) as (d & -> & Hr & Ha). by exists (handle_drop g2 (op_program o)), d.
Qed.


Lemma drop_members_ok (ms : list (Opened Q)) : ∀ g t x', view (ic_attached_program c) ((op_program <$> ms) ++ hs, x') g →
  Forall (λ h, ∀ h0, ic_attached_program c = Some h0 → ph_program h0 = ph_program h) (op_program <$> ms) →
  ∃ g' d, drop_members os ms g t = Ret (g', t ++ d) ∧ Permutation (released d) ((op_raw <$> ms) ≫= resources) ∧
    view (ic_attached_program c) (hs, xsk_del x' ((rs_queue_id ∘ op_raw) <$> ms)) g'.
Proof.
  induction ms as [|o ms IH]; intros g t x' Hv Hs; cbn [drop_members]; [exists g, []; by rewrite app_nil_r|].
  rewrite fmap_cons in Hs. apply Forall_cons in Hs as [Ho Hs].
  destruct (live_drop_ok o g t (fmap (M := list) op_program ms ++ hs) x' Hv Ho) as (g1 & d1 & -> & Hp1 & _ & Hv1).
  run. destruct (IH g1 (t ++ d1) _ Hv1 Hs) as (g2 & d2 & -> & Hp2 & Hv2). exists g2, (d1 ++ d2). split; [by rewrite <- app_assoc|].
  split; [|exact Hv2]. rewrite released_app.
  change ((op_raw <$> o :: ms) ≫= resources) with (resources (op_raw o) ++ ((op_raw <$> ms) ≫= resources)). by rewrite Hp1, Hp2.
Qed.

Lemma members_queues u : ∀ queues i ms, members_from u i queues ms → (rs_queue_id ∘ op_raw) <$> ms = queues ∧ length ms = length queues.
Proof.
  induction queues as [|q queues IH]; intros i [|o ms] Hm; try done. destruct Hm as [Ho Hm]. destruct (IH _ _ Hm) as [E1 E2].
  rewrite fmap_cons, E1. cbn. rewrite E2. split; [|done]. f_equal. apply Ho.
Qed.

End Opening.

(** ** The builder's defaults

    Which errors an opening can return at all. *)
Section Errors.
Context {E : Type} `{Aya E}.

Definition os_only {A} (m : SysM A) : Prop := ∀ t t' e, m t = Ret (t', Err e) → ∃ errno, e = RawOs errno.
Lemma os_only_ret {A} (a : A) : os_only (sys_ret a).
Proof. by intros t t' e [=]. Qed.
Lemma os_only_call os c : os_only (call os c).
Proof. intros t t' e. unfold call. destruct (os t c); [done|]. intros [= _ <-]. eauto. Qed.
Lemma os_only_bind {A B} (m : SysM A) (k : A → SysM B) : os_only m → (∀ a, os_only (k a)) → os_only (sys_bind m k).
Proof.
  intros Hm Hk t t' e. unfold sys_bind. destruct (m t) as [[t1 [a|e1]]| | |] eqn:E1; try done; run; [apply Hk|]. intros [= _ <-]. by eapply Hm.
Qed.
Lemma os_only_owning {A} rel (m : SysM A) : os_only m → os_only (owning rel m).
Proof.
  intros Hm t t' e. unfold owning. destruct (m t) as [[t1 [a|e1]]| | |] eqn:E1; try done. run. destruct (rel t1) as [[t2 r2]| | |]; try done.
  run. intros [= _ <-]. by eapply Hm.
Qed.

(** With valid ring sizes and room in the FILL ring only the kernel's refusals
    are left. *)
Lemma new_inner_os_only os offsets_of if_index queue_id binding sizes mode frames fill comp rx tx :
  ring_sizes_validate sizes = Ok tt → ring_size (sz_fill sizes) → fresh_ring (sz_fill sizes) fill → len frames ≤ sz_fill sizes →
  os_only (new_inner os offsets_of if_index queue_id binding sizes mode frames fill comp rx tx).
Proof.
  intros Hv Hs Hf Hl. unfold new_inner. rewrite Hv.
  assert (Hset : ∀ fd level opt v, os_only (setsockopt os fd level opt v)).
  { intros. apply os_only_bind; [apply os_only_call|intros; apply os_only_ret]. }
  assert (Hmmap : ∀ fd dl o off, os_only (mmap_ring os fd dl o off)).
  { intros. apply os_only_bind; [apply os_only_call|]. intros ptr. destruct (ptr =? 0); [by intros t t' e|apply os_only_ret]. }
  assert (Hmaps : ∀ (A : Type) fd dl o off (k : RingMmap → SysM A), (∀ m, os_only (k m)) →
    os_only (sys_bind (mmap_ring os fd dl o off) (λ m, owning (drop_map os m) (k m)))).
  { intros. apply os_only_bind; [apply Hmmap|]. intros. by apply os_only_owning. }
  apply os_only_bind; [apply os_only_call|]. intros fd. apply os_only_owning. apply os_only_bind.
  { destruct binding; [|apply os_only_ret]. apply os_only_bind; [apply Hset|]. intros. apply os_only_ret. }
  intros [sfd flags]. apply os_only_bind.
  { generalize [(XDP_UMEM_COMPLETION_RING, sz_completion sizes); (XDP_UMEM_FILL_RING, sz_fill sizes); (XDP_RX_RING, sz_rx sizes); (XDP_TX_RING, sz_tx sizes)].
    induction l as [|[opt size] l IH]; cbn [set_rings]; [apply os_only_ret|]. apply os_only_bind; [apply Hset|done]. }
  intros _. apply os_only_bind.
  { intros t. exact (os_only_bind _ _ (os_only_call os (SysMmapOffsets fd)) (λ _, os_only_ret _) t). }
  intros offs. do 4 (apply Hmaps; intros ?). clear Hset Hmmap Hmaps. apply os_only_bind.
  - intros t t' e. destruct (prefill_ok (sz_fill sizes) frames 0 [] _ _ (pinv_fresh _ fill Hs Hf)) as [H1 _].
    destruct (H1 Hl) as (p & mem & E1 & _). unfold lift_prefill. rewrite E1. run. done.
  - intros [p mem]. apply os_only_bind; [apply os_only_call|]. intros. apply os_only_ret.
Qed.

Definition fails_with {A} (m : LM (E := E) A) (S : LiveError → Prop) : Prop := ∀ g t g' t' e, m g t = Ret (g', t', Err e) → S e.
Lemma fails_ret {A} (a : A) S : fails_with (lm_ret a) S.
Proof. by intros g t g' t' e [=]. Qed.
Lemma fails_result {A X} (f : X → LiveError) (r : result A X) (S : LiveError → Prop) : (∀ x, r = Err x → S (f x)) → fails_with (lm_result f r) S.
Proof. intros HS g t g' t' e. destruct r as [a|x]; [done|]. intros [= _ _ <-]. by apply HS. Qed.
Lemma fails_bind {A B} (m : LM (E := E) A) (k : A → LM (E := E) B) S : fails_with m S → (∀ a, fails_with (k a) S) → fails_with (lm_bind m k) S.
Proof.
  intros Hm Hk g t g' t' e. unfold lm_bind. destruct (m g t) as [[[g1 t1] [a|e1]]| | |] eqn:E1; try done; run; [apply Hk|].
  intros [= _ _ <-]. by eapply Hm.
Qed.
Lemma fails_owning {A} rel (m : LM (E := E) A) S : fails_with m S → fails_with (lm_owning rel m) S.
Proof.
  intros Hm g t g' t' e. unfold lm_owning. destruct (m g t) as [[[g1 t1] [a|e1]]| | |] eqn:E1; try done. run.
  destruct (rel g1 t1) as [[g2 t2]| | |]; try done. run. intros [= _ _ <-]. by eapply Hm.
Qed.
Lemma fails_sys {A} (m : SysM A) (S : LiveError → Prop) : os_only m → (∀ errno, S (LiveRaw (RawOs errno))) → fails_with (lm_sys m) S.
Proof.
  intros Hm HS g t g' t' e. unfold lm_sys. destruct (m t) as [[t1 [a|e1]]| | |] eqn:E1; try done; run.
  intros [= _ _ <-]. by destruct (Hm _ _ _ E1) as [errno ->].
Qed.
Lemma fails_program {A} h (m : PM (XdpProgram E) A) (S : LiveError → Prop) : (∀ x, S (LiveProgram x)) → fails_with (lm_program h m) S.
Proof.
  intros HS g t g' t' e. unfold lm_program. destruct (on_program m g h) as [[g1 [a|x]]| | |]; try done; run. by intros [= _ _ <-].
Qed.
End Errors.

(** A builder whose sizes are the default ones; everything else may be set. *)
Inductive default_sizes : IpBuilder.t → Prop :=
  | ds_new i q b : IpBuilder.new i q = Ret b → default_sizes b
  | ds_numa_node v b : default_sizes b → default_sizes (IpBuilder.numa_node v b)
  | ds_huge_page_size v b : default_sizes b → default_sizes (IpBuilder.huge_page_size v b)
  | ds_mode v b : default_sizes b → default_sizes (IpBuilder.mode v b)
  | ds_mtu v b : default_sizes b → default_sizes (IpBuilder.mtu v b)
  | ds_attach_mode v b : default_sizes b → default_sizes (IpBuilder.attach_mode v b)
  | ds_program_bytes v b : default_sizes b → default_sizes (IpBuilder.program_bytes v b)
  | ds_attached_program v b : default_sizes b → default_sizes (IpBuilder.attached_program v b)
  | ds_bind_udp_port v b : default_sizes b → default_sizes (IpBuilder.bind_udp_port v b)
  | ds_route_snapshot v b : default_sizes b → default_sizes (IpBuilder.route_snapshot v b).

Definition default_rx : BufferLayout := mkLayout 2048 0 0 4096 64 2048 4096 1 64 true.
Definition default_tx : BufferLayout := mkLayout 2048 64 0 4096 128 2048 4096 1 64 true.

Lemma default_sizes_config b : default_sizes b → let c := IpBuilder.into_config b in
  ic_buffers c = mkQueueBuffers default_rx default_tx (Some 2048) (Some 2048) ∧ ic_rings c = RingSizes_default ∧ ic_frame_count c = 4096.
Proof. induction 1 as [i q b Hb| | | | | | | | |]; [by injection Hb as <-|unfold IpBuilder.into_config in *; by destruct b as [[]]..]. Qed.

(** What can go wrong that the sizes have no part in. *)
Definition environment_error (c : XdpIpPacketSocketConfig) (e : LiveError) : Prop :=
  match e with
  | LiveNuma _ | LiveProgram _ | LiveOpen (OpenUmem _) | LiveRaw (RawOs _) => True
  | LiveIfIndex => ∃ h, ic_attached_program c = Some h ∧ ph_if_index h ≠ ic_ifindex c
  | _ => False
  end.

Section Defaults.
Context {E : Type} `{Aya E, !AyaLaws E} {Q : Type} `{ArrayQueue Q Z}.
Context (fs : Sysfs) (loaded : result E string) (hash : Z).
Context (os : Trace → SysCall → result Z Z) (offsets_of : Trace → Z → xdp_mmap_offsets).
Context (sys : Sys) (umem_addr : Z) (maps : Z → RingMaps) (b : IpBuilder.t).
Let c := IpBuilder.into_config b.

Lemma default_open_fails : default_sizes b → rings_fresh RingSizes_default (mp_fill (maps (ic_queue_id c))) (mp_comp (maps (ic_queue_id c)))
    (mp_rx (maps (ic_queue_id c))) (mp_tx (maps (ic_queue_id c))) →
  fails_with (open fs loaded hash os offsets_of sys umem_addr maps c (Q := Q)) (environment_error c).
Proof.
  intros Hd Hf. destruct (default_sizes_config b Hd) as (Hb & Hr & Hc). fold c in Hb, Hr, Hc. unfold open. rewrite Hb, Hr, Hc. cbv zeta. cbn [qb_rx qb_tx].
  apply fails_bind; [by apply fails_result|]. intros numa. apply fails_bind.
  { intros g t g' t' e. unfold open_program. destruct (ic_attached_program c) as [h|] eqn:Ha.
    - destruct (Z.eqb_spec (ph_if_index h) (ic_ifindex c)); cbn [negb]; [by destruct (handle_clone g h)|]. intros [= _ _ <-]. by exists h.
    - destruct (load_with_config _ _ _ _ _ _) as [g1 [h|x]]; [done|]. by intros [= _ _ <-]. }
  intros h. apply fails_owning, fails_bind; [by apply fails_result|]. intros fsz. change ((4096 <? 2) || negb (is_power_of_two 4096)) with false. cbn iota.
  apply fails_bind; [by apply fails_result|]. intros u. change (U32_MAX <? l2_headroom default_rx) with false. cbn iota.
  apply fails_bind.
  { apply fails_sys; [|done]. destruct Hf as (Hf & _). apply new_inner_os_only; [done|by exists 11|done|]. unfold len. by rewrite length_fmap, length_seqZ. }
  intros raw. apply fails_owning, fails_bind; [by apply fails_program|]. intros _. destruct (tx_drain_hysteresis _ _). apply fails_ret.
Qed.

End Defaults.

(** ** Two members on an attached program

    The card and the object of the earlier files; a member has two frames of
    128 bytes. *)
Definition pair_handle : XdpProgramHandle :=
  match (load_with_config (mkRegistry ∅ ∅) 7 AttachDefault BoundPorts (Ok fresh_object) 9).2 with
  | Ok h => h
  | Err _ => mkHandle 0 0
  end.
Definition pair_config : XdpIpPacketSocketConfig :=
  mkIpConfig 7 0 None HugeDefault (mkQueueBuffers small_layout small_layout None None) small_rings ZeroCopy 1500 2 AttachDefault None
    (Some pair_handle) (Some 53) snapshot_new.
Definition pair_maps (q : Z) : RingMaps := mkRingMaps small_fill small_fill small_descs small_descs.
Definition pair_open : outcome (Registry Object * Trace * result (list (Opened (list Z * Z))) LiveError) :=
  open_shared_members nic_fs (Ok fresh_object) 9 good_os flat_offsets small_sys 4096 pair_maps true pair_config [0; 1] shared_registry [].

Lemma pair_kernel os : (∀ t fd n offset, os t (SysMmap fd n offset) ≠ Ok 0) → kernel_ok (E := Object) os pair_maps pair_config.
Proof.
  intros Hos. constructor; [exact Hos| |].
  - intros q. vm_compute. repeat split; congruence.
  - intros e q e' x. cbn. destruct (ob_xskmap e !! q); by intros [= _ <-].
Qed.
Lemma only_attached (h h' : XdpProgramHandle) : Some h = Some h' → h' ∈ [h].
Proof. intros [= ->]. left. Qed.
Lemma good_mmap t fd n offset : good_os t (SysMmap fd n offset) ≠ Ok 0.
Proof. intros [= He]. lia. Qed.
Lemma pair_view : view (Some pair_handle) ([pair_handle], ∅) shared_registry.
Proof.
  pose proof (load_ok (mkRegistry ∅ ∅ : Registry Object) [] 7 AttachDefault BoundPorts (Ok fresh_object) 9 _ _ no_programs_ok (surjective_pairing _)) as Hok.
  change (registry_ok shared_registry [pair_handle]) in Hok. split; [exact Hok|]. intros h n p Hh Hid.
  apply only_attached, list_elem_of_singleton in Hh. rewrite Hh in Hid. clear Hh.
  assert (Hx : (λ np, ob_xskmap (pg_ebpf np.2)) <$> rg_heap shared_registry !! ph_program pair_handle = Some ∅) by (vm_compute; reflexivity).
  rewrite Hid in Hx. injection Hx as Hx. unfold xsk_is. cbn. by rewrite Hx.
Qed.


(** The same opening of one member, when the kernel accepts and when its bind
    fails. *)
Definition one_open (os : Trace → SysCall → result Z Z) : outcome (Registry Object * Trace * result (Opened (list Z * Z)) LiveError) :=
  open nic_fs (Ok fresh_object) 9 os flat_offsets small_sys 4096 pair_maps pair_config shared_registry [].


(** ** Forwarding between members

    The datagram of the IP round trip, in the transmit frame of the first
    member. *)
Definition pair_members : list (Opened (list Z * Z)) := match pair_open with Ret (_, _, Ok ms) => ms | _ => [] end.
Definition pair_memory : list Z := write_at (replicate 512 0) 174 ip_datagram.


(** ** A builder at its defaults *)
Definition default_config : XdpIpPacketSocketConfig :=
  mkIpConfig 7 0 (Some 0) HugeDefault (mkQueueBuffers default_rx default_tx (Some 2048) (Some 2048)) RingSizes_default ZeroCopy 1500 4096 AttachDefault None
    None None snapshot_new.
Definition default_maps (q : Z) : RingMaps :=
  let ring := mkRing 0 0 0 (replicate 2048 0) in let descs := mkRing 0 0 0 (replicate 2048 (mkXdpDesc 0 0 0)) in mkRingMaps ring ring descs descs.
Lemma default_config_sizes : default_sizes (IpBuilder.mk default_config).
Proof.
  assert (Hn : ∃ b, IpBuilder.new 7 0 = Ret b ∧ IpBuilder.mk default_config = IpBuilder.numa_node 0 b) by (eexists; split; reflexivity).
  destruct Hn as (b & Hb & ->). apply ds_numa_node. exact (ds_new _ _ _ Hb).
Qed.
Lemma default_maps_ok : kernel_ok (E := Object) good_os default_maps default_config.
Proof.
  constructor; [exact good_mmap| |].
  - intros q. unfold rings_fresh, fresh_ring. cbn [ic_rings default_config]. vm_compute. repeat split; congruence.
  - intros e q e' x. cbn. destruct (ob_xskmap e !! q); by intros [= _ <-].
Qed.

