(* ===== verification/OpenSocket.v ===== *)
(** * Sockets and aggregates from a configuration: [socket.rs], [aggregate.rs],
      [config.rs] and the plans of [factory.rs]

    The constructors above [LiveXdpState]: what a socket owns (its
    configuration with a program handle, its driver with a descriptor, its
    live state), in which order it is built and dropped, the sockets and
    aggregates of several queues over one UMEM, the UDP sockets on top, and the
    opening of a worker's plan on its thread. A configuration is passed by
    value: whoever takes it drops its handle. *)
From S2P Require Import Core Buffer Wire Route Program ProgramProofs Interface Aggregate Factory FactoryProofs.
From S2P Require Import Prelude Bits Umem PacketBuf XdpUdp Ring Reclaim ReclaimMain HeapPool Live LiveMain FilterMain FactoryMain.
From S2P Require Import RawOpen RawOpenMain OpenLive OpenLiveProofs OpenLiveMain.
Open Scope Z_scope.

(** [BusyPollDriver] and [XdpWaitDrivenDriver], which owns a descriptor. *)
Inductive XdpDriver := BusyPollDriver | XdpWaitDrivenDriver (fd : Z).

(** [XdpIpPacketSocket]; its live state is that of [OpenLive], with the pools
    and counters there. The queues [pending_rx] and [pending_tx_frames] are
    left out: only tests and their helpers [push_received_*] fill them. *)
Record XdpIpPacketSocket (Q QB : Type) := mkXdpIpPacketSocket {
  so_config : XdpIpPacketSocketConfig;
  so_nic_queues : list Z;
  so_rx_pool : XdpPool QB;
  so_tx_pool : XdpPool QB;
  so_driver : XdpDriver;
  so_routes : XdpLocalRoutes;
  so_live : option (Opened Q);
}.
Arguments mkXdpIpPacketSocket {Q QB} _ _ _ _ _ _ _.
Arguments so_config {Q QB} _.
Arguments so_nic_queues {Q QB} _.
Arguments so_rx_pool {Q QB} _.
Arguments so_tx_pool {Q QB} _.
Arguments so_driver {Q QB} _.
Arguments so_routes {Q QB} _.
Arguments so_live {Q QB} _.

(** [XdpUdpSocket]. *)
Record XdpUdpSocket (Q QB R : Type) := mkXdpUdpSocket {
  us_ip : XdpIpPacketSocket Q QB;
  us_local_addr : SocketAddr;
  us_accepted_ports : XdpUdpAcceptedPorts;
  us_router : R;
  us_ttl : Z;
}.
Arguments mkXdpUdpSocket {Q QB R} _ _ _ _ _.
Arguments us_ip {Q QB R} _.
Arguments us_local_addr {Q QB R} _.
Arguments us_accepted_ports {Q QB R} _.
Arguments us_router {Q QB R} _.
Arguments us_ttl {Q QB R} _.

(** *** Waiting

    A duration is in nanoseconds; [poll] gets the descriptor and the timeout,
    and answers with the number of ready descriptors or the error's text. *)
Definition C_INT_MAX : Z := 2147483647.
Definition poll_timeout_ms (timeout : option Z) : Z :=
  match timeout with
  | None => -1
  | Some t => if t =? 0 then 0 else let ms := t / 1000000 in Z.max (if ms <=? C_INT_MAX then ms else C_INT_MAX) 1
  end.
Definition wait_fd_readable (poll : Z → Z → result Z string) (fd : Z) (timeout : option Z) : result WaitOutcome Error :=
  match poll fd (poll_timeout_ms timeout) with
  | Ok value => if 0 <? value then Ok WaitReady else Ok WaitTimeout
  | Err text => Err (Device (with_source Backend text))
  end.
Definition xdp_driver_mode (d : XdpDriver) : PollMode :=
  match d with BusyPollDriver => BusyPoll | XdpWaitDrivenDriver _ => WaitDriven end.
Definition xdp_driver_wait (poll : Z → Z → result Z string) (d : XdpDriver) (timeout : option Z) : result WaitOutcome Error :=
  match d with
  | BusyPollDriver => Ok WaitSpurious
  | XdpWaitDrivenDriver fd => wait_fd_readable poll fd timeout
  end.
Definition xdp_wake_handle (d : XdpDriver) : option Z :=
  match d with BusyPollDriver => None | XdpWaitDrivenDriver fd => Some fd end.

(** A wait blocks for ever only without a timeout, returns at once only for a
    zero one, and never longer than asked by a millisecond or more. *)
Lemma poll_timeout_exact timeout : (∀ t, timeout = Some t → 0 ≤ t) →
  poll_timeout_ms timeout ≤ C_INT_MAX ∧
  (poll_timeout_ms timeout < 0 ↔ timeout = None) ∧ (poll_timeout_ms timeout = 0 ↔ timeout = Some 0) ∧
  ∀ t, timeout = Some t → (poll_timeout_ms timeout - 1) * 1000000 < t ∨ t = 0.
Proof.
  intros Ht. unfold poll_timeout_ms, C_INT_MAX. destruct timeout as [t|]; [|split_and!; [lia|split; done || lia|split; done || lia|done]].
  specialize (Ht t eq_refl). destruct (Z.eqb_spec t 0) as [->|Hn].
  - split_and!; [lia|split; [lia|done]|done|intros t [= <-]; by right].
  - assert (0 ≤ t / 1000000) by (apply Z.div_pos; lia). pose proof (Z.mul_div_le t 1000000 ltac:(lia)).
    destruct (Z.leb_spec (t / 1000000) 2147483647); (split_and!; [lia|split; [lia|done]|split; [lia|intros [= ->]; done]|]); intros t0 [= <-]; left; lia.
Qed.

(** *** What a socket says of its device *)
Section Device.
Context {Q QB R : Type}.
Implicit Types (s : XdpIpPacketSocket Q QB) (u : XdpUdpSocket Q QB R).
Definition socket_ifindex s : Z := ic_ifindex (so_config s).
Definition socket_id s : Z := ic_queue_id (so_config s).
Definition socket_queue_affinity s (queue : Z) : QueueAffinity := Any.
Definition socket_numa_node s (queue : Z) : option Z :=
  match so_live s with Some o => Some (op_numa_node o) | None => ic_numa_node (so_config s) end.
Definition refresh_mtu s : result Z Error :=
  if ic_mtu (so_config s) <=? U32_MAX then Ok (ic_mtu (so_config s))
  else Err (Device (with_source Backend "out of range integral type conversion attempted")).
Definition udp_socket_mtu u : Z := saturating_sub (ic_mtu (so_config (us_ip u))) (IPV4_MIN_HEADER_LEN + UDP_HEADER_LEN).
Definition with_ttl u (ttl : Z) : XdpUdpSocket Q QB R := mkXdpUdpSocket (us_ip u) (us_local_addr u) (us_accepted_ports u) (us_router u) ttl.
End Device.

Section Sockets.
Context {E : Type} `{Aya E} {Q QB : Type} `{ArrayQueue Q Z, ArrayQueue QB (list Z)}.
Variables (fs : Sysfs) (loaded : result E string) (hash : Z).
Variables (os : Trace → SysCall → result Z Z) (offsets_of : Trace → Z → xdp_mmap_offsets).
Variables (sys : Sys) (umem_addr : Z) (maps : Z → RingMaps) (checks : bool).
Implicit Types (g : Registry E) (c : XdpIpPacketSocketConfig) (t : Trace) (s : XdpIpPacketSocket Q QB).
Abbreviation LM := (LM (E := E)).
Notation "'let!' x := m 'in' k" := (lm_bind m (λ x, k)) (at level 10, x pattern, m at level 200, k at level 200).

(** ** Configurations and drivers *)
Definition clone_config c : LM XdpIpPacketSocketConfig := λ g t,
  match ic_attached_program c with
  | None => Ret (g, t, Ok c)
  | Some h => let '(g, h) := handle_clone g h in Ret (g, t, Ok (with_attached_program c (Some h)))
  end.
Definition drop_config c g t : outcome (Registry E * Trace) :=
  Ret (match ic_attached_program c with Some h => handle_drop g h | None => g end, t).

Definition make_driver (mode : PollMode) (o : Opened Q) : LM XdpDriver :=
  match mode with
  | BusyPoll => lm_ret BusyPollDriver
  | WaitDriven => let! fd := lm_sys (try_clone_fd os (op_raw o)) in lm_ret (XdpWaitDrivenDriver fd)
  end.
Definition drop_driver (d : XdpDriver) g t : outcome (Registry E * Trace) :=
  match d with
  | BusyPollDriver => Ret (g, t)
  | XdpWaitDrivenDriver fd => '(t, _) ← close_fd os fd t; Ret (g, t)
  end.

(** ** One socket *)
Definition construct_state c (driver : XdpDriver) : outcome (XdpIpPacketSocket Q QB) :=
  rx_pool ← with_heap_capacity (qb_rx (ic_buffers c)) (sz_rx (ic_rings c));
  tx_pool ← with_heap_capacity (qb_tx (ic_buffers c)) (sz_tx (ic_rings c));
  Ret (mkXdpIpPacketSocket c [ic_queue_id c] rx_pool tx_pool driver (local_routes_new (ic_route_snapshot c)) None).
(** The pools and the live state of an opening replace those of the
    construction. *)
Definition install s (o : Opened Q) : outcome (XdpIpPacketSocket Q QB) :=
  let rx := cf_rx_ctx (op_config o) in
  let tx := cf_tx_ctx (op_config o) in
  let frame_size := um_frame_size (xs_umem (op_sock o)) in
  rx_pool ← pool_live (bc_layout rx) RxPool frame_size;
  tx_pool ← pool_live (bc_layout tx) TxPool frame_size;
  Ret (mkXdpIpPacketSocket (so_config s) (so_nic_queues s) rx_pool tx_pool (so_driver s) (so_routes s) (Some o)).

(** The fields in the order of their declaration. *)
Definition drop_ip_socket s g t : outcome (Registry E * Trace) :=
  '(g, t) ← drop_config (so_config s) g t;
  '(g, t) ← drop_driver (so_driver s) g t;
  match so_live s with
  | Some o => live_drop os o g t
  | None => Ret (g, t)
  end.
Fixpoint drop_ip_sockets (ss : list (XdpIpPacketSocket Q QB)) g t : outcome (Registry E * Trace) :=
  match ss with
  | [] => Ret (g, t)
  | s :: ss => '(g, t) ← drop_ip_socket s g t; drop_ip_sockets ss g t
  end.

Abbreviation live_open_one := (open (Q := Q) fs loaded hash os offsets_of sys umem_addr maps).
Abbreviation live_open_shared := (open_shared_members (Q := Q) fs loaded hash os offsets_of sys umem_addr maps checks).

(** [with_driver] and [new_busy_poll]. *)
Definition with_driver c (driver : XdpDriver) : LM (XdpIpPacketSocket Q QB) :=
  let! s := lm_out (construct_state c driver) in
  lm_owning (drop_ip_socket s) (
  let! o := live_open_one (so_config s) in
  lm_out (install s o)).
Definition new_busy_poll c : LM (XdpIpPacketSocket Q QB) := with_driver c BusyPollDriver.
Definition new_wait_driven c : LM (XdpIpPacketSocket Q QB) :=
  lm_owning (drop_config c) (
  let! o := live_open_one c in
  let! driver := lm_owning (live_drop os o) (make_driver WaitDriven o) in
  let! s := lm_out (construct_state c driver) in
  lm_out (install s o)).

(** ** A socket per queue over one UMEM

    The members opened and not yet used, and the sockets built, in the order a
    failing [?] drops them. *)
Definition drop_opening (o : Opened Q) (rest : list (Opened Q * Z)) (sockets : list (XdpIpPacketSocket Q QB)) g t : outcome (Registry E * Trace) :=
  '(g, t) ← live_drop os o g t;
  '(g, t) ← drop_members os rest.*1 g t;
  drop_ip_sockets sockets g t.
Fixpoint member_sockets (mode : PollMode) c (members : list (Opened Q * Z)) (sockets : list (XdpIpPacketSocket Q QB)) : LM (list (XdpIpPacketSocket Q QB)) :=
  match members with
  | [] => lm_ret sockets
  | (o, queue) :: members =>
      let! driver := lm_owning (drop_opening o members sockets) (make_driver mode o) in
      let! member_config := clone_config c in
      let! s := lm_out (construct_state (with_queue_id member_config queue) driver) in
      let! s := lm_out (install s o) in
      member_sockets mode c members (sockets ++ [s])
  end.
Definition open_shared (mode : PollMode) c (queues : list Z) : LM (list (XdpIpPacketSocket Q QB)) :=
  let! sockets :=
    lm_owning (drop_config c) (
    let! opened := live_open_shared c queues in
    member_sockets mode c (zip opened queues) []) in
  let! _ := lm_step (drop_config c) in
  lm_ret sockets.
Definition open_shared_busy_poll : XdpIpPacketSocketConfig → list Z → LM (list (XdpIpPacketSocket Q QB)) := open_shared BusyPoll.
Definition open_shared_wait_driven : XdpIpPacketSocketConfig → list Z → LM (list (XdpIpPacketSocket Q QB)) := open_shared WaitDriven.

(** ** UDP sockets

    Every function exists for both drivers; the definitions take the mode, and
    those named [wait_driven] are the second copy. [make_router i] is what the [i]-th call of the closure returns. *)
Section Udp.
Context {R : Type}.
Definition from_ip_socket_accepting (ip : XdpIpPacketSocket Q QB) (local_addr : SocketAddr) (accepted : XdpUdpAcceptedPorts) (router : R) :
    XdpUdpSocket Q QB R := mkXdpUdpSocket ip local_addr accepted router 64.
Definition udp_sockets (ips : list (XdpIpPacketSocket Q QB)) (local_addr : SocketAddr) (accepted : XdpUdpAcceptedPorts) (make_router : nat → R) :
    list (XdpUdpSocket Q QB R) :=
  imap (λ i ip, from_ip_socket_accepting ip local_addr accepted (make_router i)) ips.

Definition open_udp_shared_with_accepting (mode : PollMode) c (queues : list Z) (local_addr : SocketAddr) (accepted : XdpUdpAcceptedPorts)
    (make_router : nat → R) : LM (list (XdpUdpSocket Q QB R)) :=
  let! ips := open_shared mode c queues in
  lm_ret (udp_sockets ips local_addr accepted make_router).
Definition open_udp_shared_with (mode : PollMode) c (queues : list Z) (ip port : Z) (make_router : nat → R) : LM (list (XdpUdpSocket Q QB R)) :=
  open_udp_shared_with_accepting mode c queues (SocketAddrV4 ip port) (Single port) make_router.

Definition open_udp_shared_wait_driven_with_accepting := open_udp_shared_with_accepting WaitDriven.
Definition open_udp_shared_wait_driven_with := open_udp_shared_with WaitDriven.

(** [XdpUdpSocketBuilder::open_busy_poll] and [open_wait_driven]. *)
Definition builder_open (mode : PollMode) (b : UdpBuilder.t R) : LM (XdpUdpSocket Q QB R) :=
  let! ip := match mode with BusyPoll => new_busy_poll (UdpBuilder.config b) | WaitDriven => new_wait_driven (UdpBuilder.config b) end in
  lm_ret (from_ip_socket_accepting ip (UdpBuilder.local_addr b) (UdpBuilder.accepted b) (UdpBuilder.router_of b)).
Definition builder_open_wait_driven := builder_open WaitDriven.
End Udp.

Definition open_udp_shared_accepting (mode : PollMode) c (queues : list Z) (local_addr : SocketAddr) (accepted : XdpUdpAcceptedPorts) :
    LM (list (XdpUdpSocket Q QB XdpQueueLocalRouter)) :=
  let snapshot := ic_route_snapshot c in
  open_udp_shared_with_accepting mode c queues local_addr accepted (λ _, mkQueueLocalRouter (local_routes_new snapshot)).
Definition open_udp_shared (mode : PollMode) c (queues : list Z) (ip port : Z) : LM (list (XdpUdpSocket Q QB XdpQueueLocalRouter)) :=
  open_udp_shared_accepting mode c queues (SocketAddrV4 ip port) (Single port).

Definition open_udp_shared_wait_driven_accepting := open_udp_shared_accepting WaitDriven.
Definition open_udp_shared_wait_driven := open_udp_shared WaitDriven.

(** ** Aggregates *)
Definition aggregate_of {M} (members : list M) : LM (XdpUdpAggregate M) :=
  match from_shared_umem_members members with
  | Some a => lm_ret a
  | None => lm_err LiveNoMembers
  end.
(** [XdpIpPacketAggregate::open_busy_poll] and [open_wait_driven]. *)
Definition ip_aggregate_open (mode : PollMode) c (queues : list Z) : LM (XdpUdpAggregate (XdpIpPacketSocket Q QB)) :=
  let! members := open_shared mode c queues in aggregate_of members.

(** [XdpUdpAggregate::open_busy_poll] and [open_wait_driven], with
    [_accepting_ports] and [_accepting_port_range], and [_with] a router. *)
Definition udp_aggregate_open (mode : PollMode) c (queues : list Z) (ip port : Z) : LM (XdpUdpAggregate (XdpUdpSocket Q QB XdpQueueLocalRouter)) :=
  let! members := open_udp_shared mode c queues ip port in aggregate_of members.
Definition udp_aggregate_open_ports (mode : PollMode) c (queues : list Z) (local_addr : SocketAddr) (ports : list Z) :
    LM (XdpUdpAggregate (XdpUdpSocket Q QB XdpQueueLocalRouter)) :=
  let! accepted := lm_out (accepted_ports ports) in
  let! members := open_udp_shared_accepting mode c queues local_addr accepted in aggregate_of members.
Definition udp_aggregate_open_port_range (mode : PollMode) c (queues : list Z) (local_addr : SocketAddr) (start stop : Z) :
    LM (XdpUdpAggregate (XdpUdpSocket Q QB XdpQueueLocalRouter)) :=
  let! accepted := lm_out (accepted_range start stop) in
  let! members := open_udp_shared_accepting mode c queues local_addr accepted in aggregate_of members.
Definition ip_aggregate_open_wait_driven := ip_aggregate_open WaitDriven.
Definition udp_aggregate_open_wait_driven := udp_aggregate_open WaitDriven.
Definition udp_aggregate_open_wait_driven_ports := udp_aggregate_open_ports WaitDriven.
Definition udp_aggregate_open_wait_driven_port_range := udp_aggregate_open_port_range WaitDriven.
Section With.
Context {R : Type} (make_router : nat → R).
Definition udp_aggregate_open_with (mode : PollMode) c (queues : list Z) (ip port : Z) : LM (XdpUdpAggregate (XdpUdpSocket Q QB R)) :=
  let! members := open_udp_shared_with mode c queues ip port make_router in aggregate_of members.
Definition udp_aggregate_open_with_ports (mode : PollMode) c (queues : list Z) (local_addr : SocketAddr) (ports : list Z) :
    LM (XdpUdpAggregate (XdpUdpSocket Q QB R)) :=
  let! accepted := lm_out (accepted_ports ports) in
  let! members := open_udp_shared_with_accepting mode c queues local_addr accepted make_router in aggregate_of members.
Definition udp_aggregate_open_with_port_range (mode : PollMode) c (queues : list Z) (local_addr : SocketAddr) (start stop : Z) :
    LM (XdpUdpAggregate (XdpUdpSocket Q QB R)) :=
  let! accepted := lm_out (accepted_range start stop) in
  let! members := open_udp_shared_with_accepting mode c queues local_addr accepted make_router in aggregate_of members.
Definition udp_aggregate_open_wait_driven_with := udp_aggregate_open_with WaitDriven.
Definition udp_aggregate_open_wait_driven_with_ports := udp_aggregate_open_with_ports WaitDriven.
Definition udp_aggregate_open_wait_driven_with_port_range := udp_aggregate_open_with_port_range WaitDriven.

(** ** Plans *)
Definition plan_udp_with_unpinned (mode : PollMode) (plan : XdpWorkerPlan) (ip port : Z) : LM (XdpUdpAggregate (XdpUdpSocket Q QB R)) :=
  match wp_port_filter plan with
  | AllIp => udp_aggregate_open_with mode (with_bind_udp_port (wp_config plan) (Some port)) (wp_queues plan) ip port
  | UdpPorts ports =>
      udp_aggregate_open_with_ports mode (with_bind_udp_port (wp_config plan) None) (wp_queues plan) (SocketAddrV4 ip port) ports
  | UdpPortRange start stop =>
      udp_aggregate_open_with_port_range mode (with_bind_udp_port (wp_config plan) None) (wp_queues plan) (SocketAddrV4 ip port) start stop
  end.
End With.
Definition plan_udp_unpinned (mode : PollMode) (plan : XdpWorkerPlan) (ip port : Z) :
    LM (XdpUdpAggregate (XdpUdpSocket Q QB XdpQueueLocalRouter)) :=
  match wp_port_filter plan with
  | AllIp => udp_aggregate_open mode (with_bind_udp_port (wp_config plan) (Some port)) (wp_queues plan) ip port
  | UdpPorts ports =>
      udp_aggregate_open_ports mode (with_bind_udp_port (wp_config plan) None) (wp_queues plan) (SocketAddrV4 ip port) ports
  | UdpPortRange start stop =>
      udp_aggregate_open_port_range mode (with_bind_udp_port (wp_config plan) None) (wp_queues plan) (SocketAddrV4 ip port) start stop
  end.
Definition plan_ip_unpinned (mode : PollMode) (plan : XdpWorkerPlan) : LM (XdpUdpAggregate (XdpIpPacketSocket Q QB)) :=
  ip_aggregate_open mode (wp_config plan) (wp_queues plan).

(** The thread is pinned first; a failure drops the plan. *)
Variable sched_setaffinity : gset Z → result unit Z.
Definition pin (plan : XdpWorkerPlan) : LM unit :=
  lm_owning (drop_config (wp_config plan)) (lm_result LivePin (pin_current_thread_to_cpu sched_setaffinity (wp_cpu plan))).
Definition plan_udp (mode : PollMode) (plan : XdpWorkerPlan) (ip port : Z) : LM (XdpUdpAggregate (XdpUdpSocket Q QB XdpQueueLocalRouter)) :=
  let! _ := pin plan in plan_udp_unpinned mode plan ip port.
Definition plan_udp_with_router {R} (mode : PollMode) (plan : XdpWorkerPlan) (ip port : Z) (make_router : nat → R) :
    LM (XdpUdpAggregate (XdpUdpSocket Q QB R)) :=
  let! _ := pin plan in plan_udp_with_unpinned make_router mode plan ip port.
Definition plan_ip (mode : PollMode) (plan : XdpWorkerPlan) : LM (XdpUdpAggregate (XdpIpPacketSocket Q QB)) :=
  let! _ := pin plan in plan_ip_unpinned mode plan.
Definition plan_udp_wait_driven_with_router {R} := plan_udp_with_router (R := R) WaitDriven.
Definition plan_ip_wait_driven := plan_ip WaitDriven.
Definition plan_ip_unpinned_wait_driven := plan_ip_unpinned WaitDriven.
End Sockets.

(** ** Proofs *)
Section Proofs.
Context {E : Type} `{Aya E, !AyaLaws E} {Q QB : Type} `{ArrayQueue Q Z, ArrayQueue QB (list Z)}.
Context (fs : Sysfs) (loaded : result E string) (hash : Z).
Context (os : Trace → SysCall → result Z Z) (offsets_of : Trace → Z → xdp_mmap_offsets).
Context (sys : Sys) (umem_addr : Z) (maps : Z → RingMaps) (checks : bool).
Implicit Types (s : XdpIpPacketSocket Q QB) (o : Opened Q) (hs : list XdpProgramHandle) (x : gmap Z Z).

(** Layouts and rings whose buffers a vector can hold. *)
Record pools_fit (c : XdpIpPacketSocketConfig) : Prop := mkPoolsFit {
  pf_rx : chunk_size (qb_rx (ic_buffers c)) ≤ ISIZE_MAX;
  pf_tx : chunk_size (qb_tx (ic_buffers c)) ≤ ISIZE_MAX;
  pf_rx_ring : sz_rx (ic_rings c) ≤ U32_MAX;
  pf_tx_ring : sz_tx (ic_rings c) ≤ U32_MAX;
}.

Lemma heap_capacity_returns layout n : n ≤ U32_MAX → chunk_size layout ≤ ISIZE_MAX → ∃ p : XdpPool QB, with_heap_capacity layout n = Ret p.
Proof.
  intros Hn Hl. unfold with_heap_capacity, heap_reclaim_new. unfold U32_MAX, ISIZE_MAX in *. destruct (Z.leb_spec (n * 16) (2 ^ 63 - 1)); [|lia].
  destruct (Z.leb_spec (chunk_size layout) (2 ^ 63 - 1)); [|lia]. rewrite orb_true_r. run. eauto.
Qed.
Lemma construct_ok c d : pools_fit c → ∃ s, construct_state c d = Ret s ∧ so_config s = c ∧ so_nic_queues s = [ic_queue_id c] ∧
  so_driver s = d ∧ so_routes s = local_routes_new (ic_route_snapshot c) ∧ so_live s = None.
Proof.
  intros [F1 F2 F3 F4]. unfold construct_state. destruct (heap_capacity_returns _ _ F3 F1) as [rx ->]. run.
  destruct (heap_capacity_returns _ _ F4 F2) as [tx ->]. run. by eexists.
Qed.
Lemma install_ok s o : ∃ s', install s o = Ret s' ∧ so_config s' = so_config s ∧ so_nic_queues s' = so_nic_queues s ∧
  so_driver s' = so_driver s ∧ so_routes s' = so_routes s ∧ so_live s' = Some o.
Proof. by eexists. Qed.

(** ** What a socket holds *)
Definition config_handles (c : XdpIpPacketSocketConfig) : list XdpProgramHandle := option_list (ic_attached_program c).
Definition driver_resources (d : XdpDriver) : list Resource :=
  match d with BusyPollDriver => [] | XdpWaitDrivenDriver fd => [RFd fd] end.
Definition driver_mode (d : XdpDriver) : PollMode := match d with BusyPollDriver => BusyPoll | XdpWaitDrivenDriver _ => WaitDriven end.
Definition live_of {A} (f : Opened Q → A) s : list A := option_list (f <$> so_live s).
Definition sock_handles s : list XdpProgramHandle := config_handles (so_config s) ++ live_of op_program s.
Definition sock_resources s : list Resource := driver_resources (so_driver s) ++ mjoin (live_of (resources ∘ op_raw) s).
Definition sock_queues s : list Z := live_of (rs_queue_id ∘ op_raw) s.

Section Attached.
Context (c : XdpIpPacketSocketConfig).
Abbreviation att := (ic_attached_program c).
Abbreviation scope := (lscoped att).

(** Its handles are of the program of the configuration. *)
Definition same_program (h : XdpProgramHandle) : Prop := ∀ h0, att = Some h0 → ph_program h0 = ph_program h.
Definition sock_ok s : Prop := ic_attached_program (so_config s) = att ∧ Forall same_program (live_of op_program s).

Context (Hk : kernel_ok (E := E) os maps c).

Lemma gives_config c' hs x : ic_attached_program c' = att → gives att [] (config_handles c ++ hs, x) (hs, x) (drop_config c').
Proof.
  intros Hc g t Hg. unfold drop_config, config_handles in *. rewrite Hc. destruct att as [h|] eqn:Ha.
  - destruct (gives_handle (Some h) hs x h g t Hg) as (g' & d & E1 & Hr). exists g', d. by injection E1 as <- <-.
  - by apply gives_nothing.
Qed.
Lemma gives_driver d v : gives att (driver_resources d) v v (drop_driver os d).
Proof.
  destruct d as [|fd]; [apply gives_nothing|]. intros g t Hg. cbn. unfold close_fd, call_. run. exists g, [(SysClose fd, os t (SysClose fd))]. done.
Qed.
Lemma gives_live o hs x : same_program (op_program o) →
  gives att (resources (op_raw o)) (op_program o :: hs, x) (hs, delete (rs_queue_id (op_raw o)) x) (live_drop os o).
Proof.
  intros Hs g t Hg. destruct (live_drop_ok os maps c Hk o g t hs x Hg Hs) as (g' & d & E1 & Hr & Ha & Hg'). by exists g', d.
Qed.
Lemma gives_members (ms : list (Opened Q)) hs x : Forall same_program (op_program <$> ms) →
  gives att ((op_raw <$> ms) ≫= resources) ((op_program <$> ms) ++ hs, x) (hs, xsk_del x ((rs_queue_id ∘ op_raw) <$> ms)) (drop_members os ms).
Proof.
  revert x. induction ms as [|o ms IH]; intros x Hs; [apply gives_nothing|]. rewrite fmap_cons in Hs. apply Forall_cons in Hs as [Ho Hs].
  change ((op_raw <$> o :: ms) ≫= resources) with (resources (op_raw o) ++ ((op_raw <$> ms) ≫= resources)).
  refine (gives_seq _ _ _ _ ((op_program <$> ms) ++ hs, delete (rs_queue_id (op_raw o)) x) _
    (live_drop os o) (drop_members os ms) _ _).
  - by apply gives_live.
  - by apply IH.
Qed.
Lemma gives_socket s hs x : sock_ok s → gives att (sock_resources s) (sock_handles s ++ hs, x) (hs, xsk_del x (sock_queues s)) (drop_ip_socket os s).
Proof.
  intros [Hc Hs]. unfold sock_resources, sock_handles, sock_queues, live_of, config_handles in *. rewrite Hc, <- app_assoc.
  refine (gives_seq _ [] (driver_resources (so_driver s) ++ _) _ (option_list (op_program <$> so_live s) ++ hs, x) _
    (drop_config (so_config s)) _ _ _); [exact (gives_config (so_config s) _ x Hc)|].
  refine (gives_seq _ (driver_resources (so_driver s)) _ _ (option_list (op_program <$> so_live s) ++ hs, x) _
    (drop_driver os (so_driver s)) (λ g t, match so_live s with Some o => live_drop os o g t | None => Ret (g, t) end) _ _); [apply gives_driver|].
  destruct (so_live s) as [o|]; cbn in *; [|apply gives_nothing]. apply Forall_cons in Hs as [Hs _]. exact (gives_live o hs x Hs).
Qed.
Lemma gives_sockets (ss : list (XdpIpPacketSocket Q QB)) hs x : Forall sock_ok ss →
  gives att (ss ≫= sock_resources) ((ss ≫= sock_handles) ++ hs, x) (hs, xsk_del x (ss ≫= sock_queues)) (drop_ip_sockets os ss).
Proof.
  revert x. induction ss as [|s ss IH]; intros x Hs; [apply gives_nothing|]. apply Forall_cons in Hs as [Ho Hs].
  change ((s :: ss) ≫= sock_handles) with (sock_handles s ++ (ss ≫= sock_handles)). rewrite <- app_assoc.
  change ((s :: ss) ≫= sock_resources) with (sock_resources s ++ (ss ≫= sock_resources)).
  refine (gives_seq _ _ _ _ ((ss ≫= sock_handles) ++ hs, xsk_del x (sock_queues s)) _
    (drop_ip_socket os s) (drop_ip_sockets os ss) _ _); [by apply gives_socket|].
  change ((s :: ss) ≫= sock_queues) with (sock_queues s ++ (ss ≫= sock_queues)). unfold xsk_del. rewrite foldl_app. by apply IH.
Qed.

Lemma make_driver_scoped mode o v : scope [] v v (make_driver os mode o) (λ _, v)
  (λ d driver, acquired d = driver_resources driver ∧ driver_mode driver = mode).
Proof.
  destruct mode; [|by apply lscoped_ret]. unfold make_driver.
  apply (lscoped_bind _ _ _ _ _ _ _ _ _ _ (lscoped_sys _ _ _ _ (scoped_call os (SysDupFd (rs_fd (op_raw o))) (λ _, eq_refl)))).
  intros d1 fd ->. exists [RFd fd]. split; [done|]. apply lscoped_total. intros g t Hg. by exists g, (XdpWaitDrivenDriver fd).
Qed.

Lemma clone_config_scoped rs hs x ve : config_handles c ⊆ hs → scope rs (hs, x) ve (clone_config c) (λ _, (config_handles c ++ hs, x))
  (λ d c', d = [] ∧ c' = c).
Proof.
  intros Hin. apply lscoped_total. intros g t Hg. unfold clone_config, config_handles in *. destruct att as [h|] eqn:Ha; [|by exists g, c].
  pose proof (view_clone (Some h) hs x g h Hg ltac:(apply Hin; left)) as Hv. destruct (handle_clone g h) as [g' h'] eqn:Hc.
  assert (h' = h) as -> by (unfold handle_clone in Hc; injection Hc as _ <-; by destruct h). exists g', (with_attached_program c (Some h)).
  split; [done|]. split; [done|]. split; [done|]. destruct c. cbn in *. by subst.
Qed.

(** ** The sockets of the members *)
Record built (mode : PollMode) (m : Opened Q * Z) s : Prop := mkBuilt {
  bu_live : so_live s = Some m.1;
  bu_config : so_config s = with_queue_id c m.2;
  bu_queues : so_nic_queues s = [m.2];
  bu_driver : driver_mode (so_driver s) = mode;
  bu_routes : so_routes s = local_routes_new (ic_route_snapshot c);
}.

Lemma attached_queue q : ic_attached_program (with_queue_id c q) = att.
Proof. by destruct c. Qed.
Lemma snapshot_queue q : ic_route_snapshot (with_queue_id c q) = ic_route_snapshot c.
Proof. by destruct c. Qed.
Lemma queue_queue q : ic_queue_id (with_queue_id c q) = q.
Proof. by destruct c. Qed.
Lemma pools_fit_queue q : pools_fit c → pools_fit (with_queue_id c q).
Proof. intros [F1 F2 F3 F4]. destruct c. by constructor. Qed.

Lemma built_ok mode m s : built mode m s → same_program (op_program m.1) → sock_ok s.
Proof.
  intros Hb Hs. unfold sock_ok, live_of. rewrite (bu_config _ _ _ Hb), (bu_live _ _ _ Hb), attached_queue. split; [done|]. by constructor.
Qed.
Lemma built_holds mode m s : built mode m s → sock_handles s = config_handles c ++ [op_program m.1] ∧
  sock_resources s = driver_resources (so_driver s) ++ resources (op_raw m.1) ∧ sock_queues s = [rs_queue_id (op_raw m.1)].
Proof.
  intros Hb. unfold sock_handles, sock_resources, sock_queues, live_of, config_handles. rewrite (bu_config _ _ _ Hb), (bu_live _ _ _ Hb), attached_queue.
  done.
Qed.

Lemma gives_opening o (rest : list (Opened Q * Z)) (sockets : list (XdpIpPacketSocket Q QB)) hs x : same_program (op_program o) →
  Forall same_program (op_program <$> rest.*1) → Forall sock_ok sockets →
  gives att (resources (op_raw o) ++ ((op_raw <$> rest.*1) ≫= resources) ++ (sockets ≫= sock_resources))
    (op_program o :: (op_program <$> rest.*1) ++ (sockets ≫= sock_handles) ++ hs, x)
    (hs, xsk_del x (rs_queue_id (op_raw o) :: ((rs_queue_id ∘ op_raw) <$> rest.*1) ++ (sockets ≫= sock_queues)))
    (drop_opening os o rest sockets).
Proof.
  intros Ho Hrest Hsocks. refine (gives_seq _ _ _ _ _ _ (live_drop os o) _ (gives_live o _ x Ho) _).
  change (xsk_del x (?q :: ?l)) with (xsk_del (delete q x) l). rewrite xsk_del_app.
  refine (gives_seq _ _ _ _ _ _ (drop_members os rest.*1) (drop_ip_sockets os sockets) (gives_members _ _ _ Hrest) _).
  by apply gives_sockets.
Qed.

(** One member: what the loop does before it goes on. *)
Lemma member_socket_scoped mode o q rs hs x ve rel : pools_fit c → config_handles c ⊆ hs → gives att rs (hs, x) ve rel →
  ∀ (k : XdpIpPacketSocket Q QB → LM (E := E) (list (XdpIpPacketSocket Q QB))) R P,
  (∀ s, built mode (o, q) s → scope (driver_resources (so_driver s) ++ rs) (config_handles c ++ hs, x) ve (k s) R
     (λ d ss, ∀ d', acquired d' = driver_resources (so_driver s) → P (d' ++ d) ss)) →
  scope rs (hs, x) ve
    (lm_bind (lm_owning rel (make_driver os mode o)) (λ driver, lm_bind (clone_config c) (λ member_config,
       lm_bind (lm_out (construct_state (with_queue_id member_config q) driver)) (λ s, lm_bind (lm_out (install s o)) k)))) R P.
Proof.
  intros Hfit Hin Hrel k R P Hk'.
  apply (lscoped_bind _ _ _ _ _ _ _ _ _ _ (lscoped_guard _ _ _ _ _ _ _ _ _ Hrel (make_driver_scoped mode o (hs, x)))).
  intros d1 driver [Ha Hmode]. exists (driver_resources driver ++ rs). split; [by rewrite Ha|].
  apply (lscoped_seq _ _ _ _ _ _ _ _ _ _ (clone_config_scoped _ hs x ve Hin)). intros ? ? [-> ->]. split; [done|].
  destruct (construct_ok (with_queue_id c q) driver (pools_fit_queue q Hfit)) as (s & Es & C1 & C2 & C3 & C4 & _).
  apply (lscoped_seq _ _ _ _ _ _ _ (λ d a, d = [] ∧ a = s) _ _ (lscoped_out _ _ _ _ _ s _ Es (conj eq_refl eq_refl))). intros ? ? [-> ->]. split; [done|].
  destruct (install_ok s o) as (s' & Ei & I1 & I2 & I3 & I4 & I5).
  apply (lscoped_seq _ _ _ _ _ _ _ (λ d a, d = [] ∧ a = s') _ _ (lscoped_out _ _ _ _ _ s' _ Ei (conj eq_refl eq_refl))). intros ? ? [-> ->]. split; [done|].
  assert (Hb : built mode (o, q) s').
  { constructor; cbn; [done|congruence| | |]; rewrite ?I2, ?C2, ?queue_queue, ?I3, ?C3, ?I4, ?C4, ?snapshot_queue; done. }
  eapply lscoped_weaken; [rewrite <- C3, <- I3; exact (Hk' s' Hb)|]. intros d ss HP. split; [|done]. apply HP. by rewrite I3, C3.
Qed.

Lemma member_sockets_scoped mode hs x x0 : pools_fit c → ∀ (members : list (Opened Q * Z)) (sockets : list (XdpIpPacketSocket Q QB)),
  Forall sock_ok sockets → Forall same_program (op_program <$> members.*1) →
  (∀ qs, qs ≡ₚ ((rs_queue_id ∘ op_raw) <$> members.*1) ++ (sockets ≫= sock_queues) → xsk_del x qs = x0) →
  scope (((op_raw <$> members.*1) ≫= resources) ++ (sockets ≫= sock_resources))
    ((op_program <$> members.*1) ++ (sockets ≫= sock_handles) ++ config_handles c ++ hs, x) (config_handles c ++ hs, x0)
    (member_sockets os mode c members sockets) (λ ss, ((ss ≫= sock_handles) ++ config_handles c ++ hs, x))
    (λ d ss, ∃ new, ss = sockets ++ new ∧ Forall2 (built mode) members new ∧ acquired d = new ≫= (driver_resources ∘ so_driver)).
Proof.
  intros Hfit. induction members as [|[o q] members IH]; intros sockets Hsocks Hms Hx; cbn [member_sockets].
  { apply lscoped_total. intros g t Hg. exists g, sockets. split; [done|]. split; [done|]. exists []. by rewrite app_nil_r. }
  change (((o, q) :: members).*1) with (o :: members.*1) in *.
  rewrite fmap_cons in Hms. apply Forall_cons in Hms as [Ho Hms].
  change ((op_raw <$> o :: members.*1) ≫= resources) with (resources (op_raw o) ++ ((op_raw <$> members.*1) ≫= resources)). rewrite <- app_assoc.
  change ((op_program <$> o :: members.*1) ++ ?l) with (op_program o :: (op_program <$> members.*1) ++ l).
  pose proof (gives_opening o members sockets (config_handles c ++ hs) x Ho Hms Hsocks) as Hgives.
  change (xsk_del x (?q :: ?l)) with (xsk_del x (((rs_queue_id ∘ op_raw) <$> o :: members.*1) ++ (sockets ≫= sock_queues))) in Hgives.
  rewrite (Hx _ (reflexivity _)) in Hgives.
  refine (member_socket_scoped mode o q _ _ _ _ _ Hfit _ Hgives _ _ _ _); [set_solver|]. intros s Hb. destruct (built_holds _ _ _ Hb) as (Hh & Hr & Hq).
  assert (Hs' : Forall sock_ok (sockets ++ [s])) by (apply Forall_app; split; [done|by constructor; [eapply built_ok|]]).
  assert (Hbind : ∀ {B} (f : XdpIpPacketSocket Q QB → list B), (sockets ++ [s]) ≫= f = (sockets ≫= f) ++ f s).
  { intros B f. rewrite bind_app. cbn. by rewrite app_nil_r. }
  specialize (IH (sockets ++ [s]) Hs' Hms). rewrite !Hbind, Hh, Hr, Hq in IH.
  eapply lscoped_view, lscoped_resources, lscoped_weaken; [| |apply IH|].
  - cbn [fst]. solve_Permutation.
  - cbn [fst]. solve_Permutation.
  - intros qs Hqs. apply Hx. rewrite Hqs. cbn. solve_Permutation.
  - cbn beta. intros d ss (new & -> & Hbs & Ha). split; [|done]. intros d' Ha'. exists (s :: new). rewrite <- app_assoc. split; [done|].
    split; [by constructor|]. by rewrite acquired_app, Ha, Ha'.
Qed.

(** Sockets built from members hold what the members held, and their drivers'
    descriptors. *)
Definition live_raws (ss : list (XdpIpPacketSocket Q QB)) : list RawSocket := ss ≫= live_of op_raw.
Lemma built_all mode members ss : Forall2 (built mode) members ss →
  ss ≫= sock_resources ≡ₚ ((op_raw <$> members.*1) ≫= resources) ++ (ss ≫= (driver_resources ∘ so_driver)) ∧
  ss ≫= sock_queues = (rs_queue_id ∘ op_raw) <$> members.*1 ∧ live_raws ss = op_raw <$> members.*1.
Proof.
  induction 1 as [|m s members ss Hb Hbs (IH1 & IH2 & IH3)]; [done|]. destruct (built_holds _ _ _ Hb) as (_ & Hr & Hq).
  assert (Hl : live_of op_raw s = [op_raw m.1]) by (unfold live_of; by rewrite (bu_live _ _ _ Hb)).
  unfold live_raws in *. rewrite !bind_cons, IH1, IH2, IH3, Hr, Hq, Hl, !fmap_cons, bind_cons. split; [|done]. cbn [compose]. solve_Permutation.
Qed.

(** What opening a socket per queue leaves. *)
Record sockets_opened (mode : PollMode) (queues : list Z) x (d : Trace) (ss : list (XdpIpPacketSocket Q QB)) : Prop := mkSocketsOpened {
  sp_queues : NoDup queues;
  sp_members : ∃ ms u, Forall2 (built mode) (zip ms queues) ss ∧ um_ok u ∧ members_from c u 0 queues ms ∧
    (seqZ 0 (len queues) ≫= λ i, member_rx_frames u (ic_frame_count c) i ++ member_tx_frames u (ic_frame_count c) i)
    = frame_offset u <$> seqZ 0 (ic_frame_count c * len queues);
  sp_ok : Forall sock_ok ss;
  sp_held : Permutation (acquired d) (ss ≫= sock_resources);
  sp_back : xsk_del (xsk_add x (zip (live_raws ss) queues)) (ss ≫= sock_queues) = x;
}.

Abbreviation shared := (open_shared fs loaded hash os offsets_of sys umem_addr maps checks (Q := Q) (QB := QB)).

Lemma open_shared_ok mode queues hs x : pools_fit c → queues ≠ [] → checks = false ∨ ic_frame_count c * len queues ≤ 2 ^ 31 →
  (∀ q, q ∈ queues → x !! q = None) →
  scope [] (config_handles c ++ hs, x) (hs, x) (shared mode c queues)
    (λ ss, ((ss ≫= sock_handles) ++ hs, xsk_add x (zip (live_raws ss) queues))) (sockets_opened mode queues x).
Proof.
  intros Hfit Hne Hchecks Hq. unfold open_shared.
  apply (lscoped_bind _ _ _ _ _ _ (λ ss, ((ss ≫= sock_handles) ++ config_handles c ++ hs, xsk_add x (zip (live_raws ss) queues)))
    (λ d ss, sockets_opened mode queues x d ss)).
  - apply (lscoped_guard _ _ _ _ _ _ _ _ _ (gives_config c hs x eq_refl)).
    assert (Hin : ∀ h, att = Some h → h ∈ config_handles c ++ hs) by (intros h Ha; unfold config_handles; rewrite Ha; set_solver).
    apply (lscoped_bind _ _ _ _ _ _ _ _ _ _ (open_shared_scoped fs loaded hash os offsets_of sys umem_addr maps checks c Hk
      (config_handles c ++ hs) x Hin queues Hne Hchecks Hq)).
    intros d1 ms (Hnd & [Hheld (u & Hu & Hcount & Hms & Hslices)] & Hsame). destruct (members_queues _ _ _ _ _ Hms) as [Eq El].
    assert (Hfst : (zip ms queues).*1 = ms) by (apply fst_zip; lia).
    assert (Hback : ∀ qs, qs ≡ₚ (rs_queue_id ∘ op_raw) <$> ms → xsk_del (xsk_add x (zip (op_raw <$> ms) queues)) qs = x).
    { intros qs Hqs. rewrite Eq in Hqs. apply map_eq. intros q. rewrite xsk_del_lookup. case_bool_decide as Hqin.
      - symmetry. apply Hq. by rewrite <- Hqs.
      - apply xsk_add_other. rewrite snd_zip by (rewrite length_fmap; lia). by rewrite <- Hqs. }
    exists ((op_raw <$> ms) ≫= resources). rewrite app_nil_r, Hheld. split; [done|].
    pose proof (member_sockets_scoped mode hs (xsk_add x (zip (op_raw <$> ms) queues)) x Hfit (zip ms queues) [] ltac:(constructor)) as Hloop.
    rewrite Hfst in Hloop. cbn [mbind list_bind] in Hloop. rewrite !app_nil_r in Hloop. specialize (Hloop Hsame Hback).
    eapply lscoped_weaken; [exact Hloop|]. cbn beta. intros d2 ss (new & -> & Hb & Ha). cbn [app].
    destruct (built_all _ _ _ Hb) as (B1 & B2 & B3). rewrite Hfst in *. rewrite B3. split; [|done]. constructor.
    + done.
    + by exists ms, u.
    + clear -Hk Hb Hsame Hfst. assert (Hs : Forall same_program (op_program ∘ fst <$> zip ms queues)) by (by rewrite list_fmap_compose, Hfst).
      clear Hsame Hfst. induction Hb as [|m s ps ss Hb _ IH]; [done|]. rewrite fmap_cons in Hs. apply Forall_cons in Hs as [H1' H2']. constructor; [|by apply IH].
      by eapply built_ok.
    + by rewrite acquired_app, Hheld, Ha, B1.
    + rewrite B2, B3. by apply Hback.
  - intros d1 ss Hp. exists (acquired d1). rewrite app_nil_r. split; [done|].
    apply lscoped_total. intros g t Hg. destruct (gives_config c ((ss ≫= sock_handles) ++ hs) (xsk_add x (zip (live_raws ss) queues)) eq_refl g t) as (g' & d & E1 & _ & _ & Hg').
    { eapply view_equiv; [|exact Hg]. solve_Permutation. }
    exists g', ss. unfold drop_config in E1. unfold lm_bind, lm_step, drop_config. run. injection E1 as -> _. split; [done|]. split; [exact Hg'|].
    by rewrite app_nil_r.
Qed.
End Attached.

(** ** One socket *)
Abbreviation new_socket := (λ mode c, match mode with
  | BusyPoll => new_busy_poll fs loaded hash os offsets_of sys umem_addr maps c
  | WaitDriven => new_wait_driven fs loaded hash os offsets_of sys umem_addr maps c (Q := Q) (QB := QB)
  end).

(** The socket [s] owns an opening of the configuration [c]. *)
Definition owns_opening mode c s : Prop :=
  sock_ok c s ∧ driver_mode (so_driver s) = mode ∧ so_config s = c ∧ ∃ o, so_live s = Some o ∧ rs_queue_id (op_raw o) = ic_queue_id c.
Definition opening_view c hs x s : View := (sock_handles s ++ hs, xsk_add x (zip (live_of op_raw s) [ic_queue_id c])).

Lemma install_scoped mode c hs x s0 o rs ve : so_config s0 = c → driver_mode (so_driver s0) = mode → rs_queue_id (op_raw o) = ic_queue_id c →
  same_program c (op_program o) →
  lscoped (ic_attached_program c) rs (op_program o :: config_handles c ++ hs, <[ic_queue_id c := rs_fd (op_raw o)]> x) ve (lm_out (install s0 o))
    (opening_view c hs x) (λ d s, d = [] ∧ sock_resources s = driver_resources (so_driver s0) ++ resources (op_raw o) ∧ owns_opening mode c s).
Proof.
  intros Hc Hmode Hqueue Hsame. destruct (install_ok s0 o) as (s & Ei & I1 & I2 & I3 & I4 & I5). apply lscoped_total. intros g0 t0 Hg0.
  exists g0, s. unfold lm_out. rewrite Ei. unfold opening_view, owns_opening, sock_ok, sock_handles, sock_resources, live_of.
  rewrite I1, I3, I5, Hc. cbn. split; [done|]. split.
  - eapply view_equiv; [|exact Hg0]. solve_Permutation.
  - split_and!; try done; [by constructor|by exists o].
Qed.

Lemma socket_scoped mode c hs x : kernel_ok (E := E) os maps c → pools_fit c → x !! ic_queue_id c = None →
  lscoped (ic_attached_program c) [] (config_handles c ++ hs, x) (hs, x) (new_socket mode c) (opening_view c hs x)
    (λ d s, Permutation (acquired d) (sock_resources s) ∧ owns_opening mode c s).
Proof.
  intros Hk Hfit Hq. assert (Hin : ∀ h, ic_attached_program c = Some h → h ∈ config_handles c ++ hs).
  { intros h Ha. unfold config_handles. rewrite Ha. set_solver. }
  pose proof (open_scoped fs loaded hash os offsets_of sys umem_addr maps c Hk (config_handles c ++ hs) x Hin Hq (Q := Q)) as Hopen.
  destruct mode.
  - apply (lscoped_guard _ _ _ _ _ _ _ _ _ (gives_config c c hs x eq_refl)). apply (lscoped_bind _ _ _ _ _ _ _ _ _ _ Hopen).
    intros d1 o [Ho Hsame]. pose proof (oo_queue _ _ _ _ _ Ho) as Hqueue. exists (resources (op_raw o)). split; [by rewrite (oo_held _ _ _ _ _ Ho), app_nil_r|].
    pose proof (gives_live c Hk o (config_handles c ++ hs) (<[ic_queue_id c := rs_fd (op_raw o)]> x) Hsame) as Hlive. rewrite Hqueue, delete_insert_id in Hlive by done.
    apply (lscoped_bind _ _ _ _ _ _ _ _ _ _ (lscoped_guard _ _ _ _ _ _ _ _ _ Hlive (make_driver_scoped c WaitDriven o _))).
    intros d2 driver [Ha Hd]. exists (acquired d2 ++ resources (op_raw o)). split; [done|].
    destruct (construct_ok c driver Hfit) as (s0 & Es & C1 & _ & C3 & _).
    apply (lscoped_seq _ _ _ _ _ _ _ (λ d a, d = [] ∧ a = s0) _ _ (lscoped_out _ _ _ _ _ s0 _ Es (conj eq_refl eq_refl))). intros ? ? [-> ->]. split; [done|].
    eapply lscoped_weaken; [apply (install_scoped WaitDriven c hs x s0 o); by rewrite ?C3|]. intros d s (-> & Hr & Hs). split; [|done]. split; [|done].
    rewrite !acquired_app, Ha, (oo_held _ _ _ _ _ Ho), Hr, C3. cbn [app acquired omap list_omap]. rewrite app_nil_r. apply Permutation_app_comm.
  - destruct (construct_ok c BusyPollDriver Hfit) as (s0 & Es & C1 & _ & C3 & _ & C5).
    apply (lscoped_seq _ _ _ _ _ _ _ (λ d a, d = [] ∧ a = s0) _ _ (lscoped_out _ _ _ _ _ s0 _ Es (conj eq_refl eq_refl))). intros ? ? [-> ->]. split; [done|].
    assert (Hs0 : sock_ok c s0) by (unfold sock_ok, live_of; rewrite C1, C5; split; [done|constructor]).
    pose proof (gives_socket c Hk s0 hs x Hs0) as Hg. unfold sock_resources, sock_handles, sock_queues, live_of in Hg. rewrite C1, C3, C5 in Hg.
    cbn in Hg. rewrite app_nil_r in Hg. rewrite C1. apply (lscoped_guard _ _ _ _ _ _ _ _ _ Hg). apply (lscoped_bind _ _ _ _ _ _ _ _ _ _ Hopen).
    intros d1 o [Ho Hsame]. exists (acquired d1). split; [by rewrite app_nil_r|].
    eapply lscoped_weaken; [apply (install_scoped BusyPoll c hs x s0 o); [done|by rewrite C3|apply Ho|exact Hsame]|]. intros d s (-> & Hr & Hs). split; [|done]. split; [|done].
    cbn [app]. by rewrite app_nil_r, (oo_held _ _ _ _ _ Ho), Hr, C3.
Qed.

(** Opening one socket, for busy polling or for waiting, is all or nothing:
    also the clone of the descriptor for the driver may fail, and then the
    opened socket is dropped with its registration. *)
Theorem socket_open_exact mode c hs x g t : kernel_ok (E := E) os maps c → pools_fit c → x !! ic_queue_id c = None →
  view (ic_attached_program c) (config_handles c ++ hs, x) g →
  ∃ g' d r, new_socket mode c g t = Ret (g', t ++ d, r) ∧
    match r with
    | Err _ => Permutation (released d) (acquired d) ∧ view (ic_attached_program c) (hs, x) g'
    | Ok s => released d = [] ∧ Permutation (acquired d) (sock_resources s) ∧ driver_mode (so_driver s) = mode ∧ so_config s = c ∧
        (∃ o, so_live s = Some o ∧ rs_queue_id (op_raw o) = ic_queue_id c ∧
           view (ic_attached_program c) (sock_handles s ++ hs, <[ic_queue_id c := rs_fd (op_raw o)]> x) g') ∧
        (∀ t', ∃ g'' d', drop_ip_socket os s g' t' = Ret (g'', t' ++ d') ∧ Permutation (released d') (acquired d) ∧
           view (ic_attached_program c) (hs, x) g'')
    end.
Proof.
  intros Hk Hfit Hq Hv. destruct (socket_scoped mode c hs x Hk Hfit Hq g t Hv) as (g' & d & r & E1 & Hr).
  exists g', d, r. split; [exact E1|]. destruct r as [s|e]; [|by rewrite app_nil_r in Hr].
  unfold opening_view in Hr.
  destruct Hr as (Hrel & Hv' & Hheld & Hsok & Hmode & Hc & o & Hlive & Hqueue). split; [done|]. split; [done|]. split; [done|]. split; [done|].
  assert (Hx : xsk_add x (zip (live_of op_raw s) [ic_queue_id c]) = <[ic_queue_id c := rs_fd (op_raw o)]> x) by (unfold live_of; by rewrite Hlive).
  rewrite Hx in Hv'. split; [by exists o|]. intros t'. destruct (gives_socket c Hk s hs _ Hsok g' t' Hv') as (g'' & d' & E2 & Hr2 & _ & Hv'').
  exists g'', d'. split; [done|]. split; [by rewrite Hr2|]. unfold sock_queues, live_of in Hv''. rewrite Hlive in Hv''. cbn in Hv''.
  by rewrite Hqueue, delete_insert_id in Hv''.
Qed.

(** ** Aggregates and plans *)
Abbreviation shared := (open_shared fs loaded hash os offsets_of sys umem_addr maps checks (Q := Q) (QB := QB)).
Abbreviation udp_shared := (open_udp_shared_with_accepting fs loaded hash os offsets_of sys umem_addr maps checks (Q := Q) (QB := QB)).

Lemma aggregate_scoped {M} att v ve (m : LM (E := E) (list M)) R P : lscoped att [] v ve m R P → (∀ d ms, P d ms → ms ≠ []) →
  lscoped att [] v ve (lm_bind m aggregate_of) (λ a, R (ag_members a))
    (λ d a, P d (ag_members a) ∧ a = mkAggregate (ag_members a) 0 0 true).
Proof.
  intros Hm Hne g t Hg. destruct (Hm g t Hg) as (g' & d & r & E1 & Hr). unfold lm_bind. rewrite E1. run. destruct r as [ms|e]; [|by exists g', d, (Err e)].
  destruct Hr as (H1' & H2' & H3'). specialize (Hne d ms H3'). destruct ms as [|m0 ms]; [done|]. by eexists g', d, (Ok (mkAggregate (m0 :: ms) 0 0 true)).
Qed.

Lemma udp_sockets_ip {R} (ips : list (XdpIpPacketSocket Q QB)) local accepted (mk : nat → R) : us_ip <$> udp_sockets ips local accepted mk = ips.
Proof. apply list_eq. intros i. unfold udp_sockets. rewrite list_lookup_fmap, list_lookup_imap. by destruct (ips !! i). Qed.

Lemma sockets_opened_some c mode queues x d ss : queues ≠ [] → sockets_opened c mode queues x d ss → ss ≠ [].
Proof.
  intros Hne [_ (ms & u & Hb & _ & Hms & _) _ _ _] ->. destruct (members_queues _ _ _ _ _ Hms) as [_ El]. apply Forall2_length in Hb.
  rewrite length_zip_with in Hb. destruct queues as [|q queues]; [done|]. destruct ms; [done|]. done.
Qed.

(** What a plan of the factory opens: the configuration with its port, and the
    ports its sockets accept. *)
Definition udp_config (plan : XdpWorkerPlan) (port : Z) : XdpIpPacketSocketConfig :=
  with_bind_udp_port (wp_config plan) (match wp_port_filter plan with AllIp => Some port | _ => None end).
Definition udp_accepted (plan : XdpWorkerPlan) (port : Z) : outcome XdpUdpAcceptedPorts :=
  match wp_port_filter plan with
  | AllIp => Ret (Single port)
  | UdpPorts ports => accepted_ports ports
  | UdpPortRange start stop => accepted_range start stop
  end.

Lemma udp_config_same plan port : ic_attached_program (udp_config plan port) = ic_attached_program (wp_config plan) ∧
  ic_rings (udp_config plan port) = ic_rings (wp_config plan) ∧ ic_buffers (udp_config plan port) = ic_buffers (wp_config plan) ∧
  ic_frame_count (udp_config plan port) = ic_frame_count (wp_config plan) ∧ ic_route_snapshot (udp_config plan port) = ic_route_snapshot (wp_config plan).
Proof. unfold udp_config. by destruct (wp_config plan). Qed.

Lemma accepted_returns plan port : port_filter_validate (wp_port_filter plan) = Ok tt → ∃ a, udp_accepted plan port = Ret a.
Proof.
  unfold udp_accepted. destruct (wp_port_filter plan) as [|ports|start stop]; cbn; [eauto| |].
  - unfold accepted_ports. destruct (len ports =? 0); [done|]. run. eauto.
  - unfold accepted_range. destruct (Z.ltb_spec stop start); [done|]. destruct (Z.leb_spec start stop); [|lia]. run. eauto.
Qed.

Lemma plan_unpinned {R} (mk : nat → R) mode plan ip port accepted : udp_accepted plan port = Ret accepted →
  plan_udp_with_unpinned fs loaded hash os offsets_of sys umem_addr maps checks mk mode plan ip port
  = lm_bind (udp_shared mode (udp_config plan port) (wp_queues plan) (SocketAddrV4 ip port) accepted mk) aggregate_of.
Proof.
  unfold udp_accepted, plan_udp_with_unpinned, udp_config, udp_aggregate_open_with, open_udp_shared_with, udp_aggregate_open_with_ports,
    udp_aggregate_open_with_port_range, lm_out, lm_bind at 1. destruct (wp_port_filter plan) as [|ports|start stop]; [by intros [= <-]|..]; by intros ->.
Qed.

Lemma pin_scoped sched plan hs x : lscoped (ic_attached_program (wp_config plan)) [] (config_handles (wp_config plan) ++ hs, x) (hs, x) (pin sched plan)
  (λ _, (config_handles (wp_config plan) ++ hs, x)) (λ d _, d = []).
Proof.
  apply (lscoped_guard _ _ _ _ _ _ _ _ _ (gives_config (wp_config plan) (wp_config plan) hs x eq_refl)).
  eapply lscoped_weaken; [apply lscoped_result|]. intros d [] [-> _]. done.
Qed.

(** The opening of a plan as scoped code. *)
Lemma plan_scoped {R} sched (mk : nat → R) mode plan ip port accepted hs x :
  let c := wp_config plan in
  kernel_ok (E := E) os maps c → pools_fit c → udp_accepted plan port = Ret accepted → wp_queues plan ≠ [] →
  checks = false ∨ ic_frame_count c * len (wp_queues plan) ≤ 2 ^ 31 → (∀ q, q ∈ wp_queues plan → x !! q = None) →
  kernel_ok (E := E) os maps (udp_config plan port) ∧
  lscoped (ic_attached_program c) [] (config_handles c ++ hs, x) (hs, x)
    (plan_udp_with_router fs loaded hash os offsets_of sys umem_addr maps checks sched (QB := QB) (Q := Q) mode plan ip port mk)
    (λ a, (((us_ip <$> ag_members a) ≫= sock_handles) ++ hs, xsk_add x (zip (live_raws (us_ip <$> ag_members a)) (wp_queues plan))))
    (λ d a, (sockets_opened (udp_config plan port) mode (wp_queues plan) x d (us_ip <$> ag_members a) ∧
       ∃ ips, ag_members a = udp_sockets ips (SocketAddrV4 ip port) accepted mk) ∧ a = mkAggregate (ag_members a) 0 0 true).
Proof.
  intros c Hk Hfit Hacc Hne Hchecks Hq. destruct (udp_config_same plan port) as (Ca & Cr & Cb & Cf & _). set (c' := udp_config plan port) in *.
  assert (Hk' : kernel_ok (E := E) os maps c') by (destruct Hk; constructor; rewrite ?Cr; done). split; [done|].
  assert (Hfit' : pools_fit c') by (destruct Hfit; constructor; rewrite ?Cb, ?Cr; done).
  pose proof (open_shared_ok c' Hk' mode (wp_queues plan) hs x Hfit' Hne) as Hopen. unfold config_handles in Hopen. rewrite Cf, Ca in Hopen.
  specialize (Hopen Hchecks Hq). unfold plan_udp_with_router.
  apply (lscoped_seq _ _ _ _ _ _ _ _ _ _ (pin_scoped sched plan hs x)). intros d1 [] ->. split; [done|].
  rewrite (plan_unpinned mk mode plan ip port accepted Hacc).
  apply (aggregate_scoped _ _ _ _ (λ ms, (((us_ip <$> ms) ≫= sock_handles) ++ hs, xsk_add x (zip (live_raws (us_ip <$> ms)) (wp_queues plan))))
    (λ d ms, sockets_opened c' mode (wp_queues plan) x d (us_ip <$> ms) ∧ ∃ ips, ms = udp_sockets ips (SocketAddrV4 ip port) accepted mk)).
  - unfold open_udp_shared_with_accepting. apply (lscoped_bind _ _ _ _ _ _ _ _ _ _ Hopen). intros d1 ips Hips.
    exists (acquired d1). rewrite app_nil_r. split; [done|]. apply lscoped_total. intros g0 t0 Hg0. eexists g0, _. split; [reflexivity|].
    rewrite udp_sockets_ip, app_nil_r. split; [done|]. split; [done|]. by exists ips.
  - intros d ms [Hs _] ->. by apply (sockets_opened_some c' mode (wp_queues plan) x d []) in Hs.
Qed.

End Proofs.

(** A plan of two queues on an attached program, whose own handle is the only
    one: opened for waiting, and its second descriptor refused. *)
Definition pair_plan : XdpWorkerPlan := mkPlan 2 (Some 0) 7 [0; 1] pair_config AllIp.
Definition pair_plan_open (os : Trace → SysCall → result Z Z) :
    outcome (Registry Object * Trace * result (XdpUdpAggregate (XdpUdpSocket (list Z * Z) (list (list Z) * Z) Z)) LiveError) :=
  plan_udp_with_router nic_fs (Ok fresh_object) 9 os flat_offsets small_sys 4096 pair_maps true (λ _, Ok tt) WaitDriven pair_plan 10 53 Z.of_nat
    shared_registry [].
Definition few_fds (t : Trace) (c : SysCall) : result Z Z :=
  match c with
  | SysDupFd _ => if existsb (λ e, match e.1 with SysDupFd _ => true | _ => false end) t then Err 24 else good_os t c
  | _ => good_os t c
  end.

Lemma few_fds_mmap t fd n offset : few_fds t (SysMmap fd n offset) ≠ Ok 0.
Proof. apply good_mmap. Qed.
Lemma pair_pools_fit : pools_fit pair_config.
Proof. constructor; vm_compute; congruence. Qed.

